(* ===== verification/_CoqProject ===== *)
-Q . S2P
Prelude.v
Script.v
Crypto.v
Engine.v
Standard.v
Merkle.v
Codec.v
Block.v
Address.v
Consensus.v
Deployments.v
Governance.v
Voting.v
Ledger.v
Supply.v
History.v
Chain.v
Mirror.v
Replay.v
Progress.v
Genesis.v
Acceptance.v
Mempool.v
Pool.v
Priority.v
Wire.v
Compact.v
Peers.v
Proofs.v
Events.v
Store.v
Restart.v
Branches.v
Heal.v
StoreWitness.v
Node.v
NodeFacts.v
NodeStore.v
Sync.v
NodeWitness.v
Spv.v
SpvFacts.v
StakeProof.v
StakeWitness.v
Wallet.v
WalletFacts.v
Payment.v
PaymentWitness.v
Swap.v
SwapFacts.v
OrderBook.v
Settlement.v
SettlementFacts.v
SwapPolicy.v
SwapPolicyFacts.v
SwapWitness.v
