(* ===== verification/Prelude.v ===== *)
(** * vTorrent-NG: a verification development

    vTorrent-NG is a proof-of-stake cryptocurrency node written in Rust.  This
    development models its consensus core, from script bytes to chain
    reorganization, and what is built around it: the pool of transactions, the
    persistent store, the node's message handlers, the light client, the wallet and
    atomic swaps.  It proves what makes them correct, each and together.

    ** The program and its model

    A transaction ([vtorrent-node/src/block.rs]) spends outputs by running scripts
    ([vtorrent-script]); a block of transactions is checked by the consensus rules
    ([consensus.rs]) and applied to the ledger under a journal ([chain/chain_reorg.rs]);
    the chain ([chain.rs]) keeps every known block, follows the heaviest branch and
    reorganizes by undoing journals; governance ([governance.rs], [deployments.rs])
    changes the parameters of the rules by votes recorded in transactions; the first
    block distributes the balances of the legacy chain ([genesis.rs]).

    A node ([node/handler.rs]) takes frames off the wire ([vtorrent-p2p]), hands blocks to
    the chain and transactions to the pool ([mempool.rs]), and emits events, from which
    the daemon keeps the store ([vtorrent-store]) in step; after a restart the chain is
    loaded from the store.  Light clients ([vtorrent-spv]) follow the headers and check
    stake proofs that a full node rebuilds from its journals ([chain/stake_proof.rs]).  The
    wallet ([vtorrent-wallet], [vtorrent-wallet-service]) selects coins of the chain, signs
    payments and admits them to the pool; swaps ([atomic_swap.rs]) lock coins in a
    contract, and their settlement is read off the chain
    ([vtorrent-rpc/src/swap_reconciliation.rs]).

    - [Prelude.v] (this file): results with panics, the state monad, machine integers,
      byte strings, vectors, ordered listings of finite maps, weakest preconditions.
    - [Script.v]: [vtorrent-script/src/opcode.rs], [error.rs], [script.rs].
    - [Crypto.v]: the third-party primitives as a class with its laws;
      [vtorrent-core/src/crypto.rs].
    - [Engine.v]: [vtorrent-script/src/engine.rs].
    - [Standard.v]: [vtorrent-script/src/standard.rs].
    - [Merkle.v]: [vtorrent-spv/src/merkle.rs] and the Merkle root of [block.rs].
    - [Codec.v]: prefix codes, shared by the byte layouts.
    - [Block.v]: [vtorrent-node/src/block.rs].
    - [Address.v]: [vtorrent-core/src/address.rs].
    - [Consensus.v]: [vtorrent-node/src/consensus.rs].
    - [Deployments.v]: [vtorrent-node/src/deployments.rs].
    - [Governance.v], [Voting.v]: [vtorrent-node/src/governance.rs], the operations and
      the theorems about votes.
    - [Ledger.v]: the ledger of [chain/chain_reorg.rs]: applying a transaction and a
      block, journals and their rollback.
    - [Supply.v], [History.v]: theorems about the ledger: conservation of value, the
      money supply, no transaction applied twice.
    - [Chain.v]: [vtorrent-node/src/chain.rs] and the rest of [chain_reorg.rs]: block
      acceptance, forks, reorganization, pruning, templates.
    - [Mirror.v], [Replay.v], [Progress.v], [Acceptance.v]: theorems about the chain:
      what an observer of its outcomes knows, that it is the replay of its active branch,
      that it accepts what it should, what holds of every chain that grows from genesis.
    - [Genesis.v]: [vtorrent-node/src/genesis.rs].
    - [Mempool.v]: [vtorrent-node/src/mempool.rs]; [Pool.v], [Priority.v]: its invariant,
      block templates and fee estimates.
    - [Wire.v]: [vtorrent-p2p/src/message.rs], [codec.rs].  [Compact.v]: [compact.rs].
      [Peers.v]: [ban_manager.rs] and the tables of [peer_manager.rs].
    - [Proofs.v]: [node/proof_service.rs], [node/proof_retry.rs].  [Events.v]: [events.rs].
    - [Store.v]: [vtorrent-store/src/store.rs] and the bridge of
      [vtorrent-daemon/src/main.rs]; [Restart.v], [Heal.v]: the store follows the chain, a
      restart restores it, a damaged store heals; [Branches.v]: lemmas on prefixes of a
      branch; [StoreWitness.v]: instances.
    - [Node.v]: [vtorrent-node/src/node/handler.rs] and what it uses of [node/]; a handler
      changes the record [Node], which holds the chain, the pool, the peers and the
      orphans.  [NodeFacts.v], [NodeStore.v], [Sync.v]: the orphan pool, the node and its
      store, catching up with a peer; [NodeWitness.v]: instances.
    - [Spv.v]: [vtorrent-spv/src/spv_chain.rs], [stake.rs], [bloom.rs]; [SpvFacts.v]: what
      the light client accepts.  [StakeProof.v]: [chain/stake_proof.rs] and what a proof
      shows; [StakeWitness.v]: instances.
    - [Wallet.v]: [vtorrent-core/src/keys.rs], [vtorrent-wallet/src/tx_builder.rs] and the
      payments of [vtorrent-wallet-service/src/lib.rs]; [WalletFacts.v]: keys, coin
      selection and the builder; [Payment.v]: the wallet against the chain and the pool;
      [PaymentWitness.v]: instances.
    - [Swap.v]: [vtorrent-node/src/atomic_swap.rs]; [SwapFacts.v]: the contract;
      [OrderBook.v]: the order book as a state machine.
    - [Settlement.v]: the observation of a swap in
      [vtorrent-rpc/src/swap_reconciliation.rs] and [refund_lineage.rs];
      [SettlementFacts.v]: what is reported is on the chain.
    - [SwapPolicy.v]: [vtorrent-wallet-service/src/swap_policy.rs] and the claims and
      refunds of [lib.rs]; [SwapPolicyFacts.v]: what a taker can rely on;
      [SwapWitness.v]: instances for all of swaps.

    ** Conventions

    A fallible function returns [res E A], whose third case [Panic] is a Rust panic:
    an index out of range, an overflow of checked arithmetic, a failed [unwrap].  A
    method that changes its receiver is a function [st S E A] from a state to a state
    and a result, written with [do*]; the state is returned on errors too, so that what
    an error leaves behind can be stated.  Integers are [Z] with the arithmetic of their
    width written out ([sat_add], [checked_sub], [as_u32], [padd]: panicking addition).
    Byte strings and Rust strings are [list Z]; a [HashMap] or [BTreeMap] is a [gmap],
    and an iteration in key order is the list [in_order].

    What lies outside the repository is a parameter with named laws and an instance that
    satisfies them: hash functions and signatures ([Crypto], [CryptoLaws], [toy]), the
    binary layout of the [bincode] crate ([Bincode], [BincodeLaws]), hexadecimal text
    ([Hex], [HexDecode]), Base58 ([Base58Laws]), JSON ([Json], [JsonLaws]), the binary
    payloads of messages ([BincodeOf]) and of the light client ([SpvBincode]), signing
    with a secret key ([Secp], [SecpLaws]), the iteration order of hash maps ([KeyOrder],
    [MapOrder]), the system clock ([now]), random numbers, and the balances of the legacy
    snapshot ([Snapshot]).  Between components, [Indexed] states what the settlement of
    swaps needs of a chain, and is proved for every chain that grows from genesis.  A theorem
    that says a hash commits to its input has the hypothesis [collision_free] for the
    inputs it compares.

    ** What the theorems show

    - Scripts: what the builders write is what the iterator reads; executing any script
      on any stack returns without a panic; each standard script is spent exactly by who
      it names (key hash, script hash, multisignature, hash time lock, cold staking).
    - Blocks: ids and signature hashes are unambiguous; the three Merkle constructions
      agree, proofs are complete and sound; the UTXO commitment binds the output set.
    - Rules: what a validated block satisfies; stake kernels proportional to stake;
      exact rewards; claims signed for this chain only.
    - Governance: votes are backed by locked stake, each is counted once, undo records
      restore the state.
    - Ledger: the journal of a block restores the state before it; no transaction but
      the reward creates coins; the supply never exceeds its cap; the sum of the coins is
      bounded by the supply.
    - Chain: a chain that starts from the genesis block and receives any blocks in any
      order is the replay of its active branch; its tip has the most work; errors leave
      it unchanged; valid blocks extend it; a heavier valid branch is adopted; its loops
      terminate; every transaction is indexed once.
    - Pool: its indexes are exact, its limits are kept, replacements outbid what they
      replace; templates list parents first and the best-paying entries first; after a
      reorganization every entry is valid again.
    - Store: it mirrors the chain through every acceptance and reorganization; a restart
      loads the same chain; a damaged tail is cut off and rebuilt, when no height in it names a
      block that is kept.
    - Node: whatever messages arrive of those that have a handler in [NodeStore.v], its store
      stays in step with its chain; the blocks a node lacks of a branch, as many as the orphan
      pool holds, lead to that branch in whatever order they arrive; the recursion on orphans
      ends; streams of frames and compact blocks are read back as sent.
    - Light client: its headers above height 0 are linked, up to one that was trusted without a
      parent, its best tip has the most work, and no call stops it; an accepted
      stake proof shows a coin that the chain holds, and stake blocks that the journals
      reach back to are served one.
    - Wallet: selection takes the fewest coins that pay and fails only if none do; a
      payment conserves value; a payment the coins cover is admitted by the node's own pool.
    - Swaps: who can spend the contract; claims are accepted at any time and refunds from
      the expiry on, by the chain and, above the dust limit, by the pool; once the funding
      is verified, the taker's claim goes through and
      nobody else can spend before the expiry; a funded order is never lost from the book;
      what is reported as settled is settled; refunds are replaced in a chain of rising fees.
    - Where the code falls short of its intent, a theorem says so for all inputs of the
      kind: headers stored at a wrong height, cold stakes under a script hash, a heal that
      keeps the old height, swaps below the dust limit, payments at the recommended rate.

    ** Fuel

    Three loops of a reorganization recurse on fuel and are [Panic] without it: the walk
    to the ancestors and the walk to the fork point get one unit more than the number of
    known parents, the rollback one more than the height.  [chain_loops_terminate] shows
    that this is enough on every chain.  The pruning loop gets as many rounds as there
    are bodies and removes one in each.  In the pool, evicting descendants, making room
    and listing the template get one unit more than the number of entries, and each round
    removes or lists one ([Pool.v], [Priority.v]).  The self-heal gets one round more than
    the height and lowers it in each ([Heal.v]).  [handle_block] nests at most as deep as
    there are orphans and gets one unit more; [handle_block_terminates] shows that it
    satisfies the recursive equation of the source, that no call is nested deeper, and that
    the equation has no other solution.  The node's locator gets a unit for each height;
    the light client's takes its fuel as an argument.  All other recursion is structural.

    ** Not modelled

    Text for the log and interpolated values of error messages.  Floating-point numbers:
    the sizes [BloomFilter::new] estimates are arguments, and [SwapOrder::rate] is left out.
    The queues to the peers have no capacity in the model.  The event loop, sockets,
    timers and locks are asynchronous code over third-party packages; the model has the
    handlers they call.  Of these, the ones for addresses, for requests and answers of stake
    proofs and for exchange orders (the commands [addr], [getaddr], [getproof], [proof] and
    [dexorder]) are left out.  Building coinstakes ([staking.rs]), peer discovery ([pex.rs]), the
    encrypted wallet file, the recovery file of swaps and the remaining RPC handlers, the
    bitcoin side of swaps ([vtorrent-btc]), the BitTorrent engine, the overlay and
    anonymity transports, the migration tools and the user interfaces are not modelled. *)

From stdpp Require Import base list gmap sorting strings.
From Stdlib Require Import ZArith Lia.

Open Scope Z_scope.

(** ** Results: Rust's [Result] with panics made explicit *)

Inductive res (E A : Type) : Type :=
  | Ok (a : A)
  | Err (e : E)
  | Panic.
Arguments Ok {E A} a.
Arguments Err {E A} e.
Arguments Panic {E A}.

Declare Scope res_scope.
Delimit Scope res_scope with res.

(** [m?] followed by the rest of the function. *)
Definition rbind {E A B} (m : res E A) (k : A -> res E B) : res E B :=
  match m with
  | Ok a => k a
  | Err e => Err e
  | Panic => Panic
  end.

Notation "'let*' x ':=' m 'in' k" := (rbind m (fun x => k))
  (at level 10, x name, m at level 200, k at level 200) : res_scope.
Notation "'let*' ( x , y ) ':=' m 'in' k" := (rbind m (fun '(x, y) => k))
  (at level 10, x name, y name, m at level 200, k at level 200) : res_scope.
Notation "'let*' ( x , y , z ) ':=' m 'in' k" := (rbind m (fun '(x, y, z) => k))
  (at level 10, x name, y name, z name, m at level 200, k at level 200) : res_scope.
Open Scope res_scope.

(** [Option::ok_or]. *)
Definition ok_or {E A} (o : option A) (e : E) : res E A :=
  match o with Some a => Ok a | None => Err e end.

(** [Option::unwrap], and every indexing operation of the language. *)
Definition unwrap {E A} (o : option A) : res E A :=
  match o with Some a => Ok a | None => Panic end.

(** [Result::map_err]. *)
Definition map_err {E F A} (f : E -> F) (m : res E A) : res F A :=
  match m with Ok a => Ok a | Err e => Err (f e) | Panic => Panic end.

(** An early [return Err(e)] unless [b]. *)
Definition ensure {E} (b : bool) (e : E) : res E unit :=
  if b then Ok tt else Err e.

Definition is_ok {E A} (m : res E A) : bool :=
  match m with Ok _ => true | _ => false end.

Definition is_err {E A} (m : res E A) : bool :=
  match m with Err _ => true | _ => false end.

(** A computation that cannot panic. *)
Definition safe {E A} (m : res E A) : Prop := m <> Panic.

(** A [for] loop whose body may return early. *)
Fixpoint rfold {E A B} (f : A -> B -> res E A) (a : A) (l : list B) : res E A :=
  match l with
  | [] => Ok a
  | b :: l => let* a' := f a b in rfold f a' l
  end.

(** ** Methods on [&mut self] that may return early

    A method is a function from the object to the object it leaves behind and its
    result; what was changed before an early return stays changed. *)

Definition st (S E A : Type) : Type := S -> S * res E A.

Definition sret {S E A} (a : A) : st S E A := fun s => (s, Ok a).

Definition sbind {S E A B} (m : st S E A) (k : A -> st S E B) : st S E B := fun s =>
  match m s with
  | (s', Ok a) => k a s'
  | (s', Err e) => (s', Err e)
  | (s', Panic) => (s', Panic)
  end.

(** A computation that does not change the object. *)
Definition slift {S E A} (m : res E A) : st S E A := fun s => (s, m).

Definition serr {S E A} (e : E) : st S E A := slift (Err e).

Definition sget {S E A} (f : S -> A) : st S E A := fun s => (s, Ok (f s)).

Definition smod {S E} (f : S -> S) : st S E unit := fun s => (f s, Ok tt).

Notation "'do*' x ':=' m 'in' k" := (sbind m (fun x => k))
  (at level 10, x name, m at level 200, k at level 200) : res_scope.
Notation "'do*' ( x , y ) ':=' m 'in' k" := (sbind m (fun '(x, y) => k))
  (at level 10, x name, y name, m at level 200, k at level 200) : res_scope.
Notation "'do*' ( x , y , z ) ':=' m 'in' k" := (sbind m (fun '(x, y, z) => k))
  (at level 10, x name, y name, z name, m at level 200, k at level 200) : res_scope.
Notation "'do*' '_' ':=' m 'in' k" := (sbind m (fun _ => k))
  (at level 10, m at level 200, k at level 200) : res_scope.

(** A [for] loop over a list. *)
Fixpoint sfor {S E A} (f : A -> st S E unit) (l : list A) : st S E unit :=
  match l with
  | [] => sret tt
  | a :: l => do* _ := f a in sfor f l
  end.

(** ** Machine integers *)

(** Unsigned integers are [Z]; the width appears where the source lets it show:
    saturating, checked and truncating operations.  [overflow-checks = true] in
    the workspace profile makes an unchecked overflow a panic. *)
Definition u8_max : Z := 255.
Definition u16_max : Z := 65535.
Definition u32_max : Z := 4294967295.
Definition u64_max : Z := 18446744073709551615.
Definition u128_max : Z := 340282366920938463463374607431768211455.
Definition i64_max : Z := 9223372036854775807.
Definition i64_min : Z := -9223372036854775808.

Definition sat_add (max a b : Z) : Z := Z.min max (a + b).
Definition sat_sub (a b : Z) : Z := Z.max 0 (a - b).
Definition sat_mul (max a b : Z) : Z := Z.min max (a * b).
Definition checked_add (max a b : Z) : option Z :=
  if a + b <=? max then Some (a + b) else None.
Definition checked_sub (a b : Z) : option Z :=
  if b <=? a then Some (a - b) else None.
Definition checked_i64 (z : Z) : option Z :=
  if (i64_min <=? z) && (z <=? i64_max) then Some z else None.

(** Unchecked addition: a panic on overflow. *)
Definition padd {E} (max a b : Z) : res E Z := unwrap (checked_add max a b).

(** The value of a function that returns no [Result]. *)
Definition no_err {E F A} (m : res E A) : res F A :=
  match m with Ok a => Ok a | _ => Panic end.

(** [x as u8], [x as u32], [x as u64] of a non-negative value. *)
Definition as_u8 (z : Z) : Z := z mod 256.
Definition as_u32 (z : Z) : Z := z mod 4294967296.
Definition as_u64 (z : Z) : Z := z mod 18446744073709551616.

(** Sum of a list of [u64] by [saturating_add] from zero. *)
Definition sat_sum (l : list Z) : Z := fold_left (sat_add u64_max) l 0.

Definition zsum (l : list Z) : Z := fold_right Z.add 0 l.

(** ** Byte strings *)

Abbreviation bytes := (list Z).

Definition is_byte (b : Z) : Prop := 0 <= b < 256.
Definition is_bytes (l : bytes) : Prop := Forall is_byte l.

(** [len()] of a vector or a slice. *)
Definition zlen {A} (l : list A) : Z := Z.of_nat (length l).

(** [to_le_bytes] of an [8 * n]-bit integer and [from_le_bytes]. *)
Fixpoint to_le (n : nat) (z : Z) : bytes :=
  match n with
  | O => []
  | S n => z mod 256 :: to_le n (z / 256)
  end.

Fixpoint from_le (l : bytes) : Z :=
  match l with
  | [] => 0
  | b :: l => b + 256 * from_le l
  end.

Definition le16 (z : Z) : bytes := to_le 2 z.
Definition le32 (z : Z) : bytes := to_le 4 z.
Definition le64 (z : Z) : bytes := to_le 8 z.

(** [a == b] on byte strings. *)
Fixpoint bytes_eqb (a b : bytes) : bool :=
  match a, b with
  | [], [] => true
  | x :: a, y :: b => (x =? y) && bytes_eqb a b
  | _, _ => false
  end.

(** Slice comparison ([Ord] of arrays and slices): lexicographic. *)
Fixpoint bytes_cmp (a b : bytes) : comparison :=
  match a, b with
  | [], [] => Eq
  | [], _ => Lt
  | _, [] => Gt
  | x :: a, y :: b => match x ?= y with Eq => bytes_cmp a b | c => c end
  end.

(** [&v[a..b]] with [a <= b <= len]; [starts_with]. *)
Definition slice (a b : Z) (l : bytes) : bytes :=
  take (Z.to_nat (b - a)) (drop (Z.to_nat a) l).

Fixpoint starts_with (pre l : bytes) : bool :=
  match pre, l with
  | [], _ => true
  | x :: pre, y :: l => (x =? y) && starts_with pre l
  | _, _ => false
  end.

(** ** Vectors: the operations that panic out of range *)

Definition vec_at {A} (l : list A) (i : Z) : option A :=
  if 0 <=? i then l !! Z.to_nat i else None.

Definition vec_get {E A} (l : list A) (i : Z) : res E A := unwrap (vec_at l i).

Definition vec_push {A} (l : list A) (x : A) : list A := l ++ [x].

Definition vec_pop {A} (l : list A) : option (A * list A) :=
  match rev l with
  | [] => None
  | x :: r => Some (x, rev r)
  end.

Definition vec_last {A} (l : list A) : option A :=
  match rev l with [] => None | x :: _ => Some x end.

(** [Vec::remove]: the element and the vector without it. *)
Definition vec_remove {E A} (l : list A) (i : Z) : res E (A * list A) :=
  let* x := vec_get l i in
  Ok (x, take (Z.to_nat i) l ++ drop (S (Z.to_nat i)) l).

(** [Vec::insert] (panics beyond the length). *)
Definition vec_insert {E A} (l : list A) (i : Z) (x : A) : res E (list A) :=
  if (0 <=? i) && (i <=? zlen l)
  then Ok (take (Z.to_nat i) l ++ x :: drop (Z.to_nat i) l)
  else Panic.

(** [slice::swap]. *)
Definition vec_swap {E A} (l : list A) (i j : Z) : res E (list A) :=
  let* x := vec_get l i in
  let* y := vec_get l j in
  Ok (<[Z.to_nat i := y]> (<[Z.to_nat j := x]> l)).

(** ** Automation *)

Create HintDb panicfree.

(** Split a hypothesis [rbind .. = Ok _] into the successful steps. *)
Ltac res_inv :=
  repeat match goal with
  | H : rbind ?m _ = Ok _ |- _ =>
      let E := fresh "E" in destruct m eqn:E; simpl in H; [|discriminate H|discriminate H]
  | H : ok_or ?o _ = Ok _ |- _ =>
      let E := fresh "E" in destruct o eqn:E; simpl in H; [|discriminate H]
  | H : unwrap ?o = Ok _ |- _ =>
      let E := fresh "E" in destruct o eqn:E; simpl in H; [|discriminate H]
  | H : ensure ?b _ = Ok _ |- _ =>
      let E := fresh "E" in destruct b eqn:E; simpl in H; [|discriminate H]
  | H : map_err _ ?m = Ok _ |- _ =>
      let E := fresh "E" in destruct m eqn:E; simpl in H; [|discriminate H|discriminate H]
  | H : Ok _ = Ok _ |- _ => injection H as H; try subst
  | H : Err _ = Ok _ |- _ => discriminate H
  | H : Panic = Ok _ |- _ => discriminate H
  | H : (if ?b then Err _ else _) = Ok _ |- _ =>
      let E := fresh "E" in destruct b eqn:E; [discriminate H|]
  | H : (if ?b then _ else Err _) = Ok _ |- _ =>
      let E := fresh "E" in destruct b eqn:E; [|discriminate H]
  end.

(** Turn boolean tests in hypotheses and goal into propositions. *)
Ltac bool_prop :=
  repeat match goal with
  | H : _ && _ = true |- _ => apply andb_true_iff in H; destruct H
  | H : _ || _ = false |- _ => apply orb_false_iff in H; destruct H
  | H : negb _ = true |- _ => apply negb_true_iff in H
  | H : negb _ = false |- _ => apply negb_false_iff in H
  | H : (_ =? _) = true |- _ => apply Z.eqb_eq in H
  | H : (_ =? _) = false |- _ => apply Z.eqb_neq in H
  | H : (_ <? _) = true |- _ => apply Z.ltb_lt in H
  | H : (_ <? _) = false |- _ => apply Z.ltb_ge in H
  | H : (_ <=? _) = true |- _ => apply Z.leb_le in H
  | H : (_ <=? _) = false |- _ => apply Z.leb_gt in H
  | H : bool_decide _ = true |- _ => apply bool_decide_eq_true in H
  | H : bool_decide _ = false |- _ => apply bool_decide_eq_false in H
  end.

(** ** Panic freedom *)

Lemma safe_Ok {E A} (a : A) : safe (E:=E) (Ok a).
Proof. discriminate. Qed.

Lemma safe_Err {E A} (e : E) : safe (A:=A) (Err e).
Proof. discriminate. Qed.

Lemma safe_bind {E A B} (m : res E A) (k : A -> res E B) :
  safe m -> (forall a, m = Ok a -> safe (k a)) -> safe (rbind m k).
Proof. intros Hm Hk. destruct m; simpl; [by apply Hk|done|done]. Qed.

Lemma ok_or_Ok {E A} (o : option A) (e : E) a : ok_or o e = Ok a -> o = Some a.
Proof. destruct o; simpl; congruence. Qed.

Lemma safe_ok_or {E A} (o : option A) (e : E) : safe (ok_or o e).
Proof. by destruct o. Qed.

Lemma safe_ensure {E} b (e : E) : safe (ensure b e).
Proof. by destruct b. Qed.

Lemma safe_map_err {E F A} (f : E -> F) (m : res E A) : safe m -> safe (map_err f m).
Proof. by destruct m. Qed.

Lemma safe_if {E A} (b : bool) (m n : res E A) :
  (b = true -> safe m) -> (b = false -> safe n) -> safe (if b then m else n).
Proof. destruct b; auto. Qed.

Lemma safe_vec_get {E A} (l : list A) i :
  0 <= i < zlen l -> safe (E:=E) (vec_get l i).
Proof.
  unfold zlen, vec_get, vec_at, safe. intros H.
  rewrite (proj2 (Z.leb_le 0 i)) by lia.
  destruct (lookup_lt_is_Some_2 l (Z.to_nat i)) as [x ->]; [lia|done].
Qed.

Lemma safe_vec_remove {E A} (l : list A) i :
  0 <= i < zlen l -> safe (E:=E) (vec_remove l i).
Proof.
  intros H. apply safe_bind; [by apply safe_vec_get|]. intros; apply safe_Ok.
Qed.

Lemma safe_vec_insert {E A} (l : list A) i x :
  0 <= i <= zlen l -> safe (E:=E) (vec_insert l i x).
Proof.
  unfold vec_insert. intros H.
  by rewrite (proj2 (Z.leb_le 0 i)), (proj2 (Z.leb_le i (zlen l))) by lia.
Qed.

Lemma safe_vec_swap {E A} (l : list A) i j :
  0 <= i < zlen l -> 0 <= j < zlen l -> safe (E:=E) (vec_swap l i j).
Proof.
  intros. apply safe_bind; [by apply safe_vec_get|]. intros.
  apply safe_bind; [by apply safe_vec_get|]. intros; apply safe_Ok.
Qed.

#[export] Hint Resolve safe_Ok safe_Err safe_ok_or safe_ensure safe_map_err : panicfree.

(** Walk through a monadic body; side conditions are left to [lia]. *)
Ltac panic_free :=
  repeat first
    [ apply safe_Ok | apply safe_Err | apply safe_ok_or | apply safe_ensure
    | apply safe_vec_get; [lia] | apply safe_vec_remove; [lia]
    | apply safe_vec_insert; [lia] | apply safe_vec_swap; lia
    | apply safe_bind; [|intros ? ?] | apply safe_if; intros ?
    | apply safe_map_err | solve [auto with panicfree] ].

Lemma rfold_safe {E A B} (f : A -> B -> res E A) l : forall a,
  (forall a b, safe (f a b)) -> safe (rfold f a l).
Proof. induction l as [|b l IH]; intros a H; simpl; [done|]. apply safe_bind; auto. Qed.

Lemma rfold_app {E A B} (f : A -> B -> res E A) l1 l2 a :
  rfold f a (l1 ++ l2) = let* a' := rfold f a l1 in rfold f a' l2.
Proof.
  revert a; induction l1 as [|b l1 IH]; intros a; simpl; [done|].
  destruct (f a b); simpl; auto.
Qed.

(** A loop invariant of the body is one of the loop. *)
Lemma rfold_inv {E A B} (P : A -> Prop) (f : A -> B -> res E A) l : forall a a',
  (forall a b a', b ∈ l -> P a -> f a b = Ok a' -> P a') ->
  P a -> rfold f a l = Ok a' -> P a'.
Proof.
  induction l as [|b l IH]; simpl; intros a a' Hstep Ha Hf; [by res_inv|].
  destruct (f a b) eqn:Hb; simpl in Hf; try discriminate.
  eapply IH; [|by eapply Hstep; [left|..]|exact Hf].
  intros. eapply Hstep; [by right|eauto..].
Qed.

(** ** Postconditions

    [wp m Q]: [m] does not panic, and [Q] holds of its value when it succeeds. *)
Definition wp {E A} (m : res E A) (Q : A -> Prop) : Prop :=
  match m with Ok a => Q a | Err _ => True | Panic => False end.

Lemma wp_bind {E A B} (m : res E A) (k : A -> res E B) Q :
  wp m (fun a => wp (k a) Q) -> wp (rbind m k) Q.
Proof. by destruct m. Qed.

Lemma wp_mono {E A} (m : res E A) (P Q : A -> Prop) :
  wp m P -> (forall a, P a -> Q a) -> wp m Q.
Proof. destruct m; simpl; auto. Qed.

Lemma wp_if {E A} (b : bool) (m n : res E A) Q :
  (b = true -> wp m Q) -> (b = false -> wp n Q) -> wp (if b then m else n) Q.
Proof. destruct b; auto. Qed.

Lemma wp_ok_or {E A} (o : option A) (e : E) Q :
  (forall a, o = Some a -> Q a) -> wp (ok_or o e) Q.
Proof. destruct o; simpl; auto. Qed.

Lemma wp_ensure {E} b (e : E) (Q : unit -> Prop) : (b = true -> Q tt) -> wp (ensure b e) Q.
Proof. destruct b; simpl; auto. Qed.

Lemma wp_map_err {E F A} (f : E -> F) (m : res E A) Q : wp m Q -> wp (map_err f m) Q.
Proof. by destruct m. Qed.

Lemma wp_safe {E A} (m : res E A) Q : wp m Q -> safe m.
Proof. by destruct m. Qed.

Lemma wp_result {E A} (m : res E A) Q a : wp m Q -> m = Ok a -> Q a.
Proof. by intros H ->. Qed.

Lemma safe_wp {E A} (m : res E A) : safe m -> wp m (fun a => m = Ok a).
Proof. by destruct m. Qed.

(** A [for] loop with an invariant over the number of iterations made. *)
Lemma wp_rfold {E A B} (I : nat -> A -> Prop) (f : A -> B -> res E A) l : forall n a,
  (forall n a b, b ∈ l -> I n a -> wp (f a b) (I (S n))) ->
  I n a -> wp (rfold f a l) (I (n + length l)%nat).
Proof.
  induction l as [|b l IH]; simpl; intros n a Hstep Ha; [by rewrite Nat.add_0_r|].
  apply wp_bind. eapply wp_mono; [apply Hstep; [left|exact Ha]|].
  simpl. intros a' Ha'. rewrite <- Nat.add_succ_comm. apply IH; [|done].
  intros. apply Hstep; [by right|done].
Qed.

(** ** Methods: postconditions on both exits *)

(** [swp m Q R s]: run on [s], [m] either returns a value and an object that satisfy
    [Q], or stops early (error or panic) with an object that satisfies [R]. *)
Definition swp {S E A} (m : st S E A) (Q : A -> S -> Prop) (R : S -> Prop) (s : S) : Prop :=
  match m s with (s', Ok a) => Q a s' | (s', _) => R s' end.

Lemma swp_bind {S E A B} (m : st S E A) (k : A -> st S E B) Q R s :
  swp m (fun a => swp (k a) Q R) R s -> swp (sbind m k) Q R s.
Proof. unfold swp, sbind. by destruct (m s) as [s' []]. Qed.

Lemma swp_ret {S E A} (a : A) (Q : A -> S -> Prop) R s : Q a s -> swp (E:=E) (sret a) Q R s.
Proof. done. Qed.

Lemma swp_lift {S E A} (m : res E A) (Q : A -> S -> Prop) (R : S -> Prop) s :
  (forall a, m = Ok a -> Q a s) -> R s -> swp (slift m) Q R s.
Proof. unfold swp, slift. destruct m; auto. Qed.

Lemma swp_err {S E A} (e : E) (Q : A -> S -> Prop) (R : S -> Prop) s : R s -> swp (serr e) Q R s.
Proof. done. Qed.

Lemma swp_get {S E A} (f : S -> A) (Q : A -> S -> Prop) R s : Q (f s) s -> swp (E:=E) (sget f) Q R s.
Proof. done. Qed.

Lemma swp_mod {S E} (f : S -> S) (Q : unit -> S -> Prop) R s : Q tt (f s) -> swp (E:=E) (smod f) Q R s.
Proof. done. Qed.

Lemma swp_if {S E A} (b : bool) (m n : st S E A) Q R s :
  (b = true -> swp m Q R s) -> (b = false -> swp n Q R s) -> swp (if b then m else n) Q R s.
Proof. destruct b; auto. Qed.

Lemma swp_mono {S E A} (m : st S E A) (Q Q' : A -> S -> Prop) (R R' : S -> Prop) s :
  swp m Q R s -> (forall a s', Q a s' -> Q' a s') -> (forall s', R s' -> R' s') -> swp m Q' R' s.
Proof. unfold swp. destruct (m s) as [s' []]; auto. Qed.

(** A loop with an invariant over the elements already handled. *)
Lemma swp_for_split {S E A} (I : list A -> S -> Prop) (R : S -> Prop) (f : A -> st S E unit) l : forall p s,
  (forall q1 a q2 s, l = q1 ++ a :: q2 -> I (p ++ q1) s -> swp (f a) (fun _ => I (p ++ q1 ++ [a])) R s) ->
  I p s -> swp (sfor f l) (fun _ => I (p ++ l)) R s.
Proof.
  induction l as [|a l IH]; simpl; intros p s Hstep Hs; [by rewrite app_nil_r|].
  apply swp_bind. eapply swp_mono; [apply (Hstep [] a l); [done|by rewrite app_nil_r]| |done].
  simpl. intros _ s' Hs'. replace (p ++ a :: l) with ((p ++ [a]) ++ l) by by rewrite <- app_assoc.
  apply IH; [|done]. intros q1 a' q2 s'' -> Hs''. rewrite <- app_assoc in *. apply (Hstep (a :: q1) a' q2); done.
Qed.

Lemma swp_for {S E A} (I : list A -> S -> Prop) (R : S -> Prop) (f : A -> st S E unit) l p s :
  (forall p a s, a ∈ l -> I p s -> swp (f a) (fun _ => I (p ++ [a])) R s) ->
  I p s -> swp (sfor f l) (fun _ => I (p ++ l)) R s.
Proof.
  intros Hstep. apply swp_for_split. intros q1 a q2 s' -> Hs'. rewrite app_assoc. apply Hstep; [|done].
  apply elem_of_app. right. left.
Qed.

(** The index of an element in an enumerated list. *)
Lemma imap_pair_index {A} (l : list A) p i x q : imap pair l = p ++ (i, x) :: q -> i = length p.
Proof.
  intros E. assert (imap pair l !! length p = Some (i, x)) as Hi by (rewrite E; by apply list_lookup_middle).
  rewrite list_lookup_imap in Hi. destruct (l !! length p); simpl in Hi; congruence.
Qed.

(** The result of running a method, read off its postcondition. *)
Lemma swp_run {S E A} (m : st S E A) Q R s s' r :
  swp m Q R s -> m s = (s', r) -> match r with Ok a => Q a s' | _ => R s' end.
Proof. unfold swp. intros H E0. by rewrite E0 in H. Qed.

(** A method that returned ran all its statements. *)
Lemma sbind_Ok {S E A B} (m : st S E A) (k : A -> st S E B) s s' b :
  sbind m k s = (s', Ok b) -> exists a s1, m s = (s1, Ok a) /\ k a s1 = (s', Ok b).
Proof. unfold sbind. destruct (m s) as [s1 [a| |]]; [|done..]. eauto. Qed.

Ltac swp_step :=
  cbv beta zeta;
  match goal with
  | |- swp (sbind _ _) _ _ _ => apply swp_bind
  | |- swp (sret _) _ _ _ => apply swp_ret
  | |- swp (slift _) _ _ _ => apply swp_lift
  | |- swp (serr _) _ _ _ => apply swp_err
  | |- swp (sget _) _ _ _ => apply swp_get
  | |- swp (smod _) _ _ _ => apply swp_mod
  | |- swp (if _ then _ else _) _ _ _ => apply swp_if
  end.

Lemma padd_Ok {E} max a b c : @padd E max a b = Ok c -> c = a + b /\ a + b <= max.
Proof. unfold padd, checked_add. destruct (Z.leb_spec (a + b) max); simpl; [|done]. by intros [= <-]. Qed.

Lemma padd_Err {E} max a b (e : E) : padd max a b <> Err e.
Proof. unfold padd, checked_add. by destruct (a + b <=? max). Qed.

(** [soc m Q R s]: if [m] run from [s] returns, then a result satisfies [Q] and an error
    satisfies [R]; nothing is said of a panic. *)
Definition soc {S E A} (m : st S E A) (Q : A -> S -> Prop) (R : E -> S -> Prop) (s : S) : Prop :=
  match m s with (s', Ok a) => Q a s' | (s', Err e) => R e s' | (_, Panic) => True end.

Section soc.
Context {S E : Type}.

Lemma soc_bind {A X} (m : st S E A) (k : A -> st S E X) Q R s :
  soc m (fun a => soc (k a) Q R) R s -> soc (sbind m k) Q R s.
Proof. unfold soc, sbind. by destruct (m s) as [s' [a|e|]]. Qed.

Lemma soc_ret {A} (a : A) Q R s : (Q a s : Prop) -> soc (sret a : st S E A) Q R s.
Proof. done. Qed.

Lemma soc_lift {A} (m : res E A) Q R s :
  (forall a, m = Ok a -> Q a s) -> (forall e, m = Err e -> R e s) -> soc (slift m : st S E A) Q R s.
Proof. unfold soc, slift. destruct m; auto. Qed.

Lemma soc_err {A} (e : E) Q R s : R e s -> soc (serr e : st S E A) Q R s.
Proof. done. Qed.

Lemma soc_get {A} (f : S -> A) Q (R : E -> S -> Prop) s : (Q (f s) s : Prop) -> soc (sget f) Q R s.
Proof. done. Qed.

Lemma soc_mod (f : S -> S) Q (R : E -> S -> Prop) s : (Q tt (f s) : Prop) -> soc (smod f) Q R s.
Proof. done. Qed.

Lemma soc_if {A} (b : bool) (m n : st S E A) Q R s :
  (b = true -> soc m Q R s) -> (b = false -> soc n Q R s) -> soc (if b then m else n) Q R s.
Proof. destruct b; auto. Qed.

Lemma soc_mono {A} (m : st S E A) (Q Q' : A -> S -> Prop) (R R' : E -> S -> Prop) s :
  soc m Q R s -> (forall a s, Q a s -> Q' a s) -> (forall e s, R e s -> R' e s) -> soc m Q' R' s.
Proof. unfold soc. destruct (m s) as [s' [a|e|]]; auto. Qed.

End soc.

Ltac soc_step :=
  cbv beta zeta;
  match goal with
  | |- soc (sbind _ _) _ _ _ => apply soc_bind
  | |- soc (sret _) _ _ _ => apply soc_ret
  | |- soc (slift _) _ _ _ => apply soc_lift
  | |- soc (serr _) _ _ _ => apply soc_err
  | |- soc (sget _) _ _ _ => apply soc_get
  | |- soc (smod _) _ _ _ => apply soc_mod
  | |- soc (if _ then _ else _) _ _ _ => apply soc_if
  end.

(** [runs m Q R s]: [m] run from [s] does not panic; a result satisfies [Q] and an error
    satisfies [R]. *)
Definition runs {S E A} (m : st S E A) (Q : A -> S -> Prop) (R : E -> S -> Prop) (s : S) : Prop :=
  match m s with (s', Ok a) => Q a s' | (s', Err e) => R e s' | (_, Panic) => False end.

Section runs.
Context {S E : Type}.

Lemma runs_bind {A X} (m : st S E A) (k : A -> st S E X) Q R s :
  runs m (fun a => runs (k a) Q R) R s -> runs (sbind m k) Q R s.
Proof. unfold runs, sbind. by destruct (m s) as [s' [a|e|]]. Qed.

Lemma runs_ret {A} (a : A) Q R s : (Q a s : Prop) -> runs (sret a : st S E A) Q R s.
Proof. done. Qed.

Lemma runs_lift {A} (m : res E A) Q R s : safe m ->
  (forall a, m = Ok a -> Q a s) -> (forall e, m = Err e -> R e s) -> runs (slift m : st S E A) Q R s.
Proof. unfold runs, slift. destruct m as [a|e|]; auto. Qed.

Lemma runs_err {A} (e : E) Q R s : R e s -> runs (serr e : st S E A) Q R s.
Proof. done. Qed.

Lemma runs_get {A} (f : S -> A) Q (R : E -> S -> Prop) s : (Q (f s) s : Prop) -> runs (sget f) Q R s.
Proof. done. Qed.

Lemma runs_mod (f : S -> S) Q (R : E -> S -> Prop) s : (Q tt (f s) : Prop) -> runs (smod f) Q R s.
Proof. done. Qed.

Lemma runs_if {A} (b : bool) (m n : st S E A) Q R s :
  (b = true -> runs m Q R s) -> (b = false -> runs n Q R s) -> runs (if b then m else n) Q R s.
Proof. destruct b; auto. Qed.

Lemma runs_mono {A} (m : st S E A) (Q Q' : A -> S -> Prop) (R R' : E -> S -> Prop) s :
  runs m Q R s -> (forall a s, Q a s -> Q' a s) -> (forall e s, R e s -> R' e s) -> runs m Q' R' s.
Proof. unfold runs. destruct (m s) as [s' [a|e|]]; auto. Qed.

Lemma runs_for {A} (I : S -> Prop) (R : E -> S -> Prop) (f : A -> st S E unit) l : forall s,
  (forall a s, a ∈ l -> I s -> runs (f a) (fun _ => I) R s) -> I s -> runs (sfor f l) (fun _ => I) R s.
Proof.
  induction l as [|a l IH]; intros s Hf Hs; [done|]. apply runs_bind. eapply runs_mono; [apply Hf; [left|done]| |done].
  intros [] s' Hs'. apply IH; [|done]. intros b s0 Hb. apply Hf. by right.
Qed.

End runs.

Ltac runs_step :=
  cbv beta zeta;
  match goal with
  | |- runs (sbind _ _) _ _ _ => apply runs_bind
  | |- runs (sret _) _ _ _ => apply runs_ret
  | |- runs (slift _) _ _ _ => apply runs_lift
  | |- runs (serr _) _ _ _ => apply runs_err
  | |- runs (sget _) _ _ _ => apply runs_get
  | |- runs (smod _) _ _ _ => apply runs_mod
  | |- runs (if _ then _ else _) _ _ _ => apply runs_if
  end.

(** [keeps f m]: whatever comes of it, [m] leaves the part [f] of the state as it is. *)
Definition keeps {S E A X} (f : S -> X) (m : st S E A) : Prop := forall s, f (m s).1 = f s.

Section keeps.
Context {S E X : Type} (f : S -> X).

Lemma keeps_bind {A Y} (m : st S E A) (k : A -> st S E Y) : keeps f m -> (forall a, keeps f (k a)) -> keeps f (sbind m k).
Proof. intros H1 H2 s. specialize (H1 s). unfold sbind. destruct (m s) as [s1 [a|e|]]; [|done..]. by rewrite H2. Qed.

Lemma keeps_ret {A} (a : A) : keeps f (sret a : st S E A).
Proof. done. Qed.

Lemma keeps_lift {A} (m : res E A) : keeps f (slift m : st S E A).
Proof. done. Qed.

Lemma keeps_err {A} (e : E) : keeps f (serr e : st S E A).
Proof. done. Qed.

Lemma keeps_get {A} (g : S -> A) : keeps f (sget g : st S E A).
Proof. done. Qed.

Lemma keeps_mod (g : S -> S) : (forall s, f (g s) = f s) -> keeps f (smod g : st S E unit).
Proof. intros Hg s. apply Hg. Qed.

Lemma keeps_if {A} (b : bool) (m n : st S E A) : keeps f m -> keeps f n -> keeps f (if b then m else n).
Proof. by destruct b. Qed.

Lemma keeps_for {A} (m : A -> st S E unit) l : (forall a, keeps f (m a)) -> keeps f (sfor m l).
Proof. intros Hm. induction l as [|a l IH]; [done|]. by apply keeps_bind. Qed.
End keeps.

Lemma swp_keeps {S E A X} (f : S -> X) (m : st S E A) (Q : A -> S -> Prop) (R : S -> Prop) s :
  keeps f m -> (forall a s', f s' = f s -> Q a s') -> (forall s', f s' = f s -> R s') -> swp m Q R s.
Proof. intros Hm HQ HR. specialize (Hm s). unfold swp. destruct (m s) as [s' [a|e|]]; auto. Qed.

Create HintDb keeps.
#[export] Hint Resolve keeps_ret keeps_lift keeps_err keeps_get : keeps.

(** Splits a method into its statements; those the hints know are closed. *)
Ltac keeps_step :=
  cbv beta zeta;
  match goal with
  | |- keeps _ (sbind _ _) => apply keeps_bind; [|intros ?]
  | |- keeps _ (sfor _ _) => apply keeps_for; intros ?
  | |- keeps _ (if _ then _ else _) => apply keeps_if
  | |- keeps _ (smod _) => apply keeps_mod; intros ?; done
  | |- keeps _ (match ?x with _ => _ end) => destruct x
  | |- keeps _ (fun s => _) => intros ?s; cbv beta; repeat case_match; done
  | |- keeps _ _ => solve [auto with keeps]
  end.
Ltac keeps_tac := intros; repeat keeps_step.

(** Two methods that go on alike from every result of a first one. *)
Lemma sbind_ext {S E A X} (m : st S E A) (k1 k2 : A -> st S E X) s :
  (forall a s', m s = (s', Ok a) -> k1 a s' = k2 a s') -> sbind m k1 s = sbind m k2 s.
Proof. intros Hk. unfold sbind. destruct (m s) as [s' [a|e|]] eqn:E0; [|done..]. by apply Hk. Qed.

(** An early return guarded by a condition. *)
Ltac swp_guard := swp_step; [by intros; swp_step|].

(** ** Lemmas on lengths and vectors *)

Lemma elem_of_insert {A} (l : list A) i (x y : A) : x ∈ <[i:=y]> l -> x = y \/ x ∈ l.
Proof.
  revert i; induction l as [|z l IH]; intros [|i]; simpl; [tauto..| |];
    rewrite !elem_of_cons; [tauto|]. intros [?|?%IH]; tauto.
Qed.

Lemma zlen_nonneg {A} (l : list A) : 0 <= zlen l.
Proof. unfold zlen. lia. Qed.

Lemma zlen_nil {A} : zlen (@nil A) = 0.
Proof. done. Qed.

Lemma zlen_cons {A} (x : A) l : zlen (x :: l) = 1 + zlen l.
Proof. unfold zlen. simpl. lia. Qed.

Lemma zlen_app {A} (l1 l2 : list A) : zlen (l1 ++ l2) = zlen l1 + zlen l2.
Proof. unfold zlen. rewrite length_app. lia. Qed.

Lemma zlen_push {A} (l : list A) x : zlen (vec_push l x) = zlen l + 1.
Proof. unfold vec_push. rewrite zlen_app. done. Qed.

Lemma zlen_take {A} (l : list A) n : zlen (take n l) = Z.min (Z.of_nat n) (zlen l).
Proof. unfold zlen. rewrite length_take. lia. Qed.

Lemma zlen_drop {A} (l : list A) n : zlen (drop n l) = Z.max 0 (zlen l - Z.of_nat n).
Proof. unfold zlen. rewrite length_drop. lia. Qed.

Lemma zlen_insert {A} (l : list A) i (x : A) : zlen (<[i:=x]> l) = zlen l.
Proof. unfold zlen. by rewrite length_insert. Qed.

Create Rewrite HintDb zlen.
#[export] Hint Rewrite @zlen_nil @zlen_cons @zlen_app @zlen_push @zlen_take @zlen_drop
  @zlen_insert : zlen.

Lemma vec_pop_push {A} (l : list A) x : vec_pop (vec_push l x) = Some (x, l).
Proof. unfold vec_pop, vec_push. rewrite rev_unit. by rewrite rev_involutive. Qed.

Lemma vec_last_push {A} (l : list A) x : vec_last (vec_push l x) = Some x.
Proof. unfold vec_last, vec_push. by rewrite rev_unit. Qed.

Lemma vec_pop_Some {A} (l : list A) x l' :
  vec_pop l = Some (x, l') -> l = vec_push l' x.
Proof.
  unfold vec_pop, vec_push. intros H.
  destruct (rev l) as [|y r] eqn:E; [done|]. injection H as -> <-.
  rewrite <- (rev_involutive l), E. done.
Qed.

Lemma vec_pop_zlen {A} (l : list A) x l' :
  vec_pop l = Some (x, l') -> zlen l = zlen l' + 1.
Proof. intros ->%vec_pop_Some. apply zlen_push. Qed.

Lemma vec_pop_None {A} (l : list A) : vec_pop l = None -> l = [].
Proof.
  unfold vec_pop. destruct (rev l) eqn:E; [|done]. intros _.
  rewrite <- (rev_involutive l), E. done.
Qed.

Lemma vec_get_Ok {E A} (l : list A) i x : vec_get (E:=E) l i = Ok x -> 0 <= i < zlen l.
Proof.
  unfold vec_get, vec_at. destruct (Z.leb_spec 0 i); [|done].
  destruct (l !! Z.to_nat i) eqn:El; [|done]. intros _.
  apply lookup_lt_Some in El. unfold zlen. lia.
Qed.

Lemma vec_remove_zlen {E A} (l : list A) i x l' :
  vec_remove (E:=E) l i = Ok (x, l') -> zlen l' = zlen l - 1.
Proof.
  unfold vec_remove. intros H. destruct (vec_get l i) eqn:G; simpl in H; try discriminate.
  apply vec_get_Ok in G. injection H as -> <-. autorewrite with zlen. lia.
Qed.

Lemma vec_insert_zlen {E A} (l : list A) i x l' :
  vec_insert (E:=E) l i x = Ok l' -> zlen l' = zlen l + 1.
Proof.
  unfold vec_insert. intros H. destruct (_ && _) eqn:G; [|done]. bool_prop.
  injection H as <-. autorewrite with zlen. lia.
Qed.

Lemma vec_swap_zlen {E A} (l : list A) i j l' :
  vec_swap (E:=E) l i j = Ok l' -> zlen l' = zlen l.
Proof.
  unfold vec_swap. intros H. res_inv. by autorewrite with zlen.
Qed.

Lemma wp_vec_get {E A} (l : list A) i (Q : A -> Prop) :
  0 <= i < zlen l -> (forall x, x ∈ l -> Q x) -> wp (vec_get (E:=E) l i) Q.
Proof.
  unfold zlen, vec_get, vec_at. intros H HQ.
  rewrite (proj2 (Z.leb_le 0 i)) by lia.
  destruct (lookup_lt_is_Some_2 l (Z.to_nat i)) as [x Hx]; [lia|].
  rewrite Hx. apply HQ. by eapply list_elem_of_lookup_2.
Qed.

Lemma wp_vec_remove {E A} (l : list A) i (Q : A * list A -> Prop) :
  0 <= i < zlen l ->
  (forall x l', l ≡ₚ x :: l' -> Q (x, l')) ->
  wp (vec_remove (E:=E) l i) Q.
Proof.
  unfold vec_remove, zlen, vec_get, vec_at. intros H HQ.
  rewrite (proj2 (Z.leb_le 0 i)) by lia.
  destruct (lookup_lt_is_Some_2 l (Z.to_nat i)) as [x Hx]; [lia|].
  rewrite Hx. simpl. apply HQ.
  rewrite <- (take_drop_middle l _ x Hx) at 1. by rewrite Permutation_middle.
Qed.

Lemma wp_vec_insert {E A} (l : list A) i x (Q : list A -> Prop) :
  0 <= i <= zlen l -> (forall l', l' ≡ₚ x :: l -> Q l') -> wp (vec_insert (E:=E) l i x) Q.
Proof.
  unfold vec_insert. intros H HQ.
  rewrite (proj2 (Z.leb_le 0 i)), (proj2 (Z.leb_le i (zlen l))) by lia. simpl. apply HQ.
  rewrite <- Permutation_middle. by rewrite take_drop.
Qed.

Lemma wp_vec_swap {E A} (l : list A) i j (Q : list A -> Prop) :
  0 <= i < zlen l -> 0 <= j < zlen l ->
  (forall l', zlen l' = zlen l -> (forall x, x ∈ l' -> x ∈ l) -> Q l') ->
  wp (vec_swap (E:=E) l i j) Q.
Proof.
  intros Hi Hj HQ. unfold vec_swap. apply wp_bind, wp_vec_get; [done|]. intros x Hx.
  apply wp_bind, wp_vec_get; [done|]. intros y Hy. apply HQ.
  - by rewrite !zlen_insert.
  - intros z Hz. apply elem_of_insert in Hz as [-> | [-> | ?]%elem_of_insert]; done.
Qed.

(** ** Lemmas on bytes *)

Lemma bytes_eqb_eq (a b : bytes) : bytes_eqb a b = true <-> a = b.
Proof.
  revert b; induction a as [|x a IH]; intros [|y b]; simpl; try done.
  rewrite andb_true_iff, Z.eqb_eq, IH. split; [intros [-> ->]; done|].
  by intros [= -> ->].
Qed.

Lemma bytes_eqb_refl (a : bytes) : bytes_eqb a a = true.
Proof. by apply bytes_eqb_eq. Qed.

Lemma bytes_eqb_neq (a b : bytes) : bytes_eqb a b = false <-> a <> b.
Proof. rewrite <- not_true_iff_false, bytes_eqb_eq. done. Qed.

(** Check a literal. *)
Lemma is_bytes_check l : forallb (fun b => (0 <=? b) && (b <? 256)) l = true -> is_bytes l.
Proof.
  intros H. apply Forall_forall. intros b Hb%list_elem_of_In. rewrite forallb_forall in H.
  apply H in Hb. unfold is_byte. bool_prop. lia.
Qed.

(** A boolean fact about bytes holds when it holds of the 256 values. *)
Lemma byte_forall (P : Z -> bool) :
  forallb (fun n => P (Z.of_nat n)) (seq 0 256) = true -> forall b, is_byte b -> P b = true.
Proof.
  intros H b Hb. unfold is_byte in Hb. rewrite forallb_forall in H.
  rewrite <- (Z2Nat.id b) by lia. apply H, in_seq. lia.
Qed.

(** Or-ing in a field above the bits already there is addition. *)
Lemma lor_shiftl_add a x k : 0 <= k -> 0 <= a < 2 ^ k -> Z.lor a (Z.shiftl x k) = a + x * 2 ^ k.
Proof.
  intros Hk Ha. pose proof (Z.add_lor_land a (Z.shiftl x k)) as H.
  assert (Z.land a (Z.shiftl x k) = 0) as E.
  { apply Z.bits_inj'. intros n Hn. rewrite Z.land_spec, Z.bits_0.
    destruct (Z.ltb_spec n k); [by rewrite Z.shiftl_spec_low, andb_false_r|].
    replace a with (a mod 2 ^ k) by (apply Z.mod_small; lia).
    by rewrite Z.mod_pow2_bits_high by lia. }
  rewrite Z.shiftl_mul_pow2 in * by done. lia.
Qed.

Lemma length_to_le n z : length (to_le n z) = n.
Proof. revert z; induction n; intros; simpl; auto. Qed.

Lemma zlen_to_le n z : zlen (to_le n z) = Z.of_nat n.
Proof. unfold zlen. by rewrite length_to_le. Qed.

Lemma to_le_bytes n z : is_bytes (to_le n z).
Proof.
  revert z; induction n; intros; simpl; constructor; [|apply IHn].
  apply Z.mod_pos_bound. lia.
Qed.

Lemma from_le_to_le n z : 0 <= z < 256 ^ Z.of_nat n -> from_le (to_le n z) = z.
Proof.
  revert z; induction n as [|n IH]; intros z Hz; simpl.
  - simpl in Hz. lia.
  - rewrite Nat2Z.inj_succ, Z.pow_succ_r in Hz by lia.
    rewrite IH by (split; [apply Z.div_pos; lia|apply Z.div_lt_upper_bound; lia]).
    pose proof (Z.div_mod z 256). lia.
Qed.

Lemma from_le_bound l : is_bytes l -> 0 <= from_le l < 256 ^ zlen l.
Proof.
  induction 1 as [|b l Hb Hl IH]; simpl; [unfold zlen; simpl; lia|].
  rewrite zlen_cons, Z.add_comm, Z.pow_add_r by (pose proof (zlen_nonneg l); lia).
  unfold is_byte in Hb. lia.
Qed.

Lemma to_le_from_le l : is_bytes l -> to_le (length l) (from_le l) = l.
Proof.
  induction 1 as [|b l Hb Hl IH]; simpl; [done|]. unfold is_byte in Hb.
  rewrite (Z.mul_comm 256), Z.mod_add, Z.mod_small, Z.div_add, Z.div_small by lia.
  by rewrite Z.add_0_l, IH.
Qed.

Lemma to_le_inj n x y :
  0 <= x < 256 ^ Z.of_nat n -> 0 <= y < 256 ^ Z.of_nat n -> to_le n x = to_le n y -> x = y.
Proof.
  intros Hx Hy H. apply (f_equal from_le) in H. by rewrite !from_le_to_le in H.
Qed.

(** Two concatenations with first parts of equal length. *)
Lemma app_inj_len {A} (a a' b b' : list A) :
  length a = length a' -> a ++ b = a' ++ b' -> a = a' /\ b = b'.
Proof. intros. by apply app_inj_1. Qed.

(** ** Lemmas on saturating sums *)

Lemma zsum_nonneg l : Forall (fun x => 0 <= x) l -> 0 <= zsum l.
Proof. induction 1; simpl; lia. Qed.

(** ** Lemmas on slices *)

Lemma slice_mid (a b c : bytes) i j :
  zlen a = i -> i + zlen b = j -> slice i j (a ++ b ++ c) = b.
Proof.
  unfold slice, zlen. intros <- <-. rewrite Nat2Z.id, drop_app_length.
  replace (Z.to_nat _) with (length b) by lia. apply take_app_length.
Qed.

Lemma slice_end (a b : bytes) i j : zlen a = i -> i + zlen b = j -> slice i j (a ++ b) = b.
Proof. intros. rewrite <- (app_nil_r (a ++ b)), <- app_assoc. by apply slice_mid. Qed.

Lemma vec_at_mid {A} (a l : list A) x i : zlen a = i -> vec_at (a ++ x :: l) i = Some x.
Proof.
  intros <-. unfold vec_at, zlen. rewrite (proj2 (Z.leb_le 0 _)) by lia.
  rewrite Nat2Z.id. by apply list_lookup_middle.
Qed.

Lemma zlen_slice a b (l : bytes) : 0 <= a <= b -> b <= zlen l -> zlen (slice a b l) = b - a.
Proof. unfold slice, zlen. rewrite length_take, length_drop. lia. Qed.

(** Cutting off a slice leaves the rest of the list. *)
Lemma slice_drop a b (l : bytes) : 0 <= a <= b ->
  drop (Z.to_nat a) l = slice a b l ++ drop (Z.to_nat b) l.
Proof.
  intros. unfold slice. rewrite <- (take_drop (Z.to_nat (b - a)) (drop (Z.to_nat a) l)) at 1.
  rewrite drop_drop. do 2 f_equal. lia.
Qed.

Lemma slice_split a b c (l : bytes) : 0 <= a <= b -> b <= c -> slice a c l = slice a b l ++ slice b c l.
Proof.
  intros. unfold slice. replace (Z.to_nat b) with (Z.to_nat a + Z.to_nat (b - a))%nat by lia.
  rewrite <- drop_drop, take_take_drop. f_equal. lia.
Qed.

Lemma is_bytes_slice a b l : is_bytes l -> is_bytes (slice a b l).
Proof. intros H. by apply Forall_take, Forall_drop. Qed.

Lemma starts_with_app pre l : starts_with pre l = true <-> exists t, l = pre ++ t.
Proof.
  revert l; induction pre as [|x pre IH]; intros l; simpl; [split; [by exists l|done]|].
  destruct l as [|y l]; [by split; [|intros [t ?]]|]. rewrite andb_true_iff, Z.eqb_eq, IH. split.
  - intros [-> [t ->]]. by exists t.
  - intros [t [= -> ->]]. eauto.
Qed.

(** A sum does not depend on the order of its terms. *)
#[export] Instance zsum_Permutation : Proper (Permutation ==> eq) zsum.
Proof. intros l l' H. induction H; simpl; lia. Qed.

Lemma zsum_cons x l : zsum (x :: l) = x + zsum l.
Proof. done. Qed.

Lemma zsum_app l1 l2 : zsum (l1 ++ l2) = zsum l1 + zsum l2.
Proof. induction l1; simpl; lia. Qed.

Lemma zsum_submseteq (l k : list Z) : Forall (fun x => 0 <= x) k -> l ⊆+ k -> zsum l <= zsum k.
Proof.
  intros Hk [r Hr]%submseteq_Permutation. rewrite Hr in Hk |- *. apply Forall_app in Hk as [_ Hr'].
  rewrite zsum_app. apply zsum_nonneg in Hr'. lia.
Qed.

Lemma sat_sum_from l : forall a, 0 <= a <= u64_max -> Forall (fun x => 0 <= x) l ->
  fold_left (sat_add u64_max) l a = Z.min u64_max (a + zsum l).
Proof.
  induction l as [|x l IH]; intros a Ha Hl; simpl; [lia|].
  inversion Hl as [|? ? Hx Hl']; subst. rewrite IH by (unfold sat_add; auto; lia).
  pose proof (zsum_nonneg l Hl'). unfold sat_add. lia.
Qed.

Lemma sat_sum_spec l : Forall (fun x => 0 <= x) l -> sat_sum l = Z.min u64_max (zsum l).
Proof. intros. unfold sat_sum. rewrite sat_sum_from by (auto; unfold u64_max; lia). done. Qed.

(** ** Sums over finite maps *)

Definition map_sum {K V} `{Countable K} (f : V -> Z) (m : gmap K V) : Z :=
  zsum ((fun e : K * V => f e.2) <$> map_to_list m).

Lemma map_sum_insert {K V} `{Countable K} (f : V -> Z) (m : gmap K V) k u : m !! k = None -> map_sum f (<[k := u]> m) = f u + map_sum f m.
Proof. intros Hk. unfold map_sum. rewrite map_to_list_insert by done. done. Qed.

Lemma map_sum_delete {K V} `{Countable K} (f : V -> Z) (m : gmap K V) k u : m !! k = Some u -> map_sum f (delete k m) = map_sum f m - f u.
Proof.
  intros Hk. rewrite <- (insert_delete_id m k u Hk) at 2. rewrite map_sum_insert; [lia|].
  apply lookup_delete_eq.
Qed.

Lemma map_sum_ext {K V} `{Countable K} (f g : V -> Z) (m : gmap K V) :
  (forall k u, m !! k = Some u -> f u = g u) -> map_sum f m = map_sum g m.
Proof.
  intros E. unfold map_sum. f_equal. apply list_fmap_ext. intros i [k u] Hin.
  apply list_elem_of_lookup_2, elem_of_map_to_list in Hin. eauto.
Qed.

Lemma zsum_le {A} (f g : A -> Z) l : (forall a, a ∈ l -> f a <= g a) -> zsum (f <$> l) <= zsum (g <$> l).
Proof.
  induction l as [|a l IH]; intros Hl; csimpl; [done|].
  assert (f a <= g a) by (apply Hl; left).
  assert (zsum (f <$> l) <= zsum (g <$> l)) by (apply IH; intros; apply Hl; by right). lia.
Qed.

Lemma map_sum_le {K V} `{Countable K} (f g : V -> Z) (m : gmap K V) :
  (forall k u, m !! k = Some u -> f u <= g u) -> map_sum f m <= map_sum g m.
Proof.
  intros E. apply zsum_le. intros [k u] Hin%elem_of_map_to_list. eauto.
Qed.

Lemma map_sum_nonneg {K V} `{Countable K} (f : V -> Z) (m : gmap K V) : (forall k u, m !! k = Some u -> 0 <= f u) -> 0 <= map_sum f m.
Proof.
  intros E. apply zsum_nonneg, Forall_fmap, Forall_forall. intros [k u] Hin%elem_of_map_to_list.
  simpl. eauto.
Qed.

Lemma as_u32_range z : 0 <= as_u32 z <= u32_max.
Proof. unfold as_u32, u32_max. pose proof (Z.mod_pos_bound z 4294967296 ltac:(lia)). lia. Qed.

Lemma sfor_app {St E A} (f : A -> st St E unit) l l' s :
  sfor f (l ++ l') s = sbind (sfor f l) (fun _ => sfor f l') s.
Proof.
  revert s; induction l as [|x l IH]; intros s; [done|]. cbn [app sfor]. unfold sbind in *.
  destruct (f x s) as [s' [u| |]]; [apply IH|done..].
Qed.

Lemma Z_as_u32 z : 0 <= z <= u32_max -> as_u32 z = z.
Proof. intros Hz. unfold as_u32, u32_max in *. apply Z.mod_small. lia. Qed.

Lemma sfor_map {St E A B} (f : B -> st St E unit) (h : A -> B) l s :
  sfor f (map h l) s = sfor (fun x => f (h x)) l s.
Proof.
  revert s; induction l as [|x l IH]; intros s; [done|]. cbn [map sfor]. unfold sbind.
  destruct (f (h x) s) as [s' [u| |]]; [apply IH|done..].
Qed.

Lemma list_filter_all {A} (P : A -> Prop) `{!forall x, Decision (P x)} (l : list A) : (forall x, x ∈ l -> P x) -> filter P l = l.
Proof.
  induction l as [|x l IH]; intros Hl; [done|]. rewrite filter_cons_True by (apply Hl; left).
  f_equal. apply IH. intros y Hy. apply Hl. by right.
Qed.

(** ** Stable sorting *)

(** [slice::sort_by_key]: elements with equal keys keep their order. *)
Fixpoint insert_by {A} (key : A -> Z) (x : A) (l : list A) : list A :=
  match l with
  | [] => [x]
  | y :: l' => if key y <=? key x then y :: insert_by key x l' else x :: l
  end.

Definition sort_by_key {A} (key : A -> Z) (l : list A) : list A :=
  foldl (fun sorted x => insert_by key x sorted) [] l.

Lemma insert_by_perm {A} (key : A -> Z) x l : insert_by key x l ≡ₚ x :: l.
Proof.
  induction l as [|y l IH]; simpl; [done|]. destruct (_ <=? _); [|done]. rewrite IH. apply Permutation_swap.
Qed.

Lemma sort_by_key_perm {A} (key : A -> Z) l : sort_by_key key l ≡ₚ l.
Proof.
  unfold sort_by_key. enough (forall acc, foldl (fun sorted x => insert_by key x sorted) acc l ≡ₚ acc ++ l) as H by apply H.
  induction l as [|x l IH]; intros acc; simpl; [by rewrite app_nil_r|].
  rewrite IH, insert_by_perm. apply Permutation_middle.
Qed.

Lemma insert_by_sorted {A} (key : A -> Z) x l : StronglySorted (fun a b => key a <= key b) l ->
  StronglySorted (fun a b => key a <= key b) (insert_by key x l).
Proof.
  induction 1 as [|y l Hl IH Hy]; simpl; [by repeat constructor|]. destruct (Z.leb_spec (key y) (key x)).
  - constructor; [done|]. rewrite insert_by_perm. by constructor.
  - constructor; [by constructor|]. constructor; [lia|]. eapply Forall_impl; [exact Hy|]. simpl. lia.
Qed.

Lemma sort_by_key_sorted {A} (key : A -> Z) l : StronglySorted (fun a b => key a <= key b) (sort_by_key key l).
Proof.
  unfold sort_by_key. enough (forall acc, StronglySorted (fun a b => key a <= key b) acc ->
    StronglySorted (fun a b => key a <= key b) (foldl (fun sorted x => insert_by key x sorted) acc l)) as H by (apply H; constructor).
  induction l as [|x l IH]; intros acc Hacc; simpl; [done|]. by apply IH, insert_by_sorted.
Qed.

(** ** Sublists by filtering *)

Lemma filter_sublist {A} (p : A -> bool) l : List.filter p l `sublist_of` l.
Proof. induction l as [|x l IH]; simpl; [done|]. destruct (p x); by constructor. Qed.

Lemma NoDup_map_filter {A K} (f : A -> K) (p : A -> bool) l : NoDup (map f l) -> NoDup (map f (List.filter p l)).
Proof.
  intros Hl. eapply sublist_NoDup; [exact Hl|]. apply (fmap_sublist f), filter_sublist.
Qed.

Lemma filter_split_length {A} (p : A -> bool) l :
  (length (List.filter p l) + length (List.filter (fun x => negb (p x)) l) = length l)%nat.
Proof. induction l as [|x l IH]; simpl; [done|]. destruct (p x); simpl; lia. Qed.

(** ** Hash maps *)

(** [HashMap::iter]: the entries of a map in the order it iterates. *)
Class MapOrder : Type := map_order : forall {K A : Type} `{Countable K}, gmap K A -> list (K * A).
Class MapOrderLaws (MO : MapOrder) : Prop :=
  map_order_perm : forall {K A : Type} `{Countable K} (m : gmap K A), map_order m ≡ₚ map_to_list m.

#[local] Instance any_order : MapOrder := fun K A _ _ m => map_to_list m.
#[local] Instance any_order_laws : MapOrderLaws any_order.
Proof. by intros K A ? ? m. Qed.
