(* ===== verification/Script.v ===== *)
(** * Script opcodes and the script byte format

    Models [vtorrent-script/src/opcode.rs] (module [Opcodes]),
    [vtorrent-script/src/error.rs] and [vtorrent-script/src/script.rs] (module
    [Scripts]): the builder ([push_data], [push_opcode], [push_int]), the bounds
    checker ([validate]) and the item iterator ([ScriptIter::next]).

    A script is a byte string.  The iterator keeps the data and a position, as
    the source does; [parse1] and [parse_items] are the same function on the
    unread suffix, the form in which the lemmas are stated. *)

From stdpp Require Import base list gmap.
From Stdlib Require Import ZArith Lia.
From S2P Require Import Prelude.

(** ** [opcode.rs] *)

Module Opcodes.

Inductive Opcode : Type :=
  | Op0
  | OpPushData1
  | OpPushData2
  | OpPushData4
  | Op1Negate
  | Op1
  | Op2
  | Op3
  | Op4
  | Op5
  | Op6
  | Op7
  | Op8
  | Op9
  | Op10
  | Op11
  | Op12
  | Op13
  | Op14
  | Op15
  | Op16
  | OpNop
  | OpIf
  | OpNotIf
  | OpElse
  | OpEndIf
  | OpVerify
  | OpReturn
  | OpToAltStack
  | OpFromAltStack
  | OpIfDup
  | OpDepth
  | OpDrop
  | OpDup
  | OpNip
  | OpPick
  | OpOver
  | OpRoll
  | OpRot
  | OpSwap
  | OpTuck
  | Op2Drop
  | Op2Dup
  | Op3Dup
  | Op2Over
  | Op2Rot
  | Op2Swap
  | OpSize
  | OpEqual
  | OpEqualVerify
  | Op1Add
  | Op1Sub
  | OpNegate
  | OpAbs
  | OpNot
  | Op0NotEqual
  | OpAdd
  | OpSub
  | OpBoolAnd
  | OpBoolOr
  | OpNumEqual
  | OpNumEqualVerify
  | OpNumNotEqual
  | OpLessThan
  | OpGreaterThan
  | OpLessThanOrEqual
  | OpGreaterThanOrEqual
  | OpMin
  | OpMax
  | OpWithin
  | OpRipemd160
  | OpSha1
  | OpSha256
  | OpHash160
  | OpHash256
  | OpCodeSeparator
  | OpCheckSig
  | OpCheckSigVerify
  | OpCheckMultiSig
  | OpCheckMultiSigVerify
  | OpCheckLockTimeVerify
  | OpCheckSequenceVerify.

(** The [repr(u8)] discriminants. *)
Definition to_byte (o : Opcode) : Z :=
  match o with
  | Op0 => 0x00
  | OpPushData1 => 0x4c
  | OpPushData2 => 0x4d
  | OpPushData4 => 0x4e
  | Op1Negate => 0x4f
  | Op1 => 0x51
  | Op2 => 0x52
  | Op3 => 0x53
  | Op4 => 0x54
  | Op5 => 0x55
  | Op6 => 0x56
  | Op7 => 0x57
  | Op8 => 0x58
  | Op9 => 0x59
  | Op10 => 0x5a
  | Op11 => 0x5b
  | Op12 => 0x5c
  | Op13 => 0x5d
  | Op14 => 0x5e
  | Op15 => 0x5f
  | Op16 => 0x60
  | OpNop => 0x61
  | OpIf => 0x63
  | OpNotIf => 0x64
  | OpElse => 0x67
  | OpEndIf => 0x68
  | OpVerify => 0x69
  | OpReturn => 0x6a
  | OpToAltStack => 0x6b
  | OpFromAltStack => 0x6c
  | OpIfDup => 0x73
  | OpDepth => 0x74
  | OpDrop => 0x75
  | OpDup => 0x76
  | OpNip => 0x77
  | OpPick => 0x78
  | OpOver => 0x79
  | OpRoll => 0x7a
  | OpRot => 0x7b
  | OpSwap => 0x7c
  | OpTuck => 0x7d
  | Op2Drop => 0x6d
  | Op2Dup => 0x6e
  | Op3Dup => 0x6f
  | Op2Over => 0x70
  | Op2Rot => 0x71
  | Op2Swap => 0x72
  | OpSize => 0x82
  | OpEqual => 0x87
  | OpEqualVerify => 0x88
  | Op1Add => 0x8b
  | Op1Sub => 0x8c
  | OpNegate => 0x8f
  | OpAbs => 0x90
  | OpNot => 0x91
  | Op0NotEqual => 0x92
  | OpAdd => 0x93
  | OpSub => 0x94
  | OpBoolAnd => 0x9a
  | OpBoolOr => 0x9b
  | OpNumEqual => 0x9c
  | OpNumEqualVerify => 0x9d
  | OpNumNotEqual => 0x9e
  | OpLessThan => 0x9f
  | OpGreaterThan => 0xa0
  | OpLessThanOrEqual => 0xa1
  | OpGreaterThanOrEqual => 0xa2
  | OpMin => 0xa3
  | OpMax => 0xa4
  | OpWithin => 0xa5
  | OpRipemd160 => 0xa6
  | OpSha1 => 0xa7
  | OpSha256 => 0xa8
  | OpHash160 => 0xa9
  | OpHash256 => 0xaa
  | OpCodeSeparator => 0xab
  | OpCheckSig => 0xac
  | OpCheckSigVerify => 0xad
  | OpCheckMultiSig => 0xae
  | OpCheckMultiSigVerify => 0xaf
  | OpCheckLockTimeVerify => 0xb1
  | OpCheckSequenceVerify => 0xb2
  end.

(** [Opcode::from_byte]. *)
Definition from_byte (b : Z) : option Opcode :=
  match b with
  | 0x00 => Some Op0
  | 0x4c => Some OpPushData1
  | 0x4d => Some OpPushData2
  | 0x4e => Some OpPushData4
  | 0x4f => Some Op1Negate
  | 0x51 => Some Op1
  | 0x52 => Some Op2
  | 0x53 => Some Op3
  | 0x54 => Some Op4
  | 0x55 => Some Op5
  | 0x56 => Some Op6
  | 0x57 => Some Op7
  | 0x58 => Some Op8
  | 0x59 => Some Op9
  | 0x5a => Some Op10
  | 0x5b => Some Op11
  | 0x5c => Some Op12
  | 0x5d => Some Op13
  | 0x5e => Some Op14
  | 0x5f => Some Op15
  | 0x60 => Some Op16
  | 0x61 => Some OpNop
  | 0x63 => Some OpIf
  | 0x64 => Some OpNotIf
  | 0x67 => Some OpElse
  | 0x68 => Some OpEndIf
  | 0x69 => Some OpVerify
  | 0x6a => Some OpReturn
  | 0x6b => Some OpToAltStack
  | 0x6c => Some OpFromAltStack
  | 0x6d => Some Op2Drop
  | 0x6e => Some Op2Dup
  | 0x6f => Some Op3Dup
  | 0x70 => Some Op2Over
  | 0x71 => Some Op2Rot
  | 0x72 => Some Op2Swap
  | 0x73 => Some OpIfDup
  | 0x74 => Some OpDepth
  | 0x75 => Some OpDrop
  | 0x76 => Some OpDup
  | 0x77 => Some OpNip
  | 0x78 => Some OpPick
  | 0x79 => Some OpOver
  | 0x7a => Some OpRoll
  | 0x7b => Some OpRot
  | 0x7c => Some OpSwap
  | 0x7d => Some OpTuck
  | 0x82 => Some OpSize
  | 0x87 => Some OpEqual
  | 0x88 => Some OpEqualVerify
  | 0x8b => Some Op1Add
  | 0x8c => Some Op1Sub
  | 0x8f => Some OpNegate
  | 0x90 => Some OpAbs
  | 0x91 => Some OpNot
  | 0x92 => Some Op0NotEqual
  | 0x93 => Some OpAdd
  | 0x94 => Some OpSub
  | 0x9a => Some OpBoolAnd
  | 0x9b => Some OpBoolOr
  | 0x9c => Some OpNumEqual
  | 0x9d => Some OpNumEqualVerify
  | 0x9e => Some OpNumNotEqual
  | 0x9f => Some OpLessThan
  | 0xa0 => Some OpGreaterThan
  | 0xa1 => Some OpLessThanOrEqual
  | 0xa2 => Some OpGreaterThanOrEqual
  | 0xa3 => Some OpMin
  | 0xa4 => Some OpMax
  | 0xa5 => Some OpWithin
  | 0xa6 => Some OpRipemd160
  | 0xa7 => Some OpSha1
  | 0xa8 => Some OpSha256
  | 0xa9 => Some OpHash160
  | 0xaa => Some OpHash256
  | 0xab => Some OpCodeSeparator
  | 0xac => Some OpCheckSig
  | 0xad => Some OpCheckSigVerify
  | 0xae => Some OpCheckMultiSig
  | 0xaf => Some OpCheckMultiSigVerify
  | 0xb1 => Some OpCheckLockTimeVerify
  | 0xb2 => Some OpCheckSequenceVerify
  | _ => None
  end.

(** [from_byte] is the exact inverse of the discriminants. *)
Lemma from_byte_to_byte o : from_byte (to_byte o) = Some o.
Proof. by destruct o. Qed.

Lemma from_byte_Some b o : from_byte b = Some o -> to_byte o = b.
Proof.
  unfold from_byte. intros H.
  repeat (case_match; try discriminate); by injection H as <-.
Qed.

End Opcodes.

(** ** [error.rs] *)

Inductive ScriptError : Type :=
  | EmptyStack
  | VerifyFailed
  | InvalidOpcode (op : Z)
  | StackOverflow
  | UnbalancedConditional
  | InvalidSignature
  | InvalidPublicKey
  | SignatureVerification
  | ScriptTooLarge (n : Z)
  | TruncatedPush
  | PushTooLarge (n : Z)
  | MultisigKeyCount (m n : Z)
  | InvalidScriptNumber
  | HtlcHashMismatch
  | HtlcLocktimeNotExpired
  | NegativeLocktime
  | UnsatisfiedLocktime
  | UnsatisfiedSequence
  | NegativeSequence
  | OpReturnUnspendable
  | UnknownScriptType
  | Serialization (inner : ScriptError).

#[export] Instance ScriptError_eq_dec : EqDecision ScriptError.
Proof. intros a; induction a; intros []; unfold Decision; solve [by left|by right|decide equality; apply Z.eq_dec]. Defined.

(** ** [script.rs] *)

Module Scripts.

Definition MAX_SCRIPT_SIZE : Z := 10000.
Definition MAX_PUSH_SIZE : Z := 520.

(** [struct Script(pub Vec<u8>)]. *)
Abbreviation Script := bytes.

(** [Script::from_bytes]. *)
Definition from_bytes (b : bytes) : res ScriptError Script :=
  if MAX_SCRIPT_SIZE <? zlen b then Err (ScriptTooLarge (zlen b)) else Ok b.

(** [Script::push_data]: the script extended by one push. *)
Definition push_data (s : Script) (data : bytes) : res ScriptError Script :=
  if MAX_PUSH_SIZE <? zlen data then Err (PushTooLarge (zlen data)) else
  let n := zlen data in
  Ok (if n =? 0 then vec_push s 0x00
      else if (1 <=? n) && (n <=? 75) then vec_push s (as_u8 n) ++ data
      else if (76 <=? n) && (n <=? 255) then vec_push (vec_push s 0x4c) (as_u8 n) ++ data
      else if (256 <=? n) && (n <=? 65535) then vec_push s 0x4d ++ le16 n ++ data
      else vec_push s 0x4e ++ le32 n ++ data).

(** [Script::push_opcode]. *)
Definition push_opcode (s : Script) (opcode : Z) : Script := vec_push s opcode.

(** [Script::push_int] of a [u8]. *)
Definition push_int (s : Script) (n : Z) : Script :=
  if n =? 0 then vec_push s 0x00
  else if (1 <=? n) && (n <=? 16) then vec_push s (0x50 + n)
  else if n <? 0x80 then vec_push s n
  else vec_push (vec_push s n) 0x00.

(** The length prefix announced at [pos] and the position after the push, as
    [validate] computes it. *)
Definition validate_step (data : bytes) (pos : Z) : res ScriptError Z :=
  let* b := vec_get data pos in
  if b =? 0x00 then Ok (pos + 1)
  else if (1 <=? b) && (b <=? 75) then Ok (pos + (1 + b))
  else if b =? 0x4c then
    if zlen data <? pos + 2 then Err TruncatedPush else
    let* n := vec_get data (pos + 1) in
    Ok (pos + (2 + n))
  else if b =? 0x4d then
    if zlen data <? pos + 3 then Err TruncatedPush else
    let* b1 := vec_get data (pos + 1) in
    let* b2 := vec_get data (pos + 2) in
    Ok (pos + (3 + from_le [b1; b2]))
  else if b =? 0x4e then
    if zlen data <? pos + 5 then Err TruncatedPush else
    let* b1 := vec_get data (pos + 1) in
    let* b2 := vec_get data (pos + 2) in
    let* b3 := vec_get data (pos + 3) in
    let* b4 := vec_get data (pos + 4) in
    Ok (pos + (5 + from_le [b1; b2; b3; b4]))
  else Ok (pos + 1).

(** The [while] loop of [Script::validate]; running out of fuel is [Panic]. *)
Fixpoint validate_loop (fuel : nat) (data : bytes) (pos : Z) : res ScriptError unit :=
  match fuel with
  | O => Panic
  | S fuel =>
      if pos <? zlen data then
        let* pos' := validate_step data pos in
        if zlen data <? pos' then Err TruncatedPush else validate_loop fuel data pos'
      else Ok tt
  end.

(** [Script::validate].  Every iteration advances by at least one byte, so one
    more step than there are bytes is enough. *)
Definition validate (s : Script) : res ScriptError unit :=
  validate_loop (S (length s)) s 0.

(** [enum ScriptItem]. *)
Inductive ScriptItem : Type :=
  | Opcode (op : Z)
  | PushData (data : bytes).

(** [struct ScriptIter]. *)
Record ScriptIter : Type := mkIter { it_data : bytes; it_pos : Z }.

(** [&self.data[self.pos..self.pos + len]] behind its bounds check. *)
Definition take_push (data : bytes) (pos len : Z) : option (ScriptItem * ScriptIter) :=
  if zlen data <? pos + len then None
  else Some (PushData (slice pos (pos + len) data), mkIter data (pos + len)).

(** [ScriptIter::next]. *)
Definition next (it : ScriptIter) : res ScriptError (option (ScriptItem * ScriptIter)) :=
  let data := it_data it in
  if zlen data <=? it_pos it then Ok None else
  let* byte := vec_get data (it_pos it) in
  let pos := it_pos it + 1 in
  if byte =? 0x00 then Ok (Some (PushData [], mkIter data pos))
  else if (1 <=? byte) && (byte <=? 75) then Ok (take_push data pos byte)
  else if byte =? 0x4c then
    if zlen data <=? pos then Ok None else
    let* len := vec_get data pos in
    Ok (take_push data (pos + 1) len)
  else if byte =? 0x4d then
    if zlen data <? pos + 2 then Ok None else
    let* b0 := vec_get data pos in
    let* b1 := vec_get data (pos + 1) in
    Ok (take_push data (pos + 2) (from_le [b0; b1]))
  else if byte =? 0x4e then
    if zlen data <? pos + 4 then Ok None else
    let* b0 := vec_get data pos in
    let* b1 := vec_get data (pos + 1) in
    let* b2 := vec_get data (pos + 2) in
    let* b3 := vec_get data (pos + 3) in
    Ok (take_push data (pos + 4) (from_le [b0; b1; b2; b3]))
  else Ok (Some (Opcode byte, mkIter data pos)).

(** [Script::iter]. *)
Definition iter (s : Script) : ScriptIter := mkIter s 0.

(** What a [for item in it] loop sees. *)
Fixpoint collect (fuel : nat) (it : ScriptIter) : res ScriptError (list ScriptItem) :=
  match fuel with
  | O => Panic
  | S fuel =>
      let* o := next it in
      match o with
      | None => Ok []
      | Some (i, it') => let* l := collect fuel it' in Ok (i :: l)
      end
  end.

Definition items (s : Script) : res ScriptError (list ScriptItem) :=
  collect (S (length s)) (iter s).

(** The iteration as a relation: [reads it l it'] when [next] yields the items
    [l] one after the other from [it] and leaves the iterator at [it']. *)
Inductive reads : ScriptIter -> list ScriptItem -> ScriptIter -> Prop :=
  | reads_done it : reads it [] it
  | reads_next it i it' l it'' :
      next it = Ok (Some (i, it')) -> reads it' l it'' -> reads it (i :: l) it''.

(** *** The same iterator on the unread suffix *)

Definition split_push (len : Z) (r : bytes) : option (ScriptItem * bytes) :=
  if zlen r <? len then None
  else Some (PushData (take (Z.to_nat len) r), drop (Z.to_nat len) r).

Definition parse1 (l : bytes) : option (ScriptItem * bytes) :=
  match l with
  | [] => None
  | b :: r =>
      if b =? 0x00 then Some (PushData [], r)
      else if (1 <=? b) && (b <=? 75) then split_push b r
      else if b =? 0x4c then
        match r with n :: r => split_push n r | _ => None end
      else if b =? 0x4d then
        match r with b0 :: b1 :: r => split_push (from_le [b0; b1]) r | _ => None end
      else if b =? 0x4e then
        match r with
        | b0 :: b1 :: b2 :: b3 :: r => split_push (from_le [b0; b1; b2; b3]) r
        | _ => None
        end
      else Some (Opcode b, r)
  end.

Fixpoint parse_fuel (fuel : nat) (l : bytes) : list ScriptItem :=
  match fuel with
  | O => []
  | S fuel =>
      match parse1 l with
      | None => []
      | Some (i, r) => i :: parse_fuel fuel r
      end
  end.

Definition parse_items (l : bytes) : list ScriptItem := parse_fuel (S (length l)) l.

(** Whether the parse ends exactly at the last byte. *)
Fixpoint complete_fuel (fuel : nat) (l : bytes) : bool :=
  match fuel, l with
  | _, [] => true
  | O, _ => false
  | S fuel, _ =>
      match parse1 l with
      | None => false
      | Some (_, r) => complete_fuel fuel r
      end
  end.

Definition complete (l : bytes) : bool := complete_fuel (S (length l)) l.

(** *** Lemmas: iterator and suffix parser agree *)

Lemma vec_get_app {E A} (pre l : list A) k :
  0 <= k -> vec_get (E:=E) (pre ++ l) (zlen pre + k) = vec_get l k.
Proof.
  intros Hk. unfold vec_get, vec_at, zlen.
  rewrite (proj2 (Z.leb_le 0 k)), (proj2 (Z.leb_le 0 (_ + k))) by lia.
  rewrite lookup_app_r by lia. do 2 f_equal. lia.
Qed.

Lemma slice_app (pre l : bytes) k n :
  0 <= k -> 0 <= n ->
  slice (zlen pre + k) (zlen pre + k + n) (pre ++ l) = take (Z.to_nat n) (drop (Z.to_nat k) l).
Proof.
  intros. unfold slice, zlen. rewrite drop_app_ge by lia. f_equal; [lia|f_equal; lia].
Qed.

Lemma take_push_app (pre h l : bytes) n :
  0 <= n ->
  take_push (pre ++ h ++ l) (zlen pre + zlen h) n =
  match split_push n l with
  | None => None
  | Some (i, r) => Some (i, mkIter (pre ++ h ++ l) (zlen pre + (zlen (h ++ l) - zlen r)))
  end.
Proof.
  intros Hn. unfold take_push, split_push. autorewrite with zlen.
  destruct (Z.ltb_spec (zlen l) n), (Z.ltb_spec (zlen pre + (zlen h + zlen l)) (zlen pre + zlen h + n));
    try lia; [done|].
  rewrite slice_app by (pose proof (zlen_nonneg h); lia).
  unfold zlen at 1. rewrite Nat2Z.id, drop_app_length. do 3 f_equal.
  rewrite zlen_drop. lia.
Qed.

(** The bytes of a header [h] that starts at the position of the iterator. *)
Lemma vec_get_header {E A} (pre h l : list A) k :
  0 <= k < zlen h -> vec_get (E:=E) (pre ++ h ++ l) (zlen pre + k) = vec_get h k.
Proof.
  intros [Hk Hh]. rewrite vec_get_app by lia. unfold vec_get, vec_at, zlen in *.
  rewrite (proj2 (Z.leb_le 0 k)) by lia. by rewrite lookup_app_l by lia.
Qed.

Lemma is_bytes_app l1 l2 : is_bytes (l1 ++ l2) <-> is_bytes l1 /\ is_bytes l2.
Proof. apply Forall_app. Qed.

(** The bytes that announce a push of [n] bytes. *)
Definition push_header (h : bytes) (n : Z) : Prop :=
  0 <= n /\
  (h = [n] /\ 1 <= n <= 75 \/ h = [0x4c; n] \/
   (exists b0 b1, h = [0x4d; b0; b1] /\ n = from_le [b0; b1]) \/
   (exists b0 b1 b2 b3, h = [0x4e; b0; b1; b2; b3] /\ n = from_le [b0; b1; b2; b3])).

(** A byte that is an item of its own. *)
Definition plain_byte (b : Z) : Prop :=
  is_byte b /\ (b = 0 \/ 75 < b /\ b <> 0x4c /\ b <> 0x4d /\ b <> 0x4e).

(** A push opcode whose length field runs past the end. *)
Definition short_header (b : Z) (r : bytes) : Prop :=
  b = 0x4c /\ zlen r < 1 \/ b = 0x4d /\ zlen r < 2 \/ b = 0x4e /\ zlen r < 4.

(** The four ways a suffix can begin. *)
Inductive header_view : bytes -> Prop :=
  | hv_nil : header_view []
  | hv_plain b r : plain_byte b -> header_view (b :: r)
  | hv_push h n r : push_header h n -> header_view (h ++ r)
  | hv_short b r : short_header b r -> header_view (b :: r).

Lemma header_viewP l : is_bytes l -> header_view l.
Proof.
  intros Hl. destruct l as [|b r]; [constructor|].
  pose proof Hl as [Hb Hr]%Forall_cons.
  destruct (decide (b = 0 \/ 75 < b /\ b <> 0x4c /\ b <> 0x4d /\ b <> 0x4e)) as [Hp|Hp];
    [by apply hv_plain|].
  unfold is_byte in Hb.
  destruct (decide (1 <= b <= 75)) as [?|Hp75].
  { apply (hv_push [b] b r). split; [lia|by left]. }
  assert (b = 0x4c \/ b = 0x4d \/ b = 0x4e) as [-> | [-> | ->]] by lia.
  - destruct r as [|n r]; [apply hv_short; by left|].
    apply Forall_cons in Hr as [Hn Hr]. unfold is_byte in Hn.
    apply (hv_push [0x4c; n] n r). split; [lia|by right; left].
  - destruct r as [|b0 [|b1 r]]; try (apply hv_short; by right; left).
    assert (is_bytes [b0; b1]) by (apply (Forall_app _ [b0; b1] r) in Hr; tauto).
    apply (hv_push [0x4d; b0; b1] (from_le [b0; b1]) r).
    split; [by apply from_le_bound|right; right; left; eauto].
  - destruct r as [|b0 [|b1 [|b2 [|b3 r]]]]; try (apply hv_short; by right; right).
    assert (is_bytes [b0; b1; b2; b3]) by (apply (Forall_app _ [b0; b1; b2; b3] r) in Hr; tauto).
    apply (hv_push [0x4e; b0; b1; b2; b3] (from_le [b0; b1; b2; b3]) r).
    split; [by apply from_le_bound|right; right; right; eauto 6].
Qed.

(** Read the [k]-th byte of the header. *)
Local Ltac get k :=
  match goal with H : forall i p, _ -> _ -> vec_get _ _ = _ |- _ => erewrite (H k) by (autorewrite with zlen; lia) end;
  simpl.

Local Ltac pos_eq := do 2 f_equal; autorewrite with zlen; lia.

Lemma next_push pre h r n :
  push_header h n ->
  next (mkIter (pre ++ h ++ r) (zlen pre)) = Ok (take_push (pre ++ h ++ r) (zlen pre + zlen h) n) /\
  parse1 (h ++ r) = split_push n r.
Proof.
  intros [Hn Hh].
  assert (Hz : 0 <= zlen pre /\ 0 <= zlen r) by (split; apply zlen_nonneg).
  assert (Hget : forall k p, p = zlen pre + k -> 0 <= k < zlen h ->
    vec_get (E:=ScriptError) (pre ++ h ++ r) p = vec_get h k)
    by (intros ? ? ->; apply vec_get_header).
  assert (H0 : 0 < zlen h)
    by (destruct Hh as [[-> ?]|[->|[(?&?&->&?)|(?&?&?&?&->&?)]]]; done).
  unfold next; cbn [it_data it_pos].
  rewrite (proj2 (Z.leb_gt _ _)) by (autorewrite with zlen; lia).
  get 0.
  destruct Hh as [[-> H1]|[->|[(b0&b1&->&->)|(b0&b1&b2&b3&->&->)]]]; cbn [app] in *; simpl.
  - rewrite (proj2 (Z.eqb_neq _ _)) by lia.
    by rewrite (proj2 (Z.leb_le _ _)), (proj2 (Z.leb_le _ _)) by lia.
  - rewrite (proj2 (Z.leb_gt _ _)) by (autorewrite with zlen; lia).
    get 1. split; [|done]. by pos_eq.
  - rewrite (proj2 (Z.ltb_ge _ _)) by (autorewrite with zlen; lia).
    get 1. get 2. split; [|done]. by pos_eq.
  - rewrite (proj2 (Z.ltb_ge _ _)) by (autorewrite with zlen; lia).
    get 1. get 2. get 3. get 4. split; [|done]. by pos_eq.
Qed.

(** A push whose header is cut short yields nothing. *)
Lemma next_short pre b r :
  short_header b r ->
  next (mkIter (pre ++ b :: r) (zlen pre)) = Ok None /\ parse1 (b :: r) = None.
Proof.
  intros Hb. pose proof (zlen_nonneg pre). pose proof (zlen_nonneg r).
  pose proof (vec_get_header (E:=ScriptError) pre [b] r 0 ltac:(done)) as Hg.
  rewrite Z.add_0_r in Hg. cbn [app] in Hg.
  unfold next; cbn [it_data it_pos].
  rewrite (proj2 (Z.leb_gt _ _)) by (autorewrite with zlen; lia). rewrite Hg. simpl.
  destruct Hb as [[-> Hr]|[[-> Hr]|[-> Hr]]]; simpl.
  - rewrite (proj2 (Z.leb_le _ _)) by (autorewrite with zlen; lia). split; [done|].
    destruct r; [done|]. rewrite zlen_cons in Hr. pose proof (zlen_nonneg r). lia.
  - rewrite (proj2 (Z.ltb_lt _ _)) by (autorewrite with zlen; lia). split; [done|].
    destruct r as [|? [|? r]]; [done..|]. rewrite !zlen_cons in Hr. pose proof (zlen_nonneg r). lia.
  - rewrite (proj2 (Z.ltb_lt _ _)) by (autorewrite with zlen; lia). split; [done|].
    destruct r as [|? [|? [|? [|? r]]]]; [done..|]. rewrite !zlen_cons in Hr.
    pose proof (zlen_nonneg r). lia.
Qed.

(** One byte that is not a push header. *)
Lemma next_plain pre b r :
  plain_byte b ->
  let i := if b =? 0 then PushData [] else Opcode b in
  next (mkIter (pre ++ b :: r) (zlen pre)) = Ok (Some (i, mkIter (pre ++ b :: r) (zlen pre + 1))) /\
  parse1 (b :: r) = Some (i, r).
Proof.
  intros [Hb H]. pose proof (zlen_nonneg r).
  pose proof (vec_get_header (E:=ScriptError) pre [b] r 0 ltac:(done)) as Hg.
  rewrite Z.add_0_r in Hg. cbn [app] in Hg.
  unfold next, parse1; cbn [it_data it_pos].
  rewrite (proj2 (Z.leb_gt _ _)) by (autorewrite with zlen; lia). rewrite Hg. simpl.
  destruct (Z.eqb_spec b 0); [done|].
  rewrite (proj2 (Z.leb_gt b 75)), andb_false_r by lia.
  by rewrite !(proj2 (Z.eqb_neq _ _)) by lia.
Qed.

(** [next] is [parse1] on the suffix that starts at the position. *)
Lemma next_app (pre l : bytes) :
  is_bytes l ->
  next (mkIter (pre ++ l) (zlen pre)) =
  Ok match parse1 l with
     | None => None
     | Some (i, r) => Some (i, mkIter (pre ++ l) (zlen pre + (zlen l - zlen r)))
     end.
Proof.
  intros Hl. destruct (header_viewP l Hl) as [|b r Hb|h n r Hh|b r Hb].
  - unfold next; simpl. by rewrite app_nil_r, Z.leb_refl.
  - destruct (next_plain pre b r Hb) as [-> ->]. do 4 f_equal. rewrite zlen_cons. lia.
  - destruct (next_push pre h r n Hh) as [-> ->]. f_equal. apply take_push_app. apply Hh.
  - by destruct (next_short pre b r Hb) as [-> ->].
Qed.

(** *** Lemmas: collecting the items *)

Lemma split_push_suffix n r i r' :
  split_push n r = Some (i, r') -> exists p, r = p ++ r'.
Proof.
  unfold split_push. case_match; [done|]. intros [= _ <-].
  exists (take (Z.to_nat n) r). by rewrite take_drop.
Qed.

Lemma parse1_suffix l i r : parse1 l = Some (i, r) -> exists h, h <> [] /\ l = h ++ r.
Proof.
  destruct l as [|b l]; simpl; [done|]. intros H.
  repeat case_match; simplify_eq; try by exists [b].
  all: apply split_push_suffix in H as [p ->].
  all: eexists (b :: _); split; [done|]; rewrite <- app_comm_cons; f_equal.
  all: by rewrite ?app_comm_cons.
Qed.

Lemma parse1_length l i r : parse1 l = Some (i, r) -> (length r < length l)%nat.
Proof.
  intros (h & Hh & ->)%parse1_suffix. rewrite length_app. destruct h; simpl; [done|lia].
Qed.

Lemma parse_fuel_enough f1 f2 l :
  (length l < f1)%nat -> (length l < f2)%nat -> parse_fuel f1 l = parse_fuel f2 l.
Proof.
  revert f2 l; induction f1 as [|f1 IH]; intros [|f2] l H1 H2; simpl; try lia.
  destruct (parse1 l) as [[i r]|] eqn:E; [|done]. apply parse1_length in E.
  f_equal. apply IH; lia.
Qed.

Lemma parse_items_unfold l :
  parse_items l = match parse1 l with None => [] | Some (i, r) => i :: parse_items r end.
Proof.
  unfold parse_items at 1. simpl. destruct (parse1 l) as [[i r]|] eqn:E; [|done].
  apply parse1_length in E. f_equal. apply parse_fuel_enough; lia.
Qed.

Lemma complete_fuel_enough f1 f2 l :
  (length l < f1)%nat -> (length l < f2)%nat -> complete_fuel f1 l = complete_fuel f2 l.
Proof.
  revert f2 l; induction f1 as [|f1 IH]; intros [|f2] l H1 H2; simpl; try lia.
  destruct l as [|b l]; [done|].
  destruct (parse1 (b :: l)) as [[i r]|] eqn:E; [|done]. apply parse1_length in E.
  apply IH; simpl in *; lia.
Qed.

Lemma complete_unfold b l :
  complete (b :: l) = match parse1 (b :: l) with None => false | Some (_, r) => complete r end.
Proof.
  unfold complete at 1. cbn [complete_fuel].
  destruct (parse1 (b :: l)) as [[i r]|] eqn:E; [|done].
  apply parse1_length in E. apply complete_fuel_enough; simpl in *; lia.
Qed.

Lemma collect_app fuel pre l :
  is_bytes l -> (length l < fuel)%nat ->
  collect fuel (mkIter (pre ++ l) (zlen pre)) = Ok (parse_fuel fuel l).
Proof.
  revert pre l; induction fuel as [|fuel IH]; intros pre l Hl Hf; [lia|].
  simpl. rewrite next_app by done. simpl.
  destruct (parse1 l) as [[i r]|] eqn:E; [|done].
  pose proof (parse1_length _ _ _ E). apply parse1_suffix in E as (h & Hh & ->).
  apply is_bytes_app in Hl as [_ Hr].
  replace (zlen pre + (zlen (h ++ r) - zlen r)) with (zlen (pre ++ h)) by (autorewrite with zlen; lia).
  rewrite app_assoc, IH by (done || lia). done.
Qed.

(** The [for] loop over a script terminates without a panic and sees exactly
    the items of the suffix parser. *)
Lemma items_parse s : is_bytes s -> items s = Ok (parse_items s).
Proof. intros. apply (collect_app (S (length s)) [] s); [done|lia]. Qed.

(** *** Lemmas: [validate] *)

Lemma validate_step_app pre l :
  is_bytes l -> l <> [] ->
  match parse1 l with
  | Some (_, r) => validate_step (pre ++ l) (zlen pre) = Ok (zlen pre + (zlen l - zlen r))
  | None => validate_step (pre ++ l) (zlen pre) = Err TruncatedPush \/
            exists p, validate_step (pre ++ l) (zlen pre) = Ok p /\ zlen (pre ++ l) < p
  end.
Proof.
  intros Hl Hne. pose proof (zlen_nonneg pre).
  destruct (header_viewP l Hl) as [|b r Hb|h n r Hh|b r Hb]; [done|..].
  - rewrite (proj2 (next_plain pre b r Hb)). destruct Hb as [Hb Hp]. unfold validate_step.
    pose proof (vec_get_header (E:=ScriptError) pre [b] r 0 ltac:(done)) as Hg.
    rewrite Z.add_0_r in Hg. cbn [app] in Hg. rewrite Hg. simpl.
    destruct (Z.eqb_spec b 0); [f_equal; rewrite zlen_cons; lia|].
    rewrite (proj2 (Z.leb_gt b 75)), andb_false_r by lia.
    rewrite !(proj2 (Z.eqb_neq _ _)) by lia. f_equal. rewrite zlen_cons. lia.
  - rewrite (proj2 (next_push pre h r n Hh)).
    assert (Hs : validate_step (pre ++ h ++ r) (zlen pre) = Ok (zlen pre + (zlen h + n))).
    { destruct Hh as [Hn Hh]. pose proof (zlen_nonneg r). unfold validate_step.
      assert (Hget : forall k p, p = zlen pre + k -> 0 <= k < zlen h ->
        vec_get (E:=ScriptError) (pre ++ h ++ r) p = vec_get h k)
        by (intros ? ? ->; apply vec_get_header).
      destruct Hh as [[-> H1]|[->|[(b0&b1&->&->)|(b0&b1&b2&b3&->&->)]]]; cbn [app] in *; get 0.
      - rewrite (proj2 (Z.eqb_neq _ _)) by lia.
        by rewrite (proj2 (Z.leb_le _ _)), (proj2 (Z.leb_le _ _)) by lia.
      - rewrite (proj2 (Z.ltb_ge _ _)) by (autorewrite with zlen; lia). by get 1.
      - rewrite (proj2 (Z.ltb_ge _ _)) by (autorewrite with zlen; lia). get 1. by get 2.
      - rewrite (proj2 (Z.ltb_ge _ _)) by (autorewrite with zlen; lia). get 1. get 2. get 3. by get 4. }
    unfold split_push. destruct (Z.ltb_spec (zlen r) n).
    + right. exists (zlen pre + (zlen h + n)). split; [done|autorewrite with zlen; lia].
    + rewrite Hs. f_equal. destruct Hh as [Hn _]. rewrite zlen_app, zlen_drop. lia.
  - rewrite (proj2 (next_short pre b r Hb)). left. unfold validate_step.
    pose proof (vec_get_header (E:=ScriptError) pre [b] r 0 ltac:(done)) as Hg.
    rewrite Z.add_0_r in Hg. cbn [app] in Hg. rewrite Hg. simpl.
    destruct Hb as [[-> Hr]|[[-> Hr]|[-> Hr]]]; simpl;
      by rewrite (proj2 (Z.ltb_lt _ _)) by (autorewrite with zlen; lia).
Qed.

Lemma validate_loop_app fuel pre l :
  is_bytes l -> (length l < fuel)%nat ->
  validate_loop fuel (pre ++ l) (zlen pre) =
  if complete_fuel fuel l then Ok tt else Err TruncatedPush.
Proof.
  revert pre l; induction fuel as [|fuel IH]; intros pre l Hl Hf; [lia|].
  cbn [validate_loop complete_fuel]. destruct l as [|b l].
  { rewrite app_nil_r. by rewrite Z.ltb_irrefl. }
  pose proof (zlen_nonneg l).
  rewrite (proj2 (Z.ltb_lt _ _)) by (autorewrite with zlen; lia).
  pose proof (validate_step_app pre (b :: l) Hl ltac:(done)) as Hs.
  destruct (parse1 (b :: l)) as [[i r]|] eqn:E.
  - rewrite Hs. simpl. pose proof (parse1_length _ _ _ E). pose proof (zlen_nonneg r).
    rewrite (proj2 (Z.ltb_ge _ _)) by (autorewrite with zlen; lia).
    apply parse1_suffix in E as (h & Hh & E). rewrite E in *. apply is_bytes_app in Hl as [_ Hr].
    replace (zlen pre + (zlen (h ++ r) - zlen r)) with (zlen (pre ++ h)) by (autorewrite with zlen; lia).
    rewrite app_assoc. apply IH; [done|lia].
  - destruct Hs as [-> | (p & -> & Hp)]; simpl; [done|]. by rewrite (proj2 (Z.ltb_lt _ _)).
Qed.

Lemma validate_complete s :
  is_bytes s -> validate s = if complete s then Ok tt else Err TruncatedPush.
Proof. intros. apply (validate_loop_app (S (length s)) [] s); [done|lia]. Qed.

(** The items of a byte string carry bytes. *)
Definition item_ok (i : ScriptItem) : Prop :=
  match i with Opcode op => is_byte op | PushData d => is_bytes d end.

Lemma split_push_ok n r i r' : is_bytes r -> split_push n r = Some (i, r') -> item_ok i.
Proof.
  unfold split_push. intros Hr H. case_match; [done|]. injection H as <- _. by apply Forall_take.
Qed.

Lemma parse1_ok l i r : is_bytes l -> parse1 l = Some (i, r) -> item_ok i /\ is_bytes r.
Proof.
  intros Hl H. split; [|apply parse1_suffix in H as (h & _ & ->); apply is_bytes_app in Hl; tauto].
  destruct l as [|b l]; simpl in H; [done|]. apply Forall_cons in Hl as [Hb Hl].
  repeat case_match; simplify_eq; try done; try (by constructor);
    (eapply split_push_ok; [|exact H]); try done; by repeat (apply Forall_cons in Hl as [_ Hl]).
Qed.

Lemma parse_items_ok l : is_bytes l -> Forall item_ok (parse_items l).
Proof.
  unfold parse_items. generalize (S (length l)) as n. intros n. revert l.
  induction n as [|n IH]; intros l Hl; simpl; [constructor|].
  destruct (parse1 l) as [[i r]|] eqn:E; [|constructor].
  destruct (parse1_ok _ _ _ Hl E). constructor; auto.
Qed.

(** *** Lemmas: the builder *)

(** The bytes [push_data] appends. *)
Definition push_bytes (data : bytes) : bytes :=
  let n := zlen data in
  if n =? 0 then [0x00]
  else if n <=? 75 then n :: data
  else if n <=? 255 then 0x4c :: n :: data
  else 0x4d :: le16 n ++ data.

Lemma push_data_bytes s d :
  zlen d <= MAX_PUSH_SIZE -> push_data s d = Ok (s ++ push_bytes d).
Proof.
  unfold push_data, push_bytes, vec_push, as_u8, MAX_PUSH_SIZE. intros Hd.
  pose proof (zlen_nonneg d). rewrite (proj2 (Z.ltb_ge _ _)) by lia. f_equal.
  destruct (Z.eqb_spec (zlen d) 0); [done|].
  rewrite (proj2 (Z.leb_le 1 (zlen d))) by lia. simpl.
  destruct (Z.leb_spec (zlen d) 75).
  { rewrite Z.mod_small by lia. by rewrite <- app_assoc. }
  rewrite (proj2 (Z.leb_le 76 (zlen d))) by lia. simpl.
  destruct (Z.leb_spec (zlen d) 255).
  { rewrite Z.mod_small by lia. by rewrite <- !app_assoc. }
  rewrite (proj2 (Z.leb_le 256 (zlen d))), (proj2 (Z.leb_le (zlen d) 65535)) by lia.
  simpl. by rewrite <- !app_assoc.
Qed.

Lemma push_data_too_large s d :
  MAX_PUSH_SIZE < zlen d -> push_data s d = Err (PushTooLarge (zlen d)).
Proof. intros. unfold push_data. by rewrite (proj2 (Z.ltb_lt _ _)). Qed.

Lemma split_push_app (d r : bytes) : split_push (zlen d) (d ++ r) = Some (PushData d, r).
Proof.
  unfold split_push. pose proof (zlen_nonneg r).
  rewrite (proj2 (Z.ltb_ge _ _)) by (autorewrite with zlen; lia).
  unfold zlen. by rewrite Nat2Z.id, take_app_length, drop_app_length.
Qed.

Lemma parse1_push d r :
  zlen d <= MAX_PUSH_SIZE -> parse1 (push_bytes d ++ r) = Some (PushData d, r).
Proof.
  unfold push_bytes, MAX_PUSH_SIZE. intros Hd. pose proof (zlen_nonneg d).
  destruct (Z.eqb_spec (zlen d) 0) as [H0|H0].
  { destruct d as [|x d]; [done|]. rewrite zlen_cons in H0. pose proof (zlen_nonneg d). lia. }
  destruct (Z.leb_spec (zlen d) 75).
  { simpl. rewrite (proj2 (Z.eqb_neq _ _)) by lia.
    rewrite (proj2 (Z.leb_le 1 _)), (proj2 (Z.leb_le _ 75)) by lia. apply split_push_app. }
  destruct (Z.leb_spec (zlen d) 255); [apply split_push_app|].
  pose proof (from_le_to_le 2 (zlen d) ltac:(lia)) as Hle. unfold le16. cbn [to_le] in *.
  cbn [app parse1 Z.eqb Z.leb andb Pos.eqb Z.compare Pos.compare Pos.compare_cont]. rewrite Hle.
  apply split_push_app.
Qed.

Lemma parse1_opcode op r :
  plain_byte op -> op <> 0 -> parse1 (op :: r) = Some (Opcode op, r).
Proof.
  intros Hp Hne. destruct (next_plain [] op r Hp) as [_ ->].
  by rewrite (proj2 (Z.eqb_neq _ _)).
Qed.

Lemma push_bytes_is_bytes d : is_bytes d -> zlen d <= MAX_PUSH_SIZE -> is_bytes (push_bytes d).
Proof.
  unfold push_bytes, MAX_PUSH_SIZE. intros Hd Hn. pose proof (zlen_nonneg d).
  assert (is_byte (zlen d mod 256)) by (apply Z.mod_pos_bound; lia).
  repeat case_match; bool_prop; repeat (apply Forall_cons; split); unfold is_byte; try lia; try done.
  all: apply Z.mod_pos_bound; lia.
Qed.

(** A sequence of builder calls: [push_data] for data, [push_opcode] for an
    opcode. *)
Definition build_item (s : Script) (i : ScriptItem) : res ScriptError Script :=
  match i with
  | PushData d => push_data s d
  | Opcode op => Ok (push_opcode s op)
  end.

Definition build (l : list ScriptItem) : res ScriptError Script := rfold build_item [] l.

(** What the builder accepts: a push of at most [MAX_PUSH_SIZE] bytes, an opcode
    byte that is not itself a push prefix. *)
Definition wf_item (i : ScriptItem) : Prop :=
  match i with
  | PushData d => is_bytes d /\ zlen d <= MAX_PUSH_SIZE
  | Opcode op => plain_byte op /\ op <> 0
  end.

Definition item_bytes (i : ScriptItem) : bytes :=
  match i with PushData d => push_bytes d | Opcode op => [op] end.

Lemma build_from s l :
  Forall wf_item l -> rfold build_item s l = Ok (s ++ concat (map item_bytes l)).
Proof.
  revert s; induction l as [|i l IH]; intros s Hl; simpl; [by rewrite app_nil_r|].
  apply Forall_cons in Hl as [Hi Hl].
  assert (build_item s i = Ok (s ++ item_bytes i)) as ->
    by (destruct i; simpl in *; [done|apply push_data_bytes; tauto]).
  simpl. rewrite IH by done. by rewrite <- app_assoc.
Qed.

Lemma parse1_item i r : wf_item i -> parse1 (item_bytes i ++ r) = Some (i, r).
Proof.
  destruct i; simpl; intros [? ?]; [by apply parse1_opcode|by apply parse1_push].
Qed.

Lemma parse_items_build l r :
  Forall wf_item l -> parse_items (concat (map item_bytes l) ++ r) = l ++ parse_items r.
Proof.
  induction 1 as [|i l Hi Hl IH]; simpl; [done|].
  rewrite <- app_assoc, parse_items_unfold, parse1_item by done. by f_equal.
Qed.

Lemma complete_build l : Forall wf_item l -> complete (concat (map item_bytes l)) = true.
Proof.
  induction 1 as [|i l Hi Hl IH]; simpl; [done|].
  pose proof (parse1_item i (concat (map item_bytes l)) Hi) as Hp.
  destruct (item_bytes i ++ _) eqn:E; [by simpl in Hp|]. by rewrite complete_unfold, Hp.
Qed.

Lemma build_is_bytes l : Forall wf_item l -> is_bytes (concat (map item_bytes l)).
Proof.
  induction 1 as [|i l Hi Hl IH]; simpl; [constructor|]. apply is_bytes_app. split; [|done].
  destruct i; simpl in *; destruct Hi as [Hb Hn]; [|by apply push_bytes_is_bytes].
  apply Forall_cons. split; [apply Hb|constructor].
Qed.

Lemma reads_app pre l items_l it' :
  is_bytes l -> reads (mkIter (pre ++ l) (zlen pre)) items_l it' ->
  exists h r, l = h ++ r /\ it' = mkIter (pre ++ l) (zlen (pre ++ h)) /\
              complete l = complete r.
Proof.
  intros Hl H. remember (mkIter (pre ++ l) (zlen pre)) as it eqn:Eit.
  revert pre l Hl Eit; induction H as [it|it i it1 li it2 Hn Hr IH]; intros pre l Hl ->.
  - exists [], l. by rewrite app_nil_r.
  - rewrite next_app in Hn by done. destruct (parse1 l) as [[j r]|] eqn:E; [|done].
    injection Hn as <- <-. pose proof E as (h & Hh & El)%parse1_suffix.
    assert (zlen pre + (zlen l - zlen r) = zlen (pre ++ h)) as Ep
      by (rewrite El; autorewrite with zlen; lia).
    assert (Hb : is_bytes r) by (rewrite El in Hl; apply is_bytes_app in Hl; tauto).
    destruct (IH (pre ++ h) r Hb) as (h' & r' & Er & -> & Hc).
    { rewrite Ep. f_equal. rewrite El. by rewrite app_assoc. }
    rewrite Er in *.
    assert (Hcl : complete l = complete r').
    { rewrite <- Hc. destruct l as [|b l]; [by destruct h|]. by rewrite complete_unfold, E. }
    exists (h ++ h'), r'. split_and!; [by rewrite El, app_assoc| |done].
    rewrite El. by rewrite !app_assoc.
Qed.

Lemma complete_reads pre l :
  is_bytes l -> complete l = true ->
  exists li, reads (mkIter (pre ++ l) (zlen pre)) li (mkIter (pre ++ l) (zlen (pre ++ l))).
Proof.
  remember (length l) as n eqn:En. revert pre l En.
  induction n as [n IH] using lt_wf_ind; intros pre l -> Hl Hc.
  destruct l as [|b l]; [exists []; rewrite app_nil_r; constructor|].
  rewrite complete_unfold in Hc. destruct (parse1 (b :: l)) as [[i r]|] eqn:E; [|done].
  pose proof (parse1_length _ _ _ E) as Hlt. pose proof E as (h & Hh & El)%parse1_suffix.
  assert (Hb : is_bytes r) by (rewrite El in Hl; apply is_bytes_app in Hl; tauto).
  destruct (IH (length r) Hlt (pre ++ h) r eq_refl Hb Hc) as [li Hli].
  exists (i :: li). econstructor; [rewrite next_app, E by done; reflexivity|].
  replace (zlen pre + (zlen (b :: l) - zlen r)) with (zlen (pre ++ h))
    by (rewrite El; autorewrite with zlen; lia).
  rewrite El. by rewrite app_assoc.
Qed.

(** *** Properties *)

(** round trip of the script builder and the script iterator.  A script put
    together by any sequence of [push_data] (of at most 520 bytes) and
    [push_opcode] calls is accepted by [validate], and iterating it yields
    exactly the items that were pushed, in order. *)
Theorem build_then_iterate (l : list ScriptItem) :
  Forall wf_item l ->
  exists s, build l = Ok s /\ validate s = Ok tt /\ items s = Ok l.
Proof.
  intros Hl. exists (concat (map item_bytes l)). pose proof (build_is_bytes l Hl).
  unfold build. rewrite build_from, validate_complete, complete_build, items_parse by done.
  split; [done|split; [done|]]. f_equal.
  rewrite <- (app_nil_r (concat _)), parse_items_build by done. apply app_nil_r.
Qed.

Lemma build_then_iterate_witness :
  exists s, build [Opcode 0x76; PushData [1; 2]; PushData []] = Ok s /\
            validate s = Ok tt /\ items s = Ok [Opcode 0x76; PushData [1; 2]; PushData []].
Proof.
  apply (build_then_iterate [Opcode 0x76; PushData [1; 2]; PushData []]).
  repeat constructor; unfold MAX_PUSH_SIZE, zlen; simpl; lia.
Defined.

(** [validate] accepts a script exactly when the iterator, driven to the
    end, stops at the last byte; every other script is refused with
    [TruncatedPush].  So a script whose last push is cut short is never run, and
    the loop of [validate] always terminates without an out-of-range access. *)
Theorem validate_iff_read_to_the_end (s : Script) :
  is_bytes s ->
  (validate s = Ok tt \/ validate s = Err TruncatedPush) /\
  (validate s = Ok tt <-> exists l, reads (iter s) l (mkIter s (zlen s))).
Proof.
  intros Hs. rewrite validate_complete by done. split; [by destruct (complete s); [left|right]|].
  split.
  - destruct (complete s) eqn:Hc; [|done]. intros _. apply (complete_reads [] s Hs Hc).
  - intros [l (h & r & Eh & Ei & ->)%(reads_app [] s)]; [|done].
    injection Ei as Ez. rewrite Eh in Ez. simpl in Ez. rewrite zlen_app in Ez.
    destruct r; [done|]. rewrite zlen_cons in Ez. pose proof (zlen_nonneg r). lia.
Qed.

Lemma validate_iff_read_to_the_end_witness :
  validate [0x02; 0x07] <> Ok tt /\ (validate [0x02; 0x07] = Ok tt \/ validate [0x02; 0x07] = Err TruncatedPush).
Proof.
  split; [by vm_compute|].
  apply (validate_iff_read_to_the_end [0x02; 0x07]). repeat constructor; lia.
Defined.

(** [push_int] of a value between 17 and 75 does not push that value: the
    byte it appends is the length prefix of a push, so a script that ends there
    is refused by [validate], although the comment on [push_int] promises a
    script number. *)
Theorem push_int_above_16_is_truncated (n : Z) :
  17 <= n <= 75 -> validate (push_int [] n) = Err TruncatedPush.
Proof.
  intros Hn. unfold push_int. rewrite (proj2 (Z.eqb_neq _ _)) by lia.
  rewrite (proj2 (Z.leb_gt n 16)), andb_false_r, (proj2 (Z.ltb_lt n _)) by lia.
  rewrite validate_complete by (apply Forall_cons; split; [unfold is_byte; lia|constructor]).
  unfold vec_push. simpl. unfold complete; simpl. rewrite (proj2 (Z.eqb_neq _ _)) by lia.
  rewrite (proj2 (Z.leb_le 1 n)), (proj2 (Z.leb_le n 75)) by lia. simpl.
  unfold split_push, zlen; simpl. by rewrite (proj2 (Z.ltb_lt _ _)) by lia.
Qed.

Lemma push_int_above_16_is_truncated_witness : validate (push_int [] 42) = Err TruncatedPush.
Proof. apply (push_int_above_16_is_truncated 42). lia. Defined.

End Scripts.
