(* ===== verification/Crypto.v ===== *)
(** * Cryptographic primitives

    The hash functions and the secp256k1 operations come from third-party
    crates ([sha2], [sha1], [ripemd], [secp256k1], [bs58]).  They are the fields
    of the class [Crypto], an argument of every definition that uses them.  What
    the crates document about them and the proofs rely on is stated in the class
    [CryptoLaws]; [toy] is a concrete instance that satisfies the laws.

    The module [Core] models [vtorrent-core/src/crypto.rs], the compositions of
    those primitives the repository defines itself. *)

From stdpp Require Import base list.
From Stdlib Require Import ZArith Lia.
From S2P Require Import Prelude.

Class Crypto : Type := {
  (** [Sha256::digest], [Sha1::digest], [Ripemd160::digest]. *)
  sha256 : bytes -> bytes;
  sha1 : bytes -> bytes;
  ripemd160 : bytes -> bytes;
  (** [Signature::from_der(b).is_ok()], [PublicKey::from_slice(b).is_ok()]; a
      parsed value is represented by the bytes it was parsed from. *)
  der_ok : bytes -> bool;
  pubkey_ok : bytes -> bool;
  (** [verify_ecdsa(msg, sig, pubkey).is_ok()]. *)
  verify_ecdsa : bytes -> bytes -> bytes -> bool;
  (** [RecoveryId::from_i32], [RecoverableSignature::from_compact] and
      [recover_ecdsa]; a recovered key is represented by its compressed
      serialization. *)
  recovery_id_ok : Z -> bool;
  compact_ok : bytes -> Z -> bool;
  recover_ecdsa : bytes -> bytes -> Z -> option bytes;
  (** [serialize_uncompressed] of a key given by its compressed form. *)
  uncompressed : bytes -> bytes;
  (** [bs58::encode] and [bs58::decode]. *)
  bs58_encode : bytes -> bytes;
  bs58_decode : bytes -> option bytes;
}.

(** Digest sizes. *)
Class CryptoLaws (C : Crypto) : Prop := {
  sha256_len : forall b, length (sha256 b) = 32%nat;
  sha256_bytes : forall b, is_bytes (sha256 b);
  sha1_len : forall b, length (sha1 b) = 20%nat;
  sha1_bytes : forall b, is_bytes (sha1 b);
  ripemd160_len : forall b, length (ripemd160 b) = 20%nat;
  ripemd160_bytes : forall b, is_bytes (ripemd160 b);
}.

(** ** [vtorrent-core/src/crypto.rs] *)

Module Core.
Section core.
Context {C : Crypto}.

Definition sha256d (data : bytes) : bytes := sha256 (sha256 data).

Definition hash160 (data : bytes) : bytes := ripemd160 (sha256 data).

Definition checksum (data : bytes) : bytes := take 4 (sha256d data).

Context {L : CryptoLaws C}.

Lemma sha256d_len b : length (sha256d b) = 32%nat.
Proof. apply sha256_len. Qed.

Lemma hash160_len b : length (hash160 b) = 20%nat.
Proof. apply ripemd160_len. Qed.

Lemma hash160_bytes b : is_bytes (hash160 b).
Proof. apply ripemd160_bytes. Qed.

End core.
End Core.

(** ** Collisions

    The double hash tells the strings of a set apart.  No hash function does so on all
    strings; theorems assume it of the strings that are hashed. *)

Definition collision_free `{Crypto} (S : bytes -> Prop) : Prop :=
  forall a b, S a -> S b -> sha256 (sha256 a) = sha256 (sha256 b) -> a = b.

Definition collision_free_b `{Crypto} (l : list bytes) : bool :=
  forallb (fun a => forallb (fun b =>
    bytes_eqb a b || negb (bytes_eqb (sha256 (sha256 a)) (sha256 (sha256 b)))) l) l.

Lemma collision_free_check `{Crypto} l : collision_free_b l = true -> collision_free (.∈ l).
Proof.
  intros Hc a b Ha Hb E. unfold collision_free_b in Hc. rewrite forallb_forall in Hc.
  specialize (Hc a (proj1 (list_elem_of_In _ _) Ha)). rewrite forallb_forall in Hc.
  specialize (Hc b (proj1 (list_elem_of_In _ _) Hb)). rewrite E, bytes_eqb_refl, orb_false_r in Hc.
  by apply bytes_eqb_eq.
Qed.

Lemma collision_free_weaken `{Crypto} (S T : bytes -> Prop) :
  collision_free S -> (forall x, T x -> S x) -> collision_free T.
Proof. intros HS HT a b Ha Hb. apply HS; auto. Qed.

(** ** A concrete instance

    Truncated and padded byte sums in place of the digests; a signature is valid
    when it equals the key it is checked against. *)

Definition toy_digest (n : nat) (b : bytes) : bytes :=
  to_le n (from_le (take 32 b) + 31 * zsum b + zlen b).

#[export] Instance toy : Crypto := {|
  sha256 := toy_digest 32;
  sha1 := toy_digest 20;
  ripemd160 := toy_digest 20;
  der_ok := fun _ => true;
  pubkey_ok := fun _ => true;
  verify_ecdsa := fun _ s p => bytes_eqb s p;
  recovery_id_ok := fun i => (0 <=? i) && (i <=? 3);
  compact_ok := fun _ _ => true;
  recover_ecdsa := fun _ s _ => Some s;
  uncompressed := fun p => 4 :: p;
  bs58_encode := fun b => b;
  bs58_decode := fun b => Some b;
|}.

#[export] Instance toy_laws : CryptoLaws toy.
Proof. constructor; intros; first [apply length_to_le | apply to_le_bytes]. Qed.
