(* ===== verification/Engine.v ===== *)
(** * The script engine

    Models [vtorrent-script/src/engine.rs]: script numbers, truth values, the
    opcode semantics (one definition per section of the big [match] of
    [Engine::run]), signature and multisignature checks, [run] and [execute].

    The main and the alternative stack are vectors with the top at the end, as
    in the source; an access that would be out of range is [Panic]. *)

From stdpp Require Import base list.
From Stdlib Require Import ZArith Lia.
From S2P Require Import Prelude Script Crypto.
Import Scripts.

Definition MAX_STACK_DEPTH : Z := 1000.
Definition MAX_ARITH_NUM_LEN : Z := 4.
Definition MAX_SCRIPT_EXEC_STEPS : Z := 200.

(** [struct ScriptEnv]. *)
Record ScriptEnv : Type := mkEnv {
  tx_hash : bytes;
  block_height : Z;
  block_time : Z;
  tx_lock_time : Z;
  input_sequence : Z;
  utxo_height : Z;
  utxo_timestamp : Z;
}.

(** [struct Engine]. *)
Record Engine : Type := mkEngine {
  stack : list bytes;
  alt_stack : list bytes;
  env : ScriptEnv;
}.

Definition set_stack (e : Engine) (s : list bytes) : Engine := mkEngine s (alt_stack e) (env e).

(** [Engine::new]. *)
Definition new (v : ScriptEnv) : Engine := mkEngine [] [] v.

(** ** Values *)

(** [is_true]: some byte is set, a sign bit in the last byte apart. *)
Fixpoint is_true (b : bytes) : bool :=
  match b with
  | [] => false
  | [x] => negb (Z.land x 0x7f =? 0)
  | x :: b => negb (x =? 0) || is_true b
  end.

Definition bool_to_bytes (b : bool) : bytes := if b then [1] else [].

(** The accumulation loop of [decode_script_num]. *)
Fixpoint magnitude (acc i : Z) (b : bytes) : Z :=
  match b with
  | [] => acc
  | [x] => Z.lor acc (Z.shiftl (Z.land x 0x7f) (8 * i))
  | x :: b => magnitude (Z.lor acc (Z.shiftl x (8 * i))) (i + 1) b
  end.

Definition decode_script_num (b : bytes) (max_len : Z) : res ScriptError Z :=
  if zlen b =? 0 then Ok 0 else
  if max_len <? zlen b then Err InvalidScriptNumber else
  let m := magnitude 0 0 b in
  let* last := vec_get b (zlen b - 1) in
  let negative := negb (Z.land last 0x80 =? 0) in
  if i64_max <? m then Err InvalidScriptNumber else
  Ok (if negative then - m else m).

(** The [while abs > 0] loop of [int_to_bytes]; eight bytes hold a [u64]. *)
Fixpoint le_digits (fuel : nat) (abs : Z) : bytes :=
  match fuel with
  | O => []
  | S fuel => if 0 <? abs then Z.land abs 0xff :: le_digits fuel (Z.shiftr abs 8) else []
  end.

Definition int_to_bytes (n : Z) : bytes :=
  if n =? 0 then [] else
  let negative := n <? 0 in
  let result := le_digits 8 (Z.abs n) in
  match vec_pop result with
  | Some (last, front) =>
      if negb (Z.land last 0x80 =? 0)
      then vec_push result (if negative then 0x80 else 0x00)
      else if negative then vec_push front (Z.lor last 0x80)
      else result
  | None => result
  end.

(** [is_p2sh]; the comparisons are behind the length test. *)
Definition is_p2sh (s : Script) : bool :=
  (zlen s =? 23) && bool_decide (vec_at s 0 = Some 0xa9) &&
  bool_decide (vec_at s 1 = Some 0x14) && bool_decide (vec_at s 22 = Some 0x87).

(** ** Stack access *)

(** [self.stack.pop().ok_or(EmptyStack)?]. *)
Definition pop (e : Engine) : res ScriptError (bytes * Engine) :=
  let* (x, s) := ok_or (vec_pop (stack e)) EmptyStack in
  Ok (x, set_stack e s).

(** [self.stack.last().ok_or(EmptyStack)?]. *)
Definition last (e : Engine) : res ScriptError bytes := ok_or (vec_last (stack e)) EmptyStack.

Definition push (e : Engine) (x : bytes) : Engine := set_stack e (vec_push (stack e) x).

(** [decode_script_num(&self.stack.pop()?, MAX_ARITH_NUM_LEN)?]. *)
Definition pop_num (e : Engine) : res ScriptError (Z * Engine) :=
  let* (x, e) := pop e in
  let* n := decode_script_num x MAX_ARITH_NUM_LEN in
  Ok (n, e).

(** The operand pair of a binary arithmetic opcode: [b] is on top. *)
Definition pop_num2 (e : Engine) : res ScriptError (Z * Z * Engine) :=
  let* (b, e) := pop_num e in
  let* (a, e) := pop_num e in
  Ok (a, b, e).

(** [push_arith_result]. *)
Definition push_arith_result (e : Engine) (value : option Z) : res ScriptError Engine :=
  let* value := ok_or value InvalidScriptNumber in
  let b := int_to_bytes value in
  if MAX_ARITH_NUM_LEN <? zlen b then Err InvalidScriptNumber else Ok (push e b).

Section engine.
Context {C : Crypto}.

(** ** Signatures *)

(** [Engine::check_sig]. *)
Definition check_sig (e : Engine) (sig_bytes pubkey_bytes : bytes) : res ScriptError unit :=
  if zlen sig_bytes =? 0 then Err InvalidSignature else
  let* lst := unwrap (vec_last sig_bytes) in
  if negb (lst =? 0x01) then Err InvalidSignature else
  let sig_der := slice 0 (zlen sig_bytes - 1) sig_bytes in
  if negb (der_ok sig_der) then Err InvalidSignature else
  if negb (pubkey_ok pubkey_bytes) then Err InvalidPublicKey else
  if verify_ecdsa (tx_hash (env e)) sig_der pubkey_bytes then Ok tt
  else Err SignatureVerification.

(** [for _ in 0..n { v.push(self.stack.pop()?) }]. *)
Fixpoint pop_n (n : nat) (e : Engine) : res ScriptError (list bytes * Engine) :=
  match n with
  | O => Ok ([], e)
  | S n =>
      let* (x, e) := pop e in
      let* (l, e) := pop_n n e in
      Ok (x :: l, e)
  end.

(** The inner [while]: the keys after the first one that verifies [sig]. *)
Fixpoint find_key (e : Engine) (sig : bytes) (keys : list bytes) : option (list bytes) :=
  match keys with
  | [] => None
  | k :: keys => if is_ok (check_sig e sig k) then Some keys else find_key e sig keys
  end.

(** The ['sig_loop]: each signature takes the first matching key that is left. *)
Fixpoint count_valid (e : Engine) (sigs keys : list bytes) : Z :=
  match sigs with
  | [] => 0
  | s :: sigs =>
      match find_key e s keys with
      | Some keys => 1 + count_valid e sigs keys
      | None => count_valid e sigs []
      end
  end.

(** [Engine::exec_checkmultisig]. *)
Definition exec_checkmultisig (verify : bool) (e : Engine) : res ScriptError Engine :=
  let* (n_keys, e) := pop_num e in
  if (n_keys <? 0) || (zlen (stack e) <? n_keys) then Err InvalidScriptNumber else
  let* (keys, e) := pop_n (Z.to_nat n_keys) e in
  let* (n_sigs, e) := pop_num e in
  if (n_sigs <? 0) || (zlen (stack e) <? n_sigs) then Err InvalidScriptNumber else
  let* (sigs, e) := pop_n (Z.to_nat n_sigs) e in
  let e := match pop e with Ok (_, e) => e | _ => e end in
  if n_keys <? n_sigs then Err (MultisigKeyCount n_sigs n_keys) else
  let success := n_sigs <=? count_valid e sigs keys in
  if verify && negb success then Err SignatureVerification else
  Ok (push e (bool_to_bytes success)).

(** ** Opcode semantics

    One definition per section of the [match]; [None] when the opcode belongs to
    another section.  All of these arms are guarded by [if executing]. *)

Definition stack_op (op : Z) (e : Engine) : option (res ScriptError Engine) :=
  let s := stack e in
  let len := zlen s in
  if op =? 0x76 then (* OP_DUP *)
    Some (let* top := last e in Ok (push e top))
  else if op =? 0x75 then (* OP_DROP *)
    Some (let* (_, e) := pop e in Ok e)
  else if op =? 0x7c then (* OP_SWAP *)
    Some (if len <? 2 then Err EmptyStack else
          let* s := vec_swap s (len - 1) (len - 2) in Ok (set_stack e s))
  else if op =? 0x79 then (* OP_OVER *)
    Some (if len <? 2 then Err EmptyStack else
          let* x := vec_get s (len - 2) in Ok (push e x))
  else if op =? 0x7b then (* OP_ROT *)
    Some (if len <? 3 then Err EmptyStack else
          let* (x, s) := vec_remove s (len - 3) in Ok (push (set_stack e s) x))
  else if op =? 0x6b then (* OP_TOALTSTACK *)
    Some (let* (x, e) := pop e in
          Ok (mkEngine (stack e) (vec_push (alt_stack e) x) (env e)))
  else if op =? 0x6c then (* OP_FROMALTSTACK *)
    Some (let* (x, a) := ok_or (vec_pop (alt_stack e)) EmptyStack in
          Ok (push (mkEngine (stack e) a (env e)) x))
  else if op =? 0x6e then (* OP_2DUP *)
    Some (if len <? 2 then Err EmptyStack else
          let* a := vec_get s (len - 2) in
          let* b := vec_get s (len - 1) in
          Ok (push (push e a) b))
  else if op =? 0x6d then (* OP_2DROP *)
    Some (let* (_, e) := pop e in let* (_, e) := pop e in Ok e)
  else if op =? 0x73 then (* OP_IFDUP *)
    Some (let* top := last e in Ok (if is_true top then push e top else e))
  else if op =? 0x6f then (* OP_3DUP *)
    Some (if len <? 3 then Err EmptyStack else
          let* a := vec_get s (len - 3) in
          let* b := vec_get s (len - 2) in
          let* c := vec_get s (len - 1) in
          Ok (set_stack e (s ++ [a; b; c])))
  else if op =? 0x70 then (* OP_2OVER *)
    Some (if len <? 4 then Err EmptyStack else
          let* a := vec_get s (len - 4) in
          let* b := vec_get s (len - 3) in
          Ok (set_stack e (s ++ [a; b])))
  else None.

Definition stack_op2 (op : Z) (e : Engine) : option (res ScriptError Engine) :=
  let s := stack e in
  let len := zlen s in
  if op =? 0x71 then (* OP_2ROT *)
    Some (if len <? 6 then Err EmptyStack else
          let* a := vec_get s (len - 6) in
          let* b := vec_get s (len - 5) in
          let* (_, s) := vec_remove s (len - 6) in
          let* (_, s) := vec_remove s (len - 6) in
          Ok (push (push (set_stack e s) a) b))
  else if op =? 0x72 then (* OP_2SWAP *)
    Some (if len <? 4 then Err EmptyStack else
          let* s := vec_swap s (len - 4) (len - 2) in
          let* s := vec_swap s (len - 3) (len - 1) in
          Ok (set_stack e s))
  else if op =? 0x74 then (* OP_DEPTH *)
    Some (Ok (push e (int_to_bytes len)))
  else if op =? 0x77 then (* OP_NIP *)
    Some (if len <? 2 then Err EmptyStack else
          let* (_, s) := vec_remove s (len - 2) in Ok (set_stack e s))
  else if op =? 0x7a then (* OP_ROLL *)
    Some (let* (n, e) := pop_num e in
          if (n <? 0) || (zlen (stack e) <=? n) then Err InvalidScriptNumber else
          let* (x, s) := vec_remove (stack e) (zlen (stack e) - 1 - n) in
          Ok (push (set_stack e s) x))
  else if op =? 0x78 then (* OP_PICK *)
    Some (let* (n, e) := pop_num e in
          if (n <? 0) || (zlen (stack e) <=? n) then Err InvalidScriptNumber else
          let* x := vec_get (stack e) (zlen (stack e) - 1 - n) in
          Ok (push e x))
  else if op =? 0x7d then (* OP_TUCK *)
    Some (if len <? 2 then Err EmptyStack else
          let* top := vec_get s (len - 1) in
          let* s := vec_insert s (len - 2) top in
          Ok (set_stack e s))
  else None.

(** Bitwise and equality. *)
Definition equality_op (op : Z) (e : Engine) : option (res ScriptError Engine) :=
  if op =? 0x87 then (* OP_EQUAL *)
    Some (let* (b, e) := pop e in
          let* (a, e) := pop e in
          Ok (push e (bool_to_bytes (bytes_eqb a b))))
  else if op =? 0x88 then (* OP_EQUALVERIFY *)
    Some (let* (b, e) := pop e in
          let* (a, e) := pop e in
          if negb (bytes_eqb a b) then Err VerifyFailed else Ok e)
  else None.

(** The hash opcodes. *)
Definition crypto_op (op : Z) (e : Engine) : option (res ScriptError Engine) :=
  let hash_top h := let* (top, e) := pop e in Ok (push e (h top)) in
  if op =? 0xa7 then Some (hash_top sha1)
  else if op =? 0xa8 then Some (hash_top sha256)
  else if op =? 0xa9 then Some (hash_top (fun x => ripemd160 (sha256 x)))
  else if op =? 0xaa then Some (hash_top (fun x => sha256 (sha256 x)))
  else if op =? 0xa6 then Some (hash_top ripemd160)
  else None.

(** Signature verification. *)
Definition sig_op (op : Z) (e : Engine) : option (res ScriptError Engine) :=
  if op =? 0xac then (* OP_CHECKSIG *)
    Some (let* (pubkey_bytes, e) := pop e in
          let* (sig_bytes, e) := pop e in
          Ok (push e (bool_to_bytes (is_ok (check_sig e sig_bytes pubkey_bytes)))))
  else if op =? 0xad then (* OP_CHECKSIGVERIFY *)
    Some (let* (pubkey_bytes, e) := pop e in
          let* (sig_bytes, e) := pop e in
          let* _ := check_sig e sig_bytes pubkey_bytes in
          Ok e)
  else if op =? 0xae then Some (exec_checkmultisig false e)
  else if op =? 0xaf then Some (exec_checkmultisig true e)
  else None.

(** OP_CHECKLOCKTIMEVERIFY; the stack is left as it is. *)
Definition cltv (e : Engine) : res ScriptError Engine :=
  let* top := last e in
  let* locktime := decode_script_num top 5 in
  if locktime <? 0 then Err NegativeLocktime else
  if u32_max <? locktime then Err UnsatisfiedLocktime else
  if 0x7FFFFFFF <? locktime then Err UnsatisfiedLocktime else
  if input_sequence (env e) =? 0xffffffff then Err UnsatisfiedLocktime else
  let locktime_is_time := 500000000 <=? locktime in
  let tx_is_time := 500000000 <=? tx_lock_time (env e) in
  if negb (Bool.eqb locktime_is_time tx_is_time) then Err UnsatisfiedLocktime else
  if tx_lock_time (env e) <? locktime then Err HtlcLocktimeNotExpired else
  let chain_reached :=
    if locktime_is_time then locktime <=? block_time (env e)
    else locktime <=? block_height (env e) in
  if negb chain_reached then Err HtlcLocktimeNotExpired else Ok e.

(** OP_CHECKSEQUENCEVERIFY. *)
Definition csv (e : Engine) : res ScriptError Engine :=
  let* top := last e in
  let* seq := decode_script_num top 5 in
  if seq <? 0 then Err NegativeSequence else
  if u32_max <? seq then Err UnsatisfiedSequence else
  if negb (Z.land seq 0x80000000 =? 0) then Ok e else
  if input_sequence (env e) =? 0xffffffff then Err UnsatisfiedSequence else
  let seq_is_time := negb (Z.land seq 0x00400000 =? 0) in
  let input_is_time := negb (Z.land (input_sequence (env e)) 0x00400000 =? 0) in
  if negb (Bool.eqb seq_is_time input_is_time) then Err UnsatisfiedSequence else
  let arg := Z.land seq 0xffff in
  let input := Z.land (input_sequence (env e)) 0xffff in
  if input <? arg then Err UnsatisfiedSequence else
  let age_satisfied :=
    if seq_is_time then
      let arg_secs := arg * 512 in
      let age_secs := sat_sub (block_time (env e)) (utxo_timestamp (env e)) in
      (arg_secs <=? input * 512) && (arg_secs <=? age_secs)
    else arg <=? sat_sub (block_height (env e)) (utxo_height (env e)) in
  if negb age_satisfied then Err UnsatisfiedSequence else Ok e.

Definition timelock_op (op : Z) (e : Engine) : option (res ScriptError Engine) :=
  if op =? 0xb1 then Some (cltv e)
  else if op =? 0xb2 then Some (csv e)
  else None.

(** Arithmetic on [i64] with the checked operations of the language. *)
Definition arith2 (f : Z -> Z -> option Z) (e : Engine) : res ScriptError Engine :=
  let* (a, b, e) := pop_num2 e in push_arith_result e (f a b).

Definition arith1 (f : Z -> option Z) (e : Engine) : res ScriptError Engine :=
  let* (a, e) := pop_num e in push_arith_result e (f a).

Definition arith_op (op : Z) (e : Engine) : option (res ScriptError Engine) :=
  if op =? 0x93 then Some (arith2 (fun a b => checked_i64 (a + b)) e)
  else if op =? 0x94 then Some (arith2 (fun a b => checked_i64 (a - b)) e)
  else if op =? 0x95 then Some (arith2 (fun a b => checked_i64 (a * b)) e)
  else if op =? 0x96 then
    Some (arith2 (fun a b => if b =? 0 then None else checked_i64 (Z.quot a b)) e)
  else if op =? 0x97 then
    Some (arith2 (fun a b => if b =? 0 then None else
                             if (a =? i64_min) && (b =? -1) then None else Some (Z.rem a b)) e)
  else if op =? 0x8b then Some (arith1 (fun a => checked_i64 (a + 1)) e)
  else if op =? 0x8c then Some (arith1 (fun a => checked_i64 (a - 1)) e)
  else if op =? 0x8f then Some (arith1 (fun a => checked_i64 (- a)) e)
  else if op =? 0x90 then Some (arith1 (fun a => checked_i64 (Z.abs a)) e)
  else if op =? 0x91 then (* OP_NOT *)
    Some (let* (top, e) := pop e in Ok (push e (bool_to_bytes (negb (is_true top)))))
  else if op =? 0x92 then (* OP_0NOTEQUAL *)
    Some (let* (top, e) := pop e in
          let* n := decode_script_num top MAX_ARITH_NUM_LEN in
          Ok (push e (bool_to_bytes (negb (n =? 0)))))
  else None.

(** Comparisons and boolean connectives. *)
Definition compare2 (f : Z -> Z -> bool) (e : Engine) : res ScriptError Engine :=
  let* (a, b, e) := pop_num2 e in Ok (push e (bool_to_bytes (f a b))).

Definition compare_op (op : Z) (e : Engine) : option (res ScriptError Engine) :=
  if op =? 0x9a then (* OP_BOOLAND *)
    Some (let* (b, e) := pop e in let* (a, e) := pop e in
          Ok (push e (bool_to_bytes (is_true a && is_true b))))
  else if op =? 0x9b then (* OP_BOOLOR *)
    Some (let* (b, e) := pop e in let* (a, e) := pop e in
          Ok (push e (bool_to_bytes (is_true a || is_true b))))
  else if op =? 0x9c then Some (compare2 Z.eqb e)
  else if op =? 0x9d then (* OP_NUMEQUALVERIFY *)
    Some (let* (a, b, e) := pop_num2 e in
          if negb (a =? b) then Err VerifyFailed else Ok e)
  else if op =? 0x9e then Some (compare2 (fun a b => negb (a =? b)) e)
  else if op =? 0x9f then Some (compare2 Z.ltb e)
  else if op =? 0xa0 then Some (compare2 (fun a b => b <? a) e)
  else if op =? 0xa1 then Some (compare2 Z.leb e)
  else if op =? 0xa2 then Some (compare2 (fun a b => b <=? a) e)
  else if op =? 0xa3 then (* OP_MIN *)
    Some (let* (a, b, e) := pop_num2 e in Ok (push e (int_to_bytes (Z.min a b))))
  else if op =? 0xa4 then (* OP_MAX *)
    Some (let* (a, b, e) := pop_num2 e in Ok (push e (int_to_bytes (Z.max a b))))
  else if op =? 0xa5 then (* OP_WITHIN *)
    Some (let* (mx, e) := pop_num e in
          let* (mn, e) := pop_num e in
          let* (x, e) := pop_num e in
          Ok (push e (bool_to_bytes ((mn <=? x) && (x <? mx)))))
  else None.

(** Small integers and OP_SIZE. *)
Definition push_op (op : Z) (e : Engine) : option (res ScriptError Engine) :=
  if op =? 0x00 then Some (Ok (push e []))
  else if (0x51 <=? op) && (op <=? 0x60) then Some (Ok (push e [op - 0x50]))
  else if op =? 0x4f then Some (Ok (push e [0x81]))
  else if op =? 0x82 then
    Some (let* top := last e in Ok (push e (int_to_bytes (zlen top))))
  else None.

(** The arms in order, with the two no-ops and the catch-all arm. *)
Definition exec_op (op : Z) (e : Engine) : res ScriptError Engine :=
  if (op =? 0x61) || (op =? 0xab) then Ok e else
  let fix first l :=
    match l with
    | [] => Err (InvalidOpcode op)
    | f :: l => match f op e with Some r => r | None => first l end
    end in
  first [stack_op; stack_op2; equality_op; crypto_op; sig_op; timelock_op; arith_op;
         compare_op; push_op].

(** ** Running a script *)

(** The local state of [Engine::run]. *)
Record RunState : Type := mkRun {
  eng : Engine;
  executing : bool;
  if_stack : list bool;
  steps : Z;
}.

(** The value tested by OP_IF and OP_NOTIF. *)
Definition pop_cond (st : RunState) : res ScriptError (bool * Engine) :=
  if executing st then let* (top, e) := pop (eng st) in Ok (is_true top, e)
  else Ok (false, eng st).

(** One opcode: flow control acts whatever [executing] is, OP_RETURN always
    fails, everything else is skipped when not executing. *)
Definition run_opcode (op : Z) (st : RunState) : res ScriptError RunState :=
  let ex := executing st in
  let ifs := if_stack st in
  if op =? 0x63 then (* OP_IF *)
    let* (val, e) := pop_cond st in
    Ok (mkRun e (ex && val) (vec_push ifs ex) (steps st))
  else if op =? 0x64 then (* OP_NOTIF *)
    let* (val, e) := pop_cond st in
    Ok (mkRun e (ex && (ex && negb val)) (vec_push ifs ex) (steps st))
  else if op =? 0x67 then (* OP_ELSE *)
    let parent := match vec_last ifs with Some p => p | None => true end in
    Ok (mkRun (eng st) (parent && negb ex) ifs (steps st))
  else if op =? 0x68 then (* OP_ENDIF *)
    match vec_pop ifs with
    | Some (p, ifs) => Ok (mkRun (eng st) p ifs (steps st))
    | None => Ok (mkRun (eng st) true ifs (steps st))
    end
  else if op =? 0x6a then Err OpReturnUnspendable
  else if negb ex then Ok st
  else if op =? 0x69 then (* OP_VERIFY *)
    let* (top, e) := pop (eng st) in
    if negb (is_true top) then Err VerifyFailed else Ok (mkRun e ex ifs (steps st))
  else
    let* e := exec_op op (eng st) in Ok (mkRun e ex ifs (steps st)).

(** The body of the item loop. *)
Definition run_item (st : RunState) (i : ScriptItem) : res ScriptError RunState :=
  let n := steps st + 1 in
  if MAX_SCRIPT_EXEC_STEPS <? n then Err StackOverflow else
  let st := mkRun (eng st) (executing st) (if_stack st) n in
  match i with
  | PushData data =>
      if executing st then
        if MAX_STACK_DEPTH <=? zlen (stack (eng st)) then Err StackOverflow
        else Ok (mkRun (push (eng st) data) true (if_stack st) n)
      else Ok st
  | Opcode op => run_opcode op st
  end.

(** [Engine::run]. *)
Definition run (e : Engine) (s : Script) : res ScriptError Engine :=
  let* _ := validate s in
  let* l := items s in
  let* st := rfold run_item (mkRun e true [] 0) l in
  if negb (zlen (if_stack st) =? 0) then Err UnbalancedConditional else Ok (eng st).

(** [Engine::execute]. *)
Definition execute (e : Engine) (script_sig script_pubkey : Script) : res ScriptError Engine :=
  let e := mkEngine [] [] (env e) in
  let* e := run e script_sig in
  let stack_after_sig := stack e in
  let* e := run e script_pubkey in
  let* top := last e in
  if negb (is_true top) then Err VerifyFailed else
  if is_p2sh script_pubkey then
    let e := set_stack e stack_after_sig in
    let* (redeem_script_bytes, e) := pop e in
    let* redeem_script := from_bytes redeem_script_bytes in
    let* e := run e redeem_script in
    let* top := last e in
    if negb (is_true top) then Err VerifyFailed else Ok e
  else Ok e.

(** ** Well-formed states, and what an opcode can do to them *)

(** Every element of the two stacks is a byte string. *)
Definition wf_engine (e : Engine) : Prop :=
  Forall is_bytes (stack e) /\ Forall is_bytes (alt_stack e).

(** The number of elements held by the engine. *)
Definition depth (e : Engine) : Z := zlen (stack e) + zlen (alt_stack e).

(** [e'] is well-formed, has the environment of [e] and at most [n] more elements. *)
Definition grows (n : Z) (e e' : Engine) : Prop :=
  wf_engine e' /\ env e' = env e /\ depth e' <= depth e + n.

Lemma wf_new v : wf_engine (new v).
Proof. split; constructor. Qed.

Lemma wf_push e x : wf_engine e -> is_bytes x -> wf_engine (push e x).
Proof.
  intros [Hs Ha] Hx. split; simpl; [|done]. apply Forall_app. by split; [|apply Forall_singleton].
Qed.

Lemma depth_push e x : depth (push e x) = depth e + 1.
Proof. unfold depth, push. simpl. rewrite zlen_push. lia. Qed.

(** A stack rebuilt from elements of the old one. *)
Lemma wf_set_stack e s :
  wf_engine e -> (forall x, x ∈ s -> x ∈ stack e) -> wf_engine (set_stack e s).
Proof.
  intros [Hs Ha] H. split; simpl; [|done].
  apply Forall_forall. intros x ?%H. by eapply Forall_forall in Hs.
Qed.

Lemma depth_set_stack e s : depth (set_stack e s) = depth e + zlen s - zlen (stack e).
Proof. unfold depth. simpl. lia. Qed.

Lemma wf_stack_elem e x : wf_engine e -> x ∈ stack e -> is_bytes x.
Proof. intros [Hs _] Hx. by eapply Forall_forall in Hs. Qed.

Lemma bool_to_bytes_is_bytes b : is_bytes (bool_to_bytes b).
Proof. destruct b; [by apply Forall_singleton|constructor]. Qed.

Lemma le_digits_is_bytes n : forall z, is_bytes (le_digits n z).
Proof.
  induction n as [|n IH]; intros z; simpl; [constructor|].
  destruct (0 <? z); [|constructor]. constructor; [|apply IH].
  change 255 with (Z.ones 8). unfold is_byte. rewrite Z.land_ones by lia.
  apply Z.mod_pos_bound. done.
Qed.

Lemma is_byte_lor x y : is_byte x -> is_byte y -> is_byte (Z.lor x y).
Proof.
  intros [Hx Hx'] [Hy Hy']. split; [by apply Z.lor_nonneg|].
  destruct (decide (Z.lor x y = 0)) as [-> | Hn]; [done|].
  assert (0 <= Z.lor x y) by by apply Z.lor_nonneg.
  change 256 with (2 ^ 8). apply Z.log2_lt_pow2; [lia|].
  rewrite Z.log2_lor by done.
  apply Z.max_lub_lt; apply (Z.le_lt_trans _ (Z.log2 255)); try done; apply Z.log2_le_mono; lia.
Qed.

Lemma int_to_bytes_is_bytes n : is_bytes (int_to_bytes n).
Proof.
  unfold int_to_bytes. destruct (n =? 0); [constructor|].
  pose proof (le_digits_is_bytes 8 (Z.abs n)) as H. remember (le_digits 8 (Z.abs n)) as l.
  destruct (vec_pop l) as [[x f]|] eqn:E; [|done].
  apply vec_pop_Some in E as ->. apply Forall_app in H as [Hf Hx%Forall_inv].
  assert (is_byte (Z.lor x 128)) by (apply is_byte_lor; [done|by unfold is_byte]).
  assert (is_byte (if n <? 0 then 128 else 0)) by by destruct (n <? 0).
  unfold is_bytes, vec_push. destruct (negb _); [|destruct (n <? 0)];
    rewrite ?Forall_app, ?Forall_singleton; tauto.
Qed.

(** *** Script numbers as integers *)

Lemma from_le_app l1 l2 : from_le (l1 ++ l2) = from_le l1 + 256 ^ zlen l1 * from_le l2.
Proof.
  induction l1 as [|x l IH]; simpl; [change (zlen []) with 0; lia|].
  rewrite IH, zlen_cons, Z.pow_add_r by (pose proof (zlen_nonneg l); lia). lia.
Qed.

Lemma magnitude_spec f x : forall acc i,
  is_bytes f -> 0 <= i -> 0 <= acc < 256 ^ i ->
  magnitude acc i (f ++ [x]) = acc + 256 ^ i * from_le (f ++ [Z.land x 0x7f]).
Proof.
  assert (Hpow : forall i, 0 <= i -> 2 ^ (8 * i) = 256 ^ i)
    by (intros i Hi; rewrite Z.pow_mul_r by lia; done).
  induction f as [|y f IH]; intros acc i Hf Hi Ha; cbn [app].
  - simpl. rewrite lor_shiftl_add by (rewrite ?Hpow; lia). rewrite Hpow by done. lia.
  - apply Forall_cons in Hf as [Hy Hf]. unfold is_byte in Hy.
    destruct (f ++ [x]) as [|z l] eqn:E; [by destruct f|].
    change (magnitude acc i (y :: z :: l))
      with (magnitude (Z.lor acc (Z.shiftl y (8 * i))) (i + 1) (z :: l)).
    rewrite lor_shiftl_add by (rewrite ?Hpow; lia). rewrite Hpow by done.
    rewrite IH; [|done|lia|].
    + simpl. rewrite Z.pow_add_r by lia. lia.
    + rewrite Z.pow_add_r by lia. nia.
Qed.

(** The digits of a positive number: they denote it, and the last is not zero. *)
Lemma le_digits_spec n : forall z,
  0 < z < 256 ^ Z.of_nat n ->
  exists f x, le_digits n z = f ++ [x] /\ is_bytes f /\ 0 < x < 256 /\ from_le (f ++ [x]) = z.
Proof.
  induction n as [|n IH]; intros z Hz; [change (256 ^ Z.of_nat 0) with 1 in Hz; lia|].
  rewrite Nat2Z.inj_succ, Z.pow_succ_r in Hz by lia.
  cbn [le_digits]. rewrite (proj2 (Z.ltb_lt 0 z)) by lia.
  change 0xff with (Z.ones 8). rewrite Z.land_ones, Z.shiftr_div_pow2 by lia. change (2 ^ 8) with 256.
  pose proof (Z.div_mod z 256 ltac:(lia)). pose proof (Z.mod_pos_bound z 256 ltac:(lia)) as Hm.
  destruct (decide (z / 256 = 0)) as [E | E].
  - exists [], (z mod 256). rewrite E. destruct n; simpl; (split; [done|]; split; [constructor|lia]).
  - destruct (IH (z / 256)) as (f & x & -> & Hf & Hx & Hv).
    { split; [pose proof (Z.div_pos z 256); lia|]. apply Z.div_lt_upper_bound; lia. }
    exists (z mod 256 :: f), x. split; [done|]. split; [by constructor|]. split; [done|].
    simpl. rewrite Hv. lia.
Qed.

(** [decode_script_num] on a list with a last byte [x]. *)
Lemma decode_snoc f x m :
  is_bytes f -> is_byte x -> zlen f < m -> from_le (f ++ [Z.land x 0x7f]) <= i64_max ->
  decode_script_num (f ++ [x]) m =
  Ok ((if x <? 128 then 1 else -1) * from_le (f ++ [Z.land x 0x7f])).
Proof.
  intros Hf Hx Hm Hv. unfold decode_script_num. autorewrite with zlen.
  pose proof (zlen_nonneg f).
  rewrite (proj2 (Z.eqb_neq _ _)), (proj2 (Z.ltb_ge _ _)) by lia.
  rewrite magnitude_spec by (done || lia). rewrite !Z.add_0_l, Z.mul_1_l.
  replace (zlen f + (1 + 0) - 1) with (zlen f + 0) by lia. rewrite vec_get_app by lia. simpl.
  rewrite (proj2 (Z.ltb_ge _ _)) by done.
  pose proof (byte_forall (fun x => Bool.eqb (Z.land x 128 =? 0) (x <? 128)) ltac:(by vm_compute) x Hx)
    as Hb%eqb_prop.
  rewrite Hb. destruct (x <? 128); simpl; f_equal; lia.
Qed.

(** The encoding of a non-zero number: the sign is the top bit of the last byte. *)
Lemma int_to_bytes_spec n :
  n <> 0 -> Z.abs n <= i64_max ->
  exists f x, int_to_bytes n = f ++ [x] /\ is_bytes f /\ is_byte x /\
    from_le (f ++ [Z.land x 0x7f]) = Z.abs n /\ (x <? 128) = (0 <? n) /\
    256 ^ zlen f * 128 <= 256 * Z.abs n.
Proof.
  intros Hn Hmax. unfold int_to_bytes. rewrite (proj2 (Z.eqb_neq n 0)) by done.
  destruct (le_digits_spec 8 (Z.abs n)) as (f & x & -> & Hf & Hx & Hv).
  { unfold i64_max in Hmax. change (256 ^ Z.of_nat 8) with 18446744073709551616. lia. }
  change (f ++ [x]) with (vec_push f x). rewrite vec_pop_push. rewrite from_le_app in Hv. simpl in Hv.
  pose proof (zlen_nonneg f) as Hz. pose proof (Z.pow_pos_nonneg 256 (zlen f) ltac:(lia) Hz).
  pose proof (proj1 (from_le_bound f Hf)).
  assert (Hbx : is_byte x) by (unfold is_byte; lia).
  pose proof (byte_forall (fun x => Bool.eqb (Z.land x 128 =? 0) (x <? 128) &&
    (negb (x <? 128) || (Z.land x 127 =? x) && (Z.land (Z.lor x 128) 127 =? x) &&
       negb (Z.lor x 128 <? 128))) ltac:(by vm_compute) x Hbx) as [Hb%eqb_prop Hc]%andb_prop.
  rewrite Hb. destruct (Z.ltb_spec x 128) as [Hlt|Hge]; simpl in *.
  - bool_prop. destruct (Z.ltb_spec n 0).
    + exists f, (Z.lor x 128). split; [done|]. split; [done|].
      split; [apply is_byte_lor; [done|by unfold is_byte]|]. rewrite from_le_app. simpl.
      split; [lia|]. split; [|nia]. by rewrite (proj2 (Z.ltb_ge 0 n)), (proj2 (Z.ltb_ge _ _)) by lia.
    + exists f, x. split; [done|]. split; [done|]. split; [done|]. rewrite from_le_app. simpl.
      split; [lia|]. split; [|nia]. by rewrite (proj2 (Z.ltb_lt 0 n)), (proj2 (Z.ltb_lt _ _)) by lia.
  - exists (f ++ [x]), (if n <? 0 then 128 else 0). split; [done|].
    split; [apply Forall_app; split; [done|by apply Forall_singleton]|].
    split; [by destruct (n <? 0)|]. rewrite <- app_assoc, from_le_app. simpl.
    replace (Z.land (if n <? 0 then 128 else 0) 127) with 0 by by destruct (n <? 0).
    split; [lia|]. split; [destruct (Z.ltb_spec n 0), (Z.ltb_spec 0 n); try done; lia|].
    rewrite zlen_app, Z.pow_add_r by (try lia; done). change (256 ^ zlen [x]) with 256. nia.
Qed.

(** [k] bytes hold exactly the numbers below [2 ^ (8 k - 1)] in absolute value. *)
Lemma int_to_bytes_len n k :
  1 <= k -> Z.abs n <= i64_max ->
  (zlen (int_to_bytes n) <= k <-> Z.abs n < 2 ^ (8 * k - 1)).
Proof.
  intros Hk Hmax. destruct (decide (n = 0)) as [-> | Hn].
  { change (zlen (int_to_bytes 0)) with 0. split; [|lia]. intros _. apply Z.pow_pos_nonneg; lia. }
  destruct (int_to_bytes_spec n Hn Hmax) as (f & x & -> & Hf & Hx & Hv & _ & Hlow).
  rewrite from_le_app in Hv. simpl in Hv. pose proof (zlen_nonneg f) as Hz.
  pose proof (from_le_bound f Hf) as Hb.
  pose proof (byte_forall (fun x => (0 <=? Z.land x 127) && (Z.land x 127 <? 128))
                ltac:(by vm_compute) x Hx) as [Hx0 Hx1]%andb_prop. bool_prop.
  autorewrite with zlen.
  replace (2 ^ (8 * k - 1)) with (256 ^ (k - 1) * 128)
    by (replace 256 with (2 ^ 8) by done; rewrite <- Z.pow_mul_r by lia;
        change 128 with (2 ^ 7); rewrite <- Z.pow_add_r by lia; f_equal; lia).
  split; intros H.
  - pose proof (Z.pow_le_mono_r 256 (zlen f) (k - 1) ltac:(lia) ltac:(lia)).
    rewrite Z.mul_0_r, Z.add_0_r in Hv.
    pose proof (Z.mul_le_mono_nonneg_l (Z.land x 127) 127 (256 ^ zlen f)). lia.
  - destruct (Z.le_gt_cases (zlen f) (k - 1)) as [|Hgt]; [lia|].
    pose proof (Z.pow_le_mono_r 256 k (zlen f) ltac:(lia) ltac:(lia)) as Hp.
    replace k with (1 + (k - 1)) in Hp by lia. rewrite Z.pow_add_r in Hp by lia.
    change (256 ^ 1) with 256 in Hp. lia.
Qed.

Lemma decode_int_to_bytes n m :
  Z.abs n <= i64_max -> zlen (int_to_bytes n) <= m -> decode_script_num (int_to_bytes n) m = Ok n.
Proof.
  intros Hmax Hm. destruct (decide (n = 0)) as [-> | Hn]; [done|].
  destruct (int_to_bytes_spec n Hn Hmax) as (f & x & E & Hf & Hx & Hv & Hs & _).
  rewrite E in *. autorewrite with zlen in Hm.
  rewrite decode_snoc by (done || lia || (rewrite Hv; done)).
  rewrite Hs, Hv. f_equal. destruct (Z.ltb_spec 0 n); lia.
Qed.

(** Rules for the primitives. *)

Lemma wp_pop e Q :
  wf_engine e ->
  (forall x e', is_bytes x -> grows (-1) e e' -> zlen (stack e') = zlen (stack e) - 1 -> Q (x, e')) ->
  wp (pop e) Q.
Proof.
  intros [Hs Ha] HQ. unfold pop. destruct (vec_pop (stack e)) as [[x s]|] eqn:E; simpl; [|done].
  pose proof (vec_pop_zlen _ _ _ E). apply vec_pop_Some in E. rewrite E in Hs.
  apply Forall_app in Hs as [Hs Hx%Forall_inv].
  apply HQ; simpl; [done| |lia]. split; [done|]. split; [done|]. unfold depth. simpl. lia.
Qed.

Lemma wp_last e Q :
  wf_engine e -> (forall x, is_bytes x -> Q x) -> wp (last e) Q.
Proof.
  intros He HQ. unfold last, vec_last. destruct (rev (stack e)) as [|x r] eqn:E; simpl; [done|].
  apply HQ, (wf_stack_elem e); [done|].
  rewrite <- (rev_involutive (stack e)), E. simpl. apply elem_of_app. right. by left.
Qed.

Lemma wp_decode b n Q : (forall z, Q z) -> wp (decode_script_num b n) Q.
Proof.
  intros HQ. unfold decode_script_num. apply wp_if; intros H; [apply HQ|].
  apply wp_if; intros _; [done|]. bool_prop. pose proof (zlen_nonneg b).
  apply wp_bind, wp_vec_get; [lia|]. intros x _. apply wp_if; intros _; [done|apply HQ].
Qed.

Lemma wp_pop_num e Q :
  wf_engine e ->
  (forall n e', grows (-1) e e' -> zlen (stack e') = zlen (stack e) - 1 -> Q (n, e')) ->
  wp (pop_num e) Q.
Proof.
  intros He HQ. apply wp_bind, wp_pop; [done|]. intros x e' _ Hg Hz.
  apply wp_bind, wp_decode. intros n. by apply HQ.
Qed.

Lemma grows_wf n e e' : grows n e e' -> wf_engine e'.
Proof. by intros [? _]. Qed.

Lemma grows_trans n m k e1 e2 e3 :
  grows n e1 e2 -> grows m e2 e3 -> n + m <= k -> grows k e1 e3.
Proof. intros (?&E1&?) (?&E2&?) ?. split; [done|]. split; [by rewrite E2|lia]. Qed.

Lemma grows_push n e e' x : grows n e e' -> is_bytes x -> grows (n + 1) e (push e' x).
Proof.
  intros (?&?&?) ?. split; [by apply wf_push|]. split; [done|]. rewrite depth_push. lia.
Qed.

Lemma grows_weaken n m e e' : grows n e e' -> n <= m -> grows m e e'.
Proof. intros (?&?&?) ?. split; [done|]. split; [done|lia]. Qed.

Lemma grows_refl e : wf_engine e -> grows 0 e e.
Proof. intros ?. split; [done|]. split; [done|lia]. Qed.

Lemma grows_set_stack n e e' s :
  grows n e e' -> (forall x, x ∈ s -> x ∈ stack e') ->
  grows (n + zlen s - zlen (stack e')) e (set_stack e' s).
Proof.
  intros (?&?&?) ?. split; [by apply wf_set_stack|]. split; [done|]. rewrite depth_set_stack. lia.
Qed.

Lemma wp_pop_num2 e Q :
  wf_engine e -> (forall a b e', grows (-2) e e' -> Q (a, b, e')) -> wp (pop_num2 e) Q.
Proof.
  intros He HQ. apply wp_bind, wp_pop_num; [done|]. intros b e1 H1 _.
  apply wp_bind, wp_pop_num; [by eapply grows_wf|]. intros a e2 H2 _.
  apply HQ. by eapply grows_trans.
Qed.

Lemma wp_push_arith e o : wf_engine e -> wp (push_arith_result e o) (grows 1 e).
Proof.
  intros He. apply wp_bind, wp_ok_or. intros z _. apply wp_if; [done|]. intros _.
  apply (grows_push 0); [by apply grows_refl|apply int_to_bytes_is_bytes].
Qed.

(** Every arm keeps the state well-formed and adds at most three elements. *)

Ltac engine_wp :=
  repeat match goal with
  | |- wp (let '(_, _) := (_, _) in _) _ => cbv beta iota
  | |- wp (let '(_, _) := ?a in _) _ => destruct a
  | |- wp (rbind _ _) _ => apply wp_bind
  | |- wp (if _ then _ else _) _ => apply wp_if; intros ?
  | |- wp (ok_or _ _) _ => apply wp_ok_or; intros ? ?
  | |- wp (pop _) _ => apply wp_pop; [eauto using grows_wf|intros ? ? ? ? ?]
  | |- wp (pop_num _) _ => apply wp_pop_num; [eauto using grows_wf|intros ? ? ? ?]
  | |- wp (pop_num2 _) _ => apply wp_pop_num2; [eauto using grows_wf|intros ? ? ? ?]
  | |- wp (last _) _ => apply wp_last; [eauto using grows_wf|intros ? ?]
  | |- wp (push_arith_result _ _) _ =>
      eapply wp_mono; [apply wp_push_arith; eauto using grows_wf|intros ? ?]
  | |- wp (vec_get _ _) _ => apply wp_vec_get; [bool_prop; lia|intros ? ?]
  | |- wp (vec_remove _ _) _ => apply wp_vec_remove; [bool_prop; lia|intros ? ? ?]
  | |- wp (vec_insert _ _ _) _ => apply wp_vec_insert; [bool_prop; lia|intros ? ?]
  | |- wp (vec_swap _ _ _) _ => apply wp_vec_swap; [bool_prop; lia..|intros ? ? ?]
  | |- wp (Ok _) ?Q => change (wp (Ok ?a) Q) with (Q a)
  | |- wp (Err _) _ => exact I
  end.

(** A stack rebuilt by removing, inserting or swapping elements. *)
Lemma wf_perm_cons e x s : wf_engine e -> stack e ≡ₚ x :: s -> wf_engine (set_stack e s) /\ is_bytes x.
Proof.
  intros He H. split.
  - apply wf_set_stack; [done|]. intros y Hy. rewrite H. by right.
  - apply (wf_stack_elem e); [done|]. rewrite H. by left.
Qed.

Lemma zlen_Permutation {A} (l l' : list A) : l ≡ₚ l' -> zlen l = zlen l'.
Proof. unfold zlen. by intros ->. Qed.

(** The closing goals: a few pushes on a state that is known to grow. *)
Ltac engine_grows :=
  repeat match goal with H : grows _ _ _ |- _ => destruct H as (?&?&?) end;
  repeat match goal with
  | H : _ ≡ₚ _ |- _ =>
      let E := fresh "E" in pose proof (zlen_Permutation _ _ H) as E;
      rewrite ?zlen_cons in E; revert H
  end; intros;
  split; [|split]; rewrite ?depth_push, ?depth_set_stack; simpl; autorewrite with zlen;
  try congruence; try lia;
  repeat first
    [ assumption | apply bool_to_bytes_is_bytes | apply int_to_bytes_is_bytes
    | apply wf_push | eapply wf_stack_elem; eassumption
    | eapply wf_perm_cons; eassumption | apply wf_set_stack; assumption ].

Lemma equality_op_grows op e r :
  wf_engine e -> equality_op op e = Some r -> wp r (grows 3 e).
Proof.
  unfold equality_op. intros He H. repeat case_match; simplify_eq; engine_wp; engine_grows.
Qed.

Lemma compare_op_grows op e r :
  wf_engine e -> compare_op op e = Some r -> wp r (grows 3 e).
Proof.
  unfold compare_op, compare2. intros He H.
  repeat case_match; simplify_eq; engine_wp; engine_grows.
Qed.

Lemma arith_op_grows op e r :
  wf_engine e -> arith_op op e = Some r -> wp r (grows 3 e).
Proof.
  unfold arith_op, arith1, arith2. intros He H. repeat case_match; simplify_eq; engine_wp;
  try (apply wp_decode; intros ?; engine_wp); engine_grows.
Qed.

Lemma timelock_op_grows op e r :
  wf_engine e -> timelock_op op e = Some r -> wp r (grows 3 e).
Proof.
  unfold timelock_op, cltv, csv. intros He H. repeat case_match; simplify_eq; engine_wp;
  apply wp_decode; intros ?; engine_wp; engine_grows.
Qed.

Lemma grows_append e l n :
  wf_engine e -> (forall x, x ∈ l -> x ∈ stack e) -> zlen l <= n ->
  grows n e (set_stack e (stack e ++ l)).
Proof.
  intros He Hl Hn. split; [|split; [done|]].
  - apply wf_set_stack; [done|]. intros x [?|?%Hl]%elem_of_app; done.
  - rewrite depth_set_stack, zlen_app. lia.
Qed.

Lemma grows_to_alt e e' x :
  is_bytes x -> grows (-1) e e' ->
  grows 3 e (mkEngine (stack e') (vec_push (alt_stack e') x) (env e')).
Proof.
  intros Hx ([Hs Ha] & ? & Hd). split; [split; simpl; [done|]|split; [done|]].
  - apply Forall_app. by split; [|apply Forall_singleton].
  - unfold depth in *. simpl. rewrite zlen_push. lia.
Qed.

Lemma grows_from_alt e x a :
  wf_engine e -> vec_pop (alt_stack e) = Some (x, a) ->
  grows 3 e (push (mkEngine (stack e) a (env e)) x).
Proof.
  intros [Hs Ha] E. pose proof (vec_pop_zlen _ _ _ E). apply vec_pop_Some in E.
  rewrite E in Ha. apply Forall_app in Ha as [Ha Hx%Forall_inv].
  split; [by apply wf_push|]. split; [done|]. rewrite depth_push. unfold depth. simpl. lia.
Qed.

Lemma stack_op_grows op e r :
  wf_engine e -> stack_op op e = Some r -> wp r (grows 3 e).
Proof.
  unfold stack_op. intros He H. repeat case_match; simplify_eq; engine_wp.
  all: try (engine_grows; done).
  all: try (by apply grows_to_alt).
  all: try (by apply grows_from_alt).
  all: try (apply grows_append; [done| |done]; intros ? Hy;
            repeat (apply elem_of_cons in Hy as [-> | Hy]; [done|]); by apply not_elem_of_nil in Hy).
  all: destruct (is_true _); engine_grows.
Qed.

Lemma stack_op2_grows op e r :
  wf_engine e -> stack_op2 op e = Some r -> wp r (grows 3 e).
Proof.
  unfold stack_op2. intros He H. repeat case_match; simplify_eq; engine_wp.
  all: try (engine_grows; done).
  - match goal with H : stack e ≡ₚ _ |- _ => rename H into Hp end.
    pose proof (zlen_Permutation _ _ Hp) as Hz. rewrite zlen_cons in Hz. bool_prop.
    apply wp_vec_remove; [lia|]. intros y s Hp'.
    pose proof (zlen_Permutation _ _ Hp') as Hz'. rewrite zlen_cons in Hz'.
    change (wp (Ok ?a) ?Q) with (Q a).
    split; [|split; [done|rewrite !depth_push, depth_set_stack; lia]].
    apply wf_push; [apply wf_push|]; [|eapply wf_stack_elem; eassumption..].
    apply wf_set_stack; [done|]. intros z Hz0. rewrite Hp, Hp'. by do 2 right.
  - split; [|split; [done|rewrite depth_set_stack; lia]]. apply wf_set_stack; auto.
  - match goal with H : _ ≡ₚ _ |- _ => rename H into Hp end.
    pose proof (zlen_Permutation _ _ Hp) as Hz. rewrite zlen_cons in Hz.
    split; [|split; [done|rewrite depth_set_stack; lia]].
    apply wf_set_stack; [done|]. intros y. rewrite Hp. by intros [-> | ?]%elem_of_cons.
Qed.

Lemma push_op_grows op e r :
  0 <= op < 256 -> wf_engine e -> push_op op e = Some r -> wp r (grows 3 e).
Proof.
  unfold push_op. intros Ho He H. repeat case_match; simplify_eq; engine_wp; engine_grows.
  all: try (apply Forall_singleton; unfold is_byte; bool_prop; lia). constructor.
Qed.

Lemma wp_pop_n n : forall e Q,
  wf_engine e ->
  (forall l e', grows (- Z.of_nat n) e e' -> Q (l, e')) -> wp (pop_n n e) Q.
Proof.
  induction n as [|n IH]; intros e Q He HQ; cbn [pop_n].
  - apply HQ, grows_refl. done.
  - apply wp_bind, wp_pop; [done|]. intros x e1 _ H1 _.
    apply wp_bind, IH; [by eapply grows_wf|]. intros l e2 H2.
    apply HQ. eapply grows_trans; [done..|lia].
Qed.

Lemma check_sig_safe e s p : safe (check_sig e s p).
Proof.
  unfold check_sig. destruct (zlen s =? 0) eqn:E; [done|].
  destruct (vec_last s) eqn:El; simpl; [repeat case_match; done|].
  unfold vec_last in El. destruct (rev s) eqn:Er; [|done].
  apply (f_equal (@rev Z)) in Er. rewrite rev_involutive in Er. by subst.
Qed.

Lemma exec_checkmultisig_grows v e : wf_engine e -> wp (exec_checkmultisig v e) (grows 3 e).
Proof.
  intros He. unfold exec_checkmultisig.
  apply wp_bind, wp_pop_num; [done|]. intros nk e1 H1 _. apply wp_if; [done|]. intros _.
  apply wp_bind, wp_pop_n; [by eapply grows_wf|]. intros keys e2 H2.
  apply wp_bind, wp_pop_num; [by eapply grows_wf|]. intros ns e3 H3 _. apply wp_if; [done|].
  intros _. apply wp_bind, wp_pop_n; [by eapply grows_wf|]. intros sigs e4 H4.
  assert (grows 0 e4 match pop e4 with Ok (_, e') => e' | _ => e4 end) as H5.
  { pose proof (wp_pop e4 (fun r => grows 0 e4 r.2)) as Hp.
    assert (wp (pop e4) (fun r => grows 0 e4 r.2)) as Hw.
    { apply Hp; [by eapply grows_wf|]. intros x e5 _ H5 _. eapply grows_weaken; [done|lia]. }
    destruct (pop e4) as [[x e5]|?|]; simpl in *; [done| |done].
    apply grows_refl. by eapply grows_wf. }
  apply wp_if; [done|]. intros _. apply wp_if; [done|]. intros _.
  engine_wp. engine_grows.
Qed.

Lemma sig_op_grows op e r : wf_engine e -> sig_op op e = Some r -> wp r (grows 3 e).
Proof.
  unfold sig_op. intros He H. repeat case_match; simplify_eq; engine_wp.
  - engine_grows.
  - eapply wp_mono; [apply safe_wp, check_sig_safe|]. intros _ _. engine_wp. engine_grows.
  - by apply exec_checkmultisig_grows.
  - by apply exec_checkmultisig_grows.
Qed.

Context {L : CryptoLaws C}.

Lemma crypto_op_grows op e r : wf_engine e -> crypto_op op e = Some r -> wp r (grows 3 e).
Proof.
  unfold crypto_op. intros He H. repeat case_match; simplify_eq; engine_wp; engine_grows.
  all: first [apply sha1_bytes|apply sha256_bytes|apply ripemd160_bytes].
Qed.

Lemma exec_op_grows op e : is_byte op -> wf_engine e -> wp (exec_op op e) (grows 3 e).
Proof.
  intros Ho He. unfold exec_op. apply wp_if; intros _.
  { eapply grows_weaken; [by apply grows_refl|lia]. }
  repeat match goal with
  | |- wp (match ?f op e with _ => _ end) _ => destruct (f op e) eqn:?
  end;
  eauto using stack_op_grows, stack_op2_grows, equality_op_grows, crypto_op_grows, sig_op_grows,
    timelock_op_grows, arith_op_grows, compare_op_grows, push_op_grows.
  done.
Qed.

(** The loop invariant of [run] after [n] items. *)
Definition run_inv (e : Engine) (n : nat) (st : RunState) : Prop :=
  steps st = Z.of_nat n /\ steps st <= MAX_SCRIPT_EXEC_STEPS /\ grows (3 * Z.of_nat n) e (eng st).

Lemma wp_pop_cond st Q :
  wf_engine (eng st) -> (forall b e', grows 0 (eng st) e' -> Q (b, e')) -> wp (pop_cond st) Q.
Proof.
  intros He HQ. unfold pop_cond. apply wp_if; intros _.
  - apply wp_bind, wp_pop; [done|]. intros x e' _ Hg _. apply HQ. eapply grows_weaken; [done|lia].
  - by apply HQ, grows_refl.
Qed.

Lemma run_opcode_grows op st :
  is_byte op -> wf_engine (eng st) ->
  wp (run_opcode op st) (fun st' => steps st' = steps st /\ grows 3 (eng st) (eng st')).
Proof.
  intros Ho He. assert (H0 : grows 3 (eng st) (eng st))
    by (eapply grows_weaken; [by apply grows_refl|lia]).
  assert (Hw : forall e', grows 0 (eng st) e' -> grows 3 (eng st) e')
    by (intros; eapply grows_weaken; [eassumption|lia]).
  unfold run_opcode. repeat (apply wp_if; intros ?); try done.
  - apply wp_bind, wp_pop_cond; [done|]. intros b e' Hg. simpl. auto.
  - apply wp_bind, wp_pop_cond; [done|]. intros b e' Hg. simpl. auto.
  - by destruct (vec_pop (if_stack st)) as [[p l]|].
  - apply wp_bind, wp_pop; [done|]. intros x e' _ Hg _. apply wp_if; [done|]. intros _.
    split; [done|]. eapply grows_weaken; [done|lia].
  - apply wp_bind. eapply wp_mono; [by apply exec_op_grows|]. by intros e' Hg.
Qed.

Lemma run_item_inv e n st i :
  item_ok i -> run_inv e n st -> wp (run_item st i) (run_inv e (S n)).
Proof.
  intros Hi (Hs & _ & Hg). unfold run_item. apply wp_if; [done|]. intros Hle. bool_prop.
  assert (Hn : forall e', grows 3 (eng st) e' -> grows (3 * Z.of_nat (S n)) e e')
    by (intros; eapply grows_trans; [eassumption..|lia]).
  assert (Hw : wf_engine (eng st)) by (by eapply grows_wf).
  assert (H0 : grows 3 (eng st) (eng st)) by (eapply grows_weaken; [by apply grows_refl|lia]).
  destruct i as [op|d].
  - eapply wp_mono; [by apply run_opcode_grows|]. intros st' [E Hg']. simpl in *.
    split; [lia|]. split; [lia|]. by apply Hn.
  - simpl. apply wp_if; intros _; [apply wp_if; [done|]; intros _|];
      (split; [simpl; lia|split; [simpl; lia|]]); apply Hn; [|done].
    simpl. eapply grows_weaken; [apply (grows_push 0); [by apply grows_refl|done]|lia].
Qed.

Lemma run_grows e s : wf_engine e -> is_bytes s -> wp (run e s) (grows 600 e).
Proof.
  intros He Hs. unfold run. rewrite validate_complete, items_parse by done.
  destruct (complete s); simpl; [|done]. apply wp_bind.
  eapply wp_mono; [apply (wp_rfold (run_inv e) _ _ 0)|].
  - intros n st i Hi. apply run_item_inv. eapply Forall_forall; [by apply parse_items_ok|done].
  - split; [done|]. split; [done|]. simpl. apply grows_refl. done.
  - intros st (E & Hle & Hg). apply wp_if; [done|]. intros _. unfold MAX_SCRIPT_EXEC_STEPS in Hle.
    eapply grows_weaken; [done|]. lia.
Qed.

Lemma from_bytes_ok b s : from_bytes b = Ok s -> s = b.
Proof. unfold from_bytes. case_match; [done|]. by intros [= ->]. Qed.

Lemma execute_grows e sg pk :
  is_bytes sg -> is_bytes pk -> wp (execute e sg pk) (grows 2400 (new (env e))).
Proof.
  intros Hs Hp. unfold execute. change (mkEngine [] [] (env e)) with (new (env e)).
  set (e0 := new (env e)). assert (wf_engine e0) by apply wf_new.
  apply wp_bind. eapply wp_mono; [by apply run_grows|]. intros e1 H1.
  apply wp_bind. eapply wp_mono; [apply run_grows; [by eapply grows_wf|done]|]. intros e2 H2.
  apply wp_bind, wp_last; [by eapply grows_wf|]. intros x _. apply wp_if; [done|]. intros _.
  apply wp_if; intros _.
  2: { eapply grows_trans; [done..|lia]. }
  assert (H3 : grows 1800 e0 (set_stack e2 (stack e1))).
  { destruct H1 as ([? _] & ? & ?), H2 as ([_ ?] & E2 & ?). split; [by split|].
    split; [etransitivity; [exact E2|done]|]. change (depth e0) with 0 in *. unfold depth in *. simpl in *.
    pose proof (zlen_nonneg (stack e2)). pose proof (zlen_nonneg (alt_stack e1)). lia. }
  apply wp_bind, wp_pop; [by eapply grows_wf|]. intros r e3 Hr H4 _.
  apply wp_bind. destruct (from_bytes r) as [s|?|] eqn:E; [|done|by unfold from_bytes in E; case_match].
  apply from_bytes_ok in E as ->. apply wp_bind.
  eapply wp_mono; [apply run_grows; [by eapply grows_wf|done]|]. intros e4 H5.
  apply wp_bind, wp_last; [by eapply grows_wf|]. intros y _. apply wp_if; [done|]. intros _.
  eapply grows_trans; [eapply grows_trans; [exact H3|exact H4|reflexivity]|exact H5|lia].
Qed.

(** *** Properties *)

(** C24: [Engine::execute] never panics, whatever the two scripts and the
    environment are: it returns a result or an error.  When it accepts, the two
    stacks together hold at most 2400 byte strings. *)
Theorem execute_never_panics (v : ScriptEnv) (script_sig script_pubkey : Script) :
  is_bytes script_sig -> is_bytes script_pubkey ->
  execute (new v) script_sig script_pubkey <> Panic /\
  (forall e, execute (new v) script_sig script_pubkey = Ok e ->
     zlen (stack e) + zlen (alt_stack e) <= 2400 /\ Forall is_bytes (stack e)).
Proof.
  intros Hs Hp. pose proof (execute_grows (new v) _ _ Hs Hp) as H.
  split; [by eapply wp_safe|]. intros e He.
  destruct (wp_result _ _ _ H He) as ([? _] & _ & Hd). split; [exact Hd|done].
Qed.

End engine.

Lemma execute_never_panics_witness :
  execute (new (mkEnv [] 0 0 0 0 0 0)) [0x51] [0x76; 0x87] <> Panic.
Proof.
  apply (execute_never_panics (mkEnv [] 0 0 0 0 0 0) [0x51] [0x76; 0x87]);
    repeat (apply Forall_cons; split; [unfold is_byte; lia|]); constructor.
Defined.

(** script numbers.  [int_to_bytes] and [decode_script_num] are inverse on
    every [i64] but the smallest, and an encoding fits the four bytes an
    arithmetic operand may have exactly when the number is below [2 ^ 31] in
    absolute value; so [push_arith_result] pushes a value that can be read back
    as an operand, or fails. *)
Theorem script_num_roundtrip (n : Z) :
  Z.abs n <= i64_max ->
  (forall m, zlen (int_to_bytes n) <= m -> decode_script_num (int_to_bytes n) m = Ok n) /\
  (forall e, push_arith_result e (Some n) =
     if Z.abs n <? 2 ^ 31 then Ok (push e (int_to_bytes n)) else Err InvalidScriptNumber).
Proof.
  intros Hmax. split; [by intros; apply decode_int_to_bytes|]. intros e.
  unfold push_arith_result, MAX_ARITH_NUM_LEN. simpl.
  pose proof (int_to_bytes_len n 4 ltac:(lia) Hmax) as H. change (8 * 4 - 1) with 31 in H.
  destruct (Z.ltb_spec 4 (zlen (int_to_bytes n))), (Z.ltb_spec (Z.abs n) (2 ^ 31)); try done; lia.
Qed.

Lemma script_num_roundtrip_witness : decode_script_num (int_to_bytes (-500)) 4 = Ok (-500).
Proof. apply (script_num_roundtrip (-500)); vm_compute; discriminate. Defined.

(** The stack limit of 1000 elements guards data pushes only.  A pair of
    scripts within all other limits is accepted with 1194 elements on the stack. *)
Theorem stack_limit_not_enforced_on_opcodes :
  let dup3 n := repeat 0x6f n in
  match execute (C:=toy) (new (mkEnv [] 0 0 0 0 0 0))
          ([0x51; 0x51; 0x51] ++ dup3 197%nat) (dup3 200%nat) with
  | Ok e => zlen (stack e) = 1194 /\ MAX_STACK_DEPTH < zlen (stack e)
  | _ => False
  end.
Proof. by vm_compute. Qed.

(** An OP_ELSE and an OP_ENDIF that belong to no OP_IF do not fail the
    script: [UnbalancedConditional] is raised for an OP_IF left open, not for
    the opposite mismatch. *)
Theorem stray_else_endif_accepted (C : Crypto) (v : ScriptEnv) :
  execute (new v) [0x51] [0x67; 0x68] = Ok (push (new v) [1]) /\
  execute (new v) [0x51] [0x68] = Ok (push (new v) [1]) /\
  execute (new v) [0x51; 0x51] [0x63] = Err UnbalancedConditional.
Proof. done. Qed.
