(* ===== verification/Standard.v ===== *)
(** * Standard scripts

    Models [vtorrent-script/src/standard.rs]: the builders of the standard output
    scripts and [classify_script].  The theorems say who can spend each of them:
    for an arbitrary input script, the engine accepts exactly when the stack it
    leaves satisfies the condition the script stands for. *)

From stdpp Require Import base list.
From Stdlib Require Import ZArith Lia.
From S2P Require Import Prelude Script Crypto Engine.
Import Scripts.

(** ** Builders *)

(** [push_data(..).map_err(|e| Serialization(e.to_string()))?]. *)
Definition push_data_ser (s : Script) (d : bytes) : res ScriptError Script :=
  map_err Serialization (push_data s d).

Definition build_p2pkh (pubkey_hash : bytes) : res ScriptError Script :=
  let s := push_opcode (push_opcode [] 0x76) 0xa9 in
  let* s := push_data_ser s pubkey_hash in
  Ok (push_opcode (push_opcode s 0x88) 0xac).

Definition build_p2sh (script_hash : bytes) : res ScriptError Script :=
  let s := push_opcode [] 0xa9 in
  let* s := push_data_ser s script_hash in
  Ok (push_opcode s 0x87).

(** The key loop of [build_p2ms]. *)
Definition p2ms_push_key (s : Script) (key : bytes) : res ScriptError Script :=
  if 520 <? zlen key then Err (PushTooLarge (zlen key)) else push_data_ser s key.

Definition build_p2ms (m : Z) (keys : list bytes) : res ScriptError Script :=
  let n := as_u8 (zlen keys) in
  if n <? m then Err (MultisigKeyCount m n) else
  if 15 <? n then Err (MultisigKeyCount m n) else
  let s := push_int [] m in
  let* s := rfold p2ms_push_key s keys in
  Ok (push_opcode (push_int s n) 0xae).

Definition build_htlc (payment_hash claim_pubkey_hash refund_pubkey_hash : bytes) (expiry : Z)
    : res ScriptError Script :=
  let s := push_opcode (push_opcode [] 0x63) 0xa8 in
  let* s := push_data_ser s payment_hash in
  let s := push_opcode (push_opcode (push_opcode s 0x88) 0x76) 0xa9 in
  let* s := push_data_ser s claim_pubkey_hash in
  let s := push_opcode (push_opcode s 0x88) 0xac in
  let s := push_opcode s 0x67 in
  let* s := push_data_ser s (le32 expiry) in
  let s := push_opcode (push_opcode (push_opcode (push_opcode s 0xb1) 0x75) 0x76) 0xa9 in
  let* s := push_data_ser s refund_pubkey_hash in
  let s := push_opcode (push_opcode s 0x88) 0xac in
  Ok (push_opcode s 0x68).

Definition build_p2cs (staking_pubkey_hash spending_pubkey_hash : bytes) (locktime : Z)
    : res ScriptError Script :=
  let s := push_opcode (push_opcode (push_opcode [] 0x63) 0x76) 0xa9 in
  let* s := push_data_ser s staking_pubkey_hash in
  let s := push_opcode (push_opcode (push_opcode s 0x88) 0xac) 0x67 in
  let* s := push_data_ser s (le32 locktime) in
  let s := push_opcode (push_opcode (push_opcode (push_opcode s 0xb1) 0x75) 0x76) 0xa9 in
  let* s := push_data_ser s spending_pubkey_hash in
  let s := push_opcode (push_opcode s 0x88) 0xac in
  Ok (push_opcode s 0x68).

Definition build_op_return (data : bytes) : res ScriptError Script :=
  if 80 <? zlen data then Err (PushTooLarge (zlen data)) else
  let s := push_opcode [] 0x6a in
  if negb (zlen data =? 0)
  then match push_data s data with Ok s => Ok s | _ => Panic end
  else Ok s.

(** ** Classification *)

Inductive ScriptType : Type :=
  | P2PKH
  | P2PK
  | P2SH
  | P2MS (m n : Z)
  | Htlc
  | P2CS (staking_hash spending_hash : bytes) (locktime : Z)
  | OpReturn
  | NonStandard.

(** [b[i] == x], behind a test of the length. *)
Definition at_is (b : bytes) (i x : Z) : bool := bool_decide (vec_at b i = Some x).

(** A test of several positions. *)
Definition all_at (b : bytes) (l : list (Z * Z)) : bool :=
  forallb (fun '(i, x) => at_is b i x) l.

Definition parse_p2cs (b : bytes) : option (bytes * bytes * Z) :=
  if negb (zlen b =? 60) then None else
  if negb (all_at b [(0, 0x63); (1, 0x76); (2, 0xa9); (3, 0x14)]) then None else
  if negb (all_at b [(24, 0x88); (25, 0xac); (26, 0x67); (27, 0x04)]) then None else
  if negb (all_at b [(32, 0xb1); (33, 0x75); (34, 0x76); (35, 0xa9); (36, 0x14)]) then None else
  if negb (all_at b [(57, 0x88); (58, 0xac); (59, 0x68)]) then None else
  Some (slice 4 24 b, slice 37 57 b, from_le (slice 28 32 b)).

(** The P2MS test: OP_M first, OP_N and OP_CHECKMULTISIG last. *)
Definition parse_p2ms (b : bytes) : option (Z * Z) :=
  if negb (3 <=? zlen b) then None else
  match vec_at b 0, vec_last b, vec_at b (zlen b - 2) with
  | Some b0, Some last, Some n_byte =>
      if negb ((0x51 <=? b0) && (b0 <=? 0x60)) then None else
      if negb (last =? 0xae) then None else
      if negb ((0x51 <=? n_byte) && (n_byte <=? 0x60)) then None else
      let m := b0 - 0x50 in
      let n := n_byte - 0x50 in
      if m <=? n then Some (m, n) else None
  | _, _, _ => None
  end.

Definition classify_script (b : Script) : ScriptType :=
  if (zlen b =? 25) && all_at b [(0, 0x76); (1, 0xa9); (2, 0x14); (23, 0x88); (24, 0xac)]
  then P2PKH else
  if (zlen b =? 23) && all_at b [(0, 0xa9); (1, 0x14); (22, 0x87)] then P2SH else
  if (zlen b =? 35) && all_at b [(0, 33); (34, 0xac)] ||
     (zlen b =? 67) && all_at b [(0, 65); (66, 0xac)] then P2PK else
  if negb (zlen b =? 0) && at_is b 0 0x6a then OpReturn else
  match parse_p2ms b with
  | Some (m, n) => P2MS m n
  | None =>
      match parse_p2cs b with
      | Some (staking_hash, spending_hash, locktime) => P2CS staking_hash spending_hash locktime
      | None =>
          if (5 <? zlen b) && all_at b [(0, 0x63); (1, 0xa8)] then Htlc else NonStandard
      end
  end.

(** ** The scripts as lists of items *)

Definition bytes_of (l : list ScriptItem) : Script := concat (map item_bytes l).

Definition pkh_tail (h : bytes) : list ScriptItem :=
  [Opcode 0x76; Opcode 0xa9; PushData h; Opcode 0x88; Opcode 0xac].

Definition p2sh_items (h : bytes) : list ScriptItem := [Opcode 0xa9; PushData h; Opcode 0x87].

(** OP_IF [a] OP_ELSE <locktime> OP_CHECKLOCKTIMEVERIFY OP_DROP [pkh_tail h] OP_ENDIF. *)
Definition timeout_items (a : list ScriptItem) (locktime : Z) (h : bytes) : list ScriptItem :=
  Opcode 0x63 :: a ++
  [Opcode 0x67; PushData (le32 locktime); Opcode 0xb1; Opcode 0x75] ++ pkh_tail h ++ [Opcode 0x68].

Definition htlc_claim (payment_hash h : bytes) : list ScriptItem :=
  [Opcode 0xa8; PushData payment_hash; Opcode 0x88] ++ pkh_tail h.

Lemma push_data_ser_bytes s d :
  zlen d <= MAX_PUSH_SIZE -> push_data_ser s d = Ok (s ++ push_bytes d).
Proof. intros. unfold push_data_ser. by rewrite push_data_bytes. Qed.

(** Evaluate a builder: the pushes are in range, the rest is concatenation. *)
Ltac layout :=
  unfold push_opcode, vec_push, bytes_of;
  repeat (rewrite push_data_ser_bytes by (unfold MAX_PUSH_SIZE in *; rewrite ?zlen_to_le; lia); simpl);
  f_equal; simpl; rewrite ?app_nil_r; repeat rewrite <- app_assoc; simpl; try done.

Lemma build_p2pkh_bytes h :
  zlen h = 20 -> build_p2pkh h = Ok (bytes_of (pkh_tail h)).
Proof. intros. unfold build_p2pkh. layout. Qed.

Lemma build_p2sh_bytes h : zlen h = 20 -> build_p2sh h = Ok (bytes_of (p2sh_items h)).
Proof. intros. unfold build_p2sh. layout. Qed.

Lemma build_p2cs_bytes h1 h2 t :
  zlen h1 = 20 -> zlen h2 = 20 ->
  build_p2cs h1 h2 t = Ok (bytes_of (timeout_items (pkh_tail h1) t h2)).
Proof. intros. unfold build_p2cs. layout. Qed.

Lemma build_htlc_bytes ph h1 h2 t :
  zlen ph = 32 -> zlen h1 = 20 -> zlen h2 = 20 ->
  build_htlc ph h1 h2 t = Ok (bytes_of (timeout_items (htlc_claim ph h1) t h2)).
Proof. intros. unfold build_htlc. layout. Qed.

(** ** Running them *)

Section spending.
Context {C : Crypto}.

(** The opcodes [run] handles whatever [executing] is, and OP_VERIFY. *)
Definition is_flow (op : Z) : bool := existsb (Z.eqb op) [0x63; 0x64; 0x67; 0x68; 0x6a; 0x69].

Definition skippable (i : ScriptItem) : bool :=
  match i with Opcode op => negb (is_flow op) | PushData _ => true end.

Lemma run_bytes_of e l :
  Forall wf_item l ->
  run e (bytes_of l) =
  let* st := rfold run_item (mkRun e true [] 0) l in
  if negb (zlen (if_stack st) =? 0) then Err UnbalancedConditional else Ok (eng st).
Proof.
  intros Hl. unfold run, bytes_of. pose proof (build_is_bytes l Hl).
  rewrite validate_complete, complete_build, items_parse by done. simpl.
  rewrite <- (app_nil_r (concat _)), parse_items_build by done.
  change (parse_items []) with (@nil ScriptItem). by rewrite app_nil_r.
Qed.

Lemma run_item_op op e ifs n :
  n < MAX_SCRIPT_EXEC_STEPS -> is_flow op = false ->
  run_item (mkRun e true ifs n) (Opcode op) =
  let* e' := exec_op op e in Ok (mkRun e' true ifs (n + 1)).
Proof.
  intros Hn Hf. unfold run_item. simpl. rewrite (proj2 (Z.ltb_ge _ _)) by lia.
  unfold is_flow in Hf. simpl in Hf. unfold run_opcode. simpl.
  repeat match goal with
  | |- context [op =? ?c] => destruct (op =? c) eqn:?; simpl in Hf; [rewrite ?orb_true_r in Hf; discriminate|]
  end.
  done.
Qed.

Lemma run_item_push d e ifs n :
  n < MAX_SCRIPT_EXEC_STEPS -> zlen (stack e) < MAX_STACK_DEPTH ->
  run_item (mkRun e true ifs n) (PushData d) = Ok (mkRun (push e d) true ifs (n + 1)).
Proof.
  intros. unfold run_item. simpl. rewrite (proj2 (Z.ltb_ge _ _)) by lia.
  by rewrite (proj2 (Z.leb_gt _ _)) by lia.
Qed.

Lemma run_item_skip i e ifs n :
  n < MAX_SCRIPT_EXEC_STEPS -> skippable i = true ->
  run_item (mkRun e false ifs n) i = Ok (mkRun e false ifs (n + 1)).
Proof.
  intros Hn Hi. unfold run_item. simpl. rewrite (proj2 (Z.ltb_ge _ _)) by lia.
  destruct i as [op|d]; simpl; [|done]. simpl in Hi. apply negb_true_iff in Hi.
  unfold is_flow in Hi. simpl in Hi. unfold run_opcode. simpl.
  repeat match goal with
  | |- context [op =? ?c] => destruct (op =? c) eqn:?; simpl in Hi; [rewrite ?orb_true_r in Hi; discriminate|]
  end.
  done.
Qed.

Lemma run_skip l : forall e ifs n rest,
  n + zlen l <= MAX_SCRIPT_EXEC_STEPS -> forallb skippable l = true ->
  rfold run_item (mkRun e false ifs n) (l ++ rest) =
  rfold run_item (mkRun e false ifs (n + zlen l)) rest.
Proof.
  induction l as [|i l IH]; intros e ifs n rest Hn Hl; simpl.
  - by rewrite zlen_nil, Z.add_0_r.
  - simpl in Hl. bool_prop. rewrite zlen_cons in Hn. pose proof (zlen_nonneg l).
    rewrite run_item_skip by (done || lia). simpl. rewrite IH by (done || lia).
    rewrite zlen_cons. by rewrite Z.add_assoc.
Qed.

(** What the pay-to-public-key-hash tail does: take a key with hash [h] and a
    signature from the stack and leave the result of the signature check. *)
Definition spend_pkh (h : bytes) (e : Engine) : res ScriptError Engine :=
  let* (pk, e1) := pop e in
  if negb (bytes_eqb (Core.hash160 pk) h) then Err VerifyFailed else
  let* (sig, e2) := pop e1 in
  Ok (push e2 (bool_to_bytes (is_ok (check_sig e2 sig pk)))).

Lemma run_pkh_tail h e ifs n rest :
  n + 5 <= MAX_SCRIPT_EXEC_STEPS -> zlen (stack e) + 1 < MAX_STACK_DEPTH ->
  rfold run_item (mkRun e true ifs n) (pkh_tail h ++ rest) =
  let* e' := spend_pkh h e in rfold run_item (mkRun e' true ifs (n + 5)) rest.
Proof.
  intros Hn Hs. unfold pkh_tail, spend_pkh. cbn [app rfold].
  rewrite run_item_op by (done || lia).
  change (exec_op 0x76 e) with (let* top := last e in Ok (push e top)).
  unfold last, pop, vec_last, vec_pop. destruct (rev (stack e)) as [|pk st] eqn:E; [done|].
  simpl. rewrite run_item_op by (done || lia).
  change (exec_op 0xa9 (push e pk))
    with (let* (top, e) := pop (push e pk) in Ok (push e (Core.hash160 top))).
  unfold pop, push, set_stack. cbn [stack alt_stack env]. rewrite vec_pop_push. simpl.
  rewrite run_item_push by (unfold vec_push; simpl; autorewrite with zlen; lia). simpl.
  rewrite run_item_op by (done || lia). unfold push, set_stack. cbn [stack alt_stack env].
  set (e1 := mkEngine (vec_push (vec_push (stack e) _) _) _ _).
  change (exec_op 0x88 e1) with
    (let* (b, e) := pop e1 in let* (a, e) := pop e in
     if negb (bytes_eqb a b) then Err VerifyFailed else Ok e).
  unfold pop at 1. cbn [stack e1]. rewrite vec_pop_push. simpl.
  unfold pop at 1. cbn [stack e1 set_stack]. rewrite vec_pop_push. simpl.
  destruct (negb _); [done|]. simpl. rewrite run_item_op by (done || lia).
  set (e2 := set_stack _ _).
  change (exec_op 0xac e2) with
    (let* (k, e) := pop e2 in let* (s, e) := pop e in
     Ok (push e (bool_to_bytes (is_ok (check_sig e s k))))).
  unfold pop at 1. cbn [stack e2 set_stack]. unfold vec_pop at 1. rewrite E. simpl.
  unfold pop, vec_pop. cbn [stack set_stack].
  destruct (rev (rev st)) as [|s st'] eqn:E'; simpl; [done|].
  by replace (n + 1 + 1 + 1 + 1 + 1) with (n + 5) by lia.
Qed.

(** The top of the stack decides. *)
Definition top_true (e : Engine) : bool :=
  match vec_last (stack e) with Some x => is_true x | None => false end.

Lemma execute_plain v sg s :
  is_p2sh s = false ->
  is_ok (execute (new v) sg s) = true <->
  exists e1 e2, run (new v) sg = Ok e1 /\ run e1 s = Ok e2 /\ top_true e2 = true.
Proof.
  intros Hp. unfold execute. change (mkEngine [] [] (env (new v))) with (new v).
  destruct (run (new v) sg) as [e1| |]; simpl; [|by split; [|intros (?&?&?&_)]..].
  destruct (run e1 s) as [e2| |] eqn:E2; simpl; [|by split; [|intros (?&?&[= <-]&E&_); rewrite E2 in E]..].
  unfold last, top_true. rewrite Hp.
  destruct (vec_last (stack e2)) as [x|] eqn:El; simpl.
  - destruct (is_true x) eqn:Ex; simpl; split; try done.
    + intros _. exists e1, e2. by rewrite El.
    + intros (?&?&[= <-]&E&Ht). rewrite E2 in E. injection E as <-. by rewrite El, Ex in Ht.
  - split; [done|]. intros (?&?&[= <-]&E&Ht). rewrite E2 in E. injection E as <-. by rewrite El in Ht.
Qed.

(** A key with hash [h] on top, under it a signature that verifies. *)
Definition unlocks (h : bytes) (e : Engine) (st : list bytes) : Prop :=
  exists sig pk, stack e = st ++ [sig; pk] /\ Core.hash160 pk = h /\ check_sig e sig pk = Ok tt.

Lemma check_sig_env e e' s p : env e = env e' -> check_sig e s p = check_sig e' s p.
Proof. unfold check_sig. by intros ->. Qed.

Lemma pop_snoc e st x : stack e = st ++ [x] -> pop e = Ok (x, set_stack e st).
Proof. intros E. unfold pop. rewrite E. change (st ++ [x]) with (vec_push st x). by rewrite vec_pop_push. Qed.

Lemma pop_inv e x e' : pop e = Ok (x, e') -> stack e = stack e' ++ [x] /\ e' = set_stack e (stack e').
Proof.
  unfold pop. destruct (vec_pop (stack e)) as [[y s]|] eqn:E; simpl; [|done].
  intros [= <- <-]. by apply vec_pop_Some in E.
Qed.

Lemma spend_pkh_true h e e' :
  spend_pkh h e = Ok e' /\ top_true e' = true <->
  exists st, unlocks h e st /\ e' = set_stack e (st ++ [[1]]).
Proof.
  unfold spend_pkh, unlocks. split.
  - intros [H Ht]. destruct (pop e) as [[pk e1]| |] eqn:E1; simpl in H; try done.
    apply pop_inv in E1 as [S1 E1].
    destruct (bytes_eqb _ h) eqn:Eh; simpl in H; [|done]. apply bytes_eqb_eq in Eh.
    destruct (pop e1) as [[sg e2]| |] eqn:E2; simpl in H; try done.
    apply pop_inv in E2 as [S2 E2]. injection H as <-.
    assert (He2 : env e2 = env e) by by rewrite E2, E1.
    unfold top_true, push in Ht. simpl in Ht. rewrite vec_last_push in Ht.
    destruct (check_sig e2 sg pk) as [[]| |] eqn:Ec; try done.
    exists (stack e2). split.
    + exists sg, pk. rewrite S1, S2, <- app_assoc. split; [done|]. split; [done|].
      by rewrite <- (check_sig_env e2).
    + unfold push, set_stack. rewrite E2, E1. done.
  - intros (st & (sg & pk & E & <- & Hc) & ->).
    rewrite (pop_snoc e (st ++ [sg]) pk) by by rewrite E, <- app_assoc.
    simpl. rewrite bytes_eqb_refl. simpl. erewrite pop_snoc by reflexivity. simpl.
    rewrite (check_sig_env _ e), Hc by done. split; [done|].
    unfold top_true. cbn [stack set_stack]. change (st ++ [[1]]) with (vec_push st [1]).
    by rewrite vec_last_push.
Qed.

(** ** Lock times *)

(** When OP_CHECKLOCKTIMEVERIFY lets the time [t] pass. *)
Definition locktime_passed (v : ScriptEnv) (t : Z) : Prop :=
  input_sequence v <> 0xffffffff /\
  (500000000 <= t <-> 500000000 <= tx_lock_time v) /\
  t <= tx_lock_time v /\
  t <= (if 500000000 <=? t then block_time v else block_height v).

(** The four bytes of [to_le_bytes] read back as a script number: from [2 ^ 31]
    on the top bit is taken for the sign. *)
Lemma decode_le32 t :
  0 <= t < 2 ^ 32 ->
  decode_script_num (le32 t) 5 = Ok (if t <? 2 ^ 31 then t else 2 ^ 31 - t).
Proof.
  intros Ht. pose proof (from_le_to_le 4 t ltac:(done)) as Hv.
  pose proof (to_le_bytes 4 t) as Hb. unfold le32. cbn [to_le] in *.
  set (b0 := t mod 256) in *. set (b1 := t / 256 mod 256) in *.
  set (b2 := t / 256 / 256 mod 256) in *. set (b3 := t / 256 / 256 / 256 mod 256) in *.
  apply (Forall_app _ [b0; b1; b2] [b3]) in Hb as [Hf Hx%Forall_inv].
  pose proof (from_le_bound _ Hf) as Hf'. unfold is_byte in Hx.
  change [b0; b1; b2; b3] with ([b0; b1; b2] ++ [b3]) in *. rewrite from_le_app in Hv.
  change (256 ^ zlen [b0; b1; b2]) with 16777216 in *. simpl from_le in Hv at 2.
  pose proof (byte_forall (fun x => Z.land x 127 =? (if x <? 128 then x else x - 128))
    ltac:(by vm_compute) b3 Hx) as Hm%Z.eqb_eq.
  assert (from_le ([b0; b1; b2] ++ [Z.land b3 127]) = if b3 <? 128 then t else t - 2 ^ 31) as Hd.
  { rewrite from_le_app. change (256 ^ zlen [b0; b1; b2]) with 16777216.
    rewrite Hm. simpl from_le at 2. destruct (b3 <? 128); lia. }
  rewrite decode_snoc; [|done|done|done|rewrite Hd; destruct (b3 <? 128); unfold i64_max; lia].
  rewrite Hd. f_equal. destruct (Z.ltb_spec b3 128), (Z.ltb_spec t (2 ^ 31)); lia.
Qed.

Lemma cltv_le32 e t :
  0 <= t < 2 ^ 32 ->
  forall e', cltv (push e (le32 t)) = Ok e' <->
  e' = push e (le32 t) /\ (t <= 2 ^ 31 /\ locktime_passed (env e) (if t =? 2 ^ 31 then 0 else t)).
Proof.
  intros Ht e'. unfold cltv, last, push. simpl. rewrite vec_last_push. simpl.
  rewrite decode_le32 by done. simpl. unfold locktime_passed.
  set (lt := if t <? 2 ^ 31 then t else 2 ^ 31 - t). set (lt' := if t =? 2 ^ 31 then 0 else t).
  destruct (Z.ltb_spec lt 0) as [Hneg|Hpos].
  { split; [done|]. subst lt. destruct (Z.ltb_spec t (2 ^ 31)); lia. }
  assert (t <= 2 ^ 31 /\ lt' = lt /\ lt < 2 ^ 31) as (Hle & -> & Hlt).
  { subst lt lt'. destruct (Z.ltb_spec t (2 ^ 31)), (Z.eqb_spec t (2 ^ 31)); lia. }
  rewrite (proj2 (Z.ltb_ge _ _)), (proj2 (Z.ltb_ge _ _)) by (unfold u32_max; lia).
  destruct (Z.eqb_spec (input_sequence (env e)) 4294967295) as [|Hs]; [by split; [|intros (_&_&?&_)]|].
  destruct (Z.leb_spec 500000000 lt), (Z.leb_spec 500000000 (tx_lock_time (env e))); simpl;
    try (split; [done|]; intros (_ & _ & _ & ? & _); lia);
    destruct (Z.ltb_spec (tx_lock_time (env e)) lt); try (split; [done|]; intros (_&_&_&_&?&_); lia).
  - destruct (Z.leb_spec lt (block_time (env e))); simpl; split; try done.
    + intros [= <-]. split_and!; done || lia.
    + by intros [-> _].
    + intros (_&_&_&_&_&?). lia.
  - destruct (Z.leb_spec lt (block_height (env e))); simpl; split; try done.
    + intros [= <-]. split_and!; done || lia.
    + by intros [-> _].
    + intros (_&_&_&_&_&?). lia.
Qed.

(** ** Conditional scripts *)

(** The items [a] act on the engine as the function [A] does. *)
Definition acts (a : list ScriptItem) (A : Engine -> res ScriptError Engine) : Prop :=
  forall e ifs n rest,
  n + zlen a <= MAX_SCRIPT_EXEC_STEPS -> zlen (stack e) + 1 < MAX_STACK_DEPTH ->
  rfold run_item (mkRun e true ifs n) (a ++ rest) =
  let* e' := A e in rfold run_item (mkRun e' true ifs (n + zlen a)) rest.

Lemma acts_pkh_tail h : acts (pkh_tail h) (spend_pkh h).
Proof. intros e ifs n rest Hn Hs. by apply run_pkh_tail. Qed.

Lemma bind_assoc {E A B D} (m : res E A) (k : A -> res E B) (q : B -> res E D) :
  rbind (rbind m k) q = rbind m (fun a => rbind (k a) q).
Proof. by destruct m. Qed.

(** The claim branch of an HTLC: the hash of the top element is [ph]. *)
Definition spend_claim (ph h : bytes) (e : Engine) : res ScriptError Engine :=
  let* (x, e1) := pop e in
  if negb (bytes_eqb (sha256 x) ph) then Err VerifyFailed else spend_pkh h e1.

Lemma acts_htlc_claim ph h : acts (htlc_claim ph h) (spend_claim ph h).
Proof.
  intros e ifs n rest Hn Hs. change (zlen (htlc_claim ph h)) with 8 in *.
  unfold htlc_claim, spend_claim. remember (pkh_tail h) as tl eqn:Etl. cbn [app rfold].
  rewrite run_item_op by (done || lia).
  change (exec_op 0xa8 e) with (let* (top, e) := pop e in Ok (push e (sha256 top))).
  destruct (pop e) as [[x e1]| |] eqn:E1; simpl; [|done..]. apply pop_inv in E1 as [S1 E1].
  assert (zlen (stack e) = zlen (stack e1) + 1) by (rewrite S1; by autorewrite with zlen).
  rewrite run_item_push by (simpl; rewrite ?zlen_push; lia). simpl.
  rewrite run_item_op by (done || lia).
  change (exec_op 0x88 ?w) with
    (let* (b, e) := pop w in let* (a, e) := pop e in
     if negb (bytes_eqb a b) then Err VerifyFailed else Ok e).
  rewrite (pop_snoc _ (vec_push (stack e1) (sha256 x)) ph) by done. simpl.
  rewrite (pop_snoc _ (stack e1) (sha256 x)) by done. simpl.
  replace (set_stack _ (stack e1)) with e1 by (rewrite E1; done).
  destruct (negb _); simpl; [done|].
  rewrite Etl, run_pkh_tail by lia. by replace (n + 1 + 1 + 1 + 5) with (n + 8) by lia.
Qed.

Lemma wf_pkh_tail h : is_bytes h -> zlen h = 20 -> Forall wf_item (pkh_tail h).
Proof.
  intros. unfold pkh_tail. repeat (apply Forall_cons; split); try constructor;
    unfold plain_byte, is_byte, MAX_PUSH_SIZE; try done; lia.
Qed.

Lemma wf_htlc_claim ph h :
  is_bytes ph -> zlen ph = 32 -> is_bytes h -> zlen h = 20 -> Forall wf_item (htlc_claim ph h).
Proof.
  intros. apply Forall_app. split; [|by apply wf_pkh_tail].
  repeat (apply Forall_cons; split); try constructor; unfold plain_byte, is_byte, MAX_PUSH_SIZE;
    try done; lia.
Qed.

Lemma le32_is_bytes t : is_bytes (le32 t).
Proof. apply to_le_bytes. Qed.

Lemma wf_timeout_items a t h :
  Forall wf_item a -> is_bytes h -> zlen h = 20 -> Forall wf_item (timeout_items a t h).
Proof.
  intros Ha Hh Hz. unfold timeout_items. pose proof (wf_pkh_tail h Hh Hz).
  apply Forall_cons. split; [by split; [split; [|lia]|]|]. apply Forall_app. split; [done|].
  apply (Forall_app _ [_; _; _; _]). split; [|apply Forall_app; split; [done|]].
  2: { apply Forall_singleton. by split; [split; [|lia]|]. }
  repeat (apply Forall_cons; split); try (by split; [split; [|lia]|]); [|constructor].
  split; [apply le32_is_bytes|]. unfold MAX_PUSH_SIZE, le32. rewrite zlen_to_le. lia.
Qed.

(** The end of [run]: no conditional may be open. *)
Definition finish (st : RunState) : res ScriptError Engine :=
  if negb (zlen (if_stack st) =? 0) then Err UnbalancedConditional else Ok (eng st).

Definition timeout_rest (t : Z) (h : bytes) : list ScriptItem :=
  [PushData (le32 t); Opcode 0xb1; Opcode 0x75] ++ pkh_tail h.

Local Ltac small := unfold MAX_SCRIPT_EXEC_STEPS, MAX_STACK_DEPTH in *; (lia || done).

(** The then branch: [a] runs, the rest is skipped. *)
Lemma timeout_then a A t h e :
  acts a A -> zlen a <= 100 -> zlen (stack e) <= 600 ->
  (let* st := rfold run_item (mkRun e true [true] 1) (a ++ Opcode 0x67 :: timeout_rest t h ++ [Opcode 0x68])
   in finish st) = A e.
Proof.
  intros HA Hlen Hs. pose proof (zlen_nonneg a). rewrite HA by small. rewrite bind_assoc.
  destruct (A e) as [e2| |]; [cbn [rbind]|done..].
  assert (Hsk : forallb skippable (timeout_rest t h) = true) by done.
  assert (Hz8 : zlen (timeout_rest t h) = 8) by done.
  remember (timeout_rest t h) as rest eqn:Er. cbn [rfold].
  unfold run_item at 1. simpl. rewrite (proj2 (Z.ltb_ge _ _)) by small. simpl.
  rewrite run_skip by small. cbn [rfold].
  unfold run_item at 1. simpl. rewrite (proj2 (Z.ltb_ge _ _)) by small. done.
Qed.

(** The else branch: [a] is skipped, the lock time is checked, the key hash too. *)
Lemma timeout_else a t h e :
  forallb skippable a = true -> zlen a <= 100 -> zlen (stack e) <= 600 ->
  (let* st := rfold run_item (mkRun e false [true] 1) (a ++ Opcode 0x67 :: timeout_rest t h ++ [Opcode 0x68])
   in finish st) =
  let* e2 := cltv (push e (le32 t)) in let* (_, e3) := pop e2 in spend_pkh h e3.
Proof.
  intros Hsk Hlen Hs. pose proof (zlen_nonneg a). rewrite run_skip by small.
  unfold timeout_rest. remember (pkh_tail h) as tl eqn:Etl. cbn [app rfold].
  unfold run_item at 1. simpl. rewrite (proj2 (Z.ltb_ge _ _)) by small. simpl.
  rewrite run_item_push by small. simpl. rewrite run_item_op by small.
  change (exec_op 0xb1 ?w) with (cltv w). rewrite !bind_assoc.
  destruct (cltv (push e (le32 t))) as [e2| |] eqn:Ec; [|done..].
  assert (E2 : e2 = push e (le32 t)) by (revert Ec; unfold cltv; intros Ec; by res_inv).
  subst e2. cbn [rbind]. rewrite run_item_op by small.
  change (exec_op 0x75 ?w) with (let* (_, e) := pop w in Ok e).
  rewrite (pop_snoc _ (stack e) (le32 t)) by done. simpl.
  replace (set_stack _ (stack e)) with e by by destruct e.
  rewrite Etl, run_pkh_tail by small. rewrite bind_assoc.
  destruct (spend_pkh h e) as [e2| |]; simpl; [|done..].
  unfold run_item. simpl. rewrite (proj2 (Z.ltb_ge _ _)) by small. done.
Qed.

(** What a script of the timeout shape does: the top element selects the branch. *)
Lemma run_timeout a A t h e :
  acts a A -> forallb skippable a = true -> zlen a <= 100 ->
  Forall wf_item a -> is_bytes h -> zlen h = 20 -> zlen (stack e) <= 600 ->
  run e (bytes_of (timeout_items a t h)) =
  let* (c, e1) := pop e in
  if is_true c then A e1 else
  let* e2 := cltv (push e1 (le32 t)) in
  let* (_, e3) := pop e2 in
  spend_pkh h e3.
Proof.
  intros HA Hskip Hlen Hwf Hh Hz Hs. rewrite run_bytes_of by by apply wf_timeout_items.
  change (timeout_items a t h)
    with (Opcode 0x63 :: a ++ Opcode 0x67 :: timeout_rest t h ++ [Opcode 0x68]).
  cbn [rfold]. rewrite bind_assoc. unfold run_item at 1. simpl. unfold run_opcode, pop_cond. simpl.
  destruct (pop e) as [[c e1]| |] eqn:E1; simpl; [|done..]. apply pop_inv in E1 as [S1 _].
  assert (zlen (stack e) = zlen (stack e1) + 1) by (rewrite S1; by autorewrite with zlen).
  destruct (is_true c).
  - by apply timeout_then; [|done|lia].
  - by apply timeout_else; [|done|lia].
Qed.

Context {L : CryptoLaws C}.

Lemma push_bytes_short d : 1 <= zlen d <= 75 -> push_bytes d = zlen d :: d.
Proof.
  intros. unfold push_bytes. by rewrite (proj2 (Z.eqb_neq _ _)), (proj2 (Z.leb_le _ _)) by lia.
Qed.

Lemma is_p2sh_zlen s : zlen s <> 23 -> is_p2sh s = false.
Proof. intros. unfold is_p2sh. by rewrite (proj2 (Z.eqb_neq _ _)). Qed.

(** The engine after the input script, in the shape the lemmas above need. *)
Lemma run_sig_stack v sg e :
  is_bytes sg -> run (new v) sg = Ok e -> zlen (stack e) <= 600 /\ env e = v /\ wf_engine e.
Proof.
  intros Hs He. destruct (wp_result _ _ _ (run_grows _ _ (wf_new v) Hs) He) as (? & ? & Hd).
  split; [|done]. unfold depth in Hd. pose proof (zlen_nonneg (alt_stack e)).
  change (zlen (stack (new v)) + zlen (alt_stack (new v))) with 0 in Hd. lia.
Qed.

(** Accepting a script that is not pay-to-script-hash and runs as [R]. *)
Lemma execute_runs v sg s (R : Engine -> res ScriptError Engine) :
  is_bytes sg -> zlen s <> 23 -> (forall e, zlen (stack e) <= 600 -> run e s = R e) ->
  is_ok (execute (new v) sg s) = true <->
  exists e e', run (new v) sg = Ok e /\ R e = Ok e' /\ top_true e' = true.
Proof.
  intros Hs Hz HR. rewrite execute_plain by by apply is_p2sh_zlen.
  split; intros (e & e' & He & HRe & Ht); exists e, e'; (split; [done|]);
    destruct (run_sig_stack _ _ _ Hs He) as [Hst _]; rewrite HR in * by done; done.
Qed.

Lemma zlen_timeout_bytes a t h :
  zlen h = 20 -> zlen (bytes_of (timeout_items a t h)) = zlen (bytes_of a) + 35.
Proof.
  intros Hh. unfold bytes_of, timeout_items, pkh_tail. rewrite map_cons, map_app.
  cbn [concat]. rewrite concat_app. cbn [map app concat item_bytes].
  rewrite !push_bytes_short by (unfold le32; rewrite ?zlen_to_le; lia).
  autorewrite with zlen. unfold le32. rewrite zlen_to_le, Hh. lia.
Qed.

Lemma zlen_pkh_tail_bytes h : zlen h = 20 -> zlen (bytes_of (pkh_tail h)) = 25.
Proof.
  intros Hh. unfold bytes_of, pkh_tail. cbn [map app concat item_bytes].
  rewrite push_bytes_short by lia. autorewrite with zlen. lia.
Qed.

(** The else branch: after the lock time, with the key for [h]. *)
Lemma spend_timeout_true t h e e' :
  0 <= t < 2 ^ 32 ->
  (let* e2 := cltv (push e (le32 t)) in let* (_, e3) := pop e2 in spend_pkh h e3) = Ok e' /\
    top_true e' = true <->
  (t <= 2 ^ 31 /\ locktime_passed (env e) (if t =? 2 ^ 31 then 0 else t)) /\
  exists st, unlocks h e st /\ e' = set_stack e (st ++ [[1]]).
Proof.
  intros Ht. rewrite <- spend_pkh_true. split.
  - intros [H Htop]. destruct (cltv _) as [e2| |] eqn:Ec; simpl in H; try done.
    apply (cltv_le32 e t Ht) in Ec as [-> Hl]. split; [done|].
    rewrite (pop_snoc _ (stack e) (le32 t)) in H by done. simpl in H.
    replace (set_stack _ (stack e)) with e in H by by destruct e. done.
  - intros [Hl H]. rewrite (proj2 (cltv_le32 e t Ht (push e (le32 t)))) by done.
    simpl. rewrite (pop_snoc _ (stack e) (le32 t)) by done. simpl.
    by replace (set_stack _ (stack e)) with e by by destruct e.
Qed.

(** The outcome of a P2PKH script. *)
Lemma pkh_spend_iff (v : ScriptEnv) (sg h s : bytes) :
  is_bytes sg -> is_bytes h -> zlen h = 20 -> build_p2pkh h = Ok s ->
  is_ok (execute (new v) sg s) = true <->
  exists e st, run (new v) sg = Ok e /\ unlocks h e st.
Proof.
  intros Hs Hh Hz Hb. rewrite build_p2pkh_bytes in Hb by done. injection Hb as <-.
  rewrite (execute_runs _ _ _ (spend_pkh h)); [|done|by rewrite zlen_pkh_tail_bytes|].
  - split; [intros (e & e' & He & Hr)|intros (e & st & He & Hu)].
    + apply spend_pkh_true in Hr as (st & Hu & _). by exists e, st.
    + exists e, (set_stack e (st ++ [[1]])). split; [done|]. apply spend_pkh_true. by exists st.
  - intros e He. rewrite run_bytes_of by by apply wf_pkh_tail.
    rewrite <- (app_nil_r (pkh_tail h)), run_pkh_tail by (unfold MAX_STACK_DEPTH, MAX_SCRIPT_EXEC_STEPS; lia).
    by destruct (spend_pkh h e).
Qed.

(** *** Properties *)

(** who can spend a P2PKH output.  Whatever the input script is, the engine
    accepts exactly when that script runs without error and leaves on top of the
    stack a public key with the hash of the output and, below it, a signature of
    the transaction that verifies under that key. *)
Theorem p2pkh_spend (v : ScriptEnv) (sg h s : bytes) :
  is_bytes sg -> is_bytes h -> zlen h = 20 -> build_p2pkh h = Ok s ->
  is_ok (execute (new v) sg s) = true <->
  exists e st, run (new v) sg = Ok e /\ unlocks h e st.
Proof. exact (pkh_spend_iff v sg h s). Qed.

Lemma spend_claim_true ph h e e' :
  spend_claim ph h e = Ok e' /\ top_true e' = true <->
  exists x e1 st, pop e = Ok (x, e1) /\ sha256 x = ph /\ unlocks h e1 st /\
                  e' = set_stack e1 (st ++ [[1]]).
Proof.
  unfold spend_claim. split.
  - intros [H Ht]. destruct (pop e) as [[x e1]| |] eqn:E; simpl in H; try done.
    destruct (bytes_eqb _ ph) eqn:Ex; simpl in H; [|done]. apply bytes_eqb_eq in Ex.
    assert (Hs : spend_pkh h e1 = Ok e' /\ top_true e' = true) by done.
    apply spend_pkh_true in Hs as (st & ? & ?). by exists x, e1, st.
  - intros (x & e1 & st & -> & <- & H). simpl. rewrite bytes_eqb_refl. simpl.
    apply spend_pkh_true. by exists st.
Qed.

(** The outcome of a timeout script, by the branch the top element selects. *)
Lemma timeout_spend v sg a A t h s :
  acts a A -> forallb skippable a = true -> zlen a <= 100 -> Forall wf_item a ->
  is_bytes sg -> is_bytes h -> zlen h = 20 -> 0 <= t < 2 ^ 32 ->
  s = bytes_of (timeout_items a t h) ->
  is_ok (execute (new v) sg s) = true <->
  exists e c e1, run (new v) sg = Ok e /\ pop e = Ok (c, e1) /\
    if is_true c then exists e', A e1 = Ok e' /\ top_true e' = true
    else (t <= 2 ^ 31 /\ locktime_passed v (if t =? 2 ^ 31 then 0 else t)) /\
         exists st, unlocks h e1 st.
Proof.
  intros HA Hsk Hla Hwf Hs Hh Hz Ht ->.
  assert (Hne : zlen (bytes_of (timeout_items a t h)) <> 23)
    by (rewrite zlen_timeout_bytes by done; pose proof (zlen_nonneg (bytes_of a)); lia).
  rewrite (execute_runs _ _ _ _ Hs Hne (fun e He => run_timeout a A t h e HA Hsk Hla Hwf Hh Hz He)).
  assert (Henv : forall e c e1, run (new v) sg = Ok e -> pop e = Ok (c, e1) -> env e1 = v).
  { intros e c e1 He [_ ->]%pop_inv. by destruct (run_sig_stack _ _ _ Hs He) as (_ & ? & _). }
  split.
  - intros (e & e' & He & HR & Htop). destruct (pop e) as [[c e1]| |] eqn:Ep; try done.
    exists e, c, e1. split; [done|]. split; [done|]. simpl in HR. destruct (is_true c); [by exists e'|].
    destruct (proj1 (spend_timeout_true t h e1 e' Ht) (conj HR Htop)) as (Hl & st & Hu & _).
    rewrite (Henv _ _ _ He Ep) in Hl. split; [done|by exists st].
  - intros (e & c & e1 & He & Ep & H). destruct (is_true c) eqn:Ec.
    + destruct H as (e' & HA' & Htop). exists e, e'. rewrite Ep. simpl. by rewrite Ec.
    + destruct H as (Hl & st & Hu). exists e, (set_stack e1 (st ++ [[1]])). rewrite Ep. simpl.
      rewrite Ec. split; [done|]. apply spend_timeout_true; [done|].
      rewrite (Henv _ _ _ He Ep). split; [done|by exists st].
Qed.

(** who can spend a hash time-locked contract with an expiry below
    [2 ^ 31].  The element on top of the stack selects the branch: true, and the
    next element must be a preimage of the payment hash and the claimer's key and
    signature follow; false, and the transaction's lock time and the chain itself
    must have passed the expiry, with the refunder's key and signature.  There is
    no third way. *)
Theorem htlc_spend (v : ScriptEnv) (sg payment_hash claim_hash refund_hash s : bytes) (expiry : Z) :
  is_bytes sg -> is_bytes payment_hash -> zlen payment_hash = 32 ->
  is_bytes claim_hash -> zlen claim_hash = 20 -> is_bytes refund_hash -> zlen refund_hash = 20 ->
  0 <= expiry < 2 ^ 31 ->
  build_htlc payment_hash claim_hash refund_hash expiry = Ok s ->
  is_ok (execute (new v) sg s) = true <->
  exists e c e1, run (new v) sg = Ok e /\ pop e = Ok (c, e1) /\
    if is_true c
    then exists preimage e2 st, pop e1 = Ok (preimage, e2) /\ sha256 preimage = payment_hash /\
                                unlocks claim_hash e2 st
    else locktime_passed v expiry /\ exists st, unlocks refund_hash e1 st.
Proof.
  intros Hs Hph Hzp Hc Hzc Hr Hzr Ht Hb. rewrite build_htlc_bytes in Hb by done. injection Hb as <-.
  rewrite (timeout_spend v sg (htlc_claim payment_hash claim_hash) (spend_claim payment_hash claim_hash)
             expiry refund_hash); [|apply acts_htlc_claim|done|done| |done..|lia|done].
  2: by apply wf_htlc_claim.
  rewrite (proj2 (Z.eqb_neq _ _)) by lia.
  split; intros (e & c & e1 & He & Hp & H); exists e, c, e1; (split; [done|]); (split; [done|]);
    destruct (is_true c).
  - destruct H as (e' & H). apply spend_claim_true in H as (x & e2 & st & ? & ? & ? & _).
    by exists x, e2, st.
  - by destruct H as [[_ ?] ?].
  - destruct H as (x & e2 & st & ? & ? & ?). exists (set_stack e2 (st ++ [[1]])).
    apply spend_claim_true. by exists x, e2, st.
  - destruct H. split; [split; [lia|done]|done].
Qed.

(** An HTLC whose expiry does not fit 31 bits is broken: past [2 ^ 31] the
    refund branch can never be taken, and at exactly [2 ^ 31] it is open from the
    start, with no lock time at all (the expiry reads back as minus zero). *)
Theorem htlc_expiry_sign_bit (v : ScriptEnv) (sg ph ch rh s : bytes) (expiry : Z) :
  is_bytes sg -> is_bytes ph -> zlen ph = 32 ->
  is_bytes ch -> zlen ch = 20 -> is_bytes rh -> zlen rh = 20 ->
  2 ^ 31 <= expiry < 2 ^ 32 ->
  build_htlc ph ch rh expiry = Ok s ->
  forall e c e1, run (new v) sg = Ok e -> pop e = Ok (c, e1) -> is_true c = false ->
  is_ok (execute (new v) sg s) = true <->
  expiry = 2 ^ 31 /\ locktime_passed v 0 /\ exists st, unlocks rh e1 st.
Proof.
  intros Hs Hph Hzp Hc Hzc Hr Hzr Ht Hb e c e1 He Hp Ec.
  rewrite build_htlc_bytes in Hb by done. injection Hb as <-.
  rewrite (timeout_spend v sg (htlc_claim ph ch) (spend_claim ph ch) expiry rh);
    [|apply acts_htlc_claim|done|done| |done..|lia|done].
  2: by apply wf_htlc_claim.
  split.
  - intros (e' & c' & e1' & He' & Hp' & H). simplify_eq.
    rewrite He in He'. injection He' as <-. rewrite Hp in Hp'. injection Hp' as <- <-.
    rewrite Ec in H. destruct H as [[Hle Hl] Hu].
    assert (expiry = 2 ^ 31) as -> by lia. by rewrite Z.eqb_refl in Hl.
  - intros (-> & Hl & Hu). exists e, c, e1. rewrite Ec, Z.eqb_refl. done.
Qed.

(** who can spend a cold-staking output with a lock time below [2 ^ 31]: the
    staking key at any time through the first branch, the spending key through
    the second once the lock time has passed, and nobody else. *)
Theorem p2cs_spend (v : ScriptEnv) (sg staking_hash spending_hash s : bytes) (locktime : Z) :
  is_bytes sg -> is_bytes staking_hash -> zlen staking_hash = 20 ->
  is_bytes spending_hash -> zlen spending_hash = 20 -> 0 <= locktime < 2 ^ 31 ->
  build_p2cs staking_hash spending_hash locktime = Ok s ->
  is_ok (execute (new v) sg s) = true <->
  exists e c e1 st, run (new v) sg = Ok e /\ pop e = Ok (c, e1) /\
    if is_true c then unlocks staking_hash e1 st
    else locktime_passed v locktime /\ unlocks spending_hash e1 st.
Proof.
  intros Hs Hh1 Hz1 Hh2 Hz2 Ht Hb. rewrite build_p2cs_bytes in Hb by done. injection Hb as <-.
  rewrite (timeout_spend v sg (pkh_tail staking_hash) (spend_pkh staking_hash) locktime spending_hash);
    [|apply acts_pkh_tail|done|done|by apply wf_pkh_tail|done..|lia|done].
  rewrite (proj2 (Z.eqb_neq _ _)) by lia. split.
  - intros (e & c & e1 & He & Hp & H). destruct (is_true c) eqn:Ec.
    + destruct H as (e' & (st & Hu & _)%spend_pkh_true). exists e, c, e1, st. by rewrite Ec.
    + destruct H as ((_ & Hl) & st & Hu). exists e, c, e1, st. by rewrite Ec.
  - intros (e & c & e1 & st & He & Hp & H). exists e, c, e1. split; [done|]. split; [done|].
    destruct (is_true c).
    + exists (set_stack e1 (st ++ [[1]])). apply spend_pkh_true. by exists st.
    + destruct H as [Hl Hu]. split; [split; [lia|done]|by exists st].
Qed.

(** What a pay-to-script-hash script does. *)
Lemma run_p2sh h e :
  is_bytes h -> zlen h = 20 -> zlen (stack e) <= 600 ->
  run e (bytes_of (p2sh_items h)) =
  let* (x, e1) := pop e in Ok (push e1 (bool_to_bytes (bytes_eqb (Core.hash160 x) h))).
Proof.
  intros Hh Hz Hs. rewrite run_bytes_of.
  2: { repeat (apply Forall_cons; split); try constructor; unfold plain_byte, is_byte, MAX_PUSH_SIZE;
         try done; lia. }
  unfold p2sh_items. cbn [rfold]. rewrite run_item_op by (done || lia).
  change (exec_op 0xa9 e) with (let* (top, e) := pop e in Ok (push e (Core.hash160 top))).
  destruct (pop e) as [[x e1]| |] eqn:E1; simpl; [|done..]. apply pop_inv in E1 as [S1 E1].
  assert (zlen (stack e) = zlen (stack e1) + 1) by (rewrite S1; by autorewrite with zlen).
  rewrite run_item_push by (simpl; rewrite ?zlen_push; unfold MAX_STACK_DEPTH, MAX_SCRIPT_EXEC_STEPS; lia).
  simpl. rewrite run_item_op by (unfold MAX_SCRIPT_EXEC_STEPS; (done || lia)).
  change (exec_op 0x87 ?w) with
    (let* (b, e) := pop w in let* (a, e) := pop e in Ok (push e (bool_to_bytes (bytes_eqb a b)))).
  rewrite (pop_snoc _ (vec_push (stack e1) (Core.hash160 x)) h) by done. simpl.
  by rewrite (pop_snoc _ (stack e1) (Core.hash160 x)) by done.
Qed.

Lemma is_p2sh_bytes h : zlen h = 20 -> is_p2sh (bytes_of (p2sh_items h)) = true.
Proof.
  intros Hz. unfold bytes_of, p2sh_items. cbn [map concat item_bytes app].
  rewrite push_bytes_short, Hz by lia. unfold is_p2sh. autorewrite with zlen. rewrite Hz.
  rewrite !andb_true_iff, !bool_decide_eq_true. split_and!; [done..|].
  unfold vec_at. simpl. unfold zlen in Hz.
  change (Pos.to_nat 22) with 22%nat. simpl.
  rewrite lookup_app_r by lia. by replace (20 - length h)%nat with 0%nat by lia.
Qed.

(** who can spend a P2SH output.  The input script must leave on top a script
    of at most 10000 bytes whose hash is the one in the output, and that script,
    run on the rest of the stack, must succeed with a true value on top. *)
Theorem p2sh_spend (v : ScriptEnv) (sg h s : bytes) :
  is_bytes sg -> is_bytes h -> zlen h = 20 -> build_p2sh h = Ok s ->
  is_ok (execute (new v) sg s) = true <->
  exists e redeem e1 e2, run (new v) sg = Ok e /\ pop e = Ok (redeem, e1) /\
    Core.hash160 redeem = h /\ zlen redeem <= MAX_SCRIPT_SIZE /\
    run e1 redeem = Ok e2 /\ top_true e2 = true.
Proof.
  intros Hs Hh Hz Hb. rewrite build_p2sh_bytes in Hb by done. injection Hb as <-.
  unfold execute. change (mkEngine [] [] (env (new v))) with (new v).
  destruct (run (new v) sg) as [e| |] eqn:E; simpl; [|by split; [|intros (?&?&?&?&?&_)]..].
  destruct (run_sig_stack _ _ _ Hs E) as [Hst _]. rewrite run_p2sh, is_p2sh_bytes by done.
  destruct (pop e) as [[r e1]| |] eqn:Ep; simpl;
    [|by split; [|intros (?&?&?&?&[= <-]&E'&_); rewrite Ep in E']..].
  pose proof (pop_inv _ _ _ Ep) as [Sp E1]. unfold last. simpl. rewrite vec_last_push. simpl.
  destruct (bytes_eqb _ h) eqn:Eh; simpl.
  2: { split; [done|]. intros (?&?&?&?&[= <-]&E'&Hh'&_). rewrite Ep in E'. injection E' as <- <-.
       by rewrite Hh', bytes_eqb_refl in Eh. }
  apply bytes_eqb_eq in Eh. rewrite (pop_snoc _ (stack e1) r) by done. simpl.
  replace (set_stack _ (stack e1)) with e1 by (rewrite E1; done).
  unfold from_bytes. destruct (Z.ltb_spec MAX_SCRIPT_SIZE (zlen r)); simpl.
  { split; [done|]. intros (?&?&?&?&[= <-]&E'&_&?&_). rewrite Ep in E'. injection E' as <- <-. lia. }
  destruct (run e1 r) as [e2| |] eqn:Er; simpl;
    [|by split; [|intros (?&?&?&?&[= <-]&E'&_&_&Er'&_); rewrite Ep in E'; injection E' as <- <-; rewrite Er in Er']..].
  transitivity (top_true e2 = true).
  - unfold top_true. destruct (vec_last (stack e2)) as [x|]; simpl; [|done]. by destruct (is_true x).
  - split; [intros Ht; by exists e, r, e1, e2|].
    intros (?&?&?&?&[= <-]&E'&_&_&Er'&Ht). rewrite Ep in E'. injection E' as <- <-.
    rewrite Er in Er'. by injection Er' as <-.
Qed.

(** ** Multisignature *)

(** Each signature verifies under the key at its position. *)
Definition signed_by (e : Engine) (sigs keys : list bytes) : Prop :=
  Forall2 (fun s k => check_sig e s k = Ok tt) sigs keys.

Lemma is_ok_check e s k : is_ok (check_sig e s k) = true <-> check_sig e s k = Ok tt.
Proof. destruct (check_sig e s k) as [[]| |]; done. Qed.

Lemma find_key_Some e s keys keys' :
  find_key e s keys = Some keys' ->
  exists l k, keys = l ++ k :: keys' /\ check_sig e s k = Ok tt.
Proof.
  induction keys as [|k keys IH]; simpl; [done|]. destruct (is_ok _) eqn:E.
  - intros [= ->]. exists [], k. by rewrite <- is_ok_check.
  - intros (l & k' & -> & ?)%IH. by exists (k :: l), k'.
Qed.

(** The search stops at the latest at a key that matches. *)
Lemma find_key_before e s l k keys :
  check_sig e s k = Ok tt -> exists l', find_key e s (l ++ k :: keys) = Some (l' ++ keys).
Proof.
  intros H. induction l as [|k' l IH]; simpl.
  - exists []. by rewrite (proj2 (is_ok_check e s k) H).
  - destruct (is_ok _); [|done]. exists (l ++ [k]). by rewrite <- app_assoc.
Qed.

Lemma count_valid_le e sigs : forall keys, count_valid e sigs keys <= zlen sigs.
Proof.
  induction sigs as [|s sigs IH]; intros keys; simpl; [done|]. rewrite zlen_cons.
  destruct (find_key e s keys) as [keys'|]; [specialize (IH keys')|specialize (IH [])]; lia.
Qed.

(** The greedy search finds a matching whenever there is one. *)
Lemma count_valid_all e sigs : forall keys,
  zlen sigs <= count_valid e sigs keys <->
  exists ks, ks `sublist_of` keys /\ signed_by e sigs ks.
Proof.
  induction sigs as [|s sigs IH]; intros keys.
  { split; [|done]. intros _. exists []. split; [apply sublist_nil_l|constructor]. }
  cbn [count_valid]. rewrite zlen_cons. split.
  - intros H. destruct (find_key e s keys) as [keys'|] eqn:E.
    2: { pose proof (count_valid_le e sigs []). lia. }
    apply find_key_Some in E as (l & k & -> & Hk).
    destruct (proj1 (IH keys')) as (ks & Hsub & Hs); [lia|]. exists (k :: ks).
    split; [|by constructor]. apply sublist_inserts_l. by constructor.
  - intros (ks & Hsub & Hs). apply Forall2_cons_inv_l in Hs as (k & ks' & Hk & Hs & ->).
    apply sublist_cons_l in Hsub as (l & keys' & -> & Hsub).
    destruct (find_key_before e s l k keys' Hk) as [l' ->].
    assert (zlen sigs <= count_valid e sigs (l' ++ keys')); [|lia].
    apply IH. exists ks'. split; [by apply sublist_inserts_l|done].
Qed.

Lemma pop_n_spec l : forall st e,
  stack e = st ++ l -> pop_n (length l) e = Ok (rev l, set_stack e st).
Proof.
  induction l as [|x l IH] using rev_ind; intros st e E; simpl.
  - rewrite app_nil_r in E. by destruct e; simpl in *; subst.
  - rewrite length_app, Nat.add_comm. simpl. rewrite (pop_snoc e (st ++ l) x) by by rewrite E, app_assoc.
    simpl. rewrite (IH st) by done. simpl. by rewrite rev_unit.
Qed.

Lemma sublist_rev {A} (l k : list A) : l `sublist_of` k -> rev l `sublist_of` rev k.
Proof.
  induction 1; simpl; [done|by apply sublist_app|by apply sublist_inserts_r].
Qed.

Lemma signed_by_rev1 e sigs keys : signed_by e sigs keys -> signed_by e (rev sigs) (rev keys).
Proof. rewrite !rev_alt. apply Forall2_reverse. Qed.

Lemma signed_by_rev e sigs keys :
  (exists ks, ks `sublist_of` rev keys /\ signed_by e (rev sigs) ks) <->
  (exists ks, ks `sublist_of` keys /\ signed_by e sigs ks).
Proof.
  split; intros (ks & Hsub%sublist_rev & Hs%signed_by_rev1); exists (rev ks).
  - by rewrite !rev_involutive in *.
  - done.
Qed.

(** OP_CHECKMULTISIG is complete.  On a stack that ends in a dummy element,
    [m] signatures, the number [m], [n] keys and the number [n], with [m <= n],
    it consumes them all and pushes true exactly when some [m] of the keys, taken
    in order, verify the signatures one by one. *)
Theorem checkmultisig_complete (e : Engine) (st sigs keys : list bytes) (dummy mb nb : bytes) :
  stack e = (((st ++ [dummy]) ++ sigs) ++ [mb] ++ keys) ++ [nb] ->
  decode_script_num mb MAX_ARITH_NUM_LEN = Ok (zlen sigs) ->
  decode_script_num nb MAX_ARITH_NUM_LEN = Ok (zlen keys) ->
  zlen sigs <= zlen keys ->
  exists b, exec_checkmultisig false e = Ok (push (set_stack e st) (bool_to_bytes b)) /\
    (b = true <-> exists ks, ks `sublist_of` keys /\ signed_by e sigs ks).
Proof.
  intros E Hm Hn Hle. unfold exec_checkmultisig, pop_num.
  rewrite (pop_snoc _ _ _ E). simpl. rewrite Hn. simpl.
  pose proof (zlen_nonneg keys). pose proof (zlen_nonneg sigs). pose proof (zlen_nonneg st).
  rewrite (proj2 (Z.ltb_ge (zlen keys) 0)), (proj2 (Z.ltb_ge _ (zlen keys)))
    by (autorewrite with zlen; lia).
  cbn [orb]. unfold zlen at 1. rewrite Nat2Z.id.
  rewrite (pop_n_spec keys (((st ++ [dummy]) ++ sigs) ++ [mb])) by (simpl; by rewrite <- !app_assoc).
  simpl. erewrite pop_snoc by reflexivity. simpl. rewrite Hm. simpl.
  rewrite (proj2 (Z.ltb_ge (zlen sigs) 0)), (proj2 (Z.ltb_ge _ (zlen sigs)))
    by (autorewrite with zlen; lia).
  cbn [orb]. unfold zlen at 1. rewrite Nat2Z.id.
  rewrite (pop_n_spec sigs (st ++ [dummy])) by done. simpl. erewrite pop_snoc by reflexivity.
  rewrite (proj2 (Z.ltb_ge (zlen keys) (zlen sigs))) by done. simpl.
  eexists. split; [reflexivity|]. rewrite Z.leb_le, <- signed_by_rev.
  replace (zlen sigs) with (zlen (rev sigs)) by (unfold zlen; by rewrite length_rev).
  rewrite count_valid_all. done.
Qed.

End spending.

(** ** Classification against the builders *)

Lemma zlen_S_inv {A} (l : list A) n : zlen l = Z.of_nat (S n) -> exists x l', l = x :: l' /\ zlen l' = Z.of_nat n.
Proof.
  destruct l as [|x l]; [done|]. rewrite zlen_cons. intros H. exists x, l. split; [done|lia].
Qed.

Lemma zlen_0_inv {A} (l : list A) : zlen l = 0 -> l = [].
Proof. destruct l; [done|]. rewrite zlen_cons. pose proof (zlen_nonneg l). lia. Qed.

(** Split a list of literal length [n] into named elements. *)
Ltac split_list l n H :=
  lazymatch n with
  | O => apply zlen_0_inv in H; subst l
  | S ?m =>
      let x := fresh "x" in let l' := fresh "l" in let E := fresh "E" in
      destruct (zlen_S_inv l m H) as (x & l' & E & H'); subst l; clear H; rename H' into H;
      split_list l' m H
  end.

Lemma all_at_true b l : all_at b l = true <-> Forall (fun '(i, x) => vec_at b i = Some x) l.
Proof.
  unfold all_at. rewrite forallb_forall, Forall_forall. setoid_rewrite <- list_elem_of_In.
  split; intros H [i x] Hx; specialize (H _ Hx); simpl in *; unfold at_is in *;
    by rewrite bool_decide_eq_true in *.
Qed.

(** Read off the bytes a test of positions fixes. *)
Ltac read_at Hat :=
  apply all_at_true in Hat;
  repeat (let Hi := fresh in apply Forall_cons in Hat as [Hi Hat]; vm_compute in Hi;
          injection Hi as Hi; subst).

Lemma hash160_zlen `{CryptoLaws} x : zlen (Core.hash160 x) = 20.
Proof. unfold zlen. by rewrite Core.hash160_len. Qed.

Lemma from_bytes_small b : zlen b <= MAX_SCRIPT_SIZE -> from_bytes b = Ok b.
Proof. intros Hb. unfold from_bytes. by rewrite (proj2 (Z.ltb_ge _ _)). Qed.

Lemma classify_p2pkh b :
  classify_script b = P2PKH <-> exists h, zlen h = 20 /\ build_p2pkh h = Ok b.
Proof.
  split.
  - unfold classify_script. destruct (_ && _) eqn:E; [|repeat case_match; done]. intros _.
    apply andb_true_iff in E as [Hz%Z.eqb_eq Hat]. change 25 with (Z.of_nat 25) in Hz.
    split_list b 25%nat Hz. read_at Hat.
    eexists [_;_;_;_;_;_;_;_;_;_;_;_;_;_;_;_;_;_;_;_]. split; [done|]. by vm_compute.
  - intros (h & Hz & Hb). change 20 with (Z.of_nat 20) in Hz. split_list h 20%nat Hz.
    vm_compute in Hb. injection Hb as <-. done.
Qed.

Lemma classify_p2sh b :
  classify_script b = P2SH <-> exists h, zlen h = 20 /\ build_p2sh h = Ok b.
Proof.
  split.
  - unfold classify_script. case_match; [done|]. destruct ((zlen b =? 23) && _) eqn:E; [|repeat case_match; done].
    intros _. apply andb_true_iff in E as [Hz%Z.eqb_eq Hat]. change 23 with (Z.of_nat 23) in Hz.
    split_list b 23%nat Hz. read_at Hat.
    eexists [_;_;_;_;_;_;_;_;_;_;_;_;_;_;_;_;_;_;_;_]. split; [done|]. by vm_compute.
  - intros (h & Hz & Hb). change 20 with (Z.of_nat 20) in Hz. split_list h 20%nat Hz.
    vm_compute in Hb. injection Hb as <-. done.
Qed.

(** [parse_p2cs] inverts [build_p2cs]. *)
Lemma parse_p2cs_build h1 h2 t b :
  is_bytes b ->
  parse_p2cs b = Some (h1, h2, t) <->
  zlen h1 = 20 /\ zlen h2 = 20 /\ 0 <= t < 2 ^ 32 /\ build_p2cs h1 h2 t = Ok b.
Proof.
  intros Hb. split.
  - unfold parse_p2cs. destruct (negb _) eqn:Hz; [done|]. apply negb_false_iff, Z.eqb_eq in Hz.
    destruct (negb _) eqn:A1; [done|]. destruct (negb (all_at _ [(24, _); _; _; _])) eqn:A2; [done|].
    destruct (negb (all_at _ [(32, _); _; _; _; _])) eqn:A3; [done|].
    destruct (negb (all_at _ [(57, _); _; _])) eqn:A4; [done|].
    apply negb_false_iff in A1, A2, A3, A4. intros [= <- <- <-].
    change 60 with (Z.of_nat 60) in Hz. split_list b 60%nat Hz.
    read_at A1. read_at A2. read_at A3. read_at A4.
    match goal with |- context [from_le ?l] => set (lt := l) end. cbv in lt.
    assert (Hlt : is_bytes lt).
    { subst lt. repeat (apply Forall_cons in Hb as [? Hb]). repeat (apply Forall_cons; split); done. }
    split; [done|]. split; [done|]. split; [by apply from_le_bound|].
    rewrite build_p2cs_bytes by done. unfold bytes_of, timeout_items, le32.
    pose proof (to_le_from_le lt Hlt) as E. change (length lt) with 4%nat in E. by rewrite E.
  - intros (Hz1 & Hz2 & Ht & E). rewrite build_p2cs_bytes in E by done. injection E as <-.
    pose proof (from_le_to_le 4 t ltac:(done)) as Hv. unfold timeout_items, le32.
    pose proof (zlen_to_le 4 t) as Hz. generalize dependent (to_le 4 t). intros l <- Hz.
    change 20 with (Z.of_nat 20) in *.
    split_list h1 20%nat Hz1. split_list h2 20%nat Hz2. split_list l 4%nat Hz. done.
Qed.

Lemma parse_p2cs_Some b r :
  parse_p2cs b = Some r -> zlen b = 60 /\ vec_at b 0 = Some 0x63.
Proof.
  unfold parse_p2cs. destruct (negb _) eqn:Hz; [done|]. apply negb_false_iff, Z.eqb_eq in Hz.
  destruct (negb _) eqn:A1; [done|]. intros _. split; [done|].
  apply negb_false_iff, all_at_true in A1. by apply Forall_cons in A1 as [? _].
Qed.

Lemma classify_p2cs b h1 h2 t :
  classify_script b = P2CS h1 h2 t <-> parse_p2cs b = Some (h1, h2, t).
Proof.
  split.
  - unfold classify_script. repeat case_match; try done. by intros [= -> -> ->].
  - intros H. destruct (parse_p2cs_Some _ _ H) as [Hz H0].
    assert (parse_p2ms b = None) as Hm.
    { unfold parse_p2ms. rewrite H0. repeat case_match; done. }
    assert (at_is b 0 0x6a = false) as Hr by (unfold at_is; rewrite H0; done).
    unfold classify_script. rewrite Hm, H, Hr, Hz. done.
Qed.

(** [classify_script] recognises exactly what the builders produce.  A script
    is classified P2PKH, P2SH or P2CS if and only if it is the script built for
    some hash (and for P2CS exactly the two hashes and the lock time reported). *)
Theorem classify_exact (b : Script) :
  is_bytes b ->
  (classify_script b = P2PKH <-> exists h, zlen h = 20 /\ build_p2pkh h = Ok b) /\
  (classify_script b = P2SH <-> exists h, zlen h = 20 /\ build_p2sh h = Ok b) /\
  (forall h1 h2 t, classify_script b = P2CS h1 h2 t <->
     zlen h1 = 20 /\ zlen h2 = 20 /\ 0 <= t < 2 ^ 32 /\ build_p2cs h1 h2 t = Ok b).
Proof.
  intros Hb. split; [apply classify_p2pkh|]. split; [apply classify_p2sh|]. intros h1 h2 t.
  by rewrite classify_p2cs, parse_p2cs_build.
Qed.

(** The key loop writes one push per key. *)
Lemma p2ms_keys_bytes keys : forall s,
  Forall (fun k => zlen k <= 520) keys ->
  rfold p2ms_push_key s keys = Ok (s ++ concat (map push_bytes keys)).
Proof.
  induction keys as [|k keys IH]; intros s Hk; simpl; [by rewrite app_nil_r|].
  apply Forall_cons in Hk as [Hk Hks]. unfold p2ms_push_key at 1.
  rewrite (proj2 (Z.ltb_ge _ _)), push_data_ser_bytes by done. simpl.
  rewrite IH by done. by rewrite <- app_assoc.
Qed.

Lemma at_is_head x l c : at_is (x :: l) 0 c = (x =? c).
Proof.
  unfold at_is. destruct (Z.eqb_spec x c) as [-> | Hne]; [by apply bool_decide_eq_true|].
  apply bool_decide_eq_false. by intros [= ?].
Qed.

Lemma all_at_head x l c q : x <> c -> all_at (x :: l) ((0, c) :: q) = false.
Proof. intros H. unfold all_at. simpl. by rewrite at_is_head, (proj2 (Z.eqb_neq _ _)). Qed.

Lemma push_int_small s k : 1 <= k <= 15 -> push_int s k = s ++ [0x50 + k].
Proof.
  intros Hr. unfold push_int. rewrite (proj2 (Z.eqb_neq _ _)), (proj2 (Z.leb_le 1 k)) by lia.
  by rewrite (proj2 (Z.leb_le k 16)) by lia.
Qed.

Lemma parse_p2ms_shape m n ks :
  1 <= m <= n -> n <= 16 ->
  parse_p2ms (0x50 + m :: ks ++ [0x50 + n; 0xae]) = Some (m, n).
Proof.
  intros Hm Hn. set (b := 0x50 + m :: ks ++ [0x50 + n; 0xae]).
  assert (Hl : vec_last b = Some 0xae).
  { replace b with (vec_push (0x50 + m :: ks ++ [0x50 + n]) 0xae); [apply vec_last_push|].
    unfold vec_push, b. simpl. by rewrite <- app_assoc. }
  assert (Hz : zlen b = zlen ks + 3) by (unfold b; autorewrite with zlen; lia).
  pose proof (zlen_nonneg ks). unfold parse_p2ms. rewrite Hl, Hz.
  change (vec_at b 0) with (Some (0x50 + m)).
  assert (vec_at b (zlen ks + 3 - 2) = Some (0x50 + n)) as ->.
  { unfold vec_at. rewrite (proj2 (Z.leb_le _ _)) by lia.
    replace (Z.to_nat (zlen ks + 3 - 2)) with (length (80 + m :: ks)) by (unfold zlen; simpl; lia).
    unfold b. rewrite app_comm_cons. by rewrite list_lookup_middle. }
  rewrite (proj2 (Z.leb_le 3 _)), (proj2 (Z.leb_le 0x51 (0x50 + m))), (proj2 (Z.leb_le (0x50 + m) 0x60)),
    (proj2 (Z.leb_le 0x51 _)), (proj2 (Z.leb_le _ 0x60)) by lia. cbn [negb andb].
  change (0xae =? 0xae) with true. cbn [negb].
  rewrite (proj2 (Z.leb_le _ _)) by lia. do 2 f_equal; lia.
Qed.

(** The multisignature builder.  For [1 <= m <= n <= 15] keys of at most 520
    bytes it succeeds and the result is classified as that [m]-of-[n]. *)
Theorem build_p2ms_classified (m : Z) (keys : list bytes) :
  1 <= m <= zlen keys -> zlen keys <= 15 -> Forall (fun k => zlen k <= 520) keys ->
  exists s, build_p2ms m keys = Ok s /\ classify_script s = P2MS m (zlen keys).
Proof.
  intros Hm Hn Hk. unfold build_p2ms, as_u8. rewrite Z.mod_small by lia.
  rewrite (proj2 (Z.ltb_ge _ m)), (proj2 (Z.ltb_ge 15 _)) by lia.
  rewrite p2ms_keys_bytes by done. simpl. eexists. split; [reflexivity|].
  rewrite !push_int_small by lia. unfold push_opcode, vec_push. cbn [app].
  rewrite <- app_assoc. cbn [app]. unfold classify_script.
  rewrite !all_at_head, at_is_head by lia. rewrite !andb_false_r, (proj2 (Z.eqb_neq _ 0x6a)) by lia.
  rewrite andb_false_r. cbn [orb]. by rewrite parse_p2ms_shape by lia.
Qed.

Lemma classify_op_return l : classify_script (0x6a :: l) = OpReturn.
Proof.
  unfold classify_script. rewrite !all_at_head, at_is_head, zlen_cons by done.
  pose proof (zlen_nonneg l). rewrite !andb_false_r, (proj2 (Z.eqb_neq _ 0)) by lia. done.
Qed.

Lemma op_return_head s : classify_script s = OpReturn -> exists l, s = 0x6a :: l.
Proof.
  unfold classify_script. repeat case_match; try done. intros _.
  match goal with H : _ && _ = true |- _ => apply andb_prop in H as [_ H%bool_decide_eq_true] end.
  destruct s as [|x l]; [done|]. exists l. by match goal with H : vec_at _ _ = _ |- _ => injection H as -> end.
Qed.

(** The engine stops at the first item of a data carrier. *)
Lemma op_return_fails `{Crypto} e sig s e' : classify_script s = OpReturn -> execute e sig s <> Ok e'.
Proof.
  intros [l ->]%op_return_head. unfold execute. destruct (run _ sig) as [e1| |]; [|done..]. cbn [rbind].
  assert (Hi : forall its, items (0x6a :: l) = Ok its -> exists its', its = Opcode 0x6a :: its').
  { intros its. unfold items, iter. cbn [collect]. assert (next (mkIter (0x6a :: l) 0) =
      Ok (Some (Opcode 0x6a, mkIter (0x6a :: l) 1))) as ->.
    { unfold next. cbn [it_data it_pos]. rewrite zlen_cons. pose proof (zlen_nonneg l).
      by rewrite (proj2 (Z.leb_gt _ 0)) by lia. }
    cbn [rbind]. destruct (collect _ _); [|done..]. intros [= <-]. eauto. }
  unfold run at 1. destruct (validate (0x6a :: l)); [|done..]. cbn [rbind].
  destruct (items (0x6a :: l)) as [its| |]; [|done..]. by destruct (Hi its eq_refl) as [its' ->].
Qed.

(** The data carrier.  Nothing but the size limit of 80 bytes stops
    [build_op_return], its [unwrap] never panics, and the result is recognised. *)
Theorem build_op_return_classified (data : bytes) :
  if 80 <? zlen data then build_op_return data = Err (PushTooLarge (zlen data))
  else exists s, build_op_return data = Ok s /\ classify_script s = OpReturn.
Proof.
  unfold build_op_return. destruct (Z.ltb_spec 80 (zlen data)) as [|Hd]; [done|].
  destruct (negb _).
  - rewrite push_data_bytes by (unfold MAX_PUSH_SIZE; lia). eexists. split; [done|]. apply classify_op_return.
  - eexists. split; [done|]. apply classify_op_return.
Qed.

(** The key count of [build_p2ms] is taken modulo 256: 257 keys pass the
    check against 15, although the documentation promises an error. *)
Theorem build_p2ms_key_count_wraps (k : bytes) :
  zlen k <= 75 -> is_ok (build_p2ms 1 (repeat k 257)) = true.
Proof.
  intros Hk. unfold build_p2ms. change (as_u8 (zlen (repeat k 257))) with 1.
  change (1 <? 1) with false. change (15 <? 1) with false. cbv iota.
  rewrite p2ms_keys_bytes; [done|]. apply Forall_forall. intros x Hx%list_elem_of_In%repeat_spec.
  subst. lia.
Qed.

(** ** Witnesses *)

Module StandardWitness.

Definition v0 : ScriptEnv := mkEnv [] 0 600000000 600000000 0 0 0.
Definition key : bytes := [7].
Definition h0 : bytes := Core.hash160 key.

(** Pushes of a signature by [key] and of [key]. *)
Definition unlock : bytes := [2; 7; 1; 1; 7].

Lemma h0_bytes : is_bytes h0.
Proof. apply is_bytes_check. by vm_compute. Qed.

Lemma p2pkh_spend_witness :
  exists s, build_p2pkh h0 = Ok s /\ is_ok (execute (new v0) unlock s) = true.
Proof.
  eexists. split; [vm_compute; reflexivity|].
  apply (p2pkh_spend v0 unlock h0); [by apply is_bytes_check|apply h0_bytes|done|done|].
  eexists _, []. split; [vm_compute; reflexivity|]. exists [7; 1], [7]. by vm_compute.
Defined.

Lemma htlc_spend_witness :
  exists s, build_htlc (sha256 [5]) h0 h0 500000000 = Ok s /\
            is_ok (execute (new v0) (unlock ++ [0x00]) s) = true.
Proof.
  eexists. split; [vm_compute; reflexivity|].
  apply (htlc_spend v0 (unlock ++ [0x00]) (sha256 [5]) h0 h0 _ 500000000);
    try apply h0_bytes; try done; [by apply is_bytes_check|by apply is_bytes_check|].
  eexists _, _, _. split; [vm_compute; reflexivity|]. split; [vm_compute; reflexivity|].
  simpl. split; [unfold locktime_passed; simpl; split; [done|lia]|].
  exists [], [7; 1], [7]. by vm_compute.
Defined.

Lemma htlc_expiry_sign_bit_witness :
  exists s, build_htlc (sha256 [5]) h0 h0 (2 ^ 31 + 7) = Ok s /\
            is_ok (execute (new v0) (unlock ++ [0x00]) s) <> true.
Proof.
  eexists. split; [vm_compute; reflexivity|]. intros H.
  assert (Hsg : is_bytes (unlock ++ [0x00])) by by apply is_bytes_check.
  assert (Hph : is_bytes (sha256 [5])) by (apply is_bytes_check; by vm_compute).
  pose proof (htlc_expiry_sign_bit v0 (unlock ++ [0x00]) (sha256 [5]) h0 h0 _ (2 ^ 31 + 7)
    Hsg Hph eq_refl h0_bytes eq_refl h0_bytes eq_refl ltac:(lia) ltac:(vm_compute; reflexivity)
    (mkEngine [[7; 1]; [7]; []] [] v0) [] (mkEngine [[7; 1]; [7]] [] v0)
    ltac:(vm_compute; reflexivity) eq_refl eq_refl) as Hiff.
  apply Hiff in H as [H _]. lia.
Defined.

Lemma p2cs_spend_witness :
  exists s, build_p2cs h0 h0 500000000 = Ok s /\
            is_ok (execute (new v0) (unlock ++ [0x51]) s) = true.
Proof.
  eexists. split; [vm_compute; reflexivity|].
  apply (p2cs_spend v0 (unlock ++ [0x51]) h0 h0 _ 500000000);
    try apply h0_bytes; try done; [by apply is_bytes_check|].
  eexists _, _, _, []. split; [vm_compute; reflexivity|]. split; [vm_compute; reflexivity|].
  exists [7; 1], [7]. by vm_compute.
Defined.

Lemma p2sh_spend_witness :
  exists s, build_p2sh (Core.hash160 [0x51]) = Ok s /\
            is_ok (execute (new v0) [1; 0x51] s) = true.
Proof.
  eexists. split; [vm_compute; reflexivity|].
  apply (p2sh_spend v0 [1; 0x51] (Core.hash160 [0x51])); [by apply is_bytes_check..|done|done|].
  eexists _, _, _, _. split; [vm_compute; reflexivity|]. split; [vm_compute; reflexivity|].
  split; [done|]. split; [done|]. split; [vm_compute; reflexivity|done].
Defined.

(** Two of three keys sign, in order. *)
Lemma checkmultisig_complete_witness :
  exists b, exec_checkmultisig false
      (mkEngine [[]; [7; 1]; [9; 1]; [2]; [7]; [8]; [9]; [3]] [] v0) =
    Ok (push (mkEngine [] [] v0) (bool_to_bytes b)) /\
    (b = true <-> exists ks, ks `sublist_of` [[7]; [8]; [9]] /\
       signed_by (mkEngine [[]; [7; 1]; [9; 1]; [2]; [7]; [8]; [9]; [3]] [] v0) [[7; 1]; [9; 1]] ks).
Proof.
  by apply (checkmultisig_complete (mkEngine [[]; [7; 1]; [9; 1]; [2]; [7]; [8]; [9]; [3]] [] v0)
           [] [[7; 1]; [9; 1]] [[7]; [8]; [9]] [] [2] [3]).
Defined.

Lemma classify_exact_witness :
  exists b, build_p2cs h0 h0 500 = Ok b /\ classify_script b = P2CS h0 h0 500.
Proof.
  eexists. split; [vm_compute; reflexivity|].
  match goal with |- classify_script ?b = _ => assert (Hb : is_bytes b) by by apply is_bytes_check end.
  apply (classify_exact _ Hb). split; [done|]. split; [done|].
  split; [lia|by vm_compute].
Defined.

Lemma build_p2ms_classified_witness :
  exists s, build_p2ms 2 [[7]; [8]; [9]] = Ok s /\ classify_script s = P2MS 2 3.
Proof.
  apply (build_p2ms_classified 2 [[7]; [8]; [9]]); [by vm_compute|by vm_compute|].
  by repeat constructor.
Defined.

Lemma build_p2ms_key_count_wraps_witness : is_ok (build_p2ms 1 (repeat [2; 3] 257)) = true.
Proof. by apply (build_p2ms_key_count_wraps [2; 3]). Defined.

End StandardWitness.
