(* ===== verification/Merkle.v ===== *)
(** * Merkle trees

    Models [vtorrent-spv/src/merkle.rs] (the tree with all its levels, the builder
    that reuses its buffers, inclusion proofs and their verification) and the
    in-place reduction [compute_merkle_root_from_txids] of
    [vtorrent-node/src/block.rs].  The three constructions give the same root;
    every generated proof verifies; and where the hash does not collide, a proof of the
    right depth verifies only for a value of the tree. *)

From stdpp Require Import base list.
From Stdlib Require Import ZArith Lia.
From S2P Require Import Prelude Crypto.

Inductive SpvError : Type := InvalidMerkleProof.

Definition hash_zero : bytes := repeat 0 32.

Section merkle.
Context {C : Crypto}.

(** [combine]: the parent of two nodes. *)
Definition combine (left right : bytes) : bytes := sha256 (sha256 (left ++ right)).

(** ** The tree *)

(** One pass of the inner [while]: a last node without a partner is paired with
    itself. *)
Fixpoint next_level (current : list bytes) : list bytes :=
  match current with
  | [] => []
  | [l] => [combine l l]
  | l :: r :: rest => combine l r :: next_level rest
  end.

Record MerkleTree : Type := mkTree { levels : list (list bytes) }.

(** The [loop] of [build]: levels are added until one has a single node. *)
Fixpoint build_levels (fuel : nat) (current : list bytes) : list (list bytes) :=
  match fuel with
  | O => [current]
  | S fuel =>
      if (length current =? 1)%nat then [current]
      else current :: build_levels fuel (next_level current)
  end.

(** [MerkleTree::build]. *)
Definition build (txids : list bytes) : MerkleTree :=
  match txids with
  | [] => mkTree [[hash_zero]]
  | _ => mkTree (build_levels (length txids) txids)
  end.

(** [MerkleTree::root]. *)
Definition root (t : MerkleTree) : res SpvError bytes :=
  let* top := unwrap (vec_last (levels t)) in
  unwrap (head top).

Record ProofNode : Type := mkNode { node_hash : bytes; is_left : bool }.

Record MerkleProof : Type := mkProof {
  proof_txid : bytes;
  proof_index : nat;
  siblings : list ProofNode;
  proof_root : bytes;
}.

(** The [for level in ..] loop of [proof]. *)
Fixpoint proof_path (lv : list (list bytes)) (current_index : nat) : res SpvError (list ProofNode) :=
  match lv with
  | [] => Ok []
  | level :: lv =>
      let sibling_index :=
        if (current_index mod 2 =? 0)%nat
        then Nat.min (current_index + 1) (length level - 1)
        else (current_index - 1)%nat in
      let* h := unwrap (level !! sibling_index) in
      let* rest := proof_path lv (current_index / 2) in
      Ok (mkNode h (current_index mod 2 =? 1)%nat :: rest)
  end.

(** [MerkleTree::proof]. *)
Definition proof (t : MerkleTree) (index : nat) : res SpvError (option MerkleProof) :=
  match levels t with
  | [] => Ok None
  | leaves :: _ =>
      match leaves !! index with
      | None => Ok None
      | Some txid =>
          let* sib := proof_path (take (length (levels t) - 1) (levels t)) index in
          let* r := root t in
          Ok (Some (mkProof txid index sib r))
      end
  end.

(** [MerkleProof::verify]. *)
Definition climb (current : bytes) (node : ProofNode) : bytes :=
  if is_left node then combine (node_hash node) current else combine current (node_hash node).

Definition verify (p : MerkleProof) (expected_root : bytes) : res SpvError unit :=
  if bytes_eqb (fold_left climb (siblings p) (proof_txid p)) expected_root
  then Ok tt else Err InvalidMerkleProof.

(** [MerkleProof::verify_self]. *)
Definition verify_self (p : MerkleProof) : res SpvError unit := verify p (proof_root p).

(** ** The builder that keeps its buffers *)

(** The [loop] of [MerkleScratch::build], from level [li]; what the levels above
    hold from an earlier build is overwritten. *)
Fixpoint scratch_loop (fuel : nat) (lv : list (list bytes)) (li : nat)
    : res SpvError (list (list bytes) * nat) :=
  match fuel with
  | O => Panic
  | S fuel =>
      let* current := unwrap (lv !! li) in
      if (length current =? 1)%nat then Ok (lv, li) else
      let lv := if (length lv =? li + 1)%nat then lv ++ [[]] else lv in
      scratch_loop fuel (<[S li := next_level current]> lv) (S li)
  end.

(** [MerkleScratch::root]. *)
Definition scratch_root (t : MerkleTree) : bytes :=
  match vec_last (levels t) with
  | Some (h :: _) => h
  | _ => hash_zero
  end.

(** [MerkleScratch::build]: the new buffers and the root. *)
Definition scratch_build (t : MerkleTree) (leaves : list bytes) : res SpvError (MerkleTree * bytes) :=
  match leaves with
  | [] => Ok (mkTree [[hash_zero]], hash_zero)
  | _ =>
      let lv := match levels t with [] => [[]] | lv => lv end in
      let* (lv, li) := scratch_loop (S (length leaves)) (<[0%nat := leaves]> lv) 0 in
      let t := mkTree (take (li + 1) lv) in
      Ok (t, scratch_root t)
  end.

(** [MerkleScratch::proof]. *)
Definition scratch_proof (t : MerkleTree) (index : nat) : res SpvError (option MerkleProof) :=
  match levels t with
  | [] => Ok None
  | leaves :: _ =>
      match leaves !! index with
      | None => Ok None
      | Some txid =>
          let* sib := proof_path (take (length (levels t) - 1) (levels t)) index in
          Ok (Some (mkProof txid index sib (scratch_root t)))
      end
  end.

(** ** The in-place reduction *)

(** [for i in 0..half]: node [i] is overwritten with the parent of nodes [2 i]
    and [2 i + 1] of the buffer as it is at that moment. *)
Fixpoint reduce_loop (n i : nat) (buf : list bytes) : res SpvError (list bytes) :=
  match n with
  | O => Ok buf
  | S n =>
      let* l := unwrap (buf !! (i * 2)%nat) in
      let* r := unwrap (buf !! (i * 2 + 1)%nat) in
      let* _ := unwrap (buf !! i) in
      reduce_loop n (S i) (<[i := combine l r]> buf)
  end.

(** The [while len > 1] loop. *)
Fixpoint merkle_loop (fuel : nat) (buf : list bytes) (len : nat) : res SpvError (list bytes) :=
  match fuel with
  | O => Panic
  | S fuel =>
      if (len <=? 1)%nat then Ok buf else
      let* (buf, len) :=
        if (len mod 2 =? 1)%nat then
          let* duplicate := unwrap (buf !! (len - 1)%nat) in
          if (length buf =? len)%nat then Ok (buf ++ [duplicate], S len)
          else let* _ := unwrap (buf !! len) in Ok (<[len := duplicate]> buf, S len)
        else Ok (buf, len) in
      let* buf := reduce_loop (len / 2) 0 buf in
      merkle_loop fuel buf (len / 2)
  end.

(** [compute_merkle_root_from_txids]. *)
Definition compute_merkle_root_from_txids (txids : list bytes) : res SpvError bytes :=
  match txids with
  | [] => Ok hash_zero
  | _ =>
      let* buf := merkle_loop (S (length txids)) txids (length txids) in
      unwrap (buf !! 0%nat)
  end.

(** ** Levels *)

Lemma pair_ind {A} (P : list A -> Prop) :
  P [] -> (forall x, P [x]) -> (forall x y l, P l -> P (x :: y :: l)) -> forall l, P l.
Proof.
  intros H0 H1 H2 l. enough (P l /\ forall x, P (x :: l)) by tauto.
  induction l as [|y l [IH IHc]]; auto.
Qed.

Lemma next_level_length l : length (next_level l) = ((length l + 1) / 2)%nat.
Proof.
  induction l as [|x|x y l IH] using pair_ind; [done..|].
  cbn [next_level length]. rewrite IH.
  replace (S (S (length l)) + 1)%nat with (1 * 2 + (length l + 1))%nat by lia.
  by rewrite Nat.div_add_l by lia.
Qed.

Lemma next_level_shrinks l : (1 < length l -> 0 < length (next_level l) < length l)%nat.
Proof.
  intros H. rewrite next_level_length. split; [apply Nat.div_str_pos; lia|].
  apply Nat.Div0.div_lt_upper_bound; lia.
Qed.

(** The node at the top: the reference definition of the root. *)
Fixpoint top_node (fuel : nat) (l : list bytes) : bytes :=
  match fuel, l with
  | _, [] => hash_zero
  | _, [x] => x
  | O, x :: _ => x
  | S fuel, l => top_node fuel (next_level l)
  end.

Definition tree_root (l : list bytes) : bytes := top_node (length l) l.

Lemma top_node_enough f1 f2 l :
  (length l <= f1)%nat -> (length l <= f2)%nat -> top_node f1 l = top_node f2 l.
Proof.
  revert f2 l; induction f1 as [|f1 IH]; intros [|f2] l H1 H2; try (by destruct l; simpl in *; [|lia]).
  destruct l as [|x [|y l]]; [done..|]. cbn [top_node].
  pose proof (next_level_shrinks (x :: y :: l) ltac:(simpl; lia)). apply IH; simpl in *; lia.
Qed.

Lemma tree_root_unfold l : (1 < length l)%nat -> tree_root l = tree_root (next_level l).
Proof.
  intros H. unfold tree_root. destruct l as [|x [|y l]]; [simpl in H; lia..|].
  pose proof (next_level_shrinks (x :: y :: l) H).
  change (length (x :: y :: l)) with (S (S (length l))) in *.
  change (top_node (S (S (length l))) (x :: y :: l))
    with (top_node (S (length l)) (next_level (x :: y :: l))).
  apply top_node_enough; lia.
Qed.

Lemma vec_last_cons {A} (x : A) l : l <> [] -> vec_last (x :: l) = vec_last l.
Proof.
  intros H. unfold vec_last. simpl. destruct (rev l) as [|y r] eqn:E; [|done].
  apply (f_equal (@rev A)) in E. rewrite rev_involutive in E. done.
Qed.

(** The levels of a tree: they start with the leaves and end with the root. *)
Lemma build_levels_last fuel : forall l,
  l <> [] -> (length l <= fuel)%nat -> vec_last (build_levels fuel l) = Some [tree_root l].
Proof.
  induction fuel as [|fuel IH]; intros l Hl Hf; [by destruct l; simpl in *; [|lia]|].
  cbn [build_levels]. destruct (Nat.eqb_spec (length l) 1) as [E|E].
  - destruct l as [|x [|? ?]]; done.
  - assert (1 < length l)%nat by (destruct l; simpl in *; [done|lia]).
    pose proof (next_level_shrinks l ltac:(done)) as Hn.
    rewrite vec_last_cons by (destruct fuel; simpl; [done|case_match; done]).
    rewrite IH; [by rewrite <- tree_root_unfold| |lia].
    intros En. rewrite En in Hn. simpl in Hn. lia.
Qed.

Lemma root_build l : l <> [] -> root (build l) = Ok (tree_root l).
Proof.
  intros Hl. unfold root, build. destruct l as [|x l]; [done|].
  cbn [levels]. by rewrite build_levels_last.
Qed.

(** ** The in-place reduction computes a level *)

Lemma reduce_loop_spec n : forall i buf,
  ((i + n) * 2 <= length buf)%nat ->
  exists buf', reduce_loop n i buf = Ok buf' /\ length buf' = length buf /\
    take i buf' = take i buf /\
    take n (drop i buf') = next_level (take (n * 2) (drop (i * 2) buf)).
Proof.
  induction n as [|n IH]; intros i buf Hlen; [by exists buf|].
  cbn [reduce_loop].
  destruct (lookup_lt_is_Some_2 buf (i * 2)) as [x Hx]; [lia|].
  destruct (lookup_lt_is_Some_2 buf (i * 2 + 1)) as [y Hy]; [lia|].
  destruct (lookup_lt_is_Some_2 buf i) as [z Hz]; [lia|].
  rewrite Hx, Hy, Hz. simpl.
  destruct (IH (S i) (<[i := combine x y]> buf)) as (buf' & -> & Hl & Ht & Hd);
    [rewrite length_insert; lia|].
  rewrite length_insert in Hl. exists buf'. split; [done|]. split; [done|].
  assert (Hi : buf' !! i = Some (combine x y)).
  { rewrite <- (lookup_take_lt buf' (S i)), Ht by lia. rewrite lookup_take_lt by lia.
    apply list_lookup_insert_eq. lia. }
  split.
  - apply (f_equal (take i)) in Ht. rewrite !take_take in Ht.
    rewrite !Nat.min_l in Ht by lia. by rewrite take_insert_ge in Ht by lia.
  - rewrite (drop_S buf' (combine x y) i) by done. cbn [take]. rewrite Hd.
    rewrite drop_insert_lt by lia.
    rewrite (drop_S buf x (i * 2)) by done.
    by rewrite (drop_S buf y (S (i * 2))) by (rewrite <- Hy; f_equal; lia).
Qed.

(** A last node without a partner may as well be written twice. *)
Lemma next_level_dup l x : Nat.Even (length l) -> next_level (l ++ [x]) = next_level (l ++ [x; x]).
Proof.
  induction l as [|y|y z l IH] using pair_ind; [done|by intros [[] ?]; simpl in *; lia|].
  intros [k Hk]. cbn [app next_level]. rewrite IH; [done|]. exists (k - 1)%nat. simpl in Hk. lia.
Qed.

(** The padding step: the first [len] nodes, an odd count, with the last one twice. *)
Lemma pad_spec buf len :
  (0 < len <= length buf)%nat -> (len mod 2 = 1)%nat ->
  exists buf',
    (let* duplicate := unwrap (buf !! (len - 1)%nat) in
     if (length buf =? len)%nat then Ok (buf ++ [duplicate], S len)
     else let* _ := unwrap (buf !! len) in Ok (<[len := duplicate]> buf, S len))
    = Ok (E:=SpvError) (buf', S len) /\
    (S len <= length buf')%nat /\ next_level (take (S len) buf') = next_level (take len buf).
Proof.
  intros Hlen Hodd. destruct (lookup_lt_is_Some_2 buf (len - 1)) as [d Hd]; [lia|]. rewrite Hd. simpl.
  assert (Hev : Nat.Even (len - 1)).
  { exists (len / 2)%nat. pose proof (Nat.div_mod_eq len 2). lia. }
  assert (Htl : take len buf = take (len - 1) buf ++ [d]).
  { replace len with (S (len - 1)) at 1 by lia. by apply take_S_r. }
  assert (Hdup : forall b, take (S len) b = take (len - 1) buf ++ [d; d] ->
    next_level (take (S len) b) = next_level (take len buf)).
  { intros b ->. rewrite Htl. symmetry. apply next_level_dup. rewrite length_take_le by lia. done. }
  destruct (Nat.eqb_spec (length buf) len) as [E|E].
  - eexists. split; [done|]. rewrite length_app. simpl. split; [lia|]. apply Hdup.
    rewrite take_ge by (rewrite length_app; simpl; lia).
    rewrite <- (take_ge buf len) at 1 by lia. rewrite Htl. by rewrite <- app_assoc.
  - destruct (lookup_lt_is_Some_2 buf len) as [z Hz]; [lia|]. rewrite Hz. simpl.
    eexists. split; [done|]. rewrite length_insert. split; [lia|]. apply Hdup.
    rewrite (take_S_r _ _ d) by (apply list_lookup_insert_eq; lia).
    rewrite take_insert_ge by lia. rewrite Htl. by rewrite <- app_assoc.
Qed.

Lemma merkle_loop_spec fuel : forall buf len,
  (0 < len <= length buf)%nat -> (len < fuel)%nat ->
  exists buf', merkle_loop fuel buf len = Ok buf' /\ buf' !! 0%nat = Some (tree_root (take len buf)).
Proof.
  induction fuel as [|fuel IH]; intros buf len Hlen Hf; [lia|]. cbn [merkle_loop].
  destruct (Nat.leb_spec len 1) as [H1|H1].
  { assert (len = 1)%nat as -> by lia. exists buf. split; [done|]. destruct buf; simpl in *; [lia|done]. }
  assert (exists buf1 len1,
    (if (len mod 2 =? 1)%nat then
       let* duplicate := unwrap (buf !! (len - 1)%nat) in
       if (length buf =? len)%nat then Ok (buf ++ [duplicate], S len)
       else let* _ := unwrap (buf !! len) in Ok (<[len := duplicate]> buf, S len)
     else Ok (buf, len)) = Ok (E:=SpvError) (buf1, len1) /\
    (len1 <= length buf1)%nat /\ len1 = (len1 / 2 * 2)%nat /\ (len <= len1 <= S len)%nat /\
    next_level (take len1 buf1) = next_level (take len buf)) as (buf1 & len1 & -> & Hl1 & Hev & Hb & Hn).
  { pose proof (Nat.div_mod_eq len 2). pose proof (Nat.mod_upper_bound len 2 ltac:(lia)).
    destruct (Nat.eqb_spec (len mod 2) 1) as [E|E].
    - destruct (pad_spec buf len Hlen E) as (b & -> & ? & ?). exists b, (S len).
      pose proof (Nat.div_mod_eq (S len) 2). pose proof (Nat.mod_upper_bound (S len) 2 ltac:(lia)).
      split; [done|]. split; [done|]. split; [lia|]. split; [lia|done].
    - exists buf, len. split; [done|]. split; [lia|]. split; [lia|]. split; [lia|done]. }
  cbn [rbind]. destruct (reduce_loop_spec (len1 / 2) 0 buf1) as (buf2 & -> & Hl2 & _ & Hd); [lia|].
  change (0 * 2)%nat with 0%nat in Hd. rewrite !drop_0, <- Hev in Hd. cbn [rbind].
  destruct (IH buf2 (len1 / 2)%nat) as (buf' & -> & Hr); [lia..|].
  exists buf'. split; [done|]. rewrite Hr, Hd, Hn.
  rewrite <- tree_root_unfold; [done|]. rewrite length_take_le; lia.
Qed.

(** ** The buffers of [MerkleScratch] *)

Lemma build_levels_enough f1 f2 l :
  (0 < length l <= f1)%nat -> (length l <= f2)%nat -> build_levels f1 l = build_levels f2 l.
Proof.
  revert f2 l; induction f1 as [|f1 IH]; intros [|f2] l H1 H2; try lia.
  cbn [build_levels]. destruct (Nat.eqb_spec (length l) 1); [done|].
  pose proof (next_level_shrinks l ltac:(lia)). f_equal. apply IH; lia.
Qed.

Lemma build_levels_pos n l : (0 < length (build_levels n l))%nat.
Proof. destruct n; simpl; [lia|]. destruct (length l =? 1)%nat; simpl; lia. Qed.

Lemma build_levels_step l :
  (1 < length l)%nat ->
  build_levels (length l) l = l :: build_levels (length (next_level l)) (next_level l).
Proof.
  intros H. pose proof (next_level_shrinks l H). destruct (length l) as [|n] eqn:E; [lia|].
  cbn [build_levels]. rewrite E, (proj2 (Nat.eqb_neq _ _)) by lia. f_equal.
  apply build_levels_enough; lia.
Qed.

(** From level [li], which holds [l]: the levels below are kept, those from [li]
    on become the levels of the tree over [l]. *)
Lemma scratch_loop_spec fuel : forall lv li l,
  (0 < length l < fuel)%nat -> lv !! li = Some l ->
  exists lv' li', scratch_loop fuel lv li = Ok (lv', li') /\
    take (li' + 1) lv' = take li lv ++ build_levels (length l) l.
Proof.
  induction fuel as [|fuel IH]; intros lv li l Hl Hli; [lia|]. cbn [scratch_loop]. rewrite Hli. simpl.
  destruct (Nat.eqb_spec (length l) 1) as [E|E].
  - exists lv, li. split; [done|]. rewrite Nat.add_1_r, (take_S_r _ _ l) by done. f_equal.
    rewrite E. simpl. by rewrite E.
  - pose proof (next_level_shrinks l ltac:(lia)) as Hn.
    pose proof (lookup_lt_Some _ _ _ Hli) as Hlt.
    set (lv1 := if (length lv =? li + 1)%nat then lv ++ [[]] else lv).
    assert ((S li < length lv1)%nat /\ take (S li) lv1 = take li lv ++ [l]) as [Hlt1 Htk].
    { subst lv1. rewrite <- (take_S_r lv li l) by done.
      destruct (Nat.eqb_spec (length lv) (li + 1)); [|split; [lia|done]].
      rewrite length_app. simpl. split; [lia|]. by rewrite take_app_le by lia. }
    destruct (IH (<[S li := next_level l]> lv1) (S li) (next_level l)) as (lv' & li' & -> & Ht);
      [lia|by apply list_lookup_insert_eq|].
    exists lv', li'. split; [done|]. rewrite Ht, take_insert_ge, Htk by lia. rewrite <- app_assoc.
    by rewrite (build_levels_step l) by lia.
Qed.

(** ** Inclusion proofs *)

(** Every node of a level is half of a node of the next one. *)
Lemma next_level_lookup l : forall i x,
  l !! i = Some x ->
  exists y, l !! (if (i mod 2 =? 0)%nat then Nat.min (i + 1) (length l - 1) else (i - 1)%nat) = Some y /\
    next_level l !! (i / 2)%nat =
      Some (if (i mod 2 =? 1)%nat then combine y x else combine x y).
Proof.
  induction l as [|a|a b l IH] using pair_ind; intros i x Hi; [done| |].
  - destruct i as [|i]; simpl in Hi; [|done]. injection Hi as ->. by exists x.
  - destruct i as [|[|i]]; cbn [lookup list_lookup] in Hi.
    + injection Hi as ->. exists b. done.
    + injection Hi as ->. exists a. done.
    + destruct (IH i x Hi) as (y & Hy & Hn). pose proof (lookup_lt_Some _ _ _ Hi) as Hlt.
      replace (S (S i)) with (i + 1 * 2)%nat by lia.
      rewrite Nat.Div0.mod_add, Nat.div_add by lia. rewrite (Nat.add_comm (i / 2)).
      exists y. split; [|exact Hn]. rewrite <- Hy. destruct (Nat.eqb_spec (i mod 2) 0) as [E|E].
      * replace (Nat.min (i + 1 * 2 + 1) (length (a :: b :: l) - 1))
          with (S (S (Nat.min (i + 1) (length l - 1)))) by (simpl length; lia). done.
      * assert (i <> 0)%nat by by intros ->.
        replace (i + 1 * 2 - 1)%nat with (S (S (i - 1))) by lia. done.
Qed.

(** The path generated for leaf [i] of [l] leads from it to the root. *)
Lemma proof_path_climb n : forall l i x,
  length l = n -> l !! i = Some x ->
  exists sib,
    proof_path (take (length (build_levels n l) - 1) (build_levels n l)) i = Ok sib /\
    fold_left climb sib x = tree_root l.
Proof.
  induction n as [n IH] using lt_wf_ind; intros l i x Hn Hi.
  pose proof (lookup_lt_Some _ _ _ Hi) as Hlt. destruct (decide (length l = 1)%nat) as [E|E].
  - destruct l as [|y [|? ?]]; try done. destruct i; [|done]. injection Hi as ->.
    simpl in Hn. subst n. by exists [].
  - subst n. rewrite build_levels_step by lia.
    pose proof (next_level_shrinks l ltac:(lia)) as Hs.
    destruct (next_level_lookup l i x Hi) as (y & Hy & Hnl).
    destruct (IH _ (proj2 Hs) (next_level l) _ _ eq_refl Hnl) as (sib & Hp & Hc).
    set (lv := build_levels (length (next_level l)) (next_level l)) in *.
    assert (0 < length lv)%nat by apply build_levels_pos.
    replace (take (length (l :: lv) - 1) (l :: lv)) with (l :: take (length lv - 1) lv)
      by (destruct lv; simpl in *; [lia|]; by rewrite Nat.sub_0_r).
    cbn [proof_path]. rewrite Hy. cbn [unwrap rbind]. rewrite Hp. cbn [rbind].
    eexists. split; [reflexivity|]. cbn [fold_left]. rewrite (tree_root_unfold l) by lia.
    by rewrite <- Hc.
Qed.

(** ** Soundness *)

Context {L : CryptoLaws C}.

Definition hash_sized (h : bytes) : Prop := length h = 32%nat.

Lemma combine_sized l r : hash_sized (combine l r).
Proof. apply sha256_len. Qed.

(** The byte strings that are hashed for a level, for a tree and for a proof. *)
Fixpoint pair_preimages (l : list bytes) : list bytes :=
  match l with
  | [] => []
  | [x] => [x ++ x]
  | x :: y :: l => (x ++ y) :: pair_preimages l
  end.
Definition tree_preimages (l : list bytes) : list bytes :=
  concat (map pair_preimages (build_levels (length l) l)).
Fixpoint climb_preimages (sib : list ProofNode) (cur : bytes) : list bytes :=
  match sib with
  | [] => []
  | node :: sib =>
      (if is_left node then node_hash node ++ cur else cur ++ node_hash node) ::
      climb_preimages sib (climb cur node)
  end.

Section no_collision.
Context (S : bytes -> Prop) (HS : collision_free S).

Lemma combine_inj a b x y :
  S (a ++ b) -> S (x ++ y) -> hash_sized a -> hash_sized x -> combine a b = combine x y -> a = x /\ b = y.
Proof. intros S1 S2 Ha Hx E%HS; [|done..]. apply app_inj_1 in E; [done|congruence]. Qed.

Lemma next_level_sized l : Forall hash_sized (next_level l).
Proof.
  induction l as [|x|x y l IH] using pair_ind; cbn [next_level]; [constructor| |];
    constructor; auto using combine_sized.
Qed.

Lemma next_level_elem l v :
  v ∈ next_level l -> exists x y, x ∈ l /\ y ∈ l /\ x ++ y ∈ pair_preimages l /\ v = combine x y.
Proof.
  induction l as [|x|x y l IH] using pair_ind; cbn [next_level].
  - by intros ?%not_elem_of_nil.
  - intros ->%list_elem_of_singleton. exists x, x. simpl. by rewrite !list_elem_of_singleton.
  - intros [-> | (a & b & ? & ? & ? & ?)%IH]%elem_of_cons.
    + exists x, y. split; [left|]. split; [right; left|]. split; [left|done].
    + exists a, b. split; [by do 2 right|]. split; [by do 2 right|]. split; [by right|done].
Qed.

(** A parent in the tree has its children in the tree. *)
Lemma climb_elem l cur node :
  (forall z, z ∈ pair_preimages l -> S z) -> (forall z, z ∈ climb_preimages [node] cur -> S z) ->
  Forall hash_sized l -> hash_sized cur -> hash_sized (node_hash node) ->
  climb cur node ∈ next_level l -> cur ∈ l.
Proof.
  intros S1 S2 Hl Hc Hn (x & y & Hx & Hy & Hp & E)%next_level_elem. specialize (S1 _ Hp).
  pose proof (proj1 (Forall_forall _ _) Hl x Hx) as Sx. specialize (S2 _ ltac:(left)).
  unfold climb in E. destruct (is_left node).
  - by destruct (combine_inj _ _ _ _ S2 S1 Hn Sx E) as [_ ->].
  - by destruct (combine_inj _ _ _ _ S2 S1 Hc Sx E) as [-> _].
Qed.

Lemma climb_sized cur node : hash_sized (climb cur node).
Proof. unfold climb. destruct (is_left node); apply combine_sized. Qed.

Lemma tree_preimages_step l z :
  (1 < length l)%nat -> z ∈ tree_preimages l <-> z ∈ pair_preimages l \/ z ∈ tree_preimages (next_level l).
Proof.
  intros Hl. unfold tree_preimages. rewrite build_levels_step by done. cbn [map concat]. by rewrite elem_of_app.
Qed.

Lemma climb_sound sib : forall l x,
  (forall z, z ∈ tree_preimages l -> S z) -> (forall z, z ∈ climb_preimages sib x -> S z) ->
  l <> [] -> Forall hash_sized l -> hash_sized x -> Forall (fun n => hash_sized (node_hash n)) sib ->
  length (build_levels (length l) l) = Datatypes.S (length sib) ->
  fold_left climb sib x = tree_root l -> x ∈ l.
Proof.
  induction sib as [|node sib IH]; intros l x S1 S2 Hl Hsz Hx Hsib Hd Hf.
  - destruct (decide (length l = 1)%nat) as [E|E].
    + destruct l as [|y [|? ?]]; try done. simpl in Hf. rewrite Hf. by left.
    + assert (1 < length l)%nat by (destruct l; simpl in *; [done|lia]).
      rewrite build_levels_step in Hd by done. pose proof (next_level_shrinks l ltac:(done)).
      pose proof (build_levels_pos (length (next_level l)) (next_level l)). simpl in Hd. lia.
  - apply Forall_cons in Hsib as [Hnode Hsib]. cbn [fold_left] in Hf.
    assert (1 < length l)%nat as Hlt.
    { destruct l as [|y [|? ?]]; [done| |simpl; lia]. simpl in Hd. lia. }
    rewrite build_levels_step in Hd by done. pose proof (next_level_shrinks l Hlt) as Hs.
    rewrite tree_root_unfold in Hf by done. pose proof (fun z => tree_preimages_step l z Hlt) as Ht.
    eapply climb_elem; [| |done|exact Hx|exact Hnode|].
    + intros z Hz. apply S1, Ht. by left.
    + intros z ->%list_elem_of_singleton. apply S2. left.
    + apply IH; auto using next_level_sized, climb_sized.
      * intros z Hz. apply S1, Ht. by right.
      * intros z Hz. apply S2. by right.
      * intros E. rewrite E in Hs. simpl in Hs. lia.
Qed.

(** ** The root determines the leaves *)

Lemma next_level_inj l : forall l',
  (forall z, z ∈ pair_preimages l -> S z) -> (forall z, z ∈ pair_preimages l' -> S z) ->
  length l = length l' -> Forall hash_sized l -> Forall hash_sized l' ->
  next_level l = next_level l' -> l = l'.
Proof.
  induction l as [|x|x y l IH] using pair_ind; intros l' S1 S2 Hlen Hl Hl' E.
  - by destruct l'.
  - destruct l' as [|x' [|? ?]]; try done. simpl in E. injection E as E.
    apply Forall_inv in Hl, Hl'. apply combine_inj in E as [-> _]; [done|apply S1; left|apply S2; left|done|done].
  - destruct l' as [|x' [|y' l']]; try done. cbn [next_level] in E. injection E as E E'.
    apply Forall_cons in Hl as [Hx Hl], Hl' as [Hx' Hl'].
    apply Forall_cons in Hl as [_ Hl], Hl' as [_ Hl'].
    apply combine_inj in E as [-> ->]; [|apply S1; left|apply S2; left|done|done].
    rewrite (IH l'); [done|intros z Hz; apply S1; by right|intros z Hz; apply S2; by right| |done|done|done].
    simpl in *. lia.
Qed.

Lemma tree_root_inj n : forall l l',
  (forall z, z ∈ tree_preimages l -> S z) -> (forall z, z ∈ tree_preimages l' -> S z) ->
  length l = n -> length l' = n -> Forall hash_sized l -> Forall hash_sized l' ->
  tree_root l = tree_root l' -> l = l'.
Proof.
  induction n as [n IH] using lt_wf_ind; intros l l' S1 S2 Hl Hl' Hs Hs' E.
  destruct (decide (n <= 1)%nat) as [H1|H1].
  - destruct l as [|x [|? ?]], l' as [|x' [|? ?]]; simpl in *; try lia; [done|].
    unfold tree_root in E. simpl in E. by subst.
  - pose proof (next_level_shrinks l ltac:(lia)) as Hn.
    pose proof (fun z => tree_preimages_step l z ltac:(lia)) as T1.
    pose proof (fun z => tree_preimages_step l' z ltac:(lia)) as T2.
    rewrite (tree_root_unfold l), (tree_root_unfold l') in E by lia.
    assert (length (next_level l) = length (next_level l')) as Hln
      by (rewrite !next_level_length; congruence).
    apply (IH (length (next_level l))) in E; [|lia|intros z Hz; apply S1, T1; by right|intros z Hz; apply S2, T2; by right
      |done|done|apply next_level_sized|apply next_level_sized].
    apply next_level_inj; [intros z Hz; apply S1, T1; by left|intros z Hz; apply S2, T2; by left|congruence|done..].
Qed.

End no_collision.

Lemma compute_merkle_root_spec l : l <> [] -> compute_merkle_root_from_txids l = Ok (tree_root l).
Proof.
  intros Hne. assert (0 < length l)%nat by (destruct l; simpl in *; [done|lia]).
  assert (compute_merkle_root_from_txids l =
    let* buf := merkle_loop (S (length l)) l (length l) in unwrap (buf !! 0%nat)) as -> by by destruct l.
  destruct (merkle_loop_spec (S (length l)) l (length l)) as (buf & -> & Hr); [lia..|].
  simpl. rewrite Hr. by rewrite take_ge.
Qed.

Lemma compute_merkle_root_total l : exists r, compute_merkle_root_from_txids l = Ok r.
Proof.
  destruct (decide (l = [])) as [-> | Hne]; [by eexists|]. eexists. by apply compute_merkle_root_spec.
Qed.

(** Stale buffers do not matter. *)
Lemma scratch_build_spec leaves old :
  leaves <> [] -> scratch_build old leaves = Ok (build leaves, tree_root leaves).
Proof.
  intros Hne. assert (0 < length leaves)%nat by (destruct leaves; simpl in *; [done|lia]).
  set (lv0 := match levels old with [] => [[]] | lv => lv end).
  assert (scratch_build old leaves =
    let* (lv, li) := scratch_loop (S (length leaves)) (<[0%nat := leaves]> lv0) 0 in
    Ok (mkTree (take (li + 1) lv), scratch_root (mkTree (take (li + 1) lv)))) as -> by by destruct leaves.
  assert (0 < length lv0)%nat by (unfold lv0; destruct (levels old); simpl; lia).
  destruct (scratch_loop_spec (S (length leaves)) (<[0%nat := leaves]> lv0) 0 leaves)
    as (lv' & li' & -> & Ht); [lia|by apply list_lookup_insert_eq|].
  rewrite take_0 in Ht. cbn [rbind]. rewrite Ht. cbn [app].
  replace (build leaves) with (mkTree (build_levels (length leaves) leaves)) by by destruct leaves.
  unfold scratch_root. cbn [levels]. by rewrite build_levels_last.
Qed.

(** *** Properties *)

(** C29: the three Merkle constructions agree.  For every list of leaves the
    in-place reduction of [block.rs] (which overwrites its buffer while reading
    it) returns, without an out-of-range access, the root of the tree built level
    by level; and [MerkleScratch::build], whatever an earlier build left in its
    buffers, ends with exactly the levels and the root of that tree. *)
Theorem merkle_roots_agree (leaves : list bytes) (old : MerkleTree) :
  exists r, compute_merkle_root_from_txids leaves = Ok r /\ root (build leaves) = Ok r /\
            scratch_build old leaves = Ok (build leaves, r).
Proof.
  destruct (decide (leaves = [])) as [-> | Hne]; [by exists hash_zero|].
  assert (0 < length leaves)%nat by (destruct leaves; simpl in *; [done|lia]).
  exists (tree_root leaves). split; [|split; [by apply root_build|]].
  - by apply compute_merkle_root_spec.
  - by apply scratch_build_spec.
Qed.

(** every inclusion proof the tree generates verifies: for an index in
    range, [proof] returns a proof of that leaf which [verify] accepts against
    the root of the tree, and for an index out of range it returns nothing. *)
Theorem merkle_proof_complete (leaves : list bytes) (index : nat) :
  leaves <> [] ->
  match leaves !! index with
  | None => proof (build leaves) index = Ok None
  | Some leaf => exists p r, proof (build leaves) index = Ok (Some p) /\ proof_txid p = leaf /\
      proof_index p = index /\ root (build leaves) = Ok r /\ verify p r = Ok tt /\ verify_self p = Ok tt
  end.
Proof.
  intros Hl. pose proof (root_build leaves Hl) as Hr. destruct leaves as [|x0 l0]; [done|].
  set (lv := x0 :: l0) in *. change (build lv) with (mkTree (build_levels (length lv) lv)) in *.
  unfold proof. cbn [levels].
  assert (exists rest, build_levels (length lv) lv = lv :: rest) as [rest Hb].
  { unfold lv. cbn [length build_levels]. case_match; eauto. }
  rewrite Hb. destruct (lv !! index) as [leaf|] eqn:Hi; [|done].
  destruct (proof_path_climb _ lv index leaf eq_refl Hi) as (sib & Hp & Hc).
  rewrite Hb in Hp, Hr. rewrite Hp. cbn [rbind]. rewrite Hr. cbn [rbind].
  eexists _, _. split; [reflexivity|]. cbn [proof_txid proof_index]. split; [done|]. split; [done|].
  split; [reflexivity|]. unfold verify_self, verify. cbn [siblings proof_txid proof_root].
  by rewrite Hc, bytes_eqb_refl.
Qed.

(** C28: an accepted proof cannot lie.  If [verify] accepts a proof against the
    root of a tree, the proof has one sibling per level below the root, and the hash
    does not collide on the strings hashed for the tree and for the proof, then the
    proven value is one of the leaves. *)
Theorem merkle_proof_sound (leaves : list bytes) (p : MerkleProof) (r : bytes) :
  leaves <> [] -> Forall hash_sized leaves ->
  hash_sized (proof_txid p) -> Forall (fun n => hash_sized (node_hash n)) (siblings p) ->
  length (levels (build leaves)) = S (length (siblings p)) ->
  collision_free (.∈ tree_preimages leaves ++ climb_preimages (siblings p) (proof_txid p)) ->
  root (build leaves) = Ok r -> verify p r = Ok tt ->
  proof_txid p ∈ leaves.
Proof.
  intros Hl Hs Hx Hn Hd HS Hr Hv. rewrite root_build in Hr by done. injection Hr as <-.
  unfold verify in Hv. destruct (bytes_eqb _ _) eqn:E; [|done]. apply bytes_eqb_eq in E.
  eapply climb_sound; [exact HS| | |done..|by destruct leaves|done]; intros z Hz; apply elem_of_app; auto.
Qed.

End merkle.

(** ** Witnesses *)

Lemma merkle_proof_complete_witness :
  exists p r, proof (build [[1]; [2]; [3]]) 2 = Ok (Some p) /\ proof_txid p = [3] /\
    proof_index p = 2%nat /\ root (build [[1]; [2]; [3]]) = Ok r /\ verify p r = Ok tt /\ verify_self p = Ok tt.
Proof. by apply (merkle_proof_complete [[1]; [2]; [3]] 2). Defined.

Lemma merkle_proof_sound_witness :
  let leaves := [repeat 1 32; repeat 2 32] in
  exists p r, root (build leaves) = Ok r /\ verify p r = Ok tt /\ proof_txid p ∈ leaves.
Proof.
  intros leaves. exists (mkProof (repeat 2 32) 1 [mkNode (repeat 1 32) true] []).
  eexists. split; [vm_compute; reflexivity|]. split; [by vm_compute|].
  apply (merkle_proof_sound leaves (mkProof (repeat 2 32) 1 [mkNode (repeat 1 32) true] [])
           (combine (repeat 1 32) (repeat 2 32))); try done; try by repeat constructor.
  apply collision_free_check. by vm_compute.
Defined.
