(* ===== verification/Codec.v ===== *)
(** * Prefix codes

    Generic lemmas on binary encodings that are read from left to right.  An
    encoding is a prefix code on the values that satisfy [P] when a value and the
    rest of the input can be recovered from their concatenation.  The combinators
    below are the layouts the repository hashes and signs: fixed-width integers,
    byte strings and vectors with a count in front, options with a tag.  At the end,
    the interfaces of the packages that serialize whole values. *)

From stdpp Require Import base list.
From Stdlib Require Import ZArith Lia.
From S2P Require Import Prelude.

Definition prefix_code {A} (P : A -> Prop) (enc : A -> bytes) : Prop :=
  forall a b x y, P a -> P b -> enc a ++ x = enc b ++ y -> a = b /\ x = y.

(** What two encodings of the same form reveal about each other. *)
Lemma prefix_code_inj {A} (P : A -> Prop) enc a b :
  prefix_code P enc -> P a -> P b -> enc a = enc b -> a = b.
Proof. intros H Ha Hb E. apply (H a b [] []); [done..|by rewrite E]. Qed.

(** Fixed width. *)
Lemma code_fixed {A} (P : A -> Prop) (enc : A -> bytes) n :
  (forall a, P a -> length (enc a) = n) -> (forall a b, P a -> P b -> enc a = enc b -> a = b) ->
  prefix_code P enc.
Proof.
  intros Hlen Hinj a b x y Ha Hb E. apply app_inj_1 in E as [E ->]; [|by rewrite !Hlen].
  split; [by apply Hinj|done].
Qed.

Definition u_range (n : nat) (z : Z) : Prop := 0 <= z < 256 ^ Z.of_nat n.

Lemma code_int n : prefix_code (u_range n) (to_le n).
Proof.
  apply (code_fixed _ _ n); [intros; apply length_to_le|]. intros a b Ha Hb E. by apply (to_le_inj n).
Qed.

Definition sized (n : nat) (l : bytes) : Prop := length l = n.

(** Arrays of bytes. *)
Lemma code_array n : prefix_code (sized n) (fun l => l).
Proof. apply (code_fixed _ _ n); auto. Qed.

Lemma code_byte : prefix_code (fun _ => True) (fun b : Z => [b]).
Proof. apply (code_fixed _ _ 1); [done|]. by intros a b _ _ [= ->]. Qed.

(** A second field after the first. *)
Lemma code_pair {A B} (P : A -> Prop) (Q : B -> Prop) e f :
  prefix_code P e -> prefix_code Q f ->
  prefix_code (fun p => P p.1 /\ Q p.2) (fun p => e p.1 ++ f p.2).
Proof.
  intros He Hf [a b] [a' b'] x y [Ha Hb] [Ha' Hb'] E. simpl in *. rewrite <- !app_assoc in E.
  apply He in E as [-> E]; [|done..]. apply Hf in E as [-> ->]; done.
Qed.

(** A record seen through an injective view. *)
Lemma code_view {A B} (P : B -> Prop) (e : B -> bytes) (v : A -> B) :
  prefix_code P e -> (forall a b, v a = v b -> a = b) ->
  prefix_code (fun a => P (v a)) (fun a => e (v a)).
Proof. intros He Hv a b x y Ha Hb E. apply He in E as [E ->]; [split; [by apply Hv|done]|done..]. Qed.

(** The elements of a vector of known length. *)
Lemma code_elements {A} (P : A -> Prop) e (l l' : list A) x y :
  prefix_code P e -> Forall P l -> Forall P l' -> length l = length l' ->
  concat (map e l) ++ x = concat (map e l') ++ y -> l = l' /\ x = y.
Proof.
  intros He. revert l'; induction l as [|a l IH]; intros [|a' l'] Hl Hl' Hlen E; try done.
  simpl in *. apply Forall_cons in Hl as [Ha Hl], Hl' as [Ha' Hl'].
  rewrite <- !app_assoc in E. apply He in E as [-> E]; [|done..].
  apply IH in E as [-> ->]; [done|done|done|lia].
Qed.

(** A vector: its length as an [n]-byte integer, then the elements. *)
Definition enc_vec {A} (n : nat) (e : A -> bytes) (l : list A) : bytes :=
  to_le n (zlen l) ++ concat (map e l).

Lemma code_vec {A} n (P : A -> Prop) e :
  prefix_code P e ->
  prefix_code (fun l => Forall P l /\ u_range n (zlen l)) (enc_vec n e).
Proof.
  intros He l l' x y [Hl Hr] [Hl' Hr'] E. unfold enc_vec in E. rewrite <- !app_assoc in E.
  apply code_int in E as [Hlen E]; [|done..]. unfold zlen in Hlen.
  apply (code_elements P) in E as [-> ->]; [done|done|done|done|lia].
Qed.

(** A byte string: its length as an [n]-byte integer, then the bytes. *)
Definition enc_bytes (n : nat) (l : bytes) : bytes := to_le n (zlen l) ++ l.

Lemma code_bytes n : prefix_code (fun l => u_range n (zlen l)) (enc_bytes n).
Proof.
  intros l l' x y Hr Hr' E. unfold enc_bytes in E. rewrite <- !app_assoc in E.
  apply code_int in E as [Hlen E]; [|done..]. unfold zlen in Hlen.
  apply app_inj_1 in E as [-> ->]; [done|lia].
Qed.

(** An option: a tag byte. *)
Definition enc_option {A} (e : A -> bytes) (o : option A) : bytes :=
  match o with None => [0] | Some a => 1 :: e a end.

Lemma code_option {A} (P : A -> Prop) e :
  prefix_code P e -> prefix_code (fun o => match o with Some a => P a | None => True end) (enc_option e).
Proof.
  intros He [a|] [b|] x y Ha Hb E; simpl in *; try done.
  - injection E as E. apply He in E as [-> ->]; done.
  - by injection E as ->.
Qed.

(** ** Serialization packages *)

(** [serde_json::to_vec] and [serde_json::from_slice]. *)
Class Json (A : Type) : Type := {
  to_vec : A -> option bytes;
  from_slice : bytes -> option A;
}.

(** What was written can be read. *)
Class JsonLaws (A : Type) (J : Json A) : Prop :=
  json_round_trip : forall a : A, exists v, to_vec a = Some v /\ from_slice v = Some a.

(** [bincode::serialize], and the deserializer with fixed-width integers, a size limit and
    trailing bytes allowed. *)
Class BincodeOf (A : Type) : Type := {
  bin_ser : A -> option bytes;
  bin_de : Z -> bytes -> option A;
}.

(** What was written within the limit can be read. *)
Class BincodeOfLaws (A : Type) (J : BincodeOf A) : Prop :=
  bin_round_trip : forall (a : A) limit v rest, bin_ser a = Some v -> zlen v <= limit -> bin_de limit (v ++ rest) = Some a.
