(* ===== verification/Block.v ===== *)
(** * Blocks and transactions

    Models [vtorrent-node/src/block.rs]: the data types, transaction and block
    hashes, the incremental signature hash, fees and totals, which outputs enter
    the UTXO set, the cold-staking redirection rule and the UTXO commitment.

    The [bincode] crate is outside the repository: serialization is a parameter
    (class [Bincode]) and its documented layout, which the comments of [sighash]
    restate, is the class [BincodeLaws]; [bincode_layout] is the instance that
    satisfies it. *)

From stdpp Require Import base list sorting.
From Stdlib Require Import ZArith Lia.
From S2P Require Import Prelude Script Crypto Engine Standard Merkle Codec.
Import Scripts.

Record TxInput : Type := mkTxInput {
  prev_txid : bytes;
  prev_vout : Z;
  script_sig : bytes;
  sequence : Z;
}.

Record TxOutput : Type := mkTxOutput {
  value : Z;
  script_pubkey : bytes;
}.

Inductive TxType : Type :=
  | Standard
  | Coinbase
  | Coinstake
  | LegacyClaim
  | AtomicSwap
  | TorrentIncentive.

#[export] Instance TxType_eq_dec : EqDecision TxType.
Proof. solve_decision. Defined.

(** [tx_type as u32]. *)
Definition TxType_code (t : TxType) : Z :=
  match t with
  | Standard => 0
  | Coinbase => 1
  | Coinstake => 2
  | LegacyClaim => 3
  | AtomicSwap => 4
  | TorrentIncentive => 5
  end.

Record Transaction : Type := mkTx {
  tx_version : Z;
  tx_type : TxType;
  inputs : list TxInput;
  outputs : list TxOutput;
  lock_time : Z;
  claim_address : option bytes;
  claim_signature : option bytes;
}.

Record BlockHeader : Type := mkHeader {
  version : Z;
  prev_block_hash : bytes;
  merkle_root : bytes;
  utxo_root : bytes;
  timestamp : Z;
  bits : Z;
  nonce : Z;
  stake_modifier : Z;
}.

Record Block : Type := mkBlock {
  header : BlockHeader;
  transactions : list Transaction;
}.

(** [struct Utxo] of [chain.rs]. *)
Record Utxo : Type := mkUtxo {
  utxo_txid : bytes;
  utxo_vout : Z;
  utxo_value : Z;
  utxo_script : bytes;
  utxo_height : Z;
  utxo_timestamp : Z;
}.

#[export] Instance TxInput_eq_dec : EqDecision TxInput.
Proof. solve_decision. Defined.
#[export] Instance TxOutput_eq_dec : EqDecision TxOutput.
Proof. solve_decision. Defined.
#[export] Instance Transaction_eq_dec : EqDecision Transaction.
Proof. solve_decision. Defined.
#[export] Instance Utxo_eq_dec : EqDecision Utxo.
Proof. solve_decision. Defined.

(** ** Serialization *)

(** [bincode::serialize] of a transaction and of a header, and
    [bincode::serialized_size] of a transaction and of a block. *)
Class Bincode : Type := {
  ser_tx : Transaction -> option bytes;
  ser_header : BlockHeader -> option bytes;
  ser_size : Transaction -> option Z;
  ser_block_size : Block -> option Z;
}.

(** The layout: little-endian integers, a [u64] count before a vector, a [u32]
    for an enum variant, a tag byte for an option. *)
Definition layout_input (i : TxInput) : bytes :=
  prev_txid i ++ le32 (prev_vout i) ++ enc_bytes 8 (script_sig i) ++ le32 (sequence i).

Definition layout_output (o : TxOutput) : bytes := le64 (value o) ++ enc_bytes 8 (script_pubkey o).

Definition layout_tx (tx : Transaction) : bytes :=
  le32 (tx_version tx) ++ le32 (TxType_code (tx_type tx)) ++
  enc_vec 8 layout_input (inputs tx) ++ enc_vec 8 layout_output (outputs tx) ++
  le32 (lock_time tx) ++
  enc_option (enc_bytes 8) (claim_address tx) ++ enc_option (enc_bytes 8) (claim_signature tx).

Definition layout_header (h : BlockHeader) : bytes :=
  le32 (version h) ++ prev_block_hash h ++ merkle_root h ++ utxo_root h ++
  le32 (timestamp h) ++ le32 (bits h) ++ le32 (nonce h) ++ le64 (stake_modifier h).

Definition layout_block (b : Block) : bytes :=
  layout_header (header b) ++ enc_vec 8 layout_tx (transactions b).

Class BincodeLaws (B : Bincode) : Prop := {
  ser_tx_layout : forall tx, ser_tx tx = Some (layout_tx tx);
  ser_header_layout : forall h, ser_header h = Some (layout_header h);
  ser_size_layout : forall tx, ser_size tx = Some (zlen (layout_tx tx));
  ser_block_size_layout : forall b, ser_block_size b = Some (zlen (layout_block b));
}.

#[local] Instance bincode_layout : Bincode := {|
  ser_tx tx := Some (layout_tx tx);
  ser_header h := Some (layout_header h);
  ser_size tx := Some (zlen (layout_tx tx));
  ser_block_size b := Some (zlen (layout_block b));
|}.

#[local] Instance bincode_layout_laws : BincodeLaws bincode_layout.
Proof. by constructor. Qed.

(** ** Transactions *)

Section block.
Context {C : Crypto} {B : Bincode}.

Definition unwrap_or {A} (o : option A) (d : A) : A := match o with Some a => a | None => d end.

(** [Transaction::txid]. *)
Definition txid (tx : Transaction) : bytes := sha256 (sha256 (unwrap_or (ser_tx tx) [])).

(** The bytes fed to the hasher for one input by [sighash]. *)
Definition sighash_input (input_index : nat) (subscript : bytes) (i : nat) (inp : TxInput) : bytes :=
  let sig := if (i =? input_index)%nat then subscript else [] in
  prev_txid inp ++ le32 (prev_vout inp) ++ le64 (zlen sig) ++ sig ++ le32 (sequence inp).

(** Everything fed to the hasher, in order. *)
Definition sighash_preimage (tx : Transaction) (input_index : nat) (subscript : bytes) : bytes :=
  le32 (tx_version tx) ++ le32 (TxType_code (tx_type tx)) ++ le64 (zlen (inputs tx)) ++
  concat (imap (sighash_input input_index subscript) (inputs tx)) ++
  le64 (zlen (outputs tx)) ++
  concat (map (fun o => le64 (value o) ++ le64 (zlen (script_pubkey o)) ++ script_pubkey o) (outputs tx)) ++
  le32 (lock_time tx) ++
  match claim_address tx with
  | None => [0]
  | Some addr => [1] ++ le64 (zlen addr) ++ addr
  end ++
  match claim_signature tx with
  | None => [0]
  | Some sig => [1] ++ le64 (zlen sig) ++ sig
  end ++
  le32 1.

(** [Transaction::sighash]. *)
Definition sighash (tx : Transaction) (input_index : nat) (subscript : bytes) : bytes :=
  sha256 (sha256 (sighash_preimage tx input_index subscript)).

Definition is_coinbase (tx : Transaction) : bool := bool_decide (tx_type tx = Coinbase).
Definition is_coinstake (tx : Transaction) : bool := bool_decide (tx_type tx = Coinstake).
Definition is_legacy_claim (tx : Transaction) : bool := bool_decide (tx_type tx = LegacyClaim).

(** [Transaction::total_output]. *)
Definition total_output (tx : Transaction) : Z := sat_sum (map value (outputs tx)).

(** [Transaction::fee_sats]; the product panics when it overflows a [u64]. *)
Definition fee_sats {E} (tx : Transaction) : res E Z :=
  if is_coinbase tx || is_coinstake tx || is_legacy_claim tx then Ok 0 else
  let assumed_input := zlen (inputs tx) * 100000 in
  if u64_max <? assumed_input then Panic else
  Ok (sat_sub assumed_input (total_output tx)).

(** [Transaction::serialized_size]. *)
Definition serialized_size (tx : Transaction) : Z := unwrap_or (ser_size tx) 0.

(** [Transaction::signals_rbf]. *)
Definition signals_rbf (tx : Transaction) : bool :=
  existsb (fun i => sequence i <? 0xFFFFFFFE) (inputs tx).

(** [BlockHeader::hash] and [Block::hash]. *)
Definition header_hash (h : BlockHeader) : bytes := sha256 (sha256 (unwrap_or (ser_header h) [])).
Definition block_hash (b : Block) : bytes := header_hash (header b).

(** [BlockHeader::is_pos]. *)
Definition is_pos (h : BlockHeader) : bool := nonce h =? 0.

(** [Block::compute_merkle_root]. *)
Definition compute_merkle_root (b : Block) : res SpvError bytes :=
  compute_merkle_root_from_txids (map txid (transactions b)).

(** [Block::height]. *)
Definition height (b : Block) : Z :=
  match transactions b with tx :: _ => lock_time tx | [] => 0 end.

(** ** The UTXO set *)

(** [is_utxo_eligible]. *)
Definition is_op_return (script : bytes) : bool :=
  match from_bytes script with
  | Ok s => match classify_script s with OpReturn => true | _ => false end
  | _ => false
  end.

Definition is_utxo_eligible (output : TxOutput) (tx : Transaction) (h : Z) : bool :=
  if negb (is_op_return (script_pubkey output)) then true
  else (h =? 0) && is_legacy_claim tx.

(** [p2cs_redirected_value_with_redeem]. *)
Definition is_p2cs (script : bytes) : bool :=
  match from_bytes script with
  | Ok s => match classify_script s with P2CS _ _ _ => true | _ => false end
  | _ => false
  end.

Definition p2cs_redirected_value_with_redeem (staked_script p2cs_script : bytes)
    (outs : list TxOutput) : Z :=
  if negb (is_p2cs p2cs_script) then 0 else
  sat_sum (map value
    (List.filter (fun o => (0 <? value o) && negb (bytes_eqb (script_pubkey o) staked_script)) outs)).

(** [p2cs_redirected_value]. *)
Definition p2cs_redirected_value (staked_script : bytes) (outs : list TxOutput) : Z :=
  p2cs_redirected_value_with_redeem staked_script staked_script outs.

(** The length prefix of [hash_utxo]. *)
Definition varint (len : Z) : bytes :=
  if len <? 0xfd then [as_u8 len]
  else if len <=? 0xffff then 0xfd :: le16 len
  else if len <=? 0xffffffff then 0xfe :: le32 len
  else 0xff :: le64 len.

Definition utxo_preimage (u : Utxo) : bytes :=
  utxo_txid u ++ le32 (utxo_vout u) ++ le64 (utxo_value u) ++
  varint (zlen (utxo_script u)) ++ utxo_script u ++
  le32 (utxo_height u) ++ le32 (utxo_timestamp u).

(** [hash_utxo]. *)
Definition hash_utxo (u : Utxo) : bytes := sha256 (sha256 (utxo_preimage u)).

(** The comparison of [compute_utxo_root_sorted]. *)
Definition outpoint_leb (a b : bytes * Z) : bool :=
  match bytes_cmp a.1 b.1 with
  | Lt => true
  | Gt => false
  | Eq => a.2 <=? b.2
  end.

Definition outpoint (u : Utxo) : bytes * Z := (utxo_txid u, utxo_vout u).

Definition utxo_le (a b : Utxo) : Prop := outpoint_leb (outpoint a) (outpoint b) = true.

#[export] Instance utxo_le_dec : RelDecision utxo_le.
Proof. intros a b. unfold utxo_le. apply _. Defined.

(** [compute_utxo_root_ordered]. *)
Definition compute_utxo_root_ordered (utxos : list Utxo) : res SpvError bytes :=
  compute_merkle_root_from_txids (map hash_utxo utxos).

(** [compute_utxo_root_sorted] and its alias [compute_utxo_root]; entries with the
    same outpoint, which a set of UTXOs does not have, would be in either order. *)
Definition compute_utxo_root_sorted (utxos : list Utxo) : res SpvError bytes :=
  match utxos with
  | [] => Ok hash_zero
  | _ => compute_utxo_root_ordered (merge_sort utxo_le utxos)
  end.

Definition compute_utxo_root (utxos : list Utxo) : res SpvError bytes :=
  compute_utxo_root_sorted utxos.

(** ** Well-formed values: what the Rust types guarantee *)

Definition wf_input (i : TxInput) : Prop :=
  sized 32 (prev_txid i) /\ u_range 4 (prev_vout i) /\ u_range 8 (zlen (script_sig i)) /\
  u_range 4 (sequence i).

Definition wf_output (o : TxOutput) : Prop :=
  u_range 8 (value o) /\ u_range 8 (zlen (script_pubkey o)).

Definition wf_opt (o : option bytes) : Prop :=
  match o with Some l => u_range 8 (zlen l) | None => True end.

Definition wf_tx (tx : Transaction) : Prop :=
  u_range 4 (tx_version tx) /\
  (Forall wf_input (inputs tx) /\ u_range 8 (zlen (inputs tx))) /\
  (Forall wf_output (outputs tx) /\ u_range 8 (zlen (outputs tx))) /\
  u_range 4 (lock_time tx) /\ wf_opt (claim_address tx) /\ wf_opt (claim_signature tx).

Definition wf_header (h : BlockHeader) : Prop :=
  u_range 4 (version h) /\ sized 32 (prev_block_hash h) /\ sized 32 (merkle_root h) /\
  sized 32 (utxo_root h) /\ u_range 4 (timestamp h) /\ u_range 4 (bits h) /\ u_range 4 (nonce h) /\
  u_range 8 (stake_modifier h).

Definition wf_utxo (u : Utxo) : Prop :=
  sized 32 (utxo_txid u) /\ u_range 4 (utxo_vout u) /\ u_range 8 (utxo_value u) /\
  u_range 8 (zlen (utxo_script u)) /\ u_range 4 (utxo_height u) /\ u_range 4 (utxo_timestamp u).

(** Peel one field off both sides of an equation between encodings. *)
Ltac peel L E :=
  let H := fresh "F" in apply L in E as [H E]; [|tauto || done..].

Lemma code_input : prefix_code wf_input layout_input.
Proof.
  intros a b x y (?&?&?&?) (?&?&?&?) E. unfold layout_input in E.
  rewrite <- !app_assoc in E. peel (code_array 32) E. peel (code_int 4) E. peel (code_bytes 8) E.
  peel (code_int 4) E. destruct a, b; simpl in *. by subst.
Qed.

Lemma code_output : prefix_code wf_output layout_output.
Proof.
  intros a b x y (?&?) (?&?) E. unfold layout_output in E.
  rewrite <- !app_assoc in E. peel (code_int 8) E. peel (code_bytes 8) E.
  destruct a, b; simpl in *. by subst.
Qed.

Lemma TxType_code_inj t t' : TxType_code t = TxType_code t' -> t = t'.
Proof. by destruct t, t'. Qed.

Lemma TxType_code_range t : u_range 4 (TxType_code t).
Proof. by destruct t. Qed.

(** The layout of a transaction is a prefix code: nothing about it is lost. *)
Lemma code_tx : prefix_code wf_tx layout_tx.
Proof.
  intros a b x y (?&?&?&?&?&?) (?&?&?&?&?&?) E.
  pose proof (TxType_code_range (tx_type a)). pose proof (TxType_code_range (tx_type b)).
  unfold layout_tx in E. rewrite <- !app_assoc in E.
  peel (code_int 4) E. peel (code_int 4) E.
  peel (code_vec 8 _ _ code_input) E. peel (code_vec 8 _ _ code_output) E. peel (code_int 4) E.
  peel (code_option _ _ (code_bytes 8)) E. peel (code_option _ _ (code_bytes 8)) E.
  apply TxType_code_inj in F0. destruct a, b; simpl in *. by subst.
Qed.

Lemma code_header : prefix_code wf_header layout_header.
Proof.
  intros a b x y (?&?&?&?&?&?&?&?) (?&?&?&?&?&?&?&?) E.
  unfold layout_header in E. rewrite <- !app_assoc in E.
  peel (code_int 4) E. peel (code_array 32) E. peel (code_array 32) E. peel (code_array 32) E.
  peel (code_int 4) E. peel (code_int 4) E. peel (code_int 4) E. peel (code_int 8) E.
  destruct a, b; simpl in *. by subst.
Qed.

(** The variable-length integer of the commitment. *)
Lemma code_varint : prefix_code (u_range 8) varint.
Proof.
  intros a b x y Ha Hb E. unfold varint, as_u8 in E. unfold u_range in *. simpl in Ha, Hb.
  destruct (Z.ltb_spec a 0xfd), (Z.ltb_spec b 0xfd).
  { rewrite !Z.mod_small in E by lia. injection E as -> ->. done. }
  all: repeat match type of E with
    | context [?z <=? ?c] => destruct (Z.leb_spec z c)
    end; cbn [app] in E; pose proof (f_equal (List.hd 0) E) as Eh; cbn [List.hd] in Eh;
    rewrite ?Z.mod_small in Eh by lia; try lia;
    apply (f_equal tail) in E; cbn [tail] in E.
  - apply (code_int 2) in E as [-> ->]; unfold u_range; simpl; (done || lia).
  - apply (code_int 4) in E as [-> ->]; unfold u_range; simpl; (done || lia).
  - apply (code_int 8) in E as [-> ->]; unfold u_range; simpl; (done || lia).
Qed.

Lemma utxo_preimage_inj u u' :
  wf_utxo u -> wf_utxo u' -> utxo_preimage u = utxo_preimage u' -> u = u'.
Proof.
  intros (?&?&?&?&?&?) (?&?&?&?&?&?) E. unfold utxo_preimage in E.
  peel (code_array 32) E. peel (code_int 4) E. peel (code_int 8) E. peel code_varint E.
  apply app_inj_1 in E as [F3 E]; [|unfold zlen in *; lia]. peel (code_int 4) E.
  apply (prefix_code_inj _ _ _ _ (code_int 4)) in E; [|done..].
  destruct u, u'; simpl in *. by subst.
Qed.

(** ** What the hashes commit to *)

(** The reference of [sighash]: the transaction with every scriptSig cleared but
    that of the input, which is the subscript. *)
Definition clear_sig (input_index : nat) (subscript : bytes) (i : nat) (inp : TxInput) : TxInput :=
  mkTxInput (prev_txid inp) (prev_vout inp)
    (if (i =? input_index)%nat then subscript else []) (sequence inp).

Definition clear_sigs (tx : Transaction) (input_index : nat) (subscript : bytes) : Transaction :=
  mkTx (tx_version tx) (tx_type tx) (imap (clear_sig input_index subscript) (inputs tx))
    (outputs tx) (lock_time tx) (claim_address tx) (claim_signature tx).

Lemma map_imap {X Y Z} (f : Y -> Z) (g : nat -> X -> Y) l :
  map f (imap g l) = imap (fun i x => f (g i x)) l.
Proof. revert g; induction l as [|x l IH]; intros g; simpl; [done|]. f_equal. apply IH. Qed.

Lemma zlen_imap {X Y} (g : nat -> X -> Y) l : zlen (imap g l) = zlen l.
Proof. unfold zlen. by rewrite length_imap. Qed.

Lemma sighash_preimage_layout tx i sub :
  sighash_preimage tx i sub = layout_tx (clear_sigs tx i sub) ++ le32 1.
Proof.
  assert (imap (sighash_input i sub) (inputs tx) =
          imap (fun j inp => layout_input (clear_sig i sub j inp)) (inputs tx)) as Hi.
  { apply imap_ext. intros j inp _. unfold layout_input, clear_sig, sighash_input, enc_bytes, le64.
    cbn [prev_txid prev_vout script_sig sequence]. by rewrite <- !app_assoc. }
  unfold sighash_preimage, layout_tx, enc_vec, clear_sigs. cbn [tx_version tx_type inputs outputs lock_time
    claim_address claim_signature]. rewrite zlen_imap, map_imap, Hi. rewrite <- !app_assoc.
  by destruct (claim_address tx), (claim_signature tx); cbn [enc_option]; rewrite <- ?app_assoc.
Qed.

Lemma wf_clear_sigs tx i sub : wf_tx tx -> u_range 8 (zlen sub) -> wf_tx (clear_sigs tx i sub).
Proof.
  intros (?&[Hi ?]&?&?&?&?) Hs. split; [done|]. split; [|done]. cbn [clear_sigs inputs]. split.
  - apply Forall_lookup. intros j inp Hj. rewrite list_lookup_imap in Hj.
    destruct (inputs tx !! j) as [inp0|] eqn:E; [|done]. injection Hj as <-.
    eapply Forall_lookup in Hi as (?&?&?&?); [|exact E]. split; [done|]. split; [done|].
    split; [|done]. cbn [clear_sig script_sig]. by destruct (j =? i)%nat.
  - by rewrite zlen_imap.
Qed.

(** [sighash], which feeds the hasher field by field, computes the double hash
    of the bincode serialization of the transaction with all scriptSigs cleared
    except the one being signed, followed by SIGHASH_ALL. *)
Theorem sighash_is_bincode_reference {L : BincodeLaws B} (tx : Transaction) (i : nat) (sub : bytes) :
  exists ser, ser_tx (clear_sigs tx i sub) = Some ser /\ sighash tx i sub = sha256 (sha256 (ser ++ le32 1)).
Proof.
  eexists. split; [apply ser_tx_layout|]. unfold sighash. by rewrite sighash_preimage_layout.
Qed.

(** C26: a signature binds the whole transaction.  Two well-formed transactions
    with the same signature hash have the same version, type, outputs, lock time,
    claim fields and the same inputs up to their scriptSigs, and, when the first
    subscript is not empty and its index is in range, the same index and subscript,
    unless the hash collides on the two strings that are signed. *)
Theorem sighash_binds_transaction (tx tx' : Transaction) (i i' : nat) (sub sub' : bytes) :
  wf_tx tx -> wf_tx tx' -> u_range 8 (zlen sub) -> u_range 8 (zlen sub') ->
  collision_free (.∈ [sighash_preimage tx i sub; sighash_preimage tx' i' sub']) ->
  sighash tx i sub = sighash tx' i' sub' ->
  clear_sigs tx i sub = clear_sigs tx' i' sub' /\
  (sub <> [] -> (i < length (inputs tx))%nat -> i = i' /\ sub = sub').
Proof.
  intros Hw Hw' Hs Hs' Hc E. apply Hc in E; [|left|right; left].
  rewrite !sighash_preimage_layout in E.
  apply code_tx in E as [E _]; [|by apply wf_clear_sigs..]. split; [done|]. intros Hne Hi.
  destruct (lookup_lt_is_Some_2 _ _ Hi) as [inp Hinp].
  apply (f_equal (fun t => inputs t !! i)) in E. cbn [inputs clear_sigs] in E.
  rewrite !list_lookup_imap, Hinp in E. cbn [fmap option_fmap option_map] in E.
  destruct (inputs tx' !! i) as [inp'|]; [|done]. injection E as _ _ E _.
  rewrite Nat.eqb_refl in E. destruct (Nat.eqb_spec i i'); done.
Qed.

(** transaction and block identifiers are unambiguous: two well-formed
    transactions with the same [txid] are equal, and so are two well-formed
    headers with the same hash, unless the hash collides on their serializations. *)
Theorem ids_unambiguous {L : BincodeLaws B} :
  (forall tx tx', wf_tx tx -> wf_tx tx' -> collision_free (.∈ [layout_tx tx; layout_tx tx']) ->
     txid tx = txid tx' -> tx = tx') /\
  (forall h h', wf_header h -> wf_header h' -> collision_free (.∈ [layout_header h; layout_header h']) ->
     header_hash h = header_hash h' -> h = h').
Proof.
  split; intros a b Ha Hb Hc E.
  - unfold txid in E. rewrite !ser_tx_layout in E. apply Hc in E; [|left|right; left].
    by apply (prefix_code_inj _ _ _ _ code_tx).
  - unfold header_hash in E. rewrite !ser_header_layout in E. apply Hc in E; [|left|right; left].
    by apply (prefix_code_inj _ _ _ _ code_header).
Qed.

(** ** The UTXO commitment *)

Lemma bytes_cmp_eq a : forall b, bytes_cmp a b = Eq <-> a = b.
Proof.
  induction a as [|x a IH]; intros [|y b]; simpl; try done.
  destruct (Z.compare_spec x y) as [-> | |]; [rewrite IH; split; [by intros ->|by intros [= ->]]|..];
    split; try done; intros [= -> _]; lia.
Qed.

Lemma bytes_cmp_antisym a : forall b, bytes_cmp b a = CompOpp (bytes_cmp a b).
Proof.
  induction a as [|x a IH]; intros [|y b]; simpl; try done.
  rewrite (Z.compare_antisym x y). by destruct (x ?= y); simpl.
Qed.

Lemma bytes_cmp_trans_lt a : forall b c, bytes_cmp a b = Lt -> bytes_cmp b c = Lt -> bytes_cmp a c = Lt.
Proof.
  induction a as [|x a IH]; intros [|y b] [|z c]; simpl; try done.
  destruct (Z.compare_spec x y) as [-> | |], (Z.compare_spec y z) as [-> | |]; try done; intros;
    rewrite ?(proj2 (Z.compare_lt_iff _ _)) by lia; rewrite ?Z.compare_refl; eauto.
Qed.

Lemma outpoint_leb_total a b : outpoint_leb a b = true \/ outpoint_leb b a = true.
Proof.
  unfold outpoint_leb. rewrite (bytes_cmp_antisym a.1 b.1). destruct (bytes_cmp a.1 b.1); simpl; auto.
  rewrite !Z.leb_le. lia.
Qed.

Lemma outpoint_leb_antisym a b : outpoint_leb a b = true -> outpoint_leb b a = true -> a = b.
Proof.
  unfold outpoint_leb. rewrite (bytes_cmp_antisym a.1 b.1).
  destruct (bytes_cmp a.1 b.1) eqn:E; simpl; try done. rewrite !Z.leb_le. intros.
  apply bytes_cmp_eq in E. destruct a, b; simpl in *. f_equal; [done|lia].
Qed.

Lemma outpoint_leb_trans a b c :
  outpoint_leb a b = true -> outpoint_leb b c = true -> outpoint_leb a c = true.
Proof.
  unfold outpoint_leb. destruct (bytes_cmp a.1 b.1) eqn:E1, (bytes_cmp b.1 c.1) eqn:E2; try done.
  - apply bytes_cmp_eq in E1, E2. rewrite E1, E2, (proj2 (bytes_cmp_eq _ _) eq_refl), !Z.leb_le. lia.
  - apply bytes_cmp_eq in E1. by rewrite E1, E2.
  - apply bytes_cmp_eq in E2. by rewrite <- E2, E1.
  - by rewrite (bytes_cmp_trans_lt _ _ _ E1 E2).
Qed.

#[export] Instance utxo_le_total : Total utxo_le.
Proof. intros a b. apply outpoint_leb_total. Qed.

#[export] Instance utxo_le_trans : Transitive utxo_le.
Proof. intros a b c. apply outpoint_leb_trans. Qed.

(** A set of UTXOs: no outpoint twice. *)
Definition utxo_list (l : list Utxo) : Prop := NoDup (map outpoint l).

Lemma utxo_list_inj l a b : utxo_list l -> a ∈ l -> b ∈ l -> outpoint a = outpoint b -> a = b.
Proof.
  unfold utxo_list. intros Hl [i Hi]%list_elem_of_lookup [j Hj]%list_elem_of_lookup E.
  assert (i = j) as ->; [|congruence].
  eapply NoDup_lookup; [exact Hl| |].
  - rewrite list_lookup_fmap, Hi. reflexivity.
  - rewrite list_lookup_fmap, Hj. simpl. by rewrite E.
Qed.

Lemma merge_sort_unique l l' :
  utxo_list l -> l ≡ₚ l' -> merge_sort utxo_le l = merge_sort utxo_le l'.
Proof.
  intros Hl Hp. apply (StronglySorted_unique_strong utxo_le).
  - intros a b Ha Hb H1 H2. rewrite merge_sort_Permutation in Ha, Hb. rewrite <- Hp in Hb.
    apply (utxo_list_inj l); [done..|]. by apply outpoint_leb_antisym.
  - apply (StronglySorted_merge_sort _).
  - apply (StronglySorted_merge_sort _).
  - by rewrite !merge_sort_Permutation.
Qed.

Lemma compute_utxo_root_sorted_spec l :
  compute_utxo_root_sorted l = compute_utxo_root_ordered (merge_sort utxo_le l).
Proof. by destruct l. Qed.

(** The UTXO commitment does not depend on the order in which a UTXO set is
    listed, and it is the root [compute_utxo_root_ordered] computes when the set
    is listed in outpoint order already (as the chain's ordered map does). *)
Theorem utxo_root_order_independent (l l' : list Utxo) :
  utxo_list l -> l ≡ₚ l' ->
  compute_utxo_root l = compute_utxo_root l' /\
  (StronglySorted utxo_le l' -> compute_utxo_root l = compute_utxo_root_ordered l').
Proof.
  intros Hl Hp. unfold compute_utxo_root. rewrite !compute_utxo_root_sorted_spec.
  rewrite (merge_sort_unique l l' Hl Hp). split; [done|]. intros Hs. f_equal.
  apply (StronglySorted_unique_strong utxo_le); [|apply (StronglySorted_merge_sort _)|done|apply merge_sort_Permutation].
  intros a b Ha Hb H1 H2. rewrite merge_sort_Permutation, <- Hp in Ha. rewrite <- Hp in Hb.
  apply (utxo_list_inj l); [done..|]. by apply outpoint_leb_antisym.
Qed.

Context {L : CryptoLaws C}.

Lemma hash_utxo_sized u : hash_sized (hash_utxo u).
Proof. apply sha256_len. Qed.

Lemma hash_utxos_inj (S : bytes -> Prop) l : forall l',
  collision_free S -> (forall u, u ∈ l -> S (utxo_preimage u)) -> (forall u, u ∈ l' -> S (utxo_preimage u)) ->
  length l = length l' -> Forall wf_utxo l -> Forall wf_utxo l' ->
  map hash_utxo l = map hash_utxo l' -> l = l'.
Proof.
  induction l as [|u l IH]; intros [|u' l'] HS S1 S2 Hlen Hl Hl' E; try done. simpl in E.
  injection E as E E'. apply Forall_cons in Hl as [Hu Hl], Hl' as [Hu' Hl'].
  apply HS in E; [|apply S1; left|apply S2; left]. apply utxo_preimage_inj in E as ->; [|done..].
  rewrite (IH l'); [done|done|intros; apply S1; by right|intros; apply S2; by right|simpl in *; lia|done..].
Qed.

(** The strings that are hashed for the commitment of an output set. *)
Definition root_preimages (l : list Utxo) : list bytes :=
  map utxo_preimage l ++ tree_preimages (map hash_utxo (merge_sort utxo_le l)).

(** the UTXO commitment is binding.  Two lists of the same number of
    well-formed UTXOs with the same root hold the same UTXOs (values, scripts,
    heights and timestamps included), unless the hash collides on the strings
    hashed for the two roots. *)
Theorem utxo_root_binding (l l' : list Utxo) :
  length l = length l' -> Forall wf_utxo l -> Forall wf_utxo l' ->
  collision_free (.∈ root_preimages l ++ root_preimages l') ->
  compute_utxo_root l = compute_utxo_root l' -> l ≡ₚ l'.
Proof.
  unfold compute_utxo_root. rewrite !compute_utxo_root_sorted_spec. unfold root_preimages.
  intros Hlen Hl Hl' HS E. destruct (decide (l = [])) as [-> | Hne]; [by destruct l'|].
  pose proof (merge_sort_Permutation utxo_le l) as Hp. pose proof (merge_sort_Permutation utxo_le l') as Hp'.
  set (m := merge_sort utxo_le l) in *. set (m' := merge_sort utxo_le l') in *.
  assert (length m = length m') as Hm by by rewrite Hp, Hp'.
  assert (m <> []) as Hmne by (intros Em; rewrite Em in Hp; by apply Permutation_nil in Hp).
  assert (m' <> []) as Hmne' by (intros Em; rewrite Em in Hm; by destruct m).
  unfold compute_utxo_root_ordered in E.
  rewrite !compute_merkle_root_spec in E by (intros Em; by apply map_eq_nil in Em). injection E as E.
  assert (forall k, Forall hash_sized (map hash_utxo k)) as Hsz
    by (intros k; apply Forall_forall; intros h (u & <- & _)%list_elem_of_In%in_map_iff; apply hash_utxo_sized).
  apply (tree_root_inj _ HS (length (map hash_utxo m))) in E;
    [|intros z Hz; rewrite !elem_of_app; auto..|done|by rewrite !length_map|apply Hsz|apply Hsz].
  apply (hash_utxos_inj _ _ _ HS) in E; [by rewrite <- Hp, E| | |done|by rewrite Hp|by rewrite Hp'].
  - intros u Hu. rewrite !elem_of_app. left; left. apply list_elem_of_fmap. exists u. by rewrite <- Hp.
  - intros u Hu. rewrite !elem_of_app. right; left. apply list_elem_of_fmap. exists u. by rewrite <- Hp'.
Qed.

(** ** Cold staking *)

Lemma sat_sum_zero l : Forall (fun v => 0 <= v) l -> sat_sum l = 0 <-> Forall (fun v => v = 0) l.
Proof.
  intros H. rewrite sat_sum_spec by done. pose proof (zsum_nonneg l H). unfold u64_max.
  transitivity (zsum l = 0); [lia|].
  induction H as [|v l Hv Hl IH]; simpl; [split; [constructor|done]|].
  pose proof (zsum_nonneg l Hl). rewrite Forall_cons. rewrite <- IH by done. lia.
Qed.

(** The cold-staking rule.  For a staked P2CS script the redirected value is
    zero exactly when every output with a positive value pays to that same script;
    for any other script it is zero and the rule is void. *)
Lemma redirected_zero (staked redeem : bytes) (outs : list TxOutput) :
  Forall (fun o => 0 <= value o) outs ->
  p2cs_redirected_value_with_redeem staked redeem outs = 0 <->
  (is_p2cs redeem = true -> Forall (fun o => 0 < value o -> script_pubkey o = staked) outs).
Proof.
  intros Hv. unfold p2cs_redirected_value_with_redeem. destruct (is_p2cs redeem); simpl; [|done].
  rewrite sat_sum_zero.
  - rewrite !Forall_forall. split.
    + intros H _ o Ho Hpos. destruct (bytes_eqb (script_pubkey o) staked) eqn:E; [by apply bytes_eqb_eq|].
      enough (value o = 0) by lia. apply H. apply list_elem_of_In, in_map, filter_In.
      split; [by apply list_elem_of_In|]. rewrite E. by rewrite (proj2 (Z.ltb_lt _ _)).
    + intros H v (o & <- & [Ho Hf]%filter_In)%list_elem_of_In%in_map_iff. bool_prop.
      apply bytes_eqb_neq in H1. destruct H1. apply H; [done|by apply list_elem_of_In|done].
  - apply Forall_forall. intros v (o & <- & [Ho _]%filter_In)%list_elem_of_In%in_map_iff.
    eapply Forall_forall in Hv; [exact Hv|]. by apply list_elem_of_In.
Qed.

End block.

(** ** Witnesses *)

Module BlockWitness.

Definition in0 : TxInput := mkTxInput (repeat 7 32) 1 [1; 2] 0xffffffff.
Definition tx0 : Transaction := mkTx 1 Standard [in0] [mkTxOutput 5 [0x51]] 0 None None.

Lemma wf_tx0 : wf_tx tx0.
Proof.
  split; [by unfold u_range|]. split; [split; [|by unfold u_range]|].
  { apply Forall_singleton. split; [done|]. by unfold u_range. }
  split; [split; [|by unfold u_range]|by unfold u_range].
  apply Forall_singleton. by unfold wf_output, u_range.
Qed.

Definition u1 : Utxo := mkUtxo (repeat 7 32) 0 5 [0x51] 1 2.
Definition u2 : Utxo := mkUtxo (repeat 3 32) 0 6 [0x52] 1 2.

Lemma wf_u12 : Forall wf_utxo [u1; u2].
Proof.
  apply Forall_cons. split; [|apply Forall_singleton]; unfold wf_utxo, sized, u_range; done.
Qed.

Lemma sighash_is_bincode_reference_witness :
  exists ser, ser_tx (clear_sigs tx0 0 [0x51]) = Some ser /\
              sighash tx0 0 [0x51] = sha256 (sha256 (ser ++ le32 1)).
Proof. apply (sighash_is_bincode_reference (C:=toy) (B:=bincode_layout) tx0 0 [0x51]). Defined.

Lemma sighash_binds_transaction_witness :
  clear_sigs tx0 0 [0x51] = clear_sigs tx0 0 [0x51] /\
  ([0x51] <> [] -> (0 < length (inputs tx0))%nat -> 0%nat = 0%nat /\ [0x51] = [0x51]).
Proof.
  apply (sighash_binds_transaction tx0 tx0 0 0 [0x51] [0x51]);
    [apply wf_tx0|apply wf_tx0|by unfold u_range|by unfold u_range|apply collision_free_check; by vm_compute|done].
Defined.

Lemma ids_unambiguous_witness : tx0 = tx0.
Proof.
  apply (proj1 (ids_unambiguous (C:=toy) (B:=bincode_layout)) tx0 tx0 wf_tx0 wf_tx0); [|done].
  apply collision_free_check; by vm_compute.
Defined.

Lemma utxo_root_order_independent_witness : compute_utxo_root [u1; u2] = compute_utxo_root [u2; u1].
Proof.
  assert (utxo_list [u1; u2]) as Hl by (apply (bool_decide_unpack _); by vm_compute).
  apply (proj1 (utxo_root_order_independent (C:=toy) [u1; u2] [u2; u1] Hl (Permutation_swap u2 u1 []))).
Defined.

Lemma utxo_root_binding_witness : [u1; u2] ≡ₚ [u2; u1].
Proof.
  apply (utxo_root_binding (C:=toy) [u1; u2] [u2; u1]);
    [done|apply wf_u12| |apply collision_free_check; by vm_compute|by vm_compute].
  rewrite (Permutation_swap u1 u2 []). apply wf_u12.
Defined.

End BlockWitness.
