(* ===== verification/Address.v ===== *)
(** * Addresses

    Models [vtorrent-core/src/address.rs]: Base58Check addresses and the output
    script they stand for.  Base58 itself is a parameter ([bs58_encode],
    [bs58_decode] of [Crypto]); that decoding inverts encoding is the law
    [Base58Laws]. *)

From stdpp Require Import base list.
From Stdlib Require Import ZArith Lia.
From S2P Require Import Prelude Script Crypto Engine Standard.
Import Scripts.

Inductive CoreError : Type := InvalidAddress | ChecksumMismatch | InvalidWif | Secp256k1.

Record Address : Type := mkAddress { addr_hash : bytes; addr_version : Z }.

(** [network::legacy::PUBKEY_ADDRESS_PREFIX]. *)
Definition PUBKEY_ADDRESS_PREFIX : Z := 70.

Class Base58Laws (C : Crypto) : Prop :=
  bs58_decode_encode : forall b, is_bytes b -> bs58_decode (bs58_encode b) = Some b.

#[export] Instance toy_base58 : Base58Laws toy.
Proof. done. Qed.

Section address.
Context {C : Crypto}.

(** [Address::from_pubkey]; [serialize_pubkey] is one of the two serializations. *)
Definition from_pubkey (pubkey : bytes) (compressed : bool) (version : Z) : Address :=
  mkAddress (Core.hash160 (if compressed then pubkey else uncompressed pubkey)) version.

(** [Address::parse]. *)
Definition parse (s : bytes) : res CoreError Address :=
  let* decoded := ok_or (bs58_decode s) InvalidAddress in
  if negb (zlen decoded =? 25) then Err InvalidAddress else
  let payload := take 21 decoded in
  let check := drop 21 decoded in
  if negb (bytes_eqb check (Core.checksum payload)) then Err ChecksumMismatch else
  let* version := vec_get payload 0 in
  Ok (mkAddress (slice 1 21 payload) version).

(** [Address::encode] and [Display]. *)
Definition encode (a : Address) : bytes :=
  let payload := addr_version a :: addr_hash a in
  bs58_encode (payload ++ Core.checksum payload).

(** [Address::from_hash160]. *)
Definition from_hash160 (hash : bytes) (version : Z) : res CoreError Address :=
  if zlen hash =? 20 then Ok (mkAddress hash version) else Err InvalidAddress.

Definition is_legacy (a : Address) : bool := addr_version a =? PUBKEY_ADDRESS_PREFIX.

(** [Address::p2pkh_script_pubkey]. *)
Definition p2pkh_script_pubkey (a : Address) : bytes :=
  [0x76; 0xa9; 0x14] ++ addr_hash a ++ [0x88; 0xac].

(** [validate_p2pkh]. *)
Definition validate_p2pkh (s : bytes) : res CoreError Address :=
  let* addr := parse s in
  if negb (addr_version addr =? PUBKEY_ADDRESS_PREFIX) then Err InvalidAddress else Ok addr.

Lemma p2pkh_script_build a :
  zlen (addr_hash a) = 20 -> build_p2pkh (addr_hash a) = Ok (p2pkh_script_pubkey a).
Proof.
  intros H. rewrite build_p2pkh_bytes by done. unfold bytes_of, pkh_tail, p2pkh_script_pubkey.
  cbn [map concat item_bytes app]. rewrite push_bytes_short, H by lia. done.
Qed.

Lemma parse_encode {L : CryptoLaws C} {B : Base58Laws C} a :
  is_byte (addr_version a) -> is_bytes (addr_hash a) -> zlen (addr_hash a) = 20 ->
  parse (encode a) = Ok a.
Proof.
  intros Hv Hh Hz. unfold parse, encode. set (p := addr_version a :: addr_hash a).
  assert (Hp : length p = 21%nat) by (unfold p, zlen in *; simpl; lia).
  assert (is_bytes p) by by apply Forall_cons.
  assert (is_bytes (Core.checksum p)) by apply Forall_take, sha256_bytes.
  assert (length (Core.checksum p) = 4%nat) as Hc.
  { unfold Core.checksum, Core.sha256d. rewrite length_take, sha256_len. done. }
  rewrite bs58_decode_encode by by apply Forall_app. cbn [ok_or rbind].
  assert (zlen (p ++ Core.checksum p) = 25) as -> by (unfold zlen; rewrite length_app; lia).
  rewrite <- Hp, take_app_length, drop_app_length, bytes_eqb_refl. cbn [negb].
  change (25 =? 25) with true. cbn [negb]. change (vec_get p 0) with (Ok (E:=CoreError) (addr_version a)). cbn [rbind].
  unfold slice, p. change (Z.to_nat 1) with 1%nat. change (Z.to_nat (21 - 1)) with 20%nat. cbn [drop]. rewrite drop_0.
  rewrite take_ge by (unfold zlen in Hz; lia). by destruct a.
Qed.

(** addresses round trip.  A 20-byte hash with a version byte, encoded and
    parsed again, comes back unchanged; [validate_p2pkh] accepts the encoding
    exactly when the version byte is 70; and the script built for the address is
    the P2PKH script of its hash, which [classify_script] recognises. *)
Theorem address_roundtrip {L : CryptoLaws C} {B : Base58Laws C} (a : Address) :
  is_byte (addr_version a) -> is_bytes (addr_hash a) -> zlen (addr_hash a) = 20 ->
  parse (encode a) = Ok a /\
  (is_ok (validate_p2pkh (encode a)) = true <-> addr_version a = 70) /\
  build_p2pkh (addr_hash a) = Ok (p2pkh_script_pubkey a) /\
  classify_script (p2pkh_script_pubkey a) = P2PKH.
Proof.
  intros Hv Hh Hz. pose proof (parse_encode a Hv Hh Hz) as Hp. pose proof (p2pkh_script_build a Hz) as Hb.
  split; [done|]. split; [|split; [done|apply classify_p2pkh; eauto]].
  unfold validate_p2pkh. rewrite Hp. simpl. unfold PUBKEY_ADDRESS_PREFIX.
  destruct (Z.eqb_spec (addr_version a) 70); done.
Qed.

End address.

Lemma address_roundtrip_witness :
  parse (encode (mkAddress (repeat 3 20) 70)) = Ok (mkAddress (repeat 3 20) 70).
Proof.
  apply (address_roundtrip (mkAddress (repeat 3 20) 70)); [done|by apply is_bytes_check|done].
Defined.
