(* ===== verification/Consensus.v ===== *)
(** * Consensus rules

    Models [vtorrent-node/src/consensus.rs]: rewards, stake modifiers and kernels,
    block and transaction validation, legacy claims and their signatures.

    A [NodeError] carries the literal text of its message; interpolated values are
    left out.  [now] stands for [now_timestamp_u32()], [hex_encode] for the [hex]
    crate (class [Hex], its documented behaviour in [HexLaws]). *)

From stdpp Require Import base list strings.
From Stdlib Require Import ZArith Lia.
From S2P Require Import Prelude Script Crypto Engine Standard Merkle Codec Block Address.
Import Scripts.

Inductive NodeError : Type :=
  | InvalidBlock (msg : string)
  | InvalidTransaction (msg : string)
  | PolicyRejected (msg : string)
  | ChainError (msg : string)
  | GenesisMismatch
  | InsufficientFunds (need have : Z)
  | DoubleSpend
  | ClaimAlreadyProcessed (address : bytes)
  | InvalidClaim (msg : string)
  | Storage (msg : string)
  | AtomicSwapError (msg : string)
  | InvalidAddressError (msg : string).

#[export] Instance NodeError_eq_dec : EqDecision NodeError.
Proof. solve_decision. Defined.

Definition MAX_BLOCK_SIZE : Z := 1000000.
Definition COIN : Z := 100000000.
Definition POS_ANNUAL_RATE_BPS : Z := 500.
Definition MIN_STAKE_AGE : Z := 6 * 60 * 60.
Definition MAX_STAKE_AGE : Z := 6 * 24 * 60 * 60.
Definition MIN_STAKE_AMOUNT : Z := COIN.
Definition MAX_SUPPLY : Z := 20000000 * COIN.
Definition MAX_MONEY : Z := MAX_SUPPLY.
Definition TARGET_BLOCK_TIME : Z := 60.

(** [struct ConsensusParams] and its [Default]; [POS_ANNUAL_RATE * 10_000.0] is 500. *)
Record ConsensusParams : Type := mkParams {
  pos_annual_rate_bps : Z;
  reward_age_cap : Z;
  max_stake_age : Z;
  min_stake_age : Z;
  min_stake_amount : Z;
  target_block_time : Z;
}.

Definition default_params : ConsensusParams :=
  mkParams POS_ANNUAL_RATE_BPS MAX_STAKE_AGE MAX_STAKE_AGE MIN_STAKE_AGE MIN_STAKE_AMOUNT
    TARGET_BLOCK_TIME.

(** The crate [hex]. *)
Class Hex : Type := hex_encode : bytes -> bytes.

(** [hex::encode]: an injective map to strings of hexadecimal digits. *)
Class HexLaws (H : Hex) : Prop := {
  hex_inj : forall a b, is_bytes a -> is_bytes b -> hex_encode a = hex_encode b -> a = b;
  hex_digits : forall a, is_bytes a ->
    Forall (fun c => 48 <= c <= 57 \/ 97 <= c <= 102) (hex_encode a);
}.

Section consensus.
Context {C : Crypto} {B : Bincode} {H : Hex}.

(** ** Rewards *)

(** [compute_pos_reward_with]; the products are [u128] and panic on overflow. *)
Definition compute_pos_reward_with (params : ConsensusParams) (stake_amount coin_age_seconds : Z)
    : res NodeError Z :=
  let coin_age_seconds := Z.min coin_age_seconds (reward_age_cap params) in
  let numerator := stake_amount * coin_age_seconds * pos_annual_rate_bps params in
  if u128_max <? numerator then Panic else
  let denominator := 10000 * 86400 * 365 in
  Ok (as_u64 (numerator / denominator)).

Definition compute_pos_reward (stake_amount coin_age_seconds : Z) : res NodeError Z :=
  compute_pos_reward_with default_params stake_amount coin_age_seconds.

(** ** Stake kernels *)

Definition compute_stake_modifier (prev_stake_modifier : Z) (prev_block_hash : bytes) : Z :=
  from_le (take 8 (sha256 (sha256 (le64 prev_stake_modifier ++ prev_block_hash)))).

Definition stake_kernel_hash (stake_modifier : Z) (utxo : Utxo) (timestamp : Z) : bytes :=
  sha256 (sha256 (le64 stake_modifier ++ utxo_txid utxo ++ le32 (utxo_vout utxo) ++ le32 timestamp)).

(** The first four bytes of the kernel hash. *)
Definition kernel_val (stake_modifier : Z) (utxo : Utxo) (timestamp : Z) : Z :=
  from_le (take 4 (stake_kernel_hash stake_modifier utxo timestamp)).

Definition check_stake_kernel (stake_modifier : Z) (utxo : Utxo) (timestamp : Z) : bool :=
  kernel_val stake_modifier utxo timestamp <=? Z.min (utxo_value utxo / 1000) u32_max.

(** [is_stakeable_with]. *)
Definition is_stakeable_script (script : bytes) : bool :=
  match from_bytes script with
  | Ok s => match classify_script s with P2PKH | P2CS _ _ _ => true | _ => false end
  | _ => false
  end.

Definition is_stakeable_with (params : ConsensusParams) (utxo : Utxo) : bool :=
  if utxo_value utxo <? min_stake_amount params then false
  else is_stakeable_script (utxo_script utxo).

Definition is_stakeable (utxo : Utxo) : bool := is_stakeable_with default_params utxo.

Definition check_stake_kernel_v2 (stake_modifier : Z) (utxo : Utxo) (timestamp total_staked : Z) : bool :=
  if total_staked =? 0 then false else
  kernel_val stake_modifier utxo timestamp * total_staked <=? Z.shiftl (utxo_value utxo) 32.

(** ** Validation *)

(** The loop over the outputs of [validate_transaction]. *)
Definition check_output (tx : Transaction) (index : nat) (output : TxOutput) : res NodeError unit :=
  let coinstake_marker :=
    is_coinstake tx && (index =? 0)%nat && (value output =? 0) && (zlen (script_pubkey output) =? 0) in
  if (value output =? 0) && negb coinstake_marker
  then Err (InvalidTransaction "Output value cannot be zero") else
  if MAX_MONEY <? value output
  then Err (InvalidTransaction "Output value exceeds MAX_MONEY") else Ok tt.

Fixpoint check_outputs (tx : Transaction) (index : nat) (outs : list TxOutput) : res NodeError unit :=
  match outs with
  | [] => Ok tt
  | o :: outs => let* _ := check_output tx index o in check_outputs tx (S index) outs
  end.

(** The loop that fills [seen_inputs]. *)
Definition see_input (seen : list (bytes * Z)) (i : TxInput) : res NodeError (list (bytes * Z)) :=
  let key := (prev_txid i, prev_vout i) in
  if decide (key ∈ seen) then Err (InvalidTransaction "Duplicate input") else Ok (key :: seen).

Definition validate_transaction (tx : Transaction) : res NodeError unit :=
  if (length (outputs tx) =? 0)%nat then Err (InvalidTransaction "Transaction has no outputs") else
  let* _ := check_outputs tx 0 (outputs tx) in
  if is_legacy_claim tx then
    match claim_address tx with
    | None => Err (InvalidClaim "Missing claim address")
    | Some _ =>
        match claim_signature tx with
        | None => Err (InvalidClaim "Missing claim signature")
        | Some _ =>
            if negb (length (inputs tx) =? 0)%nat
            then Err (InvalidClaim "Legacy claim must not have transaction inputs") else Ok tt
        end
    end
  else if is_coinstake tx then
    if negb (length (inputs tx) =? 1)%nat
    then Err (InvalidTransaction "Coinstake must have exactly one input") else Ok tt
  else if is_coinbase tx then Ok tt
  else if (length (inputs tx) =? 0)%nat then Err (InvalidTransaction "Transaction has no inputs")
  else let* _ := rfold see_input [] (inputs tx) in Ok tt.

(** The checks on the first transaction. *)
Definition check_first_tx (block : Block) (first_tx : Transaction) (prev_height : Z) (allow_pow : bool)
    : res NodeError unit :=
  if is_pos (header block) then
    let is_bootstrap := (prev_height =? 0) && is_legacy_claim first_tx &&
                        (length (transactions block) =? 1)%nat in
    if negb (is_coinstake first_tx) && negb is_bootstrap
    then Err (InvalidBlock "PoS block must begin with a coinstake transaction") else Ok tt
  else if negb allow_pow then Err (InvalidBlock "Proof-of-Work blocks are not permitted")
  else if negb (is_coinbase first_tx)
  then Err (InvalidBlock "PoW test block must begin with a coinbase transaction") else Ok tt.

Definition validate_block_inner (now : Z) (block : Block)
    (prev_height prev_timestamp prev_bits prev_stake_modifier : Z) (prev_block_hash : bytes)
    (allow_pow : bool) : res NodeError unit :=
  match transactions block with
  | [] => Err (InvalidBlock "Block has no transactions")
  | first_tx :: rest =>
      let block_size := unwrap_or (ser_block_size block) u64_max in
      if MAX_BLOCK_SIZE <? block_size then Err (InvalidBlock "Block size exceeds maximum") else
      let* next := padd u32_max prev_height 1 in
      if negb (height block =? next)
      then Err (InvalidBlock "Block height does not follow parent height") else
      if negb (bits (header block) =? prev_bits)
      then Err (InvalidBlock "Block difficulty does not match parent difficulty") else
      let expected_modifier := compute_stake_modifier prev_stake_modifier prev_block_hash in
      if negb (stake_modifier (header block) =? expected_modifier)
      then Err (InvalidBlock "Stake modifier does not match expected") else
      let* _ := check_first_tx block first_tx prev_height allow_pow in
      if existsb (fun tx => is_coinbase tx || is_coinstake tx) rest
      then Err (InvalidBlock "Block contains more than one coinbase/coinstake transaction") else
      if sat_add u32_max now 7200 <? timestamp (header block)
      then Err (InvalidBlock "Block timestamp is too far in the future") else
      if timestamp (header block) <=? prev_timestamp
      then Err (InvalidBlock "Block timestamp must be greater than previous block") else
      let* computed_merkle := no_err (compute_merkle_root block) in
      if negb (bytes_eqb computed_merkle (merkle_root (header block)))
      then Err (InvalidBlock "Merkle root mismatch") else
      rfold (fun _ tx => validate_transaction tx) tt (transactions block)
  end.

Definition validate_block (now : Z) (block : Block)
    (prev_height prev_timestamp prev_bits prev_stake_modifier : Z) (prev_block_hash : bytes)
    : res NodeError unit :=
  validate_block_inner now block prev_height prev_timestamp prev_bits prev_stake_modifier
    prev_block_hash false.

(** ** Legacy claims *)

Definition str (s : string) : bytes :=
  map (fun a => Z.of_nat (Ascii.nat_of_ascii a)) (String.list_ascii_of_string s).

(** [bitcoin_signed_message_hash]. *)
Definition message_varint (msg_len : Z) : bytes :=
  if msg_len <? 0xfd then [as_u8 msg_len]
  else if msg_len <=? 0xffff then 0xfd :: le16 msg_len
  else 0xfe :: le32 (as_u32 msg_len).

Definition signed_preimage (magic_bytes message : bytes) : bytes :=
  [zlen magic_bytes] ++ magic_bytes ++ message_varint (zlen message) ++ message.

Definition bitcoin_signed_message_hash (magic message : bytes) : res NodeError bytes :=
  let magic_bytes := magic ++ [10] in
  if 255 <? zlen magic_bytes then Panic else
  Ok (sha256 (sha256 (signed_preimage magic_bytes message))).

(** [u64::to_string]: the decimal digits, least significant first in [dec_rev];
    twenty digits hold every [u64]. *)
Fixpoint dec_rev (fuel : nat) (z : Z) : bytes :=
  match fuel with
  | O => []
  | S fuel => (48 + z mod 10) :: if z / 10 =? 0 then [] else dec_rev fuel (z / 10)
  end.

Definition dec_string (z : Z) : bytes := rev (dec_rev 20 z).

(** The message of [claim_message_hash_v2]. *)
Definition claim_message_v2 (claim_address : bytes) (outs : list TxOutput) : bytes :=
  claim_address ++
  concat (map (fun o => [124] ++ dec_string (value o) ++ [58] ++ hex_encode (script_pubkey o)) outs).

Definition claim_message_hash_v2 (claim_address : bytes) (outs : list TxOutput) : res NodeError bytes :=
  bitcoin_signed_message_hash (str "vTorrent Signed Message v2") (claim_message_v2 claim_address outs).

(** [claim_message_hash]. *)
Definition claim_message_hash (claim_address : bytes) : res NodeError bytes :=
  bitcoin_signed_message_hash (str "vTorrent Signed Message") claim_address.

(** [pubkey_to_vtorrent_address]. *)
Definition pubkey_to_vtorrent_address (pubkey : bytes) (compressed : bool) : bytes :=
  let pubkey_bytes := if compressed then pubkey else uncompressed pubkey in
  match from_hash160 (Core.hash160 pubkey_bytes) 70 with
  | Ok a => encode a
  | _ => []
  end.

(** [verify_claim_signature]. *)
Definition verify_claim_signature (message_hash claim_address sig_bytes : bytes) : res NodeError unit :=
  if negb (zlen sig_bytes =? 65) then Err (InvalidClaim "Expected 65-byte compact signature") else
  let* recovery_id_byte := vec_get sig_bytes 0 in
  let flag := as_u8 (recovery_id_byte - 27) in
  let rec_id_raw := Z.land flag 3 in
  let compressed := 4 <=? flag in
  if negb (recovery_id_ok rec_id_raw) then Err (InvalidClaim "Invalid recovery id") else
  let rec_sig := slice 1 65 sig_bytes in
  if negb (compact_ok rec_sig rec_id_raw) then Err (InvalidClaim "Invalid recoverable signature") else
  let* recovered_pubkey :=
    ok_or (recover_ecdsa message_hash rec_sig rec_id_raw) (InvalidClaim "Key recovery failed") in
  if negb (bytes_eqb (pubkey_to_vtorrent_address recovered_pubkey compressed) claim_address)
  then Err (InvalidClaim "Address mismatch") else Ok tt.

(** [validate_legacy_claim]. *)
Definition validate_legacy_claim (tx : Transaction) (snapshot_balance : Z) : res NodeError unit :=
  if negb (is_legacy_claim tx) then Err (InvalidClaim "Not a claim transaction") else
  let* claim_addr := ok_or (claim_address tx) (InvalidClaim "Missing claim address") in
  if snapshot_balance =? 0 then Err (InvalidClaim "Address has no balance in snapshot") else
  let claimed_amount := total_output tx in
  if negb (claimed_amount =? snapshot_balance)
  then Err (InvalidClaim "A claim must match the snapshot balance exactly") else
  let* sig_bytes := ok_or (claim_signature tx) (InvalidClaim "Missing claim signature") in
  let* msg_hash := claim_message_hash_v2 claim_addr (outputs tx) in
  map_err (fun _ => InvalidClaim "Signature verification failed")
    (verify_claim_signature msg_hash claim_addr sig_bytes).

(** ** Lemmas: rewards and kernels *)

(** The reward without wrap-around. *)
Definition reward_spec (stake age : Z) : Z := stake * Z.min age MAX_STAKE_AGE * 500 / 315360000000.

Lemma compute_pos_reward_spec stake age :
  0 <= stake <= MAX_SUPPLY -> 0 <= age -> compute_pos_reward stake age = Ok (reward_spec stake age).
Proof.
  intros Hs Ha. unfold compute_pos_reward, compute_pos_reward_with, reward_spec, default_params,
    POS_ANNUAL_RATE_BPS. cbn [reward_age_cap pos_annual_rate_bps].
  change MAX_SUPPLY with 2000000000000000 in *. change MAX_STAKE_AGE with 518400.
  assert (0 <= stake * Z.min age 518400 * 500 <= 2000000000000000 * 518400 * 500) as Hb by nia.
  rewrite (proj2 (Z.ltb_ge _ _)) by (unfold u128_max; lia). f_equal.
  change (10000 * 86400 * 365) with 315360000000. unfold as_u64. apply Z.mod_small.
  split; [apply Z.div_pos; lia|]. apply Z.div_lt_upper_bound; lia.
Qed.

Lemma from_le_take_range n (l : bytes) : is_bytes l -> 0 <= from_le (take n l) < 256 ^ Z.of_nat n.
Proof.
  intros Hl. pose proof (from_le_bound (take n l) (Forall_take _ _ _ Hl)) as [H0 H1]. split; [done|].
  eapply Z.lt_le_trans; [exact H1|]. apply Z.pow_le_mono_r; [lia|]. rewrite zlen_take. lia.
Qed.

Lemma kernel_val_range {L : CryptoLaws C} m u t : 0 <= kernel_val m u t <= u32_max.
Proof.
  pose proof (from_le_take_range 4 (stake_kernel_hash m u t) (sha256_bytes _)) as Hr.
  change (256 ^ Z.of_nat 4) with 4294967296 in Hr. unfold kernel_val, u32_max. lia.
Qed.

Lemma kernel_v2_spec m u t total :
  0 < total -> check_stake_kernel_v2 m u t total = (kernel_val m u t * total <=? utxo_value u * 2 ^ 32).
Proof.
  intros. unfold check_stake_kernel_v2. rewrite (proj2 (Z.eqb_neq _ _)) by lia.
  by rewrite Z.shiftl_mul_pow2 by lia.
Qed.

(** ** Lemmas: validation *)

Lemma check_outputs_Ok tx outs : forall i,
  check_outputs tx i outs = Ok tt -> Forall (fun o => value o <= MAX_MONEY) outs /\
  forall j o, outs !! j = Some o -> value o <> 0 \/ (is_coinstake tx = true /\ (i + j = 0)%nat /\ script_pubkey o = []).
Proof.
  induction outs as [|o outs IH]; intros i Hc; simpl in Hc; [by split; [constructor|]|].
  destruct (check_output tx i o) as [[]| |] eqn:E; simpl in Hc; try done.
  apply IH in Hc as [Hm Hz]. unfold check_output in E. res_inv. apply Z.ltb_ge in E1. split; [by constructor|].
  intros [|j] o' Ho; simpl in Ho.
  - injection Ho as <-.
    apply andb_false_iff in E0 as [E0%Z.eqb_neq|E0%negb_false_iff]; [by left|right].
    apply andb_true_iff in E0 as [[[Hs Hi%Nat.eqb_eq]%andb_true_iff _]%andb_true_iff Hp%Z.eqb_eq].
    split; [done|]. split; [lia|]. by apply zlen_0_inv.
  - destruct (Hz _ _ Ho) as [?|(_ & Hij & _)]; [by left|lia].
Qed.

Lemma check_outputs_safe tx outs : forall i, safe (check_outputs tx i outs).
Proof.
  induction outs as [|o outs IH]; intros i; simpl; [done|]. apply safe_bind; [|auto].
  unfold check_output. panic_free.
Qed.

Lemma see_inputs_NoDup l : forall seen seen',
  NoDup seen -> rfold see_input seen l = Ok seen' ->
  NoDup (map (fun i => (prev_txid i, prev_vout i)) l).
Proof.
  assert (forall l seen seen', NoDup seen -> rfold see_input seen l = Ok seen' ->
    NoDup seen' /\ seen' ≡ₚ map (fun i => (prev_txid i, prev_vout i)) l ++ seen) as Hgen.
  { clear l. induction l as [|i l IH]; intros seen seen' Hn Hf; simpl in Hf; [by injection Hf as <-|].
    destruct (see_input seen i) as [s1| |] eqn:E; simpl in Hf; try done.
    unfold see_input in E. case_decide; [done|]. injection E as <-.
    apply IH in Hf as [Hn' Hp]; [|by constructor]. split; [done|]. rewrite Hp. simpl.
    by rewrite <- Permutation_middle. }
  intros seen seen' Hn Hf. destruct (Hgen l seen seen' Hn Hf) as [Hn' Hp]. rewrite Hp in Hn'.
  by apply NoDup_app in Hn' as [? _].
Qed.

(** What [validate_transaction] guarantees. *)
Definition tx_rules (tx : Transaction) : Prop :=
  outputs tx <> [] /\ Forall (fun o => value o <= MAX_MONEY) (outputs tx) /\
  (forall j o, outputs tx !! j = Some o ->
     value o <> 0 \/ (is_coinstake tx = true /\ j = 0%nat /\ script_pubkey o = [])) /\
  (is_legacy_claim tx = true -> inputs tx = [] /\ claim_address tx <> None /\ claim_signature tx <> None) /\
  (is_coinstake tx = true -> length (inputs tx) = 1%nat) /\
  (is_legacy_claim tx = false -> is_coinbase tx = false ->
     inputs tx <> [] /\ NoDup (map (fun i => (prev_txid i, prev_vout i)) (inputs tx))).

Lemma kinds_disjoint tx : is_legacy_claim tx = true -> is_coinstake tx = true -> False.
Proof. unfold is_legacy_claim, is_coinstake. rewrite !bool_decide_eq_true. congruence. Qed.

Lemma validate_transaction_Ok tx : validate_transaction tx = Ok tt -> tx_rules tx.
Proof.
  unfold validate_transaction. intros Hv. destruct (Nat.eqb_spec (length (outputs tx)) 0) as [|Ho]; [done|].
  destruct (check_outputs tx 0 (outputs tx)) as [[]| |] eqn:E; simpl in Hv; try done.
  apply check_outputs_Ok in E as [Hm Hz].
  assert (outputs tx <> []) by by destruct (outputs tx).
  split; [done|]. split; [done|]. split; [exact Hz|]. pose proof (kinds_disjoint tx) as Hk.
  destruct (is_legacy_claim tx) eqn:El.
  { destruct (claim_address tx), (claim_signature tx); try done.
    destruct (Nat.eqb_spec (length (inputs tx)) 0) as [Hi|]; [|done]. apply length_zero_iff_nil in Hi.
    split; [done|]. split; [intros; by destruct Hk|done]. }
  destruct (is_coinstake tx) eqn:Es.
  { destruct (Nat.eqb_spec (length (inputs tx)) 1) as [Hi|]; [|done]. split; [done|]. split; [done|].
    intros _ _. destruct (inputs tx) as [|i [|? ?]]; try done. split; [done|]. apply NoDup_singleton. }
  split; [done|]. split; [done|]. intros _ Hc. rewrite Hc in Hv.
  destruct (Nat.eqb_spec (length (inputs tx)) 0) as [|Hi]; [done|].
  destruct (rfold see_input [] (inputs tx)) eqn:E; simpl in Hv; try done.
  split; [by destruct (inputs tx)|]. eapply see_inputs_NoDup; [apply NoDup_nil_2|done].
Qed.

Lemma validate_transaction_safe tx : safe (validate_transaction tx).
Proof.
  unfold validate_transaction. apply safe_if; intros _; [done|].
  apply safe_bind; [apply check_outputs_safe|]. intros _ _.
  repeat (apply safe_if; intros _); try done; [by destruct (claim_address tx), (claim_signature tx); try case_match|].
  apply safe_bind; [|done]. apply rfold_safe. intros a b. unfold see_input. by case_decide.
Qed.

Lemma validate_all_Ok txs : rfold (fun _ tx => validate_transaction tx) tt txs = Ok tt -> Forall tx_rules txs.
Proof.
  induction txs as [|tx txs IH]; simpl; [constructor|].
  destruct (validate_transaction tx) as [[]| |] eqn:E; simpl; try done. intros Hv.
  constructor; [by apply validate_transaction_Ok|by apply IH].
Qed.

(** ** Lemmas: the claim message *)

(** Splitting at the first separator. *)
Lemma split_at c (a b x y : bytes) :
  Forall (fun z => z <> c) a -> Forall (fun z => z <> c) b ->
  a ++ c :: x = b ++ c :: y -> a = b /\ x = y.
Proof.
  revert b; induction a as [|z a IH]; intros [|w b] Ha Hb E; simpl in E.
  - by injection E as ->.
  - injection E as <- _. apply Forall_inv in Hb. done.
  - injection E as -> _. apply Forall_inv in Ha. done.
  - injection E as <- E. apply Forall_cons in Ha as [_ Ha], Hb as [_ Hb].
    by destruct (IH b Ha Hb E) as [-> ->].
Qed.

(** A tail that is empty or begins with the separator. *)
Definition tail_of (c : Z) (x : bytes) : Prop := x = [] \/ exists x', x = c :: x'.

Lemma split_tail c (a b x y : bytes) :
  Forall (fun z => z <> c) a -> Forall (fun z => z <> c) b -> tail_of c x -> tail_of c y ->
  a ++ x = b ++ y -> a = b /\ x = y.
Proof.
  intros Ha Hb Hx Hy E.
  destruct Hx as [-> | [x' ->]], Hy as [-> | [y' ->]].
  - by rewrite !app_nil_r in E.
  - rewrite app_nil_r in E. subst a. apply Forall_app in Ha as [_ Ha%Forall_inv]. done.
  - rewrite app_nil_r in E. subst b. apply Forall_app in Hb as [_ Hb%Forall_inv]. done.
  - by destruct (split_at c a b x' y' Ha Hb E) as [-> ->].
Qed.

Fixpoint dec_val (l : bytes) : Z :=
  match l with [] => 0 | c :: l => (c - 48) + 10 * dec_val l end.

Lemma dec_val_rev n : forall z, 0 <= z < 10 ^ Z.of_nat n -> dec_val (dec_rev n z) = z.
Proof.
  induction n as [|n IH]; intros z Hz; [change (10 ^ Z.of_nat 0) with 1 in Hz; simpl; lia|].
  rewrite Nat2Z.inj_succ, Z.pow_succ_r in Hz by lia. cbn [dec_rev dec_val].
  pose proof (Z.div_mod z 10 ltac:(lia)). destruct (Z.eqb_spec (z / 10) 0) as [E|E]; [simpl; lia|].
  rewrite IH; [lia|]. split; [apply Z.div_pos; lia|apply Z.div_lt_upper_bound; lia].
Qed.

Lemma dec_string_inj a b :
  0 <= a < 10 ^ 20 -> 0 <= b < 10 ^ 20 -> dec_string a = dec_string b -> a = b.
Proof.
  intros Ha Hb E. apply (f_equal (@rev Z)) in E. unfold dec_string in E. rewrite !rev_involutive in E.
  rewrite <- (dec_val_rev 20 a), <- (dec_val_rev 20 b), E; done.
Qed.

Lemma dec_string_digits z : Forall (fun c => 48 <= c <= 57) (dec_string z).
Proof.
  unfold dec_string. apply Forall_rev. revert z. generalize 20%nat. induction n as [|n IH]; intros z; [constructor|].
  cbn [dec_rev]. pose proof (Z.mod_pos_bound z 10 ltac:(lia)). constructor; [lia|].
  case_match; [constructor|apply IH].
Qed.

Definition claim_output (o : TxOutput) : Prop := 0 <= value o <= u64_max /\ is_bytes (script_pubkey o).

Context {HL : HexLaws H}.

Definition output_text (o : TxOutput) : bytes :=
  [124] ++ dec_string (value o) ++ [58] ++ hex_encode (script_pubkey o).

Lemma outputs_text_tail outs : tail_of 124 (concat (map output_text outs)).
Proof. destruct outs; [by left|]. right. by eexists. Qed.

Lemma outputs_text_inj outs : forall outs',
  Forall claim_output outs -> Forall claim_output outs' ->
  concat (map output_text outs) = concat (map output_text outs') -> outs = outs'.
Proof.
  induction outs as [|o outs IH]; intros [|o' outs'] Ho Ho' E; try done.
  apply Forall_cons in Ho as [[Hv Hb] Ho], Ho' as [[Hv' Hb'] Ho'].
  cbn [map concat] in E. unfold output_text in E at 1 3. rewrite <- !app_assoc in E. cbn [app] in E.
  injection E as E.
  assert (forall z, Forall (fun c => c <> 58) (dec_string z)) as Hd
    by (intros z; eapply Forall_impl; [apply dec_string_digits|]; simpl; lia).
  assert (forall b, is_bytes b -> Forall (fun c => c <> 124) (hex_encode b)) as Hh
    by (intros b Hbb; eapply Forall_impl; [by apply hex_digits|]; simpl; lia).
  apply split_at in E as [Ev E]; [|apply Hd..].
  apply split_tail with (c := 124) in E as [Es E]; [|by apply Hh|by apply Hh|apply outputs_text_tail..].
  apply dec_string_inj in Ev; [|unfold u64_max in *; lia..]. apply hex_inj in Es; [|done..].
  apply IH in E as ->; [|done..]. destruct o, o'. simpl in *. by subst.
Qed.

Lemma message_varint_inj a b x y :
  0 <= a < 2 ^ 32 -> 0 <= b < 2 ^ 32 ->
  message_varint a ++ x = message_varint b ++ y -> a = b /\ x = y.
Proof.
  intros Ha Hb E.
  assert (forall z, 0 <= z < 2 ^ 32 -> message_varint z = varint z) as Hm.
  { intros z Hz. unfold message_varint, varint, as_u32.
    rewrite (proj2 (Z.leb_le z 0xffffffff)), Z.mod_small by lia. done. }
  rewrite !Hm in E by done. apply code_varint in E; [done|unfold u_range; simpl; lia..].
Qed.

(** The string that is hashed for a claim. *)
Definition claim_preimage (a : bytes) (o : list TxOutput) : bytes :=
  signed_preimage (str "vTorrent Signed Message v2" ++ [10]) (claim_message_v2 a o).

Lemma claim_hash_inj a a' o o' h :
  zlen (claim_message_v2 a o) < 2 ^ 32 -> zlen (claim_message_v2 a' o') < 2 ^ 32 ->
  collision_free (.∈ [claim_preimage a o; claim_preimage a' o']) ->
  claim_message_hash_v2 a o = Ok h -> claim_message_hash_v2 a' o' = Ok h ->
  claim_message_v2 a o = claim_message_v2 a' o'.
Proof.
  intros Hz Hz' Hc E E'. unfold claim_message_hash_v2, bitcoin_signed_message_hash in *.
  destruct (_ <? _); [done|]. injection E as <-. injection E' as E'. symmetry in E'.
  apply Hc in E'; [|left|right; left]. unfold signed_preimage in E'.
  cbn [app] in E'. injection E' as E'.
  apply message_varint_inj in E' as [_ ?]; [done|split; [apply zlen_nonneg|done]..].
Qed.

Lemma verify_claim_signature_Ok h addr sig :
  verify_claim_signature h addr sig = Ok tt ->
  exists pk compressed, length sig = 65%nat /\
    recover_ecdsa h (drop 1 sig) (Z.land (as_u8 (List.hd 0 sig - 27)) 3) = Some pk /\
    pubkey_to_vtorrent_address pk compressed = addr.
Proof.
  unfold verify_claim_signature. intros Hv.
  destruct (Z.eqb_spec (zlen sig) 65) as [Hz|]; [cbn [negb] in Hv|done].
  assert (length sig = 65%nat) as Hl by (unfold zlen in *; lia).
  destruct sig as [|b0 sig]; [done|]. change (vec_get (b0 :: sig) 0) with (Ok (E:=NodeError) b0) in Hv.
  cbn [rbind] in Hv. destruct (negb _); [done|]. destruct (negb (compact_ok _ _)); [done|].
  assert (slice 1 65 (b0 :: sig) = sig) as Esl.
  { unfold slice. change (Z.to_nat 1) with 1%nat. change (Z.to_nat (65 - 1)) with 64%nat. cbn [drop].
    rewrite drop_0. apply take_ge. simpl in Hl. lia. }
  rewrite Esl in Hv. destruct (recover_ecdsa _ _ _) as [pk|] eqn:Er; [cbn [ok_or rbind] in Hv|done].
  destruct (bytes_eqb _ addr) eqn:Ea; [|done]. apply bytes_eqb_eq in Ea.
  exists pk, (4 <=? as_u8 (b0 - 27)). split; [done|]. done.
Qed.

(** *** Properties *)

(** a legacy claim cannot be redirected.  The v2 message hash commits to the
    address and to every output: two claims, by addresses that do not contain the
    separator, with the same hash have the same address and the same outputs, unless
    the hash collides on the two strings that are signed. *)
Theorem claim_hash_commits (addr addr' : bytes) (outs outs' : list TxOutput) (h : bytes) :
  Forall (fun c => c <> 124) addr -> Forall (fun c => c <> 124) addr' ->
  Forall claim_output outs -> Forall claim_output outs' ->
  zlen (claim_message_v2 addr outs) < 2 ^ 32 -> zlen (claim_message_v2 addr' outs') < 2 ^ 32 ->
  collision_free (.∈ [claim_preimage addr outs; claim_preimage addr' outs']) ->
  claim_message_hash_v2 addr outs = Ok h -> claim_message_hash_v2 addr' outs' = Ok h ->
  addr = addr' /\ outs = outs'.
Proof.
  intros Ha Ha' Ho Ho' Hz Hz' Hc E E'. pose proof (claim_hash_inj _ _ _ _ _ Hz Hz' Hc E E') as Em.
  apply split_tail with (c := 124) in Em as [-> Em]; [|done|done|apply (outputs_text_tail outs)|apply (outputs_text_tail outs')].
  split; [done|]. by apply outputs_text_inj.
Qed.

(** an accepted legacy claim pays out exactly the snapshot balance, and its
    signature recovers, over the address and the outputs, a public key whose
    address is the claimed one. *)
Theorem legacy_claim_accepted (tx : Transaction) (balance : Z) :
  validate_legacy_claim tx balance = Ok tt ->
  exists addr sig h pk compressed,
    claim_address tx = Some addr /\ claim_signature tx = Some sig /\ length sig = 65%nat /\
    0 <> balance /\ sat_sum (map value (outputs tx)) = balance /\
    claim_message_hash_v2 addr (outputs tx) = Ok h /\
    recover_ecdsa h (drop 1 sig) (Z.land (as_u8 (List.hd 0 sig - 27)) 3) = Some pk /\
    pubkey_to_vtorrent_address pk compressed = addr.
Proof.
  unfold validate_legacy_claim. intros Hv. destruct (negb _); [done|].
  destruct (claim_address tx) as [addr|]; [cbn [ok_or rbind] in Hv|done].
  destruct (Z.eqb_spec balance 0); [done|]. destruct (Z.eqb_spec (total_output tx) balance); [cbn [negb] in Hv|done].
  destruct (claim_signature tx) as [sig|]; [cbn [ok_or rbind] in Hv|done].
  destruct (claim_message_hash_v2 addr (outputs tx)) as [h| |] eqn:Eh; [cbn [rbind] in Hv|done..].
  destruct (verify_claim_signature h addr sig) as [[]| |] eqn:Es; try done.
  apply verify_claim_signature_Ok in Es as (pk & c & Hl & Hr & Hp). by exists addr, sig, h, pk, c.
Qed.

(** C30: staking rewards.  For a stake within the supply the reward never wraps and
    never panics: it is the exact quotient, at most 6/7300 of the stake, it does
    not decrease with age, and splitting a stake never pays. *)
Theorem pos_reward_exact (a b age age' : Z) :
  0 <= a -> 0 <= b -> a + b <= MAX_SUPPLY -> 0 <= age <= age' ->
  exists ra rb rab rab',
    compute_pos_reward a age = Ok ra /\ compute_pos_reward b age = Ok rb /\
    compute_pos_reward (a + b) age = Ok rab /\ compute_pos_reward (a + b) age' = Ok rab' /\
    ra = a * Z.min age (6 * 86400) * 500 / (10000 * 86400 * 365) /\
    0 <= ra /\ 7300 * ra <= 6 * a /\ ra + rb <= rab <= ra + rb + 1 /\ rab <= rab'.
Proof.
  intros Ha Hb Hab Hage. exists (reward_spec a age), (reward_spec b age), (reward_spec (a + b) age),
    (reward_spec (a + b) age'). rewrite !compute_pos_reward_spec by lia.
  split; [done|]. split; [done|]. split; [done|]. split; [done|]. split; [done|].
  unfold reward_spec. change MAX_STAKE_AGE with 518400.
  set (g := Z.min age 518400). assert (0 <= g <= 518400) as Hg by (unfold g; lia).
  assert (g <= Z.min age' 518400) as Hg' by (unfold g; lia).
  split; [apply Z.div_pos; nia|]. split.
  { pose proof (Z.mul_div_le (a * g * 500) 315360000000 ltac:(lia)). nia. }
  split; [|apply Z.div_le_mono; nia].
  replace ((a + b) * g * 500) with (a * g * 500 + b * g * 500) by lia.
  generalize (a * g * 500) (b * g * 500). intros x y.
  pose proof (Z.div_mod x 315360000000 ltac:(lia)). pose proof (Z.mod_pos_bound x 315360000000 ltac:(lia)).
  pose proof (Z.div_mod y 315360000000 ltac:(lia)). pose proof (Z.mod_pos_bound y 315360000000 ltac:(lia)).
  pose proof (Z.div_mod (x + y) 315360000000 ltac:(lia)). pose proof (Z.mod_pos_bound (x + y) 315360000000 ltac:(lia)).
  lia.
Qed.

(** the stake kernel is proportional to the stake.  A UTXO is accepted exactly
    when its 32-bit kernel value is at most [value * 2^32 / total_staked]; the only
    staker always wins; and a staker who leaves at least the minimum stake to
    others, in a staked supply within the maximum supply, does not win with the
    largest kernel value. *)
Theorem kernel_proportional {L : CryptoLaws C} (m t total : Z) (u : Utxo) :
  0 < total -> 0 <= utxo_value u ->
  (check_stake_kernel_v2 m u t total = true <-> kernel_val m u t <= utxo_value u * 2 ^ 32 / total) /\
  (total <= utxo_value u -> check_stake_kernel_v2 m u t total = true) /\
  (total <= MAX_SUPPLY -> utxo_value u + MIN_STAKE_AMOUNT <= total -> kernel_val m u t = u32_max ->
     check_stake_kernel_v2 m u t total = false).
Proof.
  intros Ht Hv. rewrite kernel_v2_spec by done. pose proof (kernel_val_range m u t) as Hk.
  split; [|split].
  - rewrite Z.leb_le. split; intros Hx.
    + apply Z.div_le_lower_bound; [done|lia].
    + pose proof (Z.mul_div_le (utxo_value u * 2 ^ 32) total Ht). nia.
  - intros Hall. apply Z.leb_le. unfold u32_max in Hk. nia.
  - intros Hs Hm Hu. apply Z.leb_gt. rewrite Hu. unfold u32_max.
    change MAX_SUPPLY with 2000000000000000 in *. change MIN_STAKE_AMOUNT with 100000000 in *. lia.
Qed.

(** No block accepted under the first kernel rule is refused by the second as
    long as at most [1000 * 2^32] satoshis are staked. *)
Theorem kernel_v1_implies_v2 {L : CryptoLaws C} (m t total : Z) (u : Utxo) :
  0 < total <= 1000 * 2 ^ 32 -> 0 <= utxo_value u ->
  check_stake_kernel m u t = true -> check_stake_kernel_v2 m u t total = true.
Proof.
  intros Ht Hv H1. rewrite kernel_v2_spec by lia. unfold check_stake_kernel in H1. apply Z.leb_le in H1.
  apply Z.leb_le. pose proof (kernel_val_range m u t).
  pose proof (Z.mul_div_le (utxo_value u) 1000 ltac:(lia)). nia.
Qed.

Lemma validate_block_safe now b ph pt pb pm hash pow :
  ph < u32_max -> safe (validate_block_inner now b ph pt pb pm hash pow).
Proof.
  intros Hh. unfold validate_block_inner. destruct (transactions b) as [|tx txs]; [done|].
  apply safe_if; intros _; [done|]. unfold padd, checked_add.
  rewrite (proj2 (Z.leb_le _ _)) by lia. cbn [unwrap rbind].
  apply safe_if; intros _; [done|]. apply safe_if; intros _; [done|]. apply safe_if; intros _; [done|].
  apply safe_bind; [unfold check_first_tx; panic_free|]. intros _ _.
  repeat (apply safe_if; intros _; [done|]).
  unfold compute_merkle_root. destruct (compute_merkle_root_total (map txid (transactions b))) as [r ->].
  cbn [no_err rbind]. apply safe_if; intros _; [done|]. apply rfold_safe. intros; apply validate_transaction_safe.
Qed.

(** C25: block validation is total and what it accepts is well-formed.  Below the
    last height it never panics.  An accepted block follows its parent in height,
    difficulty and stake modifier; its time is after the parent's and at most two
    hours ahead; its Merkle root is that of its transactions; every transaction
    obeys the transaction rules (no output above the supply or empty, no input
    twice, ..); and exactly the first transaction may create coins: it is a
    coinstake, or the single claim of block 1, never a coinbase. *)
Theorem validate_block_sound (now : Z) (b : Block) (ph pt pb pm : Z) (hash : bytes) :
  ph < u32_max ->
  validate_block now b ph pt pb pm hash <> Panic /\
  (validate_block now b ph pt pb pm hash = Ok tt ->
   exists tx txs, transactions b = tx :: txs /\
     lock_time tx = ph + 1 /\ bits (header b) = pb /\
     stake_modifier (header b) = compute_stake_modifier pm hash /\
     pt < timestamp (header b) <= now + 7200 /\
     compute_merkle_root b = Ok (merkle_root (header b)) /\
     Forall tx_rules (tx :: txs) /\
     (is_coinstake tx = true \/ (ph = 0 /\ is_legacy_claim tx = true /\ txs = [])) /\
     Forall (fun t => is_coinbase t = false /\ is_coinstake t = false) txs).
Proof.
  intros Hph. split; [by apply validate_block_safe|]. unfold validate_block, validate_block_inner.
  intros Hv. destruct (transactions b) as [|tx txs] eqn:Et; [done|]. exists tx, txs. split; [done|].
  destruct (_ <? unwrap_or _ _); [done|]. unfold padd, checked_add in Hv.
  rewrite (proj2 (Z.leb_le _ _)) in Hv by lia. cbn [unwrap rbind] in Hv.
  destruct (Z.eqb_spec (height b) (ph + 1)) as [Eh|]; [cbn [negb] in Hv|done].
  destruct (Z.eqb_spec (bits (header b)) pb); [cbn [negb] in Hv|done].
  destruct (Z.eqb_spec (stake_modifier (header b)) (compute_stake_modifier pm hash)); [cbn [negb] in Hv|done].
  destruct (check_first_tx b tx ph false) as [[]| |] eqn:Ef; [cbn [rbind] in Hv|done..].
  destruct (existsb _ txs) eqn:Ex; [done|]. destruct (Z.ltb_spec (sat_add u32_max now 7200) (timestamp (header b))); [done|].
  destruct (Z.leb_spec (timestamp (header b)) pt); [done|].
  destruct (compute_merkle_root b) as [r| |] eqn:Er; [cbn [no_err rbind] in Hv|done..].
  destruct (bytes_eqb r _) eqn:Eb; [cbn [negb] in Hv|done]. apply bytes_eqb_eq in Eb as ->.
  assert (lock_time tx = ph + 1) by (unfold height in Eh; by rewrite Et in Eh).
  split; [done|]. split; [done|]. split; [done|]. split; [unfold sat_add in *; lia|]. split; [done|].
  split; [by apply validate_all_Ok|]. split.
  - unfold check_first_tx in Ef. rewrite Et in Ef. destruct (is_pos (header b)); [|done].
    destruct (is_coinstake tx); [by left|right]. cbn [negb andb] in Ef.
    destruct (_ && _) eqn:Eb; [|done].
    apply andb_true_iff in Eb as [[Ep%Z.eqb_eq El]%andb_true_iff En%Nat.eqb_eq]. by destruct txs.
  - apply Forall_forall. intros t Ht. apply orb_false_iff. apply not_true_is_false. intros Ht'.
    apply not_true_iff_false in Ex. apply Ex, existsb_exists. exists t. split; [by apply list_elem_of_In|done].
Qed.

End consensus.

(** ** Hexadecimal digits: an instance of the class *)

Definition hex_digit (d : Z) : Z := if d <? 10 then 48 + d else 87 + d.

#[export] Instance hex_lower : Hex :=
  fun l => concat (map (fun b => [hex_digit (b / 16); hex_digit (b mod 16)]) l).

#[export] Instance hex_lower_laws : HexLaws hex_lower.
Proof.
  assert (forall b, is_byte b -> 0 <= b / 16 < 16 /\ 0 <= b mod 16 < 16) as Hd.
  { intros b Hb. unfold is_byte in Hb. split; [|apply Z.mod_pos_bound; lia].
    split; [apply Z.div_pos; lia|apply Z.div_lt_upper_bound; lia]. }
  split.
  - induction a as [|x a IH]; intros [|y b] Ha Hb E; try done. apply Forall_cons in Ha as [Hx Ha], Hb as [Hy Hb].
    unfold hex_encode, hex_lower in E. cbn [map concat app] in E. injection E as E1 E2 E3.
    pose proof (Hd x Hx). pose proof (Hd y Hy). pose proof (Z.div_mod x 16 ltac:(lia)).
    pose proof (Z.div_mod y 16 ltac:(lia)). unfold hex_digit in E1, E2. f_equal; [|by apply IH].
    destruct (Z.ltb_spec (x / 16) 10), (Z.ltb_spec (y / 16) 10), (Z.ltb_spec (x mod 16) 10),
      (Z.ltb_spec (y mod 16) 10); lia.
  - induction a as [|x a IH]; intros Ha; [constructor|]. apply Forall_cons in Ha as [Hx Ha].
    destruct (Hd x Hx). unfold hex_encode, hex_lower, hex_digit in *. cbn [map concat app].
    constructor; [destruct (Z.ltb_spec (x / 16) 10); lia|]. constructor; [|by apply IH].
    destruct (Z.ltb_spec (x mod 16) 10); lia.
Qed.

(** ** Witnesses *)

Module ConsensusWitness.
#[local] Existing Instance bincode_layout.
#[local] Existing Instance bincode_layout_laws.
#[local] Existing Instance any_order.
#[local] Existing Instance any_order_laws.

Definition outs0 : list TxOutput := [mkTxOutput 500 [0x51]; mkTxOutput 7 []].

Lemma claim_hash_commits_witness : [86] = [86] /\ outs0 = outs0.
Proof.
  apply (claim_hash_commits (C:=toy) (H:=hex_lower) [86] [86] outs0 outs0
    (match claim_message_hash_v2 [86] outs0 with Ok h => h | _ => [] end));
    [by apply Forall_singleton|by apply Forall_singleton| | |by vm_compute|by vm_compute
    |apply collision_free_check; by vm_compute|by vm_compute..].
  all: repeat (apply Forall_cons; split); try constructor; simpl; unfold u64_max; try lia; by apply is_bytes_check.
Defined.

Definition sig0 : bytes := 31 :: repeat 1 64.
Definition addr0 : bytes := pubkey_to_vtorrent_address (repeat 1 64) true.
Definition claim0 : Transaction := mkTx 1 LegacyClaim [] outs0 1 (Some addr0) (Some sig0).

Lemma legacy_claim_accepted_witness :
  exists addr sig h pk compressed,
    claim_address claim0 = Some addr /\ claim_signature claim0 = Some sig /\ length sig = 65%nat /\
    0 <> 507 /\ sat_sum (map value (outputs claim0)) = 507 /\
    claim_message_hash_v2 addr (outputs claim0) = Ok h /\
    recover_ecdsa h (drop 1 sig) (Z.land (as_u8 (List.hd 0 sig - 27)) 3) = Some pk /\
    pubkey_to_vtorrent_address pk compressed = addr.
Proof. apply (legacy_claim_accepted (C:=toy) (H:=hex_lower) claim0 507). by vm_compute. Defined.

Lemma pos_reward_exact_witness :
  exists ra rb rab rab',
    compute_pos_reward (3 * COIN) 90000 = Ok ra /\ compute_pos_reward (5 * COIN) 90000 = Ok rb /\
    compute_pos_reward (3 * COIN + 5 * COIN) 90000 = Ok rab /\
    compute_pos_reward (3 * COIN + 5 * COIN) 600000 = Ok rab' /\
    ra = 3 * COIN * Z.min 90000 (6 * 86400) * 500 / (10000 * 86400 * 365) /\
    0 <= ra /\ 7300 * ra <= 6 * (3 * COIN) /\ ra + rb <= rab <= ra + rb + 1 /\ rab <= rab'.
Proof. apply (pos_reward_exact (3 * COIN) (5 * COIN) 90000 600000); unfold MAX_SUPPLY, COIN; lia. Defined.

Definition utxo0 : Utxo := mkUtxo (repeat 7 32) 0 (3 * COIN) [] 1 2.

Lemma kernel_proportional_witness : check_stake_kernel_v2 9 utxo0 100 (3 * COIN) = true.
Proof. apply (kernel_proportional (C:=toy) 9 100 (3 * COIN) utxo0); vm_compute; done. Defined.

Lemma kernel_v1_implies_v2_witness :
  check_stake_kernel_v2 9 (mkUtxo (repeat 0 32) 0 (30000 * COIN) [] 1 2) 0 (40000 * COIN) = true.
Proof.
  apply (kernel_v1_implies_v2 (C:=toy) 9 0 (40000 * COIN) (mkUtxo (repeat 0 32) 0 (30000 * COIN) [] 1 2));
    vm_compute; done.
Defined.

Definition stake0 : Transaction :=
  mkTx 1 Coinstake [mkTxInput (repeat 7 32) 0 [] 0xffffffff] [mkTxOutput 0 []; mkTxOutput 5 [0x51]] 8 None None.

Definition header0 : BlockHeader :=
  mkHeader 2 (repeat 4 32) (txid stake0) (repeat 0 32) 1000 77 0 (compute_stake_modifier 5 (repeat 4 32)).

Definition block0 : Block := mkBlock header0 [stake0].

Lemma validate_block_sound_witness :
  exists tx txs, transactions block0 = tx :: txs /\
     lock_time tx = 7 + 1 /\ bits (header block0) = 77 /\
     stake_modifier (header block0) = compute_stake_modifier 5 (repeat 4 32) /\
     900 < timestamp (header block0) <= 950 + 7200 /\
     compute_merkle_root block0 = Ok (merkle_root (header block0)) /\
     Forall tx_rules (tx :: txs) /\
     (is_coinstake tx = true \/ (7 = 0 /\ is_legacy_claim tx = true /\ txs = [])) /\
     Forall (fun t => is_coinbase t = false /\ is_coinstake t = false) txs.
Proof.
  apply (validate_block_sound (C:=toy) (B:=bincode_layout) 950 block0 7 900 77 5 (repeat 4 32)); by vm_compute.
Defined.

End ConsensusWitness.
