(* ===== verification/Deployments.v ===== *)
(** * Version-bits deployments

    Models [vtorrent-node/src/deployments.rs]: the state of a BIP-9 style
    deployment at a tip, from the number of signalling blocks per period. *)

From stdpp Require Import base list.
From Stdlib Require Import ZArith Lia.
From S2P Require Import Prelude.

Record Deployment : Type := mkDeployment {
  name : bytes;
  bit : Z;
  start_height : Z;
  timeout_height : Z;
}.

Inductive DeploymentState : Type := Defined | Started | LockedIn | Active | Failed.

#[export] Instance DeploymentState_eq_dec : EqDecision DeploymentState.
Proof. solve_decision. Defined.

Definition DEFAULT_PERIOD : Z := 2016.
Definition DEFAULT_THRESHOLD_PCT : Z := 90.

(** [governance_deployment]: nothing is scheduled. *)
Definition governance_deployment : option Deployment := None.

Definition signals (d : Deployment) (version : Z) : bool :=
  Z.land (Z.shiftr version (bit d)) 1 =? 1.

Definition div_ceil (a b : Z) : Z := (a + b - 1) / b.

(** The threshold test of a period. *)
Definition reached (period threshold_pct signalled : Z) : bool :=
  sat_mul u32_max period threshold_pct <=? sat_mul u32_max signalled 100.

(** [signals_per_period.get(p).copied().unwrap_or(0)]. *)
Definition signalled_in (sigs : list Z) (p : Z) : Z :=
  match vec_at sigs p with Some n => n | None => 0 end.

(** The [while] loop from period [p]. *)
Fixpoint scan (fuel : nat) (d : Deployment) (period threshold_pct last_completed : Z)
    (sigs : list Z) (p : Z) : option Z :=
  match fuel with
  | O => None
  | S fuel =>
      if (p <=? last_completed) && ((p + 1) * period <? timeout_height d) then
        if reached period threshold_pct (signalled_in sigs p) then Some p
        else scan fuel d period threshold_pct last_completed sigs (p + 1)
      else None
  end.

(** [deployment_state]; the loop visits at most the completed periods. *)
Definition deployment_state (d : Deployment) (period threshold_pct tip_height : Z)
    (sigs : list Z) : DeploymentState :=
  if (period =? 0) || (threshold_pct =? 0) || (100 <? threshold_pct) then Defined else
  if tip_height <? start_height d then Defined else
  let start_period := div_ceil (start_height d) period in
  let tip_period := tip_height / period in
  let last_completed := sat_sub tip_period 1 in
  match scan (Z.to_nat (tip_period + 1)) d period threshold_pct last_completed sigs start_period with
  | Some lip => if sat_add u32_max lip 2 <=? tip_period then Active else LockedIn
  | None => if timeout_height d <=? tip_height then Failed else Started
  end.

(** ** The loop *)

(** A period in which the deployment can lock in, seen from a tip. *)
Definition eligible (d : Deployment) (period threshold_pct last_completed : Z) (sigs : list Z) (p : Z) : Prop :=
  p <= last_completed /\ (p + 1) * period < timeout_height d /\
  reached period threshold_pct (signalled_in sigs p) = true.

Lemma scan_Some fuel d period th lc sigs : forall p q,
  scan fuel d period th lc sigs p = Some q ->
  p <= q /\ eligible d period th lc sigs q /\ forall r, p <= r < q -> ~ eligible d period th lc sigs r.
Proof.
  induction fuel as [|fuel IH]; intros p q H; simpl in H; [done|].
  destruct (_ && _) eqn:E; [|done]. bool_prop. destruct (reached _ _ _) eqn:R.
  - injection H as <-. split; [lia|]. split; [done|]. lia.
  - apply IH in H as (Hle & He & Hr). split; [lia|]. split; [done|]. intros r Hr'.
    destruct (decide (r = p)) as [-> | Hne]; [intros (_&_&?); congruence|]. apply Hr. lia.
Qed.

(** Enough fuel: the loop stops only when no later period is eligible. *)
Lemma scan_None fuel d period th lc sigs : forall p,
  0 < period -> lc < p + Z.of_nat fuel -> scan fuel d period th lc sigs p = None ->
  forall r, p <= r -> ~ eligible d period th lc sigs r.
Proof.
  induction fuel as [|fuel IH]; intros p Hper Hf H r Hr (H1 & H2 & H3); [lia|].
  simpl in H. destruct (_ && _) eqn:E.
  - destruct (reached _ _ _) eqn:R; [done|]. bool_prop. destruct (decide (r = p)) as [-> | Hne]; [congruence|].
    eapply (IH (p + 1)); [done|lia|done| |done]. lia.
  - apply andb_false_iff in E as [E|E]; bool_prop; [lia|nia].
Qed.

Lemma scan_least d period th lc sigs n p0 q :
  0 < period -> lc < p0 + Z.of_nat n ->
  scan n d period th lc sigs p0 = Some q <->
  p0 <= q /\ eligible d period th lc sigs q /\ forall r, p0 <= r < q -> ~ eligible d period th lc sigs r.
Proof.
  intros Hp Hf. split; [apply scan_Some|]. intros (Hq & He & Hr).
  destruct (scan n d period th lc sigs p0) as [q'|] eqn:E.
  - apply scan_Some in E as (Hq' & He' & Hr'). f_equal.
    destruct (Z.lt_trichotomy q q') as [Hlt|[->|Hlt]]; [|done|].
    + by destruct (Hr' q ltac:(lia)).
    + by destruct (Hr q' ltac:(lia)).
  - by destruct (scan_None _ _ _ _ _ _ _ Hp Hf E q Hq).
Qed.

(** The signal counts of two tips agree on the periods completed at the first. *)
Definition extends (period tip : Z) (sigs sigs' : list Z) : Prop :=
  forall p, 0 <= p < tip / period -> signalled_in sigs p = signalled_in sigs' p.

Lemma eligible_extends d period th tip tip' sigs sigs' p :
  0 < period -> 0 <= p -> 0 <= tip <= tip' -> extends period tip sigs sigs' -> p < tip / period ->
  eligible d period th (sat_sub (tip / period) 1) sigs p <->
  eligible d period th (sat_sub (tip' / period) 1) sigs' p.
Proof.
  intros Hper Hp Ht Hx Hc. unfold eligible, sat_sub. rewrite (Hx p) by lia.
  pose proof (Z.div_le_mono tip tip' period Hper ltac:(lia)). split; intros (?&?&?); split; (lia || done).
Qed.

Lemma deployment_state_unfold d period th tip sigs :
  0 < period -> 1 <= th <= 100 -> start_height d <= tip ->
  deployment_state d period th tip sigs =
  match scan (Z.to_nat (tip / period + 1)) d period th (sat_sub (tip / period) 1) sigs
          (div_ceil (start_height d) period) with
  | Some lip => if sat_add u32_max lip 2 <=? tip / period then Active else LockedIn
  | None => if timeout_height d <=? tip then Failed else Started
  end.
Proof.
  intros. unfold deployment_state.
  rewrite (proj2 (Z.eqb_neq period 0)), (proj2 (Z.eqb_neq th 0)), (proj2 (Z.ltb_ge 100 th)),
    (proj2 (Z.ltb_ge tip _)) by lia. done.
Qed.

(** A state other than [Defined] fixes the parameters. *)
Lemma deployment_state_started d period th tip sigs :
  deployment_state d period th tip sigs <> Defined -> period <> 0 /\ th <> 0 /\ th <= 100 /\ start_height d <= tip.
Proof.
  unfold deployment_state. destruct (_ || _) eqn:E; [done|]. destruct (Z.ltb_spec tip (start_height d)); [done|].
  intros _. bool_prop. lia.
Qed.

Section permanence.
Variables (d : Deployment) (period th tip tip' : Z) (sigs sigs' : list Z).
Hypothesis Hperiod : 0 <= period.
Hypothesis Hth : 0 <= th.
Hypothesis Hstart : 0 <= start_height d.
Hypothesis Htip : 0 <= tip <= tip'.
Hypothesis Hext : extends period tip sigs sigs'.

Let p0 := div_ceil (start_height d) period.
Let fuel t := Z.to_nat (t / period + 1).
Let el t s := eligible d period th (sat_sub (t / period) 1) s.

Lemma p0_nonneg : 0 < period -> 0 <= p0.
Proof. intros. unfold p0, div_ceil. apply Z.div_pos; lia. Qed.

Lemma fuel_enough t : 0 < period -> 0 <= t -> sat_sub (t / period) 1 < p0 + Z.of_nat (fuel t).
Proof.
  intros Hp Ht. pose proof (p0_nonneg Hp). pose proof (Z.div_pos t period Ht Hp).
  unfold fuel, sat_sub. lia.
Qed.

(** A lock-in in a period completed at the first tip is seen from both. *)
Lemma scan_completed q :
  0 < period -> q < tip / period ->
  scan (fuel tip) d period th (sat_sub (tip / period) 1) sigs p0 = Some q ->
  scan (fuel tip') d period th (sat_sub (tip' / period) 1) sigs' p0 = Some q.
Proof.
  intros Hp Hq. pose proof (p0_nonneg Hp).
  rewrite !scan_least by (try apply fuel_enough; lia).
  intros (Hle & He & Hr). split; [done|].
  assert (forall r, p0 <= r <= q -> el tip sigs r <-> el tip' sigs' r) as Hel.
  { intros r Hr'. apply eligible_extends; (done || lia). }
  split; [apply Hel; [lia|done]|]. intros r Hr' Hx. apply (Hr r Hr'), Hel; [lia|done].
Qed.

Lemma active_at_later :
  deployment_state d period th tip sigs = Active -> deployment_state d period th tip' sigs' = Active.
Proof.
  intros H. destruct (deployment_state_started d period th tip sigs) as (?&?&?&?); [by rewrite H|].
  rewrite deployment_state_unfold in H by lia.
  destruct (scan _ _ _ _ _ _ _) as [q|] eqn:E; [|by case_match].
  destruct (Z.leb_spec (sat_add u32_max q 2) (tip / period)) as [Hq|]; [|done].
  pose proof (scan_Some _ _ _ _ _ _ _ _ E) as (Hle & (Hc & _) & _). pose proof (p0_nonneg ltac:(lia)).
  fold p0 in Hle. unfold sat_sub, sat_add, u32_max in *.
  rewrite deployment_state_unfold by lia.
  pose proof (scan_completed q ltac:(lia) ltac:(lia) E) as E'. unfold fuel, p0, sat_sub in E'. unfold sat_sub. rewrite E'.
  pose proof (Z.div_le_mono tip tip' period ltac:(lia) ltac:(lia)).
  unfold sat_add, u32_max. rewrite (proj2 (Z.leb_le _ _)) by lia. done.
Qed.

Lemma failed_at_later :
  deployment_state d period th tip sigs = Failed -> deployment_state d period th tip' sigs' = Failed.
Proof.
  intros H. destruct (deployment_state_started d period th tip sigs) as (?&?&?&?); [by rewrite H|].
  rewrite deployment_state_unfold in H by lia.
  destruct (scan _ _ _ _ _ _ _) as [q|] eqn:E; [by case_match|].
  destruct (Z.leb_spec (timeout_height d) tip) as [Ht|]; [|done].
  rewrite deployment_state_unfold by lia. pose proof (p0_nonneg ltac:(lia)).
  destruct (scan (Z.to_nat (tip' / period + 1)) _ _ _ _ _ _) as [q|] eqn:E'.
  - apply scan_Some in E' as (Hle & He & _). fold p0 in Hle. pose proof He as (_ & Hto & _).
    pose proof (Z.div_le_lower_bound tip period (q + 1) ltac:(lia) ltac:(lia)).
    assert (0 < period) as Hpos by lia.
    destruct (scan_None (fuel tip) d period th _ sigs p0 Hpos (fuel_enough tip Hpos ltac:(lia)) E q Hle).
    apply (eligible_extends d period th tip tip' sigs sigs'); (done || lia).
  - by rewrite (proj2 (Z.leb_le _ _)) by lia.
Qed.

End permanence.

(** *** Properties *)

(** activation and failure are final.  Once a deployment is [Active] at a tip
    it is [Active] at every later tip, and once [Failed] it stays [Failed],
    whatever the blocks after the first tip signal. *)
Theorem deployment_final (d : Deployment) (period th tip tip' : Z) (sigs sigs' : list Z) :
  0 <= period -> 0 <= th -> 0 <= start_height d -> 0 <= tip <= tip' ->
  extends period tip sigs sigs' ->
  (deployment_state d period th tip sigs = Active -> deployment_state d period th tip' sigs' = Active) /\
  (deployment_state d period th tip sigs = Failed -> deployment_state d period th tip' sigs' = Failed).
Proof. intros. split; [by apply active_at_later|by apply failed_at_later]. Qed.

(** what an activation rests on.  A deployment is [Active] only if some period
    that began at or after the start height ended before the timeout with at least
    the threshold share of its blocks signalling, and one more full period has
    passed since. *)
Theorem deployment_active_sound (d : Deployment) (period th tip : Z) (sigs : list Z) :
  0 <= period <= 42949672 -> 0 <= th -> 0 <= start_height d -> 0 <= tip < u32_max ->
  Forall (fun n => 0 <= n <= u32_max) sigs ->
  deployment_state d period th tip sigs = Active ->
  exists p, start_height d <= p * period /\ (p + 1) * period < timeout_height d /\
            period * th <= 100 * signalled_in sigs p /\ (p + 2) * period <= tip.
Proof.
  intros Hper Hth Hst Htip Hsig H.
  destruct (deployment_state_started d period th tip sigs) as (?&?&?&?); [by rewrite H|].
  rewrite deployment_state_unfold in H by lia.
  destruct (scan _ _ _ _ _ _ _) as [q|] eqn:E; [|by case_match].
  destruct (Z.leb_spec (sat_add u32_max q 2) (tip / period)) as [Hq|]; [|done].
  apply scan_Some in E as (Hle & (Hc & Hto & Hr) & _).
  pose proof (Z.div_le_upper_bound tip period tip ltac:(lia) ltac:(nia)).
  unfold sat_add, u32_max in *. exists q. split; [|split; [done|split]].
  - unfold div_ceil in Hle. pose proof (Z.div_mod (start_height d + period - 1) period ltac:(lia)).
    pose proof (Z.mod_pos_bound (start_height d + period - 1) period ltac:(lia)). nia.
  - unfold reached, sat_mul, u32_max in Hr. apply Z.leb_le in Hr.
    assert (0 <= signalled_in sigs q <= 4294967295) as Hs.
    { unfold signalled_in, vec_at. destruct (0 <=? q); [|lia]. destruct (sigs !! Z.to_nat q) eqn:El; [|lia].
      by eapply Forall_lookup_1 in Hsig. }
    nia.
  - pose proof (Z.div_mod tip period ltac:(lia)). pose proof (Z.mod_pos_bound tip period ltac:(lia)). nia.
Qed.

(** The first period counts before it is over.  With a start height of zero, a
    tip inside period 0 already reports [LockedIn] when enough of its blocks so
    far signal, although only completed periods are meant to be considered. *)
Theorem first_period_counts_early :
  deployment_state (mkDeployment [] 1 0 100000) DEFAULT_PERIOD DEFAULT_THRESHOLD_PCT 1900 [1815] = LockedIn.
Proof. by vm_compute. Qed.

Lemma deployment_final_witness :
  deployment_state (mkDeployment [] 1 0 100000) 10 90 500 [0; 9] = Active.
Proof.
  apply (deployment_final (mkDeployment [] 1 0 100000) 10 90 30 500 [0; 9] [0; 9]);
    simpl; try lia; done.
Defined.

Lemma deployment_active_sound_witness :
  exists p, 0 <= p * 10 /\ (p + 1) * 10 < 100000 /\ 10 * 90 <= 100 * signalled_in [0; 9] p /\ (p + 2) * 10 <= 30.
Proof.
  apply (deployment_active_sound (mkDeployment [] 1 0 100000) 10 90 30 [0; 9]);
    unfold u32_max; simpl; try lia; [|done].
  repeat (apply Forall_cons; split); (lia || constructor).
Defined.
