(* ===== verification/Governance.v ===== *)
(** * On-chain governance

    Models [vtorrent-node/src/governance.rs]: proposals and signed votes carried in
    data outputs, vote locks on staked outputs, the decision and activation of
    proposals at the start of a block, and the undo records that restore the state
    before a block or before a tentative transaction.

    The ordered maps are finite maps ([gmap]); where the source iterates over one in
    key order, [in_order] lists it.  Signing a vote ([SignedVote::sign]) is an
    operation of the [secp256k1] crate on a secret key and is not modelled. *)

From stdpp Require Import base list gmap sorting strings.
From Stdlib Require Import ZArith Lia.
From S2P Require Import Prelude Script Crypto Engine Standard Merkle Codec Block Address Consensus.
Import Scripts.

(** ** Ordered maps *)

Definition bytes_leb (a b : bytes) : bool :=
  match bytes_cmp a b with Gt => false | _ => true end.

Definition key_le {K V} (leb : K -> K -> bool) (a b : K * V) : Prop := leb a.1 b.1 = true.

#[export] Instance key_le_dec {K V} (leb : K -> K -> bool) : RelDecision (key_le (V:=V) leb).
Proof. unfold key_le. solve_decision. Defined.

(** The entries of a [BTreeMap] in the order of its keys. *)
Definition in_order {K V} `{Countable K} (leb : K -> K -> bool) (m : gmap K V) : list (K * V) :=
  merge_sort (key_le leb) (map_to_list m).

Definition OutPoint : Type := bytes * Z.

Definition outpoint_le (a b : OutPoint) : Prop := outpoint_leb a b = true.

#[export] Instance outpoint_le_dec : RelDecision outpoint_le.
Proof. unfold outpoint_le. solve_decision. Defined.

(** The elements of a [BTreeSet] of outpoints in order. *)
Definition set_list (X : gset OutPoint) : list OutPoint := merge_sort outpoint_le (elements X).

(** ** Data *)

Definition PROPOSAL_PREFIX : bytes := str "VTRG1".
Definition VOTE_PREFIX : bytes := str "VTRV1".
Definition SIGNED_VOTE_PREFIX : bytes := str "VTRV2".
Definition DEFAULT_QUORUM_PCT : Z := 33.
Definition DEFAULT_THRESHOLD_PCT : Z := 66.
Definition DEFAULT_LOCK_GRACE_BLOCKS : Z := 6.
Definition MIN_VOTING_BLOCKS : Z := 2880.
Definition MAX_VOTING_BLOCKS : Z := 10080.
Definition MIN_ACTIVATION_DELAY : Z := 2016.
Definition MAX_ACTIVATION_DELAY : Z := 20160.
Definition MIN_PROPOSAL_DEPOSIT : Z := 100 * COIN.

Definition invalid (message : string) : NodeError := InvalidTransaction message.

Inductive ParamId : Type :=
  | PosAnnualRateBps
  | RewardAgeCap
  | MinStakeAge
  | MaxStakeAge
  | MinStakeAmount
  | TargetBlockTime.

#[export] Instance ParamId_eq_dec : EqDecision ParamId.
Proof. solve_decision. Defined.

(** [param as u8]. *)
Definition ParamId_code (p : ParamId) : Z :=
  match p with
  | PosAnnualRateBps => 0
  | RewardAgeCap => 1
  | MinStakeAge => 2
  | MaxStakeAge => 3
  | MinStakeAmount => 4
  | TargetBlockTime => 5
  end.

Definition from_u8 (v : Z) : option ParamId :=
  match v with
  | 0 => Some PosAnnualRateBps
  | 1 => Some RewardAgeCap
  | 2 => Some MinStakeAge
  | 3 => Some MaxStakeAge
  | 4 => Some MinStakeAmount
  | 5 => Some TargetBlockTime
  | _ => None
  end.

Record Proposal : Type := mkProposal {
  param : ParamId;
  new_value : Z;
  activation_height : Z;
  voting_end : Z;
  deposit : Z;
}.

Inductive VoteChoice : Type := Yes | No | Abstain.

(** [choice as u8]. *)
Definition VoteChoice_code (c : VoteChoice) : Z :=
  match c with Yes => 1 | No => 2 | Abstain => 3 end.

Record Vote : Type := mkVote {
  proposal_id : bytes;
  choice : VoteChoice;
}.

Record SignedVote : Type := mkSignedVote {
  vote : Vote;
  vote_outpoint : OutPoint;
  signature : bytes;
}.

Inductive ProposalOutcome : Type :=
  | Open
  | Failed
  | Passed (p : ParamId) (v : Z) (h : Z).

Record ProposalRecord : Type := mkRecord {
  proposal : Proposal;
  created_height : Z;
  yes : Z;
  no : Z;
  abstain : Z;
  decided : bool;
  passed : bool;
  applied : bool;
  activation_failed : bool;
  quorum_supply : Z;
  voted_outpoints : gset OutPoint;
}.

Record VoteLock : Type := mkLock {
  lock_txid : bytes;
  lock_vout : Z;
  unlock_height : Z;
  voter : bytes;
  lock_proposal_id : bytes;
  voting_origin : OutPoint;
  voting_value : Z;
  voting_origin_height : Z;
}.

#[export] Instance Proposal_eq_dec : EqDecision Proposal.
Proof. solve_decision. Defined.
#[export] Instance ProposalRecord_eq_dec : EqDecision ProposalRecord.
Proof. solve_decision. Defined.
#[export] Instance VoteLock_eq_dec : EqDecision VoteLock.
Proof. solve_decision. Defined.

Record GovernanceState : Type := mkGov {
  proposals : gmap bytes ProposalRecord;
  locked_utxos : gmap OutPoint VoteLock;
}.

(** [GovernanceState::new]. *)
Definition gov_new : GovernanceState := mkGov ∅ ∅.

Inductive ProposalUndo : Type :=
  | PAdded (id : bytes)
  | PRemoved (id : bytes) (record : ProposalRecord)
  | PUpdated (id : bytes) (metadata : ProposalRecord) (added_votes removed_votes : list OutPoint).

Record GovernanceUndo : Type := mkUndo {
  undo_proposals : list ProposalUndo;
  undo_locks : list (OutPoint * option VoteLock);
}.

(** ** Field updates *)

Definition with_votes (r : ProposalRecord) (v : gset OutPoint) : ProposalRecord :=
  mkRecord (proposal r) (created_height r) (yes r) (no r) (abstain r) (decided r) (passed r)
    (applied r) (activation_failed r) (quorum_supply r) v.

Definition with_decision (r : ProposalRecord) (p : bool) : ProposalRecord :=
  mkRecord (proposal r) (created_height r) (yes r) (no r) (abstain r) true p
    (applied r) (activation_failed r) (quorum_supply r) (voted_outpoints r).

Definition with_activation (r : ProposalRecord) (failed : bool) : ProposalRecord :=
  mkRecord (proposal r) (created_height r) (yes r) (no r) (abstain r) (decided r) (passed r)
    true failed (quorum_supply r) (voted_outpoints r).

(** [match choice { Yes => &mut rec.yes, .. }], read and written. *)
Definition tally_of (r : ProposalRecord) (c : VoteChoice) : Z :=
  match c with Yes => yes r | No => no r | Abstain => abstain r end.

Definition with_tally (r : ProposalRecord) (c : VoteChoice) (t : Z) : ProposalRecord :=
  mkRecord (proposal r) (created_height r)
    (match c with Yes => t | _ => yes r end) (match c with No => t | _ => no r end)
    (match c with Abstain => t | _ => abstain r end)
    (decided r) (passed r) (applied r) (activation_failed r) (quorum_supply r) (voted_outpoints r).

Definition put_record (id : bytes) (r : ProposalRecord) (g : GovernanceState) : GovernanceState :=
  mkGov (<[id := r]> (proposals g)) (locked_utxos g).

Definition put_lock (k : OutPoint) (l : VoteLock) (g : GovernanceState) : GovernanceState :=
  mkGov (proposals g) (<[k := l]> (locked_utxos g)).

(** ** Parameters *)

Definition in_range (lo hi v : Z) : bool := (lo <=? v) && (v <=? hi).

(** [ParamId::apply]; the parameters it leaves behind on success. *)
Definition apply (p : ParamId) (params : ConsensusParams) (v : Z) : res NodeError ConsensusParams :=
  let '(mkParams rate cap maxa mina amt tbt) := params in
  let* next :=
    match p with
    | PosAnnualRateBps =>
        if in_range 1 1000 v then Ok (mkParams (as_u32 v) cap maxa mina amt tbt)
        else Err (invalid "governance parameter outside allowed range")
    | RewardAgeCap =>
        if in_range 60 (365 * 86400) v then Ok (mkParams rate v maxa mina amt tbt)
        else Err (invalid "governance parameter outside allowed range")
    | MinStakeAge =>
        if in_range 60 (365 * 86400) v then Ok (mkParams rate cap maxa v amt tbt)
        else Err (invalid "governance parameter outside allowed range")
    | MaxStakeAge =>
        if in_range 60 (365 * 86400) v then Ok (mkParams rate cap v mina amt tbt)
        else Err (invalid "governance parameter outside allowed range")
    | MinStakeAmount =>
        if in_range COIN MAX_SUPPLY v then Ok (mkParams rate cap maxa mina v tbt)
        else Err (invalid "governance parameter outside allowed range")
    | TargetBlockTime =>
        if in_range 30 600 v then Ok (mkParams rate cap maxa mina amt v)
        else Err (invalid "governance parameter outside allowed range")
    end in
  if max_stake_age next <? min_stake_age next
  then Err (invalid "minimum stake age exceeds maximum stake age") else Ok next.

(** ** Encodings *)

(** [Proposal::encode] and [Proposal::decode]. *)
Definition Proposal_encode (p : Proposal) : bytes :=
  PROPOSAL_PREFIX ++ [ParamId_code (param p)] ++ le64 (new_value p) ++
  le32 (activation_height p) ++ le32 (voting_end p) ++ le64 (deposit p).

Definition Proposal_decode (data : bytes) : option Proposal :=
  if negb (zlen data =? 30) || negb (starts_with PROPOSAL_PREFIX data) then None else
  tag ← vec_at data 5;
  p ← from_u8 tag;
  Some (mkProposal p (from_le (slice 6 14 data)) (from_le (slice 14 18 data))
          (from_le (slice 18 22 data)) (from_le (slice 22 30 data))).

(** [Vote::encode] and [Vote::decode]. *)
Definition Vote_encode (v : Vote) : bytes :=
  VOTE_PREFIX ++ proposal_id v ++ [VoteChoice_code (choice v)].

Definition choice_of_u8 (tag : Z) : option VoteChoice :=
  match tag with 1 => Some Yes | 2 => Some No | 3 => Some Abstain | _ => None end.

Definition Vote_decode (data : bytes) : option Vote :=
  if negb (zlen data =? 14) || negb (starts_with VOTE_PREFIX data) then None else
  tag ← vec_at data 13;
  c ← choice_of_u8 tag;
  Some (mkVote (slice 5 13 data) c).

(** [SignedVote::unsigned_bytes], [encode] and [decode]. *)
Definition unsigned_bytes (s : SignedVote) : bytes :=
  SIGNED_VOTE_PREFIX ++ proposal_id (vote s) ++ [VoteChoice_code (choice (vote s))] ++
  (vote_outpoint s).1 ++ le32 (vote_outpoint s).2.

Definition SignedVote_encode (s : SignedVote) : bytes := unsigned_bytes s ++ signature s.

Definition SignedVote_decode (data : bytes) : option SignedVote :=
  if negb (zlen data =? 115) || negb (starts_with SIGNED_VOTE_PREFIX data) then None else
  let legacy := VOTE_PREFIX ++ slice 5 14 data in
  v ← Vote_decode legacy;
  Some (mkSignedVote v (slice 14 46 data, from_le (slice 46 50 data)) (drop 50 data)).

(** [op_return_data]. *)
Definition op_return_data (script : bytes) : option bytes :=
  match vec_at script 0 with
  | Some 0x6a =>
      n ← vec_at script 1;
      '(offset, len) ←
        (if in_range 1 75 n then Some (2, n)
         else if n =? 0x4c then (l ← vec_at script 2; Some (3, l)) else None);
      if zlen script =? offset + len then Some (drop (Z.to_nat offset) script) else None
  | _ => None
  end.

(** [SignedVote::script]. *)
Definition vote_script (s : SignedVote) : res NodeError bytes :=
  map_err (fun _ => invalid "invalid governance vote payload")
    (push_data (push_opcode [] 0x6a) (SignedVote_encode s)).

(** ** Outcome of a vote *)

(** [tally]; the sums and products are [u128] and cannot overflow. *)
Definition tally (p : Proposal) (yes no abstain total_staked height : Z) : ProposalOutcome :=
  if height <? voting_end p then Open else
  let turnout := yes + no + abstain in
  let decisive := yes + no in
  if (total_staked =? 0) || (turnout * 100 <? total_staked * DEFAULT_QUORUM_PCT)
     || (decisive =? 0) || (yes * 100 <? decisive * DEFAULT_THRESHOLD_PCT)
  then Failed else Passed (param p) (new_value p) (activation_height p).

(** [Proposal::validate]. *)
Definition Proposal_validate (p : Proposal) (height burned : Z) (params : ConsensusParams)
    : res NodeError unit :=
  let* duration := ok_or (checked_sub (voting_end p) height) (invalid "voting end is in the past") in
  let* delay :=
    ok_or (checked_sub (activation_height p) (voting_end p)) (invalid "activation precedes voting end") in
  if negb (in_range MIN_VOTING_BLOCKS MAX_VOTING_BLOCKS duration)
     || negb (in_range MIN_ACTIVATION_DELAY MAX_ACTIVATION_DELAY delay)
     || match checked_add u32_max (voting_end p) DEFAULT_LOCK_GRACE_BLOCKS with
        | None => true | Some _ => false end
     || (deposit p <? MIN_PROPOSAL_DEPOSIT)
     || negb (burned =? deposit p)
  then Err (invalid "invalid proposal window, activation delay, or burned deposit") else
  let* _ := apply (param p) params (new_value p) in Ok tt.

(** ** Undo records *)

Definition proposal_metadata (r : ProposalRecord) : ProposalRecord := with_votes r ∅.

(** The four loops of [undo_since], one entry at a time. *)
Definition since_changed (before : GovernanceState) (e : bytes * ProposalRecord) : option ProposalUndo :=
  let '(id, record) := e in
  match proposals before !! id with
  | None => Some (PAdded id)
  | Some old =>
      if bool_decide (old = record) then None else
      Some (PUpdated id (proposal_metadata old)
              (set_list (voted_outpoints record ∖ voted_outpoints old))
              (set_list (voted_outpoints old ∖ voted_outpoints record)))
  end.

Definition since_removed (self : GovernanceState) (e : bytes * ProposalRecord) : option ProposalUndo :=
  let '(id, old) := e in
  if bool_decide (proposals self !! id = None) then Some (PRemoved id old) else None.

Definition since_lock (self : GovernanceState) (e : OutPoint * VoteLock)
    : option (OutPoint * option VoteLock) :=
  let '(key, old) := e in
  if bool_decide (locked_utxos self !! key = Some old) then None else Some (key, Some old).

Definition since_new_lock (before : GovernanceState) (e : OutPoint * VoteLock)
    : option (OutPoint * option VoteLock) :=
  let '(key, _) := e in
  if bool_decide (locked_utxos before !! key = None) then Some (key, None) else None.

(** [GovernanceState::undo_since]. *)
Definition undo_since (self before : GovernanceState) : GovernanceUndo :=
  mkUndo
    (omap (since_changed before) (in_order bytes_leb (proposals self)) ++
     omap (since_removed self) (in_order bytes_leb (proposals before)))
    (omap (since_lock self) (in_order outpoint_leb (locked_utxos before)) ++
     omap (since_new_lock before) (in_order outpoint_leb (locked_utxos self))).

(** The body of the first loop of [restore_undo]; [expect] is a panic. *)
Definition restore_proposal (g : GovernanceState) (change : ProposalUndo) : res NodeError GovernanceState :=
  match change with
  | PAdded id => Ok (mkGov (delete id (proposals g)) (locked_utxos g))
  | PRemoved id record => Ok (put_record id record g)
  | PUpdated id metadata added removed =>
      let* record := unwrap (proposals g !! id) in
      let votes := foldl (fun v o => v ∖ {[o]}) (voted_outpoints record) added in
      let votes := votes ∪ list_to_set removed in
      Ok (put_record id (with_votes metadata votes) g)
  end.

(** The body of the second loop. *)
Definition restore_lock (g : GovernanceState) (e : OutPoint * option VoteLock) : GovernanceState :=
  match e.2 with
  | Some lock => put_lock e.1 lock g
  | None => mkGov (proposals g) (delete e.1 (locked_utxos g))
  end.

(** [GovernanceState::restore_undo]. *)
Definition restore_undo (undo : GovernanceUndo) (self : GovernanceState) : res NodeError GovernanceState :=
  let* g := rfold restore_proposal self (rev (undo_proposals undo)) in
  Ok (foldl restore_lock g (rev (undo_locks undo))).

(** [GovernanceState::is_utxo_locked]. *)
Definition is_utxo_locked (g : GovernanceState) (txid : bytes) (vout height : Z) : bool :=
  match locked_utxos g !! (txid, vout) with
  | Some l => height <? unlock_height l
  | None => false
  end.

(** ** The start of a block *)

(** The first loop of [begin_block] on one record. *)
Definition decide_record (height : Z) (r : ProposalRecord) : ProposalRecord :=
  let r :=
    if negb (decided r) && (voting_end (proposal r) <=? height) then
      with_decision r
        match tally (proposal r) (yes r) (no r) (abstain r) (quorum_supply r) height with
        | Passed _ _ _ => true
        | _ => false
        end
    else r in
  if decided r && (voting_end (proposal r) <=? height) then with_votes r ∅ else r.

(** The entries of [pending], compared as tuples. *)
Definition pending_le (a b : Z * Z * bytes) : Prop :=
  match a.1.1 ?= b.1.1, a.1.2 ?= b.1.2 with
  | Lt, _ => True
  | Eq, Lt => True
  | Eq, Eq => bytes_leb a.2 b.2 = true
  | _, _ => False
  end.

#[export] Instance pending_le_dec : RelDecision pending_le.
Proof.
  intros a b. unfold pending_le. destruct (a.1.1 ?= b.1.1), (a.1.2 ?= b.1.2); apply _.
Defined.

Definition is_pending (height : Z) (r : ProposalRecord) : bool :=
  passed r && negb (applied r) && (activation_height (proposal r) <=? height).

Definition pending_of (height : Z) (ps : gmap bytes ProposalRecord) : list (Z * Z * bytes) :=
  merge_sort pending_le
    (omap (fun '(id, r) =>
        if is_pending height r then Some (activation_height (proposal r), created_height r, id) else None)
       (in_order bytes_leb ps)).

Section governance.
Context {C : Crypto} {B : Bincode}.

(** Some output can stake under the candidate parameters at this time. *)
Definition can_stake (candidate : ConsensusParams) (timestamp : Z) (u : Utxo) : bool :=
  is_stakeable_with candidate u &&
  match checked_sub timestamp (utxo_timestamp u) with
  | Some age => (min_stake_age candidate <=? age) && (age <=? max_stake_age candidate)
  | None => false
  end.

(** The second loop of [begin_block] on one pending proposal. *)
Definition activate (utxos : gmap OutPoint Utxo) (timestamp : Z)
    (s : GovernanceState * ConsensusParams) (e : Z * Z * bytes)
    : res NodeError (GovernanceState * ConsensusParams) :=
  let '(g, params) := s in
  let* r := unwrap (proposals g !! e.2) in
  let attempt := apply (param (proposal r)) params (new_value (proposal r)) in
  match attempt with
  | Panic => Panic
  | _ =>
    let candidate := match attempt with Ok c => c | _ => params end in
    let failed :=
      is_err attempt ||
      negb (existsb (fun e => can_stake candidate timestamp e.2) (map_to_list utxos)) in
    Ok (put_record e.2 (with_activation r failed) g, if failed then params else candidate)
  end.

(** [GovernanceState::begin_block]. *)
Definition begin_block (height : Z) (utxos : gmap OutPoint Utxo) (timestamp : Z)
    (self : GovernanceState) (params : ConsensusParams)
    : res NodeError (GovernanceState * ConsensusParams) :=
  let locks := filter (fun e => (height <? unlock_height e.2) = true) (locked_utxos self) in
  let ps := decide_record height <$> proposals self in
  rfold (activate utxos timestamp) (mkGov ps locks, params) (pending_of height ps).

(** ** Votes *)

Definition proposal_id_of (p : Proposal) (height : Z) : bytes :=
  take 8 (sha256 (Proposal_encode p ++ le32 height)).

(** [SignedVote::digest]. *)
Definition digest (s : SignedVote) (genesis : bytes) : bytes :=
  Core.sha256d (str "vTorrent governance vote v2" ++ [0] ++ genesis ++ unsigned_bytes s).

(** [SignedVote::owner]. *)
Definition owner (s : SignedVote) (utxo : Utxo) (genesis : bytes) : res NodeError bytes :=
  if negb (zlen (signature s) =? 65) then Err (invalid "invalid vote signature length") else
  let* id := vec_get (signature s) 0 in
  if negb (recovery_id_ok id) then Err (invalid "invalid vote recovery id") else
  let sig := drop 1 (signature s) in
  if negb (compact_ok sig id) then Err (invalid "invalid vote signature") else
  let* pk := ok_or (recover_ecdsa (digest s genesis) sig id) (invalid "invalid vote signature") in
  let* script := map_err (fun _ => invalid "invalid voting script") (from_bytes (utxo_script utxo)) in
  let* owner_hash :=
    match classify_script script with
    | P2PKH => Ok (slice 3 23 (utxo_script utxo))
    | P2CS _ spending_hash _ => Ok spending_hash
    | _ => Err (invalid "unsupported voting script")
    end in
  let compressed := bytes_eqb owner_hash (Core.hash160 pk) in
  if negb compressed && negb (bytes_eqb owner_hash (Core.hash160 (uncompressed pk)))
  then Err (invalid "vote signature does not authorize the voting outpoint") else
  Ok (encode (from_pubkey pk compressed 70)).

(** The voting identity of an outpoint: that of its lock, or its own. *)
Definition identity (g : GovernanceState) (o : OutPoint) (utxo : Utxo) : OutPoint * Z * Z :=
  match locked_utxos g !! o with
  | Some l => (voting_origin l, Z.min (voting_value l) (utxo_value utxo), voting_origin_height l)
  | None => (o, utxo_value utxo, utxo_height utxo)
  end.

(** A new record, as [process_transaction] inserts it. *)
Definition new_record (p : Proposal) (height total_staked : Z) : ProposalRecord :=
  mkRecord p height 0 0 0 false false false false total_staked ∅.

(** [locked_utxos.entry(outpoint).or_insert(..)] and the extension of the lock. *)
Definition lock_entry (g : GovernanceState) (o : OutPoint) (fresh : VoteLock) : VoteLock :=
  let lock := match locked_utxos g !! o with Some l => l | None => fresh end in
  if unlock_height lock <? unlock_height fresh then
    mkLock (lock_txid lock) (lock_vout lock) (unlock_height fresh) (voter lock)
      (lock_proposal_id fresh) (voting_origin lock) (voting_value lock) (voting_origin_height lock)
  else lock.

(** The branch of [process_transaction] for a proposal. *)
Definition process_proposal (data : bytes) (burned height : Z) (params : ConsensusParams)
    (total_staked : Z) : st GovernanceState NodeError unit :=
  do* p := slift (ok_or (Proposal_decode data) (invalid "malformed governance proposal")) in
  do* _ := slift (Proposal_validate p height burned params) in
  let id := proposal_id_of p height in
  do* g := sget (fun g => g) in
  if bool_decide (is_Some (proposals g !! id)) then serr (invalid "duplicate governance proposal") else
  smod (put_record id (new_record p height total_staked)).

(** The branch of [process_transaction] for a signed vote. *)
Definition process_vote (data : bytes) (height timestamp : Z) (utxos : gmap OutPoint Utxo)
    (params : ConsensusParams) (genesis : bytes) : st GovernanceState NodeError unit :=
  do* signed := slift (ok_or (SignedVote_decode data) (invalid "malformed governance vote")) in
  let o := vote_outpoint signed in
  let id := proposal_id (vote signed) in
  do* utxo := slift (ok_or (utxos !! o) (invalid "voting outpoint is not unspent")) in
  if negb (is_stakeable utxo) || (utxo_value utxo <? min_stake_amount params)
     || (timestamp <? utxo_timestamp utxo)
     || (timestamp - utxo_timestamp utxo <? min_stake_age params)
  then serr (invalid "voting outpoint is not mature stake") else
  do* who := slift (owner signed utxo genesis) in
  do* g := sget (fun g => g) in
  let '(origin, stake, origin_height) := identity g o utxo in
  do* rec := slift (ok_or (proposals g !! id) (invalid "unknown governance proposal")) in
  if (height <=? created_height rec) || (voting_end (proposal rec) <=? height) || decided rec
  then serr (invalid "governance voting window is closed") else
  if created_height rec <=? origin_height
  then serr (invalid "voting stake did not exist at proposal creation") else
  if bool_decide (origin ∈ voted_outpoints rec)
  then serr (invalid "voting outpoint already counted for this proposal") else
  let rec := with_votes rec ({[origin]} ∪ voted_outpoints rec) in
  do* _ := smod (put_record id rec) in
  let c := choice (vote signed) in
  do* t := slift (ok_or (checked_add u64_max (tally_of rec c) stake) (invalid "vote tally overflow")) in
  do* _ := smod (put_record id (with_tally rec c t)) in
  do* unlock :=
    slift (ok_or (checked_add u32_max (voting_end (proposal rec)) DEFAULT_LOCK_GRACE_BLOCKS)
             (invalid "vote unlock overflow")) in
  let fresh := mkLock (utxo_txid utxo) (utxo_vout utxo) unlock who id origin stake origin_height in
  do* g := sget (fun g => g) in
  smod (put_lock o (lock_entry g o fresh)).

(** The body of the loop of [process_transaction]. *)
Definition process_output (height timestamp : Z) (utxos : gmap OutPoint Utxo)
    (params : ConsensusParams) (total_staked : Z) (genesis : bytes) (output : TxOutput)
    : st GovernanceState NodeError unit :=
  match op_return_data (script_pubkey output) with
  | None => sret tt
  | Some data =>
      if starts_with PROPOSAL_PREFIX data
      then process_proposal data (value output) height params total_staked
      else if starts_with SIGNED_VOTE_PREFIX data
      then process_vote data height timestamp utxos params genesis
      else if starts_with VOTE_PREFIX data
      then serr (invalid "unsigned governance votes are not authorized")
      else sret tt
  end.

(** [GovernanceState::process_transaction]. *)
Definition process_transaction (tx : Transaction) (height timestamp : Z)
    (utxos : gmap OutPoint Utxo) (params : ConsensusParams) (total_staked : Z) (genesis : bytes)
    : st GovernanceState NodeError unit :=
  sfor (process_output height timestamp utxos params total_staked genesis) (outputs tx).

(** [transaction_undo] reads the origin of a vote and whether it is counted already. *)
Definition origin_of (g : GovernanceState) (o : OutPoint) : OutPoint :=
  match locked_utxos g !! o with Some l => voting_origin l | None => o end.

Definition not_counted (g : GovernanceState) (id : bytes) (origin : OutPoint) : bool :=
  match proposals g !! id with
  | Some r => negb (bool_decide (origin ∈ voted_outpoints r))
  | None => false
  end.

(** [GovernanceState::transaction_undo]: the loop over the outputs, then the record. *)
Definition capture (g : GovernanceState) (height : Z)
    (acc : gmap bytes (gset OutPoint) * gmap OutPoint (option VoteLock)) (output : TxOutput)
    : gmap bytes (gset OutPoint) * gmap OutPoint (option VoteLock) :=
  let '(ps, locks) := acc in
  match op_return_data (script_pubkey output) with
  | None => acc
  | Some data =>
      match Proposal_decode data with
      | Some p =>
          let id := proposal_id_of p height in (<[id := default ∅ (ps !! id)]> ps, locks)
      | None =>
          match SignedVote_decode data with
          | Some signed =>
              let o := vote_outpoint signed in
              let id := proposal_id (vote signed) in
              let votes := default ∅ (ps !! id) in
              let votes :=
                if not_counted g id (origin_of g o) then {[origin_of g o]} ∪ votes else votes in
              (<[id := votes]> ps, <[o := default (locked_utxos g !! o) (locks !! o)]> locks)
          | None => acc
          end
      end
  end.

Definition transaction_undo (g : GovernanceState) (tx : Transaction) (height : Z) : GovernanceUndo :=
  let '(ps, locks) := foldl (capture g height) (∅, ∅) (outputs tx) in
  mkUndo
    (map (fun '(id, votes) =>
        match proposals g !! id with
        | Some record => PUpdated id (proposal_metadata record) (set_list votes) []
        | None => PAdded id
        end) (in_order bytes_leb ps))
    (in_order outpoint_leb locks).

(** [GovernanceState::transfer_stake_lock]. *)
Definition transfer_stake_lock (tx : Transaction) (utxo : Utxo) (height : Z)
    : st GovernanceState NodeError unit :=
  do* g := sget (fun g => g) in
  let key : OutPoint := (utxo_txid utxo, utxo_vout utxo) in
  if negb (is_utxo_locked g (utxo_txid utxo) (utxo_vout utxo) height) then sret tt else
  let outs := filter (fun e : nat * TxOutput => 0 < value e.2) (imap pair (outputs tx)) in
  match outs with
  | [(i, o)] =>
      if negb (is_coinstake tx) || negb (bytes_eqb (script_pubkey o) (utxo_script utxo))
         || (value o <? utxo_value utxo)
      then serr (invalid "vote-locked stake must re-lock all value to the same script") else
      do* lock := slift (unwrap (locked_utxos g !! key)) in
      let moved :=
        mkLock (txid tx) (as_u32 (Z.of_nat i)) (unlock_height lock) (voter lock)
          (lock_proposal_id lock) (voting_origin lock) (voting_value lock) (voting_origin_height lock) in
      do* _ := smod (fun g => mkGov (proposals g) (delete key (locked_utxos g))) in
      smod (put_lock (lock_txid moved, lock_vout moved) moved)
  | _ => serr (invalid "vote-locked stake must re-lock all value to the same script")
  end.

End governance.

(** ** Lemmas: ordered listings *)

Lemma elem_of_in_order {K V} `{Countable K} leb (m : gmap K V) k v :
  (k, v) ∈ in_order leb m <-> m !! k = Some v.
Proof. unfold in_order. rewrite merge_sort_Permutation. apply elem_of_map_to_list. Qed.

Lemma in_order_keys {K V} `{Countable K} leb (m : gmap K V) : NoDup (in_order leb m).*1.
Proof. unfold in_order. rewrite merge_sort_Permutation. apply NoDup_fst_map_to_list. Qed.

Lemma elem_of_set_list o X : o ∈ set_list X <-> o ∈ X.
Proof. unfold set_list. rewrite merge_sort_Permutation. apply elem_of_elements. Qed.

(** Selecting entries of a list without repeated keys, each labelled by its key. *)
Lemma NoDup_omap_keys {K V W} (f : K * V -> option W) (g : W -> K) (l : list (K * V)) :
  (forall k v w, f (k, v) = Some w -> g w = k) -> NoDup l.*1 -> NoDup (g <$> omap f l).
Proof.
  intros Hg. induction l as [|[k v] l IH]; intros Hl; [constructor|].
  simpl in *. apply NoDup_cons in Hl as [Hk Hl]. destruct (f (k, v)) as [w|] eqn:E; [|auto].
  simpl. apply NoDup_cons. split; [|auto]. rewrite (Hg _ _ _ E). contradict Hk.
  apply list_elem_of_fmap in Hk as (w' & -> & Hw'). apply list_elem_of_omap in Hw' as ([k' v'] & Hin & E').
  rewrite (Hg _ _ _ E'). by apply (list_elem_of_fmap_2 fst _ (k', v')).
Qed.

Lemma elem_of_omap_keys {K V W} (f : K * V -> option W) (g : W -> K) (l : list (K * V)) k v w :
  (k, v) ∈ l -> f (k, v) = Some w -> g w = k -> k ∈ g <$> omap f l.
Proof.
  intros Hin Hf <-. apply list_elem_of_fmap_2, list_elem_of_omap. by exists (g w, v).
Qed.

(** ** Lemmas: undo records *)

Definition change_id (c : ProposalUndo) : bytes :=
  match c with PAdded id | PRemoved id _ | PUpdated id _ _ _ => id end.

(** Undoing [c] in any state that has [after]'s entry puts back [before]'s entry. *)
Definition reverts (before after : GovernanceState) (c : ProposalUndo) : Prop :=
  forall g, proposals g !! change_id c = proposals after !! change_id c ->
  restore_proposal g c =
    Ok (mkGov (partial_alter (fun _ => proposals before !! change_id c) (change_id c) (proposals g))
          (locked_utxos g)).

(** A complete undo record for the step from [before] to [after]. *)
Record undoes (before after : GovernanceState) (u : GovernanceUndo) : Prop := {
  undoes_ids : NoDup (change_id <$> undo_proposals u);
  undoes_proposals : Forall (reverts before after) (undo_proposals u);
  undoes_other : forall id, id ∉ change_id <$> undo_proposals u ->
    proposals after !! id = proposals before !! id;
  undoes_keys : NoDup (undo_locks u).*1;
  undoes_locks : forall k o, (k, o) ∈ undo_locks u -> o = locked_utxos before !! k;
  undoes_other_locks : forall k, k ∉ (undo_locks u).*1 ->
    locked_utxos after !! k = locked_utxos before !! k;
}.

Lemma restore_proposals before after l : forall g,
  NoDup (change_id <$> l) -> Forall (reverts before after) l ->
  (forall id, id ∈ change_id <$> l -> proposals g !! id = proposals after !! id) ->
  exists g', rfold restore_proposal g l = Ok g' /\ locked_utxos g' = locked_utxos g /\
    (forall id, id ∈ change_id <$> l -> proposals g' !! id = proposals before !! id) /\
    (forall id, id ∉ change_id <$> l -> proposals g' !! id = proposals g !! id).
Proof.
  induction l as [|c l IH]; intros g Hnd Hl Hg.
  { exists g. repeat split; try done. intros id Hid. by apply elem_of_nil in Hid. }
  rewrite fmap_cons in *. apply NoDup_cons in Hnd as [Hc Hnd]. apply Forall_cons in Hl as [Hr Hl].
  simpl. rewrite (Hr g) by (apply Hg; left). simpl.
  set (g1 := mkGov _ _). destruct (IH g1) as (g' & -> & Hk & Hin & Hout); [done|done| |].
  { intros id Hid. unfold g1; simpl. rewrite lookup_partial_alter_ne by (intros <-; done).
    apply Hg. by right. }
  exists g'. split_and!; [done|done|..].
  - intros id [->|Hid]%elem_of_cons; [|by apply Hin]. rewrite (Hout _ Hc). unfold g1; simpl.
    by rewrite lookup_partial_alter_eq.
  - intros id [Hne Hid]%not_elem_of_cons. rewrite (Hout _ Hid). unfold g1; simpl.
    by rewrite lookup_partial_alter_ne.
Qed.

Lemma restore_locks l : forall g, NoDup l.*1 ->
  proposals (foldl restore_lock g l) = proposals g /\
  (forall k o, (k, o) ∈ l -> locked_utxos (foldl restore_lock g l) !! k = o) /\
  (forall k, k ∉ l.*1 -> locked_utxos (foldl restore_lock g l) !! k = locked_utxos g !! k).
Proof.
  induction l as [|[k o] l IH]; intros g Hnd.
  { repeat split; try done. intros k o Hin. by apply elem_of_nil in Hin. }
  rewrite fmap_cons in *. simpl in *. apply NoDup_cons in Hnd as [Hk Hnd].
  assert (proposals (restore_lock g (k, o)) = proposals g /\
    locked_utxos (restore_lock g (k, o)) = partial_alter (fun _ => o) k (locked_utxos g)) as [Hp Hl].
  { unfold restore_lock; simpl. by destruct o. }
  destruct (IH (restore_lock g (k, o)) Hnd) as (Hp' & Hin & Hout). split_and!.
  - by rewrite Hp', Hp.
  - intros k' o' [[= -> ->]|H]%elem_of_cons; [|by apply Hin].
    by rewrite (Hout _ Hk), Hl, lookup_partial_alter_eq.
  - intros k' [Hne Hk']%not_elem_of_cons. by rewrite (Hout _ Hk'), Hl, lookup_partial_alter_ne.
Qed.

Lemma gov_ext g g' :
  (forall id, proposals g !! id = proposals g' !! id) ->
  (forall k, locked_utxos g !! k = locked_utxos g' !! k) -> g = g'.
Proof. destruct g, g'; simpl. intros H1%map_eq H2%map_eq. by subst. Qed.

Lemma undoes_restore before after u : undoes before after u -> restore_undo u after = Ok before.
Proof.
  intros [Hids Hps Hot Hks Hls Hotl]. unfold restore_undo.
  destruct (restore_proposals before after (rev (undo_proposals u)) after) as (g & -> & Hg & Hin & Hout).
  { by rewrite <- Permutation_rev. }
  { by rewrite <- Permutation_rev. }
  { done. }
  destruct (restore_locks (rev (undo_locks u)) g) as (Hp & Hl & Hlo).
  { by rewrite <- Permutation_rev. }
  simpl. f_equal. set (gl := foldl restore_lock g (rev (undo_locks u))) in *. clearbody gl.
  setoid_rewrite <- Permutation_rev in Hin. setoid_rewrite <- Permutation_rev in Hout.
  setoid_rewrite <- Permutation_rev in Hl. setoid_rewrite <- Permutation_rev in Hlo.
  apply gov_ext.
  - intros id. rewrite Hp. destruct (decide (id ∈ change_id <$> undo_proposals u)) as [Hi|Hi]; [auto|].
    by rewrite (Hout _ Hi), (Hot _ Hi).
  - intros k. destruct (decide (k ∈ (undo_locks u).*1)) as [Hi|Hi].
    + apply list_elem_of_fmap in Hi as ([k' o] & -> & Hi). simpl. rewrite (Hl _ _ Hi). by apply Hls.
    + by rewrite (Hlo _ Hi), Hg, (Hotl _ Hi).
Qed.

Lemma foldl_difference `{Countable A} (l : list A) : forall v : gset A,
  foldl (fun v o => v ∖ {[o]}) v l = v ∖ list_to_set l.
Proof.
  induction l as [|o l IH]; intros v; simpl; [by rewrite difference_empty_L|].
  rewrite IH. by rewrite difference_difference_l_L.
Qed.

(** What a step may change and what the captured votes must cover for an entry of the
    form [PUpdated] to revert it. *)
Lemma reverts_updated before after id old record added removed :
  proposals before !! id = Some old -> proposals after !! id = Some record ->
  (voted_outpoints record ∖ list_to_set added) ∪ list_to_set removed = voted_outpoints old ->
  reverts before after (PUpdated id (proposal_metadata old) added removed).
Proof.
  intros Hb Ha Hv g Hg. simpl in *. rewrite Hg, Ha, Hb. simpl. unfold put_record. do 2 f_equal.
  rewrite foldl_difference, Hv. apply map_eq. intros j. destruct (decide (j = id)) as [->|Hj].
  - rewrite lookup_insert_eq, lookup_partial_alter_eq. by destruct old.
  - by rewrite lookup_insert_ne, lookup_partial_alter_ne.
Qed.

Lemma reverts_added before after id :
  proposals before !! id = None -> reverts before after (PAdded id).
Proof. intros Hb g Hg. simpl in *. by rewrite Hb. Qed.

Lemma reverts_removed before after id old :
  proposals before !! id = Some old -> reverts before after (PRemoved id old).
Proof. intros Hb g Hg. simpl in *. by rewrite Hb. Qed.

Lemma since_changed_id before e w : since_changed before e = Some w -> change_id w = e.1.
Proof.
  destruct e as [id r]; simpl. case_match; [|by intros [= <-]]. case_bool_decide; [done|].
  by intros [= <-].
Qed.

Lemma since_removed_id self e w :
  since_removed self e = Some w -> change_id w = e.1 /\ proposals self !! e.1 = None.
Proof. destruct e as [id r]; simpl. case_bool_decide; [|done]. by intros [= <-]. Qed.

Lemma since_lock_key self e w : since_lock self e = Some w -> w = (e.1, Some e.2).
Proof. destruct e; simpl. case_bool_decide; [done|]. by intros [= <-]. Qed.

Lemma since_new_lock_key before e w :
  since_new_lock before e = Some w -> w = (e.1, None) /\ locked_utxos before !! e.1 = None.
Proof. destruct e; simpl. case_bool_decide; [|done]. by intros [= <-]. Qed.

Lemma undo_since_proposals before after :
  let l := undo_proposals (undo_since after before) in
  NoDup (change_id <$> l) /\ Forall (reverts before after) l /\
  (forall id, id ∉ change_id <$> l -> proposals after !! id = proposals before !! id).
Proof.
  simpl. split_and!.
  - rewrite fmap_app, NoDup_app. split_and!.
    + apply NoDup_omap_keys; [|apply in_order_keys]. by intros k v w ?%since_changed_id.
    + intros id (w & -> & Hw)%list_elem_of_fmap (w' & E & Hw')%list_elem_of_fmap.
      apply list_elem_of_omap in Hw as ([k r] & Hk%elem_of_in_order & Hw%since_changed_id).
      apply list_elem_of_omap in Hw' as ([k' r'] & Hk' & [Hw' Hn]%since_removed_id). simpl in *. congruence.
    + apply NoDup_omap_keys; [|apply in_order_keys]. by intros k v w [? _]%since_removed_id.
  - apply Forall_app. split; apply Forall_forall; intros w Hw;
      apply list_elem_of_omap in Hw as ([k r] & Hk%elem_of_in_order & Hw); simpl in Hw.
    + destruct (proposals before !! k) as [old|] eqn:Hb.
      * case_bool_decide; [done|]. injection Hw as <-. apply (reverts_updated _ _ _ old r); [done..|].
        apply set_eq. intros o. rewrite elem_of_union, elem_of_difference, !elem_of_list_to_set,
          !elem_of_set_list, !elem_of_difference.
        destruct (decide (o ∈ voted_outpoints old)), (decide (o ∈ voted_outpoints r)); tauto.
      * injection Hw as <-. by apply reverts_added.
    + case_bool_decide; [|done]. injection Hw as <-. by apply reverts_removed.
  - intros id Hid. rewrite fmap_app, not_elem_of_app in Hid. destruct Hid as [H1 H2].
    destruct (proposals after !! id) as [r|] eqn:Ha, (proposals before !! id) as [old|] eqn:Hb; [|..|done].
    + destruct (decide (old = r)) as [->|Hne]; [done|]. destruct H1.
      eapply (elem_of_omap_keys _ _ _ id r); [by apply elem_of_in_order| |].
      * simpl. by rewrite Hb, bool_decide_false.
      * done.
    + destruct H1. eapply (elem_of_omap_keys _ _ _ id r); [by apply elem_of_in_order| |].
      * simpl. by rewrite Hb.
      * done.
    + destruct H2. eapply (elem_of_omap_keys _ _ _ id old); [by apply elem_of_in_order| |].
      * simpl. by rewrite bool_decide_true.
      * done.
Qed.

Lemma undo_since_locks before after :
  let l := undo_locks (undo_since after before) in
  NoDup l.*1 /\ (forall k o, (k, o) ∈ l -> o = locked_utxos before !! k) /\
  (forall k, k ∉ l.*1 -> locked_utxos after !! k = locked_utxos before !! k).
Proof.
  simpl. split_and!.
  - rewrite fmap_app, NoDup_app. split_and!.
    + apply NoDup_omap_keys; [|apply in_order_keys]. by intros k v w ->%since_lock_key.
    + intros k (w & -> & Hw)%list_elem_of_fmap (w' & E & Hw')%list_elem_of_fmap.
      apply list_elem_of_omap in Hw as ([k1 l1] & Hk%elem_of_in_order & ->%since_lock_key).
      apply list_elem_of_omap in Hw' as ([k2 l2] & _ & [-> Hn]%since_new_lock_key). simpl in *. congruence.
    + apply NoDup_omap_keys; [|apply in_order_keys]. by intros k v w [-> _]%since_new_lock_key.
  - intros k o [Hw|Hw]%elem_of_app; apply list_elem_of_omap in Hw as ([k1 l1] & Hk & Hw).
    + apply since_lock_key in Hw as [= -> ->]. symmetry. by apply elem_of_in_order in Hk.
    + by apply since_new_lock_key in Hw as [[= -> ->] ?].
  - intros k Hk. rewrite fmap_app, not_elem_of_app in Hk. destruct Hk as [H1 H2].
    destruct (locked_utxos before !! k) as [old|] eqn:Hb.
    + apply dec_stable. contradict H1. eapply (elem_of_omap_keys _ _ _ k old);
        [by apply elem_of_in_order|simpl; by rewrite bool_decide_false|done].
    + destruct (locked_utxos after !! k) as [l|] eqn:Ha; [|done]. destruct H2.
      eapply (elem_of_omap_keys _ _ _ k l);
        [by apply elem_of_in_order|simpl; by rewrite bool_decide_true|done].
Qed.

Lemma undo_since_undoes before after : undoes before after (undo_since after before).
Proof.
  destruct (undo_since_proposals before after) as (?&?&?).
  destruct (undo_since_locks before after) as (?&?&?). by split.
Qed.

(** the undo record of a block is exact. Whatever changed between two governance
    states, restoring the later one with the record [undo_since] makes of the two gives
    the earlier one back, votes and locks included, and never panics. *)
Theorem governance_undo_roundtrip before after :
  restore_undo (undo_since after before) after = Ok before.
Proof. apply undoes_restore, undo_since_undoes. Qed.

(** ** Lemmas: undoing a tentative transaction *)

Section undo.
Context {C : Crypto} {B : Bincode}.
Variable g : GovernanceState.
Variable height : Z.

(** What [capture] has recorded once it has seen the outputs [outs]. *)
Record captured (ps : gmap bytes (gset OutPoint)) (locks : gmap OutPoint (option VoteLock))
    (outs : list TxOutput) : Prop := {
  cap_proposal : forall output data p, output ∈ outs ->
    op_return_data (script_pubkey output) = Some data -> Proposal_decode data = Some p ->
    is_Some (ps !! proposal_id_of p height);
  cap_vote : forall output data s, output ∈ outs ->
    op_return_data (script_pubkey output) = Some data -> Proposal_decode data = None ->
    SignedVote_decode data = Some s ->
    is_Some (locks !! vote_outpoint s) /\
    exists votes, ps !! proposal_id (vote s) = Some votes /\
      forall r, proposals g !! proposal_id (vote s) = Some r ->
        origin_of g (vote_outpoint s) ∈ voted_outpoints r ∪ votes;
  cap_disjoint : forall id votes r, ps !! id = Some votes -> proposals g !! id = Some r ->
    votes ## voted_outpoints r;
  cap_locks : forall k o, locks !! k = Some o -> o = locked_utxos g !! k;
}.

(** Recording never forgets. *)
Lemma capture_mono ps locks output :
  let '(ps', locks') := capture g height (ps, locks) output in
  (forall id v, ps !! id = Some v -> exists v', ps' !! id = Some v' /\ v ⊆ v') /\
  (forall k, is_Some (locks !! k) -> is_Some (locks' !! k)).
Proof.
  assert (Hps : forall id (f : gset OutPoint -> gset OutPoint), (forall v, v ⊆ f v) ->
    forall j v, ps !! j = Some v ->
    exists v', <[id := f (default ∅ (ps !! id))]> ps !! j = Some v' /\ v ⊆ v').
  { intros id f Hf j v Hj. destruct (decide (j = id)) as [->|Hne].
    - rewrite lookup_insert_eq, Hj. by eexists.
    - rewrite lookup_insert_ne by done. by eexists. }
  unfold capture. destruct (op_return_data _) as [data|]; [|by split; eauto].
  destruct (Proposal_decode data) as [p|]; [split; [by apply (Hps _ (fun v => v))|done]|].
  destruct (SignedVote_decode data) as [s|]; [|by split; eauto]. split.
  - destruct (not_counted _ _ _); [|by apply (Hps _ (fun v => v))].
    apply (Hps _ (fun v => _ ∪ v)). intros v. apply union_subseteq_r.
  - intros k Hk. rewrite lookup_insert_is_Some'. by right.
Qed.

Lemma capture_step ps locks outs output :
  captured ps locks outs ->
  let '(ps', locks') := capture g height (ps, locks) output in captured ps' locks' (outs ++ [output]).
Proof.
  intros [Hp Hv Hd Hl]. pose proof (capture_mono ps locks output) as Hm.
  destruct (capture g height (ps, locks) output) as [ps' locks'] eqn:E. destruct Hm as [Hmp Hml].
  split.
  - intros out data p Hout Hdata Hdec. apply elem_of_app in Hout as [Hout| ->%list_elem_of_singleton].
    + destruct (Hp _ _ _ Hout Hdata Hdec) as [v Hx]. destruct (Hmp _ _ Hx) as (v' & -> & _). done.
    + simpl in E. rewrite Hdata, Hdec in E. injection E as <- <-. by rewrite lookup_insert_eq.
  - intros out data s Hout Hdata Hno Hdec. apply elem_of_app in Hout as [Hout| ->%list_elem_of_singleton].
    + destruct (Hv _ _ _ Hout Hdata Hno Hdec) as [Hk (v & Hx & Hr)]. split; [auto|].
      destruct (Hmp _ _ Hx) as (v' & Hx' & Hsub). exists v'. split; [done|].
      intros r Hg. specialize (Hr r Hg). apply elem_of_union in Hr as [Hr|Hr]; apply elem_of_union; auto.
    + simpl in E. rewrite Hdata, Hno, Hdec in E. injection E as <- <-. rewrite !lookup_insert_eq.
      split; [done|]. eexists; split; [done|]. intros r Hr. unfold not_counted. rewrite Hr.
      case_bool_decide; simpl; [by apply elem_of_union_l|]. apply elem_of_union_r, elem_of_union_l.
      by apply elem_of_singleton.
  - simpl in E. destruct (op_return_data _) as [data|]; [|injection E as <- <-; eauto].
    destruct (Proposal_decode data) as [p|].
    { injection E as <- <-. intros id v r Hx Hr. apply lookup_insert_Some in Hx as [[<- <-]|[_ Hx]]; [|eauto].
      destruct (ps !! _) eqn:Ev; simpl; [eauto|]. apply disjoint_empty_l. }
    destruct (SignedVote_decode data) as [s|]; [|injection E as <- <-; eauto].
    injection E as <- <-. intros id v r Hx Hr. apply lookup_insert_Some in Hx as [[<- <-]|[_ Hx]]; [|eauto].
    assert (default ∅ (ps !! proposal_id (vote s)) ## voted_outpoints r).
    { destruct (ps !! _) eqn:Ev; simpl; [eauto|]. apply disjoint_empty_l. }
    unfold not_counted. rewrite Hr. case_bool_decide; simpl; [done|].
    apply disjoint_union_l. split; [|done]. by apply disjoint_singleton_l.
  - simpl in E. destruct (op_return_data _) as [data|]; [|injection E as <- <-; eauto].
    destruct (Proposal_decode data) as [p|]; [injection E as <- <-; eauto|].
    destruct (SignedVote_decode data) as [s|]; [|injection E as <- <-; eauto].
    injection E as <- <-. intros k o Hx. apply lookup_insert_Some in Hx as [[<- <-]|[_ Hx]]; [|eauto].
    destruct (locks !! _) eqn:Ev; simpl; eauto.
Qed.

Lemma capture_all outs :
  let '(ps, locks) := foldl (capture g height) (∅, ∅) outs in captured ps locks outs.
Proof.
  induction outs as [|output outs IH] using rev_ind.
  { simpl. split; [intros output data p Hin|intros output data s Hin|done|done]; by apply elem_of_nil in Hin. }
  rewrite foldl_snoc. destruct (foldl _ _ outs) as [ps locks]. by apply capture_step.
Qed.

(** How far a run of [process_transaction] that only touches captured entries may have
    moved away from [g]. *)
Record tracks (ps : gmap bytes (gset OutPoint)) (locks : gmap OutPoint (option VoteLock))
    (g1 : GovernanceState) : Prop := {
  tr_old : forall id r, proposals g !! id = Some r -> exists r1, proposals g1 !! id = Some r1 /\
    voted_outpoints r ⊆ voted_outpoints r1 /\
    voted_outpoints r1 ⊆ voted_outpoints r ∪ default ∅ (ps !! id) /\
    (ps !! id = None -> r1 = r);
  tr_new : forall id, proposals g !! id = None -> ps !! id = None -> proposals g1 !! id = None;
  tr_locks : forall k, locks !! k = None -> locked_utxos g1 !! k = locked_utxos g !! k;
  tr_origin : forall k, origin_of g1 k = origin_of g k;
}.

Lemma tracks_put_record ps locks g1 id r1 votes :
  tracks ps locks g1 -> ps !! id = Some votes ->
  (forall r, proposals g !! id = Some r ->
     voted_outpoints r ⊆ voted_outpoints r1 /\ voted_outpoints r1 ⊆ voted_outpoints r ∪ votes) ->
  tracks ps locks (put_record id r1 g1).
Proof.
  intros [Ho Hn Hl Hor] Hid Hv. split; [| |done|done]; simpl.
  - intros j r Hj. destruct (decide (j = id)) as [->|Hne]; [|rewrite lookup_insert_ne by done; eauto].
    rewrite lookup_insert_eq. exists r1. rewrite Hid. simpl. by destruct (Hv r Hj).
  - intros j Hj Hps. rewrite lookup_insert_ne by congruence. auto.
Qed.

Lemma tracks_put_lock ps locks g1 k l :
  tracks ps locks g1 -> is_Some (locks !! k) -> voting_origin l = origin_of g1 k ->
  tracks ps locks (put_lock k l g1).
Proof.
  intros [Ho Hn Hl Hor] [x Hk] Hv. split; [done|done| |]; simpl.
  - intros j Hj. rewrite lookup_insert_ne by congruence. auto.
  - intros j. rewrite <- Hor. unfold origin_of in *. simpl.
    destruct (decide (j = k)) as [->|Hne]; [by rewrite lookup_insert_eq|by rewrite lookup_insert_ne].
Qed.

Lemma votes_restored (new old added : gset OutPoint) :
  old ⊆ new -> new ⊆ old ∪ added -> added ## old ->
  new ∖ list_to_set (set_list added) ∪ list_to_set [] = old.
Proof.
  intros H1 H2 Hd. apply set_eq. intros o. specialize (H1 o). specialize (H2 o). specialize (Hd o).
  rewrite elem_of_union, elem_of_difference, !elem_of_list_to_set, elem_of_set_list, elem_of_nil.
  rewrite elem_of_union in H2. destruct (decide (o ∈ added)); tauto.
Qed.

Lemma tracks_undoes ps locks g1 :
  tracks ps locks g1 ->
  (forall id votes r, ps !! id = Some votes -> proposals g !! id = Some r ->
    votes ## voted_outpoints r) ->
  (forall k o, locks !! k = Some o -> o = locked_utxos g !! k) ->
  undoes g g1 (mkUndo
    (map (fun '(id, votes) =>
        match proposals g !! id with
        | Some record => PUpdated id (proposal_metadata record) (set_list votes) []
        | None => PAdded id
        end) (in_order bytes_leb ps))
    (in_order outpoint_leb locks)).
Proof.
  intros [Ho Hn Hl _] Hd Hk. set (f := fun '(id, votes) => _).
  assert (Hid : change_id <$> map f (in_order bytes_leb ps) = (in_order bytes_leb ps).*1).
  { change (map f) with (fmap (M:=list) f). rewrite <- list_fmap_compose. apply list_fmap_ext.
    intros _ [id v] _. simpl. by destruct (proposals g !! id). }
  split; cbn [undo_proposals undo_locks]; rewrite ?Hid.
  - apply in_order_keys.
  - apply Forall_fmap, Forall_forall. intros [id v] Hv%elem_of_in_order. simpl.
    destruct (proposals g !! id) as [r|] eqn:Hr; [|by apply reverts_added].
    destruct (Ho id r Hr) as (r1 & Hr1 & H1 & H2 & _). apply (reverts_updated _ _ _ r r1); [done..|].
    rewrite Hv in H2. by apply votes_restored, (Hd _ _ _ Hv Hr).
  - intros id Hn'. assert (ps !! id = None) as Hps.
    { apply eq_None_not_Some. intros [v Hv]. apply (elem_of_in_order bytes_leb) in Hv. apply Hn'.
      by apply (list_elem_of_fmap_2 fst _ (id, v)). }
    destruct (proposals g !! id) as [r|] eqn:Hr; [|auto].
    destruct (Ho id r Hr) as (r1 & Hr1 & _ & _ & Heq). rewrite Hr1. by rewrite Heq.
  - apply in_order_keys.
  - intros k o Hin%elem_of_in_order. eauto.
  - intros k Hn'. apply Hl, eq_None_not_Some. intros [v Hv]. apply (elem_of_in_order outpoint_leb) in Hv.
    apply Hn'. by apply (list_elem_of_fmap_2 fst _ (k, v)).
Qed.
Lemma Proposal_decode_prefix data :
  starts_with PROPOSAL_PREFIX data = false -> Proposal_decode data = None.
Proof. intros E. unfold Proposal_decode. by rewrite E, orb_true_r. Qed.

Lemma identity_origin g1 o utxo : (identity g1 o utxo).1.1 = origin_of g1 o.
Proof. unfold identity, origin_of. by destruct (locked_utxos g1 !! o). Qed.

Section process.
Context (ps : gmap bytes (gset OutPoint)) (locks : gmap OutPoint (option VoteLock)).
Context (timestamp : Z) (utxos : gmap OutPoint Utxo) (params : ConsensusParams)
  (total_staked : Z) (genesis : bytes).
Context (outs : list TxOutput) (Hcap : captured ps locks outs).

Lemma process_proposal_tracks data burned output g1 :
  output ∈ outs -> op_return_data (script_pubkey output) = Some data ->
  tracks ps locks g1 ->
  swp (process_proposal data burned height params total_staked)
    (fun _ => tracks ps locks) (tracks ps locks) g1.
Proof.
  intros Hout Hdata Ht. unfold process_proposal. do 2 swp_step; [|done].
  intros p Hdec%ok_or_Ok.
  do 2 swp_step; [|done]. intros _ _. do 2 swp_step. swp_guard. intros Hnew%bool_decide_eq_false.
  swp_step. destruct (cap_proposal _ _ _ Hcap _ _ _ Hout Hdata Hdec) as [votes Hv].
  eapply tracks_put_record; [done..|]. intros r Hr.
  destruct (tr_old _ _ _ Ht _ _ Hr) as (r1 & Hr1 & _). destruct Hnew. by eexists.
Qed.

Lemma process_vote_tracks data output g1 :
  output ∈ outs -> op_return_data (script_pubkey output) = Some data ->
  Proposal_decode data = None -> tracks ps locks g1 ->
  swp (process_vote data height timestamp utxos params genesis)
    (fun _ => tracks ps locks) (tracks ps locks) g1.
Proof.
  intros Hout Hdata Hno Ht. unfold process_vote. do 2 swp_step; [|done].
  intros s Hdec%ok_or_Ok. destruct (cap_vote _ _ _ Hcap _ _ _ Hout Hdata Hno Hdec) as (Hk & votes & Hv & Hin).
  do 2 swp_step; [|done]. intros utxo _. swp_guard. intros _. do 2 swp_step; [|done]. intros who _.
  do 2 swp_step. pose proof (identity_origin g1 (vote_outpoint s) utxo) as Ho.
  destruct (identity g1 (vote_outpoint s) utxo) as [[origin stake] oh]. simpl in Ho. subst origin.
  do 2 swp_step; [|done]. intros r1 Hr1%ok_or_Ok. do 3 (swp_guard; intros _).
  set (r2 := with_votes r1 _).
  assert (Hr2 : forall r, proposals g !! proposal_id (vote s) = Some r ->
    voted_outpoints r ⊆ voted_outpoints r2 /\ voted_outpoints r2 ⊆ voted_outpoints r ∪ votes).
  { intros r Hr. destruct (tr_old _ _ _ Ht _ _ Hr) as (r1' & Hr1' & H1 & H2 & _).
    specialize (Hin r Hr). rewrite <- (tr_origin _ _ _ Ht) in Hin.
    rewrite Hv in H2. simpl in *. assert (r1' = r1) as -> by congruence.
    split; [by apply union_subseteq_r'|]. by apply union_subseteq; split; [apply singleton_subseteq_l|]. }
  assert (Hr3 : forall r3, voted_outpoints r3 = voted_outpoints r2 ->
    forall g2, tracks ps locks g2 -> tracks ps locks (put_record (proposal_id (vote s)) r3 g2)).
  { intros r3 E g2 Hg2. eapply tracks_put_record; [done..|]. rewrite E. exact Hr2. }
  do 2 swp_step. do 2 swp_step; [|by apply Hr3]. intros t _. do 2 swp_step.
  do 2 swp_step; [|by apply Hr3, Hr3]. intros unlock _. do 2 swp_step. swp_step.
  apply tracks_put_lock; [by apply Hr3, Hr3|done|].
  unfold lock_entry, origin_of. simpl. destruct (locked_utxos g1 !! vote_outpoint s); simpl; by case_match.
Qed.

Lemma process_output_tracks output g1 :
  output ∈ outs -> tracks ps locks g1 ->
  swp (process_output height timestamp utxos params total_staked genesis output)
    (fun _ => tracks ps locks) (tracks ps locks) g1.
Proof.
  intros Hout Ht. unfold process_output. destruct (op_return_data _) as [data|] eqn:Hd; [|by swp_step].
  swp_step; [intros _; by eapply process_proposal_tracks|]. intros Hp.
  swp_step; [intros _; eapply process_vote_tracks; try done; by apply Proposal_decode_prefix|]. intros _.
  swp_step; intros _; by swp_step.
Qed.

End process.

Lemma tracks_start ps locks : tracks ps locks g.
Proof.
  split; [|done..]. intros id r Hr. exists r. split_and!; [done|done| |done]. apply union_subseteq_l.
Qed.

End undo.

(** the undo record taken before a tentative transaction is exact. Whether
    [process_transaction] succeeds or stops half-way with an error, restoring with the
    record [transaction_undo] took beforehand gives back the state it started from. *)
Theorem transaction_undo_exact `{Crypto} tx height timestamp utxos params total_staked genesis g :
  restore_undo (transaction_undo g tx height)
    (process_transaction tx height timestamp utxos params total_staked genesis g).1 = Ok g.
Proof.
  apply undoes_restore. unfold transaction_undo.
  pose proof (capture_all g height (outputs tx)) as Hcap.
  destruct (foldl (capture g height) (∅, ∅) (outputs tx)) as [ps locks].
  apply tracks_undoes; [|exact (cap_disjoint _ _ _ _ _ Hcap)|exact (cap_locks _ _ _ _ _ Hcap)].
  pose proof (swp_for (fun _ => tracks g ps locks) (tracks g ps locks)
    (process_output height timestamp utxos params total_staked genesis) (outputs tx) [] g) as Hrun.
  unfold process_transaction, swp in *. destruct (sfor _ _ g) as [g' [[]|e|]] eqn:E; apply Hrun;
    try apply tracks_start; intros; by eapply process_output_tracks.
Qed.

(** ** Lemmas: parameters and the start of a block *)

(** The ranges [ParamId::apply] keeps the parameters in. *)
Definition params_ok (p : ConsensusParams) : Prop :=
  1 <= pos_annual_rate_bps p <= 1000 /\
  60 <= reward_age_cap p <= 31536000 /\
  60 <= min_stake_age p /\ min_stake_age p <= max_stake_age p /\ max_stake_age p <= 31536000 /\
  COIN <= min_stake_amount p <= MAX_SUPPLY /\
  30 <= target_block_time p <= 600.

Lemma default_params_ok : params_ok default_params.
Proof. repeat split; vm_compute; congruence. Qed.

Lemma apply_spec p params v :
  params_ok params ->
  match apply p params v with
  | Ok next => params_ok next
  | Err e => True
  | Panic => False
  end.
Proof.
  destruct params as [rate cap maxa mina amt tbt]. unfold params_ok, apply, in_range, as_u32; simpl.
  intros Hok. destruct p; simpl;
    (destruct (_ <=? v) eqn:E1; [|done]; destruct (v <=? _) eqn:E2; [|done]; simpl;
     destruct (_ <? _) eqn:E3; [done|]; simpl; apply Z.leb_le in E1, E2; apply Z.ltb_ge in E3;
     try rewrite (Z.mod_small v) by lia; lia).
Qed.

Section begin.
Context {C : Crypto} {B : Bincode}.
Context (utxos : gmap OutPoint Utxo) (timestamp : Z).

(** One activation: the new parameters were checked against the output set, or nothing
    but the record changed. *)
Lemma activate_spec g params e r :
  params_ok params -> proposals g !! e.2 = Some r ->
  exists failed params', activate utxos timestamp (g, params) e =
      Ok (put_record e.2 (with_activation r failed) g, params') /\ params_ok params' /\
    (params' = params \/ exists k u, utxos !! k = Some u /\ can_stake params' timestamp u = true).
Proof.
  intros Hok Hr. unfold activate. rewrite Hr. simpl.
  pose proof (apply_spec (param (proposal r)) params (new_value (proposal r)) Hok) as Ha.
  destruct (apply _ _ _) as [next|err|]; [|by eauto 6|done]. simpl.
  destruct (existsb _ _) eqn:E; simpl; [|by eauto 6].
  exists false, next. split_and!; [done|done|]. right.
  apply existsb_exists in E as ([k u] & Hin & Hu). exists k, u. split; [|done].
  by apply elem_of_map_to_list, list_elem_of_In.
Qed.

Lemma activate_all l : forall g params,
  params_ok params -> (forall e, e ∈ l -> is_Some (proposals g !! e.2)) ->
  exists g' params', rfold (activate utxos timestamp) (g, params) l = Ok (g', params') /\
    params_ok params' /\ locked_utxos g' = locked_utxos g /\
    (params' = params \/
     l <> [] /\ exists k u, utxos !! k = Some u /\ can_stake params' timestamp u = true) /\
    (forall id, id ∉ l.*2 -> proposals g' !! id = proposals g !! id) /\
    (forall id r, proposals g !! id = Some r -> id ∈ l.*2 ->
       exists failed, proposals g' !! id = Some (with_activation r failed)).
Proof.
  induction l as [|e l IH]; intros g params Hok Hin.
  { exists g, params. split_and!; try done; [by left|]. intros id r _ H. by apply elem_of_nil in H. }
  destruct (Hin e) as [r Hr]; [left|]. destruct (activate_spec g params e r Hok Hr) as (f & p1 & E & Hok1 & Hp1).
  set (g1 := put_record e.2 (with_activation r f) g) in *.
  assert (Hg1 : forall id, is_Some (proposals g !! id) -> is_Some (proposals g1 !! id)).
  { intros id Hid. apply lookup_insert_is_Some'. by right. }
  destruct (IH g1 p1) as (g' & p' & E' & Hok' & Hl & Hp & Hout & Hins); [done|intros; apply Hg1, Hin; by right|].
  exists g', p'. cbn [rfold]. rewrite E. cbn [rbind]. split_and!; [done|done|by rewrite Hl| |..].
  - destruct Hp as [->|[_ Hp]]; [destruct Hp1 as [->|Hp1]|]; [by left|by right; split..].
  - intros id [H1 H2]%not_elem_of_cons. rewrite Hout by done. by apply lookup_insert_ne.
  - intros id r' Hr' Hid. destruct (decide (id ∈ l.*2)) as [Hid'|Hid'].
    + destruct (decide (id = e.2)) as [->|Hne].
      * destruct (Hins e.2 (with_activation r f)) as [f' Hf']; [apply lookup_insert_eq|done|].
        exists f'. rewrite Hf'. by simplify_eq.
      * apply Hins; [|done]. by rewrite <- Hr'; apply lookup_insert_ne.
    + rewrite (Hout id Hid'). apply elem_of_cons in Hid as [->|?]; [|done]. simplify_eq.
      exists f. apply lookup_insert_eq.
Qed.

Lemma elem_of_pending height ps id :
  id ∈ (pending_of height ps).*2 <-> exists r, ps !! id = Some r /\ is_pending height r = true.
Proof.
  unfold pending_of. rewrite list_elem_of_fmap. setoid_rewrite merge_sort_Permutation.
  setoid_rewrite list_elem_of_omap. split.
  - intros (e & -> & [j r] & Hin%elem_of_in_order & He). destruct (is_pending height r) eqn:Ep; [|done].
    injection He as <-. by exists r.
  - intros (r & Hr & Hp). eexists. split; [|exists (id, r); rewrite elem_of_in_order, Hp; by split]. done.
Qed.

Lemma begin_block_run height g params :
  params_ok params ->
  exists g' params', begin_block height utxos timestamp g params = Ok (g', params') /\
    params_ok params' /\
    locked_utxos g' = filter (fun e => (height <? unlock_height e.2) = true) (locked_utxos g) /\
    (params' = params \/
     exists k u, utxos !! k = Some u /\ can_stake params' timestamp u = true) /\
    forall id, match proposals g !! id with
      | None => proposals g' !! id = None
      | Some r =>
          if is_pending height (decide_record height r)
          then exists failed, proposals g' !! id = Some (with_activation (decide_record height r) failed)
          else proposals g' !! id = Some (decide_record height r)
      end.
Proof.
  intros Hok. unfold begin_block. set (ps := decide_record height <$> proposals g).
  set (g0 := mkGov ps _).
  destruct (activate_all (pending_of height ps) g0 params) as (g' & p' & E & Hok' & Hl & Hp & Hout & Hin); [done| |].
  { intros e He. assert (e.2 ∈ (pending_of height ps).*2) as (r & Hr & _)%elem_of_pending
      by by apply list_elem_of_fmap_2. by exists r. }
  exists g', p'. split_and!; [done|done|done|tauto|]. intros id.
  assert (Hid : ps !! id = decide_record height <$> proposals g !! id) by apply lookup_fmap.
  destruct (proposals g !! id) as [r|] eqn:Hr; simpl in Hid.
  - destruct (is_pending height (decide_record height r)) eqn:Ep.
    + apply Hin; [done|]. apply elem_of_pending. eauto.
    + rewrite Hout; [done|]. rewrite elem_of_pending. intros (r' & Hr' & Hp'). congruence.
  - rewrite Hout; [done|]. rewrite elem_of_pending. intros (r' & Hr' & Hp'). congruence.
Qed.

End begin.

Lemma decide_record_spec height r :
  let r' := decide_record height r in
  proposal r' = proposal r /\ applied r' = applied r /\ activation_failed r' = activation_failed r /\
  decided r' = decided r || (voting_end (proposal r) <=? height) /\
  voted_outpoints r' = (if voting_end (proposal r) <=? height then ∅ else voted_outpoints r) /\
  (yes r', no r', abstain r', quorum_supply r') = (yes r, no r, abstain r, quorum_supply r) /\
  passed r' = (if negb (decided r) && (voting_end (proposal r) <=? height) then
    match tally (proposal r) (yes r) (no r) (abstain r) (quorum_supply r) height with
    | Passed _ _ _ => true | _ => false end else passed r).
Proof.
  unfold decide_record. destruct (decided r) eqn:Ed, (voting_end (proposal r) <=? height) eqn:Ev;
    simpl; rewrite ?Ed, ?Ev; simpl; rewrite ?Ed; done.
Qed.

Lemma tally_passed p y n a total height :
  match tally p y n a total height with Passed _ _ _ => true | _ => false end = true ->
  0 <= total -> 0 < total /\ total * 33 <= (y + n + a) * 100 /\ (y + n) * 66 <= y * 100.
Proof.
  unfold tally, DEFAULT_QUORUM_PCT, DEFAULT_THRESHOLD_PCT. destruct (height <? _); [done|].
  destruct (total =? 0) eqn:E1; [done|]. destruct (_ <? total * 33) eqn:E2; [done|]. simpl.
  destruct (y + n =? 0) eqn:E3; [done|]. destruct (_ <? (y + n) * 66) eqn:E4; [done|]. simpl. lia.
Qed.

(** governance at the start of a block. With parameters in their ranges it never
    fails and leaves parameters in their ranges; they change only to values under which
    some unspent output can stake at that moment. A proposal is decided once its voting
    period is over and the decision is final; it passes only with a quorum of a third of
    the stake and two thirds of the decisive votes; and it is applied, at most once, as
    soon as its activation height is reached. *)
Theorem begin_block_sound `{Crypto} height utxos timestamp g params :
  params_ok params -> (forall id r, proposals g !! id = Some r -> 0 <= quorum_supply r) ->
  exists g' params', begin_block height utxos timestamp g params = Ok (g', params') /\
    params_ok params' /\
    (params' = params \/ exists k u, utxos !! k = Some u /\ can_stake params' timestamp u = true) /\
    forall id r, proposals g !! id = Some r -> exists r', proposals g' !! id = Some r' /\
      (voting_end (proposal r) <= height -> decided r' = true) /\
      (decided r = true -> decided r' = true /\ passed r' = passed r) /\
      (passed r' = true -> passed r = true \/
         voting_end (proposal r) <= height /\ 0 < quorum_supply r /\
         quorum_supply r * 33 <= (yes r + no r + abstain r) * 100 /\
         (yes r + no r) * 66 <= yes r * 100) /\
      (passed r' = true -> activation_height (proposal r) <= height -> applied r' = true) /\
      (applied r = true -> applied r' = true /\ activation_failed r' = activation_failed r).
Proof.
  intros Hok Hq. destruct (begin_block_run utxos timestamp height g params Hok)
    as (g' & p' & E & Hok' & _ & Hp & Hrec). exists g', p'. split_and!; [done..|].
  intros id r Hr. specialize (Hrec id). rewrite Hr in Hrec. specialize (Hq id r Hr).
  destruct (decide_record_spec height r) as (E1 & E2 & E3 & E4 & _ & _ & E6).
  set (r1 := decide_record height r) in *. clearbody r1.
  assert (exists r', proposals g' !! id = Some r' /\ decided r' = decided r1 /\ passed r' = passed r1 /\
    applied r' = applied r1 || is_pending height r1 /\
    (is_pending height r1 = false -> activation_failed r' = activation_failed r1))
    as (r' & Hr' & D & P & A & F).
  { destruct (is_pending height r1) eqn:Ep.
    - destruct Hrec as [f Hf]. eexists. split; [exact Hf|]. rewrite orb_true_r. done.
    - exists r1. rewrite orb_false_r. done. }
  exists r'. unfold is_pending in A, F. rewrite E1, E2 in A, F. rewrite D, P, A, E4.
  split_and!; [done|..].
  - intros ->%Z.leb_le. by rewrite orb_true_r.
  - intros Hd. by rewrite E6, Hd.
  - rewrite E6. destruct (negb (decided r) && _) eqn:Ed; [|auto]. intros Ht%tally_passed; [|done].
    apply andb_true_iff in Ed as [_ Ed%Z.leb_le]. auto.
  - intros -> ->%Z.leb_le. by destruct (applied r).
  - intros Ha. rewrite Ha in *. rewrite F; [by rewrite E3|]. by rewrite andb_false_r.
Qed.
