(* ===== verification/Voting.v ===== *)
(** * Governance: votes, the state machine, payloads

    Theorems about the operations of [Governance.v]: what a counted vote has passed
    and what it changes, the state machine made of blocks, governance transactions and
    moves of locked stake with its invariant, and the encodings of proposals and votes. *)

From stdpp Require Import base list gmap sorting strings.
From Stdlib Require Import ZArith Lia.
From S2P Require Import Prelude Script Crypto Engine Standard Merkle Codec Block Address Consensus.
From S2P Require Import Governance.
Import Scripts.

(** ** Lemmas: what a vote does *)

(** The lock a vote leaves on its outpoint. *)
Definition locks_until (g : GovernanceState) (o origin : OutPoint) (h : Z) : Prop :=
  exists l, locked_utxos g !! o = Some l /\ voting_origin l = origin /\ h <= unlock_height l.

(** The effect of a counted vote, and everything that was checked before. *)
Record counted `{Crypto} (data : bytes) (height timestamp : Z) (utxos : gmap OutPoint Utxo)
    (params : ConsensusParams) (genesis : bytes) (g g' : GovernanceState)
    (s : SignedVote) (utxo : Utxo) (r : ProposalRecord) (stake origin_height : Z) : Prop := {
  ct_decode : SignedVote_decode data = Some s;
  ct_unspent : utxos !! vote_outpoint s = Some utxo;
  ct_stakeable : is_stakeable utxo = true;
  ct_mature : utxo_timestamp utxo + min_stake_age params <= timestamp;
  ct_owner : is_ok (owner s utxo genesis) = true;
  ct_proposal : proposals g !! proposal_id (vote s) = Some r;
  ct_open : created_height r < height < voting_end (proposal r) /\ decided r = false;
  ct_older : origin_height < created_height r;
  ct_identity : identity g (vote_outpoint s) utxo = (origin_of g (vote_outpoint s), stake, origin_height);
  ct_fresh : origin_of g (vote_outpoint s) ∉ voted_outpoints r;
  ct_after : proposals g' = <[proposal_id (vote s) :=
    with_tally (with_votes r ({[origin_of g (vote_outpoint s)]} ∪ voted_outpoints r))
      (choice (vote s)) (tally_of r (choice (vote s)) + stake)]> (proposals g);
  ct_lock : exists l, locked_utxos g' = <[vote_outpoint s := l]> (locked_utxos g) /\
    voting_origin l = origin_of g (vote_outpoint s) /\
    voting_end (proposal r) + DEFAULT_LOCK_GRACE_BLOCKS <= unlock_height l /\
    match locked_utxos g !! vote_outpoint s with
    | Some old => voting_value l = voting_value old /\ unlock_height old <= unlock_height l
    | None => voting_value l = stake
    end;
}.

Lemma lock_entry_spec g o fresh :
  let l := lock_entry g o fresh in
  unlock_height fresh <= unlock_height l /\
  match locked_utxos g !! o with
  | Some old => voting_origin l = voting_origin old /\ voting_value l = voting_value old /\
      unlock_height old <= unlock_height l
  | None => voting_origin l = voting_origin fresh /\ voting_value l = voting_value fresh
  end.
Proof.
  unfold lock_entry. destruct (locked_utxos g !! o) as [l|]; simpl; case_match eqn:E; simpl;
    repeat split; lia.
Qed.

Lemma process_vote_spec `{Crypto} data height timestamp utxos params genesis g g' :
  process_vote data height timestamp utxos params genesis g = (g', Ok tt) ->
  exists s utxo r stake oh, counted data height timestamp utxos params genesis g g' s utxo r stake oh.
Proof.
  intros E. eapply (swp_run _ (fun _ g' => exists s utxo r stake oh,
    counted data height timestamp utxos params genesis g g' s utxo r stake oh) (fun _ => True)) in E; [done|].
  clear E g'. unfold process_vote. do 2 swp_step; [|done]. intros s Hdec%ok_or_Ok.
  do 2 swp_step; [|done]. intros utxo Hu%ok_or_Ok. swp_guard.
  intros [[[Hs Hv]%orb_false_iff Ht]%orb_false_iff Hm]%orb_false_iff.
  do 2 swp_step; [|done]. intros who Hw. do 2 swp_step.
  pose proof (identity_origin g (vote_outpoint s) utxo) as Ho.
  destruct (identity g (vote_outpoint s) utxo) as [[origin stake] oh] eqn:Hi. simpl in Ho. subst origin.
  do 2 swp_step; [|done]. intros r Hr%ok_or_Ok.
  swp_guard. intros [[Hc He]%orb_false_iff Hd]%orb_false_iff. swp_guard. intros Hold.
  swp_guard. intros Hf%bool_decide_eq_false. do 2 swp_step. do 2 swp_step; [|done].
  intros t Htl%ok_or_Ok. do 2 swp_step. do 2 swp_step; [|done]. intros unlock Hul%ok_or_Ok.
  do 2 swp_step. swp_step. exists s, utxo, r, stake, oh.
  unfold checked_add in Htl, Hul. destruct (_ <=? u64_max) in Htl; [|done]. destruct (_ <=? u32_max) in Hul; [|done].
  injection Htl as <-. injection Hul as <-.
  split; try done; try lia.
  - by apply negb_false_iff.
  - by rewrite Hw.
  - split; [lia|done].
  - simpl. rewrite insert_insert_eq. by destruct (choice (vote s)).
  - eexists. split; [done|]. set (g1 := put_record _ _ _). set (fresh := mkLock _ _ _ _ _ _ _ _).
    destruct (lock_entry_spec g1 (vote_outpoint s) fresh) as [H1 H2].
    change (locked_utxos g1) with (locked_utxos g) in H2. unfold origin_of in *. simpl in H1.
    destruct (locked_utxos g !! vote_outpoint s) as [l|]; destruct H2 as [-> H2]; auto.
Qed.

(** ** The governance state machine *)

(** The value of a set of outpoints, given the value of each. *)
Definition stake_sum (val : OutPoint -> Z) (X : gset OutPoint) : Z := zsum (val <$> elements X).

Lemma stake_sum_add val X o : o ∉ X -> stake_sum val ({[o]} ∪ X) = val o + stake_sum val X.
Proof.
  intros Ho. unfold stake_sum. rewrite elements_union_singleton by done. done.
Qed.

Section machine.
Context {C : Crypto} {B : Bincode}.
Variable val : OutPoint -> Z.

(** The output set agrees with [val]. *)
Definition valued (utxos : gmap OutPoint Utxo) : Prop :=
  forall k u, utxos !! k = Some u -> utxo_value u <= val k.

(** The steps the chain takes: the start of a block, a transaction that carries
    governance payloads, a coinstake that moves a locked output. *)
Inductive gov_step : GovernanceState -> GovernanceState -> Prop :=
  | step_begin height utxos timestamp params g g' params' :
      params_ok params ->
      begin_block height utxos timestamp g params = Ok (g', params') -> gov_step g g'
  | step_transaction tx height timestamp utxos params total_staked genesis g g' :
      valued utxos ->
      process_transaction tx height timestamp utxos params total_staked genesis g = (g', Ok tt) ->
      gov_step g g'
  | step_move tx utxo height g g' :
      (forall v, locked_utxos g !! ((txid tx, v) : OutPoint) = None) ->
      transfer_stake_lock tx utxo height g = (g', Ok tt) -> gov_step g g'.

Inductive reachable : GovernanceState -> Prop :=
  | reach_new : reachable gov_new
  | reach_step g g' : reachable g -> gov_step g g' -> reachable g'.

(** No stake counts twice, and stake that voted stays locked until after the vote. *)
Record gov_inv (g : GovernanceState) : Prop := {
  inv_backed : forall id r, proposals g !! id = Some r -> decided r = false ->
    yes r + no r + abstain r <= stake_sum val (voted_outpoints r);
  inv_locked : forall id r o, proposals g !! id = Some r -> o ∈ voted_outpoints r ->
    exists k, locks_until g k o (voting_end (proposal r) + DEFAULT_LOCK_GRACE_BLOCKS);
  inv_value : forall k l, locked_utxos g !! k = Some l -> voting_value l <= val (voting_origin l);
}.

Lemma gov_inv_new : gov_inv gov_new.
Proof.
  split; [intros id r Hr|intros id r o Hr|intros k l Hr]; simpl in Hr; by rewrite lookup_empty in Hr.
Qed.

(** A step that only moves locks keeps the locks of every origin. *)
Lemma begin_block_inv height utxos timestamp params g g' params' :
  params_ok params -> begin_block height utxos timestamp g params = Ok (g', params') ->
  gov_inv g -> gov_inv g'.
Proof.
  intros Hok E [Hb Hl Hv]. destruct (begin_block_run utxos timestamp height g params Hok)
    as (g1 & p1 & E1 & _ & Hk & _ & Hrec). rewrite E in E1. injection E1 as <- <-.
  assert (Hback : forall id r', proposals g' !! id = Some r' -> exists r, proposals g !! id = Some r /\
    proposal r' = proposal r /\ decided r' = decided r || (voting_end (proposal r) <=? height) /\
    voted_outpoints r' = (if voting_end (proposal r) <=? height then ∅ else voted_outpoints r) /\
    yes r' + no r' + abstain r' = yes r + no r + abstain r).
  { intros id r' Hr'. specialize (Hrec id). destruct (proposals g !! id) as [r|]; [|congruence].
    exists r. split; [done|]. destruct (decide_record_spec height r) as (P1 & _ & _ & P4 & P5 & P6 & _).
    injection P6 as P6 P7 P8 _. destruct (is_pending _ _).
    - destruct Hrec as [f Hf]. rewrite Hf in Hr'. injection Hr' as <-. simpl. rewrite P6, P7, P8. done.
    - rewrite Hrec in Hr'. injection Hr' as <-. rewrite P6, P7, P8. done. }
  split.
  - intros id r' (r & Hr & Ep & Ed & Ev & ->)%Hback Hd. rewrite Hd in Ed. symmetry in Ed.
    apply orb_false_iff in Ed as [Ed Eh]. rewrite Ev, Eh. eauto.
  - intros id r' o (r & Hr & Ep & Ed & Ev & _)%Hback Ho. rewrite Ev in Ho.
    destruct (voting_end (proposal r) <=? height) eqn:Eh; [by apply elem_of_empty in Ho|].
    destruct (Hl _ _ _ Hr Ho) as (k & l & Hkl & Hor & Hun). exists k, l. rewrite Ep. split_and!; [|done..].
    rewrite Hk. apply map_lookup_filter_Some. split; [done|]. simpl.
    unfold DEFAULT_LOCK_GRACE_BLOCKS in *. lia.
  - intros k l Hkl. rewrite Hk in Hkl. apply map_lookup_filter_Some in Hkl as [Hkl _]. eauto.
Qed.

Lemma process_vote_inv data height timestamp utxos params genesis g g' :
  valued utxos -> process_vote data height timestamp utxos params genesis g = (g', Ok tt) ->
  gov_inv g -> gov_inv g'.
Proof.
  intros Hval (s & utxo & r & stake & oh & Hc)%process_vote_spec [Hb Hl Hv].
  destruct Hc as [_ Hu _ _ _ Hp _ _ Hi Hf Hps (l & Hg' & Hor & Hun & Hold)].
  set (o := vote_outpoint s) in *. set (origin := origin_of g o) in *.
  assert (Hstake : stake <= val origin).
  { unfold identity in Hi. destruct (locked_utxos g !! o) as [l0|] eqn:El; injection Hi as Hi <- _.
    - specialize (Hv _ _ El). rewrite Hi in Hv. lia.
    - rewrite <- Hi. by apply Hval. }
  assert (Hkeep : forall k o' h, locks_until g k o' h -> locks_until g' k o' h).
  { intros k o' h (l' & Hk & Ho' & Hh). unfold locks_until. rewrite Hg'. destruct (decide (k = o)) as [->|Hne].
    - exists l. rewrite lookup_insert_eq. rewrite Hk in Hold. split_and!; [done| |lia].
      rewrite Hor, <- Ho'. unfold origin, origin_of. by rewrite Hk.
    - exists l'. by rewrite lookup_insert_ne. }
  split; rewrite ?Hps.
  - intros id r' [[<- <-]|[_ Hr]]%lookup_insert_Some Hd; [|eauto]. simpl.
    rewrite stake_sum_add by done. specialize (Hb _ _ Hp Hd). destruct (choice (vote s)); simpl; lia.
  - intros id r' o' [[<- <-]|[_ Hr]]%lookup_insert_Some; simpl.
    + intros [->%elem_of_singleton|Ho']%elem_of_union.
      * exists o, l. by rewrite Hg', lookup_insert_eq.
      * destruct (Hl _ _ _ Hp Ho') as [k Hk]. eauto.
    + intros Ho'. destruct (Hl _ _ _ Hr Ho') as [k Hk]. eauto.
  - intros k l'. rewrite Hg'. intros [[<- <-]|[_ Hk]]%lookup_insert_Some; [|eauto]. rewrite Hor.
    destruct (locked_utxos g !! o) as [l0|] eqn:El; [|lia]. destruct Hold as [-> _].
    unfold origin, origin_of. rewrite El. eauto.
Qed.
Lemma process_proposal_inv data burned height params total_staked g :
  gov_inv g ->
  swp (process_proposal data burned height params total_staked) (fun _ => gov_inv) (fun _ => True) g.
Proof.
  intros [Hb Hl Hv]. unfold process_proposal. do 2 swp_step; [|done]. intros p _.
  do 2 swp_step; [|done]. intros _ _. do 2 swp_step. swp_guard. intros _. swp_step. split; simpl.
  - intros id r [[<- <-]|[_ Hr]]%lookup_insert_Some; [done|eauto].
  - intros id r o [[<- <-]|[_ Hr]]%lookup_insert_Some; [by intros ?%elem_of_empty|eauto].
  - done.
Qed.

Lemma process_transaction_inv tx height timestamp utxos params total_staked genesis g g' :
  valued utxos ->
  process_transaction tx height timestamp utxos params total_staked genesis g = (g', Ok tt) ->
  gov_inv g -> gov_inv g'.
Proof.
  intros Hval E Hg. unfold process_transaction in E.
  eapply (swp_run _ (fun _ => gov_inv) (fun _ => True)) in E; [done|].
  apply (swp_for (fun _ => gov_inv) (fun _ => True) _ (outputs tx) []); [|done].
  intros _ output g0 _ Hg0. unfold process_output. destruct (op_return_data _) as [data|]; [|by swp_step].
  swp_step; [intros _; by apply process_proposal_inv|]. intros _. swp_step; intros _.
  - unfold swp. destruct (process_vote _ _ _ _ _ _ _) as [g1 [[]| |]] eqn:Ev; try done.
    by eapply process_vote_inv.
  - swp_step; intros _; by swp_step.
Qed.

Lemma transfer_stake_lock_inv tx utxo height g g' :
  (forall v, locked_utxos g !! ((txid tx, v) : OutPoint) = None) ->
  transfer_stake_lock tx utxo height g = (g', Ok tt) -> gov_inv g -> gov_inv g'.
Proof.
  intros Hfresh E Hg. eapply (swp_run _ (fun _ => gov_inv) (fun _ => True)) in E; [done|].
  unfold transfer_stake_lock. do 2 swp_step. swp_step; [intros _; by swp_step|]. intros _.
  destruct (filter _ _) as [|[i out] [|? ?]]; [by swp_step| |by swp_step].
  swp_guard. intros _. do 2 swp_step; [|done]. intros lock Hlock. do 2 swp_step. swp_step. simpl.
  set (key := (utxo_txid utxo, utxo_vout utxo) : OutPoint) in *. set (key' := (txid tx, _)).
  assert (Hlk : locked_utxos g !! key = Some lock) by (destruct (locked_utxos g !! key); simpl in Hlock; congruence).
  destruct Hg as [Hb Hl Hv]. split; simpl; [done| |].
  - intros id r o Hr Ho. destruct (Hl _ _ _ Hr Ho) as (k & l & Hk & Hor & Hun).
    destruct (decide (k = key)) as [Ek|Hne].
    + rewrite Ek, Hlk in Hk. injection Hk as <-. exists key'. eexists. simpl. by rewrite lookup_insert_eq.
    + exists k, l. simpl. rewrite lookup_insert_ne by (intros <-; unfold key' in Hk; by rewrite Hfresh in Hk).
      by rewrite lookup_delete_ne by congruence.
  - intros k l [[<- <-]|[_ Hk]]%lookup_insert_Some; simpl; [eauto|].
    apply lookup_delete_Some in Hk as [_ Hk]. eauto.
Qed.

Lemma reachable_inv g : reachable g -> gov_inv g.
Proof.
  induction 1 as [|g g' _ IH Hstep]; [apply gov_inv_new|]. destruct Hstep.
  - by eapply begin_block_inv.
  - by eapply process_transaction_inv.
  - by eapply transfer_stake_lock_inv.
Qed.

(** C35: no stake counts twice, by induction over every sequence of blocks, governance
    transactions and moves of locked stake. As long as a proposal is undecided its votes
    add up to at most the value of the distinct outpoints that voted on it, and each of
    those is held by a lock that outlives the vote by six blocks. *)
Theorem votes_backed_by_locked_stake g id r :
  reachable g -> proposals g !! id = Some r -> decided r = false ->
  yes r + no r + abstain r <= stake_sum val (voted_outpoints r) /\
  forall o, o ∈ voted_outpoints r -> exists k l, locked_utxos g !! k = Some l /\
    voting_origin l = o /\ voting_end (proposal r) + 6 <= unlock_height l.
Proof.
  intros [Hb Hl _]%reachable_inv Hr Hd. split; [by apply (Hb id)|].
  intros o Ho. apply (Hl _ _ _ Hr Ho).
Qed.

End machine.

(** ** Payloads *)

Definition proposal_range (p : Proposal) : Prop :=
  u_range 8 (new_value p) /\ u_range 4 (activation_height p) /\ u_range 4 (voting_end p) /\
  u_range 8 (deposit p).

Definition vote_range (s : SignedVote) : Prop :=
  zlen (proposal_id (vote s)) = 8 /\ zlen (vote_outpoint s).1 = 32 /\
  u_range 4 (vote_outpoint s).2 /\ zlen (signature s) = 65.

Lemma ParamId_code_inv p : from_u8 (ParamId_code p) = Some p.
Proof. by destruct p. Qed.

Lemma from_u8_code v p : from_u8 v = Some p -> ParamId_code p = v.
Proof.
  unfold from_u8. destruct v as [|v|v]; [by intros [= <-]| |done].
  do 3 (try destruct v as [v|v|]); try done; by intros [= <-].
Qed.

Lemma Proposal_encode_decode p : proposal_range p -> Proposal_decode (Proposal_encode p) = Some p.
Proof.
  intros (H1 & H2 & H3 & H4). set (c := ParamId_code (param p)). set (pre := PROPOSAL_PREFIX ++ [c]).
  set (v := le64 (new_value p)). set (a := le32 (activation_height p)). set (e := le32 (voting_end p)).
  set (d := le64 (deposit p)).
  pose proof (slice_mid pre v (a ++ e ++ d) 6 14 eq_refl eq_refl : slice 6 14 (Proposal_encode p) = v) as S1.
  pose proof (slice_mid (pre ++ v) a (e ++ d) 14 18 eq_refl eq_refl : slice 14 18 (Proposal_encode p) = a) as S2.
  pose proof (slice_mid (pre ++ v ++ a) e d 18 22 eq_refl eq_refl : slice 18 22 (Proposal_encode p) = e) as S3.
  pose proof (slice_end (pre ++ v ++ a ++ e) d 22 30 eq_refl eq_refl : slice 22 30 (Proposal_encode p) = d) as S4.
  unfold Proposal_decode. rewrite S1, S2, S3, S4.
  change (vec_at (Proposal_encode p) 5) with (Some c). unfold v, a, e, d, le64, le32.
  rewrite !from_le_to_le by assumption.
  change (zlen (Proposal_encode p)) with 30. change (starts_with PROPOSAL_PREFIX (Proposal_encode p)) with true.
  cbn [Z.eqb Pos.eqb negb orb mbind option_bind]. unfold c. rewrite ParamId_code_inv. by destruct p.
Qed.

(** A fixed-width integer read out of a byte string, written back. *)
Lemma slice_int data x y n :
  is_bytes data -> 0 <= x <= y -> y <= zlen data -> y - x = Z.of_nat n ->
  to_le n (from_le (slice x y data)) = slice x y data /\ u_range n (from_le (slice x y data)).
Proof.
  intros Hb Hxy Hy Hn. pose proof (zlen_slice x y data Hxy Hy) as Hz.
  pose proof (is_bytes_slice x y data Hb) as Hbs. split.
  - replace n with (length (slice x y data)) by (unfold zlen in Hz; lia). by apply to_le_from_le.
  - pose proof (from_le_bound _ Hbs) as Hr. rewrite Hz, Hn in Hr. exact Hr.
Qed.

Lemma Proposal_decode_encode data p :
  is_bytes data -> Proposal_decode data = Some p -> Proposal_encode p = data /\ proposal_range p.
Proof.
  intros Hb. unfold Proposal_decode. destruct (zlen data =? 30) eqn:El; [|done].
  destruct (starts_with PROPOSAL_PREFIX data) eqn:Ep; [|done]. apply Z.eqb_eq in El.
  cbn [negb orb]. destruct (vec_at data 5) as [c|] eqn:Ec; [|done]. cbn [mbind option_bind].
  destruct (from_u8 c) as [i|] eqn:Ei; [|done]. cbn [mbind option_bind]. intros [= <-].
  destruct (slice_int data 6 14 8) as [S1 R1]; [done|lia..|]. destruct (slice_int data 14 18 4) as [S2 R2]; [done|lia..|].
  destruct (slice_int data 18 22 4) as [S3 R3]; [done|lia..|]. destruct (slice_int data 22 30 8) as [S4 R4]; [done|lia..|].
  split; [|exact (conj R1 (conj R2 (conj R3 R4)))].
  unfold Proposal_encode, le64, le32; cbn [param new_value activation_height voting_end deposit].
  rewrite S1, S2, S3, S4, (from_u8_code _ _ Ei).
  assert (Hd : data = take 6 data ++ slice 6 14 data ++ slice 14 18 data ++ slice 18 22 data ++ slice 22 30 data).
  { rewrite <- (take_drop 6 data) at 1. f_equal. change (drop 6 data) with (drop (Z.to_nat 6) data).
    rewrite (slice_drop 6 14), (slice_drop 14 18), (slice_drop 18 22), (slice_drop 22 30) by lia.
    rewrite (drop_ge data) by (unfold zlen in El; lia). by rewrite app_nil_r. }
  rewrite Hd at 5. apply starts_with_app in Ep as [t ->]. destruct t as [|c' t]; [done|].
  injection Ec as <-. done.
Qed.

Lemma choice_of_u8_code c : choice_of_u8 (VoteChoice_code c) = Some c.
Proof. by destruct c. Qed.

Lemma choice_code_of_u8 v c : choice_of_u8 v = Some c -> VoteChoice_code c = v.
Proof.
  unfold choice_of_u8. destruct v as [|v|v]; [done| |done].
  do 2 (try destruct v as [v|v|]); try done; by intros [= <-].
Qed.

(** A vote is decoded from its two fields behind the old prefix. *)
Lemma Vote_decode_fields pid c :
  zlen pid = 8 -> Vote_decode (VOTE_PREFIX ++ pid ++ [c]) = mkVote pid <$> choice_of_u8 c.
Proof.
  intros Hp. unfold Vote_decode. rewrite (slice_mid VOTE_PREFIX pid [c]) by (rewrite ?Hp; done).
  replace (zlen _ =? 14) with true by (autorewrite with zlen; rewrite Hp; done).
  replace (starts_with _ _) with true by (symmetry; apply starts_with_app; by eexists).
  rewrite (vec_at_mid (VOTE_PREFIX ++ pid) [] c 13 : _ -> vec_at (VOTE_PREFIX ++ pid ++ [c]) 13 = _).
  - cbn. by destruct (choice_of_u8 c).
  - autorewrite with zlen. by rewrite Hp.
Qed.

Lemma SignedVote_encode_decode s :
  vote_range s -> SignedVote_decode (SignedVote_encode s) = Some s.
Proof.
  intros (Hp & Ht & Hv & Hs). destruct s as [[pid ch] [tx v] sig]; simpl in *.
  unfold SignedVote_decode, SignedVote_encode, unsigned_bytes; cbn [vote proposal_id choice vote_outpoint signature fst snd].
  set (c := VoteChoice_code ch). set (pre := SIGNED_VOTE_PREFIX).
  assert (Hpre : zlen pre = 5) by done. assert (Hv4 : zlen (le32 v) = 4) by apply zlen_to_le.
  rewrite <- !app_assoc. set (data := pre ++ pid ++ [c] ++ tx ++ le32 v ++ sig).
  assert (Hl : zlen data = 115) by (unfold data; autorewrite with zlen; lia).
  assert (Hsw : starts_with pre data = true) by (apply starts_with_app; by eexists).
  assert (S1 : slice 5 14 data = pid ++ [c]).
  { unfold data. rewrite (app_assoc pid [c]). apply slice_mid; autorewrite with zlen; lia. }
  assert (S2 : slice 14 46 data = tx).
  { unfold data. rewrite (app_assoc pre), (app_assoc (pre ++ pid)).
    apply slice_mid; autorewrite with zlen; lia. }
  assert (S3 : slice 46 50 data = le32 v).
  { unfold data. rewrite (app_assoc pre), (app_assoc (pre ++ pid)), (app_assoc ((pre ++ pid) ++ [c])).
    apply slice_mid; autorewrite with zlen; lia. }
  assert (S4 : drop 50 data = sig).
  { unfold data. rewrite (app_assoc pre), (app_assoc (pre ++ pid)), (app_assoc ((pre ++ pid) ++ [c])),
      (app_assoc (((pre ++ pid) ++ [c]) ++ tx)).
    apply drop_app_length'. rewrite !length_app. unfold zlen in *. simpl. lia. }
  rewrite Hl, Hsw, S1, S2, S3, S4, Vote_decode_fields by done. unfold c. rewrite choice_of_u8_code.
  unfold le32. by rewrite from_le_to_le.
Qed.

Lemma SignedVote_decode_encode data s :
  is_bytes data -> SignedVote_decode data = Some s -> SignedVote_encode s = data /\ vote_range s.
Proof.
  intros Hb. unfold SignedVote_decode. destruct (zlen data =? 115) eqn:El; [|done]. apply Z.eqb_eq in El.
  destruct (starts_with SIGNED_VOTE_PREFIX data) eqn:Ep; [|done]. cbn [negb orb].
  assert (Hi : slice 5 14 data = slice 5 13 data ++ slice 13 14 data) by (apply slice_split; lia).
  pose proof (zlen_slice 13 14 data ltac:(lia) ltac:(lia)) as H1.
  destruct (slice 13 14 data) as [|c [|]] eqn:Ec; [done| |by unfold zlen in H1; simpl in H1; lia].
  rewrite Hi, Vote_decode_fields by (apply zlen_slice; lia).
  destruct (choice_of_u8 c) as [ch|] eqn:Ech; [|done].
  cbn [fmap option_fmap option_map mbind option_bind]. intros [= <-].
  destruct (slice_int data 46 50 4) as [S R]; [done|lia..|].
  unfold SignedVote_encode, unsigned_bytes, vote_range, le32; cbn [vote proposal_id choice vote_outpoint signature fst snd].
  rewrite S, (choice_code_of_u8 _ _ Ech). split.
  - apply starts_with_app in Ep as [t Et]. transitivity (take 5 data ++ drop 5 data); [|apply take_drop].
    replace (take 5 data) with SIGNED_VOTE_PREFIX by by rewrite Et. rewrite <- !app_assoc. f_equal.
    change 5%nat with (Z.to_nat 5). rewrite (slice_drop 5 14), (slice_drop 14 46), (slice_drop 46 50) by lia.
    by rewrite Hi, <- !app_assoc.
  - split; [apply zlen_slice; lia|]. split; [apply zlen_slice; lia|]. split; [exact R|].
    change 50%nat with (Z.to_nat 50). rewrite zlen_drop. lia.
Qed.

(** [op_return_data] reads back the payload of a vote's output script. *)
Lemma vote_script_payload s :
  vote_range s -> exists script, vote_script s = Ok script /\
    op_return_data script = Some (SignedVote_encode s).
Proof.
  intros Hr. assert (Hl : zlen (SignedVote_encode s) = 115).
  { destruct Hr as (Hp & Ht & Hv & Hs). unfold SignedVote_encode, unsigned_bytes. autorewrite with zlen.
    unfold le32. rewrite zlen_to_le, Hp, Ht, Hs. done. }
  exists (0x6a :: 0x4c :: 115 :: SignedVote_encode s). unfold vote_script, push_data. rewrite Hl.
  split; [done|]. set (e := SignedVote_encode s) in *. clearbody e.
  unfold op_return_data. cbn -[zlen]. autorewrite with zlen. by rewrite Hl.
Qed.

(** governance payloads round trip. A proposal and a signed vote with fields of the
    right width are decoded from their encoding unchanged, and whatever decodes is the
    encoding of the result, so no two payloads mean the same thing; the output script
    built for a vote, which exceeds the usual size of a data output, gives its payload
    back. *)
Theorem governance_payloads_roundtrip p s :
  proposal_range p -> vote_range s ->
  Proposal_decode (Proposal_encode p) = Some p /\
  SignedVote_decode (SignedVote_encode s) = Some s /\
  (exists script, vote_script s = Ok script /\ op_return_data script = Some (SignedVote_encode s)) /\
  forall data, is_bytes data ->
    (forall p', Proposal_decode data = Some p' -> Proposal_encode p' = data) /\
    (forall s', SignedVote_decode data = Some s' -> SignedVote_encode s' = data).
Proof.
  intros Hp Hs. split_and!; [by apply Proposal_encode_decode|by apply SignedVote_encode_decode|
    by apply vote_script_payload|].
  intros data Hb. split; intros x Hx; [by apply (Proposal_decode_encode data)|by apply (SignedVote_decode_encode data)].
Qed.

(** ** Who votes *)

(** The recovered key is the one the voting output pays to: the key of a P2PKH output,
    the spending (cold) key of a cold-staking output. *)
Definition authorized `{Crypto} (s : SignedVote) (utxo : Utxo) (genesis : bytes) : Prop :=
  exists id pk h, vec_at (signature s) 0 = Some id /\
    recover_ecdsa (digest s genesis) (drop 1 (signature s)) id = Some pk /\
    (h = Core.hash160 pk \/ h = Core.hash160 (uncompressed pk)) /\
    (classify_script (utxo_script utxo) = P2PKH /\ h = slice 3 23 (utxo_script utxo) \/
     exists staking locktime, classify_script (utxo_script utxo) = P2CS staking h locktime).

Lemma owner_authorized `{Crypto} s utxo genesis who :
  owner s utxo genesis = Ok who -> authorized s utxo genesis.
Proof.
  unfold owner, vec_get. destruct (zlen (signature s) =? 65); [|done]. simpl.
  destruct (vec_at (signature s) 0) as [id|] eqn:Eid; [|done]. simpl.
  destruct (recovery_id_ok id); [|done]. simpl. destruct (compact_ok _ id); [|done]. simpl.
  destruct (recover_ecdsa _ _ _) as [pk|] eqn:Epk; [|done]. simpl. unfold from_bytes.
  destruct (MAX_SCRIPT_SIZE <? _); [done|]. simpl.
  set (oh := match classify_script _ with P2PKH => _ | _ => _ end). intros Hok.
  destruct oh as [h|e|] eqn:Eh; [|done..]. simpl in Hok. exists id, pk, h. split; [done|]. split; [done|].
  split.
  - destruct (bytes_eqb h (Core.hash160 pk)) eqn:E1; [left; by apply bytes_eqb_eq|]. simpl in Hok.
    destruct (bytes_eqb h (Core.hash160 (uncompressed pk))) eqn:E2; [right; by apply bytes_eqb_eq|done].
  - unfold oh in Eh. destruct (classify_script (utxo_script utxo)); try done; injection Eh as <-; eauto.
Qed.

(** what it takes for a vote to count, and what it changes. The vote is a well-formed
    payload that names an unspent, mature, stakeable output and is signed by the key that
    owns it (for cold staking, the spending key); the proposal exists, is older than the
    vote, still open and not decided; the stake existed before the proposal and its origin
    has not voted on it yet. Then exactly the chosen tally grows, by at most the value of
    the output, the origin is marked, and the output is locked until six blocks after the
    end of the vote. *)
Theorem vote_counted `{Crypto} data height timestamp utxos params genesis g g' :
  process_vote data height timestamp utxos params genesis g = (g', Ok tt) ->
  exists s utxo r stake oh,
    counted data height timestamp utxos params genesis g g' s utxo r stake oh /\
    authorized s utxo genesis /\ stake <= utxo_value utxo.
Proof.
  intros (s & utxo & r & stake & oh & Hc)%process_vote_spec. exists s, utxo, r, stake, oh.
  split; [done|]. destruct Hc as [_ _ _ _ Ho _ _ _ Hi _ _ _]. split.
  - destruct (owner s utxo genesis) as [who| |] eqn:E; [|done..]. by eapply owner_authorized.
  - unfold identity in Hi. destruct (locked_utxos g !! vote_outpoint s); injection Hi; lia.
Qed.

(** ** Witnesses: a proposal made at height 100, voted on at height 101 *)

Module VotingWitness.
#[local] Existing Instance bincode_layout.
#[local] Existing Instance bincode_layout_laws.
#[local] Existing Instance any_order.
#[local] Existing Instance any_order_laws.

Definition p0 : Proposal := mkProposal PosAnnualRateBps 400 4996 2980 (100 * COIN).
Definition genesis0 : bytes := repeat 0 32.
Definition id0 : bytes := proposal_id_of p0 100.
Definition sig0 : bytes := 0 :: repeat 9 64.
Definition o0 : OutPoint := (repeat 7 32, 1).
Definition s0 : SignedVote := mkSignedVote (mkVote id0 Yes) o0 sig0.
Definition utxo0 : Utxo :=
  mkUtxo (repeat 7 32) 1 (500 * COIN)
    ([0x76; 0xa9; 0x14] ++ Core.hash160 (repeat 9 64) ++ [0x88; 0xac]) 50 1000.
Definition utxos0 : gmap OutPoint Utxo := {[ o0 := utxo0 ]}.

Definition data_out (v : Z) (payload : bytes) : TxOutput :=
  mkTxOutput v (0x6a :: 0x4c :: zlen payload :: payload).
Definition propose0 : Transaction :=
  mkTx 1 Standard [] [data_out (100 * COIN) (Proposal_encode p0)] 0 None None.
Definition vote0 : Transaction :=
  mkTx 1 Standard [] [data_out 1 (SignedVote_encode s0)] 0 None None.

Definition g1 : GovernanceState :=
  Eval vm_compute in
  (process_transaction propose0 100 60000 utxos0 default_params (1000 * COIN) genesis0 gov_new).1.
Definition g2 : GovernanceState :=
  Eval vm_compute in
  (process_transaction vote0 101 60060 utxos0 default_params (1000 * COIN) genesis0 g1).1.

Definition val0 (o : OutPoint) : Z := 500 * COIN.

Lemma valued0 : valued val0 utxos0.
Proof.
  intros k u Hu. unfold utxos0 in Hu. apply lookup_singleton_Some in Hu as [<- <-]. vm_compute. congruence.
Qed.

Lemma reach2 : reachable val0 g2.
Proof.
  eapply reach_step; [eapply reach_step; [apply reach_new|]|].
  - eapply (step_transaction val0 propose0 100 60000 utxos0 default_params (1000 * COIN) genesis0);
      [apply valued0|vm_compute; reflexivity].
  - eapply (step_transaction val0 vote0 101 60060 utxos0 default_params (1000 * COIN) genesis0);
      [apply valued0|vm_compute; reflexivity].
Qed.

Definition r2 : ProposalRecord := mkRecord p0 100 (500 * COIN) 0 0 false false false false (1000 * COIN) {[ o0 ]}.

Lemma votes_backed_by_locked_stake_witness :
  500 * COIN + 0 + 0 <= stake_sum val0 {[ o0 ]} /\
  forall o, o ∈ ({[ o0 ]} : gset OutPoint) -> exists k l, locked_utxos g2 !! k = Some l /\
    voting_origin l = o /\ 2980 + 6 <= unlock_height l.
Proof.
  apply (votes_backed_by_locked_stake val0 g2 id0 r2 reach2); vm_compute; reflexivity.
Defined.

Lemma vote_counted_witness :
  exists s utxo r stake oh,
    counted (SignedVote_encode s0) 101 60060 utxos0 default_params genesis0 g1 g2 s utxo r stake oh /\
    authorized s utxo genesis0 /\ stake <= utxo_value utxo.
Proof.
  apply (vote_counted (SignedVote_encode s0) 101 60060 utxos0 default_params genesis0 g1 g2).
  vm_compute. reflexivity.
Defined.

Lemma governance_payloads_roundtrip_witness :
  Proposal_decode (Proposal_encode p0) = Some p0 /\
  SignedVote_decode (SignedVote_encode s0) = Some s0.
Proof.
  destruct (governance_payloads_roundtrip p0 s0) as (H1 & H2 & _); [vm_compute; intuition congruence..|].
  exact (conj H1 H2).
Defined.

Lemma begin_block_sound_witness :
  exists g' params', begin_block 2980 utxos0 60060 g2 default_params = Ok (g', params') /\
    params_ok params' /\ exists r', proposals g' !! id0 = Some r' /\ decided r' = true.
Proof.
  destruct (begin_block_sound 2980 utxos0 60060 g2 default_params) as (g' & p' & E & Hok & _ & Hr).
  - apply default_params_ok.
  - intros id r Hr. apply (map_Forall_lookup_1 (fun _ r => 0 <= quorum_supply r) (proposals g2) id r); [|done].
    apply (bool_decide_unpack _). vm_compute. exact I.
  - exists g', p'. split; [exact E|]. split; [exact Hok|].
    destruct (Hr id0 r2) as (r' & H1 & H2 & _); [vm_compute; reflexivity|].
    exists r'. split; [exact H1|]. apply H2. vm_compute. congruence.
Defined.

End VotingWitness.
