(* ===== verification/Ledger.v ===== *)
(** * The ledger: applying and rolling back transactions

    Models the part of [vtorrent-node/src/chain/chain_reorg.rs] that changes the
    ledger: cold-staking authorization, [apply_transaction], the journal of a block
    and its rollback.  [Ledger] holds the fields of [struct Chain] these functions
    change; what they read of the rest of the chain is an argument: the genesis hash
    ([height_index[0]]) and whether the block at height 1 is the bootstrap claim.

    The balances of the legacy snapshot are a parameter ([Snapshot]). *)

From stdpp Require Import base list gmap sorting strings.
From Stdlib Require Import ZArith Lia.
From S2P Require Import Prelude Script Crypto Engine Standard Merkle Codec Block Address Consensus.
From S2P Require Import Governance.
Import Scripts.

(** [genesis::get_legacy_balance]. *)
Class Snapshot : Type := get_legacy_balance : bytes -> Z.

Record Ledger : Type := mkLedger {
  utxo_set : gmap OutPoint Utxo;
  claimed_addresses : gset bytes;
  total_supply : Z;
  total_staked : Z;
  params : ConsensusParams;
  governance : GovernanceState;
}.

Inductive UtxoChange : Type :=
  | Added (key : OutPoint)
  | Removed (key : OutPoint) (utxo : Utxo).

Definition change_key (change : UtxoChange) : OutPoint :=
  match change with Added key | Removed key _ => key end.

(** [struct BlockJournal]. *)
Record BlockJournal : Type := mkJournal {
  j_block_hash : bytes;
  j_height : Z;
  changes : list UtxoChange;
  j_claimed : list bytes;
  supply_delta : Z;
  staked_delta : Z;
  j_utxo_root : bytes;
  previous_governance : option GovernanceUndo;
  previous_params : ConsensusParams;
  previous_supply : Z;
  previous_staked : Z;
}.

(** ** Field updates *)

Definition set_utxos (u : gmap OutPoint Utxo) (l : Ledger) : Ledger :=
  mkLedger u (claimed_addresses l) (total_supply l) (total_staked l) (params l) (governance l).
Definition set_claimed (c : gset bytes) (l : Ledger) : Ledger :=
  mkLedger (utxo_set l) c (total_supply l) (total_staked l) (params l) (governance l).
Definition set_totals (supply staked : Z) (l : Ledger) : Ledger :=
  mkLedger (utxo_set l) (claimed_addresses l) supply staked (params l) (governance l).
Definition set_gov (g : GovernanceState) (p : ConsensusParams) (l : Ledger) : Ledger :=
  mkLedger (utxo_set l) (claimed_addresses l) (total_supply l) (total_staked l) p g.

Definition push_change (c : UtxoChange) (j : BlockJournal) : BlockJournal :=
  mkJournal (j_block_hash j) (j_height j) (changes j ++ [c]) (j_claimed j) (supply_delta j)
    (staked_delta j) (j_utxo_root j) (previous_governance j) (previous_params j)
    (previous_supply j) (previous_staked j).
Definition push_claim (a : bytes) (j : BlockJournal) : BlockJournal :=
  mkJournal (j_block_hash j) (j_height j) (changes j) (j_claimed j ++ [a]) (supply_delta j)
    (staked_delta j) (j_utxo_root j) (previous_governance j) (previous_params j)
    (previous_supply j) (previous_staked j).
Definition set_deltas (supply staked : Z) (j : BlockJournal) : BlockJournal :=
  mkJournal (j_block_hash j) (j_height j) (changes j) (j_claimed j) supply
    staked (j_utxo_root j) (previous_governance j) (previous_params j)
    (previous_supply j) (previous_staked j).
Definition set_root (root : bytes) (j : BlockJournal) : BlockJournal :=
  mkJournal (j_block_hash j) (j_height j) (changes j) (j_claimed j) (supply_delta j)
    (staked_delta j) root (previous_governance j) (previous_params j)
    (previous_supply j) (previous_staked j).
Definition set_undo (u : option GovernanceUndo) (j : BlockJournal) : BlockJournal :=
  mkJournal (j_block_hash j) (j_height j) (changes j) (j_claimed j) (supply_delta j)
    (staked_delta j) (j_utxo_root j) u (previous_params j) (previous_supply j) (previous_staked j).
(** [changes.truncate], [claimed_addresses.truncate] and the two deltas put back. *)
Definition truncate_journal (n m : nat) (supply staked : Z) (j : BlockJournal) : BlockJournal :=
  mkJournal (j_block_hash j) (j_height j) (take n (changes j)) (take m (j_claimed j)) supply
    staked (j_utxo_root j) (previous_governance j) (previous_params j)
    (previous_supply j) (previous_staked j).

(** [x as i64] of a [u64]. *)
Definition as_i64 (z : Z) : Z := if z <=? i64_max then z else z - 18446744073709551616.

(** [compute_supply_delta]. *)
Definition compute_supply_delta (tx : Transaction) (total_input total_output : Z) : Z :=
  if is_legacy_claim tx && match claim_address tx with Some _ => true | None => false end then 0
  else sat_sub total_output total_input.

Definition new_journal (l : Ledger) (block_hash : bytes) (height : Z) : BlockJournal :=
  mkJournal block_hash height [] [] 0 0 (repeat 0 32) None (params l) (total_supply l) (total_staked l).

Section ledger.
Context {C : Crypto} {B : Bincode} {H : Hex} {N : Snapshot}.

(** ** Cold staking *)

(** The data pushes of a script, as [filter_map] over the iterator collects them. *)
Definition push_list (s : Script) : res NodeError (list bytes) :=
  let* l := no_err (items s) in
  Ok (omap (fun i => match i with PushData d => Some d | _ => None end) l).

(** [p2cs_redeem_script]. *)
Definition p2cs_redeem_script (utxo_script script_sig : bytes) : res NodeError (option bytes) :=
  match from_bytes utxo_script with
  | Ok script =>
      match classify_script script with
      | P2CS _ _ _ => Ok (Some utxo_script)
      | P2SH =>
          match from_bytes script_sig with
          | Ok sig =>
              let* ps := push_list sig in
              match vec_last ps with
              | Some redeem => Ok (if is_p2cs redeem then Some redeem else None)
              | None => Ok None
              end
          | _ => Ok None
          end
      | _ => Ok None
      end
  | _ => Ok None
  end.

(** The signature check at the end of [p2cs_cold_spend_authorized]. *)
Definition cold_signature_ok (tx : Transaction) (input_index : nat) (utxo : Utxo) (sig pubkey : bytes) : bool :=
  match vec_pop sig with
  | Some (sighash_type, der) =>
      (sighash_type =? 0x01) && der_ok der && pubkey_ok pubkey &&
      verify_ecdsa (sighash tx input_index (utxo_script utxo)) der pubkey
  | None => false
  end.

(** [p2cs_cold_spend_authorized]. *)
Definition p2cs_cold_spend_authorized (tx : Transaction) (input_index : nat) (utxo : Utxo)
    : res NodeError bool :=
  let* input := vec_get (inputs tx) (Z.of_nat input_index) in
  let* redeem := p2cs_redeem_script (utxo_script utxo) (script_sig input) in
  match redeem with
  | None => Ok false
  | Some p2cs_script =>
      match from_bytes p2cs_script, from_bytes (script_sig input) with
      | Ok script, Ok sig_script =>
          match classify_script script with
          | P2CS _ spending_hash locktime =>
              if lock_time tx <? locktime then Ok false else
              let* pushes := push_list sig_script in
              let is_p2sh :=
                match from_bytes (utxo_script utxo) with
                | Ok s => match classify_script s with P2SH => true | _ => false end
                | _ => false
                end in
              let pushes :=
                if is_p2sh then match vec_pop pushes with Some (_, ps) => ps | None => [] end
                else pushes in
              if zlen pushes <? 3 then Ok false else
              let* sig := vec_get pushes (zlen pushes - 3) in
              let* pubkey := vec_get pushes (zlen pushes - 2) in
              if negb (bytes_eqb (Core.hash160 pubkey) spending_hash) then Ok false else
              Ok (cold_signature_ok tx input_index utxo sig pubkey)
          | _ => Ok false
          end
      | _, _ => Ok false
      end
  end.

(** ** Applying one transaction *)

(** The state of [apply_transaction_journaled]: the ledger, the journal, and its local
    variables [total_input] and [stake_input]. *)
Record Frame : Type := mkFrame {
  ledger : Ledger;
  journal : BlockJournal;
  total_input : Z;
  stake_input : option Utxo;
}.

Definition on_ledger (f : Ledger -> Ledger) (s : Frame) : Frame :=
  mkFrame (f (ledger s)) (journal s) (total_input s) (stake_input s).
Definition on_journal (f : BlockJournal -> BlockJournal) (s : Frame) : Frame :=
  mkFrame (ledger s) (f (journal s)) (total_input s) (stake_input s).

(** The read-only arguments of [apply_transaction_journaled]: [bootstrap] is whether
    the first transaction of the block at height 1 is a legacy claim. *)
Context (genesis : option bytes) (bootstrap : bool).
Context (height timestamp parent_stake_modifier : Z) (governance_active : bool).

(** The script checks of the input loop. *)
Definition verify_input (tx : Transaction) (input_index : nat) (input : TxInput) (utxo : Utxo)
    : res NodeError unit :=
  let env := mkEnv (sighash tx input_index (utxo_script utxo)) height timestamp (lock_time tx)
               (sequence input) (utxo_height utxo) (utxo_timestamp utxo) in
  let* sig := map_err (fun _ => InvalidTransaction "Invalid scriptSig") (from_bytes (script_sig input)) in
  let* pubkey := map_err (fun _ => InvalidTransaction "Invalid scriptPubKey") (from_bytes (utxo_script utxo)) in
  let* _ := map_err (fun _ => InvalidTransaction "Script verification failed")
              (execute (Engine.new env) sig pubkey) in
  if is_coinstake tx then Ok tt else
  let* redeem := p2cs_redeem_script (utxo_script utxo) (script_sig input) in
  match redeem with
  | None => Ok tt
  | Some _ =>
      let* authorized := p2cs_cold_spend_authorized tx input_index utxo in
      ensure authorized (InvalidTransaction "P2CS spend must be authorized by the cold spending key")
  end.

(** [journal.staked_delta.checked_add(v)], or an early return. *)
Definition add_staked (v : Z) (message : string) : st Frame NodeError unit :=
  do* j := sget journal in
  do* d := slift (ok_or (checked_i64 (staked_delta j + v)) (InvalidTransaction message)) in
  smod (on_journal (set_deltas (supply_delta j) d)).

(** The body of the input loop. *)
Definition spend_input (tx : Transaction) (e : nat * TxInput) : st Frame NodeError unit :=
  let '(input_index, input) := e in
  let key : OutPoint := (prev_txid input, prev_vout input) in
  do* l := sget ledger in
  if governance_active && is_utxo_locked (governance l) (prev_txid input) (prev_vout input) height
     && negb (is_coinstake tx)
  then serr (InvalidTransaction "input is locked by a governance vote") else
  match utxo_set l !! key with
  | Some utxo =>
      do* _ := smod (fun s => mkFrame (set_utxos (delete key (utxo_set l)) l)
                 (push_change (Removed key utxo) (journal s))
                 (sat_add u64_max (total_input s) (utxo_value utxo)) (stake_input s)) in
      do* _ := if is_legacy_claim tx then sret tt else slift (verify_input tx input_index input utxo) in
      do* _ := if is_coinstake tx && (input_index =? 0)%nat
               then smod (fun s => mkFrame (ledger s) (journal s) (total_input s) (Some utxo))
               else sret tt in
      if is_stakeable_with (params l) utxo
      then add_staked (- as_i64 (utxo_value utxo)) "Staked-supply delta underflow"
      else sret tt
  | None =>
      if is_legacy_claim tx then sret tt
      else serr (InvalidTransaction "Input not found in UTXO set")
  end.

(** The output set entry an output becomes. *)
Definition utxo_of (tx : Transaction) (vout : nat) (o : TxOutput) : Utxo :=
  mkUtxo (txid tx) (as_u32 (Z.of_nat vout)) (value o) (script_pubkey o) height timestamp.

(** The checks of a legacy claim. *)
Definition apply_claim (tx : Transaction) : st Frame NodeError unit :=
  do* _ :=
    match claim_address tx with
    | None =>
        if height =? 0 then
          slift (ensure (match claim_signature tx with None => true | Some _ => false end)
                   (InvalidTransaction "Genesis distribution must not carry a claim signature"))
        else serr (InvalidTransaction "Legacy claim is missing its address")
    | Some addr =>
        do* l := sget ledger in
        if bool_decide (addr ∈ claimed_addresses l) then serr (ClaimAlreadyProcessed addr) else
        do* _ := slift (map_err (fun _ => InvalidTransaction "Invalid legacy claim")
                          (validate_legacy_claim tx (get_legacy_balance addr))) in
        do* _ := smod (on_ledger (set_claimed ({[addr]} ∪ claimed_addresses l))) in
        smod (on_journal (push_claim addr))
    end in
  if height =? 1 then
    slift (ensure (existsb is_stakeable (imap (utxo_of tx) (outputs tx)))
             (InvalidTransaction "Bootstrap claim must create a stakeable output"))
  else sret tt.

(** The body of the output loop. *)
Definition add_output (tx : Transaction) (e : nat * TxOutput) : st Frame NodeError unit :=
  let '(vout, output) := e in
  if negb (is_utxo_eligible output tx height) then sret tt else
  let utxo := utxo_of tx vout output in
  let key : OutPoint := outpoint utxo in
  do* l := sget ledger in
  do* _ := if is_stakeable_with (params l) utxo
           then add_staked (as_i64 (value output)) "Staked-supply delta overflow" else sret tt in
  do* _ := smod (on_ledger (fun l => set_utxos (<[key := utxo]> (utxo_set l)) l)) in
  smod (on_journal (push_change (Added key))).

(** The cold-staking rule of a coinstake. *)
Definition check_relock (tx : Transaction) (staked : Utxo) : res NodeError unit :=
  let* input := vec_get (inputs tx) 0 in
  let* redeem := p2cs_redeem_script (utxo_script staked) (script_sig input) in
  match redeem with
  | None => Ok tt
  | Some p2cs_script =>
      let redirected := p2cs_redirected_value_with_redeem (utxo_script staked) p2cs_script (outputs tx) in
      let* _ := ensure (negb (0 <? redirected))
        (InvalidTransaction "P2CS coinstake must re-lock all value to the same cold-stake script") in
      let relocked :=
        sat_sum (map value (List.filter
          (fun o => (0 <? value o) && bytes_eqb (script_pubkey o) (utxo_script staked)) (outputs tx))) in
      ensure (utxo_value staked <=? relocked)
        (InvalidTransaction "P2CS coinstake re-locks less than the staked value")
  end.

(** The checks of a coinstake. *)
Definition check_coinstake (l : Ledger) (stake : option Utxo) (tx : Transaction) : res NodeError unit :=
  let* staked := ok_or stake (InvalidTransaction "Coinstake must spend a stake input") in
  let* _ := ensure (is_stakeable_with (params l) staked)
              (InvalidTransaction "Coinstake input is not a stakeable output") in
  let coin_age := sat_sub timestamp (utxo_timestamp staked) in
  let* _ := ensure (min_stake_amount (params l) <=? utxo_value staked)
              (InvalidTransaction "Stake value is below minimum") in
  let is_bootstrap_utxo := (height =? 2) && (utxo_height staked =? 1) && bootstrap in
  let min_age_ok := is_bootstrap_utxo || (min_stake_age (params l) <=? coin_age) in
  let* _ := ensure (min_age_ok && (coin_age <=? max_stake_age (params l)))
              (InvalidTransaction "Stake age is outside the allowed range") in
  let* _ := ensure (check_stake_kernel_v2 parent_stake_modifier staked timestamp (total_staked l))
              (InvalidTransaction "Coinstake kernel hash does not meet the stake target") in
  let* max_reward := compute_pos_reward_with (params l) (utxo_value staked) coin_age in
  let minted := sat_sub (total_output tx) (utxo_value staked) in
  let* _ := ensure (minted <=? max_reward)
              (InvalidTransaction "Coinstake mints above the allowed reward") in
  check_relock tx staked.

(** [governance.transfer_stake_lock] on the chain. *)
Definition transfer_lock (tx : Transaction) : st Frame NodeError unit := fun s =>
  match stake_input s with
  | Some staked =>
      if governance_active then
        let '(g, r) := transfer_stake_lock tx staked height (governance (ledger s)) in
        (on_ledger (fun l => set_gov g (params l) l) s, r)
      else (s, Ok tt)
  | None => (s, Ok tt)
  end.

(** The body of [apply_transaction_journaled]. *)
Definition apply_body (tx : Transaction) : st Frame NodeError unit :=
  do* _ := if is_coinbase tx then sret tt else sfor (spend_input tx) (imap pair (inputs tx)) in
  do* _ := if is_legacy_claim tx then apply_claim tx else sret tt in
  do* _ := sfor (add_output tx) (imap pair (outputs tx)) in
  do* s := sget (fun s => s) in
  do* _ :=
    if negb (is_coinbase tx) && negb (is_coinstake tx) && negb (is_legacy_claim tx) then
      slift (ensure (total_output tx <=? total_input s) (InvalidTransaction "Transaction creates value"))
    else sret tt in
  do* _ := if is_coinstake tx then slift (check_coinstake (ledger s) (stake_input s) tx) else sret tt in
  do* _ := transfer_lock tx in
  let delta := compute_supply_delta tx (total_input s) (total_output tx) in
  smod (on_journal (fun j => set_deltas (sat_add u64_max (supply_delta j) delta) (staked_delta j) j)).

(** [apply_transaction_journaled]. *)
Definition apply_transaction_journaled (tx : Transaction) : st (Ledger * BlockJournal) NodeError unit :=
  fun '(l, j) =>
  let '(s, r) := apply_body tx (mkFrame l j 0 None) in ((ledger s, journal s), r).

(** [apply_transaction]. *)
Definition apply_transaction (tx : Transaction) : st (Ledger * BlockJournal) NodeError unit :=
  do* _ :=
    if governance_active then fun '(l, j) =>
      match genesis with
      | None => ((l, j), Panic)
      | Some genesis =>
          let '(g, r) := process_transaction tx height timestamp (utxo_set l) (params l)
                           (total_staked l) genesis (governance l) in
          ((set_gov g (params l) l, j), r)
      end
    else sret tt in
  apply_transaction_journaled tx.

(** ** Applying and rolling back a block *)

(** [values().map(|u| u.value).sum()]; the sum panics when it overflows. *)
Definition psum {E} (l : list Z) : res E Z := rfold (padd u64_max) 0 l.

(** [begin_governance_block]. *)
Definition begin_governance_block : st (Ledger * BlockJournal) NodeError unit := fun '(l, j) =>
  if governance_active then
    match begin_block height (utxo_set l) timestamp (governance l) (params l) with
    | Ok (g, p) =>
        let l := set_gov g p l in
        if min_stake_amount p =? min_stake_amount (previous_params j) then ((l, j), Ok tt) else
        match psum (map utxo_value (List.filter (is_stakeable_with p)
                      (map snd (in_order outpoint_leb (utxo_set l))))) with
        | Ok staked => ((set_totals (total_supply l) staked l, j), Ok tt)
        | Err e => ((l, j), Err e)
        | Panic => ((l, j), Panic)
        end
    | Err e => ((l, j), Err e)
    | Panic => ((l, j), Panic)
    end
  else ((l, j), Ok tt).

(** The totals at the end of [apply_block_journaled]. *)
Definition commit_totals : st (Ledger * BlockJournal) NodeError unit := fun '(l, j) =>
  let new_supply := sat_add u64_max (total_supply l) (supply_delta j) in
  if MAX_SUPPLY <? new_supply
  then ((l, j), Err (InvalidBlock "Block would exceed maximum supply")) else
  let staked :=
    if 0 <=? staked_delta j then sat_add u64_max (total_staked l) (staked_delta j)
    else sat_sub (total_staked l) (- staked_delta j) in
  ((set_totals new_supply staked l, j), Ok tt).

(** The closure of [apply_block_journaled], up to the commitment. *)
Definition apply_block_body (txs : list Transaction) : st (Ledger * BlockJournal) NodeError unit :=
  do* _ := begin_governance_block in
  do* _ := sfor apply_transaction txs in
  commit_totals.

End ledger.

(** [rollback_changes]. *)
Definition undo_change (m : gmap OutPoint Utxo) (c : UtxoChange) : gmap OutPoint Utxo :=
  match c with
  | Added key => delete key m
  | Removed key utxo => <[key := utxo]> m
  end.

Definition rollback_changes (cs : list UtxoChange) (claims : list bytes) (l : Ledger) : Ledger :=
  set_claimed (foldl (fun s a => s ∖ {[a]}) (claimed_addresses l) (rev claims))
    (set_utxos (foldl undo_change (utxo_set l) (rev cs)) l).

(** [rollback_journal]. *)
Definition rollback_journal (j : BlockJournal) (l : Ledger) : res NodeError Ledger :=
  let* g :=
    match previous_governance j with
    | Some u => restore_undo u (governance l)
    | None => Ok (governance l)
    end in
  Ok (rollback_changes (changes j) (j_claimed j)
        (set_totals (previous_supply j) (previous_staked j) (set_gov g (previous_params j) l))).

(** [Chain::recompute_utxo_root]: the buffers of the commitment and the root. *)
Definition recompute_utxo_root `{Crypto} (tree : MerkleTree) (utxos : gmap OutPoint Utxo)
    : res NodeError (MerkleTree * bytes) :=
  no_err (scratch_build tree (map (fun e => hash_utxo e.2) (in_order outpoint_leb utxos))).

(** The last statement of the closure of [apply_block_journaled]. *)
Definition commit_root `{Crypto} (tree : MerkleTree) (l : Ledger) (j : BlockJournal) (r : res NodeError unit)
    : MerkleTree * BlockJournal * res NodeError unit :=
  match r with
  | Ok _ =>
      match recompute_utxo_root tree (utxo_set l) with
      | Ok (tree', root) => (tree', set_root root j, Ok tt)
      | Err e => (tree, j, Err e)
      | Panic => (tree, j, Panic)
      end
  | _ => (tree, j, r)
  end.

(** [apply_block_journaled], given the modifier of the parent: the ledger and the
    commitment buffers it leaves behind, and the journal or the error. *)
Definition apply_block_journaled `{Crypto, Bincode, Hex, Snapshot} (genesis : option bytes)
    (bootstrap : bool) (height timestamp modifier : Z) (active : bool)
    (block_hash : bytes) (txs : list Transaction) (tree : MerkleTree) (l : Ledger)
    : Ledger * MerkleTree * res NodeError BlockJournal :=
  let '((l1, j1), r) := apply_block_body genesis bootstrap height timestamp modifier active txs
                          (l, new_journal l block_hash height) in
  let '((tree, j1), r) := commit_root tree l1 j1 r in
  let j := set_undo (if active then Some (undo_since (governance l1) (governance l)) else None) j1 in
  match r with
  | Ok _ => (l1, tree, Ok j)
  | Err e =>
      match rollback_journal j l1 with
      | Ok l0 => (l0, tree, Err e)
      | _ => (l1, tree, Panic)
      end
  | Panic => (l1, tree, Panic)
  end.

(** ** Lemmas: the journal *)

Definition undo_changes (cs : list UtxoChange) (m : gmap OutPoint Utxo) : gmap OutPoint Utxo :=
  foldl undo_change m (rev cs).
Definition undo_claims (cl : list bytes) (s : gset bytes) : gset bytes :=
  foldl (fun s a => s ∖ {[a]}) s (rev cl).

Lemma undo_changes_snoc cs c m : undo_changes (cs ++ [c]) m = undo_changes cs (undo_change m c).
Proof. unfold undo_changes. by rewrite rev_app_distr. Qed.

Lemma undo_changes_app cs cs' m : undo_changes (cs ++ cs') m = undo_changes cs (undo_changes cs' m).
Proof. unfold undo_changes. by rewrite rev_app_distr, foldl_app. Qed.

Lemma undo_claims_snoc cl a s : undo_claims (cl ++ [a]) s = undo_claims cl (s ∖ {[a]}).
Proof. unfold undo_claims. by rewrite rev_app_distr. Qed.

Lemma undo_claims_app cl cl' s : undo_claims (cl ++ cl') s = undo_claims cl (undo_claims cl' s).
Proof. unfold undo_claims. by rewrite rev_app_distr, foldl_app. Qed.

(** Outputs are filed under the identifier of a transaction and a [u32]. *)
Definition well_keyed `{Crypto, Bincode} (k : OutPoint) : Prop := (exists tx, k.1 = txid tx) /\ 0 <= k.2 <= u32_max.

(** [cs] lists what happened to the output set between [m] and [m'], where every output
    that was added is new: it was not in [m] and did not occur before. *)
Inductive journaled `{Crypto, Bincode} (m : gmap OutPoint Utxo) : list UtxoChange -> gmap OutPoint Utxo -> Prop :=
  | jr_start : journaled m [] m
  | jr_added cs m' u : journaled m cs m' -> m !! (outpoint u : OutPoint) = None ->
      (outpoint u : OutPoint) ∉ map change_key cs -> well_keyed (outpoint u) ->
      journaled m (cs ++ [Added (outpoint u)]) (<[(outpoint u : OutPoint) := u]> m')
  | jr_removed cs m' k u : journaled m cs m' -> m' !! k = Some u ->
      journaled m (cs ++ [Removed k u]) (delete k m').

(** Every output that is there or was touched is an old one or was added. *)
Lemma journaled_keys `{Crypto, Bincode} m cs m' k : journaled m cs m' -> is_Some (m' !! k) \/ k ∈ map change_key cs ->
  is_Some (m !! k) \/ Added k ∈ cs.
Proof.
  induction 1 as [|cs m' u Hj IH Hm Hk Hw|cs m' k' u Hj IH Hk]; rewrite ?map_app, ?elem_of_app, ?list_elem_of_singleton; simpl.
  - intros [?|?%elem_of_nil]; [by left|done].
  - destruct (decide (k = outpoint u)) as [->|Hne]; [by right; right|]. rewrite lookup_insert_ne by done.
    intros [Hx|[Hx|Hx%list_elem_of_singleton]]; [| |done].
    + destruct IH as [?|?]; [by left|by left|by right; left].
    + destruct IH as [?|?]; [by right|by left|by right; left].
  - rewrite lookup_delete_is_Some. intros [[_ Hx]|[Hx|Hx%list_elem_of_singleton]].
    + destruct IH as [?|?]; [by left|by left|by right; left].
    + destruct IH as [?|?]; [by right|by left|by right; left].
    + subst. destruct IH as [?|?]; [left; by eexists|by left|by right; left].
Qed.

Lemma journaled_well_keyed `{Crypto, Bincode} m cs m' k : journaled m cs m' -> (forall k, is_Some (m !! k) -> well_keyed k) ->
  is_Some (m' !! k) \/ k ∈ map change_key cs -> well_keyed k.
Proof.
  intros Hj Hm [?|Hin]%(journaled_keys _ _ _ _ Hj); [by apply Hm|]. clear Hm.
  induction Hj as [|cs m' u Hj IH Hm Hk Hw|cs m' k' u Hj IH Hk]; [by apply elem_of_nil in Hin| |];
    apply elem_of_app in Hin as [Hin|Hin%list_elem_of_singleton]; auto; [|done]. by injection Hin as ->.
Qed.

Lemma journaled_app `{Crypto, Bincode} m cs m' cs' m'' : journaled m cs m' -> journaled m' cs' m'' ->
  (forall k, Added k ∈ cs' -> m !! k = None /\ k ∉ map change_key cs) -> journaled m (cs ++ cs') m''.
Proof.
  intros H1 H2. induction H2 as [|cs' m2 u Hj IH Hm Hk Hw|cs' m2 k u Hj IH Hk]; intros Hf; [by rewrite app_nil_r| |];
    rewrite app_assoc; constructor; try done.
  - apply IH. intros k Hin. apply Hf, elem_of_app. by left.
  - apply Hf, elem_of_app. right. by apply list_elem_of_singleton.
  - rewrite map_app, not_elem_of_app. split; [|done]. apply Hf, elem_of_app. right. by apply list_elem_of_singleton.
  - apply IH. intros k' Hin. apply Hf, elem_of_app. by left.
Qed.

(** What the journal gained between two states undoes what the ledger went through. *)
Record extends (active : bool) (a b : Ledger * BlockJournal) : Prop := {
  ext_changes : exists cs, changes b.2 = changes a.2 ++ cs /\
    undo_changes cs (utxo_set b.1) = utxo_set a.1;
  ext_claims : exists cl, j_claimed b.2 = j_claimed a.2 ++ cl /\
    undo_claims cl (claimed_addresses b.1) = claimed_addresses a.1 /\
    claimed_addresses b.1 = list_to_set cl ∪ claimed_addresses a.1;
  ext_totals : total_supply b.1 = total_supply a.1 /\ total_staked b.1 = total_staked a.1 /\
    params b.1 = params a.1;
  ext_gov : active = false -> governance b.1 = governance a.1;
  ext_fixed : previous_governance b.2 = previous_governance a.2 /\
    previous_params b.2 = previous_params a.2 /\ previous_supply b.2 = previous_supply a.2 /\
    previous_staked b.2 = previous_staked a.2 /\ j_block_hash b.2 = j_block_hash a.2 /\
    j_height b.2 = j_height a.2 /\ j_utxo_root b.2 = j_utxo_root a.2;
}.

Lemma no_claims (js : list Script) (claimed : gset Script) : exists cl, js = js ++ cl /\
    undo_claims cl claimed = claimed /\ claimed = list_to_set cl ∪ claimed.
Proof. exists []. by rewrite app_nil_r, list_to_set_nil, union_empty_l_L. Qed.

#[export] Instance extends_refl active : Reflexive (extends active).
Proof.
  intros a. split; [exists []; by rewrite app_nil_r|apply no_claims|done..].
Qed.

#[export] Instance extends_trans active : Transitive (extends active).
Proof.
  intros a b c [(cs & E1 & E2) (cl & E3 & E4 & E5) (T1 & T2 & T3) G F] [(cs' & E1' & E2') (cl' & E3' & E4' & E5') (T1' & T2' & T3') G' F'].
  split.
  - exists (cs ++ cs'). rewrite undo_changes_app, E2', E2, E1', E1. by rewrite <- app_assoc.
  - exists (cl ++ cl'). rewrite undo_claims_app, E4', E4, E3', E3. rewrite <- app_assoc. split_and!; [done..|].
    rewrite E5', E5, list_to_set_app_L. apply set_eq. intros x. rewrite !elem_of_union. tauto.
  - by rewrite T1', T2', T3', T1, T2, T3.
  - intros Ha. by rewrite G', G.
  - destruct F as (F1 & F2 & F3 & F4 & F5 & F6 & F7), F' as (-> & -> & -> & -> & -> & -> & ->). done.
Qed.

Lemma extends_remove active l j key utxo :
  utxo_set l !! key = Some utxo ->
  extends active (l, j) (set_utxos (delete key (utxo_set l)) l, push_change (Removed key utxo) j).
Proof.
  intros Hk. split; simpl; [exists [Removed key utxo]|apply no_claims|done..].
  split; [done|]. unfold undo_changes; simpl. by apply insert_delete_id.
Qed.

Lemma extends_add active l j key utxo :
  utxo_set l !! key = None ->
  extends active (l, j) (set_utxos (<[key := utxo]> (utxo_set l)) l, push_change (Added key) j).
Proof.
  intros Hk. split; simpl; [exists [Added key]|apply no_claims|done..].
  split; [done|]. unfold undo_changes; simpl. by apply delete_insert_id.
Qed.

Lemma extends_claim active l j addr :
  addr ∉ claimed_addresses l ->
  extends active (l, j) (set_claimed ({[addr]} ∪ claimed_addresses l) l, push_claim addr j).
Proof.
  intros Ha. split; simpl; [exists []; by rewrite app_nil_r|exists [addr]|done..].
  split_and!; [done| |by rewrite list_to_set_singleton_L]. unfold undo_claims; simpl. apply set_eq. intros x.
  rewrite elem_of_difference, elem_of_union, !elem_of_singleton. destruct (decide (x = addr)) as [->|]; tauto.
Qed.

Lemma extends_deltas active l j a b : extends active (l, j) (l, set_deltas a b j).
Proof. split; simpl; [exists []; by rewrite app_nil_r|apply no_claims|done..]. Qed.

Lemma extends_gov l j g : extends true (l, j) (set_gov g (params l) l, j).
Proof. split; simpl; [exists []; by rewrite app_nil_r|apply no_claims|done..]. Qed.

Section journal.
Context {C : Crypto} {B : Bincode} {H : Hex} {N : Snapshot}.
Context (genesis : option bytes) (bootstrap : bool).
Context (height timestamp modifier : Z) (active : bool).

(** The frame [s] is reached from [a] by journaled steps. *)
Definition fext (a : Ledger * BlockJournal) (s : Frame) : Prop := extends active a (ledger s, journal s).

(** Since the journal held [cs0] and the output set was [m], outputs that satisfy [P] were
    added, and all changes are in the journal. *)
Definition keys_from `{Crypto, Bincode} (m : gmap OutPoint Utxo) (cs0 : list UtxoChange) (P : OutPoint -> Prop) (s : Ledger * BlockJournal) : Prop :=
  exists cs, changes s.2 = cs0 ++ cs /\ journaled m cs (utxo_set s.1) /\ forall k, Added k ∈ cs -> P k.

Definition fkeys (m : gmap OutPoint Utxo) (cs0 : list UtxoChange) (P : OutPoint -> Prop) (s : Frame) : Prop :=
  keys_from m cs0 P (ledger s, journal s).

Lemma keys_from_start l j P : keys_from (utxo_set l) (changes j) P (l, j).
Proof. exists []. rewrite app_nil_r. split_and!; [done|constructor|by intros k ?%elem_of_nil]. Qed.

Lemma keys_from_lookup m cs0 P s k : keys_from m cs0 P s -> is_Some (utxo_set s.1 !! k) -> is_Some (m !! k) \/ P k.
Proof. intros (cs & _ & Hj & HP) Hk. destruct (journaled_keys _ _ _ k Hj ltac:(by left)); auto. Qed.

Lemma fkeys_same m cs0 P s s' : utxo_set (ledger s') = utxo_set (ledger s) ->
  changes (journal s') = changes (journal s) -> fkeys m cs0 P s -> fkeys m cs0 P s'.
Proof. intros E1 E2 (cs & H1 & H2). exists cs. simpl in *. by rewrite E1, E2. Qed.

Lemma keys_from_mono m cs0 (P Q : OutPoint -> Prop) s :
  keys_from m cs0 P s -> (forall k, P k -> Q k) -> keys_from m cs0 Q s.
Proof. intros (cs & H1 & H2 & H3) HPQ. exists cs. split_and!; auto. Qed.

Lemma keys_from_trans m cs0 (P Q : OutPoint -> Prop) s s' :
  keys_from m cs0 P s -> keys_from (utxo_set s.1) (changes s.2) Q s' -> (forall k, Q k -> m !! k = None /\ ~ P k) ->
  keys_from m cs0 (fun k => P k \/ Q k) s'.
Proof.
  intros (cs & H1 & H2 & H3) (cs' & H1' & H2' & H3') HQ. exists (cs ++ cs'). rewrite H1', H1, app_assoc. split_and!; [done| |].
  - apply (journaled_app _ _ (utxo_set s.1)); [done..|]. intros k Hk. specialize (HQ k (H3' k Hk)) as [Hm HP]. split; [done|].
    intros Hin. destruct (journaled_keys _ _ _ k H2 ltac:(by right)) as [[]|?]; [congruence|auto].
  - intros k [?|?]%elem_of_app; auto.
Qed.

Lemma keys_from_remove m cs0 P l j k u : utxo_set l !! k = Some u -> keys_from m cs0 P (l, j) ->
  keys_from m cs0 P (set_utxos (delete k (utxo_set l)) l, push_change (Removed k u) j).
Proof.
  intros Hk (cs & H1 & H2 & H3). exists (cs ++ [Removed k u]). simpl in *. rewrite H1, app_assoc. split_and!; [done|by constructor|].
  intros k' [?|?%list_elem_of_singleton]%elem_of_app; [auto|done].
Qed.

Lemma keys_from_add m cs0 (P Q : OutPoint -> Prop) l j u : m !! (outpoint u : OutPoint) = None -> ~ P (outpoint u) ->
  well_keyed (outpoint u) -> (forall k, P k -> Q k) -> Q (outpoint u) -> keys_from m cs0 P (l, j) ->
  keys_from m cs0 Q (set_utxos (<[(outpoint u : OutPoint) := u]> (utxo_set l)) l, push_change (Added (outpoint u)) j).
Proof.
  intros Hm HP Hw HPQ HQ (cs & H1 & H2 & H3). exists (cs ++ [Added (outpoint u)]). simpl in *. rewrite H1, app_assoc.
  split_and!; [done| |].
  - constructor; [done..| |done]. intros Hin. destruct (journaled_keys _ _ _ (outpoint u) H2 ltac:(by right)) as [[]|?]; [congruence|auto].
  - intros k [?|[= ->]%list_elem_of_singleton]%elem_of_app; auto.
Qed.

Lemma fext_step a s s' :
  fext a s -> extends active (ledger s, journal s) (ledger s', journal s') -> fext a s'.
Proof. unfold fext. by etransitivity. Qed.

Lemma add_staked_ext v msg a s :
  fext a s -> swp (add_staked v msg)
    (fun _ s' => fext a s' /\ ledger s' = ledger s /\ changes (journal s') = changes (journal s)) (fext a) s.
Proof.
  intros Hs. unfold add_staked. do 2 swp_step. do 2 swp_step; [|done]. intros d _. swp_step. split; [|done].
  eapply fext_step; [exact Hs|]. apply extends_deltas.
Qed.

Lemma spend_input_ext tx e a m cs0 P s :
  fext a s -> fkeys m cs0 P s ->
  swp (spend_input height timestamp active tx e) (fun _ s' => fext a s' /\ fkeys m cs0 P s') (fext a) s.
Proof.
  intros Hs Hk. unfold spend_input. destruct e as [i input]. do 2 swp_step. swp_guard. intros _.
  set (key := (prev_txid input, prev_vout input) : OutPoint).
  destruct (utxo_set (ledger s) !! key) as [utxo|] eqn:Eu; [|by swp_step; intros _; swp_step].
  do 2 swp_step. set (s1 := mkFrame _ _ _ _).
  assert (Hs1 : fext a s1) by (eapply fext_step; [exact Hs|]; by apply extends_remove).
  assert (Hk1 : fkeys m cs0 P s1) by by apply keys_from_remove.
  clearbody s1. swp_step.
  eapply (swp_mono _ (fun _ s' => s' = s1) _ (fun s' => s' = s1)); [|intros _ ? ->|by intros ? ->].
  { swp_step; intros _; swp_step; done. }
  swp_step. eapply (swp_mono _ (fun _ s' => fext a s' /\ fkeys m cs0 P s') _ (fext a)); [|intros _ s2 [H2 K2]|done].
  { swp_step; intros _; swp_step; done. }
  swp_step; intros _; [|by swp_step].
  eapply swp_mono; [by apply add_staked_ext| |done]. simpl. intros _ s3 (H3 & L3 & C3). split; [done|].
  apply (fkeys_same m cs0 P s2); congruence.
Qed.

Lemma apply_claim_ext tx a m cs0 P s :
  fext a s -> fkeys m cs0 P s ->
  swp (apply_claim height timestamp tx) (fun _ s' => fext a s' /\ fkeys m cs0 P s') (fext a) s.
Proof.
  intros Hs Hk. unfold apply_claim. swp_step.
  eapply (swp_mono _ (fun _ s' => fext a s' /\ fkeys m cs0 P s') _ (fext a)); [|intros _ s1 [H1 K1]|done].
  - destruct (claim_address tx) as [addr|].
    + do 2 swp_step. swp_guard. intros Ha%bool_decide_eq_false. do 2 swp_step; [|done]. intros _ _.
      do 2 swp_step. swp_step. split; [|done]. eapply fext_step; [exact Hs|]. by apply extends_claim.
    + swp_step; intros _; by swp_step.
  - swp_step; intros _; by swp_step.
Qed.

(** The key of an output. *)
Definition out_key (tx : Transaction) (i : nat) : OutPoint := (txid tx, as_u32 (Z.of_nat i)).

Lemma add_output_ext tx i o a m cs0 P s :
  fext a s -> fkeys m cs0 P s -> m !! out_key tx i = None -> ~ P (out_key tx i) ->
  swp (add_output height timestamp tx (i, o))
    (fun _ s' => fext a s' /\ fkeys m cs0 (fun k => P k \/ k = out_key tx i) s') (fext a) s.
Proof.
  intros Hs Hk Hm HP. unfold add_output. swp_step.
  { intros _. swp_step. split; [done|]. eapply keys_from_mono; [exact Hk|]. by left. }
  intros _. do 3 swp_step.
  eapply (swp_mono _ (fun _ s' => fext a s' /\ ledger s' = ledger s /\ changes (journal s') = changes (journal s)) _ (fext a));
    [|intros _ s1 (H1 & L1 & C1)|done].
  { swp_step; intros _; [by apply add_staked_ext|by swp_step]. }
  assert (K1 : fkeys m cs0 P s1) by (apply (fkeys_same m cs0 P s); congruence).
  set (u := utxo_of height timestamp tx i o). change (out_key tx i) with (outpoint u : OutPoint) in *.
  do 2 swp_step. swp_step. split.
  - eapply fext_step; [exact H1|]. apply extends_add. apply eq_None_not_Some. intros Hx.
    destruct (keys_from_lookup _ _ _ _ _ K1 Hx) as [[? Hx']|?]; [congruence|done].
  - apply (keys_from_add m cs0 P); auto. split; [by exists tx|apply as_u32_range].
Qed.

Lemma out_key_inj tx i j :
  Z.of_nat i < 2 ^ 32 -> Z.of_nat j < 2 ^ 32 -> out_key tx i = out_key tx j -> i = j.
Proof. unfold out_key, as_u32. intros Hi Hj [= E]. rewrite !Z.mod_small in E by lia. lia. Qed.

(** The outputs of a transaction can be told apart and are new to the output set. *)
Definition fresh_tx (m : gmap OutPoint Utxo) (tx : Transaction) : Prop :=
  (forall i, m !! out_key tx i = None) /\ zlen (outputs tx) < 2 ^ 32.

Lemma add_outputs_ext tx a m cs0 done s :
  fext a s -> fkeys m cs0 (fun k => k.1 ∈ done) s -> fresh_tx m tx -> txid tx ∉ done ->
  swp (sfor (add_output height timestamp tx) (imap pair (outputs tx)))
    (fun _ s' => fext a s' /\ fkeys m cs0 (fun k => k.1 ∈ txid tx :: done) s') (fext a) s.
Proof.
  intros Hs Hk [Hm Hlen] Hd.
  set (I := fun (p : list (nat * TxOutput)) s => fext a s /\
    fkeys m cs0 (fun k => k.1 ∈ done \/ exists i, (i < length p)%nat /\ k = out_key tx i) s).
  eapply swp_mono; [apply (swp_for_split I (fext a) _ _ [] s)| |done].
  - intros p [i o] q s' E [H' K']. simpl in *. pose proof (imap_pair_index _ _ _ _ _ E) as ->.
    assert (length p < length (outputs tx))%nat as Hp.
    { apply (f_equal length) in E. rewrite length_imap, length_app in E. simpl in E. lia. }
    unfold zlen in Hlen. eapply swp_mono; [eapply add_output_ext; [exact H'|exact K'|apply Hm|]| |done].
    + intros [Hx|(j & Hj & Ej)]; [done|]. apply out_key_inj in Ej; lia.
    + intros _ s2 [H2 K2]. split; [done|]. eapply keys_from_mono; [exact K2|]. rewrite length_app. simpl.
      intros k [[?|(j & Hj & ->)]| ->]; [by left|right; exists j; split; [lia|done]|right; exists (length p); split; [lia|done]].
  - split; [done|]. eapply keys_from_mono; [exact Hk|]. by left.
  - simpl. intros _ s' [H' K']. split; [done|]. eapply keys_from_mono; [exact K'|].
    intros k [?|(i & _ & ->)]; [by right|by left].
Qed.

Lemma transfer_lock_ext tx a s :
  fext a s ->
  swp (transfer_lock height active tx)
    (fun _ s' => fext a s' /\ utxo_set (ledger s') = utxo_set (ledger s) /\
       changes (journal s') = changes (journal s)) (fext a) s.
Proof.
  intros Hs. unfold swp, transfer_lock. destruct (stake_input s) as [u|]; [|done].
  destruct active eqn:Ea; [|done]. destruct (transfer_stake_lock _ _ _ _) as [g r].
  assert (Hx : fext a (on_ledger (fun l => set_gov g (params l) l) s)).
  { eapply fext_step; [exact Hs|]. rewrite Ea. apply extends_gov. }
  by destruct r.
Qed.

Lemma apply_body_ext tx a m cs0 done s :
  fext a s -> fkeys m cs0 (fun k => k.1 ∈ done) s -> fresh_tx m tx -> txid tx ∉ done ->
  swp (apply_body bootstrap height timestamp modifier active tx)
    (fun _ s' => fext a s' /\ fkeys m cs0 (fun k => k.1 ∈ txid tx :: done) s') (fext a) s.
Proof.
  intros Hs Hk Hm Hd. unfold apply_body. swp_step.
  set (I := fun s' => fext a s' /\ fkeys m cs0 (fun k => k.1 ∈ done) s').
  eapply (swp_mono _ (fun _ => I) _ (fext a)); [|intros _ s1 [H1 K1]|done].
  { swp_step; intros _; [by swp_step|]. apply (swp_for (fun _ => I) (fext a) _ _ []); [|done].
    intros _ e s' _ [H' K']. by apply spend_input_ext. }
  swp_step. eapply (swp_mono _ (fun _ => I) _ (fext a)); [|intros _ s2 [H2 K2]|done].
  { swp_step; intros _; [by apply apply_claim_ext|by swp_step]. }
  swp_step. eapply swp_mono; [by eapply add_outputs_ext| |done]. intros _ s3 [H3 K3].
  do 3 swp_step. eapply (swp_mono _ (fun _ s' => s' = s3) _ (fun s' => s' = s3)); [|intros _ ? ->|by intros ? ->].
  { swp_step; intros _; by swp_step. }
  swp_step. eapply (swp_mono _ (fun _ s' => s' = s3) _ (fun s' => s' = s3)); [|intros _ ? ->|by intros ? ->].
  { swp_step; intros _; by swp_step. }
  swp_step. eapply swp_mono; [by apply transfer_lock_ext| |done]. intros _ s4 (H4 & U4 & C4). swp_step. split.
  - eapply fext_step; [exact H4|]. apply extends_deltas.
  - by eapply (fkeys_same _ _ _ s3).
Qed.

Lemma apply_transaction_ext tx a m cs0 done (s : Ledger * BlockJournal) :
  extends active a s -> keys_from m cs0 (fun k => k.1 ∈ done) s -> fresh_tx m tx -> txid tx ∉ done ->
  swp (apply_transaction genesis bootstrap height timestamp modifier active tx)
    (fun _ s' => extends active a s' /\ keys_from m cs0 (fun k => k.1 ∈ txid tx :: done) s')
    (extends active a) s.
Proof.
  intros Hs Hk Hm Hd. unfold apply_transaction. swp_step.
  eapply (swp_mono _ (fun _ s' => extends active a s' /\ utxo_set s'.1 = utxo_set s.1 /\
    s'.2 = s.2) _ (extends active a)); [|intros _ [l j] (H1 & U1 & J1)|done].
  - destruct active eqn:Ea; [|by swp_step]. destruct s as [l j]. unfold swp. destruct genesis as [gen|]; [|done].
    destruct (process_transaction _ _ _ _ _ _ _ _) as [g r].
    assert (Hx : extends true a (set_gov g (params l) l, j)) by (etransitivity; [exact Hs|apply extends_gov]).
    by destruct r.
  - unfold apply_transaction_journaled, swp.
    pose proof (apply_body_ext tx a m cs0 done (mkFrame l j 0 None)) as Hb. unfold swp in Hb.
    destruct (apply_body _ _ _ _ _ _ _) as [s' r]. specialize (Hb H1). destruct r; apply Hb; try done.
    all: unfold fkeys, keys_from in *; simpl in *; by rewrite U1, J1.
Qed.

(** The transactions of a block: distinct, and new to the output set it starts from. *)
Definition fresh_block (m : gmap OutPoint Utxo) (txs : list Transaction) : Prop :=
  NoDup (map txid txs) /\ Forall (fresh_tx m) txs.

Lemma apply_transactions_ext txs l j :
  fresh_block (utxo_set l) txs ->
  swp (sfor (apply_transaction genesis bootstrap height timestamp modifier active) txs)
    (fun _ => extends active (l, j)) (extends active (l, j)) (l, j).
Proof.
  intros [Hnd Hf]. set (I := fun (p : list Transaction) s => extends active (l, j) s /\
    keys_from (utxo_set l) (changes j) (fun k => k.1 ∈ map txid p) s).
  eapply swp_mono; [apply (swp_for_split I _ _ _ [])| |done].
  - intros p tx q s -> [H1 K1]. simpl in *. rewrite map_app in Hnd. simpl in Hnd.
    apply NoDup_app in Hnd as (_ & Hdis & _).
    eapply swp_mono; [eapply apply_transaction_ext; [done|exact K1| |]| |done].
    + rewrite Forall_app, Forall_cons in Hf. tauto.
    + intros Hin. apply (Hdis _ Hin). left.
    + intros _ s' [H' K']. split; [done|]. eapply keys_from_mono; [exact K'|].
      intros k. rewrite map_app. simpl. rewrite elem_of_app, list_elem_of_singleton, elem_of_cons. tauto.
  - split; [reflexivity|apply keys_from_start].
  - by intros _ s [H1 _].
Qed.

Lemma begin_governance_block_frame (s : Ledger * BlockJournal) :
  let s' := (begin_governance_block height timestamp active s).1 in
  utxo_set s'.1 = utxo_set s.1 /\ claimed_addresses s'.1 = claimed_addresses s.1 /\ s'.2 = s.2 /\
  (active = false -> governance s'.1 = governance s.1).
Proof.
  destruct s as [l j]. unfold begin_governance_block. destruct active; [|done].
  destruct (begin_block _ _ _ _ _) as [[g p]| |]; [|done..]. destruct (_ =? _); [done|].
  by destruct (psum _).
Qed.

End journal.

(** ** Lemmas: rolling back *)

Lemma ledger_ext (a b : Ledger) :
  utxo_set a = utxo_set b -> claimed_addresses a = claimed_addresses b ->
  total_supply a = total_supply b -> total_staked a = total_staked b -> params a = params b ->
  governance a = governance b -> a = b.
Proof. destruct a, b; simpl. by intros -> -> -> -> -> ->. Qed.

Lemma rollback_changes_spec cs cl l :
  rollback_changes cs cl l =
    mkLedger (undo_changes cs (utxo_set l)) (undo_claims cl (claimed_addresses l))
      (total_supply l) (total_staked l) (params l) (governance l).
Proof. done. Qed.

(** A journal that undoes the output set and the claims restores the ledger it was
    opened on, once its governance record is filled in. *)
Lemma rollback_exact active (l0 l : Ledger) (j : BlockJournal) :
  undo_changes (changes j) (utxo_set l) = utxo_set l0 ->
  undo_claims (j_claimed j) (claimed_addresses l) = claimed_addresses l0 ->
  previous_params j = params l0 -> previous_supply j = total_supply l0 ->
  previous_staked j = total_staked l0 -> (active = false -> governance l = governance l0) ->
  rollback_journal
    (set_undo (if active then Some (undo_since (governance l) (governance l0)) else None) j) l = Ok l0.
Proof.
  intros Hu Hc Hp Hs Ht Hg. unfold rollback_journal. cbn [previous_governance set_undo].
  assert (match (if active then Some (undo_since (governance l) (governance l0)) else None) with
    | Some u => restore_undo u (governance l) | None => Ok (governance l) end = Ok (governance l0)) as ->.
  { destruct active; [apply undoes_restore, undo_since_undoes|by rewrite Hg]. }
  cbn [rbind]. f_equal. rewrite rollback_changes_spec. by apply ledger_ext.
Qed.

Section rollback.
Context {C : Crypto} {B : Bincode} {H : Hex} {N : Snapshot}.
Context (genesis : option bytes) (bootstrap : bool).
Context (height timestamp modifier : Z) (active : bool).

(** Everything [rollback_exact] asks for, of the pair of a ledger and its journal. *)
Definition recoverable (l0 : Ledger) (s : Ledger * BlockJournal) : Prop :=
  undo_changes (changes s.2) (utxo_set s.1) = utxo_set l0 /\
  undo_claims (j_claimed s.2) (claimed_addresses s.1) = claimed_addresses l0 /\
  previous_params s.2 = params l0 /\ previous_supply s.2 = total_supply l0 /\
  previous_staked s.2 = total_staked l0 /\ (active = false -> governance s.1 = governance l0).

Lemma recoverable_start l0 hash h (s : Ledger * BlockJournal) :
  utxo_set s.1 = utxo_set l0 -> claimed_addresses s.1 = claimed_addresses l0 ->
  s.2 = new_journal l0 hash h -> (active = false -> governance s.1 = governance l0) -> recoverable l0 s.
Proof. intros Hu Hc Hj Hg. unfold recoverable. rewrite Hj. simpl. split_and!; done. Qed.

Lemma recoverable_extends l0 s s' :
  recoverable l0 s -> extends active s s' -> recoverable l0 s'.
Proof.
  intros (R1 & R2 & R3 & R4 & R5 & R6) [(cs & E1 & E2) (cl & E3 & E4 & _) T G (F1 & F2 & F3 & F4 & _)].
  unfold recoverable. rewrite E1, E3, undo_changes_app, undo_claims_app, E2, E4, F2, F3, F4.
  split_and!; try done. intros Ha. by rewrite G, R6.
Qed.

(** The transactions of the block only make journaled changes, from any state with the
    outputs and claims of [l]. *)
Definition loop_ok (txs : list Transaction) (l : Ledger) : Prop := forall l1 j1,
  utxo_set l1 = utxo_set l -> claimed_addresses l1 = claimed_addresses l ->
  swp (sfor (apply_transaction genesis bootstrap height timestamp modifier active) txs)
    (fun _ => extends active (l1, j1)) (extends active (l1, j1)) (l1, j1).

Lemma fresh_loop_ok txs l : fresh_block (utxo_set l) txs -> loop_ok txs l.
Proof. intros Hf l1 j1 Hu _. apply apply_transactions_ext. by rewrite Hu. Qed.

Lemma apply_block_body_recoverable txs l hash :
  loop_ok txs l ->
  swp (apply_block_body genesis bootstrap height timestamp modifier active txs)
    (fun _ => recoverable l) (recoverable l) (l, new_journal l hash height).
Proof.
  intros Hf. unfold apply_block_body. swp_step.
  pose proof (begin_governance_block_frame height timestamp active (l, new_journal l hash height))
    as (U & Cl & J & G).
  unfold swp at 1. destruct (begin_governance_block _ _ _ _) as [[l1 j1] r]. simpl in *.
  assert (R1 : recoverable l (l1, j1)) by by eapply recoverable_start.
  destruct r as [_| |]; [|done..]. swp_step.
  eapply swp_mono; [by apply Hf| |].
  - intros _ [l2 j2] H2. pose proof (recoverable_extends _ _ _ R1 H2) as R2.
    unfold swp, commit_totals. by destruct (_ <? _).
  - intros s' H'. by eapply recoverable_extends.
Qed.

Lemma commit_root_recoverable tree l0 l j r :
  recoverable l0 (l, j) -> recoverable l0 (l, (commit_root tree l j r).1.2).
Proof. intros R. unfold commit_root. by repeat case_match. Qed.

Lemma apply_block_exact block_hash txs tree l :
  loop_ok txs l ->
  match apply_block_journaled genesis bootstrap height timestamp modifier active block_hash txs tree l with
  | (l', _, Ok j) => rollback_journal j l' = Ok l
  | (l', _, Err _) => l' = l
  | (_, _, Panic) => True
  end.
Proof.
  intros Hf. unfold apply_block_journaled.
  pose proof (apply_block_body_recoverable txs l block_hash Hf) as Hb. unfold swp in Hb.
  destruct (apply_block_body _ _ _ _ _ _ _ _) as [[l1 j1] r].
  assert (R : recoverable l (l1, j1)) by by destruct r. clear Hb.
  pose proof (commit_root_recoverable tree _ _ _ r R) as (R1 & R2 & R3 & R4 & R5 & R6).
  destruct (commit_root tree l1 j1 r) as [[tree' j2] r']. simpl in *.
  pose proof (rollback_exact active l l1 j2 R1 R2 R3 R4 R5 R6) as Hr. destruct r'; [done| |done].
  by rewrite Hr.
Qed.

(** C21: blocks are applied atomically and rolled back exactly. If the transactions of a
    block are new to the output set, then applying it either fails and leaves the ledger
    as it was (outputs, claims, supply, staked supply, parameters and governance), or
    succeeds with a journal whose rollback gives exactly that ledger back. *)
Theorem block_journal_exact block_hash txs tree l :
  fresh_block (utxo_set l) txs ->
  match apply_block_journaled genesis bootstrap height timestamp modifier active block_hash txs tree l with
  | (l', _, Ok j) => rollback_journal j l' = Ok l
  | (l', _, Err _) => l' = l
  | (_, _, Panic) => True
  end.
Proof. intros Hf. by apply apply_block_exact, fresh_loop_ok. Qed.

End rollback.
