(* ===== verification/Supply.v ===== *)
(** * The ledger: what transactions do to the money supply

    Theorems about [Ledger.v]: the exact effect of a transaction on the output set,
    conservation of value, the rules of coinstakes and claims, and the invariant of the
    ledger: supply within its cap, staked supply exact, every coin accounted for. *)

From stdpp Require Import base list gmap sorting strings.
From Stdlib Require Import ZArith Lia.
From S2P Require Import Prelude Script Crypto Engine Standard Merkle Codec Block Address Consensus.
From S2P Require Import Governance Ledger.
Import Scripts.

Definition in_key (i : TxInput) : OutPoint := (prev_txid i, prev_vout i).

(** Outputs taken out of and put into an output set. *)
Definition spend_keys (m : gmap OutPoint Utxo) (ks : list OutPoint) : gmap OutPoint Utxo :=
  foldl (fun m k => delete k m) m ks.
Definition create_utxos (m : gmap OutPoint Utxo) (us : list Utxo) : gmap OutPoint Utxo :=
  foldl (fun m u => <[(outpoint u : OutPoint) := u]> m) m us.

Lemma spend_keys_lookup m ks k u :
  spend_keys m ks !! k = Some u <-> m !! k = Some u /\ k ∉ ks.
Proof.
  unfold spend_keys. revert m; induction ks as [|k' ks IH]; intros m; simpl; [rewrite elem_of_nil; tauto|].
  rewrite IH, lookup_delete_Some, not_elem_of_cons. intuition congruence.
Qed.

(** The stakeable value of an output, as the staked supply counts it. *)
Definition weight (p : ConsensusParams) (u : Utxo) : Z :=
  if is_stakeable_with p u then utxo_value u else 0.

(** The same through the cast to [i64]. *)
Definition weight_i64 (p : ConsensusParams) (u : Utxo) : Z :=
  if is_stakeable_with p u then as_i64 (utxo_value u) else 0.

Section effect.
Context {C : Crypto} {B : Bincode} {H : Hex} {N : Snapshot}.
Context (bootstrap : bool) (height timestamp modifier : Z) (active : bool).

(** What the input loop has done after the inputs [p]. *)
Record spent (tx : Transaction) (l : Ledger) (j : BlockJournal) (p : list (nat * TxInput))
    (us : list Utxo) (s : Frame) : Prop := {
  sp_inputs : Forall2 (fun e u => utxo_set l !! in_key e.2 = Some u /\
    verify_input height timestamp tx e.1 e.2 u = Ok tt) p us;
  sp_unlocked : is_coinstake tx = false -> active = true ->
    Forall (fun e => is_utxo_locked (governance l) (prev_txid e.2) (prev_vout e.2) height = false) p;
  sp_set : ledger s = set_utxos (spend_keys (utxo_set l) (map (fun e => in_key e.2) p)) l;
  sp_nodup : NoDup (map (fun e => in_key e.2) p);
  sp_total : total_input s = sat_sum (map utxo_value us);
  sp_stake : stake_input s = if is_coinstake tx then head us else None;
  sp_staked : staked_delta (journal s) = staked_delta j - zsum (map (weight_i64 (params l)) us);
  sp_supply : supply_delta (journal s) = supply_delta j;
}.

Lemma sat_sum_snoc l x : sat_sum (l ++ [x]) = sat_add u64_max (sat_sum l) x.
Proof. unfold sat_sum. by rewrite fold_left_app. Qed.

Lemma spend_input_spec tx l j p us i input q s s' :
  is_legacy_claim tx = false -> imap pair (inputs tx) = p ++ (i, input) :: q -> spent tx l j p us s ->
  spend_input height timestamp active tx (i, input) s = (s', Ok tt) ->
  exists u, spent tx l j (p ++ [(i, input)]) (us ++ [u]) s'.
Proof.
  intros Hleg Hidx [S1 S1' S2 S3 S4 S5 S6 S7]. unfold spend_input.
  intros (l1 & s1 & [= <- <-] & E)%sbind_Ok.
  destruct (active && _ && _) eqn:Elock; [done|].
  set (key := (prev_txid input, prev_vout input) : OutPoint) in *. rewrite S2 in E. cbn [utxo_set set_utxos params] in E.
  destruct (spend_keys _ _ !! key) as [u|] eqn:Eu; [|rewrite Hleg in E; discriminate E].
  pose proof Eu as [Eu1 Eu2]%spend_keys_lookup.
  apply sbind_Ok in E as (? & s2 & [= <- _] & E). rewrite Hleg in E.
  apply sbind_Ok in E as (? & s3 & [= <- E1] & E).
  apply sbind_Ok in E as (? & s4 & E2 & E). exists u.
  assert (s4 = mkFrame (set_utxos (delete key (spend_keys (utxo_set l) (map (fun e => in_key e.2) p))) l)
    (push_change (Removed key u) (journal s)) (sat_add u64_max (total_input s) (utxo_value u))
    (if is_coinstake tx && (i =? 0)%nat then Some u else stake_input s)) as ->.
  { destruct (is_coinstake tx && (i =? 0)%nat); injection E2 as <-; done. }
  assert (Hd : ledger s' = set_utxos (delete key (spend_keys (utxo_set l) (map (fun e => in_key e.2) p))) l /\
    total_input s' = sat_add u64_max (total_input s) (utxo_value u) /\
    stake_input s' = (if is_coinstake tx && (i =? 0)%nat then Some u else stake_input s) /\
    staked_delta (journal s') = staked_delta (journal s) - weight_i64 (params l) u /\
    supply_delta (journal s') = supply_delta (journal s)).
  { unfold weight_i64. destruct (is_stakeable_with (params l) u).
    - unfold add_staked in E. apply sbind_Ok in E as (j2 & s5 & [= <- <-] & E).
      apply sbind_Ok in E as (d & s5 & [= <- Ed] & E). injection E as <-. simpl in *.
      apply ok_or_Ok in Ed. unfold checked_i64 in Ed. destruct (_ && _) in Ed; [|done]. injection Ed as <-.
      split_and!; first [done|lia].
    - injection E as <-. simpl. split_and!; first [done|lia]. }
  destruct Hd as (D1 & D2 & D3 & D4 & D5). split.
  - apply Forall2_app; [done|]. constructor; [|constructor]. split; [done|]. simpl. by destruct x0.
  - intros Hc Ha. apply Forall_app. split; [auto|]. constructor; [|done]. simpl.
    rewrite S2, Ha, Hc, andb_true_r in Elock. done.
  - rewrite D1. f_equal. unfold spend_keys. by rewrite map_app, foldl_app.
  - rewrite map_app. apply NoDup_app. split; [done|]. split; [|by apply NoDup_singleton].
    intros k Hk ->%list_elem_of_singleton. done.
  - rewrite D2, map_app, S4. simpl. by rewrite sat_sum_snoc.
  - rewrite D3, S5. pose proof (imap_pair_index _ _ _ _ _ Hidx) as ->. destruct (is_coinstake tx); [|done]. simpl.
    destruct p as [|e p]; simpl.
    + apply Forall2_nil_inv_l in S1 as ->. done.
    + destruct us as [|u0 us]; [by apply Forall2_cons_nil_inv in S1|]. done.
  - rewrite D4, S6, map_app, zsum_app. simpl. lia.
  - by rewrite D5.
Qed.
Lemma spend_inputs_spec tx l j s :
  is_legacy_claim tx = false ->
  sfor (spend_input height timestamp active tx) (imap pair (inputs tx)) (mkFrame l j 0 None) = (s, Ok tt) ->
  exists us, spent tx l j (imap pair (inputs tx)) us s.
Proof.
  intros Hleg E.
  eapply (swp_run _ (fun _ s => exists us, spent tx l j (imap pair (inputs tx)) us s) (fun _ => True)) in E; [done|].
  apply (swp_for_split (fun p s => exists us, spent tx l j p us s) (fun _ => True) _ _ []).
  - intros p [i input] q s' Eq [us Hus]. cbn [app] in *. unfold swp.
    destruct (spend_input height timestamp active tx (i, input) s') as [s2 [[]| |]] eqn:Es; [|done..].
    destruct (spend_input_spec _ _ _ _ _ _ _ _ _ _ Hleg Eq Hus Es) as [u Hu]. by exists (us ++ [u]).
  - exists []. split; try done; simpl; [by destruct l|constructor|by destruct (is_coinstake tx)|lia].
Qed.

(** The outputs a transaction creates, in order. *)
Definition new_utxo (tx : Transaction) (e : nat * TxOutput) : option Utxo :=
  if is_utxo_eligible e.2 tx height then Some (utxo_of height timestamp tx e.1 e.2) else None.
Definition new_utxos (tx : Transaction) : list Utxo := omap (new_utxo tx) (imap pair (outputs tx)).

(** What the output loop has done after the outputs [p]. *)
Record created (tx : Transaction) (s0 : Frame) (p : list (nat * TxOutput)) (s : Frame) : Prop := {
  cr_set : ledger s = set_utxos (create_utxos (utxo_set (ledger s0)) (omap (new_utxo tx) p)) (ledger s0);
  cr_staked : staked_delta (journal s) =
    staked_delta (journal s0) + zsum (map (weight_i64 (params (ledger s0))) (omap (new_utxo tx) p));
  cr_supply : supply_delta (journal s) = supply_delta (journal s0);
  cr_total : total_input s = total_input s0;
  cr_stake : stake_input s = stake_input s0;
}.

Lemma add_output_spec tx s0 p e s s' :
  created tx s0 p s -> add_output height timestamp tx e s = (s', Ok tt) -> created tx s0 (p ++ [e]) s'.
Proof.
  intros [C1 C2 C3 C4 C5]. unfold add_output. destruct e as [i o].
  assert (Ho : omap (new_utxo tx) (p ++ [(i, o)]) = omap (new_utxo tx) p ++
    (if is_utxo_eligible o tx height then [utxo_of height timestamp tx i o] else [])).
  { rewrite omap_app. f_equal. simpl. unfold new_utxo. simpl. by destruct (is_utxo_eligible o tx height). }
  destruct (is_utxo_eligible o tx height) eqn:Eel; cbn [negb].
  2:{ intros [= <-]. split; rewrite ?Ho, ?app_nil_r; done. }
  intros (l1 & s1 & [= <- <-] & E)%sbind_Ok. apply sbind_Ok in E as (? & s2 & E1 & E).
  apply sbind_Ok in E as (? & s3 & [= <- _] & E). injection E as <-.
  set (u := utxo_of height timestamp tx i o) in *.
  assert (Hd : ledger s2 = ledger s /\ total_input s2 = total_input s /\ stake_input s2 = stake_input s /\
    supply_delta (journal s2) = supply_delta (journal s) /\
    staked_delta (journal s2) = staked_delta (journal s) + weight_i64 (params (ledger s)) u).
  { unfold weight_i64. destruct (is_stakeable_with (params (ledger s)) u).
    - unfold add_staked in E1. apply sbind_Ok in E1 as (j2 & s5 & [= <- <-] & E1).
      apply sbind_Ok in E1 as (d & s5 & [= <- Ed] & E1). injection E1 as <-. simpl in *.
      apply ok_or_Ok in Ed. unfold checked_i64 in Ed. destruct (_ && _) in Ed; [|done]. by injection Ed as <-.
    - injection E1 as <-. split_and!; first [done|lia]. }
  destruct Hd as (D1 & D2 & D3 & D4 & D5). split; rewrite ?Ho.
  - simpl. rewrite D1, C1. unfold create_utxos. by rewrite foldl_app.
  - simpl. rewrite D5, C2, C1, map_app, zsum_app. simpl. lia.
  - simpl. by rewrite D4.
  - simpl. by rewrite D2.
  - simpl. by rewrite D3.
Qed.

Lemma add_outputs_spec tx s0 s :
  sfor (add_output height timestamp tx) (imap pair (outputs tx)) s0 = (s, Ok tt) ->
  created tx s0 (imap pair (outputs tx)) s.
Proof.
  intros E.
  eapply (swp_run _ (fun _ => created tx s0 (imap pair (outputs tx))) (fun _ => True)) in E; [done|].
  apply (swp_for_split (created tx s0) (fun _ => True) _ _ []).
  - intros p e q s' _ Hs'. cbn [app] in *. unfold swp.
    destruct (add_output height timestamp tx e s') as [s2 [[]| |]] eqn:Es; [|done..]. by eapply add_output_spec.
  - split; try done; simpl; [by destruct (ledger s0)|lia].
Qed.

(** What an accepted claim has passed and changed. *)
Lemma apply_claim_spec tx s s' :
  apply_claim height timestamp tx s = (s', Ok tt) ->
  total_input s' = total_input s /\ stake_input s' = stake_input s /\
  supply_delta (journal s') = supply_delta (journal s) /\
  staked_delta (journal s') = staked_delta (journal s) /\
  (match claim_address tx with
  | None => height = 0 /\ ledger s' = ledger s
  | Some addr => (addr ∉ claimed_addresses (ledger s)) /\
      validate_legacy_claim tx (get_legacy_balance addr) = Ok tt /\
      ledger s' = set_claimed ({[addr]} ∪ claimed_addresses (ledger s)) (ledger s)
  end) /\
  (height = 1 -> exists i o, outputs tx !! i = Some o /\ is_stakeable (utxo_of height timestamp tx i o) = true).
Proof.
  unfold apply_claim. intros (? & s1 & E1 & E2)%sbind_Ok.
  assert (s' = s1 /\ (height = 1 -> existsb is_stakeable (imap (utxo_of height timestamp tx) (outputs tx)) = true))
    as [-> Hb].
  { destruct (Z.eqb_spec height 1) as [Eh|Eh]; [|injection E2 as <-; done].
    injection E2 as <- E2. split; [done|]. intros _. by destruct (existsb _ _). }
  assert (height = 1 -> exists i o, outputs tx !! i = Some o /\ is_stakeable (utxo_of height timestamp tx i o) = true) as Hb'.
  { intros Eh. apply Hb in Eh. apply existsb_exists in Eh as (u & Hu & Hs).
    apply list_elem_of_In, list_elem_of_lookup in Hu as [i Hi]. rewrite list_lookup_imap in Hi.
    destruct (outputs tx !! i) as [o|] eqn:Eo; [|done]. injection Hi as <-. eauto. }
  destruct (claim_address tx) as [addr|].
  - apply sbind_Ok in E1 as (? & s2 & [= <- <-] & E1).
    destruct (bool_decide _) eqn:Ec; [done|]. apply bool_decide_eq_false in Ec.
    apply sbind_Ok in E1 as (? & s3 & [= <- Ev] & E1). apply sbind_Ok in E1 as (? & s4 & [= <- _] & E1).
    injection E1 as <-. simpl. split_and!; try done. by destruct (validate_legacy_claim _ _) as [[]| |].
  - destruct (Z.eqb_spec height 0) as [Eh|Eh]; [|done]. injection E1 as <- E1. done.
Qed.

(** [check_coinstake] reads the parameters and the staked supply only. *)
Lemma check_coinstake_frame l l' stake tx :
  params l' = params l -> total_staked l' = total_staked l ->
  check_coinstake bootstrap height timestamp modifier l' stake tx =
  check_coinstake bootstrap height timestamp modifier l stake tx.
Proof. unfold check_coinstake. by intros -> ->. Qed.

(** The inputs a transaction spends: a coinbase spends none. *)
Definition spent_inputs (tx : Transaction) : list TxInput := if is_coinbase tx then [] else inputs tx.

(** Everything a transaction that was applied has passed and changed; [us] are the
    outputs it spent. *)
Record applied_tx (tx : Transaction) (l : Ledger) (j : BlockJournal) (us : list Utxo)
    (l' : Ledger) (j' : BlockJournal) : Prop := {
  ap_inputs : Forall2 (fun e u => utxo_set l !! in_key e.2 = Some u /\
    verify_input height timestamp tx e.1 e.2 u = Ok tt) (imap pair (spent_inputs tx)) us;
  ap_unlocked : is_coinstake tx = false -> active = true -> Forall (fun i =>
    is_utxo_locked (governance l) (prev_txid i) (prev_vout i) height = false) (spent_inputs tx);
  ap_nodup : NoDup (map in_key (spent_inputs tx));
  ap_set : utxo_set l' =
    create_utxos (spend_keys (utxo_set l) (map in_key (spent_inputs tx))) (new_utxos tx);
  ap_claimed : if is_legacy_claim tx then
      match claim_address tx with
      | None => height = 0 /\ claimed_addresses l' = claimed_addresses l
      | Some addr => (addr ∉ claimed_addresses l) /\
          validate_legacy_claim tx (get_legacy_balance addr) = Ok tt /\
          claimed_addresses l' = {[addr]} ∪ claimed_addresses l
      end
    else claimed_addresses l' = claimed_addresses l;
  ap_totals : total_supply l' = total_supply l /\ total_staked l' = total_staked l /\ params l' = params l;
  ap_staked : staked_delta j' = staked_delta j - zsum (map (weight_i64 (params l)) us)
    + zsum (map (weight_i64 (params l)) (new_utxos tx));
  ap_supply : supply_delta j' = sat_add u64_max (supply_delta j)
    (compute_supply_delta tx (sat_sum (map utxo_value us)) (total_output tx));
  ap_conserves : is_coinbase tx = false -> is_coinstake tx = false -> is_legacy_claim tx = false ->
    total_output tx <= sat_sum (map utxo_value us);
  ap_coinstake : is_coinstake tx = true ->
    check_coinstake bootstrap height timestamp modifier l (head us) tx = Ok tt;
}.

Lemma transfer_lock_frame tx s s' :
  transfer_lock height active tx s = (s', Ok tt) ->
  journal s' = journal s /\ utxo_set (ledger s') = utxo_set (ledger s) /\
  claimed_addresses (ledger s') = claimed_addresses (ledger s) /\
  total_supply (ledger s') = total_supply (ledger s) /\ total_staked (ledger s') = total_staked (ledger s) /\
  params (ledger s') = params (ledger s).
Proof.
  unfold transfer_lock. destruct (stake_input s); [|by intros [= <-]].
  destruct active; [|by intros [= <-]]. destruct (transfer_stake_lock _ _ _ _) as [g r].
  by intros [= <- ->].
Qed.

(** The input loop of any transaction; a claim has no inputs. *)
Lemma inputs_phase tx l j s :
  (is_legacy_claim tx = true -> inputs tx = []) ->
  (if is_coinbase tx then sret tt else sfor (spend_input height timestamp active tx) (imap pair (inputs tx)))
    (mkFrame l j 0 None) = (s, Ok tt) ->
  exists us, spent tx l j (imap pair (spent_inputs tx)) us s.
Proof.
  intros Hl. unfold spent_inputs.
  assert (Hnil : forall s', (mkFrame l j 0 None, Ok tt) = (s', Ok (E:=NodeError) tt) -> exists us, spent tx l j [] us s').
  { intros s' [= <-]. exists []. split; try done; simpl; [by destruct l|constructor|by destruct (is_coinstake tx)|lia]. }
  destruct (is_coinbase tx); [apply Hnil|]. destruct (is_legacy_claim tx) eqn:E; [|by apply spend_inputs_spec].
  rewrite Hl by done. apply Hnil.
Qed.

Lemma map_imap_snd {A D} (f : A -> D) (l : list A) : map (fun e : nat * A => f e.2) (imap pair l) = map f l.
Proof.
  change (map (fun e : nat * A => f e.2)) with (fmap (M:=list) (fun e : nat * A => f e.2)).
  rewrite fmap_imap. change (map f l) with (f <$> l). by apply imap_const.
Qed.

Lemma Forall_imap_snd {A} (P : A -> Prop) (l : list A) :
  Forall (fun e : nat * A => P e.2) (imap pair l) -> Forall P l.
Proof.
  rewrite !Forall_forall. intros HP x Hx. apply list_elem_of_lookup in Hx as [i Hi].
  apply (HP (i, x)). apply list_elem_of_lookup. exists i. by rewrite list_lookup_imap, Hi.
Qed.

Lemma apply_journaled_spec tx l j l' j' :
  (is_legacy_claim tx = true -> inputs tx = []) ->
  apply_transaction_journaled bootstrap height timestamp modifier active tx (l, j) = ((l', j'), Ok tt) ->
  exists us, applied_tx tx l j us l' j'.
Proof.
  intros Hleg. unfold apply_transaction_journaled.
  destruct (apply_body _ _ _ _ _ _ _) as [sf r] eqn:E. intros [= <- <- ->].
  unfold apply_body in E. apply sbind_Ok in E as ([] & s1 & E1 & E).
  apply inputs_phase in E1 as [us S]; [|done]. exists us.
  apply sbind_Ok in E as ([] & s2 & E2 & E). apply sbind_Ok in E as ([] & s3 & E3 & E).
  apply add_outputs_spec in E3 as [R1 R2 R3 R4 R5].
  apply sbind_Ok in E as (? & ? & [= <- <-] & E). apply sbind_Ok in E as ([] & s4 & E4 & E).
  apply sbind_Ok in E as ([] & s5 & E5 & E). apply sbind_Ok in E as ([] & s6 & E6 & E). injection E as <-.
  assert (s4 = s3 /\ (is_coinbase tx = false -> is_coinstake tx = false -> is_legacy_claim tx = false ->
    total_output tx <= total_input s3)) as [-> Hcons].
  { destruct (is_coinbase tx), (is_coinstake tx), (is_legacy_claim tx); try (by injection E4 as <-).
    injection E4 as <- E4. split; [done|]. intros _ _ _. unfold ensure in E4.
    destruct (Z.leb_spec (total_output tx) (total_input s3)); [done|discriminate]. }
  assert (s5 = s3 /\ (is_coinstake tx = true ->
    check_coinstake bootstrap height timestamp modifier (ledger s3) (stake_input s3) tx = Ok tt)) as [-> Hstake].
  { destruct (is_coinstake tx); [|by injection E5 as <-]. by injection E5 as <- ->. }
  apply transfer_lock_frame in E6 as (F1 & F2 & F3 & F4 & F5 & F6).
  assert (Hc : total_input s2 = total_input s1 /\ stake_input s2 = stake_input s1 /\
    supply_delta (journal s2) = supply_delta (journal s1) /\ staked_delta (journal s2) = staked_delta (journal s1) /\
    utxo_set (ledger s2) = utxo_set (ledger s1) /\ total_supply (ledger s2) = total_supply (ledger s1) /\
    total_staked (ledger s2) = total_staked (ledger s1) /\ params (ledger s2) = params (ledger s1) /\
    (if is_legacy_claim tx then
      match claim_address tx with
      | None => height = 0 /\ claimed_addresses (ledger s2) = claimed_addresses (ledger s1)
      | Some addr => (addr ∉ claimed_addresses (ledger s1)) /\
          validate_legacy_claim tx (get_legacy_balance addr) = Ok tt /\
          claimed_addresses (ledger s2) = {[addr]} ∪ claimed_addresses (ledger s1)
      end
    else claimed_addresses (ledger s2) = claimed_addresses (ledger s1))).
  { destruct (is_legacy_claim tx); [|by injection E2 as <-].
    apply apply_claim_spec in E2 as (Q1 & Q2 & Q3 & Q4 & Q5 & _).
    destruct (claim_address tx) as [addr|]; [destruct Q5 as (Q5 & Q6 & ->)|destruct Q5 as (Q5 & ->)];
      rewrite Q1, Q2, Q3, Q4; done. }
  destruct Hc as (Q1 & Q2 & Q3 & Q4 & Q5 & Q6 & Q7 & Q8 & Q9).
  destruct S as [S1 S1' S2 S3 S4 S5 S6 S7]. rewrite map_imap_snd in S2, S3. rewrite S2 in Q5, Q6, Q7, Q8, Q9.
  cbn [utxo_set total_supply total_staked params claimed_addresses set_utxos] in *.
  split; simpl; rewrite ?F1, ?F2, ?F3, ?F4, ?F5, ?F6, ?R1, ?R2, ?R3, ?R4; simpl; rewrite ?Q1, ?Q3, ?Q4, ?Q5, ?Q6, ?Q7, ?Q8, ?S4, ?S6, ?S7; try done.
  - intros Hx Ha. by apply Forall_imap_snd, S1'.
  - rewrite <- S4, <- Q1, <- R4. exact Hcons.
  - intros Hx. specialize (Hstake Hx). rewrite R5, Q2, S5, Hx in Hstake.
    rewrite <- Hstake. symmetry. apply check_coinstake_frame; by rewrite R1.
Qed.

End effect.

(** ** Sums over the output set *)

(** Spending known outputs. *)
Lemma map_sum_spend f m (ks : list OutPoint) us :
  NoDup ks -> Forall2 (fun k u => m !! k = Some u) ks us ->
  map_sum f (spend_keys m ks) = map_sum f m - zsum (map f us).
Proof.
  revert m us; induction ks as [|k ks IH]; intros m us Hnd Hus.
  { apply Forall2_nil_inv_l in Hus as ->. unfold spend_keys. simpl. lia. }
  apply Forall2_cons_inv_l in Hus as (u & us' & Hu & Hus & ->). apply NoDup_cons in Hnd as [Hk Hnd].
  change (spend_keys m (k :: ks)) with (spend_keys (delete k m) ks). rewrite (IH _ us').
  - rewrite (map_sum_delete _ _ _ u) by done. simpl. lia.
  - done.
  - apply Forall2_same_length_lookup_2; [by eapply Forall2_length|]. intros i k' u' Hk' Hu'.
    rewrite lookup_delete_ne; [by apply (Forall2_lookup_lr _ _ _ _ _ _ Hus Hk' Hu')|].
    apply list_elem_of_lookup_2 in Hk'. congruence.
Qed.

(** Creating new outputs. *)
Lemma map_sum_create f m us :
  NoDup (map outpoint us) -> (forall u, u ∈ us -> m !! (outpoint u : OutPoint) = None) ->
  map_sum f (create_utxos m us) = map_sum f m + zsum (map f us).
Proof.
  revert m; induction us as [|u us IH]; intros m Hnd Hm; [unfold create_utxos; simpl; lia|].
  simpl in Hnd. apply NoDup_cons in Hnd as [Hu Hnd].
  change (create_utxos m (u :: us)) with (create_utxos (<[(outpoint u : OutPoint) := u]> m) us).
  rewrite IH; [|done|].
  - rewrite map_sum_insert by (apply Hm; left). simpl. lia.
  - intros u' Hin. rewrite lookup_insert_ne; [apply Hm; by right|]. intros E. apply Hu. rewrite E.
    by apply (list_elem_of_fmap_2 outpoint).
Qed.

Lemma create_utxos_lookup m us k u :
  create_utxos m us !! k = Some u -> m !! k = Some u \/ (u ∈ us /\ outpoint u = k).
Proof.
  revert m; induction us as [|u' us IH]; intros m; [by left|].
  change (create_utxos m (u' :: us)) with (create_utxos (<[(outpoint u' : OutPoint) := u']> m) us).
  intros [Hm|[Hin Hk]]%IH; [|right; split; [by right|done]].
  apply lookup_insert_Some in Hm as [[<- <-]|[_ Hm]]; [right; split; [by left|done]|by left].
Qed.

(** ** The invariant of the ledger *)

(** The balances of a set of legacy addresses. *)
Definition claims_sum `{Snapshot} (X : gset bytes) : Z := zsum (get_legacy_balance <$> elements X).

(** [LEGACY_TOTAL_SUPPLY_SATOSHIS] of [genesis.rs]. *)
Definition LEGACY_TOTAL_SUPPLY_SATOSHIS : Z := 1158974663136877.

(** What the snapshot documents: distinct addresses hold at most the legacy supply. *)
Class SnapshotLaws (N : Snapshot) : Prop := {
  snapshot_nonneg : forall a, 0 <= get_legacy_balance a;
  snapshot_total : forall X, claims_sum X <= LEGACY_TOTAL_SUPPLY_SATOSHIS;
}.

(** What is left to claim; the genesis block counted it as supply. *)
Definition unclaimed `{Snapshot} (X : gset bytes) : Z := LEGACY_TOTAL_SUPPLY_SATOSHIS - claims_sum X.

(** What an output is worth; nobody can spend a data carrier, such as the outputs of the
    genesis block that record the legacy balances. *)
Definition spendable (u : Utxo) : Z := if is_op_return (utxo_script u) then 0 else utxo_value u.

Definition utxo_ok (k : OutPoint) (u : Utxo) : Prop :=
  outpoint u = k /\ 0 <= utxo_value u <= MAX_MONEY /\ 0 <= k.2 <= u32_max.

Record ledger_inv `{Snapshot} (l : Ledger) : Prop := {
  li_utxos : forall k u, utxo_set l !! k = Some u -> utxo_ok k u;
  li_staked : total_staked l = map_sum (weight (params l)) (utxo_set l);
  li_supply : 0 <= total_supply l <= MAX_SUPPLY;
  li_backed : map_sum spendable (utxo_set l) + unclaimed (claimed_addresses l) <= total_supply l;
}.

(** The same in the middle of a block, with the deltas of its journal. *)
Record mid_inv `{Snapshot} (s : Ledger * BlockJournal) : Prop := {
  mi_utxos : forall k u, utxo_set s.1 !! k = Some u -> utxo_ok k u;
  mi_staked : total_staked s.1 + staked_delta s.2 = map_sum (weight (params s.1)) (utxo_set s.1);
  mi_supply : 0 <= total_supply s.1 <= MAX_SUPPLY;
  mi_delta : 0 <= supply_delta s.2 <= u64_max;
  mi_backed : supply_delta s.2 <= MAX_SUPPLY ->
    map_sum spendable (utxo_set s.1) + unclaimed (claimed_addresses s.1) <= total_supply s.1 + supply_delta s.2;
}.

Lemma Forall_filter_bool {A} (P : A -> Prop) f (l : list A) : Forall P l -> Forall P (List.filter f l).
Proof. intros Hl. induction Hl as [|x l Hx Hl IH]; simpl; [done|]. destruct (f x); [by constructor|done]. Qed.

Lemma zsum_filter_le {A} (v : A -> Z) f (l : list A) :
  Forall (fun x => 0 <= v x) l -> zsum (map v (List.filter f l)) <= zsum (map v l).
Proof.
  induction 1 as [|x l Hx Hl IH]; simpl; [done|]. destruct (f x); simpl; lia.
Qed.

Section invariant.
Context {C : Crypto} {B : Bincode} {H : Hex} {N : Snapshot} {SL : SnapshotLaws N}.
Context (genesis : option bytes) (bootstrap : bool) (height timestamp modifier : Z) (active : bool).

Lemma claims_sum_add a X : a ∉ X -> claims_sum ({[a]} ∪ X) = get_legacy_balance a + claims_sum X.
Proof. intros Ha. unfold claims_sum. by rewrite elements_union_singleton by done. Qed.

Lemma as_i64_small v : 0 <= v <= MAX_MONEY -> as_i64 v = v.
Proof.
  unfold as_i64. intros Hv. rewrite (proj2 (Z.leb_le v i64_max)); [done|].
  unfold MAX_MONEY, MAX_SUPPLY, COIN, i64_max in *. lia.
Qed.

Lemma weight_i64_ok p u : 0 <= utxo_value u <= MAX_MONEY -> weight_i64 p u = weight p u.
Proof. intros Hu. unfold weight_i64, weight. by rewrite as_i64_small. Qed.

Lemma zsum_weights p us :
  (forall u, u ∈ us -> 0 <= utxo_value u <= MAX_MONEY) -> map (weight_i64 p) us = map (weight p) us.
Proof.
  intros Hu. apply map_ext_in. intros u Hin%list_elem_of_In. apply weight_i64_ok. auto.
Qed.

Lemma elem_of_new_utxos tx u :
  u ∈ new_utxos height timestamp tx <-> exists i o, outputs tx !! i = Some o /\
    is_utxo_eligible o tx height = true /\ u = utxo_of height timestamp tx i o.
Proof.
  unfold new_utxos. rewrite list_elem_of_omap. split.
  - intros ([i o] & Hin & E). apply list_elem_of_lookup in Hin as [j Hj]. rewrite list_lookup_imap in Hj.
    destruct (outputs tx !! j) as [o'|] eqn:Eo; [|done]. injection Hj as <- <-. unfold new_utxo in E. simpl in E.
    destruct (is_utxo_eligible o' tx height) eqn:Ee; [|done]. injection E as <-. eauto.
  - intros (i & o & Ho & He & ->). exists (i, o). split.
    + apply list_elem_of_lookup. exists i. by rewrite list_lookup_imap, Ho.
    + unfold new_utxo. simpl. by rewrite He.
Qed.

Lemma new_utxos_key tx u :
  u ∈ new_utxos height timestamp tx -> exists i, outpoint u = out_key tx i.
Proof. intros (i & o & _ & _ & ->)%elem_of_new_utxos. by exists i. Qed.

Lemma new_utxos_nodup tx :
  zlen (outputs tx) < 2 ^ 32 -> NoDup (map outpoint (new_utxos height timestamp tx)).
Proof.
  intros Hl. unfold new_utxos.
  assert (Hgen : forall k (l : list TxOutput), Z.of_nat k + zlen l < 2 ^ 32 ->
    NoDup (map outpoint (omap (new_utxo height timestamp tx) (imap (fun i => pair (k + i)%nat) l))) /\
    forall x, x ∈ map outpoint (omap (new_utxo height timestamp tx) (imap (fun i => pair (k + i)%nat) l)) ->
      exists j, (k <= j)%nat /\ Z.of_nat j < 2 ^ 32 /\ x = out_key tx j).
  { intros k l. revert k. induction l as [|o l IH]; intros k Hk.
    { split; [constructor|]. intros x Hx. by apply elem_of_nil in Hx. }
    rewrite zlen_cons in Hk. pose proof (zlen_nonneg l). destruct (IH (S k)) as [I1 I2]; [lia|].
    rewrite imap_cons. cbn [omap list_omap].
    replace (imap ((fun i => pair (k + i)%nat) ∘ S) l) with (imap (fun i => pair (S k + i)%nat) l)
      by (apply imap_ext; intros; simpl; f_equal; lia).
    change (new_utxo height timestamp tx ((k + 0)%nat, o)) with
      (if is_utxo_eligible o tx height then Some (utxo_of height timestamp tx (k + 0) o) else None).
    destruct (is_utxo_eligible o tx height); cbn [map].
    - split.
      + apply NoDup_cons. split; [|done]. intros (j & Hj & Hj' & E)%I2.
        change (out_key tx (k + 0) = out_key tx j) in E. apply out_key_inj in E; lia.
      + intros x [->|Hx]%elem_of_cons; [exists (k + 0)%nat; split_and!; [lia|lia|done]|].
        destruct (I2 x Hx) as (j & Hj & Hj' & ->). exists j. split_and!; [lia|lia|done].
    - split; [done|]. intros x Hx. destruct (I2 x Hx) as (j & Hj & Hj' & ->).
      exists j. split_and!; [lia|lia|done]. }
  apply (Hgen 0%nat). simpl. lia.
Qed.

Lemma new_utxos_sum tx :
  Forall (fun o => 0 <= value o) (outputs tx) ->
  zsum (map utxo_value (new_utxos height timestamp tx)) <= zsum (map value (outputs tx)).
Proof.
  unfold new_utxos. intros Hv.
  assert (Hgen : forall k, zsum (map utxo_value (omap (new_utxo height timestamp tx)
    (imap (fun i => pair (k + i)%nat) (outputs tx)))) <= zsum (map value (outputs tx))).
  { induction Hv as [|o l Ho Hl IH]; intros k; [done|]. rewrite imap_cons. cbn [omap list_omap].
    replace (imap ((fun i => pair (k + i)%nat) ∘ S) l) with (imap (fun i => pair (S k + i)%nat) l)
      by (apply imap_ext; intros; simpl; f_equal; lia).
    specialize (IH (S k)). change (new_utxo height timestamp tx ((k + 0)%nat, o)) with
      (if is_utxo_eligible o tx height then Some (utxo_of height timestamp tx (k + 0) o) else None).
    destruct (is_utxo_eligible o tx height); cbn [map]; rewrite ?zsum_cons; cbn [utxo_value utxo_of]; lia. }
  exact (Hgen 0%nat).
Qed.
(** What block validation and the width of the fields guarantee about a transaction. *)
Definition tx_bounds (tx : Transaction) : Prop :=
  Forall (fun o => 0 <= value o <= MAX_MONEY) (outputs tx) /\
  (is_legacy_claim tx = true -> inputs tx = []).

Lemma claim_total tx bal : validate_legacy_claim tx bal = Ok tt -> total_output tx = bal.
Proof.
  unfold validate_legacy_claim. destruct (negb _); [done|]. destruct (claim_address tx); [|done]. simpl.
  destruct (bal =? 0); [done|]. destruct (Z.eqb_spec (total_output tx) bal); done.
Qed.

(** Arithmetic of one transaction: what it adds to the supply covers what it creates.
    [v] is the value of the output set before, [vin] and [vout] what is spent and created. *)
Lemma supply_step v vin vout total delta claims :
  0 <= vin <= v -> 0 <= vout -> 0 <= total <= MAX_SUPPLY -> 0 <= delta <= u64_max ->
  claims <= LEGACY_TOTAL_SUPPLY_SATOSHIS -> (delta <= MAX_SUPPLY -> v + (LEGACY_TOTAL_SUPPLY_SATOSHIS - claims) <= total + delta) ->
  let delta' := sat_add u64_max delta (sat_sub (Z.min u64_max vout) (Z.min u64_max vin)) in
  0 <= delta' <= u64_max /\ (delta' <= MAX_SUPPLY -> v - vin + vout + (LEGACY_TOTAL_SUPPLY_SATOSHIS - claims) <= total + delta').
Proof.
  unfold sat_add, sat_sub, MAX_SUPPLY, COIN, u64_max, LEGACY_TOTAL_SUPPLY_SATOSHIS. lia.
Qed.

Lemma claims_sum_nonneg X : 0 <= claims_sum X.
Proof. apply zsum_nonneg, Forall_fmap, Forall_forall. intros a _. apply snapshot_nonneg. Qed.

(** The same for every kind of transaction; a claim creates no more than its balance. *)
Lemma applied_supply tx v vin vnew vout X X' total delta :
  0 <= vin <= v -> 0 <= vnew <= vout -> 0 <= total <= MAX_SUPPLY -> 0 <= delta <= u64_max ->
  (delta <= MAX_SUPPLY -> v + unclaimed X <= total + delta) ->
  (if is_legacy_claim tx then
     match claim_address tx with
     | None => height = 0 /\ X' = X
     | Some addr => (addr ∉ X) /\ validate_legacy_claim tx (get_legacy_balance addr) = Ok tt /\ X' = {[addr]} ∪ X
     end
   else X' = X) ->
  total_output tx = Z.min u64_max vout ->
  let delta' := sat_add u64_max delta
    (compute_supply_delta tx (Z.min u64_max vin) (Z.min u64_max vout)) in
  0 <= delta' <= u64_max /\ (delta' <= MAX_SUPPLY -> v - vin + vnew + unclaimed X' <= total + delta').
Proof.
  unfold unclaimed. intros Hvin Hvout Htot Hd Hb Hc Ho. pose proof (snapshot_total X) as HX.
  pose proof (supply_step v vin vout total delta (claims_sum X) Hvin ltac:(lia) Htot Hd HX Hb) as [S1 S2].
  unfold compute_supply_delta. destruct (is_legacy_claim tx); simpl.
  - destruct (claim_address tx) as [addr|].
    + destruct Hc as (Ha & Hv%claim_total & ->). pose proof (snapshot_total ({[addr]} ∪ X)) as HX'.
      pose proof (claims_sum_nonneg X). rewrite claims_sum_add in * by done.
      unfold sat_add, MAX_SUPPLY, COIN, u64_max, LEGACY_TOTAL_SUPPLY_SATOSHIS in *. lia.
    + destruct Hc as [_ ->]. split; [done|]. lia.
  - subst X'. split; [done|]. lia.
Qed.

(** The sums a transaction that was applied moves: [us] is what it spent. *)
(** Data carriers are neither spent nor worth anything. *)
Lemma spent_spendable tx i input u :
  verify_input height timestamp tx i input u = Ok tt -> spendable u = utxo_value u.
Proof.
  unfold verify_input, spendable, is_op_return. destruct (from_bytes (script_sig input)) as [sg| |]; [|done..].
  cbn [map_err rbind]. destruct (from_bytes (utxo_script u)) as [pk| |]; [|done..]. cbn [map_err rbind].
  destruct (classify_script pk) eqn:E; try done.
  destruct (execute _ _ _) as [e'| |] eqn:Ex; [|done..]. by apply op_return_fails in Ex.
Qed.

Lemma spendable_bounds u : 0 <= utxo_value u -> 0 <= spendable u <= utxo_value u.
Proof. unfold spendable. destruct (is_op_return _); lia. Qed.

Lemma weight_spendable p u : 0 <= utxo_value u -> 0 <= weight p u <= spendable u.
Proof.
  intros Hu. unfold weight, spendable, is_stakeable_with, is_stakeable_script, is_op_return.
  destruct (from_bytes _) as [s| |]; [destruct (classify_script s)|..]; destruct (_ <? _); lia.
Qed.

Record tx_sums (tx : Transaction) (l l' : Ledger) (us : list Utxo) : Prop := {
  ts_us : forall u, u ∈ us -> 0 <= utxo_value u <= MAX_MONEY;
  ts_new : forall u, u ∈ new_utxos height timestamp tx -> 0 <= utxo_value u <= MAX_MONEY;
  ts_sum : forall f, map_sum f (utxo_set l') =
    map_sum f (utxo_set l) - zsum (map f us) + zsum (map f (new_utxos height timestamp tx));
  ts_in : 0 <= zsum (map utxo_value us) <= map_sum spendable (utxo_set l);
  ts_spent : map spendable us = map utxo_value us;
  ts_out : 0 <= zsum (map spendable (new_utxos height timestamp tx)) <= zsum (map value (outputs tx));
  ts_created : zsum (map utxo_value (new_utxos height timestamp tx)) <= zsum (map value (outputs tx));
  ts_total_out : total_output tx = Z.min u64_max (zsum (map value (outputs tx)));
  ts_total_in : sat_sum (map utxo_value us) = Z.min u64_max (zsum (map utxo_value us));
}.

Lemma applied_sums tx l j us l' j' :
  applied_tx bootstrap height timestamp modifier active tx l j us l' j' -> tx_bounds tx ->
  (forall i, utxo_set l !! out_key tx i = None) -> zlen (outputs tx) < 2 ^ 32 ->
  (forall k u, utxo_set l !! k = Some u -> utxo_ok k u) -> tx_sums tx l l' us.
Proof.
  intros [A1 _ A3 A4 _ _ _ _ _ _] [Hout Hleg] Hfresh Hlen M1.
  set (ks := map in_key (spent_inputs tx)) in *. set (new := new_utxos height timestamp tx) in *.
  assert (Hus : Forall2 (fun k u => utxo_set l !! k = Some u) ks us).
  { unfold ks. rewrite <- (map_imap_snd in_key). apply Forall2_fmap_l. eapply Forall2_impl; [exact A1|].
    simpl. by intros e u [? _]. }
  assert (Hval : forall u, u ∈ us -> 0 <= utxo_value u <= MAX_MONEY).
  { intros u Hin. apply list_elem_of_lookup in Hin as [i Hi].
    destruct (Forall2_lookup_r _ _ _ _ _ Hus Hi) as (k & _ & Hk). by apply (M1 k u). }
  assert (Hnew : forall u, u ∈ new -> 0 <= utxo_value u <= MAX_MONEY).
  { intros u (i & o & Ho & _ & ->)%elem_of_new_utxos. simpl.
    eapply Forall_lookup in Hout; [exact Hout|exact Ho]. }
  assert (Hnn : forall us : list Utxo, (forall u, u ∈ us -> 0 <= utxo_value u <= MAX_MONEY) ->
    Forall (fun v => 0 <= v) (map utxo_value us)).
  { intros vs Hvs. apply Forall_map, Forall_forall. intros u Hu. by apply Hvs. }
  assert (Ho0 : Forall (fun o => 0 <= value o) (outputs tx)) by (eapply Forall_impl; [exact Hout|]; simpl; lia).
  assert (Hsp : map spendable us = map utxo_value us).
  { apply map_ext_in. intros u [i Hi]%list_elem_of_In%list_elem_of_lookup.
    destruct (Forall2_lookup_r _ _ _ _ _ A1 Hi) as (e & _ & _ & Hv). by eapply spent_spendable. }
  pose proof (map_sum_spend spendable _ _ us A3 Hus) as Hs. rewrite Hsp in Hs.
  assert (0 <= map_sum spendable (spend_keys (utxo_set l) ks)).
  { apply map_sum_nonneg. intros k u [Hu _]%spend_keys_lookup. apply spendable_bounds. by apply (M1 k u). }
  pose proof (zsum_nonneg _ (Hnn _ Hval)).
  split; [done|done| |lia|done| |by apply new_utxos_sum|by apply sat_sum_spec, Forall_map|by apply sat_sum_spec, Hnn].
  - intros f. rewrite A4, map_sum_create; [by rewrite (map_sum_spend _ _ _ us)|by apply new_utxos_nodup|].
    intros u [i Hi]%new_utxos_key. apply eq_None_not_Some. intros [u' Hu'].
    apply spend_keys_lookup in Hu' as [Hu' _]. rewrite Hi, Hfresh in Hu'. done.
  - split.
    + apply zsum_nonneg, Forall_map, Forall_forall. intros u Hu%Hnew. apply spendable_bounds, Hu.
    + etransitivity; [|by apply new_utxos_sum]. apply zsum_le. intros u Hu%Hnew. apply spendable_bounds, Hu.
Qed.

Lemma applied_mid_inv tx l j us l' j' :
  applied_tx bootstrap height timestamp modifier active tx l j us l' j' -> tx_bounds tx ->
  (forall i, utxo_set l !! out_key tx i = None) -> zlen (outputs tx) < 2 ^ 32 ->
  mid_inv (l, j) -> mid_inv (l', j').
Proof.
  intros A Hb Hfresh Hlen [M1 M2 M3 M4 M5]. simpl in *.
  destruct (applied_sums tx l j us l' j' A Hb Hfresh Hlen M1) as [Hval Hnew Hsum Hvin Hsp Hvout _ Htot Hvs].
  destruct A as [_ _ _ A4 A5 (T1 & T2 & T3) A6 A7 _ _].
  destruct (applied_supply tx (map_sum spendable (utxo_set l)) (zsum (map utxo_value us))
    (zsum (map spendable (new_utxos height timestamp tx))) (zsum (map value (outputs tx)))
    (claimed_addresses l) (claimed_addresses l')
    (total_supply l) (supply_delta j)) as [D1 D2]; [done..|by destruct (is_legacy_claim tx)|done|].
  rewrite Hvs, Htot in A7. split; simpl.
  - intros k u Hu. rewrite A4 in Hu. apply create_utxos_lookup in Hu as [[Hu _]%spend_keys_lookup|[Hu <-]]; [eauto|].
    split; [done|]. split; [by apply Hnew|]. apply new_utxos_key in Hu as [i ->]. apply as_u32_range.
  - rewrite T2, T3, Hsum, A6, !zsum_weights by done. lia.
  - by rewrite T1.
  - by rewrite A7.
  - rewrite A7, Hsum, T1, Hsp. exact D2.
Qed.

(** The parameters can only change the staked total through [min_stake_amount]. *)
Lemma weight_min_stake p p' u : min_stake_amount p = min_stake_amount p' -> weight p u = weight p' u.
Proof. intros E. unfold weight, is_stakeable_with. by rewrite E. Qed.

Lemma psum_Ok (vs : list Z) s : @psum NodeError vs = Ok s -> s = zsum vs.
Proof.
  unfold psum. enough (forall a, @rfold NodeError _ _ (padd u64_max) a vs = Ok s -> s = a + zsum vs) as Hg.
  { intros Hs. by rewrite (Hg _ Hs). }
  induction vs as [|v vs IH]; intros a; cbn [rfold]; [intros [= <-]; simpl; lia|].
  unfold padd, checked_add. destruct (Z.leb_spec (a + v) u64_max); cbn [unwrap rbind]; [|done]. intros E%IH. rewrite zsum_cons. lia.
Qed.

Lemma staked_sum (p : ConsensusParams) (m : gmap OutPoint Utxo) :
  zsum (map utxo_value (List.filter (is_stakeable_with p) (map snd (in_order outpoint_leb m)))) = map_sum (weight p) m.
Proof.
  unfold map_sum. rewrite <- (merge_sort_Permutation (key_le outpoint_leb) (map_to_list m)).
  change (merge_sort _ (map_to_list m)) with (in_order outpoint_leb m).
  induction (in_order outpoint_leb m) as [|[k u] es IH]; [done|].
  change (zsum (?f <$> (k, u) :: es)) with (zsum (weight p u :: (f <$> es))). rewrite zsum_cons, <- IH.
  cbn [map snd List.filter]. unfold weight at 1. destruct (is_stakeable_with p u); [|done].
  cbn [map]. by rewrite zsum_cons.
Qed.

Lemma start_mid_inv l hash h : ledger_inv l -> mid_inv (l, new_journal l hash h).
Proof. intros [L1 L2 L3 L4]. split; simpl; [done|lia|done|unfold u64_max; lia|]. intros _. lia. Qed.

Lemma begin_mid_inv l hash l' j' :
  ledger_inv l -> begin_governance_block height timestamp active (l, new_journal l hash height) = ((l', j'), Ok tt) ->
  mid_inv (l', j') /\ utxo_set l' = utxo_set l.
Proof.
  intros [L1 L2 L3 L4]. unfold begin_governance_block.
  assert (Hgen : forall g p staked, staked = map_sum (weight p) (utxo_set l) ->
    mid_inv (set_totals (total_supply l) staked (set_gov g p l), new_journal l hash height)).
  { intros g p staked ->. split; simpl; [done|lia|done|unfold u64_max; lia|]. intros _. lia. }
  destruct active.
  - destruct (begin_block _ _ _ _ _) as [[g p]| |]; [|done..]. destruct (Z.eqb_spec (min_stake_amount p)
      (min_stake_amount (previous_params (new_journal l hash height)))) as [Em|_].
    + intros [= <- <-]. split; [|done]. apply (Hgen g p (total_staked l)). rewrite L2. apply map_sum_ext.
      intros k u _. by apply weight_min_stake.
    + destruct (psum _) as [v| |] eqn:Ep; [|done..]. intros [= <- <-]. split; [|done]. apply Hgen.
      apply psum_Ok in Ep. subst v. apply staked_sum.
  - intros [= <- <-]. split; [|done]. destruct l. by apply (Hgen governance params total_staked).
Qed.

Lemma commit_totals_inv l j l' j' :
  mid_inv (l, j) -> commit_totals (l, j) = ((l', j'), Ok tt) -> ledger_inv l'.
Proof.
  intros [M1 M2 M3 M4 M5]. simpl in *. unfold commit_totals.
  destruct (Z.ltb_spec MAX_SUPPLY (sat_add u64_max (total_supply l) (supply_delta j))) as [|Hs]; [done|].
  assert (Hadd : sat_add u64_max (total_supply l) (supply_delta j) = total_supply l + supply_delta j).
  { unfold sat_add, MAX_SUPPLY, COIN, u64_max in *. lia. }
  rewrite Hadd in *. specialize (M5 ltac:(lia)). unfold unclaimed in M5.
  pose proof (snapshot_total (claimed_addresses l)) as Hc.
  assert (Hw : 0 <= map_sum (weight (params l)) (utxo_set l) <= map_sum spendable (utxo_set l)).
  { split; [apply map_sum_nonneg|apply map_sum_le]; intros k u Hu; destruct (M1 k u Hu) as (_ & [? _] & _);
      by apply weight_spendable. }
  intros [= <- _]. split; unfold unclaimed; simpl; [done| |lia|lia].
  unfold sat_add, sat_sub, MAX_SUPPLY, COIN, LEGACY_TOTAL_SUPPLY_SATOSHIS, u64_max in *.
  destruct (Z.leb_spec 0 (staked_delta j)); lia.
Qed.

(** A transaction the node would accept: the rules of [validate_transaction], on [u64] values. *)
Definition valid_tx (tx : Transaction) : Prop :=
  validate_transaction tx = Ok tt /\ Forall (fun o => 0 <= value o) (outputs tx).

Lemma valid_tx_bounds tx : valid_tx tx -> tx_bounds tx.
Proof.
  intros [(_ & Hm & _ & Hl & _)%validate_transaction_Ok Hz]. split; [|intros E; by apply Hl].
  apply Forall_forall. intros o Ho. rewrite Forall_forall in Hm, Hz. split; auto.
Qed.

Lemma apply_transaction_inv tx l j l' j' :
  valid_tx tx -> (forall i, utxo_set l !! out_key tx i = None) -> zlen (outputs tx) < 2 ^ 32 ->
  apply_transaction genesis bootstrap height timestamp modifier active tx (l, j) = ((l', j'), Ok tt) ->
  mid_inv (l, j) -> mid_inv (l', j').
Proof.
  intros Hv%valid_tx_bounds Hf Hl E M. unfold apply_transaction in E.
  apply sbind_Ok in E as ([] & [l1 j1] & E1 & E2).
  assert (mid_inv (l1, j1) /\ utxo_set l1 = utxo_set l) as [M1 U1].
  { destruct active; [|by injection E1 as <- <- ]. destruct genesis; [|done].
    destruct (process_transaction _ _ _ _ _ _ _ _) as [g r]. revert E1. intros [= <- <- ->]. by destruct M. }
  apply apply_journaled_spec in E2 as [us A]; [|apply Hv].
  eapply applied_mid_inv; [exact A|done| |done|done]. intros i. by rewrite U1.
Qed.

Lemma apply_transactions_inv txs l j l' j' :
  Forall valid_tx txs -> fresh_block (utxo_set l) txs -> mid_inv (l, j) ->
  sfor (apply_transaction genesis bootstrap height timestamp modifier active) txs (l, j) = ((l', j'), Ok tt) ->
  mid_inv (l', j').
Proof.
  intros Hv Hf M E.
  set (I := fun (p : list Transaction) s => mid_inv s /\
    keys_from (utxo_set l) (changes j) (fun k => k.1 ∈ map txid p) s).
  pose proof (swp_for_split I (fun _ => True)
    (apply_transaction genesis bootstrap height timestamp modifier active) txs [] (l, j)) as Hs.
  unfold swp in Hs at 2. rewrite E in Hs. apply Hs; [|split; [done|apply keys_from_start]]. clear Hs E M.
  intros p tx q [l1 j1] Eq [M1 K1]. simpl in Eq. rewrite Eq in Hv, Hf. destruct Hf as [Hnd Hf].
  rewrite map_app in Hnd. apply NoDup_app in Hnd as (_ & Hdis & _). rewrite Forall_app, Forall_cons in Hv, Hf.
  destruct Hv as (_ & Hv & _), Hf as (_ & Hf & _).
  assert (Hd : txid tx ∉ map txid p) by (intros Hin; apply (Hdis _ Hin); simpl; left).
  pose proof (apply_transaction_ext genesis bootstrap height timestamp modifier active tx (l1, j1)
    (utxo_set l) (changes j) (map txid p) (l1, j1) ltac:(reflexivity) K1 Hf Hd) as Hx.
  unfold swp in Hx |- *. destruct (apply_transaction _ _ _ _ _ _ tx (l1, j1)) as [[l2 j2] r] eqn:E2.
  destruct r as [[]| |]; [|done..]. destruct Hx as [_ K2]. split.
  - destruct Hf as [Hf Hlen]. eapply apply_transaction_inv; [done| |done|exact E2|done].
    intros i. apply eq_None_not_Some. intros [Hk|Hk]%(keys_from_lookup _ _ _ _ _ K1); [|by apply Hd].
    rewrite Hf in Hk. by destruct Hk.
  - eapply keys_from_mono; [exact K2|]. intros k. simpl. rewrite map_app.
    simpl. rewrite elem_of_app, list_elem_of_singleton, elem_of_cons. tauto.
Qed.

(** The three phases of a block that was applied. *)
Lemma apply_block_Ok block_hash txs tree l l' tree' j :
  apply_block_journaled genesis bootstrap height timestamp modifier active block_hash txs tree l = (l', tree', Ok j) ->
  exists l1 l2 j2,
    begin_governance_block height timestamp active (l, new_journal l block_hash height) =
      ((l1, new_journal l block_hash height), Ok tt) /\
    sfor (apply_transaction genesis bootstrap height timestamp modifier active) txs
      (l1, new_journal l block_hash height) = ((l2, j2), Ok tt) /\
    commit_totals (l2, j2) = ((l', j2), Ok tt) /\
    j_block_hash j = j_block_hash j2 /\ j_height j = j_height j2 /\ changes j = changes j2 /\ j_claimed j = j_claimed j2.
Proof.
  unfold apply_block_journaled. destruct (apply_block_body _ _ _ _ _ _ _ _) as [[l1 j1] r] eqn:E.
  destruct (commit_root tree l1 j1 r) as [[tree1 j2] r1] eqn:Er.
  destruct r1 as [[]| |]; [|by destruct (rollback_journal _ _)|done]. intros [= <- _ <-].
  destruct r as [[]| |]; [|done..]. unfold commit_root in Er.
  destruct (recompute_utxo_root tree (utxo_set l1)) as [[t root]| |]; [|done..]. injection Er as _ <-.
  unfold apply_block_body in E.
  apply sbind_Ok in E as ([] & [l2 j3] & E1 & E). apply sbind_Ok in E as ([] & [l3 j4] & E2 & E3).
  pose proof (begin_governance_block_frame height timestamp active (l, new_journal l block_hash height)) as Hfr.
  rewrite E1 in Hfr. destruct Hfr as (_ & _ & Ej & _). simpl in Ej. subst j3.
  assert (j1 = j4) as ->. { unfold commit_totals in E3. destruct (_ <? _); [done|]. by injection E3. }
  eexists _, _, _. by split_and!.
Qed.

Lemma apply_block_inv block_hash txs tree l l' tree' j :
  Forall valid_tx txs -> fresh_block (utxo_set l) txs -> ledger_inv l ->
  apply_block_journaled genesis bootstrap height timestamp modifier active block_hash txs tree l = (l', tree', Ok j) ->
  ledger_inv l'.
Proof.
  intros Hv Hf Hl (l1 & l2 & j2 & E1 & E2 & E3 & _)%apply_block_Ok.
  apply begin_mid_inv in E1 as [M1 U1]; [|done].
  eapply commit_totals_inv; [|exact E3]. eapply apply_transactions_inv; [exact Hv| |exact M1|exact E2].
  by rewrite U1.
Qed.
End invariant.

(** ** Properties of the ledger *)

Section properties.
Context {C : Crypto} {B : Bincode} {H : Hex} {N : Snapshot} {SL : SnapshotLaws N}.
Context (genesis : option bytes) (bootstrap : bool) (height timestamp modifier : Z) (active : bool).

(** C20: the money supply is an invariant of the chain. If the ledger satisfies
    [ledger_inv] (every output is filed under its own key with at most [MAX_MONEY], the
    recorded staked total is the value of exactly the stakeable outputs, the recorded
    supply is at most [MAX_SUPPLY], and it covers all outputs that can be spent together
    with the legacy balances that are still to be claimed), then it still does after any
    block of valid, new transactions that [apply_block_journaled] accepts. *)
Theorem ledger_invariant_preserved block_hash txs tree l l' tree' j :
  Forall valid_tx txs -> fresh_block (utxo_set l) txs -> ledger_inv l ->
  apply_block_journaled genesis bootstrap height timestamp modifier active block_hash txs tree l = (l', tree', Ok j) ->
  ledger_inv l'.
Proof. apply apply_block_inv. Qed.

(** The script of [u] accepts what input [i] of [tx] offers, and if it is a cold-staking
    script outside a coinstake, then the cold key has signed. *)
Definition spends (tx : Transaction) (i : nat) (input : TxInput) (u : Utxo) : Prop :=
  is_ok (execute (Engine.new (mkEnv (sighash tx i (utxo_script u)) height timestamp (lock_time tx)
    (sequence input) (utxo_height u) (utxo_timestamp u))) (script_sig input) (utxo_script u)) = true /\
  (is_coinstake tx = false -> is_p2cs (utxo_script u) = true -> p2cs_cold_spend_authorized tx i u = Ok true).

Lemma p2cs_redeem_direct script sg :
  is_p2cs script = true -> p2cs_redeem_script script sg = Ok (Some script).
Proof.
  unfold is_p2cs, p2cs_redeem_script. destruct (from_bytes script); [|done..]. by destruct (classify_script _).
Qed.

Lemma verify_input_spends tx i input u :
  verify_input height timestamp tx i input u = Ok tt -> spends tx i input u.
Proof.
  unfold verify_input, spends. destruct (from_bytes (script_sig input)) as [sg| |] eqn:E1; simpl; try done.
  destruct (from_bytes (utxo_script u)) as [pk| |] eqn:E2; simpl; try done.
  apply from_bytes_ok in E1, E2. subst sg pk. destruct (execute _ _ _); simpl; [|done..]. intros Hv.
  split; [done|]. intros Hc Hp. rewrite Hc, p2cs_redeem_direct in Hv by done. cbn [rbind] in Hv.
  destruct (p2cs_cold_spend_authorized tx i u) as [[]| |]; done.
Qed.

(** C22: what a transaction of the standard type must satisfy. If it is applied in the
    middle of a block, then its inputs name distinct existing outputs, each released by its
    script (by the cold key when it is a cold-staking script) and none locked by a vote;
    exactly these leave the output set and its own eligible outputs enter; and it creates
    no money: outputs are worth at most the inputs, and the supply, the claims and the
    pending supply change are untouched. *)
Theorem standard_transaction_sound tx l j l' j' :
  tx_type tx = Standard -> valid_tx tx ->
  (forall i, utxo_set l !! out_key tx i = None) -> zlen (outputs tx) < 2 ^ 32 ->
  mid_inv (l, j) -> supply_delta j <= MAX_SUPPLY ->
  apply_transaction_journaled bootstrap height timestamp modifier active tx (l, j) = ((l', j'), Ok tt) ->
  exists us,
    Forall2 (fun e u => utxo_set l !! in_key e.2 = Some u /\ spends tx e.1 e.2 u) (imap pair (inputs tx)) us /\
    NoDup (map in_key (inputs tx)) /\
    (active = true -> Forall (fun i => is_utxo_locked (governance l) (prev_txid i) (prev_vout i) height = false)
      (inputs tx)) /\
    utxo_set l' = create_utxos (spend_keys (utxo_set l) (map in_key (inputs tx))) (new_utxos height timestamp tx) /\
    zsum (map value (outputs tx)) <= zsum (map utxo_value us) /\
    map_sum utxo_value (utxo_set l') <= map_sum utxo_value (utxo_set l) /\
    supply_delta j' = supply_delta j /\ total_supply l' = total_supply l /\
    claimed_addresses l' = claimed_addresses l.
Proof.
  intros Ht Hv%valid_tx_bounds Hf Hl [M1 M2 M3 M4 M5] Hd E. simpl in *.
  assert (is_coinbase tx = false /\ is_coinstake tx = false /\ is_legacy_claim tx = false) as (K1 & K2 & K3).
  { unfold is_coinbase, is_coinstake, is_legacy_claim. by rewrite Ht. }
  apply apply_journaled_spec in E as [us A]; [|apply Hv]. exists us.
  destruct (applied_sums _ _ _ _ _ _ _ _ _ _ _ A Hv Hf Hl M1) as [S1 S2 S3 S4 _ _ S5 S6 S7].
  destruct A as [A1 A2 A3 A4 A5 (T1 & _) _ A7 A8 _]. unfold spent_inputs in *. rewrite K1 in *. rewrite K3 in A5.
  specialize (A8 eq_refl K2 K3). pose proof (snapshot_total (claimed_addresses l)).
  assert (zsum (map value (outputs tx)) <= zsum (map utxo_value us)).
  { unfold unclaimed, MAX_SUPPLY, COIN, LEGACY_TOTAL_SUPPLY_SATOSHIS, u64_max in *. lia. }
  split_and!; [|done|auto|done|done|rewrite S3; lia| |done|done].
  - eapply Forall2_impl; [exact A1|]. simpl. intros e u [? ?%verify_input_spends]. done.
  - rewrite A7. unfold compute_supply_delta. rewrite K3. cbn [andb]. unfold sat_add, sat_sub. lia.
Qed.

Lemma ensure_Ok {E} b (e : E) : ensure b e = Ok tt -> b = true.
Proof. by destruct b. Qed.

(** The stake conditions: stakeable, old enough and not too old, and under the target. *)
Record stake_rules (l : Ledger) (tx : Transaction) (u : Utxo) : Prop := {
  sr_stakeable : is_stakeable_with (params l) u = true;
  sr_value : min_stake_amount (params l) <= utxo_value u;
  sr_young : sat_sub timestamp (utxo_timestamp u) <= max_stake_age (params l);
  sr_old : min_stake_age (params l) <= sat_sub timestamp (utxo_timestamp u) \/
    (height = 2 /\ utxo_height u = 1 /\ bootstrap = true);
  sr_kernel : 0 < total_staked l ->
    kernel_val modifier u timestamp * total_staked l <= utxo_value u * 2 ^ 32;
  sr_reward : exists r, compute_pos_reward_with (params l) (utxo_value u) (sat_sub timestamp (utxo_timestamp u)) = Ok r /\
    0 <= r /\ total_output tx <= utxo_value u + r;
  sr_relock : check_relock tx u = Ok tt;
}.

Lemma check_coinstake_Ok l tx stake :
  check_coinstake bootstrap height timestamp modifier l stake tx = Ok tt ->
  exists u, stake = Some u /\ stake_rules l tx u.
Proof.
  unfold check_coinstake. destruct stake as [u|]; [|done]. cbn [ok_or rbind]. intros E. exists u. split; [done|].
  destruct (ensure (is_stakeable_with _ _) _) as [[]| |] eqn:E1; [|done..]. apply ensure_Ok in E1. cbn [rbind] in E.
  destruct (ensure (min_stake_amount _ <=? _) _) as [[]| |] eqn:E2; [|done..]. apply ensure_Ok in E2. cbn [rbind] in E.
  destruct (ensure (_ && (_ <=? max_stake_age _)) _) as [[]| |] eqn:E3; [|done..]. apply ensure_Ok in E3.
  cbn [rbind] in E. destruct (ensure (check_stake_kernel_v2 _ _ _ _) _) as [[]| |] eqn:E4; [|done..].
  apply ensure_Ok in E4. cbn [rbind] in E.
  destruct (compute_pos_reward_with _ _ _) as [r| |] eqn:E5; [|done..]. cbn [rbind] in E.
  destruct (ensure (_ <=? r) _) as [[]| |] eqn:E6; [|done..]. apply ensure_Ok in E6. cbn [rbind] in E.
  apply andb_true_iff in E3 as [E3 E3']. rewrite orb_true_iff, !andb_true_iff, !Z.eqb_eq in E3.
  apply Z.leb_le in E2, E3', E6. split; [done|done|done| | |exists r; split; [done|]|done].
  - destruct E3 as [[[? ?] ?]|?%Z.leb_le]; [by right|by left].
  - intros Hs. unfold check_stake_kernel_v2 in E4. rewrite (proj2 (Z.eqb_neq _ _)) in E4 by lia.
    apply Z.leb_le in E4. by rewrite Z.shiftl_mul_pow2 in E4 by lia.
  - unfold sat_sub in E6. lia.
Qed.

Lemma check_relock_p2cs tx u input :
  inputs tx = [input] -> is_p2cs (utxo_script u) = true -> Forall (fun o => 0 <= value o) (outputs tx) ->
  check_relock tx u = Ok tt ->
  Forall (fun o => 0 < value o -> script_pubkey o = utxo_script u) (outputs tx) /\
  utxo_value u <= zsum (map value (outputs tx)).
Proof.
  intros Hi Hp Hv. unfold check_relock. rewrite Hi.
  change (vec_get [input] 0) with (@Ok NodeError _ input). cbn [rbind].
  rewrite p2cs_redeem_direct by done. cbn [rbind].
  destruct (ensure (negb _) _) as [[]| |] eqn:E1; [|done..]. apply ensure_Ok in E1. cbn [rbind].
  intros E2%ensure_Ok%Z.leb_le. apply negb_true_iff, Z.ltb_ge in E1.
  assert (Hz : p2cs_redirected_value_with_redeem (utxo_script u) (utxo_script u) (outputs tx) = 0).
  { unfold p2cs_redirected_value_with_redeem in *. rewrite Hp in *. cbn [negb] in *.
    rewrite sat_sum_spec in * by (by apply Forall_map, Forall_filter_bool).
    pose proof (zsum_nonneg (map value (List.filter (fun o => (0 <? value o) &&
      negb (bytes_eqb (script_pubkey o) (utxo_script u))) (outputs tx)))
      ltac:(by apply Forall_map, Forall_filter_bool)). unfold u64_max in *. lia. }
  split; [exact (proj1 (redirected_zero _ _ _ Hv) Hz Hp)|].
  rewrite sat_sum_spec in E2 by (by apply Forall_map, Forall_filter_bool).
  pose proof (zsum_filter_le value (fun o => (0 <? value o) && bytes_eqb (script_pubkey o) (utxo_script u)) (outputs tx) Hv).
  lia.
Qed.

(** C23: what a coinstake must satisfy. If one is applied, then its only input is an existing
    output released by its script that is stakeable, within the age limits (or the
    bootstrap output at height 2) and whose kernel is under the target in proportion to
    its value; it pays out at most the staked value and the reward the parameters allow for
    that age, and the supply grows by no more than that reward; and cold-staked coins stay
    under the script they were staked with, undiminished. *)
Theorem coinstake_sound tx l j l' j' :
  tx_type tx = Coinstake -> valid_tx tx ->
  (forall i, utxo_set l !! out_key tx i = None) -> zlen (outputs tx) < 2 ^ 32 -> mid_inv (l, j) ->
  apply_transaction_journaled bootstrap height timestamp modifier active tx (l, j) = ((l', j'), Ok tt) ->
  exists input u r, inputs tx = [input] /\ utxo_set l !! in_key input = Some u /\ spends tx 0 input u /\
    stake_rules l tx u /\
    compute_pos_reward_with (params l) (utxo_value u) (sat_sub timestamp (utxo_timestamp u)) = Ok r /\
    supply_delta j <= supply_delta j' <= supply_delta j + r /\
    (is_p2cs (utxo_script u) = true ->
      Forall (fun o => 0 < value o -> script_pubkey o = utxo_script u) (outputs tx) /\
      utxo_value u <= zsum (map value (outputs tx))).
Proof.
  intros Ht Hv Hf Hl [M1 M2 M3 M4 M5] E. simpl in *.
  assert (is_coinbase tx = false /\ is_coinstake tx = true /\ is_legacy_claim tx = false) as (K1 & K2 & K3).
  { unfold is_coinbase, is_coinstake, is_legacy_claim. by rewrite Ht. }
  pose proof (valid_tx_bounds tx Hv) as Hb. destruct Hv as [Hr%validate_transaction_Ok Hnn].
  apply apply_journaled_spec in E as [us A]; [|apply Hb].
  destruct (applied_sums _ _ _ _ _ _ _ _ _ _ _ A Hb Hf Hl M1) as [S1 S2 S3 S4 _ _ S5 S6 S7].
  destruct A as [A1 _ _ _ _ _ _ A7 _ A9]. unfold spent_inputs in A1. rewrite K1 in A1.
  assert (exists input, inputs tx = [input]) as [input Hi].
  { destruct Hr as (_ & _ & _ & _ & Hr & _). specialize (Hr K2). destruct (inputs tx) as [|i [|]]; try done. eauto. }
  rewrite Hi in A1. destruct us as [|u [|]]; [by inversion A1| |by inversion A1 as [|? ? ? ? ? Hx]; inversion Hx].
  apply Forall2_cons_1 in A1 as [[Hu Hsp%verify_input_spends] _]. simpl in Hu, Hsp.
  destruct (check_coinstake_Ok l tx _ (A9 K2)) as (u' & [= <-] & R).
  destruct (sr_reward _ _ _ R) as (r & Er & Hr0 & Hout). exists input, u, r. split_and!; try done.
  - rewrite A7. unfold sat_add, compute_supply_delta, sat_sub. rewrite K3. cbn [andb]. lia.
  - rewrite A7, S7, S6. unfold sat_add, compute_supply_delta, sat_sub. rewrite K3. cbn [andb].
    change (map utxo_value [u]) with [utxo_value u] in *. rewrite zsum_cons in *. cbn [zsum foldr] in *. rewrite S6 in Hout.
    specialize (S1 u ltac:(left)). unfold MAX_MONEY, MAX_SUPPLY, COIN, u64_max in *. lia.
  - intros Hp. eapply check_relock_p2cs; [done|done|done|apply R].
Qed.

End properties.

(** ** Cold staking behind a script hash *)

Section cold_stake.
Context {C : Crypto} {CL : CryptoLaws C} {B : Bincode} {H : Hex} {N : Snapshot}.

(** The input script of a stake through P2SH: the staking key's signature, the first branch, the
    redeem script. *)
Definition stake_items (sig pk redeem : bytes) : list ScriptItem := [PushData sig; PushData pk; Opcode 0x51; PushData redeem].
(** The same followed by a push and OP_DROP, the three bytes [01 00 75]. *)
Definition hidden_items (sig pk redeem : bytes) : list ScriptItem := stake_items sig pk redeem ++ [PushData [0]; Opcode 0x75].

(** An output locked by a cold-staking script behind its hash, and a signature of [tx] by the
    staking key for the input that spends it. *)
Record staking_signature (height timestamp : Z) (tx : Transaction) (n : nat) (input : TxInput) (u : Utxo)
    (sig pk spending redeem : bytes) (locktime : Z) : Prop := {
  sn_sig : is_bytes sig /\ zlen sig <= MAX_PUSH_SIZE;
  sn_key : is_bytes pk /\ zlen pk <= MAX_PUSH_SIZE;
  sn_spending : is_bytes spending /\ zlen spending = 20;
  sn_locktime : 0 <= locktime < 2 ^ 31;
  sn_redeem : build_p2cs (Core.hash160 pk) spending locktime = Ok redeem;
  sn_script : build_p2sh (Core.hash160 redeem) = Ok (utxo_script u);
  sn_input : inputs tx !! n = Some input;
  sn_ordinary : is_coinstake tx = false;
  sn_signed : check_sig (Engine.new (mkEnv (sighash tx n (utxo_script u)) height timestamp (lock_time tx) (sequence input)
                (utxo_height u) (utxo_timestamp u))) sig pk = Ok tt;
}.

Local Ltac wf_items :=
  repeat (apply Forall_cons; split); try constructor; unfold MAX_PUSH_SIZE, plain_byte, is_byte in *; try done; try apply le32_is_bytes; try (by apply is_bytes_check); lia.

Lemma run_stake_items v sig pk : is_bytes sig -> zlen sig <= MAX_PUSH_SIZE -> is_bytes pk -> zlen pk <= MAX_PUSH_SIZE ->
  run (Engine.new v) (bytes_of [PushData sig; PushData pk; Opcode 0x51]) = Ok (set_stack (Engine.new v) [sig; pk; [1]]).
Proof.
  intros B1 Z1 B2 Z2. rewrite run_bytes_of by wf_items. cbn [rfold].
  do 2 (rewrite run_item_push by done; cbn [rbind]). by rewrite run_item_op by done.
Qed.

(** With the staking key's signature and the first branch on the stack, the redeem script succeeds. *)
Lemma staking_branch v sig pk spending redeem locktime :
  is_bytes sig -> zlen sig <= MAX_PUSH_SIZE -> is_bytes pk -> zlen pk <= MAX_PUSH_SIZE -> is_bytes spending -> zlen spending = 20 ->
  0 <= locktime < 2 ^ 31 -> build_p2cs (Core.hash160 pk) spending locktime = Ok redeem -> zlen redeem = 60 ->
  check_sig (Engine.new v) sig pk = Ok tt ->
  exists e, run (set_stack (Engine.new v) [sig; pk; [1]]) redeem = Ok e /\ top_true e = true.
Proof.
  intros B1 Z1 B2 Z2 B3 Z3 Ht Hr Hz Hc. set (sg := bytes_of [PushData sig; PushData pk; Opcode 0x51]).
  pose proof (run_stake_items v sig pk B1 Z1 B2 Z2) as Hrun.
  assert (Hx : is_ok (execute (Engine.new v) sg redeem) = true).
  { apply (p2cs_spend v sg (Core.hash160 pk) spending redeem locktime); [|apply Core.hash160_bytes|apply hash160_zlen|done..|].
    { apply build_is_bytes. wf_items. }
    exists (set_stack (Engine.new v) [sig; pk; [1]]), [1], (set_stack (Engine.new v) [sig; pk]), []. split; [done|].
    split; [exact (pop_snoc (set_stack (Engine.new v) [sig; pk; [1]]) [sig; pk] [1] eq_refl)|]. cbn. exists sig, pk. done. }
  apply execute_plain in Hx as (e1 & e2 & He1 & He2 & Ht2).
  2:{ unfold is_p2sh. by rewrite Hz. }
  unfold sg in He1. rewrite Hrun in He1. injection He1 as <-. by exists e2.
Qed.

Section spend.
Context {height timestamp : Z} {tx : Transaction} {n : nat} {input : TxInput} {u : Utxo} {sig pk spending redeem : bytes} {locktime : Z}.
Context (S : staking_signature height timestamp tx n input u sig pk spending redeem locktime).

Lemma redeem_cold : is_bytes redeem /\ zlen redeem = 60 /\ classify_script redeem = P2CS (Core.hash160 pk) spending locktime.
Proof.
  destruct S as [_ _ [B3 Z3] Ht Hr _ _ _ _]. assert (Hb : is_bytes redeem).
  { rewrite build_p2cs_bytes in Hr by (done || apply hash160_zlen). injection Hr as <-. apply build_is_bytes.
    pose proof (Core.hash160_bytes pk). pose proof (hash160_zlen pk). unfold timeout_items, pkh_tail. cbn [app].
    assert (zlen (le32 locktime) = 4) by done. wf_items. }
  assert (Hp : parse_p2cs redeem = Some (Core.hash160 pk, spending, locktime)).
  { apply parse_p2cs_build; [done|]. split_and!; [apply hash160_zlen|done|lia|lia|done]. }
  split; [done|]. split; [by apply parse_p2cs_Some in Hp as [? _]|by apply classify_p2cs].
Qed.
Lemma wf_hidden_items : Forall wf_item (hidden_items sig pk redeem) /\ Forall wf_item (stake_items sig pk redeem).
Proof.
  destruct redeem_cold as (B4 & Z4 & _). destruct S as [[B1 Z1] [B2 Z2] _ _ _ _ _ _ _].
  split; unfold hidden_items, stake_items; cbn [app]; wf_items.
Qed.

Lemma zlen_hidden_items : zlen (bytes_of (hidden_items sig pk redeem)) <= MAX_SCRIPT_SIZE /\
  zlen (bytes_of (stake_items sig pk redeem)) <= MAX_SCRIPT_SIZE.
Proof.
  destruct redeem_cold as (_ & Z4 & _). destruct S as [[_ Z1] [_ Z2] _ _ _ _ _ _ _].
  assert (Hp : forall d, zlen d <= MAX_PUSH_SIZE -> zlen (push_bytes d) <= 600).
  { intros d Hd. unfold push_bytes, MAX_PUSH_SIZE, le16 in *. repeat case_match; rewrite ?zlen_cons, ?zlen_app, ?zlen_to_le; change (zlen (@nil Z)) with 0; lia. }
  pose proof (Hp sig Z1). pose proof (Hp pk Z2). pose proof (Hp redeem ltac:(unfold MAX_PUSH_SIZE; lia)).
  unfold bytes_of, hidden_items, stake_items. cbn [app map concat item_bytes].
  change (zlen (push_bytes [0])) with 2. autorewrite with zlen. change (zlen (push_bytes [0])) with 2. unfold MAX_SCRIPT_SIZE. lia.
Qed.

Lemma wrapped_script : classify_script (utxo_script u) = P2SH /\ from_bytes (utxo_script u) = Ok (utxo_script u).
Proof.
  destruct S as [_ _ _ _ _ Hs _ _ _]. split; [apply classify_p2sh; exists (Core.hash160 redeem); split; [apply hash160_zlen|done]|].
  apply from_bytes_small. rewrite build_p2sh_bytes in Hs by apply hash160_zlen. injection Hs as <-.
  unfold bytes_of, p2sh_items. cbn [map concat item_bytes app]. rewrite push_bytes_short by (rewrite hash160_zlen; lia).
  autorewrite with zlen. by rewrite hash160_zlen.
Qed.

(** Every input script that leaves these four elements is accepted by the engine. *)
Lemma stake_stack_accepted sg : let v := mkEnv (sighash tx n (utxo_script u)) height timestamp (lock_time tx) (sequence input)
    (utxo_height u) (utxo_timestamp u) in
  is_bytes sg -> run (Engine.new v) sg = Ok (set_stack (Engine.new v) [sig; pk; [1]; redeem]) ->
  exists e, execute (Engine.new v) sg (utxo_script u) = Ok e.
Proof.
  intros v Hb Hr. destruct redeem_cold as (B4 & Z4 & _). destruct S as [[B1 Z1] [B2 Z2] [B3 Z3] Ht Hrd Hs _ _ Hc].
  destruct (staking_branch v sig pk spending redeem locktime) as (e & He & Htop); try done.
  assert (Hx : is_ok (execute (Engine.new v) sg (utxo_script u)) = true).
  { apply (p2sh_spend v sg (Core.hash160 redeem) (utxo_script u)); [done|apply Core.hash160_bytes|apply hash160_zlen|done|].
    exists (set_stack (Engine.new v) [sig; pk; [1]; redeem]), redeem, (set_stack (Engine.new v) [sig; pk; [1]]), e.
    split; [done|]. split; [exact (pop_snoc (set_stack (Engine.new v) [sig; pk; [1]; redeem]) [sig; pk; [1]] redeem eq_refl)|].
    split; [done|]. split; [rewrite Z4; done|done]. }
  destruct (execute _ sg _) as [e'| |]; [by exists e'|done..].
Qed.

Lemma run_hidden_items v : run (Engine.new v) (bytes_of (hidden_items sig pk redeem)) = Ok (set_stack (Engine.new v) [sig; pk; [1]; redeem]) /\
  run (Engine.new v) (bytes_of (stake_items sig pk redeem)) = Ok (set_stack (Engine.new v) [sig; pk; [1]; redeem]).
Proof.
  destruct wf_hidden_items as [W1 W2]. rewrite !run_bytes_of by done. unfold hidden_items, stake_items. cbn [app rfold].
  do 2 (rewrite run_item_push by done; cbn [rbind]). rewrite run_item_op by done.
  change (exec_op 0x51 ?w) with (Ok (E := ScriptError) (push w [1])). cbn [rbind]. rewrite run_item_push by done. cbn [rbind]. split; [|done].
  rewrite run_item_push by done. cbn [rbind]. by rewrite run_item_op by done.
Qed.
Lemma push_list_bytes_of l : Forall wf_item l ->
  push_list (bytes_of l) = Ok (omap (fun i => match i with PushData d => Some d | _ => None end) l).
Proof.
  intros Hl. unfold push_list. rewrite items_parse by by apply build_is_bytes. cbn [no_err rbind].
  unfold bytes_of. rewrite <- (app_nil_r (concat _)), parse_items_build by done. by rewrite app_nil_r.
Qed.

(** The check finds the redeem script in the one input script and not in the other. *)
Lemma hidden_from_check : p2cs_redeem_script (utxo_script u) (bytes_of (hidden_items sig pk redeem)) = Ok None /\
  p2cs_redeem_script (utxo_script u) (bytes_of (stake_items sig pk redeem)) = Ok (Some redeem).
Proof.
  destruct wrapped_script as [Ec Ef]. destruct wf_hidden_items as [W1 W2]. destruct zlen_hidden_items as [Z1 Z2].
  destruct redeem_cold as (_ & Z4 & Er).
  unfold p2cs_redeem_script. rewrite Ef, Ec, !from_bytes_small, !push_list_bytes_of by done. cbn. split; [done|].
  unfold is_p2cs. rewrite from_bytes_small by by rewrite Z4. by rewrite Er.
Qed.

(** The staking branch has one push too few to be the spending key's. *)
Lemma stake_not_authorized : script_sig input = bytes_of (stake_items sig pk redeem) -> p2cs_cold_spend_authorized tx n u = Ok false.
Proof.
  intros Es. destruct wrapped_script as [Ec Ef]. destruct wf_hidden_items as [_ W2]. destruct zlen_hidden_items as [_ Z2].
  destruct redeem_cold as (_ & Z4 & Er). unfold p2cs_cold_spend_authorized, vec_get, vec_at.
  rewrite (proj2 (Z.leb_le _ _)), Nat2Z.id, (sn_input _ _ _ _ _ _ _ _ _ _ _ S) by lia. cbn [unwrap rbind].
  rewrite Es, (proj2 hidden_from_check). cbn [rbind]. rewrite !from_bytes_small by (done || by rewrite Z4). rewrite Er.
  case_match; [done|]. rewrite push_list_bytes_of by done. cbn [rbind]. by rewrite Ef, Ec.
Qed.
End spend.

(** C39: the rule that an ordinary spend of cold-staked coins needs the cold spending key can be
    avoided when the cold-staking script (with a lock time below [2 ^ 31]) is wrapped in P2SH.
    [p2cs_redeem_script] takes the last push of the input script to be the redeem script, but the
    engine takes the top of the stack, so a further push that is dropped again hides the redeem
    script from the check. For any such output, any transaction that is not a coinstake, whatever
    it pays and to whom, and any signature of the input by the staking key, which the owner gave
    away for staking only: the signature, the key, the first branch and the redeem script alone
    are refused, for want of the spending key; with the three bytes of a push and a drop
    after them the input passes [verify_input], and the check that [verify_input] and the mempool
    share finds no redeem script, although the spending key has authorized nothing. *)
Theorem p2sh_cold_stake_theft height timestamp tx n input u sig pk spending redeem locktime :
  staking_signature height timestamp tx n input u sig pk spending redeem locktime ->
  (script_sig input = bytes_of (stake_items sig pk redeem) ->
     verify_input height timestamp tx n input u =
       Err (InvalidTransaction "P2CS spend must be authorized by the cold spending key")) /\
  (script_sig input = bytes_of (stake_items sig pk redeem) ++ [0x01; 0x00; 0x75] ->
     verify_input height timestamp tx n input u = Ok tt /\
     p2cs_redeem_script (utxo_script u) (script_sig input) = Ok None /\ p2cs_cold_spend_authorized tx n u = Ok false).
Proof.
  intros S. destruct (wrapped_script S) as [_ Ef]. destruct (zlen_hidden_items S) as [Z1 Z2]. destruct (wf_hidden_items S) as [W1 W2].
  destruct (hidden_from_check S) as [H1 H2]. unfold verify_input. set (v := mkEnv _ _ _ _ _ _ _). split; intros Es.
  - rewrite Es, from_bytes_small, Ef by done. cbn [map_err rbind].
    destruct (stake_stack_accepted S (bytes_of (stake_items sig pk redeem)) (build_is_bytes _ W2) (proj2 (run_hidden_items S v))) as [e He].
    fold v in He. rewrite He. cbn [map_err rbind].
    rewrite (sn_ordinary _ _ _ _ _ _ _ _ _ _ _ S), H2. cbn [rbind]. by rewrite (stake_not_authorized S Es).
  - assert (E : script_sig input = bytes_of (hidden_items sig pk redeem)).
    { rewrite Es. unfold hidden_items, bytes_of. by rewrite map_app, concat_app. }
    rewrite E, from_bytes_small, Ef by done. cbn [map_err rbind].
    destruct (stake_stack_accepted S (bytes_of (hidden_items sig pk redeem)) (build_is_bytes _ W1) (proj1 (run_hidden_items S v))) as [e He].
    fold v in He. rewrite He. cbn [map_err rbind].
    rewrite (sn_ordinary _ _ _ _ _ _ _ _ _ _ _ S), H1. split; [done|]. split; [done|].
    unfold p2cs_cold_spend_authorized, vec_get, vec_at.
    rewrite (proj2 (Z.leb_le _ _)), Nat2Z.id, (sn_input _ _ _ _ _ _ _ _ _ _ _ S) by lia. cbn [unwrap rbind]. by rewrite E, H1.
Qed.
End cold_stake.

(** ** Witnesses *)

Module SupplyWitness.
#[local] Existing Instance bincode_layout.
#[local] Existing Instance bincode_layout_laws.
#[local] Existing Instance any_order.
#[local] Existing Instance any_order_laws.

Definition key0 : bytes := [7].
Definition pay0 : bytes := [0x76; 0xa9; 0x14] ++ Core.hash160 key0 ++ [0x88; 0xac].
Definition o0 : OutPoint := (repeat 7 32, 1).
Definition u0 : Utxo := mkUtxo (repeat 7 32) 1 (500 * COIN) pay0 5 1000.
#[local] Instance snap0 : Snapshot := fun a => if bytes_eqb a [1] then 500 else 0.
Definition l0 : Ledger := mkLedger {[ o0 := u0 ]} ∅ (LEGACY_TOTAL_SUPPLY_SATOSHIS + 800 * COIN) (500 * COIN) default_params gov_new.
Definition in0 : TxInput := mkTxInput (repeat 7 32) 1 [2; 7; 1; 1; 7] 0xffffffff.
Definition tx0 : Transaction := mkTx 1 Standard [in0] [mkTxOutput (400 * COIN) pay0] 0 None None.
Definition stake0 : Transaction :=
  mkTx 1 Coinstake [in0] [mkTxOutput 0 []; mkTxOutput (500 * COIN + 5) pay0] 0 None None.
Definition j0 : BlockJournal := new_journal l0 (repeat 1 32) 10.

Lemma snap0_sum X : claims_sum X = if decide ([1] ∈ X) then 500 else 0.
Proof.
  induction X as [|a X Ha IH] using set_ind_L; [done|]. unfold claims_sum in *.
  rewrite elements_union_singleton by done. rewrite fmap_cons, zsum_cons, IH.
  unfold get_legacy_balance, snap0. clear IH. destruct (bytes_eqb a [1]) eqn:E.
  - apply bytes_eqb_eq in E as ->. rewrite decide_False by done. rewrite decide_True by (apply elem_of_union_l, elem_of_singleton; done). done.
  - apply bytes_eqb_neq in E. destruct (decide ([1] ∈ X)); [rewrite decide_True by (by apply elem_of_union_r); done|].
    rewrite decide_False; [done|]. rewrite elem_of_union, elem_of_singleton. intros [E1|]; [by rewrite E1 in E|done].
Qed.

#[local] Instance snap0_laws : SnapshotLaws snap0.
Proof.
  split.
  - intros a. unfold get_legacy_balance, snap0. by destruct (bytes_eqb a [1]).
  - intros X. rewrite snap0_sum. by destruct (decide _).
Qed.

Lemma inv0 : ledger_inv l0.
Proof.
  split; [|by vm_compute..]. intros k u Hu. unfold l0 in Hu. cbn [utxo_set] in Hu.
  apply lookup_singleton_Some in Hu as [<- <-]. by vm_compute.
Qed.

Lemma mid0 : mid_inv (l0, j0).
Proof. exact (start_mid_inv l0 (repeat 1 32) 10 inv0). Qed.

Lemma fresh0 tx i : bool_decide (txid tx = repeat 7 32) = false -> utxo_set l0 !! out_key tx i = None.
Proof. intros Hn%bool_decide_eq_false. apply lookup_singleton_None. intros E. exact (Hn (eq_sym (f_equal fst E))). Qed.

Lemma valid0 : valid_tx tx0 /\ valid_tx stake0.
Proof. split; (split; [by vm_compute|]); repeat (apply Forall_cons; split); simpl; (done || constructor). Qed.

Lemma fresh_block0 : fresh_block (utxo_set l0) [tx0].
Proof.
  split; [apply NoDup_singleton|]. apply Forall_singleton. split; [|by vm_compute].
  intros i. apply fresh0. by vm_compute.
Qed.

Lemma block_journal_exact_witness :
  exists l' tree j, apply_block_journaled (Some []) false 10 60000 9 true (repeat 1 32) [tx0] (mkTree []) l0 =
    (l', tree, Ok j) /\ rollback_journal j l' = Ok l0.
Proof.
  pose proof (block_journal_exact (Some []) false 10 60000 9 true (repeat 1 32) [tx0] (mkTree []) l0 fresh_block0) as Hr.
  assert (is_ok (apply_block_journaled (Some []) false 10 60000 9 true (repeat 1 32) [tx0] (mkTree []) l0).2 = true)
    as Hok by by vm_compute.
  destruct (apply_block_journaled _ _ _ _ _ _ _ _ _ _) as [[l' tree] [j| |]]; [|done..].
  exists l', tree, j. split; [done|exact Hr].
Defined.

Lemma ledger_invariant_preserved_witness :
  exists l' tree j, apply_block_journaled (Some []) false 10 60000 9 true (repeat 1 32) [tx0] (mkTree []) l0 =
    (l', tree, Ok j) /\ ledger_inv l'.
Proof.
  pose proof (ledger_invariant_preserved (Some []) false 10 60000 9 true (repeat 1 32) [tx0] (mkTree []) l0) as Hr.
  assert (is_ok (apply_block_journaled (Some []) false 10 60000 9 true (repeat 1 32) [tx0] (mkTree []) l0).2 = true)
    as Hok by by vm_compute.
  destruct (apply_block_journaled _ _ _ _ _ _ _ _ _ _) as [[l' tree] [j| |]]; [|done..].
  exists l', tree, j. split; [done|]. apply (Hr l' tree j); [|apply fresh_block0|apply inv0|done].
  apply Forall_singleton, valid0.
Defined.

Lemma standard_transaction_sound_witness :
  exists l' j', apply_transaction_journaled false 10 60000 9 true tx0 (l0, j0) = ((l', j'), Ok tt) /\
    map_sum utxo_value (utxo_set l') <= map_sum utxo_value (utxo_set l0).
Proof.
  pose proof (standard_transaction_sound false 10 60000 9 true tx0 l0 j0) as Hr.
  assert ((apply_transaction_journaled false 10 60000 9 true tx0 (l0, j0)).2 = Ok tt) as Hok by by vm_compute.
  destruct (apply_transaction_journaled _ _ _ _ _ _ _) as [[l' j'] r]. simpl in Hok. subst r.
  exists l', j'. split; [done|].
  destruct (Hr l' j') as (us & _ & _ & _ & _ & _ & Hs & _);
    [done|apply valid0|intros i; apply fresh0; by vm_compute|by vm_compute|apply mid0|by vm_compute|done|exact Hs].
Defined.

Lemma coinstake_sound_witness :
  exists l' j' u, apply_transaction_journaled false 10 60000 9 true stake0 (l0, j0) = ((l', j'), Ok tt) /\
    stake_rules false 10 60000 9 l0 stake0 u.
Proof.
  pose proof (coinstake_sound false 10 60000 9 true stake0 l0 j0) as Hr.
  assert ((apply_transaction_journaled false 10 60000 9 true stake0 (l0, j0)).2 = Ok tt) as Hok by by vm_compute.
  destruct (apply_transaction_journaled _ _ _ _ _ _ _) as [[l' j'] r]. simpl in Hok. subst r.
  destruct (Hr l' j') as (input & u & r & _ & _ & _ & Hs & _);
    [done|apply valid0|intros i; apply fresh0; by vm_compute|by vm_compute|apply mid0|done|].
  exists l', j', u. split; [done|exact Hs].
Defined.

(** A cold-staking script with staking key [7] and spending key [9], behind its hash. *)
Definition cold : bytes := match build_p2cs (Core.hash160 [7]) (Core.hash160 [9]) 500 with Ok s => s | _ => [] end.
Definition wrapped : Utxo :=
  mkUtxo (repeat 3 32) 0 (500 * COIN) (match build_p2sh (Core.hash160 cold) with Ok s => s | _ => [] end) 5 1000.

(** The staking key's signature, the first branch and the script; [extra] follows. *)
Definition stake_sig (extra : bytes) : bytes := bytes_of (stake_items [7; 1] [7] cold) ++ extra.
Definition theft_in (extra : bytes) : TxInput := mkTxInput (repeat 3 32) 0 (stake_sig extra) 0xffffffff.
Definition theft (extra : bytes) : Transaction :=
  mkTx 1 Standard [theft_in extra] [mkTxOutput (500 * COIN) pay0] 0 None None.

Lemma staking_signed extra : staking_signature 10 60000 (theft extra) 0 (theft_in extra) wrapped [7; 1] [7] (Core.hash160 [9]) cold 500.
Proof. split; try done; split; by try apply is_bytes_check. Qed.

Lemma p2sh_cold_stake_theft_witness :
  (exists e, verify_input 10 60000 (theft []) 0 (theft_in []) wrapped = Err e) /\
  verify_input 10 60000 (theft [0x01; 0x00; 0x75]) 0 (theft_in [0x01; 0x00; 0x75]) wrapped = Ok tt.
Proof.
  split.
  - eexists. apply (p2sh_cold_stake_theft _ _ _ _ _ _ _ _ _ _ _ (staking_signed [])). apply app_nil_r.
  - apply (p2sh_cold_stake_theft _ _ _ _ _ _ _ _ _ _ _ (staking_signed [0x01; 0x00; 0x75])). reflexivity.
Defined.

End SupplyWitness.
