(* ===== verification/History.v ===== *)
(** * No transaction is applied twice

    The history of the active chain in terms of [Ledger.v]: which transactions were
    applied, and what that leaves in the ledger.  A transaction that is already in the
    history is refused before it creates an output, so outputs never overwrite each
    other: the assumption under which the journal of a block is exact and the ledger
    invariant is kept.  Transactions are told apart by their identifiers ([U] is the set
    of transactions under consideration). *)

From stdpp Require Import base list gmap sorting strings.
From Stdlib Require Import ZArith Lia.
From S2P Require Import Prelude Script Crypto Engine Standard Merkle Codec Block Address Consensus.
From S2P Require Import Governance Ledger Supply.
Import Scripts.

(** Identifiers tell the transactions of [U] apart. *)
Definition txids_distinct `{Crypto, Bincode} (U : Transaction -> Prop) : Prop :=
  forall tx tx', U tx -> U tx' -> txid tx = txid tx' -> tx = tx'.

(** What a ledger at height [n] has of the transactions [T] that were applied. *)
Record tracked `{Crypto, Bincode} (n : Z) (T : list Transaction) (l : Ledger) : Prop := {
  tr_keys : forall k, is_Some (utxo_set l !! k) -> k.1 ∈ map txid T;
  tr_spent : forall tx i, tx ∈ T -> is_coinbase tx = false -> i ∈ inputs tx ->
    utxo_set l !! in_key i = None /\ prev_txid i ∈ map txid T;
  tr_claims : forall tx a, tx ∈ T -> is_legacy_claim tx = true -> claim_address tx = Some a ->
    a ∈ claimed_addresses l;
  tr_coinbase : forall tx, tx ∈ T -> is_coinbase tx = true -> lock_time tx < n;
  tr_nodup : NoDup (map txid T);
}.

(** A transaction the node accepts, of a size that fits a block. *)
Definition sound_tx `{Crypto, Bincode} (tx : Transaction) : Prop := valid_tx tx /\ zlen (outputs tx) < 2 ^ 32.

Section history.
Context {C : Crypto} {B : Bincode} {H : Hex} {N : Snapshot} {SL : SnapshotLaws N}.
Context (genesis : option bytes) (bootstrap : bool) (height timestamp modifier : Z) (active : bool).

Lemma create_fresh (m : gmap OutPoint Utxo) us k :
  (forall u, u ∈ us -> outpoint u <> k) -> create_utxos m us !! k = m !! k.
Proof.
  intros Hu. destruct (create_utxos m us !! k) as [u|] eqn:E.
  - apply create_utxos_lookup in E as [E|[E E']]; [done|]. by destruct (Hu u E).
  - symmetry. apply eq_None_not_Some. intros [u E'].
    unfold create_utxos in E. revert m E E'. induction us as [|v us IH]; intros m E E'; simpl in E; [congruence|].
    eapply IH; [intros; apply Hu; by right|exact E|]. rewrite lookup_insert_ne; [done|]. apply Hu. left.
Qed.

Lemma spent_gone (m : gmap OutPoint Utxo) ks k : k ∈ ks \/ m !! k = None -> spend_keys m ks !! k = None.
Proof.
  intros Hk. apply eq_None_not_Some. intros [u [Hu Hn]%spend_keys_lookup]. destruct Hk; [done|congruence].
Qed.

Lemma applied_tracked n n' T tx l j us l' j' :
  applied_tx bootstrap height timestamp modifier active tx l j us l' j' ->
  tracked n T l -> txid tx ∉ map txid T -> n <= n' -> (is_coinbase tx = true -> lock_time tx < n') ->
  tracked n' (T ++ [tx]) l'.
Proof.
  intros [A1 _ _ A4 A5 _ _ _ _ _] [T1 T2 T3 T4 T5] Hd Hn Hc.
  assert (Hin : forall i, is_coinbase tx = false -> i ∈ inputs tx ->
    prev_txid i ∈ map txid T /\ in_key i ∈ map in_key (spent_inputs tx)).
  { intros i Hcb Hi. unfold spent_inputs in *. rewrite Hcb in *. split; [|by apply list_elem_of_fmap; eauto].
    apply list_elem_of_lookup in Hi as [q Hq].
    destruct (Forall2_lookup_l _ _ _ q (q, i) A1) as (u & _ & Hu & _); [by rewrite list_lookup_imap, Hq|].
    exact (T1 (in_key i) (mk_is_Some _ _ Hu)). }
  assert (Hnew : forall k : OutPoint, k.1 ∈ map txid T ->
    forall u, u ∈ new_utxos height timestamp tx -> outpoint u <> k).
  { intros k Hk u [q Hq]%new_utxos_key E. apply Hd. rewrite Hq in E. by rewrite <- E in Hk. }
  assert (HT : forall x, x ∈ T ++ [tx] <-> x ∈ T \/ x = tx).
  { intros x. by rewrite elem_of_app, list_elem_of_singleton. }
  assert (Hids : forall x, x ∈ map txid T -> x ∈ map txid (T ++ [tx])).
  { intros x Hx. rewrite map_app, elem_of_app. by left. }
  split.
  - intros k [u Hu]. rewrite A4 in Hu. apply create_utxos_lookup in Hu as [[Hu _]%spend_keys_lookup|[Hu <-]].
    + apply Hids, T1. by eexists.
    + apply new_utxos_key in Hu as [q ->]. rewrite map_app, elem_of_app. right. simpl. left.
  - intros tx0 i [Ht| ->]%HT Hcb Hi; rewrite A4.
    + destruct (T2 tx0 i Ht Hcb Hi) as [Hk Hp]. split; [|by apply Hids].
      rewrite create_fresh by by apply Hnew. apply spent_gone. by right.
    + destruct (Hin i Hcb Hi) as [Hp Hk]. split; [|by apply Hids].
      rewrite create_fresh by by apply Hnew. apply spent_gone. by left.
  - intros tx0 a [Ht| ->]%HT Hl Ha.
    + specialize (T3 tx0 a Ht Hl Ha). destruct (is_legacy_claim tx); [|by rewrite A5].
      destruct (claim_address tx) as [b|]; [|by destruct A5 as [_ ->]]. destruct A5 as (_ & _ & ->).
      by apply elem_of_union_r.
    + rewrite Hl, Ha in A5. destruct A5 as (_ & _ & ->). by apply elem_of_union_l, elem_of_singleton.
  - intros tx0 [Ht| ->]%HT Hcb; [|auto]. specialize (T4 tx0 Ht Hcb). lia.
  - rewrite map_app. apply NoDup_app. split; [done|]. split; [|apply NoDup_singleton].
    intros x Hx Hx'. apply Hd. by apply list_elem_of_singleton in Hx' as ->.
Qed.

(** A transaction whose first input is gone, or whose claim was made, is refused. *)
Lemma apply_body_stuck tx a s :
  fext active a s -> is_coinbase tx = false ->
  (if is_legacy_claim tx then inputs tx = [] /\ exists addr, claim_address tx = Some addr /\ addr ∈ claimed_addresses (ledger s)
   else exists i rest, inputs tx = i :: rest /\ utxo_set (ledger s) !! in_key i = None) ->
  swp (apply_body bootstrap height timestamp modifier active tx) (fun _ _ => False) (fext active a) s.
Proof.
  intros Hs Hcb Hst. unfold apply_body. rewrite Hcb. swp_step. destruct (is_legacy_claim tx) eqn:El.
  - destruct Hst as (Hi & addr & Ha & Hin). rewrite Hi. cbn [imap sfor]. do 2 swp_step.
    unfold apply_claim. rewrite Ha. do 3 swp_step. rewrite bool_decide_eq_true_2 by done. by swp_step.
  - destruct Hst as (i & rest & Hi & Hk). rewrite Hi. cbn [imap sfor]. swp_step.
    unfold spend_input. do 2 swp_step. swp_guard. intros _. unfold in_key in Hk. rewrite Hk, El. by swp_step.
Qed.

(** The part of [apply_transaction] before [apply_transaction_journaled]. *)
Lemma apply_transaction_gov tx l j Q R :
  (forall g, extends active (l, j) (set_gov g (params l) l, j) ->
    swp (apply_transaction_journaled bootstrap height timestamp modifier active tx) Q R (set_gov g (params l) l, j)) ->
  (forall g, extends active (l, j) (set_gov g (params l) l, j) -> R (set_gov g (params l) l, j)) ->
  swp (apply_transaction genesis bootstrap height timestamp modifier active tx) Q R (l, j).
Proof.
  intros HQ HR. assert (Hid : set_gov (governance l) (params l) l = l) by by destruct l.
  assert (H0 : extends active (l, j) (set_gov (governance l) (params l) l, j)) by (rewrite Hid; reflexivity).
  unfold apply_transaction. swp_step. destruct active.
  - unfold swp at 1. destruct genesis as [gen|]; [|rewrite <- Hid at 1; by apply HR].
    destruct (process_transaction _ _ _ _ _ _ _ _) as [g r].
    destruct r; [apply HQ|apply HR|apply HR]; apply extends_gov.
  - swp_step. rewrite <- Hid at 1. by apply HQ.
Qed.

(** A transaction that is in the history is refused. *)
Lemma repeated_refused n T tx l j :
  tx ∈ T -> sound_tx tx -> tracked n T l -> (is_coinbase tx = true -> n <= lock_time tx) ->
  swp (apply_transaction genesis bootstrap height timestamp modifier active tx)
    (fun _ _ => False) (extends active (l, j)) (l, j).
Proof.
  intros Ht [[(_ & _ & _ & Hleg & _ & Hin)%validate_transaction_Ok _] _] [_ T2 T3 T4 _] Hc.
  apply apply_transaction_gov; [|done]. intros g He. unfold apply_transaction_journaled, swp.
  assert (Hcb : is_coinbase tx = false).
  { destruct (is_coinbase tx) eqn:E; [|done]. specialize (T4 tx Ht E). specialize (Hc eq_refl). lia. }
  pose proof (apply_body_stuck tx (l, j) (mkFrame (set_gov g (params l) l) j 0 None) He Hcb) as Hs. unfold swp in Hs.
  destruct (apply_body _ _ _ _ _ _ _) as [s' r].
  assert (match r with Ok _ => False | _ => fext active (l, j) s' end) as Hr; [|by destruct r].
  apply Hs. destruct (is_legacy_claim tx) eqn:El.
  - destruct (Hleg eq_refl) as (Hi & Ha & _). split; [done|]. destruct (claim_address tx) as [a|] eqn:Ea; [|done].
    exists a. split; [done|]. exact (T3 tx a Ht El Ea).
  - destruct (Hin eq_refl Hcb) as [Hne _]. destruct (inputs tx) as [|i rest] eqn:Ei; [done|].
    exists i, rest. split; [done|]. apply (T2 tx i Ht Hcb). rewrite Ei. left.
Qed.

Lemma apply_transaction_tracked U n n' T tx l j :
  txids_distinct U -> (forall x, x ∈ T -> U x) -> U tx -> sound_tx tx -> tracked n T l -> n <= n' ->
  (is_coinbase tx = true -> n <= lock_time tx < n') ->
  swp (apply_transaction genesis bootstrap height timestamp modifier active tx)
    (fun _ s' => extends active (l, j) s' /\ tracked n' (T ++ [tx]) s'.1 /\ (mid_inv (l, j) -> mid_inv s') /\
       (txid tx ∉ map txid T) /\ keys_from (utxo_set l) (changes j) (fun k => k.1 = txid tx) s')
    (extends active (l, j)) (l, j).
Proof.
  intros HU HT Hu Hs Htr Hn Hc. destruct (decide (txid tx ∈ map txid T)) as [Hin|Hout].
  - apply list_elem_of_fmap in Hin as (tx' & E & Hin). apply HU in E as ->; [|done|by apply HT].
    eapply swp_mono; [eapply repeated_refused; [exact Hin|done|exact Htr|]|by intros ? ? []|done].
    intros E. by apply Hc.
  - assert (Hf : fresh_tx (utxo_set l) tx).
    { split; [|apply Hs]. intros i. apply eq_None_not_Some. intros Hk. apply Hout. exact (tr_keys _ _ _ Htr _ Hk). }
    pose proof (apply_transaction_ext genesis bootstrap height timestamp modifier active tx (l, j)
      (utxo_set l) (changes j) [] (l, j) ltac:(reflexivity) ltac:(apply keys_from_start) Hf ltac:(by apply not_elem_of_nil)) as Hx.
    unfold swp in Hx |- *.
    destruct (apply_transaction _ _ _ _ _ _ tx (l, j)) as [[l' j'] r] eqn:E. destruct r as [[]| |]; [|done..].
    destruct Hx as [Hx Hk]. split_and!; [done| |intros M; eapply apply_transaction_inv; [apply Hs|apply Hf|apply Hs|exact E|done]|done|
      eapply keys_from_mono; [exact Hk|by intros k ?%list_elem_of_singleton]].
    unfold apply_transaction in E. apply sbind_Ok in E as ([] & [l1 j1] & E1 & E2).
    assert (utxo_set l1 = utxo_set l /\ claimed_addresses l1 = claimed_addresses l) as [U1 C1].
    { destruct active; [|by injection E1 as <- <- ]. destruct genesis; [|done].
      destruct (process_transaction _ _ _ _ _ _ _ _) as [g r]. revert E1. by intros [= <- <- ->]. }
    apply apply_journaled_spec in E2 as [us A]; [|apply valid_tx_bounds, Hs].
    eapply applied_tracked; [exact A| |done|exact Hn|intros Ec; by apply Hc].
    destruct Htr as [T1 T2 T3 T4 T5]. split; rewrite ?U1, ?C1; done.
Qed.

(** The effect of applying [txs] on top of a tracked state. *)
Definition tracked_run (n : Z) (T txs : list Transaction) (s : Ledger * BlockJournal) : Prop :=
  swp (sfor (apply_transaction genesis bootstrap height timestamp modifier active) txs)
    (fun _ s' => extends active s s' /\ tracked n (T ++ txs) s'.1 /\ (mid_inv s -> mid_inv s') /\
       keys_from (utxo_set s.1) (changes s.2) (fun k => k.1 ∉ map txid T) s')
    (extends active s) s.

Lemma tracked_run_cons U n n' T tx txs s :
  txids_distinct U -> (forall x, x ∈ T -> U x) -> U tx -> sound_tx tx -> tracked n T s.1 -> n <= n' ->
  (is_coinbase tx = true -> n <= lock_time tx < n') ->
  (forall s', tracked n' (T ++ [tx]) s'.1 -> tracked_run n' (T ++ [tx]) txs s') ->
  tracked_run n' T (tx :: txs) s.
Proof.
  intros HU HT Hu Hs Htr Hn Hc IH. destruct s as [l j]. unfold tracked_run. cbn [sfor]. swp_step.
  eapply swp_mono; [by eapply (apply_transaction_tracked U n n')| |done]. intros _ s' (E1 & Tr1 & M1 & F1 & K1).
  eapply swp_mono; [by apply IH| |].
  - intros _ s2 (E2 & Tr2 & M2 & K2). rewrite <- app_assoc in Tr2. split_and!; [by etransitivity|done|auto|].
    eapply keys_from_mono; [eapply keys_from_trans; [exact K1|exact K2|]|]; intros k; rewrite map_app, not_elem_of_app; simpl;
      rewrite list_elem_of_singleton.
    + intros [Hk1 Hk2]. split; [|done]. apply eq_None_not_Some. intros Hk. apply Hk1. exact (tr_keys _ _ _ Htr _ Hk).
    + intros [->|[? _]]; done.
  - intros s2 E2. by etransitivity.
Qed.

Lemma rest_tracked U n txs : forall T s,
  txids_distinct U -> (forall x, x ∈ T -> U x) -> (forall x, x ∈ txs -> U x) -> Forall sound_tx txs ->
  Forall (fun tx => is_coinbase tx = false) txs -> tracked n T s.1 -> tracked_run n T txs s.
Proof.
  induction txs as [|tx txs IH]; intros T s HU HT Hu Hs Hc Htr.
  { unfold tracked_run. cbn [sfor]. swp_step. rewrite app_nil_r. destruct s. split_and!; [reflexivity|done|done|apply keys_from_start]. }
  apply Forall_cons in Hs as [Hs Hs'], Hc as [Hc Hc'].
  apply (tracked_run_cons U n n); [done|done|apply Hu; left|done|done|lia|congruence|].
  intros s' Htr'. apply IH; [done| |intros x Hx; apply Hu; by right|done|done|done].
  intros x [Hx|Hx]%elem_of_app; [by apply HT|]. apply list_elem_of_singleton in Hx as ->. apply Hu. left.
Qed.

(** The transactions of a block at [height]: the first may be a coinbase of that height. *)
Definition sound_block_txs (txs : list Transaction) : Prop :=
  Forall sound_tx txs /\
  match txs with
  | [] => False
  | tx :: rest => (is_coinbase tx = true -> lock_time tx = height) /\ Forall (fun tx => is_coinbase tx = false) rest
  end.

Lemma block_tracked U T txs s :
  txids_distinct U -> (forall x, x ∈ T -> U x) -> (forall x, x ∈ txs -> U x) -> sound_block_txs txs ->
  tracked height T s.1 -> tracked_run (height + 1) T txs s.
Proof.
  intros HU HT Hu [Hs Hb] Htr. destruct txs as [|tx rest]; [done|]. destruct Hb as [Hf Hr].
  apply Forall_cons in Hs as [Hs Hs'].
  apply (tracked_run_cons U height (height + 1)); [done|done|apply Hu; left|done|done|lia| |].
  { intros E. rewrite (Hf E). lia. }
  intros s' Htr'. apply (rest_tracked U); [done| |intros x Hx; apply Hu; by right|done|done|done].
  intros x [Hx|Hx]%elem_of_app; [by apply HT|]. apply list_elem_of_singleton in Hx as ->. apply Hu. left.
Qed.

(** ** A block on top of a history *)

Lemma apply_block_tracked U T block_hash txs tree l :
  txids_distinct U -> (forall x, x ∈ T -> U x) -> (forall x, x ∈ txs -> U x) -> sound_block_txs txs ->
  tracked height T l ->
  match apply_block_journaled genesis bootstrap height timestamp modifier active block_hash txs tree l with
  | (l', _, Ok j) => rollback_journal j l' = Ok l /\ tracked (height + 1) (T ++ txs) l' /\
      (ledger_inv l -> ledger_inv l') /\ j_block_hash j = block_hash /\ j_height j = height /\
      journaled (utxo_set l) (changes j) (utxo_set l') /\
      claimed_addresses l' = list_to_set (j_claimed j) ∪ claimed_addresses l
  | (l', _, Err _) => l' = l
  | (_, _, Panic) => True
  end.
Proof.
  intros HU HT Hu Hs Htr.
  assert (Hrun : forall l1 j1, utxo_set l1 = utxo_set l -> claimed_addresses l1 = claimed_addresses l ->
    tracked_run (height + 1) T txs (l1, j1)).
  { intros l1 j1 U1 C1. apply (block_tracked U); [done..|]. destruct Htr as [T1 T2 T3 T4 T5].
    split; simpl; rewrite ?U1, ?C1; done. }
  pose proof (apply_block_exact genesis bootstrap height timestamp modifier active block_hash txs tree l) as He.
  destruct (apply_block_journaled _ _ _ _ _ _ _ _ _ _) as [[l' tree'] r] eqn:E.
  assert (Hloop : loop_ok genesis bootstrap height timestamp modifier active txs l).
  { intros l1 j1 U1 C1. eapply swp_mono; [by apply (Hrun l1 j1)| |done]. by intros _ s' [? _]. }
  specialize (He Hloop). destruct r as [j| |]; [|done..]. split; [done|]. clear He Hloop.
  apply apply_block_Ok in E as (l1 & l2 & j2 & E1 & E2 & E3 & Eh & En & Ec & Ed).
  pose proof (begin_governance_block_frame height timestamp active (l, new_journal l block_hash height)) as Hfr.
  rewrite E1 in Hfr. destruct Hfr as (U1 & C1 & _ & _). simpl in U1, C1.
  specialize (Hrun l1 (new_journal l block_hash height) U1 C1). unfold tracked_run, swp in Hrun. rewrite E2 in Hrun.
  destruct Hrun as (X2 & Tr2 & M2 & cs & K1 & K2 & _). simpl in K1, K2. pose proof (ext_fixed _ _ _ X2) as X3. simpl in X3.
  assert (L : utxo_set l' = utxo_set l2 /\ claimed_addresses l' = claimed_addresses l2).
  { unfold commit_totals in E3. destruct (_ <? _); [done|]. by injection E3 as <-. }
  split_and!; [| |by rewrite Eh; apply X3|by rewrite En; apply X3| |].
  - unfold commit_totals in E3. destruct (_ <? _); [done|]. injection E3 as <-. by destruct Tr2.
  - intros Hl. eapply commit_totals_inv; [|exact E3]. apply M2. by eapply begin_mid_inv.
  - rewrite (proj1 L), Ec, K1, <- U1. exact K2.
  - destruct (ext_claims _ _ _ X2) as (cl & D1 & _ & D3). simpl in D1, D3. by rewrite (proj2 L), Ed, D1, <- C1.
Qed.

End history.
