(* ===== verification/Chain.v ===== *)
(** * The chain: accepting blocks and reorganizing

    Models [vtorrent-node/src/chain.rs] and the rest of
    [vtorrent-node/src/chain/chain_reorg.rs].  The fields of [struct Chain] are in four
    groups: [Known] holds what is kept of every known block, [Main] the state of the
    active chain (with the [Ledger]), [Config] the settings, and [utxo_tree] the reused
    buffers of the commitment.  [utxo_leaves] is cleared before each use and has no
    field.  Log messages are left out.

    The iteration order of a [HashMap] is a parameter ([KeyOrder]); [now] stands for
    [now_timestamp_u32()].  A loop that would not end is [Panic] when its fuel runs out. *)

From stdpp Require Import base list gmap sorting strings.
From Stdlib Require Import ZArith Lia.
From S2P Require Import Prelude Script Crypto Engine Standard Merkle Codec Block Address Consensus.
From S2P Require Import Deployments Governance Ledger.
Import Scripts.

(** ** Data *)

Definition MAX_FORK_BODIES : Z := 256.

(** [usize::MAX]. *)
Definition usize_max : Z := 18446744073709551615.

Definition zero_hash : bytes := repeat 0 32.

Record RolledBackBlock : Type := mkRolledBack {
  rb_hash : bytes;
  rb_height : Z;
  utxos_to_remove : list OutPoint;
  utxos_to_restore : list Utxo;
  claimed_to_remove : list bytes;
}.

Record AppliedForkBlock : Type := mkAppliedFork {
  af_block : Block;
  af_height : Z;
  af_utxos_added : list Utxo;
  af_utxos_removed : list OutPoint;
  af_claimed : list bytes;
}.

Inductive BlockAcceptance : Type :=
  | MainChain (height : Z) (utxos_added : list Utxo) (utxos_removed : list OutPoint)
      (claimed : list bytes)
  | Reorg (old_tip new_tip : bytes) (depth : Z) (rolled_back_txs : list Transaction)
      (rolled_back_blocks : list RolledBackBlock) (applied_fork_blocks : list AppliedForkBlock)
  | Fork (fork_tip : bytes)
  | Duplicate.

(** [impl PartialEq for BlockAcceptance]. *)
Definition acceptance_eq (a b : BlockAcceptance) : bool :=
  match a, b with
  | MainChain h1 _ _ _, MainChain h2 _ _ _ => h1 =? h2
  | Reorg o1 n1 d1 _ _ _, Reorg o2 n2 d2 _ _ _ => bytes_eqb o1 o2 && bytes_eqb n1 n2 && (d1 =? d2)
  | Fork f1, Fork f2 => bytes_eqb f1 f2
  | Duplicate, Duplicate => true
  | _, _ => false
  end.

(** What is known of every block, on the active chain or not. *)
Record Known : Type := mkKnown {
  blocks : gmap bytes Block;
  headers : gmap bytes BlockHeader;
  cumulative_work : gmap bytes Z;
  parent_map : gmap bytes bytes;
  block_heights : gmap bytes Z;
}.

(** The active chain. *)
Record Main : Type := mkMain {
  state : Ledger;
  height_index : list bytes;
  tx_index : gmap bytes (bytes * nat);
  journals : list BlockJournal;
}.

(** [trait BlockBodySource]. *)
Record BlockBodySource : Type := mkSource {
  block_body : bytes -> option Block;
  block_body_at_height : Z -> option Block;
}.

Record Config : Type := mkConfig {
  block_body_cache : Z;
  body_source : option BlockBodySource;
  max_reorg_depth : Z;
  allow_pow_test_blocks : bool;
  governance_test_activation : option Z;
  governance_test_deployment : option (Deployment * Z);
}.

Record Chain : Type := mkChain {
  known : Known;
  main : Main;
  utxo_tree : MerkleTree;
  config : Config;
}.

Definition set_known (f : Known -> Known) (c : Chain) : Chain :=
  mkChain (f (known c)) (main c) (utxo_tree c) (config c).
Definition set_main (f : Main -> Main) (c : Chain) : Chain :=
  mkChain (known c) (f (main c)) (utxo_tree c) (config c).
Definition set_config (f : Config -> Config) (c : Chain) : Chain :=
  mkChain (known c) (main c) (utxo_tree c) (f (config c)).
Definition set_ledger (l : Ledger) (tree : MerkleTree) (c : Chain) : Chain :=
  mkChain (known c)
    (mkMain l (height_index (main c)) (tx_index (main c)) (journals (main c))) tree (config c).

(** [Chain::set_block_body_cache], [set_body_source], [set_max_reorg_depth],
    [set_governance_test_activation] and [set_governance_test_deployment]. *)
Definition set_block_body_cache (cache : Z) : Chain -> Chain :=
  set_config (fun f => mkConfig cache (body_source f) (max_reorg_depth f) (allow_pow_test_blocks f)
                (governance_test_activation f) (governance_test_deployment f)).
Definition set_body_source (source : BlockBodySource) : Chain -> Chain :=
  set_config (fun f => mkConfig (block_body_cache f) (Some source) (max_reorg_depth f) (allow_pow_test_blocks f)
                (governance_test_activation f) (governance_test_deployment f)).
Definition set_max_reorg_depth (depth : Z) : Chain -> Chain :=
  set_config (fun f => mkConfig (block_body_cache f) (body_source f) depth (allow_pow_test_blocks f)
                (governance_test_activation f) (governance_test_deployment f)).
Definition set_governance_test_activation (height : Z) : Chain -> Chain :=
  set_config (fun f => mkConfig (block_body_cache f) (body_source f) (max_reorg_depth f) (allow_pow_test_blocks f)
                (Some height) (governance_test_deployment f)).
Definition set_governance_test_deployment (deployment : Deployment) (period : Z) : Chain -> Chain :=
  set_config (fun f => mkConfig (block_body_cache f) (body_source f) (max_reorg_depth f) (allow_pow_test_blocks f)
                (governance_test_activation f) (Some (deployment, period))).

(** ** Reading the chain *)

Section reading.
Context {C : Crypto} {B : Bincode}.

(** [Chain::best_height], [Chain::best_hash]. *)
Definition best_height (c : Chain) : Z := as_u32 (sat_sub (zlen (height_index (main c))) 1).
Definition best_hash (c : Chain) : option bytes := vec_last (height_index (main c)).

Definition block_hash_at_height (c : Chain) (h : Z) : option bytes := vec_at (height_index (main c)) h.
Definition get_block (c : Chain) (hash : bytes) : option Block := blocks (known c) !! hash.
Definition get_block_at_height (c : Chain) (h : Z) : option Block :=
  vec_at (height_index (main c)) h ≫= fun hash => blocks (known c) !! hash.
Definition get_header (c : Chain) (hash : bytes) : option BlockHeader := headers (known c) !! hash.
Definition get_header_at_height (c : Chain) (h : Z) : option BlockHeader :=
  vec_at (height_index (main c)) h ≫= fun hash => headers (known c) !! hash.
Definition utxo_root_at_height (c : Chain) (h : Z) : option bytes :=
  utxo_root <$> get_header_at_height c h.
Definition current_utxo_root (c : Chain) : option bytes :=
  utxo_root <$> get_header_at_height c (best_height c).
Definition block_height (c : Chain) (hash : bytes) : option Z := block_heights (known c) !! hash.

(** [Chain::get_block_owned], [Chain::get_block_at_height_owned]. *)
Definition get_block_owned (c : Chain) (hash : bytes) : option Block :=
  match blocks (known c) !! hash with
  | Some b => Some b
  | None => body_source (config c) ≫= fun s => block_body s hash
  end.
Definition get_block_at_height_owned (c : Chain) (h : Z) : option Block :=
  match get_block_at_height c h with
  | Some b => Some b
  | None => body_source (config c) ≫= fun s => block_body_at_height s h
  end.

(** [Chain::get_transaction], [Chain::get_transaction_owned]. *)
Definition get_transaction (c : Chain) (id : bytes) : option (Transaction * bytes * Z) :=
  tx_index (main c) !! id ≫= fun '(hash, offset) =>
  block_height c hash ≫= fun h =>
  blocks (known c) !! hash ≫= fun b =>
  transactions b !! offset ≫= fun tx => Some (tx, hash, h).
Definition get_transaction_owned (c : Chain) (id : bytes) : option (Transaction * bytes * Z) :=
  tx_index (main c) !! id ≫= fun '(hash, offset) =>
  block_height c hash ≫= fun h =>
  get_block_owned c hash ≫= fun b =>
  transactions b !! offset ≫= fun tx => Some (tx, hash, h).

(** [version >> bit]: panics for a shift of the whole width. *)
Definition shr_u32 {E} (v bit : Z) : res E Z := if bit <? 32 then Ok (Z.shiftr v bit) else Panic.

(** [counts[i] += 1]. *)
Definition count_one {E} (counts : list Z) (i : Z) : res E (list Z) :=
  let* n := vec_get counts i in
  let* n := padd u32_max n 1 in
  Ok (<[Z.to_nat i := n]> counts).

(** [Chain::count_signals]. *)
Definition count_signals (c : Chain) (bit period : Z) : res NodeError (list Z) :=
  if period =? 0 then Ok [] else
  let tip := best_height c in
  rfold (fun counts h =>
      match get_header_at_height c h with
      | Some hd =>
          let* v := shr_u32 (version hd) bit in
          if Z.land v 1 =? 1 then count_one counts (h / period) else Ok counts
      | None => Ok counts
      end)
    (repeat 0 (Z.to_nat (tip / period + 1))) (seqZ 0 (tip + 1)).

(** [Chain::governance_deployment_config]. *)
Definition governance_deployment_config (c : Chain) : option Deployment * Z :=
  match governance_test_deployment (config c) with
  | Some (d, period) => (Some d, period)
  | None => (governance_deployment, DEFAULT_PERIOD)
  end.

(** [Chain::governance_active]. *)
Definition governance_active (c : Chain) (height : Z) : res NodeError bool :=
  match governance_test_activation (config c) with
  | Some activation => Ok (activation <=? height)
  | None =>
      match governance_deployment_config c with
      | (None, _) => Ok false
      | (Some d, period) =>
          let* signals := count_signals c (bit d) period in
          Ok (bool_decide (deployment_state d period DEFAULT_THRESHOLD_PCT height signals = Active))
      end
  end.

(** [Chain::next_block_params]. *)
Definition next_block_params (c : Chain) (timestamp : Z) : res NodeError ConsensusParams :=
  let l := state (main c) in
  let* next := padd u32_max (best_height c) 1 in
  let* active := governance_active c next in
  if active then
    let* (_, params) := begin_block next (utxo_set l) timestamp (governance l) (params l) in Ok params
  else Ok (params l).

(** [Chain::is_vote_locked]. *)
Definition is_vote_locked (c : Chain) (txid : bytes) (vout height : Z) : res NodeError bool :=
  let* active := governance_active c height in
  Ok (active && is_utxo_locked (governance (state (main c))) txid vout height).

(** [Chain::verify_utxo_commitment]. *)
Definition verify_utxo_commitment : st Chain NodeError (option bool) := fun c =>
  match current_utxo_root c with
  | None => (c, Ok None)
  | Some tip_root =>
      match recompute_utxo_root (utxo_tree c) (utxo_set (state (main c))) with
      | Ok (tree, root) => (set_ledger (state (main c)) tree c, Ok (Some (bytes_eqb tip_root root)))
      | Err e => (c, Err e)
      | Panic => (c, Panic)
      end
  end.

(** [Chain::get_utxo]. *)
Definition get_utxo (c : Chain) (txid : bytes) (vout : Z) : option Utxo :=
  utxo_set (state (main c)) !! ((txid, vout) : OutPoint).

(** [Chain::coinstake_reward]; the sum panics when it overflows. *)
Definition coinstake_reward (c : Chain) (tx : Transaction) : res NodeError (option Z) :=
  if negb (is_coinstake tx) then Ok None else
  let* total_output := psum (map value (outputs tx)) in
  Ok (inputs tx !! 0%nat ≫= fun input =>
      get_transaction c (prev_txid input) ≫= fun '(parent, _, _) =>
      vec_at (outputs parent) (prev_vout input) ≫= fun staked =>
      checked_sub total_output (value staked)).

(** [Chain::compute_tx_fee]. *)
Definition compute_tx_fee (c : Chain) (tx : Transaction) : option Z :=
  if is_coinbase tx || is_coinstake tx || is_legacy_claim tx then Some 0 else
  foldl (fun acc input =>
      acc ≫= fun total =>
      utxo_set (state (main c)) !! ((prev_txid input, prev_vout input) : OutPoint) ≫= fun u =>
      Some (sat_add u64_max total (utxo_value u))) (Some 0) (inputs tx) ≫= fun total_input =>
  checked_sub total_input (total_output tx).

(** [Chain::address_to_p2pkh_script]. *)
Definition address_to_p2pkh_script (address : bytes) : bytes :=
  match Address.parse address with Ok a => p2pkh_script_pubkey a | _ => [] end.

(** [utxo_set.values()]. *)
Definition utxo_values (c : Chain) : list Utxo :=
  map snd (in_order outpoint_leb (utxo_set (state (main c)))).

(** [Chain::get_utxos_for_script], [Chain::get_utxos_for_address]. *)
Definition get_utxos_for_script (c : Chain) (script : bytes) : list Utxo :=
  List.filter (fun u => bytes_eqb (utxo_script u) script) (utxo_values c).
Definition get_utxos_for_address (c : Chain) (address : bytes) : list Utxo :=
  let script := address_to_p2pkh_script address in
  List.filter (fun u => bytes_eqb (utxo_script u) script) (utxo_values c).

(** [Chain::get_utxos_for_staking_address]. *)
Definition get_utxos_for_staking_address (c : Chain) (address : bytes) : list Utxo :=
  let script := address_to_p2pkh_script address in
  let staking_hash := if zlen script <? 23 then None else Some (slice 3 23 script) in
  List.filter (fun u =>
      bytes_eqb (utxo_script u) script ||
      match staking_hash, from_bytes (utxo_script u) with
      | Some sh, Ok s => match classify_script s with P2CS hash _ _ => bytes_eqb hash sh | _ => false end
      | _, _ => false
      end) (utxo_values c).

(** [Chain::genesis_block]. *)
Definition genesis_block (c : Chain) : res NodeError Block :=
  let* hash := vec_get (height_index (main c)) 0 in unwrap (blocks (known c) !! hash).

(** [Chain::is_claimed]. *)
Definition is_claimed (c : Chain) (address : bytes) : bool :=
  bool_decide (address ∈ claimed_addresses (state (main c))).

(** [Chain::resolve_output], [Chain::resolve_output_value], [Chain::tx_fee]. *)
Definition resolve_output (c : Chain) (id : bytes) (vout : Z) : option TxOutput :=
  tx_index (main c) !! id ≫= fun '(hash, offset) =>
  blocks (known c) !! hash ≫= fun b =>
  transactions b !! offset ≫= fun tx => vec_at (outputs tx) vout.
Definition resolve_output_value (c : Chain) (id : bytes) (vout : Z) : option Z :=
  value <$> resolve_output c id vout.
Definition tx_fee (c : Chain) (tx : Transaction) (total_out : Z) : res NodeError Z :=
  if is_coinbase tx || is_legacy_claim tx then Ok 0 else
  let* input_sum := psum (omap (fun i => resolve_output_value c (prev_txid i) (prev_vout i)) (inputs tx)) in
  Ok (sat_sub input_sum total_out).

End reading.

Section verify_scripts.
Context {C : Crypto} {B : Bincode} {H : Hex} {N : Snapshot}.

(** [Chain::verify_tx_scripts]: the checks of mempool admission. *)
Definition verify_script (l : Ledger) (height timestamp : Z) (tx : Transaction) (e : nat * TxInput)
    : res NodeError unit :=
  let '(input_index, input) := e in
  let* utxo := ok_or (utxo_set l !! ((prev_txid input, prev_vout input) : OutPoint))
                 (InvalidTransaction "input not in UTXO set") in
  let env := mkEnv (sighash tx input_index (utxo_script utxo)) height timestamp (lock_time tx)
               (sequence input) (utxo_height utxo) (utxo_timestamp utxo) in
  let* sig := map_err (fun _ => InvalidTransaction "Invalid scriptSig") (from_bytes (script_sig input)) in
  let* pubkey := map_err (fun _ => InvalidTransaction "Invalid scriptPubkey") (from_bytes (utxo_script utxo)) in
  let* _ := map_err (fun _ => InvalidTransaction "Script verification failed")
              (execute (Engine.new env) sig pubkey) in
  Ok tt.

Definition verify_tx_scripts (c : Chain) (tx : Transaction) (height timestamp : Z) : res NodeError unit :=
  let l := state (main c) in
  if is_legacy_claim tx then
    let* address := ok_or (claim_address tx) (InvalidClaim "Legacy claim is missing its address") in
    if bool_decide (address ∈ claimed_addresses l) then Err (ClaimAlreadyProcessed address) else
    validate_legacy_claim tx (get_legacy_balance address)
  else if is_coinbase tx || is_coinstake tx then Ok tt
  else rfold (fun _ e => verify_script l height timestamp tx e) tt (imap pair (inputs tx)).

End verify_scripts.

(** ** Bookkeeping *)

(** [HashMap::keys]: the keys of [blocks] in the order the map iterates. *)
Class KeyOrder : Type := key_order : gmap bytes Block -> list bytes.
Class KeyOrderLaws (K : KeyOrder) : Prop :=
  key_order_keys : forall m, key_order m ≡ₚ (map_to_list m).*1.

(** [Iterator::min_by_key]: the first of the least. *)
Fixpoint min_by_key {A} (key : A -> Z) (l : list A) : option A :=
  match l with
  | [] => None
  | x :: l =>
      match min_by_key key l with
      | None => Some x
      | Some y => if key x <=? key y then Some x else Some y
      end
  end.

Section bookkeeping.
Context {C : Crypto} {B : Bincode} {K : KeyOrder}.

Definition forget_block (hash : bytes) (k : Known) : Known :=
  mkKnown (delete hash (blocks k)) (delete hash (headers k)) (delete hash (cumulative_work k))
    (delete hash (parent_map k)) (delete hash (block_heights k)).

(** [index_block_transactions], [remove_block_transactions]. *)
Definition index_block_transactions (hash : bytes) (block : Block) (m : Main) : Main :=
  mkMain (state m) (height_index m)
    (foldl (fun idx '(offset, tx) => <[txid tx := (hash, offset)]> idx) (tx_index m)
       (imap pair (transactions block))) (journals m).
Definition block_txs (k : Known) (hash : bytes) : list Transaction :=
  match blocks k !! hash with Some b => transactions b | None => [] end.
Definition remove_block_transactions (k : Known) (hash : bytes) (m : Main) : Main :=
  mkMain (state m) (height_index m)
    (foldl (fun idx id => delete id idx) (tx_index m) (map txid (block_txs k hash))) (journals m).

(** [Chain::retained_main_bodies]. *)
Definition retained_main_bodies (c : Chain) : Z :=
  let len := zlen (height_index (main c)) in
  if block_body_cache (config c) =? usize_max then len
  else Z.min len (Z.max (block_body_cache (config c)) 2).

(** The leaf [prune_fork_bodies] evicts next. *)
Definition fork_victim (c : Chain) : option bytes :=
  let k := known c in
  let has_child := (map_to_list (parent_map k)).*2 in
  min_by_key (fun hash => match cumulative_work k !! hash with Some w => w | None => u64_max end)
    (List.filter (fun hash => negb (bool_decide (hash ∈ height_index (main c))) &&
                              negb (bool_decide (hash ∈ has_child))) (key_order (blocks k))).

(** The [while] loop of [prune_fork_bodies]; each round removes a body. *)
Fixpoint prune_loop (fuel : nat) (bound : Z) (c : Chain) : Chain :=
  match fuel with
  | O => c
  | S fuel =>
      if Z.of_nat (size (blocks (known c))) <=? bound then c else
      match fork_victim c with
      | Some hash => prune_loop fuel bound (set_known (forget_block hash) c)
      | None => c
      end
  end.

Definition prune_fork_bodies (c : Chain) : Chain :=
  prune_loop (size (blocks (known c))) (retained_main_bodies c + MAX_FORK_BODIES) c.

(** [Chain::prune_bodies]. *)
Definition prune_main_body (c : Chain) : Chain :=
  let cache := block_body_cache (config c) in
  let len := zlen (height_index (main c)) in
  if (cache =? usize_max) || (len <=? cache) then c else
  let victim_height := as_u32 (len - 1 - cache) in
  if victim_height <? 2 then c else
  match vec_at (height_index (main c)) victim_height with
  | Some hash =>
      if existsb (fun j => bytes_eqb (j_block_hash j) hash) (journals (main c)) then c
      else set_known (fun k => mkKnown (delete hash (blocks k)) (headers k) (cumulative_work k)
                                 (parent_map k) (block_heights k)) c
  | None => c
  end.
Definition prune_bodies (c : Chain) : Chain := prune_fork_bodies (prune_main_body c).

(** The changes of a block for the store, on the path that extends the chain. *)
Definition utxo_diff (utxos : gmap OutPoint Utxo) (cs : list UtxoChange) : list Utxo * list OutPoint :=
  foldl (fun '(added, removed) change =>
      match change with
      | Added key => (match utxos !! key with Some u => added ++ [u] | None => added end, removed)
      | Removed key _ => (added, removed ++ [key])
      end) ([], []) cs.

(** The same in [reorganize_to_inner]. *)
Definition fork_diff (utxos : gmap OutPoint Utxo) (cs : list UtxoChange) : list Utxo * list OutPoint :=
  foldl (fun '(added, removed) change =>
      match change with
      | Added key =>
          (match utxos !! key with Some u => added ++ [u] | None => added end,
           List.filter (fun k => negb (bool_decide (k = key))) removed)
      | Removed key _ => (added, removed ++ [key])
      end) ([], []) cs.

(** What every block that becomes known is filed under. *)
Definition learn_index (hash parent : bytes) (height work : Z) (k : Known) : Known :=
  mkKnown (blocks k) (headers k) (<[hash := work]> (cumulative_work k))
    (<[hash := parent]> (parent_map k)) (<[hash := height]> (block_heights k)).
Definition learn_block (hash : bytes) (block : Block) (k : Known) : Known :=
  mkKnown (<[hash := block]> (blocks k)) (<[hash := header block]> (headers k))
    (cumulative_work k) (parent_map k) (block_heights k).

End bookkeeping.

(** ** Rolling back and reorganizing *)

Section reorganizing.
Context {C : Crypto} {B : Bincode} {H : Hex} {N : Snapshot} {K : KeyOrder}.

(** [Chain::apply_block_journaled] with what it reads of the chain. *)
Definition apply_block (block : Block) (height : Z) : st Chain NodeError BlockJournal := fun c =>
  match governance_active c height with
  | Ok active =>
      match
        (if height =? 0 then Ok 0 else
         ok_or (stake_modifier <$> headers (known c) !! prev_block_hash (header block))
           (ChainError "Parent block not found for stake modifier"))
      with
      | Ok modifier =>
          let bootstrap :=
            match get_block_at_height c 1 ≫= fun b => head (transactions b) with
            | Some tx => is_legacy_claim tx
            | None => false
            end in
          let '(l, tree, r) :=
            apply_block_journaled (head (height_index (main c))) bootstrap height
              (timestamp (header block)) modifier active (block_hash block) (transactions block)
              (utxo_tree c) (state (main c)) in
          (set_ledger l tree c, r)
      | Err e => (c, Err e)
      | Panic => (c, Panic)
      end
  | Err e => (c, Err e)
  | Panic => (c, Panic)
  end.

(** [ancestors]: from [tip] back to the genesis block. *)
Fixpoint ancestors_loop (fuel : nat) (genesis : bytes) (parents : gmap bytes bytes) (tip : bytes)
    : res NodeError (list bytes) :=
  match fuel with
  | O => Panic
  | S fuel =>
      if bytes_eqb tip genesis then Ok [tip] else
      match parents !! tip with
      | Some parent => let* path := ancestors_loop fuel genesis parents parent in Ok (tip :: path)
      | None => Ok [tip]
      end
  end.

Definition ancestors (c : Chain) (tip : bytes) : res NodeError (list bytes) :=
  let* genesis := vec_get (height_index (main c)) 0 in
  ancestors_loop (S (size (parent_map (known c)))) genesis (parent_map (known c)) tip.

(** The changes and claims of [rollback_one_block]. *)
Definition undo_block (j : BlockJournal) (l : Ledger) : Ledger :=
  set_claimed (foldl (fun s a => s ∖ {[a]}) (claimed_addresses l) (j_claimed j))
    (set_utxos (foldl undo_change (utxo_set l) (rev (changes j))) l).

(** [rollback_one_block]. *)
Definition rollback_one_block : st Chain NodeError (list Transaction * RolledBackBlock) :=
  do* (journal, rest) := fun c =>
    match vec_pop (journals (main c)) with
    | Some (journal, rest) => (c, Ok (journal, rest))
    | None => (c, Err (ChainError "No journal to roll back"))
    end in
  do* _ := smod (set_main (fun m => mkMain (state m) (height_index m) (tx_index m) rest)) in
  do* rolled_back_txs := sget (fun c => block_txs (known c) (j_block_hash journal)) in
  let touched := set_list (list_to_set (map change_key (changes journal))) in
  do* _ := smod (set_main (fun m => mkMain (undo_block journal (state m)) (height_index m) (tx_index m) (journals m))) in
  do* utxos := sget (fun c => utxo_set (state (main c))) in
  let utxos_to_restore := omap (fun key => utxos !! key) touched in
  let utxos_to_remove := List.filter (fun key => bool_decide (utxos !! key = None)) touched in
  do* g := fun c =>
    (c, match previous_governance journal with
        | Some undo => restore_undo undo (governance (state (main c)))
        | None => Ok (governance (state (main c)))
        end) in
  do* _ := smod (set_main (fun m =>
      mkMain (set_gov g (previous_params journal)
                (set_totals (previous_supply journal) (previous_staked journal) (state m)))
        (height_index m) (tx_index m) (journals m))) in
  do* _ := smod (fun c => set_main (remove_block_transactions (known c) (j_block_hash journal)) c) in
  do* _ := smod (set_main (fun m =>
      mkMain (state m) (match vec_pop (height_index m) with Some (_, hs) => hs | None => [] end)
        (tx_index m) (journals m))) in
  sret (rolled_back_txs,
        mkRolledBack (j_block_hash journal) (j_height journal) utxos_to_remove utxos_to_restore (j_claimed journal)).

(** The rollback loop of [reorganize_to_inner]. *)
Fixpoint rollback_loop (fuel : nat) (fork_height : Z) (txs : list Transaction) (rbs : list RolledBackBlock)
    : st Chain NodeError (list Transaction * list RolledBackBlock) :=
  match fuel with
  | O => slift Panic
  | S fuel =>
      do* h := sget best_height in
      if h <=? fork_height then sret (txs, rbs) else
      do* (t, rb) := rollback_one_block in
      rollback_loop fuel fork_height (txs ++ t) (rbs ++ [rb])
  end.

(** The blocks above the fork point, newest first. *)
Fixpoint to_apply_loop (fuel : nat) (parents : gmap bytes bytes) (fork_point cursor : bytes)
    : res NodeError (list bytes) :=
  match fuel with
  | O => Panic
  | S fuel =>
      if bytes_eqb cursor fork_point then Ok [] else
      let* parent := ok_or (parents !! cursor) (ChainError "Missing parent during reorg apply") in
      let* rest := to_apply_loop fuel parents fork_point parent in
      Ok (cursor :: rest)
  end.

(** The check of a block's commitment against its journal. *)
Definition root_mismatch (block : Block) (journal : BlockJournal) : bool :=
  is_pos (header block) && negb (bytes_eqb (utxo_root (header block)) (j_utxo_root journal)).

(** One round of the loop that applies the fork. *)
Definition apply_fork_block (fork_height : Z) (e : nat * bytes) : st Chain NodeError AppliedForkBlock :=
  let '(i, hash) := e in
  do* height := slift (let* h := padd u32_max fork_height 1 in padd u32_max h (as_u32 (Z.of_nat i))) in
  do* c := sget id in
  do* block := slift (ok_or (blocks (known c) !! hash) (ChainError "Missing block during reorg")) in
  do* journal := apply_block block height in
  if root_mismatch block journal
  then serr (InvalidBlock "UTXO root does not match computed post-state root") else
  do* _ := smod (set_main (index_block_transactions hash block)) in
  do* utxos := sget (fun c => utxo_set (state (main c))) in
  let '(added, removed) := fork_diff utxos (changes journal) in
  do* _ := smod (set_main (fun m =>
      mkMain (state m) (height_index m ++ [hash]) (tx_index m) (journals m ++ [journal]))) in
  sret (mkAppliedFork block height added removed (j_claimed journal)).

Fixpoint apply_fork (fork_height : Z) (es : list (nat * bytes)) (acc : list AppliedForkBlock)
    : st Chain NodeError (list AppliedForkBlock) :=
  match es with
  | [] => sret acc
  | e :: es => do* a := apply_fork_block fork_height e in apply_fork fork_height es (acc ++ [a])
  end.

Definition ReorgResult : Type := list Transaction * list RolledBackBlock * list AppliedForkBlock.

(** The first block of [old_chain] that the new chain shares. *)
Definition find_fork_point (old_chain new_chain : list bytes) : bytes :=
  match List.find (fun hash => bool_decide (hash ∈ new_chain)) old_chain with
  | Some hash => hash
  | None => zero_hash
  end.

(** [reorganize_to_inner]. *)
Definition reorganize_to_inner (new_tip : bytes) (new_tip_height : Z) : st Chain NodeError ReorgResult :=
  do* c := sget id in
  let old_tip := match best_hash c with Some h => h | None => zero_hash end in
  do* new_chain := slift (ancestors c new_tip) in
  do* old_chain := slift (ancestors c old_tip) in
  let fork_point := find_fork_point old_chain new_chain in
  if bytes_eqb fork_point zero_hash
  then serr (ChainError "No common ancestor found during reorg") else
  do* fork_height := slift (ok_or (block_height c fork_point) (ChainError "Fork point not on main chain")) in
  let rollback_depth := sat_sub (best_height c) fork_height in
  if zlen (journals (main c)) <? rollback_depth
  then serr (ChainError "Reorg depth exceeds available rollback history") else
  do* (rolled_back_txs, rolled_back_blocks) :=
    rollback_loop (S (length (height_index (main c)))) fork_height [] [] in
  do* to_apply := slift (to_apply_loop (S (size (parent_map (known c)))) (parent_map (known c)) fork_point new_tip) in
  do* applied := apply_fork fork_height (imap pair (rev to_apply)) [] in
  do* c := sget id in
  if negb (bool_decide (best_hash c = Some new_tip)) || negb (best_height c =? new_tip_height)
  then serr (ChainError "reorg verification failed")
  else sret (rolled_back_txs, rolled_back_blocks, applied).

(** [reorganize_to]: the active chain is saved and put back after an error. *)
Definition reorganize_to (new_tip : bytes) (new_tip_height : Z) : st Chain NodeError ReorgResult := fun c =>
  let saved := main c in
  match reorganize_to_inner new_tip new_tip_height c with
  | (c', Err e) => (set_main (fun _ => saved) c', Err e)
  | res => res
  end.

End reorganizing.

(** ** Accepting a block *)

Section accepting.
Context {C : Crypto} {B : Bincode} {H : Hex} {N : Snapshot} {K : KeyOrder}.

(** [parent_work + 1]. *)
Definition next_work (k : Known) (parent : bytes) : res NodeError Z :=
  padd u64_max (match cumulative_work k !! parent with Some w => w | None => 0 end) 1.

(** The front of [journals] is dropped until [max_reorg_depth] are left. *)
Definition trim_journals (depth : Z) (js : list BlockJournal) : list BlockJournal :=
  drop (Z.to_nat (zlen js - depth)) js.

(** The first branch of [add_block]: the block extends the active chain. *)
Definition extend_main (now : Z) (block : Block) (hash prev_hash : bytes) : st Chain NodeError BlockAcceptance :=
  do* c := sget id in
  do* height := slift (padd u32_max (best_height c) 1) in
  do* prev_header := slift (ok_or (get_header_at_height c (height - 1)) (ChainError "Previous block not found")) in
  do* _ := slift (validate_block_inner now block (height - 1) (timestamp prev_header) (bits prev_header)
                    (stake_modifier prev_header) prev_hash (allow_pow_test_blocks (config c))) in
  do* journal := apply_block block height in
  if root_mismatch block journal then
    do* l := fun c => (c, rollback_journal journal (state (main c))) in
    do* _ := smod (fun c => set_ledger l (utxo_tree c) c) in
    serr (InvalidBlock "UTXO root does not match computed post-state root")
  else
  do* work := fun c => (c, next_work (known c) prev_hash) in
  do* _ := smod (set_known (learn_index hash prev_hash height work)) in
  do* utxos := sget (fun c => utxo_set (state (main c))) in
  let '(utxos_added, utxos_removed) := utxo_diff utxos (changes journal) in
  do* _ := smod (set_main (fun m => mkMain (state m) (height_index m) (tx_index m)
                   (trim_journals (max_reorg_depth (config c)) (journals m ++ [journal])))) in
  do* _ := smod (set_main (index_block_transactions hash block)) in
  do* _ := smod (set_known (learn_block hash block)) in
  do* _ := smod (set_main (fun m => mkMain (state m) (height_index m ++ [hash]) (tx_index m) (journals m))) in
  do* _ := smod prune_bodies in
  sret (MainChain height utxos_added utxos_removed (j_claimed journal)).

(** The second branch: the parent is known but is not the tip. *)
Definition extend_fork (now : Z) (block : Block) (hash prev_hash main_tip : bytes) : st Chain NodeError BlockAcceptance :=
  do* c := sget id in
  let parent_height := match block_heights (known c) !! prev_hash with Some h => h | None => 0 end in
  do* fork_height := slift (padd u32_max parent_height 1) in
  do* parent_header := slift (ok_or (headers (known c) !! prev_hash) (ChainError "missing parent header")) in
  do* _ := slift (validate_block_inner now block parent_height (timestamp parent_header) (bits parent_header)
                    (stake_modifier parent_header) prev_hash (allow_pow_test_blocks (config c))) in
  do* fork_work := slift (next_work (known c) prev_hash) in
  do* _ := smod (set_known (fun k => learn_block hash block (learn_index hash prev_hash fork_height fork_work k))) in
  do* main_work := sget (fun c =>
      match cumulative_work (known c) !! main_tip with Some w => w | None => 0 end) in
  if main_work <? fork_work then
    do* (txs, rbs, afs) := fun c =>
      match reorganize_to hash fork_height c with
      | (c', Err e) => (set_known (forget_block hash) c', Err e)
      | res => res
      end in
    do* _ := smod prune_bodies in
    sret (Reorg main_tip hash (as_u32 (zlen rbs)) txs rbs afs)
  else
    do* _ := smod prune_bodies in
    sret (Fork hash).

(** [Chain::add_block]. *)
Definition add_block (now : Z) (block : Block) : st Chain NodeError BlockAcceptance := fun c =>
  let hash := block_hash block in
  match block_heights (known c) !! hash with
  | Some _ => (c, Ok Duplicate)
  | None =>
      let prev_hash := prev_block_hash (header block) in
      let main_tip := match best_hash c with Some h => h | None => zero_hash end in
      if bytes_eqb prev_hash main_tip then extend_main now block hash prev_hash c
      else match block_heights (known c) !! prev_hash with
           | Some _ => extend_fork now block hash prev_hash main_tip c
           | None => (c, Err (InvalidBlock "Orphan block: parent not found"))
           end
  end.

(** [Chain::new] on the genesis block of [create_genesis_block]. *)
Definition empty_chain : Chain :=
  mkChain (mkKnown ∅ ∅ ∅ ∅ ∅)
    (mkMain (mkLedger ∅ ∅ 0 0 default_params gov_new) [] ∅ [])
    (mkTree []) (mkConfig usize_max None 100 false None None).

Definition new (genesis : Block) : res NodeError Chain :=
  let hash := block_hash genesis in
  let start := set_known (fun k => mkKnown (<[hash := genesis]> (blocks k)) (<[hash := header genesis]> (headers k))
                   (<[hash := 1]> (cumulative_work k)) (parent_map k) (<[hash := 0]> (block_heights k)))
                 (set_main (fun m => mkMain (state m) [hash] (tx_index m) (journals m)) empty_chain) in
  match apply_block genesis 0 start with
  | (c, Ok journal) =>
      Ok (set_main (fun m => mkMain (state m) (height_index m) (tx_index m) (journals m ++ [journal]))
            (set_main (index_block_transactions hash genesis) c))
  | (_, Err e) => Err e
  | (_, Panic) => Panic
  end.

(** [Chain::new_regtest], [Chain::new_regtest_fast]. *)
Definition new_regtest (genesis : Block) : res NodeError Chain :=
  let* c := new genesis in
  Ok (set_config (fun f => mkConfig (block_body_cache f) (body_source f) (max_reorg_depth f) true
                   (governance_test_activation f) (governance_test_deployment f)) c).

Definition new_regtest_fast (genesis : Block) : res NodeError Chain :=
  let* c := new_regtest genesis in
  let p := params (state (main c)) in
  Ok (set_ledger (set_gov (governance (state (main c)))
        (mkParams (pos_annual_rate_bps p) (reward_age_cap p) u64_max 60 (min_stake_amount p) (target_block_time p))
        (state (main c))) (utxo_tree c) c).

Definition GENESIS_BITS : Z := 0x1e0fffff.

(** [Chain::mint_to_address]. *)
Definition mint_to_address (now : Z) (address : bytes) (amount : Z) : st Chain NodeError bytes :=
  if amount =? 0 then serr (InvalidTransaction "Mint amount must be non-zero") else
  let script := address_to_p2pkh_script address in
  if zlen script =? 0 then serr (InvalidTransaction "Invalid address") else
  do* c := sget id in
  do* prev_hash := slift (ok_or (best_hash c) (ChainError "Cannot mint: chain has no tip")) in
  do* height := slift (padd u32_max (best_height c) 1) in
  let tip := get_header_at_height c (best_height c) in
  let prev_timestamp := match tip with Some h => timestamp h | None => 0 end in
  let time := Z.max now (sat_add u32_max prev_timestamp 1) in
  if MAX_SUPPLY <? sat_add u64_max (total_supply (state (main c))) amount
  then serr (ChainError "Mint would exceed maximum supply") else
  let coinbase := mkTx 1 Coinbase [mkTxInput zero_hash 0xffffffff [as_u8 height] 0xffffffff]
                    [mkTxOutput amount script] height None None in
  let modifier := compute_stake_modifier (match tip with Some h => stake_modifier h | None => 0 end) prev_hash in
  let unrooted := mkBlock (mkHeader 1 prev_hash zero_hash zero_hash time GENESIS_BITS height modifier) [coinbase] in
  do* root := slift (no_err (compute_merkle_root unrooted)) in
  do* _ := add_block now
    (mkBlock (mkHeader 1 prev_hash root zero_hash time GENESIS_BITS height modifier) [coinbase]) in
  sret (txid coinbase).

(** [Chain::apply_bootstrap_claim]. *)
Definition apply_bootstrap_claim (now : Z) (claim : Transaction) : st Chain NodeError bytes :=
  do* c := sget id in
  if negb (best_height c =? 0)
  then serr (ChainError "Bootstrap claim is only valid at height 1 (chain is not at genesis)") else
  if negb (is_legacy_claim claim)
  then serr (InvalidTransaction "Bootstrap transaction must be a LegacyClaim") else
  if negb (lock_time claim =? 1)
  then serr (InvalidTransaction "Bootstrap claim must have lock_time = 1 (the block height)") else
  do* genesis := slift (genesis_block c) in
  let genesis_hash := block_hash genesis in
  let time := Z.max now (sat_add u32_max (timestamp (header genesis)) 1) in
  let modifier := compute_stake_modifier (stake_modifier (header genesis)) genesis_hash in
  let unrooted := mkBlock (mkHeader 2 genesis_hash zero_hash zero_hash time GENESIS_BITS 0 modifier) [claim] in
  do* merkle := slift (no_err (compute_merkle_root unrooted)) in
  let post := utxo_values c ++ imap (utxo_of 1 time claim) (outputs claim) in
  do* root := slift (no_err (compute_utxo_root_sorted post)) in
  do* _ := add_block now
    (mkBlock (mkHeader 2 genesis_hash merkle root time GENESIS_BITS 0 modifier) [claim]) in
  do* tip := sget best_hash in
  sret (match tip with Some h => h | None => zero_hash end).

End accepting.

(** ** Block templates *)

Section selecting.
Context {C : Crypto} {B : Bincode} {H : Hex} {N : Snapshot}.

(** The ledger, the journal and the variables of the selection loop. *)
Record Selection : Type := mkSelection {
  sel_ledger : Ledger;
  sel_journal : BlockJournal;
  sel_size : Z;
  sel_txids : gset bytes;
  sel_kept : list Transaction;
}.

Context (genesis : option bytes) (bootstrap : bool) (height timestamp modifier : Z) (active : bool).

Definition over_supply (s : Ledger * BlockJournal) : bool :=
  MAX_SUPPLY <? sat_add u64_max (total_supply s.1) (supply_delta s.2).

(** Undoing a rejected candidate: [old] is the state before it. *)
Definition undo_candidate (undo : option GovernanceUndo) (old : BlockJournal) (s : Ledger * BlockJournal)
    : res NodeError (Ledger * BlockJournal) :=
  let '(l, j) := s in
  let* g := match undo with Some u => restore_undo u (governance l) | None => Ok (governance l) end in
  let n := length (changes old) in
  let m := length (j_claimed old) in
  Ok (rollback_changes (drop n (changes j)) (drop m (j_claimed j)) (set_gov g (params l) l),
      truncate_journal n m (supply_delta old) (staked_delta old) j).

(** The body of the loop over the candidates. *)
Definition try_candidate (tx : Transaction) : st Selection NodeError unit := fun s =>
  let tx_size := serialized_size tx in
  match checked_sub MAX_BLOCK_SIZE (sel_size s) with
  | None => (s, Panic)
  | Some room =>
      if (room <? tx_size) || is_coinbase tx || is_coinstake tx || bool_decide (txid tx ∈ sel_txids s)
         || negb (is_ok (validate_transaction tx))
      then (s, Ok tt) else
      let before := (sel_ledger s, sel_journal s) in
      let undo := if active then Some (transaction_undo (governance (sel_ledger s)) tx height) else None in
      match apply_transaction genesis bootstrap height timestamp modifier active tx before with
      | (s', Panic) => (mkSelection s'.1 s'.2 (sel_size s) (sel_txids s) (sel_kept s), Panic)
      | (s', r) =>
          if is_err r || over_supply s' then
            match undo_candidate undo (sel_journal s) s' with
            | Ok (l, j) => (mkSelection l j (sel_size s) (sel_txids s) (sel_kept s), Ok tt)
            | _ => (mkSelection s'.1 s'.2 (sel_size s) (sel_txids s) (sel_kept s), Panic)
            end
          else (mkSelection s'.1 s'.2 (sel_size s + tx_size) ({[txid tx]} ∪ sel_txids s) (sel_kept s ++ [tx]), Ok tt)
      end
  end.

(** The part of the closure before the candidates. *)
Definition apply_prefix (first_tx : Transaction) : st (Ledger * BlockJournal) NodeError unit :=
  do* _ := begin_governance_block height timestamp active in
  do* _ := slift (validate_transaction first_tx) in
  if MAX_BLOCK_SIZE <? serialized_size first_tx
  then serr (InvalidBlock "Template prefix exceeds block size limit") else
  do* _ := apply_transaction genesis bootstrap height timestamp modifier active first_tx in
  do* over := sget over_supply in
  if over then serr (InvalidBlock "Template prefix exceeds maximum supply") else sret tt.

(** The closure of [select_block_transactions]. *)
Definition selection (first_tx : Transaction) (candidates : list Transaction) (s : Ledger * BlockJournal)
    : (Ledger * BlockJournal) * res NodeError (list Transaction) :=
  match apply_prefix first_tx s with
  | (s', Ok _) =>
      let '(sel, r) := sfor try_candidate candidates
        (mkSelection s'.1 s'.2 (serialized_size first_tx) {[txid first_tx]} []) in
      ((sel_ledger sel, sel_journal sel), let* _ := r in Ok (sel_kept sel))
  | (s', Err e) => (s', Err e)
  | (s', Panic) => (s', Panic)
  end.

End selecting.

Section templates.
Context {C : Crypto} {B : Bincode} {H : Hex} {N : Snapshot}.

(** [select_block_transactions]. *)
Definition select_block_transactions (first_tx : Transaction) (candidates : list Transaction)
    (height timestamp : Z) : st Chain NodeError (list Transaction) :=
  do* c := sget id in
  do* next := slift (padd u32_max (best_height c) 1) in
  if negb (height =? next) then serr (ChainError "Template height must extend the current tip") else
  if negb (is_coinstake first_tx || (allow_pow_test_blocks (config c) && is_coinbase first_tx))
  then serr (InvalidBlock "Template must begin with coinstake or regtest coinbase") else
  do* parent := slift (ok_or (best_hash c) (ChainError "Template parent missing")) in
  do* parent_header := slift (unwrap (headers (known c) !! parent)) in
  do* active := slift (governance_active c height) in
  let bootstrap :=
    match get_block_at_height c 1 ≫= fun b => head (transactions b) with
    | Some tx => is_legacy_claim tx
    | None => false
    end in
  let l := state (main c) in
  let '((l1, j1), r) := selection (head (height_index (main c))) bootstrap height timestamp
      (stake_modifier parent_header) active first_tx candidates (l, new_journal l zero_hash height) in
  let j := set_undo (if active then Some (undo_since (governance l1) (governance l)) else None) j1 in
  match r with
  | Panic => slift Panic
  | _ =>
      do* l0 := slift (rollback_journal j l1) in
      do* _ := smod (set_ledger l0 (utxo_tree c)) in
      slift r
  end.

End templates.
