(* ===== verification/Mirror.v ===== *)
(** * What the outcome of a block tells an observer

    [Chain::add_block] returns, with its verdict, the outputs and claims that changed; the
    node stores them and never reads the chain itself.  This file says what such an
    observer keeps ([View]) and how it follows the chain ([view_accept]), and shows that
    the lists computed from the journals of [Chain.v] turn the old output set into the new
    one.  [Replay.v] shows that the observer always agrees with the chain. *)

From stdpp Require Import base list gmap sorting strings.
From Stdlib Require Import ZArith Lia.
From S2P Require Import Prelude Script Crypto Engine Standard Merkle Codec Block Address Consensus.
From S2P Require Import Deployments Governance Ledger Supply History Chain.
Import Scripts.

(** ** The view of an observer *)

Record View : Type := mkView {
  v_blocks : list Block;
  v_utxos : gmap OutPoint Utxo;
  v_claimed : gset bytes;
}.

Definition view_of (bs : list Block) (l : Ledger) : View := mkView bs (utxo_set l) (claimed_addresses l).

(** Outputs come first, then go. *)
Definition sync (added : list Utxo) (removed : list OutPoint) (m : gmap OutPoint Utxo) : gmap OutPoint Utxo :=
  spend_keys (create_utxos m added) removed.

Section view.
Context {C : Crypto} {B : Bincode}.

(** Lists of changes as [Chain.v] computes them. *)
Definition keyed (added : list Utxo) (removed : list OutPoint) : Prop :=
  Forall (fun u => well_keyed (outpoint u)) added /\ Forall well_keyed removed.

(** A block at the height after the last. *)
Definition view_append (b : Block) (height : Z) (added : list Utxo) (removed : list OutPoint) (claims : list bytes)
    (v v' : View) : Prop :=
  height = zlen (v_blocks v) /\ keyed added removed /\
  v' = mkView (v_blocks v ++ [b]) (sync added removed (v_utxos v)) (list_to_set claims ∪ v_claimed v).

(** The last block goes, unless it is the first one. *)
Definition view_rollback (rb : RolledBackBlock) (v v' : View) : Prop :=
  (exists b, v_blocks v = v_blocks v' ++ [b]) /\ v_blocks v' <> [] /\ keyed (utxos_to_restore rb) (utxos_to_remove rb) /\
  v_utxos v' = sync (utxos_to_restore rb) (utxos_to_remove rb) (v_utxos v) /\
  v_claimed v' = v_claimed v ∖ list_to_set (claimed_to_remove rb).

Fixpoint view_rollbacks (rbs : list RolledBackBlock) (v v' : View) : Prop :=
  match rbs with
  | [] => v' = v
  | rb :: rbs => exists v1, view_rollback rb v v1 /\ view_rollbacks rbs v1 v'
  end.

Definition view_fork_block (f : AppliedForkBlock) : View -> View -> Prop :=
  view_append (af_block f) (af_height f) (af_utxos_added f) (af_utxos_removed f) (af_claimed f).

Fixpoint view_forks (fs : list AppliedForkBlock) (v v' : View) : Prop :=
  match fs with
  | [] => v' = v
  | f :: fs => exists v1, view_fork_block f v v1 /\ view_forks fs v1 v'
  end.

(** What [add_block] returned for the block [b]. *)
Definition view_accept (b : Block) (a : BlockAcceptance) (v v' : View) : Prop :=
  match a with
  | MainChain height added removed claims => view_append b height added removed claims v v'
  | Reorg _ _ _ _ rbs fs => exists v1, view_rollbacks rbs v v1 /\ view_forks fs v1 v'
  | Fork _ | Duplicate => v' = v
  end.
End view.

(** ** Lemmas: reading a journal *)

Section journals.
Context {C : Crypto} {B : Bincode}.

(** What a journal says of one key. *)
Record journal_at (m : gmap OutPoint Utxo) (cs : list UtxoChange) (m' : gmap OutPoint Utxo) (k : OutPoint) : Prop := {
  ja_other : k ∉ map change_key cs -> m' !! k = m !! k;
  ja_removed : (exists u, Removed k u ∈ cs) -> m' !! k = None;
  ja_added : Added k ∈ cs -> (exists u, Removed k u ∈ cs) \/ is_Some (m' !! k);
  ja_outpoint : forall u, Added k ∈ cs -> m' !! k = Some u -> outpoint u = k;
}.

Lemma journaled_at m cs m' k : journaled m cs m' -> journal_at m cs m' k.
Proof.
  induction 1 as [|cs m' u Hj [J1 J2 J3 J4] Hm Hk Hw|cs m' k' u Hj [J1 J2 J3 J4] Hk].
  - split; [done|by intros [? ?%elem_of_nil]|by intros ?%elem_of_nil|by intros ? ?%elem_of_nil].
  - split; rewrite ?map_app, ?elem_of_app, ?list_elem_of_singleton; simpl; rewrite ?list_elem_of_singleton.
    + intros Hn. rewrite lookup_insert_ne; [apply J1; tauto|]. intros E. apply Hn. by right.
    + intros [u' [Hu|?%list_elem_of_singleton]%elem_of_app]; [|done]. rewrite lookup_insert_ne; [eauto|].
      intros <-. apply Hk, list_elem_of_fmap. by eexists (Removed _ _).
    + intros [Hin|[= ->]]; [|right; rewrite lookup_insert_eq; eauto]. destruct (J3 Hin) as [[u' ?]|Hs].
      * left. exists u'. apply elem_of_app. by left.
      * right. apply lookup_insert_is_Some'. by right.
    + intros u' [Hin|[= ->]%list_elem_of_singleton]%elem_of_app Hu'.
      * rewrite lookup_insert_ne in Hu'; [eauto|]. intros <-. apply Hk, list_elem_of_fmap. by eexists (Added _).
      * rewrite lookup_insert_eq in Hu'. by injection Hu' as <-.
  - split; rewrite ?map_app, ?elem_of_app, ?list_elem_of_singleton; simpl; rewrite ?list_elem_of_singleton.
    + intros Hn. rewrite lookup_delete_ne; [apply J1; tauto|]. intros E. apply Hn. by right.
    + intros [u' [Hu|[= -> _]%list_elem_of_singleton]%elem_of_app]; [|apply lookup_delete_eq].
      rewrite lookup_delete_None. right. eauto.
    + intros [Hin|?]; [|done]. destruct (decide (k' = k)) as [->|Hne].
      * left. exists u. apply elem_of_app. right. by apply list_elem_of_singleton.
      * rewrite lookup_delete_ne by done. destruct (J3 Hin) as [[u' ?]|?]; [left|by right].
        exists u'. apply elem_of_app. by left.
    + intros u' [Hin|?%list_elem_of_singleton]%elem_of_app [_ Hu']%lookup_delete_Some; [eauto|done].
Qed.

Lemma create_utxos_at us k v : forall m,
  (forall u, u ∈ us -> outpoint u = k -> v = Some u) -> ((forall u, u ∈ us -> outpoint u <> k) -> m !! k = v) ->
  create_utxos m us !! k = v.
Proof.
  induction us as [|u us IH]; intros m Hin Hout; [by apply Hout; intros ? ?%elem_of_nil|].
  change (create_utxos m (u :: us)) with (create_utxos (<[(outpoint u : OutPoint) := u]> m) us).
  apply IH; [intros u' Hu'; apply Hin; by right|]. intros Hno. destruct (decide (outpoint u = k)) as [E|Hne].
  - rewrite E, lookup_insert_eq. symmetry. apply Hin; [left|done].
  - rewrite lookup_insert_ne by done. apply Hout. intros u' [->|Hu']%elem_of_cons; auto.
Qed.

Lemma spend_keys_at m ks k v : (k ∈ ks -> v = None) -> (k ∉ ks -> m !! k = v) -> spend_keys m ks !! k = v.
Proof.
  intros Hin Hout. apply option_eq. intros u. rewrite spend_keys_lookup. destruct (decide (k ∈ ks)) as [Hk|Hk].
  - rewrite (Hin Hk). split; [by intros []|done].
  - rewrite (Hout Hk). tauto.
Qed.

(** The lists of [utxo_diff]. *)
Lemma utxo_diff_omap utxos cs : utxo_diff utxos cs =
  (omap (fun c => match c with Added k => utxos !! k | Removed _ _ => None end) cs,
   omap (fun c => match c with Added _ => None | Removed k _ => Some k end) cs).
Proof.
  unfold utxo_diff. induction cs as [|c cs IH] using rev_ind; [done|]. rewrite foldl_app, IH, !omap_app. simpl.
  destruct c as [k|k u]; simpl; rewrite ?app_nil_r; [|done]. by destruct (utxos !! k); rewrite ?app_nil_r.
Qed.

Lemma utxo_diff_spec utxos cs :
  (forall u, u ∈ (utxo_diff utxos cs).1 <-> exists k, Added k ∈ cs /\ utxos !! k = Some u) /\
  (forall k, k ∈ (utxo_diff utxos cs).2 <-> exists u, Removed k u ∈ cs).
Proof.
  rewrite utxo_diff_omap. split; intros x; cbn [fst snd]; rewrite list_elem_of_omap; split.
  - intros ([k|] & Hc & E); [eauto|done].
  - intros (k & Hc & E). by exists (Added k).
  - intros ([|k u] & Hc & E); [done|]. injection E as <-. eauto.
  - intros [u Hc]. by exists (Removed x u).
Qed.

(** The lists of a new block take the output set to its new state. *)
Lemma utxo_diff_sync m cs m' : journaled m cs m' -> sync (utxo_diff m' cs).1 (utxo_diff m' cs).2 m = m'.
Proof.
  intros Hj. destruct (utxo_diff_spec m' cs) as [D1 D2]. apply map_eq. intros k.
  destruct (journaled_at m cs m' k Hj) as [J1 J2 J3 J4].
  apply spend_keys_at; [intros Hk; apply J2; by apply D2|]. rewrite D2. intros Hn.
  apply create_utxos_at.
  - intros u (k' & Hin & Hu)%D1 Hk. pose proof (ja_outpoint _ _ _ _ (journaled_at _ _ _ k' Hj) u Hin Hu) as Ho. congruence.
  - intros Hno. symmetry. apply J1. intros (c & Hc & Hin)%list_elem_of_fmap. destruct c as [k'|k' u]; simpl in Hc; subst k'.
    + destruct (J3 Hin) as [?|[u Hu]]; [done|]. apply (Hno u); [apply D1; eauto|]. by apply J4.
    + apply Hn. eauto.
Qed.

(** A key that was removed does not come back, so the lists of [reorganize_to_inner] are
    the same. *)
Lemma fork_diff_eq m cs m' utxos : journaled m cs m' -> fork_diff utxos cs = utxo_diff utxos cs.
Proof.
  intros Hj. rewrite utxo_diff_omap. unfold fork_diff.
  induction Hj as [|cs m' u Hj IH Hm Hk Hw|cs m' k u Hj IH Hk]; [done| |]; rewrite foldl_app, IH, !omap_app; simpl.
  - f_equal; [by destruct (utxos !! _); rewrite ?app_nil_r|]. rewrite app_nil_r. apply forallb_filter_id, forallb_forall.
    intros k (c & Hc & E)%list_elem_of_In%list_elem_of_omap. apply negb_true_iff, bool_decide_eq_false. intros ->.
    apply Hk, list_elem_of_fmap. exists c. destruct c; [done|]. by injection E.
  - by rewrite app_nil_r.
Qed.

(** The lists of a block that is rolled back take the output set to its old state. *)
Lemma rollback_sync m cs m' touched :
  journaled m cs m' -> (forall k u, m !! k = Some u -> outpoint u = k) ->
  (forall k, k ∈ touched <-> k ∈ map change_key cs) ->
  sync (omap (fun k => m !! k) touched) (List.filter (fun k => bool_decide (m !! k = None)) touched) m' = m.
Proof.
  intros Hj Hout Ht. apply map_eq. intros k. apply spend_keys_at.
  { intros [_ Hk]%list_elem_of_In%filter_In. by apply bool_decide_eq_true in Hk. }
  intros Hk. apply create_utxos_at.
  - intros u (k' & _ & Hu)%list_elem_of_omap E. rewrite <- (Hout k' u Hu), E in Hu. done.
  - intros Hno. destruct (decide (k ∈ map change_key cs)) as [Hin|Hn]; [|by apply (journaled_at m cs m' k Hj)].
    exfalso. apply Ht in Hin. destruct (m !! k) as [u|] eqn:E.
    + apply (Hno u); [|by apply Hout]. apply list_elem_of_omap. by exists k.
    + apply Hk, list_elem_of_In, filter_In. split; [by apply list_elem_of_In|by apply bool_decide_eq_true].
Qed.
(** The journal [j] lists how [l'] came from [l]. *)
Definition journal_of (l : Ledger) (j : BlockJournal) (l' : Ledger) : Prop :=
  journaled (utxo_set l) (changes j) (utxo_set l') /\
  claimed_addresses l' = list_to_set (j_claimed j) ∪ claimed_addresses l.

(** A block shows an observer the state after it. *)
Lemma view_appended bs l b l' j height :
  journal_of l j l' -> (forall k, is_Some (utxo_set l !! k) -> well_keyed k) -> height = zlen bs ->
  view_append b height (utxo_diff (utxo_set l') (changes j)).1 (utxo_diff (utxo_set l') (changes j)).2 (j_claimed j)
    (view_of bs l) (view_of (bs ++ [b]) l').
Proof.
  intros [J1 J2] Hw ->. split; [done|]. destruct (utxo_diff_spec (utxo_set l') (changes j)) as [D1 D2]. split.
  - split; apply Forall_forall.
    + intros u (k & Hk & Hu)%D1. rewrite (ja_outpoint _ _ _ _ (journaled_at _ _ _ k J1) u Hk Hu).
      apply (journaled_well_keyed _ _ _ _ J1 Hw). left. by eexists.
    + intros k [u Hk]%D2. apply (journaled_well_keyed _ _ _ _ J1 Hw). right. apply list_elem_of_fmap. by eexists (Removed k u).
  - unfold view_of. simpl. by rewrite (utxo_diff_sync _ _ _ J1), J2.
Qed.

(** A block that is rolled back shows an observer the state before it. *)
Lemma view_rolled_back bs l b l' j hash height touched :
  journal_of l j l' -> bs <> [] -> (forall k, is_Some (utxo_set l !! k) -> well_keyed k) ->
  (forall k u, utxo_set l !! k = Some u -> outpoint u = k) ->
  (forall k, k ∈ touched <-> k ∈ map change_key (changes j)) ->
  claimed_addresses l' ∖ list_to_set (j_claimed j) = claimed_addresses l ->
  view_rollback (mkRolledBack hash height (List.filter (fun k => bool_decide (utxo_set l !! k = None)) touched)
      (omap (fun k => utxo_set l !! k) touched) (j_claimed j)) (view_of (bs ++ [b]) l') (view_of bs l).
Proof.
  intros [J1 _] Hne Hw Hout Ht Hcl. split; [by exists b|]. split; [done|]. split.
  - split; apply Forall_forall; simpl.
    + intros u (k & Hk & Hu)%list_elem_of_omap. rewrite (Hout k u Hu). apply Hw. by eexists.
    + intros k [Hk _]%list_elem_of_In%filter_In. apply (journaled_well_keyed _ _ _ _ J1 Hw). right.
      by apply Ht, list_elem_of_In.
  - simpl. by rewrite (rollback_sync _ _ _ _ J1 Hout Ht), Hcl.
Qed.
End journals.
