(* ===== verification/Replay.v ===== *)
(** * The chain is the replay of its active blocks

    Theorems about [Chain.v].  The specification of the chain is [replay]: a node that
    receives exactly the blocks of one branch, in order.  Whatever blocks, forks and
    reorganizations a chain goes through, its state is the replay of its active branch,
    and no known block has more work than its tip. *)

From stdpp Require Import base list gmap sorting strings.
From Stdlib Require Import ZArith Lia.
From S2P Require Import Prelude Script Crypto Engine Standard Merkle Codec Block Address Consensus.
From S2P Require Import Deployments Governance Ledger Supply History Chain Mirror.
Import Scripts.

(** ** What the application of a block depends on *)

Lemma rfold_ext {E A X} (f g : A -> X -> res E A) a l :
  (forall a x, x ∈ l -> f a x = g a x) -> rfold f a l = rfold g a l.
Proof.
  revert a; induction l as [|x l IH]; intros a Hfg; simpl; [done|]. rewrite Hfg by left.
  destruct (g a x); simpl; [|done..]. apply IH. intros b y Hy. apply Hfg. by right.
Qed.

Section agree.
Context {C : Crypto} {B : Bincode} {H : Hex} {N : Snapshot} {K : KeyOrder}.

(** [c] and [c'] show the application of a block with parent [prev] the same. *)
Record agrees (prev : bytes) (c c' : Chain) : Prop := {
  ag_config : governance_test_activation (config c) = governance_test_activation (config c') /\
    governance_test_deployment (config c) = governance_test_deployment (config c');
  ag_index : height_index (main c) = height_index (main c');
  ag_state : state (main c) = state (main c');
  ag_header : forall h, get_header_at_height c h = get_header_at_height c' h;
  ag_block1 : get_block_at_height c 1 = get_block_at_height c' 1;
  ag_prev : headers (known c) !! prev = headers (known c') !! prev;
}.

Lemma governance_active_agrees prev c c' h :
  agrees prev c c' -> governance_active c h = governance_active c' h.
Proof.
  intros [[A1 A1'] A2 _ A4 _ _]. unfold governance_active, governance_deployment_config. rewrite A1, A1'.
  assert (forall b p, count_signals c b p = count_signals c' b p) as Hc.
  { intros b p. unfold count_signals, best_height. rewrite A2. destruct (p =? 0); [done|].
    apply rfold_ext. intros counts x _. by rewrite A4. }
  repeat case_match; rewrite ?Hc; done.
Qed.

Lemma recompute_root_tree t t' utxos :
  recompute_utxo_root t utxos = recompute_utxo_root t' utxos.
Proof.
  unfold recompute_utxo_root. f_equal. destruct (map _ _) as [|x l]; [done|].
  by rewrite !scratch_build_spec.
Qed.

(** The reused buffers have no influence. *)
Lemma apply_block_tree genesis bootstrap height timestamp modifier active hash txs t t' l :
  let r := apply_block_journaled genesis bootstrap height timestamp modifier active hash txs t l in
  let r' := apply_block_journaled genesis bootstrap height timestamp modifier active hash txs t' l in
  r.1.1 = r'.1.1 /\ r.2 = r'.2.
Proof.
  unfold apply_block_journaled. destruct (apply_block_body _ _ _ _ _ _ _ _) as [[l1 j1] r].
  unfold commit_root. destruct r as [u|e|]; [|cbn; by destruct (rollback_journal _ _)|done].
  rewrite (recompute_root_tree t t'). destruct (recompute_utxo_root t' _) as [[t1 root]|e|]; [done| |done].
  cbn. by destruct (rollback_journal _ _).
Qed.

Lemma apply_block_agrees b h c c' :
  agrees (prev_block_hash (header b)) c c' ->
  let r := apply_block b h c in
  let r' := apply_block b h c' in
  state (main r.1) = state (main r'.1) /\ r.2 = r'.2.
Proof.
  intros A. pose proof (governance_active_agrees _ _ _ h A) as Hg. destruct A as [_ A2 A3 _ A5 A6].
  unfold apply_block. rewrite Hg. destruct (governance_active c' h) as [act| |]; [|done..].
  rewrite A6. destruct (if h =? 0 then _ else _) as [md| |]; [|done..].
  rewrite A5, A2, A3. set (bo := match get_block_at_height c' 1 ≫= _ with Some _ => _ | None => _ end).
  pose proof (apply_block_tree (head (height_index (main c'))) bo h (timestamp (header b)) md act
    (block_hash b) (transactions b) (utxo_tree c) (utxo_tree c') (state (main c'))) as [E1 E2].
  destruct (apply_block_journaled _ _ _ _ _ _ _ _ (utxo_tree c) _) as [[l1 t1] r1].
  destruct (apply_block_journaled _ _ _ _ _ _ _ _ (utxo_tree c') _) as [[l2 t2] r2].
  simpl in *. by subst.
Qed.

(** [apply_block] only touches the ledger and the buffers. *)
Lemma apply_block_frame b h c :
  let c' := (apply_block b h c).1 in
  known c' = known c /\ config c' = config c /\ height_index (main c') = height_index (main c) /\
  tx_index (main c') = tx_index (main c) /\ journals (main c') = journals (main c).
Proof.
  unfold apply_block. destruct (governance_active _ _); [|done..]. destruct (if _ =? 0 then _ else _); [|done..].
  by destruct (apply_block_journaled _ _ _ _ _ _ _ _ _ _) as [[l t] r].
Qed.

(** ** Replaying a branch *)

(** A chain whose known blocks are those of one branch. *)
Definition view_chain (cfg : Config) (bs : list Block) (l : Ledger) : Chain :=
  mkChain (mkKnown (list_to_map (map (fun b => (block_hash b, b)) bs))
                   (list_to_map (map (fun b => (block_hash b, header b)) bs)) ∅ ∅ ∅)
    (mkMain l (map block_hash bs) ∅ []) (mkTree []) cfg.

(** The next block of the branch. *)
Definition connect (cfg : Config) (bs : list Block) (l : Ledger) (b : Block) : option (Ledger * BlockJournal) :=
  match apply_block b (zlen bs) (view_chain cfg bs l) with
  | (c, Ok j) => if root_mismatch b j then None else Some (state (main c), j)
  | _ => None
  end.

Fixpoint replay (cfg : Config) (bs : list Block) (l : Ledger) (rest : list Block) : option Ledger :=
  match rest with
  | [] => Some l
  | b :: rest =>
      match connect cfg bs l b with
      | Some (l', _) => replay cfg (bs ++ [b]) l' rest
      | None => None
      end
  end.

End agree.

(** ** Histories *)

Section history.
Context {C : Crypto} {B : Bincode} {H : Hex} {N : Snapshot} {SL : SnapshotLaws N} {K : KeyOrder}.
(** The transactions under consideration have distinct identifiers; [g] is the genesis
    block and [l0] the ledger after it. *)
Context (U : Transaction -> Prop) (HU : txids_distinct U) (g : Block) (l0 : Ledger).
Context (G1 : tracked 1 (transactions g) l0) (G2 : ledger_inv l0) (G3 : forall x, x ∈ transactions g -> U x).

Definition all_txs (bs : list Block) : list Transaction := concat (map transactions bs).

Lemma all_txs_snoc bs b : all_txs (bs ++ [b]) = all_txs bs ++ transactions b.
Proof. unfold all_txs. rewrite map_app, concat_app. simpl. by rewrite app_nil_r. Qed.

(** Applying a block to a chain whose ledger is tracked. *)
Lemma apply_block_sound T b h c :
  (forall x, x ∈ T -> U x) -> (forall x, x ∈ transactions b -> U x) -> sound_block_txs h (transactions b) ->
  tracked h T (state (main c)) ->
  match apply_block b h c with
  | (c', Ok j) => rollback_journal j (state (main c')) = Ok (state (main c)) /\
      tracked (h + 1) (T ++ transactions b) (state (main c')) /\
      (ledger_inv (state (main c)) -> ledger_inv (state (main c'))) /\ j_block_hash j = block_hash b /\ j_height j = h /\
      journal_of (state (main c)) j (state (main c'))
  | (c', Err _) => state (main c') = state (main c)
  | (_, Panic) => True
  end.
Proof.
  intros HT Hb Hs Htr. unfold apply_block. destruct (governance_active c h) as [act| |]; [|done..].
  destruct (if h =? 0 then _ else _) as [md| |]; [|done..].
  set (bo := match get_block_at_height c 1 ≫= _ with Some _ => _ | None => _ end).
  pose proof (apply_block_tracked (head (height_index (main c))) bo h (timestamp (header b)) md act U T
    (block_hash b) (transactions b) (utxo_tree c) (state (main c)) HU HT Hb Hs Htr) as Hx.
  by destruct (apply_block_journaled _ _ _ _ _ _ _ _ _ _) as [[l' t] [j| |]].
Qed.

Definition tip_block (bs : list Block) : option Block := bs !! Nat.pred (length bs).

(** The block passed the checks of [validate_block_inner] on top of [bs] at some time. *)
Definition valid_child (cfg : Config) (bs : list Block) (b : Block) : Prop :=
  exists b0 now, tip_block bs = Some b0 /\ prev_block_hash (header b) = block_hash b0 /\
    validate_block_inner now b (zlen bs - 1) (timestamp (header b0)) (bits (header b0)) (stake_modifier (header b0))
      (block_hash b0) (allow_pow_test_blocks cfg) = Ok tt.

(** The branch [bs], the ledger at its end and the journals of its blocks. *)
Inductive history (cfg : Config) : list Block -> Ledger -> list BlockJournal -> Prop :=
  | history_genesis j0 : history cfg [g] l0 [j0]
  | history_block bs l js b l' j :
      history cfg bs l js -> connect cfg bs l b = Some (l', j) ->
      sound_block_txs (zlen bs) (transactions b) -> (forall x, x ∈ transactions b -> U x) ->
      valid_child cfg bs b -> history cfg (bs ++ [b]) l' (js ++ [j]).

Record history_ok (bs : list Block) (l : Ledger) (js : list BlockJournal) : Prop := {
  ho_head : exists rest, bs = g :: rest;
  ho_journals : length js = length bs;
  ho_tracked : tracked (zlen bs) (all_txs bs) l;
  ho_ledger : ledger_inv l;
  ho_txs : forall x, x ∈ all_txs bs -> U x;
}.

Lemma connect_sound cfg bs l b l' j :
  (exists js, history_ok bs l js) ->
  connect cfg bs l b = Some (l', j) ->
  sound_block_txs (zlen bs) (transactions b) -> (forall x, x ∈ transactions b -> U x) ->
  rollback_journal j l' = Ok l /\ tracked (zlen bs + 1) (all_txs bs ++ transactions b) l' /\ ledger_inv l' /\
  j_block_hash j = block_hash b /\ j_height j = zlen bs /\ journal_of l j l'.
Proof.
  intros [js Hok] Hc Hs Hu.
  unfold connect in Hc.
  pose proof (apply_block_sound (all_txs bs) b (zlen bs) (view_chain cfg bs l)
    (ho_txs _ _ _ Hok) Hu Hs (ho_tracked _ _ _ Hok)) as Hx.
  destruct (apply_block b (zlen bs) (view_chain cfg bs l)) as [c' [j'| |]]; [|done..].
  destruct (root_mismatch b j'); [done|]. injection Hc as <- <-. destruct Hx as (H1 & H2 & H3 & H4 & H5 & H6).
  split_and!; try done. apply H3, Hok.
Qed.

Lemma history_facts cfg bs l js : history cfg bs l js -> history_ok bs l js.
Proof.
  induction 1 as [j0|bs l js b l' j Hh IH Hc Hs Hu Hv].
  - split; [by exists []|done| | |]; unfold all_txs; simpl; rewrite ?app_nil_r; done.
  - destruct (connect_sound cfg bs l b l' j) as (_ & Htr & Hl & _); [by exists js|done..|].
    destruct IH as [[rest ->] I2 _ _ I5]. split.
    + by exists (rest ++ [b]).
    + rewrite !length_app. simpl in *. lia.
    + rewrite all_txs_snoc, zlen_app. exact Htr.
    + done.
    + intros x. rewrite all_txs_snoc, elem_of_app. intros [?|?]; auto.
Qed.

Lemma history_keyed bs l js k : history_ok bs l js -> is_Some (utxo_set l !! k) -> well_keyed k.
Proof.
  intros [_ _ Htr Hl _] Hk. split.
  - apply (tr_keys _ _ _ Htr) in Hk. apply list_elem_of_fmap in Hk as (tx & E & _). by exists tx.
  - destruct Hk as [u Hu]. by apply (li_utxos _ Hl k u).
Qed.

(** The last block of a history can be rolled back. *)
Lemma history_last cfg bs b l' js' :
  bs <> [] -> history cfg (bs ++ [b]) l' js' ->
  exists l js j, js' = js ++ [j] /\ history cfg bs l js /\ connect cfg bs l b = Some (l', j) /\
    rollback_journal j l' = Ok l /\ j_block_hash j = block_hash b /\ j_height j = zlen bs /\ journal_of l j l'.
Proof.
  intros Hne Hh. inversion Hh as [j0 E|bs1 l js b1 l1 j Hh' Hc Hs Hu Hv E].
  - destruct bs as [|? [|]]; done.
  - apply app_inj_tail in E as [-> ->]. subst. exists l, js, j.
    destruct (connect_sound cfg bs l b l' j) as (R1 & _ & _ & R2 & R3 & R4); [|done..|].
    { exists js. by eapply history_facts. }
    done.
Qed.

(** The history is the replay of its blocks. *)
Lemma replay_snoc cfg bs l rest b l1 :
  replay cfg bs l rest = Some l1 ->
  replay cfg bs l (rest ++ [b]) =
    match connect cfg (bs ++ rest) l1 b with Some (l', _) => Some l' | None => None end.
Proof.
  revert bs l; induction rest as [|x rest IH]; intros bs l E; simpl in *.
  - injection E as ->. rewrite app_nil_r. by destruct (connect _ _ _ _) as [[? ?]|].
  - destruct (connect cfg bs l x) as [[l' j]|]; [|done]. rewrite (IH _ _ E). by rewrite <- app_assoc.
Qed.

Lemma history_replay cfg bs l js : history cfg bs l js -> replay cfg [g] l0 (tail bs) = Some l.
Proof.
  induction 1 as [j0|bs l js b l' j Hh IH Hc Hs Hu Hv]; [done|].
  destruct (ho_head _ _ _ (history_facts _ _ _ _ Hh)) as [rest ->]. simpl in *.
  rewrite (replay_snoc _ _ _ _ _ _ IH). change ([g] ++ rest) with (g :: rest). by rewrite Hc.
Qed.

(** ** The invariant of the chain *)

(** What is known of the blocks. *)
Record known_ok (k : Known) : Prop := {
  ko_genesis : block_heights k !! block_hash g = Some 0;
  ko_root : parent_map k !! block_hash g = None;
  ko_height : forall h n, block_heights k !! h = Some n -> 0 <= n <= u32_max;
  ko_parent : forall h n, block_heights k !! h = Some n -> h <> block_hash g ->
    exists hd, headers k !! h = Some hd /\ parent_map k !! h = Some (prev_block_hash hd) /\
      block_heights k !! prev_block_hash hd = Some (n - 1);
  ko_work : forall h n, block_heights k !! h = Some n -> cumulative_work k !! h = Some (n + 1);
  ko_dom : forall h, block_heights k !! h = None ->
    blocks k !! h = None /\ headers k !! h = None /\ cumulative_work k !! h = None /\ parent_map k !! h = None;
  ko_body : forall h b, blocks k !! h = Some b -> block_hash b = h /\ headers k !! h = Some (header b);
  ko_sound : forall h b n, blocks k !! h = Some b -> block_heights k !! h = Some n -> h <> block_hash g ->
    sound_block_txs n (transactions b) /\ (forall x, x ∈ transactions b -> U x);
}.

(** The known bodies passed the checks on top of their parents. *)
Definition valid_known (cfg : Config) (k : Known) : Prop :=
  forall h b n, blocks k !! h = Some b -> block_heights k !! h = Some n -> h <> block_hash g ->
    exists hd now, headers k !! prev_block_hash (header b) = Some hd /\
      validate_block_inner now b (n - 1) (timestamp hd) (bits hd) (stake_modifier hd) (prev_block_hash (header b))
        (allow_pow_test_blocks cfg) = Ok tt.

(** The transaction index of a branch. *)
Definition index_txs (hash : bytes) (txs : list Transaction) (idx : gmap bytes (bytes * nat)) : gmap bytes (bytes * nat) :=
  foldl (fun idx '(offset, tx) => <[txid tx := (hash, offset)]> idx) idx (imap pair txs).
Definition index_all (bs : list Block) : gmap bytes (bytes * nat) :=
  foldl (fun idx b => index_txs (block_hash b) (transactions b) idx) ∅ bs.

(** The active chain is the branch [bs]; only old bodies are missing. *)
Record main_ok (cfg : Config) (k : Known) (m : Main) (bs : list Block) : Prop := {
  mo_index : height_index m = map block_hash bs;
  mo_known : forall i b, bs !! i = Some b ->
    block_heights k !! block_hash b = Some (Z.of_nat i) /\ headers k !! block_hash b = Some (header b);
  mo_link : forall i b b', bs !! i = Some b -> bs !! S i = Some b' -> prev_block_hash (header b') = block_hash b;
  mo_body : forall i b, bs !! i = Some b -> blocks k !! block_hash b = Some b \/
    (blocks k !! block_hash b = None /\ (2 <= i)%nat /\ (i + length (journals m) < length bs)%nat);
  mo_history : exists pre, history cfg bs (state m) (pre ++ journals m);
  mo_txs : tx_index m = index_all bs;
  mo_valid : valid_known cfg k;
}.

(** No known block has more work than the tip. *)
Record chain_ok (c : Chain) (bs : list Block) : Prop := {
  co_known : known_ok (known c);
  co_main : main_ok (config c) (known c) (main c) bs;
  co_best : forall h n, block_heights (known c) !! h = Some n -> n < zlen bs;
}.

Lemma main_ok_facts cfg k m bs :
  main_ok cfg k m bs -> history_ok bs (state m) (map (fun _ => new_journal l0 [] 0) bs) /\ bs <> [].
Proof.
  intros M. destruct (mo_history _ _ _ _ M) as [pre Hh]. apply history_facts in Hh as [[rest ->] H2 H3 H4 H5].
  split; [|done]. split; try done; [by exists rest|by rewrite length_map].
Qed.

Lemma hash_index_inj cfg k m bs i j b b' :
  main_ok cfg k m bs -> bs !! i = Some b -> bs !! j = Some b' -> block_hash b = block_hash b' -> i = j.
Proof.
  intros M Hi Hj E. apply (mo_known _ _ _ _ M) in Hi as [Hi _], Hj as [Hj _]. rewrite E in Hi.
  rewrite Hi in Hj. injection Hj. lia.
Qed.

Lemma hashes_nodup cfg k m bs : main_ok cfg k m bs -> NoDup (map block_hash bs).
Proof.
  intros M. apply NoDup_alt. intros i j h Hi Hj. rewrite list_lookup_fmap in Hi, Hj.
  destruct (bs !! i) as [b|] eqn:Ei; [|done]. destruct (bs !! j) as [b'|] eqn:Ej; [|done].
  simpl in *. injection Hi as <-. injection Hj as Hj. eapply hash_index_inj; [done..|]. done.
Qed.

Lemma branch_length k cfg m bs : known_ok k -> main_ok cfg k m bs -> 1 <= zlen bs <= u32_max + 1.
Proof.
  intros Hk M. destruct (main_ok_facts _ _ _ _ M) as [_ Hne].
  destruct (exists_last Hne) as (bs' & b & ->). rewrite zlen_app. unfold zlen. simpl. split; [lia|].
  destruct (mo_known _ _ _ _ M (length bs') b) as [Hh _]; [by apply list_lookup_middle|].
  apply (ko_height _ Hk) in Hh. lia.
Qed.

Lemma best_height_eq k cfg m bs c :
  known_ok k -> main_ok cfg k m bs -> main c = m -> best_height c = zlen bs - 1.
Proof.
  intros Hk M E. pose proof (branch_length _ _ _ _ Hk M). unfold best_height. rewrite E, (mo_index _ _ _ _ M).
  assert (zlen (map block_hash bs) = zlen bs) as -> by (unfold zlen; by rewrite length_map).
  unfold sat_sub, as_u32, u32_max in *. rewrite Z.max_r, Z.mod_small by lia. done.
Qed.

Lemma lookup_hash_map {A} (f : Block -> A) bs b :
  NoDup (map block_hash bs) -> b ∈ bs ->
  (list_to_map (map (fun b => (block_hash b, f b)) bs) : gmap bytes A) !! block_hash b = Some (f b).
Proof.
  intros Hnd Hb. apply elem_of_list_to_map_1.
  - rewrite <- list_fmap_compose. exact Hnd.
  - apply list_elem_of_fmap. by exists b.
Qed.

(** For the next block the chain looks like the branch alone. *)
Lemma view_agrees c bs b0 b :
  main_ok (config c) (known c) (main c) bs -> tip_block bs = Some b0 -> prev_block_hash (header b) = block_hash b0 ->
  agrees (prev_block_hash (header b)) c (view_chain (config c) bs (state (main c))).
Proof.
  intros M Hl Hp. pose proof (hashes_nodup _ _ _ _ M) as Hnd. destruct M as [M1 M2 _ M4 _ _ _].
  assert (Hat : forall h, vec_at (map block_hash bs) h = block_hash <$> vec_at bs h).
  { intros h. unfold vec_at. destruct (0 <=? h); [apply list_lookup_fmap|done]. }
  assert (Hel : forall h b1, vec_at bs h = Some b1 -> b1 ∈ bs /\ bs !! Z.to_nat h = Some b1).
  { intros h b1. unfold vec_at. destruct (0 <=? h); [|done]. intros E. split; [by eapply list_elem_of_lookup_2|done]. }
  split; [done|done|done| | |].
  - intros h. unfold get_header_at_height. cbn [view_chain main known height_index headers]. rewrite M1, Hat.
    destruct (vec_at bs h) as [b1|] eqn:E; [|done]. simpl. apply Hel in E as [E1 E2].
    rewrite (lookup_hash_map header) by done. by apply M2 in E2 as [_ ?].
  - unfold get_block_at_height. cbn [view_chain main known height_index blocks]. rewrite M1, Hat.
    destruct (vec_at bs 1) as [b1|] eqn:E; [|done]. simpl. apply Hel in E as [E1 E2].
    rewrite (lookup_hash_map (fun b => b)) by done. apply M4 in E2 as [?|(_ & ? & _)]; [done|lia].
  - cbn [view_chain known headers]. rewrite Hp. unfold tip_block in Hl.
    rewrite (lookup_hash_map header) by (done || by eapply list_elem_of_lookup_2). by apply M2 in Hl as [_ ?].
Qed.

Lemma apply_block_connect c bs b0 b c' j :
  main_ok (config c) (known c) (main c) bs -> tip_block bs = Some b0 -> prev_block_hash (header b) = block_hash b0 ->
  apply_block b (zlen bs) c = (c', Ok j) -> root_mismatch b j = false ->
  connect (config c) bs (state (main c)) b = Some (state (main c'), j).
Proof.
  intros M Hl Hp E Hr. pose proof (apply_block_agrees b (zlen bs) _ _ (view_agrees c bs b0 b M Hl Hp)) as [E1 E2].
  rewrite E in E1, E2. simpl in E1, E2. unfold connect.
  destruct (apply_block b (zlen bs) (view_chain _ _ _)) as [c2 r2]. simpl in *. subst r2. by rewrite Hr, E1.
Qed.

(** Growing what is known, and the branch. *)
Lemma main_ok_known cfg k k' m bs :
  main_ok cfg k m bs ->
  (forall b, b ∈ bs -> block_heights k' !! block_hash b = block_heights k !! block_hash b /\
    headers k' !! block_hash b = headers k !! block_hash b /\ blocks k' !! block_hash b = blocks k !! block_hash b) ->
  (valid_known cfg k -> valid_known cfg k') -> main_ok cfg k' m bs.
Proof.
  intros [M1 M2 M3 M4 M5 M6 M7] Hk Hv. split; try done; [| |by apply Hv].
  - intros i b Hb. destruct (Hk b) as (-> & -> & _); [by eapply list_elem_of_lookup_2|]. auto.
  - intros i b Hb. destruct (Hk b) as (_ & _ & ->); [by eapply list_elem_of_lookup_2|]. auto.
Qed.

Lemma main_ok_append cfg k m bs b0 b l' j d :
  main_ok cfg k m bs -> tip_block bs = Some b0 -> prev_block_hash (header b) = block_hash b0 ->
  block_heights k !! block_hash b = Some (zlen bs) -> headers k !! block_hash b = Some (header b) ->
  blocks k !! block_hash b = Some b -> connect cfg bs (state m) b = Some (l', j) ->
  sound_block_txs (zlen bs) (transactions b) -> (forall x, x ∈ transactions b -> U x) -> valid_child cfg bs b ->
  main_ok cfg k (mkMain l' (height_index m ++ [block_hash b])
    (index_txs (block_hash b) (transactions b) (tx_index m)) (drop d (journals m ++ [j]))) (bs ++ [b]).
Proof.
  intros [M1 M2 M3 M4 [pre M5] M6 M7] Hl Hp Hh Hhd Hb Hc Hs Hu Hv.
  assert (Hat : forall i x, (bs ++ [b]) !! i = Some x -> bs !! i = Some x \/ (i = length bs /\ x = b)).
  { intros i x [?|[? [? ?]%list_lookup_singleton_Some]]%lookup_app_Some; [by left|right]. split; [lia|done]. }
  split; simpl.
  - by rewrite M1, map_app.
  - intros i x [E|[-> ->]]%Hat; [by apply M2|done].
  - intros i x y Hx [Hy|[Hy ->]]%Hat.
    + apply Hat in Hx as [Hx|[-> ->]]; [by eapply M3|]. apply lookup_lt_Some in Hy. lia.
    + apply Hat in Hx as [Hx|[-> ->]]; [|lia]. unfold tip_block in Hl.
      replace (Nat.pred (length bs)) with i in Hl by lia. congruence.
  - intros i x [E|[-> ->]]%Hat; [|by left]. apply M4 in E as [?|(E1 & E2 & E3)]; [by left|right].
    split_and!; [done|done|]. rewrite length_drop, !length_app. simpl. lia.
  - pose proof (history_block cfg bs (state m) (pre ++ journals m) b l' j M5 Hc Hs Hu Hv) as Hh'.
    exists (pre ++ take d (journals m ++ [j])). by rewrite <- app_assoc, take_drop, app_assoc.
  - unfold index_all. rewrite foldl_app. simpl. by rewrite M6.
  - done.
Qed.
(** ** Known blocks *)

Lemma learn_ok k hash b n :
  known_ok k -> block_heights k !! hash = None -> block_hash b = hash -> 0 <= n - 1 -> n <= u32_max ->
  block_heights k !! prev_block_hash (header b) = Some (n - 1) ->
  sound_block_txs n (transactions b) -> (forall x, x ∈ transactions b -> U x) ->
  known_ok (learn_block hash b (learn_index hash (prev_block_hash (header b)) n (n + 1) k)).
Proof.
  intros [K1 K2 K3 K4 K5 K6 K7 K8] Hn Hh Hn0 Hn1 Hp Hs Hu.
  assert (Hg : hash <> block_hash g) by (intros E; congruence). split; simpl.
  - by rewrite lookup_insert_ne.
  - by rewrite lookup_insert_ne.
  - intros h m [[<- <-]|[_ E]]%lookup_insert_Some; [lia|by eapply K3].
  - intros h m [[<- <-]|[Hne E]]%lookup_insert_Some Hneg.
    + exists (header b). rewrite !lookup_insert_eq. split_and!; [done|done|].
      rewrite lookup_insert_ne by congruence. done.
    + destruct (K4 h m E Hneg) as (hd & E1 & E2 & E3). exists hd. rewrite !(lookup_insert_ne _ hash h) by done.
      split_and!; [done|done|]. rewrite lookup_insert_ne by congruence. done.
  - intros h m [[<- <-]|[Hne E]]%lookup_insert_Some; [by rewrite lookup_insert_eq|].
    rewrite lookup_insert_ne by done. by apply K5.
  - intros h [E Hne]%lookup_insert_None. rewrite !lookup_insert_ne by done. by apply K6.
  - intros h b' [[<- <-]|[Hne E]]%lookup_insert_Some; [by rewrite lookup_insert_eq|].
    rewrite lookup_insert_ne by done. by apply K7.
  - intros h b' m [[<- <-]|[Hne E]]%lookup_insert_Some Hm Hneg.
    + rewrite lookup_insert_eq in Hm. injection Hm as <-. done.
    + rewrite lookup_insert_ne in Hm by done. by eapply K8.
Qed.

Lemma forget_learn k hash b parent n w :
  known_ok k -> block_heights k !! hash = None ->
  forget_block hash (learn_block hash b (learn_index hash parent n w k)) = k.
Proof.
  intros Hk Hn. destruct (ko_dom _ Hk hash Hn) as (D1 & D2 & D3 & D4).
  unfold forget_block, learn_block, learn_index. simpl. rewrite !delete_insert_id by done. by destruct k.
Qed.

Lemma forget_ok k hash :
  known_ok k -> hash <> block_hash g -> (forall h, parent_map k !! h <> Some hash) ->
  known_ok (forget_block hash k).
Proof.
  intros [K1 K2 K3 K4 K5 K6 K7 K8] Hg Hleaf. split; simpl.
  - by rewrite lookup_delete_ne.
  - by rewrite lookup_delete_ne.
  - intros h n [_ E]%lookup_delete_Some. by eapply K3.
  - intros h n [Hne E]%lookup_delete_Some Hneg. destruct (K4 h n E Hneg) as (hd & E1 & E2 & E3).
    exists hd. rewrite !(lookup_delete_ne _ hash h) by done. split_and!; [done|done|].
    rewrite lookup_delete_ne; [done|]. intros ->. by apply (Hleaf h).
  - intros h n [Hne E]%lookup_delete_Some. rewrite lookup_delete_ne by done. by apply K5.
  - intros h E. destruct (decide (hash = h)) as [->|Hne]; [by rewrite !lookup_delete_eq|].
    rewrite lookup_delete_ne in E by done. rewrite !lookup_delete_ne by done. by apply K6.
  - intros h b [Hne E]%lookup_delete_Some. rewrite lookup_delete_ne by done. by apply K7.
  - intros h b n [Hne E]%lookup_delete_Some [_ En]%lookup_delete_Some Hneg. by eapply K8.
Qed.

Lemma learn_valid cfg k hash b n w hd now :
  known_ok k -> block_heights k !! hash = None -> headers k !! prev_block_hash (header b) = Some hd ->
  validate_block_inner now b (n - 1) (timestamp hd) (bits hd) (stake_modifier hd) (prev_block_hash (header b))
    (allow_pow_test_blocks cfg) = Ok tt ->
  valid_known cfg k -> valid_known cfg (learn_block hash b (learn_index hash (prev_block_hash (header b)) n w k)).
Proof.
  intros Hk Hn Hhd Hv Hval h b' m Hb Hm Hg. destruct (ko_dom _ Hk hash Hn) as (D1 & D2 & _). simpl in *.
  apply lookup_insert_Some in Hb as [[<- <-]|[Hne Hb]].
  - rewrite lookup_insert_eq in Hm. injection Hm as <-. exists hd, now.
    rewrite lookup_insert_ne by congruence. done.
  - rewrite lookup_insert_ne in Hm by done. destruct (Hval h b' m Hb Hm Hg) as (hd' & now' & E & V). exists hd', now'.
    rewrite lookup_insert_ne by congruence. done.
Qed.

Lemma forget_valid cfg k hash :
  known_ok k -> (forall h, parent_map k !! h <> Some hash) -> valid_known cfg k -> valid_known cfg (forget_block hash k).
Proof.
  intros Hk Hleaf Hval h b n Hb Hn Hg. simpl in *. apply lookup_delete_Some in Hb as [Hne Hb], Hn as [_ Hn].
  destruct (Hval h b n Hb Hn Hg) as (hd & now & E & V). exists hd, now. split; [|done].
  rewrite lookup_delete_ne; [done|]. intros ->. destruct (ko_parent _ Hk h n Hn Hg) as (hd' & E1 & E2 & _).
  destruct (ko_body _ Hk h b Hb) as [_ E3]. rewrite E3 in E1. injection E1 as <-. by apply (Hleaf h).
Qed.

(** The known bodies on top of the tip are valid there. *)
Lemma known_child cfg k m bs b0 b :
  main_ok cfg k m bs -> tip_block bs = Some b0 -> prev_block_hash (header b) = block_hash b0 ->
  blocks k !! block_hash b = Some b -> block_heights k !! block_hash b = Some (zlen bs) -> block_hash b <> block_hash g ->
  valid_child cfg bs b.
Proof.
  intros M Ht Hp Hb Hh Hg. destruct (mo_valid _ _ _ _ M _ _ _ Hb Hh Hg) as (hd & now & E & V).
  destruct (mo_known _ _ _ _ M _ _ Ht) as [_ E']. rewrite Hp, E' in E. injection E as <-. rewrite Hp in V.
  by exists b0, now.
Qed.

(** ** Pruning *)

Lemma min_by_key_elem {A} (key : A -> Z) (l : list A) x : min_by_key key l = Some x -> x ∈ l.
Proof.
  revert x; induction l as [|y l IH]; intros x; simpl; [done|]. destruct (min_by_key key l) as [z|].
  - destruct (key y <=? key z); intros [= <-]; [left|right; auto].
  - intros [= <-]. left.
Qed.

Lemma fork_victim_leaf c hash :
  fork_victim c = Some hash ->
  (hash ∉ height_index (main c)) /\ forall h, parent_map (known c) !! h <> Some hash.
Proof.
  unfold fork_victim. intros Hv%min_by_key_elem%list_elem_of_In%filter_In.
  destruct Hv as [_ [H1 H2]%andb_true_iff]. apply negb_true_iff, bool_decide_eq_false in H1, H2.
  split; [done|]. intros h Hh. apply H2, list_elem_of_fmap. exists (h, hash). split; [done|].
  by apply elem_of_map_to_list.
Qed.

Lemma prune_loop_ok fuel bound c bs :
  chain_ok c bs -> chain_ok (prune_loop fuel bound c) bs /\
    main (prune_loop fuel bound c) = main c /\ config (prune_loop fuel bound c) = config c.
Proof.
  revert c; induction fuel as [|fuel IH]; intros c Hc; simpl; [done|].
  destruct (_ <=? bound); [done|]. destruct (fork_victim c) as [hash|] eqn:Ev; [|done].
  apply fork_victim_leaf in Ev as [Hm Hleaf]. destruct Hc as [C1 C2 C3].
  rewrite (mo_index _ _ _ _ C2) in Hm.
  assert (Hne : forall b, b ∈ bs -> hash <> block_hash b).
  { intros b Hb ->. apply Hm. apply list_elem_of_fmap. by exists b. }
  destruct (IH (set_known (forget_block hash) c)) as (I1 & I2 & I3); [|done].
  split; simpl.
  - apply forget_ok; [done| |done]. apply Hne.
    destruct (main_ok_facts _ _ _ _ C2) as [[[rest ->] _ _ _ _] _]. left.
  - eapply main_ok_known; [exact C2| |by apply forget_valid]. intros b Hb. simpl. by rewrite !lookup_delete_ne by by apply Hne.
  - intros h n [_ E]%lookup_delete_Some. by eapply C3.
Qed.

Lemma history_journals cfg bs l js i b :
  history cfg bs l js -> bs !! S i = Some b -> exists j, js !! S i = Some j /\ j_block_hash j = block_hash b.
Proof.
  induction 1 as [j0|bs l js b' l' j Hh IH Hc Hs Hu Hv]; [done|]. pose proof (history_facts _ _ _ _ Hh) as Hok.
  pose proof (ho_journals _ _ _ Hok) as Hlen. intros [Hi|[Hi Hb]]%lookup_app_Some.
  - destruct (IH Hi) as (j' & Hj & E). exists j'. split; [|done]. by apply lookup_app_l_Some.
  - apply list_lookup_singleton_Some in Hb as [Hz <-]. exists j.
    destruct (connect_sound cfg bs l b' l' j) as (_ & _ & _ & E & _); [by exists js|done..|]. split; [|done].
    rewrite lookup_app_r by lia. by replace (S i - length js)%nat with 0%nat by lia.
Qed.

Lemma prune_main_ok c bs :
  chain_ok c bs -> chain_ok (prune_main_body c) bs /\
    main (prune_main_body c) = main c /\ config (prune_main_body c) = config c.
Proof.
  intros Hc. unfold prune_main_body. destruct (_ || _); [done|].
  set (v := as_u32 _). destruct (Z.ltb_spec v 2) as [|Hv]; [done|].
  destruct (vec_at _ v) as [hash|] eqn:Ev; [|done]. destruct (existsb _ _) eqn:Ej; [done|].
  split; [|done]. destruct Hc as [C1 C2 C3].
  unfold vec_at in Ev. rewrite (proj2 (Z.leb_le 0 v)), (mo_index _ _ _ _ C2), list_lookup_fmap in Ev by lia.
  destruct (bs !! Z.to_nat v) as [bv|] eqn:Eb; [|done]. simpl in Ev. injection Ev as <-.
  split; simpl; [| |done].
  - destruct C1 as [K1 K2 K3 K4 K5 K6 K7 K8]. split; simpl; try done.
    + intros h Hh. destruct (K6 h Hh) as (? & ? & ? & ?). by rewrite lookup_delete_None; auto.
    + intros h b [_ E]%lookup_delete_Some. by apply K7.
    + intros h b n [_ E]%lookup_delete_Some. by eapply K8.
  - pose proof C2 as [M1 M2 M3 M4 [pre M5] M6 M7]. split; simpl; try done; [|by exists pre|].
    2: { intros h b n Hb. simpl in Hb. apply lookup_delete_Some in Hb as [_ Hb]. by apply M7. }
    intros i b Hb. destruct (decide (i = Z.to_nat v)) as [->|Hne].
    + rewrite Eb in Hb. injection Hb as <-. right. rewrite lookup_delete_eq. split_and!; [done|lia|].
      destruct (decide (Z.to_nat v + length (journals (main c)) < length bs)%nat) as [|Hj]; [done|].
      pose proof (ho_journals _ _ _ (history_facts _ _ _ _ M5)) as Hlen. rewrite length_app in Hlen.
      destruct (Z.to_nat v) as [|v'] eqn:Ez; [lia|].
      destruct (history_journals _ _ _ _ v' bv M5) as (j & Hj' & E); [done|].
      rewrite lookup_app_r in Hj' by lia. apply list_elem_of_lookup_2, list_elem_of_In in Hj'.
      assert (existsb (fun j => bytes_eqb (j_block_hash j) (block_hash bv)) (journals (main c)) = true) as Ex; [|congruence].
      apply existsb_exists. exists j. split; [done|]. rewrite E. apply bytes_eqb_refl.
    + rewrite lookup_delete_ne; [by apply M4|]. intros E.
      by pose proof (hash_index_inj _ _ _ _ _ _ _ _ C2 Eb Hb E).
Qed.

Lemma prune_ok c bs :
  chain_ok c bs -> chain_ok (prune_bodies c) bs /\ main (prune_bodies c) = main c /\ config (prune_bodies c) = config c.
Proof.
  intros Hc. destruct (prune_main_ok c bs Hc) as (H1 & H2 & H3). unfold prune_bodies, prune_fork_bodies.
  set (c1 := prune_main_body c) in *.
  destruct (prune_loop_ok (size (blocks (known c1))) (retained_main_bodies c1 + MAX_FORK_BODIES) c1 bs H1) as (H4 & H5 & H6).
  split; [done|]. by rewrite H5, H6.
Qed.
(** ** Extending the active chain *)

(** Values and lengths in the range of their machine types. *)
Definition typed_txs (txs : list Transaction) : Prop :=
  Forall (fun tx => Forall (fun o => 0 <= value o) (outputs tx) /\ zlen (outputs tx) < 2 ^ 32) txs.

Lemma validate_each txs :
  rfold (fun _ tx => validate_transaction tx) tt txs = Ok tt -> Forall (fun tx => validate_transaction tx = Ok tt) txs.
Proof.
  induction txs as [|tx txs IH]; simpl; [constructor|].
  destruct (validate_transaction tx) as [[]| |] eqn:E; simpl; try done. intros Hv. by constructor; [|apply IH].
Qed.

Lemma validated_sound now b n ts bi sm prev pow :
  validate_block_inner now b n ts bi sm prev pow = Ok tt -> typed_txs (transactions b) ->
  sound_block_txs (n + 1) (transactions b) /\ n + 1 <= u32_max.
Proof.
  unfold validate_block_inner. intros Hv Ht. destruct (transactions b) as [|tx rest] eqn:Eb; [done|]. rewrite <- Eb in *.
  destruct (_ <? _); [done|]. destruct (padd u32_max n 1) as [nx| |] eqn:En; [|done..]. cbn [rbind] in Hv.
  unfold padd, checked_add in En. destruct (Z.leb_spec (n + 1) u32_max); [|done]. injection En as <-.
  destruct (Z.eqb_spec (Block.height b) (n + 1)) as [Eh|]; [cbn [negb] in Hv|done].
  destruct (negb _); [done|]. destruct (negb _); [done|].
  destruct (check_first_tx _ _ _ _) as [[]| |]; [|done..]. cbn [rbind] in Hv.
  destruct (existsb _ rest) eqn:Er; [done|]. destruct (_ <? _); [done|]. destruct (_ <=? _); [done|].
  destruct (no_err _) as [root| |]; [|done..]. cbn [rbind] in Hv. destruct (negb _); [done|].
  apply validate_each in Hv. split; [|done]. split.
  - apply Forall_forall. intros x Hx. unfold typed_txs in Ht. rewrite Forall_forall in Hv, Ht. destruct (Ht x Hx). by split; [split; [apply Hv|]|].
  - rewrite Eb. split.
    + intros _. unfold Block.height in Eh. by rewrite Eb in Eh.
    + apply Forall_forall. intros x Hx. destruct (is_coinbase x) eqn:Ec; [|done].
      assert (existsb (fun tx => is_coinbase tx || is_coinstake tx) rest = true) as Ex; [|congruence].
      apply existsb_exists. exists x. split; [by apply list_elem_of_In|]. by rewrite Ec.
Qed.

(** Nothing but the commitment buffers has changed. *)
Definition same_chain (c c' : Chain) : Prop := known c' = known c /\ main c' = main c /\ config c' = config c.

Lemma tip_exists bs : bs <> [] -> exists b0, tip_block bs = Some b0.
Proof.
  intros Hne. destruct (exists_last Hne) as (bs' & b & ->). exists b. unfold tip_block.
  rewrite length_app. simpl. replace (Nat.pred (length bs' + 1)) with (length bs') by lia.
  by apply list_lookup_middle.
Qed.

Lemma best_hash_tip c bs b0 :
  main_ok (config c) (known c) (main c) bs -> tip_block bs = Some b0 -> best_hash c = Some (block_hash b0).
Proof.
  intros M Ht. unfold best_hash. rewrite (mo_index _ _ _ _ M). destruct (main_ok_facts _ _ _ _ M) as [_ Hne].
  destruct (exists_last Hne) as (bs' & b & ->). unfold tip_block in Ht. rewrite length_app in Ht. simpl in Ht.
  replace (Nat.pred (length bs' + 1)) with (length bs') in Ht by lia. rewrite list_lookup_middle in Ht by done.
  injection Ht as <-. unfold vec_last. by rewrite map_app, rev_app_distr.
Qed.

Lemma header_tip c bs b0 :
  main_ok (config c) (known c) (main c) bs -> tip_block bs = Some b0 -> 1 <= zlen bs ->
  get_header_at_height c (zlen bs - 1) = Some (header b0).
Proof.
  intros M Ht Hlen. unfold get_header_at_height, vec_at.
  rewrite (mo_index _ _ _ _ M), (proj2 (Z.leb_le _ _)), list_lookup_fmap by lia. unfold tip_block in Ht.
  replace (Z.to_nat (zlen bs - 1)) with (Nat.pred (length bs)) by (unfold zlen; lia).
  rewrite Ht. cbn. apply (mo_known _ _ _ _ M _ _ Ht).
Qed.

(** Applying a block to the tip, on a chain in order. *)
Lemma apply_block_tip c bs b0 b :
  main_ok (config c) (known c) (main c) bs -> tip_block bs = Some b0 -> prev_block_hash (header b) = block_hash b0 ->
  sound_block_txs (zlen bs) (transactions b) -> (forall x, x ∈ transactions b -> U x) ->
  soc (apply_block b (zlen bs))
    (fun j c' => known c' = known c /\ config c' = config c /\ height_index (main c') = height_index (main c) /\
       tx_index (main c') = tx_index (main c) /\ journals (main c') = journals (main c) /\
       rollback_journal j (state (main c')) = Ok (state (main c)) /\ journal_of (state (main c)) j (state (main c')) /\
       (root_mismatch b j = false -> connect (config c) bs (state (main c)) b = Some (state (main c'), j)))
    (fun _ c' => same_chain c c') c.
Proof.
  intros M Ht Hp Hs Hu. pose proof (apply_block_frame b (zlen bs) c) as (F1 & F2 & F3 & F4 & F5).
  destruct (main_ok_facts _ _ _ _ M) as [[_ _ Htr _ Hall] _].
  pose proof (apply_block_sound (all_txs bs) b (zlen bs) c Hall Hu Hs Htr) as Hx.
  unfold soc. destruct (apply_block b (zlen bs) c) as [c' [j|e|]] eqn:E; [| |done]; simpl in *.
  - split_and!; try done; [by apply Hx|by apply Hx|]. intros Hr. by eapply apply_block_connect.
  - split; [done|]. split; [|done]. destruct (main c), (main c'); simpl in *. congruence.
Qed.

Lemma extend_main_ok now b c bs b0 :
  chain_ok c bs -> tip_block bs = Some b0 -> prev_block_hash (header b) = block_hash b0 ->
  block_heights (known c) !! block_hash b = None ->
  typed_txs (transactions b) -> (forall x, x ∈ transactions b -> U x) ->
  soc (extend_main now b (block_hash b) (block_hash b0))
    (fun a c' => chain_ok c' (bs ++ [b]) /\ config c' = config c /\
       view_accept b a (view_of bs (state (main c))) (view_of (bs ++ [b]) (state (main c'))))
    (fun _ c' => same_chain c c') c.
Proof.
  intros [C1 C2 C3] Ht Hp Hn Hty Hu. unfold extend_main. do 2 soc_step. unfold id at 1.
  rewrite (best_height_eq _ _ _ _ c C1 C2 eq_refl). pose proof (branch_length _ _ _ _ C1 C2) as Hlen. soc_step. soc_step; [|done].
  intros height [-> Hmax]%padd_Ok. replace (zlen bs - 1 + 1) with (zlen bs) in * by lia.
  do 2 soc_step; [|done]. intros hd Hhd. assert (hd = header b0) as ->.
  { unfold id in Hhd. rewrite (header_tip c bs b0 C2 Ht) in Hhd by lia. by injection Hhd. }
  do 2 soc_step; [|done]. intros [] Hval.
  assert (valid_child (config c) bs b) as Hchild by by exists b0, now.
  destruct (validated_sound _ _ _ _ _ _ _ _ Hval Hty) as [Hs _]. replace (zlen bs - 1 + 1) with (zlen bs) in Hs by lia.
  soc_step. eapply soc_mono; [eapply apply_block_tip; [exact C2|exact Ht|exact Hp|exact Hs|exact Hu]| |done].
  intros j c1 (F1 & F2 & F3 & F4 & F5 & Hrb & Hjo & Hcon). simpl. soc_step; intros Hroot.
  { soc_step. unfold soc at 1. rewrite Hrb. do 3 soc_step. split; [done|]. split; [|done].
    simpl. rewrite F3, F4, F5. by destruct (main c). }
  pose proof (fun k => history_keyed _ _ _ k (proj1 (main_ok_facts _ _ _ _ C2))) as Hkeys.
  specialize (Hcon Hroot). soc_step. unfold soc at 1, next_work. rewrite F1.
  assert (block_heights (known c) !! block_hash b0 = Some (zlen bs - 1)) as Hb0.
  { destruct (mo_known _ _ _ _ C2 _ _ Ht) as [-> _]. unfold zlen.
    destruct (main_ok_facts _ _ _ _ C2) as [_ Hne]. f_equal. destruct bs; simpl; [done|]. lia. }
  rewrite (ko_work _ C1 _ _ Hb0). destruct (padd u64_max _ 1) as [w|e|] eqn:Ew; [|by apply padd_Err in Ew|done].
  apply padd_Ok in Ew as [-> _]. do 4 soc_step. cbv beta. pose proof (view_appended bs _ b _ j (zlen bs) Hjo Hkeys eq_refl) as Hview.
  cbn [set_known main state]. destruct (utxo_diff _ _) as [added removed].
  replace (zlen bs - 1 + 1) with (zlen bs) by lia. do 11 soc_step. set (c2 := set_main _ (set_known (learn_block _ _) _)).
  destruct (prune_ok c2 (bs ++ [b])) as (P1 & P2 & P3); [|split_and!; [done|by rewrite P3|by rewrite P2]].
  pose proof (learn_ok (known c) (block_hash b) b (zlen bs) C1 Hn eq_refl) as Hk. rewrite Hp in Hk.
  specialize (Hk ltac:(lia) Hmax Hb0 Hs Hu).
  subst c2. split; simpl; rewrite ?F1, ?F2, ?F3, ?F4, ?F5; [exact Hk| |].
  - eapply main_ok_append; [|exact Ht|exact Hp|apply lookup_insert_eq..|exact Hcon|exact Hs|exact Hu|exact Hchild].
    eapply main_ok_known; [exact C2| |].
    + intros x [i Hx]%list_elem_of_lookup. simpl.
      assert (block_hash b <> block_hash x) as Hne by (intros E; destruct (mo_known _ _ _ _ C2 i x Hx); congruence).
      by rewrite !lookup_insert_ne.
    + rewrite <- Hp. intros Hvk. eapply (learn_valid _ _ _ _ _ _ (header b0) now C1 Hn); [| |done]; rewrite Hp;
        [apply (mo_known _ _ _ _ C2 _ _ Ht)|exact Hval].
  - intros h n [[_ <-]|[_ E]]%lookup_insert_Some; rewrite zlen_app; change (zlen [b]) with 1; [lia|].
    specialize (C3 h n E). lia.
Qed.
(** ** Rolling back *)

Lemma undo_block_exact j l l' :
  rollback_journal j l' = Ok l ->
  exists gv, match previous_governance j with
      | Some undo => restore_undo undo (governance l')
      | None => Ok (governance l')
      end = Ok gv /\
    set_gov gv (previous_params j) (set_totals (previous_supply j) (previous_staked j) (undo_block j l')) = l.
Proof.
  unfold rollback_journal. destruct (match previous_governance j with Some _ => _ | None => _ end) as [gv| |];
    cbn [rbind]; [|done..]. intros [= <-]. exists gv. split; [done|].
  unfold undo_block, rollback_changes. simpl. unfold set_gov, set_totals, set_claimed, set_utxos. simpl. f_equal.
  apply set_eq. intros x. rewrite !foldl_difference, !elem_of_difference, !elem_of_list_to_set.
  by rewrite !list_elem_of_In, <- in_rev.
Qed.

Lemma index_txs_other hash txs idx x :
  x ∉ map txid txs -> index_txs hash txs idx !! x = idx !! x.
Proof.
  unfold index_txs. rewrite <- (map_imap_snd (fun tx => txid tx) txs). revert idx.
  induction (imap pair txs) as [|[i tx] es IH]; intros idx Hx; simpl; [done|]. simpl in Hx.
  rewrite not_elem_of_cons in Hx. rewrite IH by tauto. apply lookup_insert_ne. intros E. by destruct Hx.
Qed.

Lemma index_txs_delete hash txs idx :
  (forall x, x ∈ map txid txs -> idx !! x = None) ->
  foldl (fun idx id => delete id idx) (index_txs hash txs idx) (map txid txs) = idx.
Proof.
  intros Hn. apply map_eq. intros x.
  assert (Hdel : forall ks (m : gmap bytes (bytes * nat)), foldl (fun idx id => delete id idx) m ks !! x =
    if decide (x ∈ ks) then None else m !! x).
  { induction ks as [|k ks IH]; intros m; simpl; [done|]. rewrite IH.
    destruct (decide (x ∈ ks)); [by rewrite decide_True by by right|].
    destruct (decide (x = k)) as [->|]; [by rewrite decide_True, lookup_delete_eq by left|].
    rewrite decide_False by (rewrite elem_of_cons; tauto). by rewrite lookup_delete_ne. }
  rewrite Hdel. destruct (decide (x ∈ map txid txs)) as [Hx|Hx]; [by rewrite Hn|]. by apply index_txs_other.
Qed.

Lemma index_all_snoc bs b : index_all (bs ++ [b]) = index_txs (block_hash b) (transactions b) (index_all bs).
Proof. unfold index_all. by rewrite foldl_app. Qed.

Lemma index_all_out bs x : x ∉ map txid (all_txs bs) -> index_all bs !! x = None.
Proof.
  induction bs as [|b bs IH] using rev_ind; [done|]. rewrite all_txs_snoc, map_app, elem_of_app, index_all_snoc.
  intros Hx. rewrite index_txs_other by tauto. apply IH. tauto.
Qed.

(** What rolling back the block [b] gives back. *)
Lemma rollback_one_ok c bs b :
  main_ok (config c) (known c) (main c) (bs ++ [b]) -> bs <> [] ->
  soc rollback_one_block
    (fun r c' => main_ok (config c) (known c) (main c') bs /\ known c' = known c /\ config c' = config c /\
       length (journals (main c)) = S (length (journals (main c'))) /\
       r.1 = transactions b /\ rb_hash r.2 = block_hash b /\ rb_height r.2 = zlen bs /\
       view_rollback r.2 (view_of (bs ++ [b]) (state (main c))) (view_of bs (state (main c'))))
    (fun _ c' => c' = c) c.
Proof.
  intros M Hne. destruct (main_ok_facts _ _ _ _ M) as [[_ _ Htr _ _] _].
  destruct M as [M1 M2 M3 M4 [pre M5] M6 M7]. unfold rollback_one_block. soc_step. unfold soc at 1.
  destruct (vec_pop (journals (main c))) as [[j js]|] eqn:Ej; [|done]. apply vec_pop_Some in Ej. unfold vec_push in Ej.
  rewrite Ej in *. rewrite app_assoc in M5.
  destruct (history_last _ _ _ _ _ Hne M5) as (l & js1 & j1 & Ejs & Hh & Hc & Hrb & Hjh & Hjn & Hjo).
  apply app_inj_tail in Ejs as [<- <-].
  assert (block_txs (known c) (j_block_hash j) = transactions b) as Hbt.
  { unfold block_txs. rewrite Hjh. destruct (M4 (length bs) b) as [->|(_ & _ & Hl)]; [by apply list_lookup_middle|done|].
    rewrite !length_app in Hl. simpl in Hl. lia. }
  destruct (undo_block_exact _ _ _ Hrb) as (gv & Hgv & Hl).
  do 9 soc_step. unfold soc at 1. cbn [set_main main state governance undo_block set_claimed set_utxos]. rewrite Hgv.
  do 7 soc_step. cbn [set_main main known config state height_index tx_index journals remove_block_transactions].
  rewrite Hbt, M6, Hl, M1, map_app. cbn [map].
  change (map block_hash bs ++ [block_hash b]) with (vec_push (map block_hash bs) (block_hash b)). rewrite vec_pop_push.
  assert (Hpre : forall i x, bs !! i = Some x -> (bs ++ [b]) !! i = Some x) by (intros; by apply lookup_app_l_Some).
  pose proof (history_facts _ _ _ _ Hh) as Hok. pose proof (ho_ledger _ _ _ Hok) as Hinv.
  assert (utxo_set (undo_block j (state (main c))) = utxo_set l) as -> by by rewrite <- Hl.
  split_and!; [|done|done|rewrite length_app; simpl; lia|done|done|done|].
  2: { apply view_rolled_back; [done|done|intros k; by eapply history_keyed|intros k u Hk; by apply (li_utxos _ Hinv k u)| |].
       - intros k. by rewrite elem_of_set_list, elem_of_list_to_set.
       - rewrite <- Hl. cbn. by rewrite foldl_difference. }
  split; simpl; [done|eauto| | |by exists pre| |done].
  - intros i x y Hx Hy. eapply M3; eauto.
  - intros i x Hx. apply Hpre, M4 in Hx as [?|(? & ? & Hlt)]; [by left|right]. split_and!; [done|done|].
    rewrite !length_app in Hlt. simpl in Hlt. lia.
  - rewrite index_all_snoc. apply index_txs_delete. intros x Hx. apply index_all_out.
    apply tr_nodup in Htr. rewrite all_txs_snoc, map_app in Htr. apply NoDup_app in Htr as (_ & Hd & _).
    intros Hx'. by apply (Hd x).
Qed.
(** What rolling back and applying a fork leave alone. *)
Definition same_known (c c' : Chain) : Prop := known c' = known c /\ config c' = config c.

Lemma rollback_loop_ok fuel n : forall c bs txs rbs,
  known_ok (known c) -> main_ok (config c) (known c) (main c) bs -> (n < length bs)%nat ->
  soc (rollback_loop fuel (Z.of_nat n) txs rbs)
    (fun r c' => main_ok (config c) (known c) (main c') (take (S n) bs) /\ same_known c c' /\
       exists new, r.2 = rbs ++ new /\
         view_rollbacks new (view_of bs (state (main c))) (view_of (take (S n) bs) (state (main c'))))
    (fun _ c' => same_known c c') c.
Proof.
  induction fuel as [|fuel IH]; intros c bs txs rbs Hk M Hn; simpl; [done|]. do 2 soc_step.
  rewrite (best_height_eq _ _ _ _ c Hk M eq_refl). soc_step.
  - intros Hle%Z.leb_le. soc_step. rewrite take_ge by (unfold zlen in Hle; lia). split; [done|]. split; [done|].
    exists []. by rewrite app_nil_r.
  - intros Hgt%Z.leb_gt. unfold zlen in Hgt. destruct (main_ok_facts _ _ _ _ M) as [_ Hne].
    destruct (exists_last Hne) as (bs1 & b & ->). rewrite length_app in Hgt, Hn. simpl in Hgt, Hn.
    assert (bs1 <> []) as Hne1 by (intros ->; simpl in *; lia). soc_step.
    eapply soc_mono; [by apply (rollback_one_ok c bs1 b)| |by intros e s ->].
    intros [t rb] c1 (M1 & K1 & C1 & _ & _ & _ & _ & V1). rewrite <- C1, <- K1 in M1.
    eapply soc_mono; [apply (IH c1 bs1); [by rewrite K1|done|lia]| |].
    + intros r c2 (M2 & [K2 C2] & new & Hr & V2). rewrite C1, K1 in M2. rewrite take_app_le by lia. split; [done|].
      split; [split; congruence|]. exists (rb :: new). rewrite Hr, <- app_assoc. split; [done|]. by exists (view_of bs1 (state (main c1))).
    + intros e c2 [K2 C2]. split; congruence.
Qed.

(** A path of known blocks upwards from [p] at height [f]. *)
Fixpoint linked (k : Known) (p : bytes) (f : Z) (hs : list bytes) : Prop :=
  match hs with
  | [] => True
  | h :: hs => block_heights k !! h = Some (f + 1) /\ parent_map k !! h = Some p /\ linked k h (f + 1) hs
  end.

Lemma linked_snoc k hs : forall p f h q,
  linked k p f hs -> vec_last (p :: hs) = Some q -> parent_map k !! h = Some q ->
  block_heights k !! h = Some (f + zlen hs + 1) -> linked k p f (hs ++ [h]).
Proof.
  induction hs as [|x hs IH]; intros p f h q Hl Hq Hp Hh; simpl.
  - injection Hq as <-. rewrite Z.add_0_r in Hh. done.
  - destruct Hl as (L1 & L2 & L3). split_and!; [done|done|]. eapply IH; [done| |done|].
    + rewrite <- Hq. unfold vec_last. simpl. destruct (rev hs) eqn:E; simpl; done.
    + rewrite zlen_cons in Hh. rewrite Hh. f_equal. lia.
Qed.

Lemma to_apply_linked k fuel fp f : forall cursor n path,
  known_ok k -> block_heights k !! fp = Some f -> block_heights k !! cursor = Some n ->
  to_apply_loop fuel (parent_map k) fp cursor = Ok path ->
  linked k fp f (rev path) /\ n = f + zlen path /\ vec_last (fp :: rev path) = Some cursor.
Proof.
  induction fuel as [|fuel IH]; intros cursor n path Hk Hf Hn; simpl; [done|].
  destruct (bytes_eqb cursor fp) eqn:Ec.
  - apply bytes_eqb_eq in Ec as ->. intros [= <-]. simpl. split_and!; [done| |done].
    rewrite Hf in Hn. injection Hn as ->. unfold zlen. simpl. lia.
  - destruct (parent_map k !! cursor) as [p|] eqn:Ep; cbn [ok_or rbind]; [|done].
    destruct (to_apply_loop fuel _ fp p) as [rest| |] eqn:Er; cbn [rbind]; [|done..]. intros [= <-].
    assert (cursor <> block_hash g) as Hg by (intros ->; by rewrite (ko_root _ Hk) in Ep).
    destruct (ko_parent _ Hk _ _ Hn Hg) as (hd & _ & E1 & E2). rewrite Ep in E1. injection E1 as ->.
    destruct (IH _ _ _ Hk Hf E2 Er) as (I1 & I2 & I3). cbn [rev].
    assert (zlen (rev rest) = zlen rest) as Hz by (unfold zlen; by rewrite length_rev).
    split_and!.
    + eapply linked_snoc; [done|exact I3|done|]. rewrite Hz, Hn. f_equal. lia.
    + rewrite zlen_cons. lia.
    + unfold vec_last. cbn [rev]. by rewrite rev_app_distr.
Qed.

Lemma apply_fork_block_ok c bs b0 fh i hash :
  known_ok (known c) -> main_ok (config c) (known c) (main c) bs -> tip_block bs = Some b0 ->
  0 <= fh -> zlen bs = fh + 1 + Z.of_nat i ->
  block_heights (known c) !! hash = Some (zlen bs) -> parent_map (known c) !! hash = Some (block_hash b0) ->
  soc (apply_fork_block fh (i, hash))
    (fun a c' => exists b, block_hash b = hash /\ main_ok (config c) (known c) (main c') (bs ++ [b]) /\ same_known c c' /\
       view_fork_block a (view_of bs (state (main c))) (view_of (bs ++ [b]) (state (main c'))))
    (fun _ c' => same_known c c') c.
Proof.
  intros Hk M Ht Hfh Hi Hh Hp. pose proof (branch_length _ _ _ _ Hk M) as Hlen.
  assert (Hg : hash <> block_hash g).
  { intros ->. rewrite (ko_genesis _ Hk) in Hh. injection Hh as Hh. lia. }
  unfold apply_fork_block. soc_step. soc_step; [|done].
  intros height Eh. destruct (padd u32_max fh 1) as [h1| |] eqn:E1; [|done..]. cbn [rbind] in Eh.
  apply padd_Ok in E1 as [-> ?], Eh as [-> ?]. assert (as_u32 (Z.of_nat i) = Z.of_nat i) as ->.
  { unfold as_u32, u32_max in *. rewrite Z.mod_small; lia. }
  rewrite <- Hi. do 2 soc_step. do 2 soc_step; [|done]. unfold id. intros b Hb.
  destruct (blocks (known c) !! hash) as [b'|] eqn:Eb; [|done]. injection Hb as ->.
  destruct (ko_body _ Hk _ _ Eb) as [Hbh Hhd]. destruct (ko_sound _ Hk _ _ _ Eb Hh Hg) as [Hs Hu].
  destruct (ko_parent _ Hk _ _ Hh Hg) as (hd & E1 & E2 & _). rewrite Hhd in E1. injection E1 as <-.
  rewrite Hp in E2. injection E2 as E2. symmetry in E2.
  soc_step. eapply soc_mono; [by eapply apply_block_tip| |].
  - intros j c1 (F1 & F2 & F3 & F4 & F5 & Hrb & Hjo & Hcon). soc_step; intros Hroot; [by soc_step|].
    pose proof (fun k => history_keyed _ _ _ k (proj1 (main_ok_facts _ _ _ _ M))) as Hkeys.
    specialize (Hcon Hroot). do 4 soc_step. pose proof (view_appended bs _ b _ j (zlen bs) Hjo Hkeys eq_refl) as Hview.
    cbn [set_main main state index_block_transactions]. rewrite (fork_diff_eq _ _ _ _ (proj1 Hjo)).
    destruct (utxo_diff _ _) as [added removed]. do 3 soc_step.
    exists b. split; [done|]. split; [|done]. simpl. rewrite F3, F4, F5.
    rewrite <- Hbh in Hh, Hhd, Eb. rewrite <- Hbh.
    apply (main_ok_append _ _ _ _ _ _ _ _ 0 M Ht E2 Hh Hhd Eb Hcon Hs Hu).
    apply (known_child _ _ _ _ b0 b M Ht E2 Eb Hh). by rewrite Hbh.
  - intros e c1 (S1 & _ & S2). done.
Qed.

Lemma tip_snoc bs b : tip_block (bs ++ [b]) = Some b.
Proof.
  unfold tip_block. rewrite length_app. simpl. replace (Nat.pred (length bs + 1)) with (length bs) by lia.
  by apply list_lookup_middle.
Qed.

Lemma apply_fork_ok fh hs : forall c bs b0 i acc,
  known_ok (known c) -> main_ok (config c) (known c) (main c) bs -> tip_block bs = Some b0 ->
  0 <= fh -> zlen bs = fh + 1 + Z.of_nat i -> linked (known c) (block_hash b0) (zlen bs - 1) hs ->
  soc (apply_fork fh (imap (fun k => pair (i + k)%nat) hs) acc)
    (fun r c' => exists news, map block_hash news = hs /\
       main_ok (config c) (known c) (main c') (bs ++ news) /\ same_known c c' /\
       exists new, r = acc ++ new /\
         view_forks new (view_of bs (state (main c))) (view_of (bs ++ news) (state (main c'))))
    (fun _ c' => same_known c c') c.
Proof.
  induction hs as [|h hs IH]; intros c bs b0 i acc Hk M Ht Hfh Hi Hl.
  { simpl. soc_step. exists []. rewrite app_nil_r. split; [done|]. split; [done|]. split; [done|].
    exists []. by rewrite app_nil_r. }
  destruct Hl as (L1 & L2 & L3). replace (zlen bs - 1 + 1) with (zlen bs) in * by lia.
  rewrite imap_cons. cbn [apply_fork]. rewrite Nat.add_0_r. soc_step.
  eapply soc_mono; [by eapply apply_fork_block_ok| |done]. intros a c1 (b & Hb & M1 & [K1 C1] & V1).
  rewrite <- K1, <- C1 in M1. rewrite (imap_ext _ (fun k => pair (S i + k)%nat))
    by (intros k x _; simpl; f_equal; lia).
  eapply soc_mono; [apply (IH c1 (bs ++ [b]) b (S i)); [by rewrite K1|done|apply tip_snoc|done| |]| |].
  - rewrite zlen_app. change (zlen [b]) with 1. lia.
  - rewrite zlen_app. change (zlen [b]) with 1. replace (zlen bs + 1 - 1) with (zlen bs) by lia. by rewrite K1, Hb.
  - intros r c2 (news & Hn & M2 & [K2 C2] & new & Hr & V2). exists (b :: news). simpl. rewrite Hb, Hn. split; [done|].
    rewrite <- app_assoc in M2, V2. rewrite K1, C1 in M2. split; [done|]. split; [split; congruence|].
    exists (a :: new). rewrite Hr, <- app_assoc. split; [done|]. by exists (view_of (bs ++ [b]) (state (main c1))).
  - intros e c2 [K2 C2]. split; congruence.
Qed.

(** The ancestors of the active tip are the active chain. *)
Lemma ancestors_active fuel : forall cfg k m bs i b path,
  known_ok k -> main_ok cfg k m bs -> bs !! i = Some b ->
  ancestors_loop fuel (block_hash g) (parent_map k) (block_hash b) = Ok path ->
  forall x, x ∈ path -> exists n b', bs !! n = Some b' /\ x = block_hash b'.
Proof.
  induction fuel as [|fuel IH]; intros cfg k m bs i b path Hk M Hi; simpl; [done|].
  destruct (bytes_eqb (block_hash b) (block_hash g)) eqn:Eg.
  { intros [= <-] x ->%list_elem_of_singleton. eauto. }
  apply bytes_eqb_neq in Eg. destruct (mo_known _ _ _ _ M _ _ Hi) as [Hh Hhd].
  destruct (ko_parent _ Hk _ _ Hh Eg) as (hd & E1 & E2 & _). rewrite Hhd in E1. injection E1 as <-. rewrite E2.
  destruct i as [|i].
  { destruct (main_ok_facts _ _ _ _ M) as [[[rest ->] _ _ _ _] _]. injection Hi as <-. done. }
  destruct (lookup_lt_is_Some_2 bs i) as [b1 Hb1]; [apply lookup_lt_Some in Hi; lia|].
  rewrite (mo_link _ _ _ _ M _ _ _ Hb1 Hi).
  destruct (ancestors_loop fuel _ _ (block_hash b1)) as [rest| |] eqn:Er; cbn [rbind]; [|done..].
  intros [= <-] x [->|Hx]%elem_of_cons; [eauto|]. eapply IH; eauto.
Qed.

Lemma find_fork_point_elem old new :
  find_fork_point old new <> zero_hash -> find_fork_point old new ∈ old.
Proof.
  unfold find_fork_point. destruct (List.find _ old) as [h|] eqn:E; [|done]. intros _.
  apply find_some in E as [E _]. by apply list_elem_of_In.
Qed.

Lemma reorganize_inner_ok c bs new_tip nth :
  known_ok (known c) -> main_ok (config c) (known c) (main c) bs ->
  block_heights (known c) !! new_tip = Some nth ->
  soc (reorganize_to_inner new_tip nth)
    (fun r c' => exists bs', main_ok (config c) (known c) (main c') bs' /\ same_known c c' /\
       (best_hash c' = Some new_tip /\ best_height c' = nth) /\
       exists v, view_rollbacks r.1.2 (view_of bs (state (main c))) v /\ view_forks r.2 v (view_of bs' (state (main c'))))
    (fun _ c' => same_known c c') c.
Proof.
  intros Hk M Hnt. unfold reorganize_to_inner, id. do 2 soc_step.
  destruct (main_ok_facts _ _ _ _ M) as [Hfacts Hne]. destruct (tip_exists bs Hne) as [b0 Ht].
  rewrite (best_hash_tip c bs b0 M Ht). do 2 soc_step; [|done]. intros new_chain _.
  do 2 soc_step; [|done]. intros old_chain Hold. soc_step; [by intros _; soc_step|]. intros Hz%bytes_eqb_neq.
  apply find_fork_point_elem in Hz. set (fp := find_fork_point old_chain new_chain) in *. clearbody fp.
  assert (exists n bf, bs !! n = Some bf /\ fp = block_hash bf) as (n & bf & Hn & ->).
  { unfold ancestors in Hold. rewrite (mo_index _ _ _ _ M) in Hold.
    destruct (ho_head _ _ _ Hfacts) as [rest Hrest]. rewrite Hrest in Hold. cbn [map] in Hold.
    change (vec_get (block_hash g :: map block_hash rest) 0) with (@Ok NodeError _ (block_hash g)) in Hold.
    cbn [rbind] in Hold. eapply ancestors_active; [exact Hk|exact M|exact Ht|exact Hold|done]. }
  soc_step. soc_step; [|done]. intros f Hf.
  destruct (mo_known _ _ _ _ M _ _ Hn) as [Hh _]. unfold block_height in Hf. rewrite Hh in Hf. injection Hf as <-.
  soc_step; [by intros _; soc_step|]. intros _. soc_step.
  assert (Hlt : (n < length bs)%nat) by by eapply lookup_lt_Some.
  eapply soc_mono; [by apply (rollback_loop_ok _ n c bs)| |done].
  intros [txs rbs] c1 (M1 & [K1 C1] & new & Hrbs & V1). simpl in Hrbs. subst rbs. do 2 soc_step; [|done]. intros path Hpath.
  destruct (to_apply_linked (known c) _ _ _ _ _ _ Hk Hh Hnt Hpath) as (L1 & L2 & _).
  assert (zlen (take (S n) bs) = Z.of_nat n + 1) as Hlen by (unfold zlen; rewrite length_take; lia).
  assert (tip_block (take (S n) bs) = Some bf) as Htip.
  { unfold tip_block. rewrite length_take, lookup_take_lt by lia. by replace (Nat.pred _) with n by lia. }
  rewrite <- K1, <- C1 in M1. soc_step.
  eapply soc_mono; [apply (apply_fork_ok (Z.of_nat n) (rev path) c1 (take (S n) bs) bf 0)| |].
  - by rewrite K1.
  - exact M1.
  - exact Htip.
  - lia.
  - lia.
  - rewrite K1, Hlen. by replace (Z.of_nat n + 1 - 1) with (Z.of_nat n) by lia.
  - intros afs c2 (news & _ & M2 & [K2 C2] & new' & -> & V2). do 2 soc_step. soc_step; [by intros _; soc_step; split; congruence|].
    intros [E1%negb_false_iff%bool_decide_eq_true E2%negb_false_iff%Z.eqb_eq]%orb_false_iff. soc_step.
    exists (take (S n) bs ++ news). rewrite K1, C1 in M2. split; [done|]. split; [split; congruence|]. split; [done|].
    by exists (view_of (take (S n) bs) (state (main c1))).
  - intros e c2 [K2 C2]. split; congruence.
Qed.
(** A failed reorganization puts the active chain back. *)
Lemma reorganize_to_ok c bs new_tip nth :
  known_ok (known c) -> main_ok (config c) (known c) (main c) bs ->
  block_heights (known c) !! new_tip = Some nth ->
  soc (reorganize_to new_tip nth)
    (fun r c' => exists bs', main_ok (config c) (known c) (main c') bs' /\ same_known c c' /\ nth = zlen bs' - 1 /\
       exists v, view_rollbacks r.1.2 (view_of bs (state (main c))) v /\ view_forks r.2 v (view_of bs' (state (main c'))))
    (fun _ c' => same_chain c c') c.
Proof.
  intros Hk M Hn. pose proof (reorganize_inner_ok c bs new_tip nth Hk M Hn) as Hr. unfold soc, reorganize_to in *.
  destruct (reorganize_to_inner new_tip nth c) as [c' [r|e|]]; [|by destruct Hr|done].
  destruct Hr as (bs' & M' & [K' C'] & [_ Hb] & V'). exists bs'. split; [done|]. split; [done|]. split; [|done].
  rewrite <- K' in Hk. rewrite <- K', <- C' in M'. by rewrite <- Hb, (best_height_eq _ _ _ _ c' Hk M' eq_refl).
Qed.

Lemma extend_fork_ok now b c bs b0 p :
  chain_ok c bs -> tip_block bs = Some b0 ->
  block_heights (known c) !! block_hash b = None ->
  block_heights (known c) !! prev_block_hash (header b) = Some p ->
  typed_txs (transactions b) -> (forall x, x ∈ transactions b -> U x) ->
  soc (extend_fork now b (block_hash b) (prev_block_hash (header b)) (block_hash b0))
    (fun a c' => exists bs', chain_ok c' bs' /\ config c' = config c /\ zlen bs <= zlen bs' /\
       view_accept b a (view_of bs (state (main c))) (view_of bs' (state (main c'))))
    (fun _ c' => same_chain c c') c.
Proof.
  intros [C1 C2 C3] Ht Hn Hpar Hty Hu. unfold extend_fork, id. do 2 soc_step. rewrite Hpar.
  do 2 soc_step; [|done]. intros n [-> Hmax]%padd_Ok. do 2 soc_step; [|done]. intros hd Hhd.
  do 2 soc_step; [|done]. intros [] Hval. destruct (validated_sound _ _ _ _ _ _ _ _ Hval Hty) as [Hs _].
  destruct (headers (known c) !! prev_block_hash (header b)) as [hd'|] eqn:Ehd; [|done]. injection Hhd as ->.
  do 2 soc_step; [|done]. unfold next_work. rewrite (ko_work _ C1 _ _ Hpar). intros w [-> _]%padd_Ok.
  do 4 soc_step. set (c1 := set_known _ c).
  assert (Hk1 : known_ok (known c1)).
  { pose proof (ko_height _ C1 _ _ Hpar). apply (learn_ok (known c) (block_hash b) b (p + 1)); try done; [lia|].
    by replace (p + 1 - 1) with p by lia. }
  assert (Hne : forall x, x ∈ bs -> block_hash b <> block_hash x).
  { intros x [i Hx]%list_elem_of_lookup E. destruct (mo_known _ _ _ _ C2 i x Hx). congruence. }
  assert (M1 : main_ok (config c1) (known c1) (main c1) bs).
  { eapply main_ok_known; [exact C2| |].
    - intros x Hx. simpl. by rewrite !lookup_insert_ne by by apply Hne.
    - intros Hvk. eapply (learn_valid _ _ _ _ _ _ hd now C1 Hn); [done| |done]. by replace (p + 1 - 1) with p by lia. }
  assert (cumulative_work (known c1) !! block_hash b0 = Some (zlen bs)) as Hw.
  { destruct (mo_known _ _ _ _ M1 _ _ Ht) as [Hb0 _]. rewrite (ko_work _ Hk1 _ _ Hb0). unfold zlen.
    destruct (main_ok_facts _ _ _ _ C2) as [_ Hnil]. f_equal. destruct bs; simpl; [done|]. lia. }
  assert (Hall : forall h m, block_heights (known c1) !! h = Some m -> m = p + 1 \/ m < zlen bs).
  { intros h m Hm. unfold c1 in Hm. simpl in Hm.
    apply lookup_insert_Some in Hm as [[_ <-]|[_ E]]; [by left|right]. by eapply C3. }
  rewrite Hw.
  soc_step.
  - intros Hlt%Z.ltb_lt. soc_step. unfold soc at 1.
    pose proof (reorganize_to_ok c1 bs (block_hash b) (p + 1) Hk1 M1 ltac:(apply lookup_insert_eq)) as Hr.
    unfold soc in Hr. destruct (reorganize_to (block_hash b) (p + 1) c1) as [c2 [[[txs rbs] afs]|e|]]; [| |done].
    + destruct Hr as (bs' & M2 & [K2 Cf2] & Hb & V2). do 3 soc_step.
      destruct (prune_ok c2 bs') as (P1 & P2 & P3);
        [|exists bs'; split_and!; [done|by rewrite P3, Cf2|lia|simpl; by rewrite P2]].
      split; [by rewrite K2|by rewrite K2, Cf2|]. rewrite K2. intros h m Hm. destruct (Hall h m Hm); lia.
    + destruct Hr as (K2 & M2 & Cf2). split; simpl; [|done].
      rewrite K2. simpl. by apply forget_learn.
  - intros Hge%Z.ltb_ge. do 3 soc_step. destruct (prune_ok c1 bs) as (P1 & P2 & P3);
      [|exists bs; split_and!; [done|done|lia|simpl; by rewrite P2]].
    split; [done|done|]. intros h m Hm. destruct (Hall h m Hm); lia.
Qed.

(** Every way [add_block] can return. *)
Lemma add_block_ok now b c bs :
  chain_ok c bs -> typed_txs (transactions b) -> (forall x, x ∈ transactions b -> U x) ->
  soc (add_block now b)
    (fun a c' => exists bs', chain_ok c' bs' /\ config c' = config c /\ zlen bs <= zlen bs' /\
       view_accept b a (view_of bs (state (main c))) (view_of bs' (state (main c'))))
    (fun _ c' => same_chain c c') c.
Proof.
  intros Hc Hty Hu. destruct (main_ok_facts _ _ _ _ (co_main _ _ Hc)) as [_ Hne].
  destruct (tip_exists bs Hne) as [b0 Ht]. unfold soc, add_block.
  rewrite (best_hash_tip c bs b0 (co_main _ _ Hc) Ht).
  destruct (block_heights (known c) !! block_hash b) as [n|] eqn:En; [by exists bs|].
  destruct (bytes_eqb (prev_block_hash (header b)) (block_hash b0)) eqn:Ep.
  - apply bytes_eqb_eq in Ep.
    pose proof (extend_main_ok now b c bs b0 Hc Ht Ep En Hty Hu) as Hx. unfold soc in Hx. rewrite Ep.
    destruct (extend_main _ _ _ _ c) as [c' [a|e|]]; [|done..]. destruct Hx as (H1 & H2 & H3). exists (bs ++ [b]).
    split_and!; [done|done| |done]. rewrite zlen_app. change (zlen [b]) with 1. lia.
  - destruct (block_heights (known c) !! prev_block_hash (header b)) as [p|] eqn:Epar; [|done].
    exact (extend_fork_ok now b c bs b0 p Hc Ht En Epar Hty Hu).
Qed.

(** ** The genesis block *)

(** A chain that has seen the genesis block only. *)
Record at_genesis (c : Chain) : Prop := {
  ag_known : known c = mkKnown {[ block_hash g := g ]} {[ block_hash g := header g ]} {[ block_hash g := 1 ]} ∅
    {[ block_hash g := 0 ]};
  ag_hashes : height_index (main c) = [block_hash g];
  ag_txs : tx_index (main c) = index_all [g];
  ag_journal : exists j, journals (main c) = [j];
}.

Lemma at_genesis_ok c : at_genesis c -> state (main c) = l0 -> chain_ok c [g].
Proof.
  intros [A1 A2 A3 [j A4]] El. split.
  - rewrite A1. split; cbn.
    + by rewrite lookup_singleton_eq.
    + done.
    + intros h n [_ <-]%lookup_singleton_Some. unfold u32_max. lia.
    + intros h n [<- _]%lookup_singleton_Some. done.
    + intros h n [<- <-]%lookup_singleton_Some. by rewrite lookup_singleton_eq.
    + intros h Hh%lookup_singleton_None. by rewrite !lookup_singleton_ne.
    + intros h b [<- <-]%lookup_singleton_Some. by rewrite lookup_singleton_eq.
    + intros h b n [<- _]%lookup_singleton_Some. done.
  - rewrite A1. split; cbn; [done| | | | |done|].
    + intros i b [-> ->]%list_lookup_singleton_Some. by rewrite !lookup_singleton_eq.
    + intros i b b' _ Hb. by destruct i.
    + intros i b [-> ->]%list_lookup_singleton_Some. left. by rewrite lookup_singleton_eq.
    + exists []. rewrite A4, El. apply history_genesis.
    + intros h b n Hb. cbn in Hb. apply lookup_singleton_Some in Hb as [<- _]. done.
  - rewrite A1. cbn. intros h n [_ <-]%lookup_singleton_Some. done.
Qed.

End history.

Section start.
Context {C : Crypto} {B : Bincode} {H : Hex} {N : Snapshot} {K : KeyOrder}.

Lemma new_at_genesis g c : new g = Ok c -> at_genesis g c.
Proof.
  unfold new. set (start := set_known _ _). pose proof (apply_block_frame g 0 start) as (F1 & _ & F3 & F4 & F5).
  destruct (apply_block g 0 start) as [c' [j| |]]; [|done..]. simpl in F1, F3, F4, F5. intros [= <-]. split; simpl.
  - by rewrite F1.
  - by rewrite F3.
  - by rewrite F4.
  - exists j. by rewrite F5.
Qed.

(** The ways to start a chain; it can be configured before the first block arrives. *)
Inductive starts (g : Block) : Chain -> Prop :=
  | starts_new c : new g = Ok c -> starts g c
  | starts_regtest c : new_regtest g = Ok c -> starts g c
  | starts_regtest_fast c : new_regtest_fast g = Ok c -> starts g c
  | starts_config f c : starts g c -> starts g (set_config f c).

(** The chains that can arise from [c0] when blocks with transactions from [U] arrive. *)
Inductive reaches (U : Transaction -> Prop) (c0 : Chain) : Chain -> Prop :=
  | reaches_start : reaches U c0 c0
  | reaches_block now b c c' r :
      reaches U c0 c -> typed_txs (transactions b) -> (forall x, x ∈ transactions b -> U x) ->
      add_block now b c = (c', r) -> r <> Panic -> reaches U c0 c'.

End start.
