(* ===== verification/Progress.v ===== *)
(** * Blocks are accepted

    [Replay.v] shows that whatever [Chain::add_block] does is sound; this file shows that
    it does accept what it should: the loops of a reorganization terminate, a block whose
    application succeeds on the tip extends the chain, and a heavier branch that replays
    is adopted, as long as the journals reach back to the fork. *)

From stdpp Require Import base list gmap sorting strings.
From Stdlib Require Import ZArith Lia.
From S2P Require Import Prelude Script Crypto Engine Standard Merkle Codec Block Address Consensus.
From S2P Require Import Deployments Governance Ledger Supply History Chain Mirror Replay.
Import Scripts.

(** ** Methods that return *)

Definition returns {S E A} (m : st S E A) (Q : A -> S -> Prop) (s : S) : Prop := swp m Q (fun _ => False) s.

Lemma returns_lift {S E A} (m : res E A) a (Q : A -> S -> Prop) s : m = Ok a -> Q a s -> returns (slift m) Q s.
Proof. by intros ->. Qed.

Lemma returns_bind {S E A B} (m : st S E A) (k : A -> st S E B) Q s :
  returns m (fun a => returns (k a) Q) s -> returns (sbind m k) Q s.
Proof. apply swp_bind. Qed.

Lemma returns_mono {S E A} (m : st S E A) (Q Q' : A -> S -> Prop) s :
  returns m Q s -> (forall a s', Q a s' -> Q' a s') -> returns m Q' s.
Proof. intros H HQ. by eapply swp_mono. Qed.

(** What is known of a method when it returns. *)
Lemma returns_soc {S E A} (m : st S E A) Q R s : is_ok (m s).2 = true -> soc m Q R s -> returns m Q s.
Proof. unfold returns, swp, soc. by destruct (m s) as [s' []]. Qed.

Lemma returns_Ok {S E A} (m : st S E A) Q s : returns m Q s -> exists a s', m s = (s', Ok a) /\ Q a s'.
Proof. unfold returns, swp. destruct (m s) as [s' [a| |]]; [eauto|done..]. Qed.

Section progress.
Context {C : Crypto} {B : Bincode} {H : Hex} {N : Snapshot} {SL : SnapshotLaws N} {K : KeyOrder}.
Context (U : Transaction -> Prop) (HU : txids_distinct U) (g : Block) (l0 : Ledger).
Context (G1 : tracked 1 (transactions g) l0) (G2 : ledger_inv l0) (G3 : forall x, x ∈ transactions g -> U x).

(** ** The loops terminate *)

(** A known block at height [n] has [n] known ancestors. *)
Lemma known_height_size k : known_ok U g k -> forall n h,
  block_heights k !! h = Some (Z.of_nat n) -> (n <= size (parent_map k))%nat.
Proof.
  intros Hk.
  enough (forall n h, block_heights k !! h = Some (Z.of_nat n) -> exists hs, length hs = n /\ NoDup hs /\
    forall x, x ∈ hs -> is_Some (parent_map k !! x) /\ exists m, block_heights k !! x = Some m /\ m <= Z.of_nat n) as Hp.
  { intros n h (hs & <- & Hnd & Hin)%Hp. rewrite <- size_dom, <- (size_list_to_set (C:=gset bytes) hs) by done.
    apply subseteq_size. intros x Hx%elem_of_list_to_set. apply elem_of_dom, Hin, Hx. }
  induction n as [|n IH]; intros h Hh; [exists []; split_and!; [done|constructor|by intros x ?%elem_of_nil]|].
  assert (h <> block_hash g) as Hg by (intros ->; rewrite (ko_genesis _ _ _ Hk) in Hh; injection Hh; lia).
  destruct (ko_parent _ _ _ Hk h _ Hh Hg) as (hd & _ & E2 & E3).
  destruct (IH (prev_block_hash hd)) as (hs & Hlen & Hnd & Hin); [by rewrite E3; f_equal; lia|].
  exists (h :: hs). split_and!; [simpl; lia| |].
  - apply NoDup_cons. split; [|done]. intros Hx%Hin. destruct Hx as [_ (m & Hm & Hle)]. rewrite Hh in Hm.
    injection Hm as <-. lia.
  - intros x [->|Hx]%elem_of_cons; [split; [by rewrite E2|]; eexists; split; [done|lia]|].
    destruct (Hin x Hx) as [? (m & Hm & Hle)]. split; [done|]. exists m. split; [done|lia].
Qed.

(** The branch of known blocks that ends in [h]. *)
Inductive branch (k : Known) : bytes -> list bytes -> Prop :=
  | branch_genesis : branch k (block_hash g) [block_hash g]
  | branch_child h p path : h <> block_hash g -> parent_map k !! h = Some p -> branch k p path ->
      branch k h (h :: path).

Lemma ancestors_branch k : known_ok U g k -> forall n h fuel,
  block_heights k !! h = Some (Z.of_nat n) -> (n < fuel)%nat ->
  exists path, ancestors_loop fuel (block_hash g) (parent_map k) h = Ok path /\ branch k h path /\ length path = S n.
Proof.
  intros Hk. induction n as [|n IH]; intros h [|fuel] Hh Hf; try lia; simpl.
  - destruct (bytes_eqb h (block_hash g)) eqn:E.
    + apply bytes_eqb_eq in E as ->. exists [block_hash g]. split; [done|]. split; [constructor|done].
    + apply bytes_eqb_neq in E. destruct (ko_parent _ _ _ Hk h _ Hh E) as (hd & _ & _ & E3).
      apply (ko_height _ _ _ Hk) in E3. lia.
  - assert (h <> block_hash g) as Hg by (intros ->; rewrite (ko_genesis _ _ _ Hk) in Hh; injection Hh; lia).
    destruct (bytes_eqb h (block_hash g)) eqn:E; [by apply bytes_eqb_eq in E|].
    destruct (ko_parent _ _ _ Hk h _ Hh Hg) as (hd & _ & E2 & E3). rewrite E2.
    destruct (IH (prev_block_hash hd) fuel) as (path & -> & Hb & Hl); [rewrite E3; f_equal; lia|lia|].
    exists (h :: path). simpl. split; [done|]. split; [by econstructor|lia].
Qed.

Lemma branch_fun k h p1 p2 : parent_map k !! block_hash g = None -> branch k h p1 -> branch k h p2 -> p1 = p2.
Proof.
  intros Hg H1. revert p2. induction H1 as [|h p path Hne Hp Hb IH]; intros p2 H2; inversion H2; subst; try done.
  f_equal. apply IH. congruence.
Qed.

Lemma branch_ends k h path :
  branch k h path -> head path = Some h /\ vec_last path = Some (block_hash g) /\
    forall i x y, path !! i = Some x -> path !! S i = Some y -> parent_map k !! x = Some y.
Proof.
  induction 1 as [|h p path Hne Hp Hb (I1 & I2 & I3)]; [split; [done|]; split; [done|]; by intros [] x y|].
  split; [done|]. split.
  - unfold vec_last in *. cbn [rev]. by destruct (rev path).
  - intros [|i] x y Hx Hy; [|by eapply I3]. injection Hx as <-. simpl in Hy. destruct path; [done|].
    injection Hy as <-. injection I1 as ->. done.
Qed.

(** A list of known blocks from the genesis block on. *)
Record known_branch (k : Known) (T : list Block) : Prop := {
  kb_head : T !! 0%nat = Some g;
  kb_height : forall i b, T !! i = Some b -> block_heights k !! block_hash b = Some (Z.of_nat i);
  kb_link : forall i b b', T !! i = Some b -> T !! S i = Some b' -> parent_map k !! block_hash b' = Some (block_hash b);
}.

Lemma known_branch_inj k T i j b b' :
  known_branch k T -> T !! i = Some b -> T !! j = Some b' -> block_hash b = block_hash b' -> i = j.
Proof.
  intros [_ Hh _] Hi Hj E. apply Hh in Hi, Hj. rewrite E, Hj in Hi. injection Hi. lia.
Qed.

Lemma known_branch_ancestors k T : known_branch k T -> forall i t, T !! i = Some t ->
  branch k (block_hash t) (rev (map block_hash (take (S i) T))).
Proof.
  intros Hb. induction i as [|i IH]; intros t Ht.
  - pose proof (kb_head _ _ Hb) as Hg. rewrite Hg in Ht. injection Ht as <-.
    destruct T as [|x T]; [done|]. injection Hg as ->. constructor.
  - destruct (lookup_lt_is_Some_2 T i) as [t' Ht']; [apply lookup_lt_Some in Ht; lia|].
    rewrite (take_S_r _ _ _ Ht), map_app, rev_app_distr. simpl. econstructor; [|by eapply kb_link|by apply IH].
    intros E. pose proof (known_branch_inj k T _ _ _ _ Hb Ht (kb_head _ _ Hb) E). done.
Qed.

Lemma known_branch_to_apply k T n tn : known_branch k T -> T !! n = Some tn -> forall d i ti fuel,
  T !! i = Some ti -> i = (n + d)%nat -> (d < fuel)%nat ->
  to_apply_loop fuel (parent_map k) (block_hash tn) (block_hash ti) =
    Ok (rev (map block_hash (drop (S n) (take (S i) T)))).
Proof.
  intros Hb Hn. induction d as [|d IH]; intros i ti [|fuel] Hi Ei Hf; try lia; simpl to_apply_loop.
  - replace i with n in * by lia. rewrite Hn in Hi. injection Hi as <-.
    rewrite (proj2 (bytes_eqb_eq _ _)) by done. by rewrite drop_ge by (rewrite length_take; lia).
  - destruct (bytes_eqb (block_hash ti) (block_hash tn)) eqn:E.
    { apply bytes_eqb_eq in E. pose proof (known_branch_inj k T _ _ _ _ Hb Hi Hn E). lia. }
    destruct i as [|i]; [lia|]. destruct (lookup_lt_is_Some_2 T i) as [t' Ht']; [apply lookup_lt_Some in Hi; lia|].
    rewrite (kb_link _ _ Hb _ _ _ Ht' Hi). cbn [ok_or rbind]. rewrite (IH i t' fuel Ht') by lia. cbn [rbind].
    rewrite (take_S_r _ _ _ Hi), drop_app_le, map_app, rev_app_distr; [done|].
    rewrite length_take. apply lookup_lt_Some in Hi. lia.
Qed.

(** The active chain, and a fork from it whose blocks are all in memory. *)
Lemma main_branch cfg k m bs : known_ok U g k -> main_ok U g l0 cfg k m bs -> known_branch k bs.
Proof.
  intros Hk M. destruct (main_ok_facts U HU g l0 G1 G2 G3 _ _ _ _ M) as [[[rest ->] _ _ _ _] _]. split; [done| |].
  - intros i b Hb. by apply (mo_known _ _ _ _ _ _ _ M).
  - intros i b b' Hb Hb'. destruct (mo_known _ _ _ _ _ _ _ M _ _ Hb') as [Hh Hhd].
    assert (block_hash b' <> block_hash g) as Hne.
    { intros E. rewrite E, (ko_genesis _ _ _ Hk) in Hh. injection Hh. lia. }
    destruct (ko_parent _ _ _ Hk _ _ Hh Hne) as (hd & E1 & E2 & _). rewrite Hhd in E1. injection E1 as <-.
    by rewrite E2, (mo_link _ _ _ _ _ _ _ M _ _ _ Hb Hb').
Qed.

Record fork (k : Known) (bs : list Block) (n : nat) (ns : list Block) : Prop := {
  fk_point : (n < length bs)%nat;
  fk_linked : forall i b b', (take (S n) bs ++ ns) !! i = Some b -> (take (S n) bs ++ ns) !! S i = Some b' ->
    prev_block_hash (header b') = block_hash b;
  fk_bodies : forall x, x ∈ ns -> blocks k !! block_hash x = Some x;
  fk_apart : forall x, x ∈ ns -> block_hash x ∉ map block_hash bs;
}.

Lemma fork_branch cfg k m bs n ns :
  known_ok U g k -> main_ok U g l0 cfg k m bs -> fork k bs n ns -> known_branch k (take (S n) bs ++ ns).
Proof.
  intros Hk M [F1 F2 F3 F4]. pose proof (main_branch _ _ _ _ Hk M) as [B1 B2 B3].
  set (T := take (S n) bs ++ ns) in *.
  assert (Hsplit : forall i b, T !! i = Some b -> bs !! i = Some b /\ (i <= n)%nat \/ b ∈ ns).
  { intros i b [Hb|[_ Hb]]%lookup_app_Some; [left|right; by eapply list_elem_of_lookup_2].
    apply lookup_take_Some in Hb as [? ?]. split; [done|lia]. }
  assert (Hg : forall b, b ∈ ns -> block_hash b <> block_hash g).
  { intros b Hb E. apply (F4 b Hb). rewrite E. apply list_elem_of_fmap_2. by eapply list_elem_of_lookup_2. }
  assert (Hpar : forall b, b ∈ ns -> exists m, block_heights k !! block_hash b = Some m /\
    parent_map k !! block_hash b = Some (prev_block_hash (header b)) /\
    block_heights k !! prev_block_hash (header b) = Some (m - 1)).
  { intros b Hb. destruct (block_heights k !! block_hash b) as [h|] eqn:Eh.
    - destruct (ko_parent _ _ _ Hk _ _ Eh (Hg b Hb)) as (hd & E1 & E2 & E3).
      destruct (ko_body _ _ _ Hk _ _ (F3 b Hb)) as [_ E4]. rewrite E1 in E4. injection E4 as ->. by exists h.
    - destruct (ko_dom _ _ _ Hk _ Eh) as [E _]. by rewrite (F3 b Hb) in E. }
  assert (Hh : forall i b, T !! i = Some b -> block_heights k !! block_hash b = Some (Z.of_nat i)).
  { induction i as [|i IH]; intros b Hb.
    - apply B2. unfold T in Hb. destruct bs; [simpl in F1; lia|]. done.
    - destruct (Hsplit _ _ Hb) as [[Hb' _]|Hb']; [by apply B2|].
      destruct (Hpar b Hb') as (h & E1 & E2 & E3).
      destruct (lookup_lt_is_Some_2 T i) as [t Ht]; [apply lookup_lt_Some in Hb; lia|].
      rewrite (F2 _ _ _ Ht Hb), (IH _ Ht) in E3. injection E3 as E3. rewrite E1. f_equal. lia. }
  split; [unfold T; destruct bs; [simpl in F1; lia|]; done|done|].
  intros i b b' Hb Hb'. destruct (Hsplit _ _ Hb') as [[Hx Hle]|Hx].
  - destruct (Hsplit _ _ Hb) as [[Hy _]|Hy]; [by eapply B3|]. exfalso.
    unfold T in Hb. rewrite lookup_app_l in Hb by (rewrite length_take; lia).
    apply lookup_take_Some in Hb as [Hb _]. apply (F4 b Hy). apply list_elem_of_fmap_2. by eapply list_elem_of_lookup_2.
  - destruct (Hpar b' Hx) as (h & _ & -> & _). by rewrite (F2 _ _ _ Hb Hb').
Qed.

(** ** Rolling back *)

Lemma rollback_one_returns c bs b :
  main_ok U g l0 (config c) (known c) (main c) (bs ++ [b]) -> bs <> [] -> journals (main c) <> [] ->
  returns rollback_one_block
    (fun _ c' => main_ok U g l0 (config c) (known c) (main c') bs /\ same_known c c' /\
       length (journals (main c)) = S (length (journals (main c')))) c.
Proof.
  intros M Hne Hj. eapply returns_mono; [eapply returns_soc; [|by apply (rollback_one_ok U HU g l0 G1 G2 G3)]|].
  - destruct M as [_ _ _ _ [pre M5] _ _]. unfold rollback_one_block, sbind at 1.
    destruct (exists_last Hj) as (js & j & Ej). rewrite Ej in M5.
    assert (vec_pop (journals (main c)) = Some (j, js)) as ->.
    { rewrite Ej. change (js ++ [j]) with (vec_push js j). apply vec_pop_push. }
    rewrite app_assoc in M5.
    destruct (history_last U HU g l0 G1 G2 G3 _ _ _ _ _ Hne M5) as (l & js1 & j1 & Ejs & _ & _ & Hrb & _).
    apply app_inj_tail in Ejs as [_ <-]. destruct (undo_block_exact _ _ _ Hrb) as (gv & Hgv & _).
    unfold sbind, smod, sget. cbn [set_main main state governance undo_block set_claimed set_utxos]. by rewrite Hgv.
  - intros r c' (Q1 & Q2 & Q3 & Q4 & _). done.
Qed.

Lemma rollback_loop_returns fuel n : forall c bs txs rbs,
  known_ok U g (known c) -> main_ok U g l0 (config c) (known c) (main c) bs -> (n < length bs)%nat ->
  (length bs - 1 - n < fuel)%nat -> (length bs - 1 - n <= length (journals (main c)))%nat ->
  returns (rollback_loop fuel (Z.of_nat n) txs rbs)
    (fun _ c' => main_ok U g l0 (config c) (known c) (main c') (take (S n) bs) /\ same_known c c') c.
Proof.
  induction fuel as [|fuel IH]; intros c bs txs rbs Hk M Hn Hf Hj; [lia|]. cbn [rollback_loop].
  apply returns_bind. unfold returns at 1. swp_step. rewrite (best_height_eq U HU g l0 G1 G2 G3 _ _ _ _ c Hk M eq_refl).
  destruct (Z.leb_spec (zlen bs - 1) (Z.of_nat n)) as [Hle|Hgt]; unfold zlen in *.
  - unfold returns. swp_step. split; [|done]. by rewrite take_ge by lia.
  - destruct (main_ok_facts U HU g l0 G1 G2 G3 _ _ _ _ M) as [_ Hne]. destruct (exists_last Hne) as (bs1 & b & ->).
    rewrite length_app in *. simpl in *. apply returns_bind.
    eapply returns_mono; [apply (rollback_one_returns c bs1 b); [done| |]|].
    + intros ->. simpl in *. lia.
    + intros E. rewrite E in Hj. simpl in Hj. lia.
    + intros [t rb] c1 (M1 & [K1 C1] & J1). rewrite <- K1, <- C1 in M1. rewrite <- K1 in Hk.
      eapply returns_mono; [apply (IH c1 bs1); [done|done|lia..]|].
      intros r c2 [M2 [K2 C2]]. rewrite K1, C1 in M2. rewrite take_app_le by lia. split; [done|]. split; congruence.
Qed.

(** ** Applying *)

Lemma connect_apply c bs b0 b l' j :
  main_ok U g l0 (config c) (known c) (main c) bs -> tip_block bs = Some b0 ->
  prev_block_hash (header b) = block_hash b0 ->
  connect (config c) bs (state (main c)) b = Some (l', j) ->
  exists c1, apply_block b (zlen bs) c = (c1, Ok j) /\ root_mismatch b j = false /\ state (main c1) = l'.
Proof.
  intros M Ht Hp Hc.
  pose proof (apply_block_agrees b (zlen bs) _ _ (view_agrees U g l0 c bs b0 b M Ht Hp)) as [E1 E2].
  unfold connect in Hc. destruct (apply_block b (zlen bs) (view_chain _ _ _)) as [c2 [j2| |]]; [|done..].
  destruct (root_mismatch b j2) eqn:Er; [done|]. injection Hc as <- <-.
  destruct (apply_block b (zlen bs) c) as [c1 r1]. simpl in E1, E2. subst r1. by exists c1.
Qed.

Lemma apply_fork_block_returns c bs b0 fh i b l' j :
  known_ok U g (known c) -> main_ok U g l0 (config c) (known c) (main c) bs -> tip_block bs = Some b0 ->
  0 <= fh -> zlen bs = fh + 1 + Z.of_nat i -> zlen bs <= u32_max ->
  block_heights (known c) !! block_hash b = Some (zlen bs) -> blocks (known c) !! block_hash b = Some b ->
  prev_block_hash (header b) = block_hash b0 ->
  connect (config c) bs (state (main c)) b = Some (l', j) ->
  returns (apply_fork_block fh (i, block_hash b))
    (fun _ c' => main_ok U g l0 (config c) (known c) (main c') (bs ++ [b]) /\ same_known c c' /\ state (main c') = l') c.
Proof.
  intros Hk M Ht Hfh Hi Hmax Hh Hb Hp Hc. destruct (connect_apply c bs b0 b l' j M Ht Hp Hc) as (c1 & E & Hr & <-).
  assert (Hg : block_hash b <> block_hash g).
  { intros E0. rewrite E0, (ko_genesis _ _ _ Hk) in Hh. injection Hh as Hh. lia. }
  destruct (ko_body _ _ _ Hk _ _ Hb) as [_ Hhd]. destruct (ko_sound _ _ _ Hk _ _ _ Hb Hh Hg) as [Hs Hu].
  pose proof (apply_block_frame b (zlen bs) c) as (F1 & F2 & F3 & F4 & F5). rewrite E in F1, F2, F3, F4, F5.
  simpl in F1, F2, F3, F4, F5. unfold apply_fork_block. apply returns_bind, (returns_lift _ (zlen bs)).
  { unfold padd, checked_add. rewrite (proj2 (Z.leb_le _ _)) by lia. cbn [unwrap rbind].
    assert (as_u32 (Z.of_nat i) = Z.of_nat i) as ->. { unfold as_u32, u32_max in *. rewrite Z.mod_small; lia. }
    rewrite (proj2 (Z.leb_le _ _)) by lia. cbn [unwrap]. f_equal. lia. }
  apply returns_bind. unfold returns at 1, id. swp_step. apply returns_bind, (returns_lift _ b); [by rewrite Hb|].
  apply returns_bind. unfold returns at 1, swp at 1. rewrite E, Hr.
  unfold returns. do 4 swp_step. destruct (fork_diff _ _) as [added removed]. do 3 swp_step. split; [|done].
  simpl. rewrite F3, F4, F5.
  apply (main_ok_append U g l0 _ _ _ _ _ _ _ _ 0 M Ht Hp Hh Hhd Hb Hc Hs Hu).
  by apply (known_child U g l0 _ _ _ _ b0 b M Ht Hp Hb Hh).
Qed.

Lemma apply_fork_returns fh ns : forall c bs b0 i acc l',
  known_ok U g (known c) -> main_ok U g l0 (config c) (known c) (main c) bs -> tip_block bs = Some b0 ->
  0 <= fh -> zlen bs = fh + 1 + Z.of_nat i -> zlen bs + zlen ns <= u32_max + 1 ->
  (forall i b, (bs ++ ns) !! i = Some b -> block_heights (known c) !! block_hash b = Some (Z.of_nat i)) ->
  (forall i b b', (bs ++ ns) !! i = Some b -> (bs ++ ns) !! S i = Some b' -> prev_block_hash (header b') = block_hash b) ->
  (forall x, x ∈ ns -> blocks (known c) !! block_hash x = Some x) ->
  replay (config c) bs (state (main c)) ns = Some l' ->
  returns (apply_fork fh (imap (fun k => pair (i + k)%nat) (map block_hash ns)) acc)
    (fun _ c' => main_ok U g l0 (config c) (known c) (main c') (bs ++ ns) /\ same_known c c' /\ state (main c') = l') c.
Proof.
  induction ns as [|b ns IH]; intros c bs b0 i acc l' Hk M Ht Hfh Hi Hmax Hh Hl Hn Hr; cbn [map].
  { cbn [imap apply_fork]. unfold returns. swp_step. rewrite app_nil_r. injection Hr as <-. done. }
  rewrite zlen_cons in Hmax. pose proof (zlen_nonneg ns). simpl in Hr.
  destruct (connect (config c) bs (state (main c)) b) as [[l1 j]|] eqn:Ec; [|done].
  assert (Hat : (bs ++ b :: ns) !! length bs = Some b) by by apply list_lookup_middle.
  assert (Hp : prev_block_hash (header b) = block_hash b0).
  { unfold tip_block in Ht. pose proof (lookup_lt_Some _ _ _ Ht). apply (Hl (Nat.pred (length bs))).
    - rewrite lookup_app_l by done. done.
    - replace (S (Nat.pred (length bs))) with (length bs) by lia. done. }
  rewrite imap_cons. cbn [apply_fork]. rewrite Nat.add_0_r. apply returns_bind.
  eapply returns_mono; [apply (apply_fork_block_returns c bs b0 fh i b l1 j); try done; [lia|by apply Hh|apply Hn; left]|].
  intros a c1 (M1 & [K1 C1] & S1). rewrite (imap_ext _ (fun k => pair (S i + k)%nat))
    by (intros k x _; simpl; f_equal; lia).
  eapply returns_mono; [apply (IH c1 (bs ++ [b]) b (S i) (acc ++ [a]) l'); rewrite ?K1, ?C1, ?S1, <- ?app_assoc; try done|].
  - apply tip_snoc.
  - rewrite zlen_app. change (zlen [b]) with 1. lia.
  - rewrite zlen_app. change (zlen [b]) with 1. lia.
  - intros x Hx. apply Hn. by right.
  - intros r c2. rewrite <- app_assoc, K1, C1. intros (M2 & [K2 C2] & S2). split; [done|]. split; [|done]. split; congruence.
Qed.

(** ** Reorganizing *)

Lemma find_after {A} (f : A -> bool) pre x l :
  (forall y, y ∈ pre -> f y = false) -> f x = true -> List.find f (pre ++ x :: l) = Some x.
Proof.
  intros Hp Hx. induction pre as [|y pre IH]; simpl; [by rewrite Hx|].
  rewrite (Hp y) by left. apply IH. intros z Hz. apply Hp. by right.
Qed.

Lemma fork_point_found bs n bf ns :
  bs !! n = Some bf -> (forall x, x ∈ ns -> block_hash x ∉ map block_hash bs) -> NoDup (map block_hash bs) ->
  find_fork_point (rev (map block_hash bs)) (rev (map block_hash (take (S n) bs ++ ns))) = block_hash bf.
Proof.
  intros Hn Ha Hnd. unfold find_fork_point. rewrite (take_S_r _ _ _ Hn).
  assert (bs = take n bs ++ bf :: drop (S n) bs) as Hs by (symmetry; by apply take_drop_middle).
  replace (rev (map block_hash bs)) with
    (rev (map block_hash (drop (S n) bs)) ++ block_hash bf :: rev (map block_hash (take n bs))).
  2: { rewrite Hs at 3. rewrite map_app, rev_app_distr. cbn [map rev]. by rewrite <- app_assoc. }
  rewrite find_after; [done| |].
  - intros y Hy. rewrite bool_decide_eq_false, list_elem_of_In, <- in_rev, <- list_elem_of_In, !map_app, !elem_of_app.
    rewrite list_elem_of_In, <- in_rev, <- list_elem_of_In in Hy.
    rewrite Hs, map_app in Hnd. cbn [map] in Hnd. apply NoDup_app in Hnd as (_ & Hd & [Hb _]%NoDup_cons).
    intros [[Hx|Hx]|Hx].
    + apply (Hd y Hx). by right.
    + apply list_elem_of_singleton in Hx as ->. done.
    + apply list_elem_of_fmap in Hx as (x & -> & Hx). apply (Ha x Hx). rewrite Hs, map_app, elem_of_app. right. by right.
  - rewrite bool_decide_eq_true, list_elem_of_In, <- in_rev, <- list_elem_of_In, !map_app, !elem_of_app.
    left. right. left.
Qed.

Lemma replay_app cfg bs l xs ys :
  replay cfg bs l (xs ++ ys) = replay cfg bs l xs ≫= fun l1 => replay cfg (bs ++ xs) l1 ys.
Proof.
  revert bs l; induction xs as [|x xs IH]; intros bs l; simpl; [by rewrite app_nil_r|].
  destruct (connect cfg bs l x) as [[l1 j]|]; [|done]. rewrite IH. by rewrite <- app_assoc.
Qed.

Lemma ancestors_known c bs T i t :
  known_ok U g (known c) -> main_ok U g l0 (config c) (known c) (main c) bs -> known_branch (known c) T ->
  T !! i = Some t -> ancestors c (block_hash t) = Ok (rev (map block_hash (take (S i) T))).
Proof.
  intros Hk M Hb Ht. unfold ancestors. rewrite (mo_index _ _ _ _ _ _ _ M).
  destruct (main_ok_facts U HU g l0 G1 G2 G3 _ _ _ _ M) as [[[rest ->] _ _ _ _] _]. cbn [map].
  change (vec_get (block_hash g :: map block_hash rest) 0) with (@Ok NodeError _ (block_hash g)). cbn [rbind].
  pose proof (kb_height _ _ Hb _ _ Ht) as Hh. pose proof (known_height_size _ Hk _ _ Hh).
  destruct (ancestors_branch _ Hk i (block_hash t) (S (size (parent_map (known c)))) Hh ltac:(lia)) as (path & -> & Hp & _).
  f_equal. eapply branch_fun; [apply Hk|exact Hp|]. by apply known_branch_ancestors.
Qed.

Lemma reorganize_inner_returns c bs n ns b l' :
  known_ok U g (known c) -> main_ok U g l0 (config c) (known c) (main c) bs -> fork (known c) bs n (ns ++ [b]) ->
  (forall x, x ∈ bs -> block_hash x <> zero_hash) ->
  (length bs - 1 - n <= length (journals (main c)))%nat ->
  replay (config c) [g] l0 (tail (take (S n) bs ++ ns ++ [b])) = Some l' ->
  returns (reorganize_to_inner (block_hash b) (Z.of_nat (S n) + zlen ns))
    (fun _ c' => main_ok U g l0 (config c) (known c) (main c') (take (S n) bs ++ ns ++ [b]) /\
       same_known c c' /\ state (main c') = l') c.
Proof.
  intros Hk M F Hz Hj Hr. pose proof (fork_branch _ _ _ _ _ _ Hk M F) as HT. pose proof (main_branch _ _ _ _ Hk M) as HB.
  destruct F as [F1 F2 F3 F4]. set (T := take (S n) bs ++ ns ++ [b]) in *.
  destruct (main_ok_facts U HU g l0 G1 G2 G3 _ _ _ _ M) as [_ Hne]. destruct (tip_exists bs Hne) as [b0 Ht].
  destruct (lookup_lt_is_Some_2 bs n F1) as [bf Hn]. unfold reorganize_to_inner, id.
  assert (HlenT : length T = (S n + length ns + 1)%nat) by (unfold T; rewrite !length_app, length_take; cbn [length]; lia).
  assert (Hlast : T !! (S n + length ns)%nat = Some b).
  { unfold T. rewrite app_assoc. apply list_lookup_middle. rewrite length_app, length_take. lia. }
  assert (HTn : T !! n = Some bf) by (unfold T; rewrite lookup_app_l, lookup_take_lt by (rewrite ?length_take; lia); done).
  apply returns_bind. unfold returns at 1. swp_step. rewrite (best_hash_tip U HU g l0 G1 G2 G3 c bs b0 M Ht).
  apply returns_bind, (returns_lift _ _ _ _ (ancestors_known c bs T _ b Hk M HT Hlast)).
  apply returns_bind, (returns_lift _ _ _ _ (ancestors_known c bs bs _ b0 Hk M HB Ht)).
  rewrite (take_ge T), (take_ge bs) by (unfold tip_block in *; lia). cbv zeta.
  pose proof (fork_point_found bs n bf (ns ++ [b]) Hn F4 (hashes_nodup U g l0 _ _ _ _ M)) as Hfp. fold T in Hfp.
  rewrite Hfp.
  rewrite (proj2 (bytes_eqb_neq _ _)) by (apply Hz; by eapply list_elem_of_lookup_2).
  apply returns_bind, (returns_lift _ (Z.of_nat n)).
  { unfold block_height. by rewrite (kb_height _ _ HB _ _ Hn). }
  rewrite (best_height_eq U HU g l0 G1 G2 G3 _ _ _ _ c Hk M eq_refl).
  rewrite (proj2 (Z.ltb_ge _ _)) by (unfold sat_sub, zlen; lia).
  apply returns_bind. eapply returns_mono; [apply (rollback_loop_returns _ n c bs [] []); try done|].
  { rewrite (mo_index _ _ _ _ _ _ _ M), length_map. lia. }
  intros [txs rbs] c1 (M1 & [K1 C1]). apply returns_bind, (returns_lift _ (rev (map block_hash (ns ++ [b])))).
  { pose proof (kb_height _ _ HT _ _ Hlast) as Hh. pose proof (known_height_size _ Hk _ _ Hh).
    rewrite (known_branch_to_apply _ T n bf HT HTn (S (length ns)) (S n + length ns) b) by (done || lia).
    rewrite (take_ge T) by lia. unfold T. rewrite drop_app_length' by (rewrite length_take; lia). done. }
  rewrite rev_involutive. rewrite <- K1, <- C1 in M1.
  assert (Hmax : Z.of_nat (S n + length ns) <= u32_max) by (by apply (ko_height _ _ _ Hk _ _ (kb_height _ _ HT _ _ Hlast))).
  assert (Hz1 : zlen (take (S n) bs) = Z.of_nat (S n)) by (unfold zlen; rewrite length_take; lia).
  assert (Htip : tip_block (take (S n) bs) = Some bf).
  { unfold tip_block. rewrite length_take, lookup_take_lt by lia. by replace (Nat.pred _) with n by lia. }
  assert (Hrep : replay (config c1) (take (S n) bs) (state (main c1)) (ns ++ [b]) = Some l').
  { destruct (mo_history _ _ _ _ _ _ _ M1) as [pre Hh].
    pose proof (history_replay U HU g l0 G1 G2 G3 _ _ _ _ Hh) as Hh'.
    destruct (main_ok_facts U HU g l0 G1 G2 G3 _ _ _ _ M1) as [[[rest Erest] _ _ _ _] _].
    unfold T in Hr. rewrite Erest in Hr, Hh' |- *. cbn [tail app] in Hr, Hh'.
    rewrite C1 in Hh' |- *. rewrite replay_app, Hh' in Hr. exact Hr. }
  apply returns_bind. eapply returns_mono;
    [apply (apply_fork_returns (Z.of_nat n) (ns ++ [b]) c1 (take (S n) bs) bf 0 [] l'); rewrite ?K1; try done|].
  - by rewrite <- K1.
  - lia.
  - lia.
  - rewrite zlen_app, Hz1. change (zlen [b]) with 1. unfold zlen. lia.
  - apply HT.
  - intros afs c2 (M2 & [K2 C2] & S2). rewrite C1, K1 in *.
    apply returns_bind. unfold returns at 1. swp_step.
    assert (best_hash c2 = Some (block_hash b) /\ best_height c2 = Z.of_nat (S n) + zlen ns) as [-> ->].
    { fold T in M2. pose proof M2 as M3. rewrite <- K2, <- C2 in M3. split.
      - eapply (best_hash_tip U HU g l0 G1 G2 G3); [exact M3|]. unfold tip_block. rewrite HlenT, <- Hlast. f_equal. lia.
      - rewrite <- K2 in Hk. rewrite (best_height_eq U HU g l0 G1 G2 G3 _ _ _ _ c2 Hk M3 eq_refl). unfold zlen.
        rewrite HlenT. lia. }
    rewrite bool_decide_eq_true_2, Z.eqb_refl by done. cbn [negb orb]. unfold returns. swp_step.
    split; [done|]. split; [|done]. split; congruence.
Qed.

(** ** Accepting *)

Lemma tip_known cfg k m bs b0 :
  main_ok U g l0 cfg k m bs -> tip_block bs = Some b0 -> bs <> [] ->
  block_heights k !! block_hash b0 = Some (zlen bs - 1) /\ headers k !! block_hash b0 = Some (header b0).
Proof.
  intros M Ht Hne. destruct (mo_known _ _ _ _ _ _ _ M _ _ Ht) as [-> ->]. split; [|done].
  f_equal. unfold zlen. destruct bs; [done|]. simpl. lia.
Qed.

Lemma prune_main c : main (prune_bodies c) = main c.
Proof.
  unfold prune_bodies, prune_fork_bodies. assert (forall fuel bound c, main (prune_loop fuel bound c) = main c) as ->.
  { induction fuel as [|fuel IH]; intros bound c1; simpl; [done|]. destruct (_ <=? _); [done|].
    destruct (fork_victim c1); [|done]. by rewrite IH. }
  unfold prune_main_body. by repeat case_match.
Qed.

(** The blocks known in [c'] were known in [c], up to [new]. *)
Definition known_within (new : bytes -> Prop) (c c' : Chain) : Prop :=
  forall h, is_Some (block_heights (known c') !! h) -> new h \/ is_Some (block_heights (known c) !! h).

Lemma prune_heights c h : is_Some (block_heights (known (prune_bodies c)) !! h) -> is_Some (block_heights (known c) !! h).
Proof.
  assert (Hloop : forall fuel bound c, is_Some (block_heights (known (prune_loop fuel bound c)) !! h) ->
    is_Some (block_heights (known c) !! h)).
  { induction fuel as [|fuel IH]; intros bound c1; simpl; [done|]. destruct (_ <=? _); [done|].
    destruct (fork_victim c1); [|done]. intros Hh%IH. simpl in Hh. by apply lookup_delete_is_Some in Hh as [_ ?]. }
  unfold prune_bodies, prune_fork_bodies. intros Hh%Hloop. unfold prune_main_body in Hh. by repeat case_match.
Qed.

(** The checks that do not need the ledger, for a child of [parent] at [height]. *)
Definition validated (now : Z) (c : Chain) (b parent : Block) (height : Z) : Prop :=
  validate_block_inner now b (height - 1) (timestamp (header parent)) (bits (header parent))
    (stake_modifier (header parent)) (block_hash parent) (allow_pow_test_blocks (config c)) = Ok tt.

Lemma trim_journals_some depth js (j : BlockJournal) : 1 <= depth -> trim_journals depth (js ++ [j]) <> [].
Proof.
  intros Hd E. apply (f_equal length) in E. unfold trim_journals in E. rewrite length_drop, length_app in E.
  unfold zlen in E. rewrite length_app in E. cbn in E. lia.
Qed.

Lemma extend_main_is_ok now b c bs b0 l' j :
  chain_ok U g l0 c bs -> tip_block bs = Some b0 -> prev_block_hash (header b) = block_hash b0 ->
  zlen bs <= u32_max -> validated now c b b0 (zlen bs) ->
  connect (config c) bs (state (main c)) b = Some (l', j) ->
  returns (extend_main now b (block_hash b) (block_hash b0))
    (fun a c' => (exists added removed, a = MainChain (zlen bs) added removed (j_claimed j)) /\ state (main c') = l' /\
       known_within (fun h => h = block_hash b) c c' /\ (1 <= max_reorg_depth (config c) -> journals (main c') <> [])) c.
Proof.
  intros [C1 C2 C3] Ht Hp Hmax Hv Hc. destruct (connect_apply c bs b0 b l' j C2 Ht Hp Hc) as (c1 & E & Hr & Hl).
  pose proof (apply_block_frame b (zlen bs) c) as (F1 & _). rewrite E in F1. simpl in F1.
  destruct (main_ok_facts U HU g l0 G1 G2 G3 _ _ _ _ C2) as [_ Hne].
  destruct (tip_known _ _ _ _ _ C2 Ht Hne) as [Hh Hhd]. unfold extend_main.
  apply returns_bind. unfold returns at 1, id. swp_step.
  rewrite (best_height_eq U HU g l0 G1 G2 G3 _ _ _ _ c C1 C2 eq_refl).
  apply returns_bind, (returns_lift _ (zlen bs)).
  { unfold padd, checked_add. rewrite (proj2 (Z.leb_le _ _)) by lia. cbn [unwrap]. f_equal. lia. }
  apply returns_bind, (returns_lift _ (header b0)).
  { unfold get_header_at_height. rewrite (mo_index _ _ _ _ _ _ _ C2). unfold vec_at.
    pose proof (branch_length U HU g l0 G1 G2 G3 _ _ _ _ C1 C2).
    rewrite (proj2 (Z.leb_le _ _)) by lia. rewrite list_lookup_fmap. unfold tip_block in Ht.
    replace (Z.to_nat (zlen bs - 1)) with (Nat.pred (length bs)) by (unfold zlen; lia). rewrite Ht. cbn. by rewrite Hhd. }
  apply returns_bind, (returns_lift _ tt); [exact Hv|].
  apply returns_bind. unfold returns at 1, swp at 1. rewrite E, Hr.
  apply returns_bind. unfold returns at 1, swp at 1, next_work. rewrite F1, (ko_work _ _ _ C1 _ _ Hh).
  unfold padd, checked_add. rewrite (proj2 (Z.leb_le _ _)) by (unfold u32_max, u64_max in *; lia). cbn [unwrap].
  unfold returns. do 4 swp_step. destruct (utxo_diff _ _) as [added removed]. do 11 swp_step. split; [by eexists _, _|].
  split; [by rewrite <- Hl, prune_main|]. split.
  - intros h Hx%prune_heights. simpl in Hx. rewrite F1 in Hx. apply lookup_insert_is_Some in Hx as [<-|[_ ?]]; [by left|by right].
  - intros Hd. rewrite prune_main. cbn. by apply trim_journals_some.
Qed.

Lemma add_block_extends now b c bs b0 l' j :
  chain_ok U g l0 c bs -> tip_block bs = Some b0 -> prev_block_hash (header b) = block_hash b0 ->
  block_heights (known c) !! block_hash b = None -> zlen bs <= u32_max ->
  typed_txs (transactions b) -> (forall x, x ∈ transactions b -> U x) -> validated now c b b0 (zlen bs) ->
  connect (config c) bs (state (main c)) b = Some (l', j) ->
  returns (add_block now b)
    (fun a c' => (exists added removed, a = MainChain (zlen bs) added removed (j_claimed j)) /\
       chain_ok U g l0 c' (bs ++ [b]) /\ state (main c') = l' /\ config c' = config c /\
       known_within (fun h => h = block_hash b) c c' /\
       view_accept b a (view_of bs (state (main c))) (view_of (bs ++ [b]) l') /\
       (1 <= max_reorg_depth (config c) -> journals (main c') <> [])) c.
Proof.
  intros Hok Ht Hp Hn Hmax Hty Hu Hv Hc. unfold returns, swp, add_block. rewrite Hn, Hp.
  rewrite (best_hash_tip U HU g l0 G1 G2 G3 c bs b0 (co_main _ _ _ _ _ Hok) Ht), (proj2 (bytes_eqb_eq _ _)) by done.
  pose proof (extend_main_is_ok now b c bs b0 l' j Hok Ht Hp Hmax Hv Hc) as H1.
  pose proof (extend_main_ok U HU g l0 G1 G2 G3 now b c bs b0 Hok Ht Hp Hn Hty Hu) as H2.
  unfold returns, swp in H1. unfold soc in H2. destruct (extend_main now b _ _ c) as [c' [a| |]]; [|done..].
  destruct H1 as (H1 & <- & H3 & H6), H2 as (H2 & H4 & H5). done.
Qed.

(** A block that makes the fork [ns] one longer than the active chain. *)
Record heavier (now : Z) (c : Chain) (bs : list Block) (n : nat) (ns : list Block) (b : Block) : Prop := {
  hv_fork : fork (known c) bs n ns;
  hv_length : (S n + length ns = length bs)%nat;
  hv_parent : exists parent, tip_block (take (S n) bs ++ ns) = Some parent /\
    prev_block_hash (header b) = block_hash parent /\ validated now c b parent (zlen bs) /\ ns <> [];
  hv_new : block_heights (known c) !! block_hash b = None;
  hv_height : zlen bs <= u32_max;
  hv_depth : (length bs - 1 - n <= length (journals (main c)))%nat;
  hv_typed : typed_txs (transactions b);
  hv_txs : forall x, x ∈ transactions b -> U x;
  hv_zero : forall x, x ∈ bs -> block_hash x <> zero_hash;
}.

Lemma heavier_parent now c bs n ns b :
  chain_ok U g l0 c bs -> heavier now c bs n ns b ->
  exists parent, prev_block_hash (header b) = block_hash parent /\ validated now c b parent (zlen bs) /\
    block_heights (known c) !! block_hash parent = Some (zlen bs - 1) /\
    headers (known c) !! block_hash parent = Some (header parent) /\ (block_hash parent ∉ map block_hash bs) /\
    tip_block (take (S n) bs ++ ns) = Some parent.
Proof.
  intros [C1 C2 _] [F Hlen (parent & Ht & Hp & Hv & Hne) _ _ _ _ _ _]. exists parent.
  pose proof (fork_branch _ _ _ _ _ _ C1 C2 F) as HT. destruct F as [F1 F2 F3 F4].
  assert (parent ∈ ns) as Hin.
  { unfold tip_block in Ht. rewrite lookup_app_r in Ht; [by eapply list_elem_of_lookup_2|].
    rewrite length_app, length_take. destruct ns; [done|]. simpl. lia. }
  pose proof (kb_height _ _ HT _ _ Ht) as Hh. rewrite length_app, length_take in Hh.
  split_and!; [done|done| |by apply (ko_body _ _ _ C1), F3|by apply F4|done].
  rewrite Hh. f_equal. unfold zlen. lia.
Qed.

Lemma fork_learn c bs n ns b w :
  chain_ok U g l0 c bs -> fork (known c) bs n ns -> block_heights (known c) !! block_hash b = None ->
  (forall parent, tip_block (take (S n) bs ++ ns) = Some parent -> prev_block_hash (header b) = block_hash parent) ->
  fork (learn_block (block_hash b) b (learn_index (block_hash b) (prev_block_hash (header b)) (zlen bs) w (known c)))
    bs n (ns ++ [b]).
Proof.
  intros [C1 C2 _] [F1 F2 F3 F4] Hn Hp. split; [done| | |].
  - intros i x y. rewrite app_assoc. intros Hx [Hy|[Hge [Hy <-]%list_lookup_singleton_Some]]%lookup_app_Some.
    + rewrite lookup_app_l in Hx by (apply lookup_lt_Some in Hy; lia). by eapply F2.
    + apply Hp. unfold tip_block. rewrite lookup_app_l in Hx by lia. rewrite <- Hx. f_equal. lia.
  - intros x [Hx|Hx%list_elem_of_singleton]%elem_of_app; simpl; [|subst; apply lookup_insert_eq].
    rewrite lookup_insert_ne; [by apply F3|]. intros E. rewrite E in Hn. apply (ko_dom _ _ _ C1) in Hn as [Hn _].
    by rewrite (F3 x Hx) in Hn.
  - intros x [Hx|Hx%list_elem_of_singleton]%elem_of_app; [by apply F4|]. subst x.
    intros (y & E & [i Hy]%list_elem_of_lookup)%list_elem_of_fmap.
    destruct (mo_known _ _ _ _ _ _ _ C2 i y Hy) as [Hh _]. rewrite E in Hn. congruence.
Qed.

Definition learn (b : Block) (n w : Z) (c : Chain) : Chain :=
  set_known (fun k => learn_block (block_hash b) b (learn_index (block_hash b) (prev_block_hash (header b)) n w k)) c.

(** A block on a fork that became known. *)
Lemma learned_ok now b parent c bs p :
  chain_ok U g l0 c bs -> block_heights (known c) !! block_hash b = None ->
  prev_block_hash (header b) = block_hash parent -> block_heights (known c) !! block_hash parent = Some (p - 1) ->
  headers (known c) !! block_hash parent = Some (header parent) -> p <= u32_max -> typed_txs (transactions b) -> (forall x, x ∈ transactions b -> U x) -> validated now c b parent p ->
  known_ok U g (known (learn b p (p + 1) c)) /\
  main_ok U g l0 (config c) (known (learn b p (p + 1) c)) (main c) bs.
Proof.
  intros [C1 C2 _] Hn Hp Hh Hhd Hmax Hty Hu Hv. unfold validated in Hv.
  destruct (validated_sound _ _ _ _ _ _ _ _ Hv Hty) as [Hs _]. replace (p - 1 + 1) with p in Hs by lia. split.
  - pose proof (ko_height _ _ _ C1 _ _ Hh). apply (learn_ok U g (known c)); try done; [lia|]. by rewrite Hp.
  - eapply main_ok_known; [exact C2| |].
    + intros x [i Hx]%list_elem_of_lookup. simpl.
      assert (block_hash b <> block_hash x) as Hne by (intros E; destruct (mo_known _ _ _ _ _ _ _ C2 i x Hx); congruence).
      by rewrite !lookup_insert_ne.
    + intros Hvk. by eapply (learn_valid U g _ _ _ _ _ _ (header parent) now C1 Hn); [rewrite Hp|rewrite Hp|].
Qed.

Lemma add_block_reorganizes now b c bs b0 n ns l' :
  chain_ok U g l0 c bs -> tip_block bs = Some b0 -> heavier now c bs n ns b ->
  replay (config c) [g] l0 (tail (take (S n) bs ++ ns ++ [b])) = Some l' ->
  returns (add_block now b)
    (fun a c' => (exists depth txs rbs afs, a = Reorg (block_hash b0) (block_hash b) depth txs rbs afs) /\
       chain_ok U g l0 c' (take (S n) bs ++ ns ++ [b]) /\ state (main c') = l') c.
Proof.
  intros Hok Ht Hv Hr. destruct (heavier_parent _ _ _ _ _ _ Hok Hv) as (parent & Hp & Hval & Hh & Hhd & Hapart & Htip).
  destruct Hv as [F Hlen _ Hn Hmax Hdepth Hty Hu Hz].
  pose proof (branch_length U HU g l0 G1 G2 G3 _ _ _ _ (co_known _ _ _ _ _ Hok) (co_main _ _ _ _ _ Hok)) as Hlen1.
  pose proof (fork_learn c bs n ns b (zlen bs + 1) Hok F Hn) as F'.
  rewrite Htip in F'. specialize (F' ltac:(by intros ? [= <-])). destruct Hok as [C1 C2 C3].
  unfold returns, swp, add_block. rewrite Hn, (best_hash_tip U HU g l0 G1 G2 G3 c bs b0 C2 Ht), Hp, Hh.
  assert (block_hash parent <> block_hash b0) as Hne.
  { intros E. apply Hapart. rewrite E. apply list_elem_of_fmap_2. by eapply list_elem_of_lookup_2. }
  rewrite (proj2 (bytes_eqb_neq _ _)) by done.
  enough (returns (extend_fork now b (block_hash b) (block_hash parent) (block_hash b0))
    (fun a c' => (exists depth txs rbs afs, a = Reorg (block_hash b0) (block_hash b) depth txs rbs afs) /\
       chain_ok U g l0 c' (take (S n) bs ++ ns ++ [b]) /\ state (main c') = l') c) as Hx by exact Hx.
  unfold extend_fork. apply returns_bind. unfold returns at 1, id. swp_step. rewrite Hh.
  apply returns_bind, (returns_lift _ (zlen bs)).
  { unfold padd, checked_add. rewrite (proj2 (Z.leb_le _ _)) by lia. cbn [unwrap]. f_equal. lia. }
  apply returns_bind, (returns_lift _ (header parent)); [by rewrite Hhd|].
  apply returns_bind, (returns_lift _ tt); [exact Hval|].
  apply returns_bind, (returns_lift _ (zlen bs + 1)).
  { unfold next_work. rewrite (ko_work _ _ _ C1 _ _ Hh). unfold padd, checked_add.
    rewrite (proj2 (Z.leb_le _ _)) by (unfold u32_max, u64_max in *; lia). cbn [unwrap]. f_equal. lia. }
  apply returns_bind. unfold returns at 1. swp_step. rewrite <- Hp. fold (learn b (zlen bs) (zlen bs + 1) c).
  set (c1 := learn b (zlen bs) (zlen bs + 1) c).
  destruct (learned_ok now b parent c bs (zlen bs)) as [K1 M1]; [by split|done..|]. fold c1 in K1, M1.
  apply returns_bind. unfold returns at 1. swp_step.
  destruct (main_ok_facts U HU g l0 G1 G2 G3 _ _ _ _ C2) as [_ Hnil].
  destruct (tip_known _ _ _ _ _ M1 Ht Hnil) as [Hh0 _]. rewrite (ko_work _ _ _ K1 _ _ Hh0).
  rewrite (proj2 (Z.ltb_lt _ _)) by lia. apply returns_bind. unfold returns at 1, swp at 1, reorganize_to.
  pose proof (reorganize_inner_returns c1 bs n ns b l' K1 M1 F' Hz Hdepth Hr) as Hre. unfold returns, swp in Hre.
  replace (Z.of_nat (S n) + zlen ns) with (zlen bs) in Hre by (unfold zlen; lia).
  destruct (reorganize_to_inner (block_hash b) (zlen bs) c1) as [c2 [[[txs rbs] afs]| |]]; [|done..].
  destruct Hre as (M2 & [K2 Cf2] & S2). unfold returns. do 2 swp_step. swp_step. split; [by eexists _, txs, rbs, afs|].
  destruct (prune_ok U HU g l0 G1 G2 G3 c2 (take (S n) bs ++ ns ++ [b])) as (P1 & P2 & _); [|by rewrite P2].
  split; [by rewrite K2|by rewrite K2, Cf2|]. rewrite K2. intros h m Hm.
  assert (zlen (take (S n) bs ++ ns ++ [b]) = zlen bs + 1) as ->.
  { unfold zlen. rewrite !length_app, length_take. cbn [length]. lia. }
  unfold c1, learn in Hm. simpl in Hm. apply lookup_insert_Some in Hm as [[_ <-]|[_ Hm]]; [lia|]. specialize (C3 _ _ Hm). lia.
Qed.

End progress.
