(* ===== verification/Genesis.v ===== *)
(** * The genesis block

    [vtorrent-node/src/genesis.rs]: the snapshot of the legacy balances, the block that
    distributes them and the chain that starts with it.  The blob with the balances
    ([genesis_snapshot.bin]) is a parameter; what its tests assert about it, that the
    balances add up to the legacy supply, is the hypothesis [snapshot_documented]. *)

From stdpp Require Import base list gmap sorting strings.
From Stdlib Require Import ZArith Lia.
From S2P Require Import Prelude Script Crypto Engine Standard Merkle Codec Block Address Consensus.
From S2P Require Import Deployments Governance Ledger Supply History Chain Replay.
Import Scripts.

(** ** The snapshot *)

Definition LEGACY_ADDRESS_COUNT : Z := 59375.
Definition LEGACY_SNAPSHOT_HEIGHT : Z := 1680456.
Definition GENESIS_TIMESTAMP : Z := 1700000000.

(** [&bytes[a..b]]. *)
Definition range {E} (a b : Z) (l : bytes) : res E bytes :=
  if (a <=? b) && (b <=? zlen l) then Ok (slice a b l) else Panic.

(** [str::from_utf8] succeeds. *)
Definition between (a b x : Z) : bool := (a <=? x) && (x <=? b).
Definition utf8_cont : Z -> bool := between 0x80 0xbf.
Fixpoint from_utf8 (l : bytes) : bool :=
  match l with
  | [] => true
  | b :: l =>
      if b <? 0x80 then from_utf8 l else
      match l with
      | [] => false
      | c1 :: l =>
          if between 0xc2 0xdf b then utf8_cont c1 && from_utf8 l else
          match l with
          | [] => false
          | c2 :: l =>
              let second :=
                if b =? 0xe0 then between 0xa0 0xbf c1 else if b =? 0xed then between 0x80 0x9f c1 else utf8_cont c1 in
              if between 0xe0 0xef b then second && utf8_cont c2 && from_utf8 l else
              match l with
              | [] => false
              | c3 :: l =>
                  let second :=
                    if b =? 0xf0 then between 0x90 0xbf c1 else if b =? 0xf4 then between 0x80 0x8f c1 else utf8_cont c1 in
                  between 0xf0 0xf4 b && second && utf8_cont c2 && utf8_cont c3 && from_utf8 l
              end
          end
      end
  end.

(** [iter().position(|&b| b == 0)]. *)
Fixpoint position_zero (l : bytes) : option nat :=
  match l with
  | [] => None
  | b :: l => if b =? 0 then Some 0%nat else S <$> position_zero l
  end.

(** The loop of [decode_snapshot]. *)
Definition decode_entry {E} (b : bytes) (offset : Z) : res E (bytes * Z) :=
  let* addr_bytes := range offset (offset + 34) b in
  let addr_end := match position_zero addr_bytes with Some i => i | None => 34%nat end in
  let addr := take addr_end addr_bytes in
  if negb (from_utf8 addr) then Panic else
  let* bal := range (offset + 34) (offset + 42) b in
  Ok (addr, from_le bal).

Fixpoint decode_entries {E} (count : nat) (b : bytes) (offset : Z) (out : list (bytes * Z)) : res E (list (bytes * Z)) :=
  match count with
  | O => Ok out
  | S count => let* e := decode_entry b offset in decode_entries count b (offset + 42) (out ++ [e])
  end.

(** [decode_snapshot]. *)
Definition decode_snapshot {E} (b : bytes) : res E (list (bytes * Z)) :=
  if zlen b <? 4 then Panic else
  let* n := range 0 4 b in
  let count := from_le n in
  if negb (count =? LEGACY_ADDRESS_COUNT) then Panic else
  if negb (zlen b =? 4 + count * 42) then Panic else
  decode_entries (Z.to_nat count) b 4 [].

(** [get_legacy_balance] and [is_legacy_address], on [LEGACY_SNAPSHOT]. *)
Definition legacy_balance (legacy : list (bytes * Z)) (address : bytes) : Z :=
  match List.find (fun e => bytes_eqb e.1 address) legacy with Some e => e.2 | None => 0 end.
Definition is_legacy_address (legacy : list (bytes * Z)) (address : bytes) : bool :=
  existsb (fun e => bytes_eqb e.1 address) legacy.

(** ** The block *)

(** [address_to_script]. *)
Definition address_to_script (address : bytes) : bytes := [0x6a; as_u8 (zlen address)] ++ address.

Definition GENESIS_MESSAGE : string :=
  "vTorrent 2.0 - Revived 2025 - Old holders made whole - No exchange needed".

(** The two transactions. *)
Definition genesis_coinbase : Transaction :=
  mkTx 1 Coinbase [] [mkTxOutput 0 (str GENESIS_MESSAGE)] 0 None None.
Definition legacy_distribution (legacy : list (bytes * Z)) : Transaction :=
  mkTx 1 LegacyClaim [] (map (fun '(addr, satoshis) => mkTxOutput satoshis (address_to_script addr)) legacy)
    LEGACY_SNAPSHOT_HEIGHT None None.

(** [all_genesis_utxos]. *)
Definition genesis_utxos `{Crypto, Bincode} (coinbase distribution : Transaction) : list Utxo :=
  map (fun o => mkUtxo (txid coinbase) 0 (value o) (script_pubkey o) 0 GENESIS_TIMESTAMP) (take 1 (outputs coinbase)) ++
  imap (fun i o => mkUtxo (txid distribution) (as_u32 (Z.of_nat i)) (value o) (script_pubkey o) 0 GENESIS_TIMESTAMP)
    (outputs distribution).

(** [create_genesis_block]. *)
Definition create_genesis_block `{Crypto, Bincode} (legacy : list (bytes * Z)) : res SpvError Block :=
  let coinbase := genesis_coinbase in
  let distribution := legacy_distribution legacy in
  let transactions := [coinbase; distribution] in
  let header merkle utxo := mkHeader 1 zero_hash merkle utxo GENESIS_TIMESTAMP GENESIS_BITS 0 0 in
  let* merkle_root := compute_merkle_root (mkBlock (header zero_hash zero_hash) transactions) in
  let* utxo_root := compute_utxo_root_sorted (genesis_utxos coinbase distribution) in
  Ok (mkBlock (header merkle_root utxo_root) transactions).

(** ** Lemmas: the snapshot *)

(** What the tests of [genesis.rs] assert of the snapshot, and the width of its fields. *)
Record snapshot_documented (legacy : list (bytes * Z)) : Prop := {
  sd_values : Forall (fun e => 0 <= e.2) legacy;
  sd_addresses : Forall (fun e => zlen e.1 <= 34) legacy;
  sd_total : zsum (map snd legacy) = LEGACY_TOTAL_SUPPLY_SATOSHIS;
  sd_count : zlen legacy < 2 ^ 32;
}.

Lemma legacy_balance_cons a b legacy x :
  legacy_balance ((a, b) :: legacy) x = if bytes_eqb a x then b else legacy_balance legacy x.
Proof. unfold legacy_balance. simpl. by destruct (bytes_eqb a x). Qed.

Lemma legacy_balance_nonneg legacy a : Forall (fun e => 0 <= e.2) legacy -> 0 <= legacy_balance legacy a.
Proof.
  induction 1 as [|[x b] legacy Hb Hl IH]; [done|]. rewrite legacy_balance_cons. by destruct (bytes_eqb x a).
Qed.

Lemma legacy_balances_bounded legacy addrs :
  Forall (fun e => 0 <= e.2) legacy -> NoDup addrs ->
  zsum (map (legacy_balance legacy) addrs) <= zsum (map snd legacy).
Proof.
  intros Hl Hnd. induction Hl as [|[x b] legacy Hb Hl IH].
  { simpl. clear Hnd. induction addrs as [|a addrs IH]; [done|]. simpl. exact IH. }
  cbn [map snd]. rewrite zsum_cons. simpl in Hb.
  enough (zsum (map (legacy_balance ((x, b) :: legacy)) addrs) <=
    b + zsum (map (legacy_balance legacy) addrs)) by lia.
  clear IH. induction Hnd as [|a addrs Ha Hnd IH]; [simpl; lia|]. cbn [map]. rewrite !zsum_cons, legacy_balance_cons.
  pose proof (legacy_balance_nonneg legacy a Hl). destruct (bytes_eqb x a) eqn:E; [|lia].
  apply bytes_eqb_eq in E as ->. enough (map (legacy_balance ((a, b) :: legacy)) addrs =
    map (legacy_balance legacy) addrs) as -> by lia.
  apply map_ext_in. intros y Hy%list_elem_of_In. rewrite legacy_balance_cons.
  destruct (bytes_eqb a y) eqn:E; [|done]. by apply bytes_eqb_eq in E as ->.
Qed.

(** *** Decoding *)

(** The layout the comment on [decode_snapshot] documents. *)
Definition entry_layout (e : bytes * Z) : bytes := e.1 ++ repeat 0 (34 - length e.1) ++ le64 e.2.
Definition snapshot_layout (l : list (bytes * Z)) : bytes := le32 (zlen l) ++ concat (map entry_layout l).

Definition entry_ok (e : bytes * Z) : Prop :=
  zlen e.1 <= 34 /\ Forall (fun x => x <> 0) e.1 /\ from_utf8 e.1 = true /\ 0 <= e.2 < 2 ^ 64.

Lemma range_mid {E} (a b c : bytes) i j :
  zlen a = i -> i + zlen b = j -> @range E i j (a ++ b ++ c) = Ok b.
Proof.
  intros Hi Hj. unfold range. pose proof (zlen_nonneg b). pose proof (zlen_nonneg c).
  rewrite (proj2 (Z.leb_le i j)), (proj2 (Z.leb_le j _)) by (rewrite ?zlen_app; lia). cbn [andb].
  by rewrite (slice_mid a b c i j).
Qed.

Lemma position_zero_pad a n : Forall (fun x => x <> 0) a ->
  take (match position_zero (a ++ repeat 0 n) with Some i => i | None => (length a + n)%nat end) (a ++ repeat 0 n) = a.
Proof.
  intros Ha. assert (position_zero (a ++ repeat 0 n) = match n with O => None | _ => Some (length a) end) as ->.
  { induction Ha as [|x a Hx Ha IH]; simpl; [by destruct n|]. rewrite (proj2 (Z.eqb_neq _ _)) by done.
    rewrite IH. by destruct n. }
  destruct n; [by rewrite app_nil_r, take_ge by lia|]. by apply take_app_length.
Qed.

Lemma decode_entry_layout {E} pre e post :
  entry_ok e -> @decode_entry E (pre ++ entry_layout e ++ post) (zlen pre) = Ok e.
Proof.
  intros (H1 & H2 & H3 & H4). destruct e as [a v]. simpl in *. unfold decode_entry, entry_layout. cbn [fst snd].
  set (field := a ++ repeat 0 (34 - length a)).
  assert (zlen field = 34) as Hf by (unfold field, zlen in *; rewrite length_app, repeat_length; lia).
  replace (pre ++ (a ++ repeat 0 (34 - length a) ++ le64 v) ++ post) with (pre ++ field ++ le64 v ++ post)
    by (unfold field; by rewrite <- !app_assoc).
  rewrite (range_mid pre field) by lia. cbn [rbind].
  pose proof (position_zero_pad a (34 - length a) H2) as Hp. unfold zlen in H1.
  replace (length a + (34 - length a))%nat with 34%nat in Hp by lia. fold field in Hp. cbv zeta. rewrite !Hp, H3. cbn [negb].
  rewrite (app_assoc pre field). rewrite (range_mid (pre ++ field) (le64 v)).
  - cbn [rbind]. unfold le64. by rewrite from_le_to_le by (change (256 ^ Z.of_nat 8) with (2 ^ 64); lia).
  - rewrite zlen_app. lia.
  - unfold le64, zlen. rewrite length_to_le. lia.
Qed.

Lemma decode_entries_layout {E} es : forall pre out,
  Forall entry_ok es ->
  @decode_entries E (length es) (pre ++ concat (map entry_layout es)) (zlen pre) out = Ok (out ++ es).
Proof.
  induction es as [|e es IH]; intros pre out Hes; [simpl; by rewrite app_nil_r|].
  apply Forall_cons in Hes as [He Hes]. cbn [length decode_entries map concat].
  rewrite decode_entry_layout by done. cbn [rbind]. rewrite app_assoc.
  replace (zlen pre + 42) with (zlen (pre ++ entry_layout e)); [by rewrite IH, <- app_assoc|].
  destruct He as (H1 & _). rewrite zlen_app. f_equal. unfold entry_layout, zlen, le64 in *.
  rewrite !length_app, repeat_length, length_to_le. lia.
Qed.

(** the snapshot survives its encoding: every list of the expected number of entries, with
    addresses of at most 34 characters and 64-bit balances, is read back from the documented
    layout, and none of the assertions, slices and conversions of [decode_snapshot] panics. *)
Theorem snapshot_roundtrip {E} (l : list (bytes * Z)) :
  zlen l = LEGACY_ADDRESS_COUNT -> Forall entry_ok l -> @decode_snapshot E (snapshot_layout l) = Ok l.
Proof.
  intros Hn Hl. unfold decode_snapshot, snapshot_layout.
  assert (zlen (le32 (zlen l)) = 4) as H4 by (unfold zlen, le32; by rewrite length_to_le).
  assert (zlen (concat (map entry_layout l)) = zlen l * 42) as Hc.
  { clear Hn H4. induction Hl as [|e l He Hl IH]; [done|]. cbn [map concat]. rewrite zlen_app, zlen_cons, IH.
    destruct He as (H1 & _). unfold entry_layout, zlen, le64 in *. rewrite !length_app, repeat_length, length_to_le. lia. }
  pose proof (zlen_nonneg l). rewrite (proj2 (Z.ltb_ge _ _)) by (rewrite zlen_app; lia).
  rewrite <- (app_nil_l (le32 _ ++ _)) at 1. rewrite (range_mid [] (le32 (zlen l))) by done. cbn [rbind].
  assert (from_le (le32 (zlen l)) = zlen l) as -> by (unfold le32; rewrite from_le_to_le; [done|rewrite Hn; by vm_compute]).
  rewrite (proj2 (Z.eqb_eq _ _)) by done. cbn [negb]. rewrite zlen_app, H4, Hc, Z.eqb_refl. cbn [negb].
  unfold zlen at 1. rewrite Nat2Z.id. rewrite <- H4. apply decode_entries_layout. done.
Qed.

(** Whatever blob is decoded, the entries are as documented but for their sum. *)
Lemma decode_entries_sound {E} n : forall b off out l,
  is_bytes b -> @decode_entries E n b off out = Ok l -> Forall (fun e => zlen e.1 <= 34 /\ 0 <= e.2) out ->
  Forall (fun e => zlen e.1 <= 34 /\ 0 <= e.2) l /\ length l = (length out + n)%nat.
Proof.
  induction n as [|n IH]; intros b off out l Hb; cbn [decode_entries]; [intros [= <-]; split; [done|lia]|].
  unfold decode_entry. destruct (range off (off + 34) b) as [ab| |] eqn:E1; [|done..]. cbn [rbind].
  destruct (negb _); [done|]. destruct (range (off + 34) (off + 42) b) as [vb| |] eqn:E2; [|done..]. cbn [rbind].
  intros Hl Hout. apply IH in Hl as [Hf Hlen]; [|done|].
  - split; [done|]. rewrite Hlen, length_app. simpl. lia.
  - apply Forall_app. split; [done|]. apply Forall_singleton. unfold range in E1, E2.
    destruct (Z.leb_spec off (off + 34)); [|done]. destruct (Z.leb_spec (off + 34) (zlen b)); [|done].
    destruct (Z.leb_spec (off + 34) (off + 42)); [|done]. destruct (Z.leb_spec (off + 42) (zlen b)); [|done].
    injection E1 as <-. injection E2 as <-. split.
    + unfold zlen, slice. simpl. rewrite length_take, length_take. lia.
    + apply from_le_bound. by apply is_bytes_slice.
Qed.

Lemma decoded_documented {E} b legacy :
  is_bytes b -> @decode_snapshot E b = Ok legacy -> zsum (map snd legacy) = LEGACY_TOTAL_SUPPLY_SATOSHIS ->
  snapshot_documented legacy /\ zlen legacy = LEGACY_ADDRESS_COUNT.
Proof.
  intros Hb Hd Ht. unfold decode_snapshot in Hd. destruct (zlen b <? 4); [done|].
  destruct (range 0 4 b) as [n| |]; [|done..]. cbn [rbind] in Hd. destruct (Z.eqb_spec (from_le n) LEGACY_ADDRESS_COUNT) as [En|];
    [|done]. cbn [negb] in Hd. destruct (negb _); [done|].
  apply decode_entries_sound in Hd as [Hf Hl]; [|done|constructor].
  assert (zlen legacy = LEGACY_ADDRESS_COUNT) as Hc by (unfold zlen; rewrite Hl, En; by vm_compute).
  split; [|done]. split; [| |done|by rewrite Hc]; (eapply Forall_impl; [exact Hf|]); by intros e [? ?].
Qed.

(** The balances [get_legacy_balance] hands out. *)
Definition snapshot_of (legacy : list (bytes * Z)) : Snapshot := legacy_balance legacy.

Lemma snapshot_laws legacy : snapshot_documented legacy -> SnapshotLaws (snapshot_of legacy).
Proof.
  intros [D1 _ D2 _]. split; [intros a; by apply legacy_balance_nonneg|].
  intros X. rewrite <- D2. unfold claims_sum. apply legacy_balances_bounded; [done|apply NoDup_elements].
Qed.

(** ** Lemmas: applying the genesis block *)

Section genesis.
Context {C : Crypto} {B : Bincode} {H : Hex} {N : Snapshot}.

(** Outputs that cannot be staked are added without a check. *)
Lemma add_outputs_total height timestamp tx (os : list (nat * TxOutput)) s :
  (forall p e, e ∈ os -> is_stakeable_with p (utxo_of height timestamp tx e.1 e.2) = false) ->
  swp (sfor (add_output height timestamp tx) os) (fun _ s' => stake_input s' = stake_input s) (fun _ => False) s.
Proof.
  intros Hs. apply (swp_for (fun _ s' => stake_input s' = stake_input s) _ _ _ []); [|done].
  intros p [i o] s1 Hin Hs1. unfold add_output. swp_step; [by intros _; swp_step|]. intros _.
  do 3 swp_step. rewrite (Hs _ _ Hin). by repeat swp_step.
Qed.

Lemma genesis_output_scripts legacy o :
  snapshot_documented legacy -> o ∈ outputs (legacy_distribution legacy) ->
  is_op_return (script_pubkey o) = true /\ is_stakeable_script (script_pubkey o) = false /\ 0 <= value o <= MAX_MONEY.
Proof.
  intros [D1 D2 D3 _] Ho. simpl in Ho. apply list_elem_of_fmap in Ho as ([a v] & -> & Hin). simpl.
  rewrite Forall_forall in D1, D2. specialize (D2 _ Hin). pose proof (D1 _ Hin) as Hv. simpl in D2, Hv.
  assert (from_bytes (address_to_script a) = Ok (address_to_script a)) as Hf.
  { unfold from_bytes, address_to_script, MAX_SCRIPT_SIZE. rewrite zlen_app. change (zlen [_; _]) with 2.
    rewrite (proj2 (Z.ltb_ge _ _)); [done|lia]. }
  unfold is_op_return, is_stakeable_script. rewrite Hf. change (address_to_script a) with (0x6a :: as_u8 (zlen a) :: a).
  rewrite classify_op_return. split_and!; [done|done|done|].
  assert (v <= zsum (map snd legacy)).
  { apply list_elem_of_split in Hin as (l1 & l2 & ->). rewrite map_app, zsum_app. cbn [map snd]. rewrite zsum_cons.
    assert (forall l : list (bytes * Z), (forall e, e ∈ l -> 0 <= e.2) -> 0 <= zsum (map snd l)) as Hnn.
    { intros l Hl. apply zsum_nonneg, Forall_map, Forall_forall. intros e He. by apply Hl. }
    assert (0 <= zsum (map snd l1)) by (apply Hnn; intros e He; apply D1; rewrite elem_of_app; by left).
    assert (0 <= zsum (map snd l2)) by (apply Hnn; intros e He; apply D1; rewrite elem_of_app, elem_of_cons; auto).
    lia. }
  unfold LEGACY_TOTAL_SUPPLY_SATOSHIS, MAX_MONEY, MAX_SUPPLY, COIN in *. lia.
Qed.

Lemma genesis_tx_total genesis bootstrap timestamp modifier tx s :
  inputs tx = [] -> is_coinbase tx = true \/ (is_legacy_claim tx = true /\ claim_address tx = None /\ claim_signature tx = None) ->
  (forall o, o ∈ outputs tx -> is_stakeable_script (script_pubkey o) = false) ->
  swp (apply_transaction genesis bootstrap 0 timestamp modifier false tx) (fun _ _ => True) (fun _ => False) s.
Proof.
  intros Hi Hk Ho. unfold apply_transaction. do 2 swp_step. unfold swp, apply_transaction_journaled.
  destruct s as [l j]. enough (swp (apply_body bootstrap 0 timestamp modifier false tx) (fun _ _ => True) (fun _ => False)
    (mkFrame l j 0 None)) as Hb.
  { unfold swp in Hb. by destruct (apply_body _ _ _ _ _ _ _) as [s' [| |]]. }
  assert (is_coinstake tx = false) as Hcs.
  { unfold is_coinbase, is_coinstake, is_legacy_claim in *. by destruct (tx_type tx), Hk as [|[]]. }
  set (quiet := fun (_ : unit) s => stake_input s = None). unfold apply_body. rewrite Hcs. swp_step.
  eapply (swp_mono _ quiet _ (fun _ => False)); [by rewrite Hi; destruct (is_coinbase tx)| |by intros]. intros [] s1 H1. swp_step.
  eapply (swp_mono _ quiet _ (fun _ => False)); [| |by intros].
  { destruct Hk as [Hcb|(-> & Ha & Hsg)].
    - assert (is_legacy_claim tx = false) as -> by (unfold is_coinbase, is_legacy_claim in *; by destruct (tx_type tx)). done.
    - unfold apply_claim. by rewrite Ha, Hsg. }
  intros [] s2 H2. swp_step. eapply (swp_mono _ quiet _ (fun _ => False)); [| |by intros].
  { unfold quiet in *. rewrite <- H2. apply add_outputs_total. intros p [i o] Hin.
    apply list_elem_of_lookup in Hin as [q Hq]. rewrite list_lookup_imap in Hq.
    destruct (outputs tx !! q) as [o'|] eqn:E; [|done]. injection Hq as <- <-. unfold is_stakeable_with. simpl.
    rewrite (Ho o') by by eapply list_elem_of_lookup_2. by destruct (_ <? _). }
  intros [] s3 H3. do 3 swp_step.
  assert (negb (is_coinbase tx) && negb false && negb (is_legacy_claim tx) = false) as ->
    by (destruct Hk as [->|(-> & _)]; by rewrite ?andb_false_r).
  do 3 swp_step. swp_step. unfold swp at 1, transfer_lock. by rewrite H3.
Qed.

(** The output set is the list the header commits to. *)
Lemma create_utxos_perm us :
  NoDup (map outpoint us) -> map snd (map_to_list (create_utxos ∅ us : gmap OutPoint Utxo)) ≡ₚ us.
Proof.
  induction us as [|u us IH] using rev_ind; intros Hnd; [done|].
  rewrite map_app in Hnd. apply NoDup_app in Hnd as (Hnd & Hd & _).
  assert (create_utxos ∅ (us ++ [u]) = <[(outpoint u : OutPoint) := u]> (create_utxos ∅ us)) as ->
    by (unfold create_utxos; by rewrite foldl_app).
  rewrite map_to_list_insert.
  - cbn [map snd]. rewrite IH by done. by rewrite Permutation_app_comm.
  - apply eq_None_not_Some. intros [v Hv]. apply create_utxos_lookup in Hv as [Hv|[Hv E]]; [by rewrite lookup_empty in Hv|].
    apply (Hd (outpoint v)); [by apply list_elem_of_fmap_2|]. rewrite E. by apply list_elem_of_singleton.
Qed.

Lemma in_order_utxos_sorted (m : gmap OutPoint Utxo) :
  (forall k u, m !! k = Some u -> outpoint u = k) -> StronglySorted utxo_le (map snd (in_order outpoint_leb m)).
Proof.
  intros Hk. assert (Hin : forall e, e ∈ in_order outpoint_leb m -> outpoint e.2 = e.1).
  { intros [k u] He. apply elem_of_in_order in He. exact (Hk k u He). }
  assert (Hs : StronglySorted (key_le outpoint_leb) (in_order outpoint_leb m)).
  { assert (Transitive (key_le (V:=Utxo) outpoint_leb)) by (intros a b c; apply outpoint_leb_trans).
    assert (Total (key_le (V:=Utxo) outpoint_leb)) by (intros a b; apply outpoint_leb_total).
    apply (StronglySorted_merge_sort _). }
  induction Hs as [|[k u] es Hs IH Hle]; [constructor|]. cbn [map snd]. constructor; [apply IH; intros e He; apply Hin; by right|].
  apply Forall_map, Forall_forall. intros e He. rewrite Forall_forall in Hle. specialize (Hle e He).
  unfold utxo_le. rewrite (Hin e) by by right. pose proof (Hin (k, u) ltac:(left)) as E. simpl in E. by rewrite E.
Qed.

Lemma new_utxos_distribution legacy :
  new_utxos 0 GENESIS_TIMESTAMP (legacy_distribution legacy) =
    imap (utxo_of 0 GENESIS_TIMESTAMP (legacy_distribution legacy)) (outputs (legacy_distribution legacy)).
Proof.
  unfold new_utxos. generalize (outputs (legacy_distribution legacy)). intros os.
  assert (forall e, new_utxo 0 GENESIS_TIMESTAMP (legacy_distribution legacy) e =
    Some (utxo_of 0 GENESIS_TIMESTAMP (legacy_distribution legacy) e.1 e.2)) as Hn.
  { intros e. unfold new_utxo, is_utxo_eligible. destruct (is_op_return _); done. }
  enough (forall k, omap (new_utxo 0 GENESIS_TIMESTAMP (legacy_distribution legacy)) (imap (fun i => pair (k + i)%nat) os) =
    imap (fun i => utxo_of 0 GENESIS_TIMESTAMP (legacy_distribution legacy) (k + i)) os) as Hg by apply (Hg 0%nat).
  induction os as [|o os IH]; intros k; [done|]. rewrite !imap_cons. cbn [omap list_omap]. rewrite Hn. f_equal.
  rewrite (imap_ext _ (fun i => pair (S k + i)%nat)) by (intros; simpl; do 2 f_equal; lia). rewrite IH.
  apply imap_ext. intros i x _. simpl. f_equal. lia.
Qed.

Lemma new_utxos_coinbase :
  new_utxos 0 GENESIS_TIMESTAMP genesis_coinbase =
    [mkUtxo (txid genesis_coinbase) 0 0 (str GENESIS_MESSAGE) 0 GENESIS_TIMESTAMP].
Proof. by vm_compute. Qed.

Lemma genesis_utxos_new legacy :
  genesis_utxos genesis_coinbase (legacy_distribution legacy) =
    new_utxos 0 GENESIS_TIMESTAMP genesis_coinbase ++ new_utxos 0 GENESIS_TIMESTAMP (legacy_distribution legacy).
Proof. by rewrite new_utxos_coinbase, new_utxos_distribution. Qed.

(** None of them can be staked or spent. *)
Lemma genesis_utxos_idle legacy u :
  snapshot_documented legacy -> u ∈ genesis_utxos genesis_coinbase (legacy_distribution legacy) ->
  is_stakeable_script (utxo_script u) = false /\ spendable u = 0 /\ 0 <= utxo_value u <= MAX_MONEY /\
  0 <= (outpoint u).2 <= u32_max.
Proof.
  intros D. unfold genesis_utxos. rewrite elem_of_app. intros [Hu|Hu].
  - apply list_elem_of_singleton in Hu as ->. split; [by vm_compute|]. split; [by vm_compute|]. simpl.
    split; [unfold MAX_MONEY, MAX_SUPPLY, COIN; lia|unfold u32_max; lia].
  - apply list_elem_of_lookup in Hu as [i Hi]. rewrite list_lookup_imap in Hi.
    destruct (outputs (legacy_distribution legacy) !! i) as [o|] eqn:Eo; [|done]. injection Hi as <-.
    destruct (genesis_output_scripts legacy o D) as (H1 & H2 & H3); [by eapply list_elem_of_lookup_2|].
    unfold spendable. simpl. rewrite H1. split; [done|]. split; [done|]. split; [done|apply as_u32_range].
Qed.

Lemma genesis_utxos_height legacy u :
  u ∈ genesis_utxos genesis_coinbase (legacy_distribution legacy) -> utxo_height u = 0.
Proof.
  unfold genesis_utxos. rewrite elem_of_app. intros [Hu%list_elem_of_singleton|[i Hi]%list_elem_of_lookup]; [by subst|].
  rewrite list_lookup_imap in Hi. destruct (outputs (legacy_distribution legacy) !! i); [|done]. by injection Hi as <-.
Qed.

(** The ledger after the two transactions. *)
Lemma genesis_applied genesis bootstrap modifier legacy l j l2 j2 :
  snapshot_documented legacy ->
  utxo_set l = ∅ -> claimed_addresses l = ∅ -> supply_delta j = 0 -> staked_delta j = 0 ->
  txid genesis_coinbase <> txid (legacy_distribution legacy) ->
  sfor (apply_transaction genesis bootstrap 0 GENESIS_TIMESTAMP modifier false) [genesis_coinbase; legacy_distribution legacy] (l, j)
    = ((l2, j2), Ok tt) ->
  utxo_set l2 = create_utxos ∅ (genesis_utxos genesis_coinbase (legacy_distribution legacy)) /\
  claimed_addresses l2 = ∅ /\ total_supply l2 = total_supply l /\ total_staked l2 = total_staked l /\
  supply_delta j2 = LEGACY_TOTAL_SUPPLY_SATOSHIS /\ staked_delta j2 = 0 /\
  tracked 1 [genesis_coinbase; legacy_distribution legacy] l2.
Proof.
  intros D U0 C0 S0 W0 Hne E. cbn [sfor] in E. apply sbind_Ok in E as ([] & [l1 j1] & E1 & E).
  apply sbind_Ok in E as ([] & s2 & E2 & E). injection E as ->.
  apply apply_journaled_spec in E1 as [us1 A1]; [|done]. apply apply_journaled_spec in E2 as [us2 A2]; [|done].
  assert (us1 = []) as -> by (destruct A1 as [Hi _ _ _ _ _ _ _ _ _]; by inversion Hi).
  assert (us2 = []) as -> by (destruct A2 as [Hi _ _ _ _ _ _ _ _ _]; by inversion Hi).
  assert (Hw : forall us, (forall u, u ∈ us -> u ∈ genesis_utxos genesis_coinbase (legacy_distribution legacy)) ->
    zsum (map (weight_i64 (params l)) us) = 0).
  { intros us Hus. induction us as [|u us IH]; [done|]. cbn [map]. rewrite zsum_cons, IH by (intros; apply Hus; by right).
    destruct (genesis_utxos_idle legacy u D) as (H1 & _); [apply Hus; left|].
    unfold weight_i64, is_stakeable_with. rewrite H1. by destruct (_ <? _). }
  rewrite genesis_utxos_new in *.
  assert (Htr : tracked 0 [] l).
  { split; [|intros tx ? Hx|intros tx ? Hx|intros tx Hx|constructor]; [|by apply elem_of_nil in Hx..].
    intros k [u Hu]. rewrite U0, lookup_empty in Hu. done. }
  pose proof (applied_tracked _ _ _ _ _ 0 1 [] _ _ _ _ _ _ A1 Htr ltac:(apply not_elem_of_nil) ltac:(lia) ltac:(done)) as Htr1.
  pose proof (applied_tracked _ _ _ _ _ 1 1 _ _ _ _ _ _ _ A2 Htr1 ltac:(by intros ?%list_elem_of_singleton)
    ltac:(lia) ltac:(done)) as Htr2.
  destruct A1 as [_ _ _ I1 I2 (I3 & I4 & I5) I6 I7 _ _], A2 as [_ _ _ J1 J2 (J3 & J4 & J5) J6 J7 _ _].
  assert (Ht : total_output (legacy_distribution legacy) = LEGACY_TOTAL_SUPPLY_SATOSHIS).
  { unfold total_output. rewrite sat_sum_spec.
    - cbn [outputs legacy_distribution]. rewrite map_map, <- (sd_total _ D).
      rewrite (map_ext _ snd) by by intros []. rewrite (sd_total _ D). done.
    - apply Forall_map, Forall_forall. intros o Ho. by apply (genesis_output_scripts legacy o D). }
  change (claimed_addresses l1 = claimed_addresses l) in I2.
  change (0 = 0 /\ claimed_addresses l2 = claimed_addresses l1) in J2. destruct J2 as [_ J2].
  split_and!; try congruence.
  - rewrite J1, I1, U0. unfold create_utxos. by rewrite foldl_app.
  - rewrite J7, I7, S0, Ht. done.
  - rewrite J6, I6, W0, I5, (Hw (new_utxos 0 GENESIS_TIMESTAMP genesis_coinbase)),
      (Hw (new_utxos 0 GENESIS_TIMESTAMP (legacy_distribution legacy)));
      [done|intros u; rewrite elem_of_app; auto..].
  - exact Htr2.
Qed.

(** Sums over the output set are sums over the list. *)
Lemma genesis_utxos_nodup legacy :
  snapshot_documented legacy -> txid genesis_coinbase <> txid (legacy_distribution legacy) ->
  NoDup (map outpoint (genesis_utxos genesis_coinbase (legacy_distribution legacy))).
Proof.
  intros D Hne. rewrite genesis_utxos_new, map_app. apply NoDup_app.
  assert (forall tx, zlen (outputs tx) < 2 ^ 32 -> NoDup (map outpoint (new_utxos 0 GENESIS_TIMESTAMP tx))) as Hn
    by (intros; by apply new_utxos_nodup).
  split_and!; [by apply Hn| |apply Hn; pose proof (sd_count _ D); unfold zlen in *; simpl; by rewrite length_map].
  intros k (u & -> & [i Hi]%new_utxos_key)%list_elem_of_fmap (v & E & [i' Hi']%new_utxos_key)%list_elem_of_fmap.
  apply Hne. rewrite Hi, Hi' in E. exact (f_equal fst E).
Qed.

Lemma genesis_sum f legacy :
  snapshot_documented legacy -> txid genesis_coinbase <> txid (legacy_distribution legacy) ->
  map_sum f (create_utxos ∅ (genesis_utxos genesis_coinbase (legacy_distribution legacy))) =
    zsum (map f (genesis_utxos genesis_coinbase (legacy_distribution legacy))).
Proof.
  intros D Hne. rewrite map_sum_create; [done|by apply genesis_utxos_nodup|]. intros u _. apply lookup_empty.
Qed.

Lemma zsum_zero {A} (f : A -> Z) l : (forall x, x ∈ l -> f x = 0) -> zsum (map f l) = 0.
Proof.
  induction l as [|x l IH]; intros Hl; [done|]. cbn [map]. rewrite zsum_cons, Hl by left. apply IH.
  intros y Hy. apply Hl. by right.
Qed.

Lemma map_imap_value {A Y X} (f : nat -> A -> Y) (v : A -> X) (h : Y -> X) (l : list A) :
  (forall i x, h (f i x) = v x) -> map h (imap f l) = map v l.
Proof.
  intros Hv. revert f Hv. induction l as [|x l IH]; intros f Hv; [done|]. rewrite imap_cons. cbn [map]. rewrite Hv. f_equal.
  apply IH. intros i y. apply Hv.
Qed.

Lemma genesis_ledger legacy l :
  snapshot_documented legacy -> txid genesis_coinbase <> txid (legacy_distribution legacy) ->
  utxo_set l = create_utxos ∅ (genesis_utxos genesis_coinbase (legacy_distribution legacy)) ->
  claimed_addresses l = ∅ -> total_staked l = 0 -> total_supply l = LEGACY_TOTAL_SUPPLY_SATOSHIS -> ledger_inv l.
Proof.
  intros D Hne U0 C0 T0 S0.
  assert (Hu : forall k u, utxo_set l !! k = Some u -> outpoint u = k /\
    is_stakeable_script (utxo_script u) = false /\ spendable u = 0 /\ 0 <= utxo_value u <= MAX_MONEY /\ 0 <= k.2 <= u32_max).
  { intros k u Hu. rewrite U0 in Hu. apply create_utxos_lookup in Hu as [Hu|[Hu E]]; [by rewrite lookup_empty in Hu|].
    subst. split; [done|]. by apply (genesis_utxos_idle legacy). }
  assert (Hz : forall f, (forall k u, utxo_set l !! k = Some u -> f u = 0) -> map_sum f (utxo_set l) = 0).
  { intros f Hf. apply Z.le_antisymm; [|apply map_sum_nonneg; intros k u Hk; by rewrite (Hf k u Hk)].
    rewrite (map_sum_ext f (fun _ => 0)) by done. unfold map_sum.
    generalize (map_to_list (utxo_set l)). intros es. induction es as [|e es IH]; [done|].
    cbn [fmap list_fmap]. rewrite zsum_cons. lia. }
  split.
  - intros k u Hk. destruct (Hu k u Hk) as (? & _ & _ & ?). done.
  - rewrite T0, Hz; [done|]. intros k u Hk. destruct (Hu k u Hk) as (_ & Hs & _ & _).
    unfold weight, is_stakeable_with. rewrite Hs. by destruct (_ <? _).
  - rewrite S0. unfold LEGACY_TOTAL_SUPPLY_SATOSHIS, MAX_SUPPLY, COIN. lia.
  - rewrite S0, C0, Hz; [done|]. intros k u Hk. by destruct (Hu k u Hk) as (_ & _ & ? & _).
Qed.

(** The root in the header is the root of the output set. *)
Lemma genesis_root legacy tree root :
  snapshot_documented legacy -> txid genesis_coinbase <> txid (legacy_distribution legacy) ->
  compute_utxo_root_sorted (genesis_utxos genesis_coinbase (legacy_distribution legacy)) = Ok root ->
  exists tree', recompute_utxo_root tree (create_utxos ∅ (genesis_utxos genesis_coinbase (legacy_distribution legacy))) =
    Ok (tree', root).
Proof.
  intros D Hne. pose proof (genesis_utxos_nodup legacy D Hne) as Hnd. set (us := genesis_utxos _ _) in *. intros Hr.
  set (m := create_utxos ∅ us). set (l' := map snd (in_order outpoint_leb m)).
  assert (Hp : us ≡ₚ l').
  { unfold l', in_order. rewrite merge_sort_Permutation. symmetry. by apply create_utxos_perm. }
  destruct (utxo_root_order_independent us l' Hnd Hp) as [_ Hroot].
  specialize (Hroot ltac:(apply in_order_utxos_sorted; intros k u Hu; apply create_utxos_lookup in Hu as [Hu|[_ ?]];
    [by rewrite lookup_empty in Hu|done])).
  assert (Hne' : map hash_utxo l' <> []).
  { intros E%map_eq_nil. rewrite E in Hp. apply Permutation_nil_r in Hp. done. }
  unfold compute_utxo_root in Hroot. rewrite Hr in Hroot. unfold compute_utxo_root_ordered in Hroot.
  rewrite compute_merkle_root_spec in Hroot by done. injection Hroot as ->.
  unfold recompute_utxo_root. unfold l' in *. rewrite map_map in *. rewrite scratch_build_spec by done. by eexists.
Qed.

Lemma genesis_journaled genesis bootstrap modifier legacy hash tree root :
  snapshot_documented legacy -> txid genesis_coinbase <> txid (legacy_distribution legacy) ->
  compute_utxo_root_sorted (genesis_utxos genesis_coinbase (legacy_distribution legacy)) = Ok root ->
  exists l tree' j, apply_block_journaled genesis bootstrap 0 GENESIS_TIMESTAMP modifier false hash
      [genesis_coinbase; legacy_distribution legacy] tree (mkLedger ∅ ∅ 0 0 default_params gov_new) = (l, tree', Ok j) /\
    j_utxo_root j = root /\ ledger_inv l /\ tracked 1 [genesis_coinbase; legacy_distribution legacy] l /\
    utxo_set l = create_utxos ∅ (genesis_utxos genesis_coinbase (legacy_distribution legacy)) /\
    claimed_addresses l = ∅ /\ total_supply l = LEGACY_TOTAL_SUPPLY_SATOSHIS /\ total_staked l = 0.
Proof.
  intros D Hne Hr. unfold apply_block_journaled, apply_block_body. set (l0 := mkLedger _ _ _ _ _ _).
  set (j0 := new_journal l0 hash 0). unfold sbind at 1. cbn [begin_governance_block].
  unfold sbind at 1. set (loop := sfor _ _).
  assert (swp loop (fun _ _ => True) (fun _ => False) (l0, j0)) as Hloop.
  { unfold loop. cbn [sfor]. swp_step. eapply swp_mono; [apply genesis_tx_total; [done|by left|]| |done].
    { intros o Ho%list_elem_of_singleton. subst o. by vm_compute. }
    intros _ s1 _. swp_step. eapply swp_mono; [apply genesis_tx_total; [done|by right|]| |done].
    { intros o Ho. by apply (genesis_output_scripts legacy o D). }
    intros _ s2 _. done. }
  unfold swp in Hloop. destruct (loop (l0, j0)) as [[l2 j2] r] eqn:E. unfold loop in E.
  destruct r as [[]| |]; [|done..]. apply genesis_applied in E as (U2 & C2 & S2 & T2 & SD & WD & Htr); [|done..].
  unfold commit_totals. rewrite S2, T2, SD, WD. cbn [total_supply total_staked l0].
  change (sat_add u64_max 0 LEGACY_TOTAL_SUPPLY_SATOSHIS) with LEGACY_TOTAL_SUPPLY_SATOSHIS.
  change (MAX_SUPPLY <? LEGACY_TOTAL_SUPPLY_SATOSHIS) with false. cbv iota. change (if 0 <=? 0 then _ else _) with 0.
  unfold commit_root. cbn [set_totals utxo_set]. rewrite U2.
  destruct (genesis_root legacy tree root D Hne Hr) as [tree' ->].
  eexists _, _, _. split; [reflexivity|]. split; [done|]. split; [by apply (genesis_ledger legacy)|].
  split; [by destruct Htr|done].
Qed.

Lemma create_genesis_block_Ok legacy :
  exists g root, create_genesis_block legacy = Ok g /\
    transactions g = [genesis_coinbase; legacy_distribution legacy] /\
    compute_utxo_root_sorted (genesis_utxos genesis_coinbase (legacy_distribution legacy)) = Ok root /\
    utxo_root (header g) = root /\ timestamp (header g) = GENESIS_TIMESTAMP /\
    compute_merkle_root g = Ok (merkle_root (header g)).
Proof.
  unfold create_genesis_block, compute_merkle_root. cbn [transactions].
  destruct (compute_merkle_root_total (map txid [genesis_coinbase; legacy_distribution legacy])) as [mr Em].
  rewrite Em. cbn [rbind]. rewrite compute_utxo_root_sorted_spec. unfold compute_utxo_root_ordered.
  destruct (compute_merkle_root_total (map hash_utxo (merge_sort utxo_le
    (genesis_utxos genesis_coinbase (legacy_distribution legacy))))) as [ur ->].
  cbn [rbind]. eexists _, ur. split; [reflexivity|]. done.
Qed.

Lemma genesis_new legacy g :
  snapshot_documented legacy -> txid genesis_coinbase <> txid (legacy_distribution legacy) ->
  create_genesis_block legacy = Ok g ->
  exists c j, new g = Ok c /\ journals (main c) = [j] /\ j_utxo_root j = utxo_root (header g) /\
    ledger_inv (state (main c)) /\ tracked 1 (transactions g) (state (main c)) /\
    utxo_set (state (main c)) = create_utxos ∅ (genesis_utxos genesis_coinbase (legacy_distribution legacy)) /\
    claimed_addresses (state (main c)) = ∅ /\ total_supply (state (main c)) = LEGACY_TOTAL_SUPPLY_SATOSHIS /\
    total_staked (state (main c)) = 0.
Proof.
  intros D Hne Hg. destruct (create_genesis_block_Ok legacy) as (g' & root & Hg' & Ht & Hr & Hu & Hts & _).
  rewrite Hg in Hg'. injection Hg' as <-. unfold new. set (start := set_known _ _). unfold apply_block.
  change (governance_active start 0) with (@Ok NodeError _ false). cbv beta iota zeta.
  set (bo := match get_block_at_height start 1 ≫= _ with Some _ => _ | None => _ end).
  destruct (genesis_journaled (head (height_index (main start))) bo 0 legacy (block_hash g) (utxo_tree start) root D Hne Hr)
    as (l & tree & j & E & Hj & Hl & Htr & Hrest).
  rewrite Ht, Hts. change (state (main start)) with (mkLedger ∅ ∅ 0 0 default_params gov_new).
  change (if 0 =? 0 then Ok 0 else _) with (@Ok NodeError _ 0). cbv iota. rewrite E.
  eexists _, j. split; [reflexivity|]. split; [done|]. split; [congruence|]. by split.
Qed.

Lemma genesis_starts legacy g c :
  snapshot_documented legacy -> txid genesis_coinbase <> txid (legacy_distribution legacy) ->
  create_genesis_block legacy = Ok g -> starts g c ->
  at_genesis g c /\ ledger_inv (state (main c)) /\ tracked 1 (transactions g) (state (main c)) /\
  claimed_addresses (state (main c)) = ∅ /\ (forall k u, utxo_set (state (main c)) !! k = Some u -> utxo_height u = 0).
Proof.
  intros D Hne Hg Hs. destruct (genesis_new legacy g D Hne Hg) as (c0 & j & Hn & _ & _ & Hl & Htr & Hu & Hc & _).
  assert (Hz : forall k u, utxo_set (state (main c0)) !! k = Some u -> utxo_height u = 0).
  { intros k u Hk. rewrite Hu in Hk. apply create_utxos_lookup in Hk as [Hk|[Hk _]]; [by rewrite lookup_empty in Hk|].
    by apply (genesis_utxos_height legacy). }
  pose proof (new_at_genesis g c0 Hn) as Ha. induction Hs as [c E|c E|c E|f c Hs (I1 & I2)].
  - rewrite Hn in E. injection E as <-. done.
  - unfold new_regtest in E. rewrite Hn in E. injection E as <-. split; [by destruct Ha|done].
  - unfold new_regtest_fast, new_regtest in E. rewrite Hn in E. injection E as <-.
    split; [by destruct Ha|]. split; [|split; [by destruct Htr|done]].
    destruct Hl as [L1 L2 L3 L4]. split; [done| |done|done]. simpl. rewrite L2. apply map_sum_ext.
    intros k u _. by apply weight_min_stake.
  - split; [by destruct I1|done].
Qed.

(** the node starts, and starts right. For a snapshot as documented the genesis block has
    the Merkle root of its two transactions, [Chain::new] accepts it, and the root in its
    header is the root of the resulting output set (the journal of the block records it).
    The ledger then counts the legacy supply as issued and nothing as staked or claimed; the
    distribution outputs carry the whole legacy supply and not a coin of it can be spent
    before it is claimed. *)
Theorem genesis_chain_starts legacy :
  snapshot_documented legacy -> txid genesis_coinbase <> txid (legacy_distribution legacy) ->
  exists g c j, create_genesis_block legacy = Ok g /\ new g = Ok c /\
    compute_merkle_root g = Ok (merkle_root (header g)) /\
    journals (main c) = [j] /\ j_utxo_root j = utxo_root (header g) /\
    claimed_addresses (state (main c)) = ∅ /\ total_staked (state (main c)) = 0 /\
    total_supply (state (main c)) = LEGACY_TOTAL_SUPPLY_SATOSHIS /\
    map_sum utxo_value (utxo_set (state (main c))) = LEGACY_TOTAL_SUPPLY_SATOSHIS /\
    map_sum spendable (utxo_set (state (main c))) = 0.
Proof.
  intros D Hne. destruct (create_genesis_block_Ok legacy) as (g & root & Hg & _ & _ & _ & _ & Hm).
  destruct (genesis_new legacy g D Hne Hg) as (c & j & Hn & Hj & Hr & _ & _ & U1 & C1 & S1 & W1).
  exists g, c, j. split_and!; try done; rewrite U1.
  - rewrite genesis_sum by done. unfold genesis_utxos. rewrite map_app, zsum_app. cbn [map take outputs genesis_coinbase].
    rewrite zsum_cons. cbn [utxo_value value zsum foldr]. rewrite <- (sd_total _ D).
    rewrite (map_imap_value _ (fun o => value o)) by done. cbn [outputs legacy_distribution]. rewrite map_map.
    rewrite (map_ext _ snd) by by intros []. done.
  - rewrite genesis_sum by done. apply zsum_zero. intros u Hu. by apply (genesis_utxos_idle legacy).
Qed.

End genesis.

(** ** Witnesses *)

Module GenesisWitness.
#[local] Existing Instance bincode_layout.
#[local] Existing Instance bincode_layout_laws.
#[local] Existing Instance any_order.
#[local] Existing Instance any_order_laws.

Definition legacy0 : list (bytes * Z) := [([1], 500); ([2], LEGACY_TOTAL_SUPPLY_SATOSHIS - 500)].

Lemma documented0 : snapshot_documented legacy0.
Proof. split; [repeat constructor; by vm_compute..|by vm_compute|by vm_compute]. Qed.

Lemma genesis_chain_starts_witness :
  exists g c, create_genesis_block legacy0 = Ok g /\ (new (N := snapshot_of legacy0) g = Ok c) /\
    map_sum spendable (utxo_set (state (main c))) = 0.
Proof.
  destruct (genesis_chain_starts (N := snapshot_of legacy0) legacy0) as (g & c & j & Hg & Hc & _ & _ & _ & _ & _ & _ & _ & Hs).
  - exact documented0.
  - apply (bool_decide_unpack _). by vm_compute.
  - exists g, c. exact (conj Hg (conj Hc Hs)).
Defined.

Lemma snapshot_roundtrip_witness :
  exists l, @decode_snapshot NodeError (snapshot_layout l) = Ok l /\ zlen l = LEGACY_ADDRESS_COUNT.
Proof.
  assert (zlen (repeat ([0x56; 0x6e], 7) (Z.to_nat LEGACY_ADDRESS_COUNT)) = LEGACY_ADDRESS_COUNT) as Hn
    by (unfold zlen; rewrite repeat_length; by vm_compute).
  exists (repeat ([0x56; 0x6e], 7) (Z.to_nat LEGACY_ADDRESS_COUNT)). split; [|exact Hn].
  apply (snapshot_roundtrip _ Hn). apply Forall_forall. intros e He%list_elem_of_In%repeat_spec. subst e.
  split; [by vm_compute|]. split; [repeat constructor; done|]. split; [by vm_compute|]. split; by vm_compute.
Defined.

End GenesisWitness.
