(* ===== verification/Acceptance.v ===== *)
(** * What holds of every chain

    The chain that starts with the genesis block and grows by [Chain::add_block]
    ([vtorrent-node/src/chain.rs], [chain/chain_reorg.rs]), whatever blocks arrive in
    whatever order.  The theorems combine [Genesis.v], which shows that the first block
    is sound, with [Replay.v], which shows that each step keeps the chain sound. *)

From stdpp Require Import base list gmap sorting strings.
From Stdlib Require Import ZArith Lia.
From S2P Require Import Prelude Script Crypto Engine Standard Merkle Codec Block Address Consensus.
From S2P Require Import Deployments Governance Ledger Supply History Chain Replay Progress Genesis.
Import Scripts.

(** ** Lemmas: the transaction index *)

Section index.
Context {C : Crypto} {B : Bincode}.

Lemma index_txs_snoc hash txs t idx :
  index_txs hash (txs ++ [t]) idx = <[txid t := (hash, length txs)]> (index_txs hash txs idx).
Proof. unfold index_txs. rewrite imap_app, foldl_app. simpl. by rewrite Nat.add_0_r. Qed.

Lemma index_txs_in hash txs idx o tx :
  NoDup (map txid txs) -> txs !! o = Some tx -> index_txs hash txs idx !! txid tx = Some (hash, o).
Proof.
  induction txs as [|t txs IH] using rev_ind; [done|]. rewrite map_app, index_txs_snoc.
  intros (Hnd & Hd & _)%NoDup_app [Ho|[Hle Ho]]%lookup_app_Some.
  - rewrite lookup_insert_ne; [by apply IH|]. intros E. apply (Hd (txid tx)); [|by rewrite <- E; left].
    apply list_elem_of_fmap_2. by eapply list_elem_of_lookup_2.
  - apply list_lookup_singleton_Some in Ho as [Hz ->]. rewrite lookup_insert_eq. do 2 f_equal. lia.
Qed.

(** Every indexed identifier is where the index says. *)
Lemma index_txs_Some hash txs idx id h o :
  index_txs hash txs idx !! id = Some (h, o) ->
  idx !! id = Some (h, o) \/ (h = hash /\ exists tx, txs !! o = Some tx /\ txid tx = id).
Proof.
  induction txs as [|t txs IH] using rev_ind; [by left|]. rewrite index_txs_snoc.
  intros [[<- [= <- <-]]|[Hne E]]%lookup_insert_Some.
  - right. split; [done|]. exists t. split; [by apply list_lookup_middle|done].
  - destruct (IH E) as [?|(-> & tx & Ht & Hi)]; [by left|right]. split; [done|]. exists tx. split; [|done].
    by apply lookup_app_l_Some.
Qed.

Lemma index_all_spec bs id h o :
  NoDup (map txid (all_txs bs)) ->
  index_all bs !! id = Some (h, o) <->
  exists b tx, b ∈ bs /\ block_hash b = h /\ transactions b !! o = Some tx /\ txid tx = id.
Proof.
  induction bs as [|b bs IH] using rev_ind; intros Hnd.
  { split; [done|]. intros (b & tx & Hb & _). by apply elem_of_nil in Hb. }
  rewrite all_txs_snoc, map_app in Hnd. apply NoDup_app in Hnd as (Hnd & Hd & Hb). rewrite index_all_snoc. split.
  - intros [E|(-> & tx & Ht & Hi)]%index_txs_Some.
    + apply IH in E as (b' & tx & Hb' & E1 & E2 & E3); [|done]. exists b', tx. rewrite elem_of_app. auto.
    + exists b, tx. rewrite elem_of_app, list_elem_of_singleton. auto.
  - intros (b' & tx & [Hb'|Hb'%list_elem_of_singleton]%elem_of_app & <- & Ht & <-).
    + rewrite index_txs_other; [apply IH; [done|]; by exists b', tx|]. apply Hd. apply list_elem_of_fmap_2.
      unfold all_txs. apply list_elem_of_In, in_concat. exists (transactions b'). rewrite <- !list_elem_of_In.
      split; [by apply list_elem_of_fmap_2|by eapply list_elem_of_lookup_2].
    + subst b'. by apply index_txs_in.
Qed.

End index.

(** ** The chain at work *)

Section chain.
Context {C : Crypto} {B : Bincode} {H : Hex} {K : KeyOrder}.
(** The snapshot, the transactions under consideration, the genesis block and the chain
    that starts with it. *)
Context (legacy : list (bytes * Z)) (U : Transaction -> Prop) (g : Block) (c0 : Chain).
#[local] Instance N : Snapshot := snapshot_of legacy.

Record setting : Prop := {
  se_snapshot : snapshot_documented legacy;
  se_ids : txids_distinct U;
  se_coinbase : U genesis_coinbase;
  se_distribution : U (legacy_distribution legacy);
  se_genesis : create_genesis_block legacy = Ok g;
  se_start : starts g c0;
}.

Context (ST : setting).
#[local] Instance SL : SnapshotLaws N := snapshot_laws legacy (se_snapshot ST).

Lemma genesis_facts :
  at_genesis g c0 /\ ledger_inv (state (main c0)) /\ tracked 1 (transactions g) (state (main c0)) /\
  forall x, x ∈ transactions g -> U x.
Proof.
  destruct ST as [S1 S2 S3 S4 S5 S6].
  assert (txid genesis_coinbase <> txid (legacy_distribution legacy)) as Hne by by intros E%S2.
  destruct (genesis_starts legacy g c0 S1 Hne S5 S6) as (F1 & F2 & F3 & _). split_and!; try done.
  destruct (create_genesis_block_Ok legacy) as (g' & root & Hg & Ht & _). rewrite S5 in Hg. injection Hg as <-.
  rewrite Ht. intros x [->|[->|Hx%elem_of_nil]%elem_of_cons]%elem_of_cons; done.
Qed.

Definition sound_chain : Chain -> list Block -> Prop := chain_ok U g (state (main c0)).

Lemma reached_sound c : reaches U c0 c -> exists bs, sound_chain c bs /\ config c = config c0.
Proof.
  destruct genesis_facts as (F1 & F2 & F3 & F4).
  induction 1 as [|now b c c' r Hc [bs [Hok Hcfg]] Hty Hu E Hp].
  - exists [g]. split; [by apply at_genesis_ok|done].
  - pose proof (add_block_ok U (se_ids ST) g _ F3 F2 F4 now b c bs Hok Hty Hu) as Hx. unfold soc in Hx. rewrite E in Hx.
    destruct r as [a|e|]; [| |done].
    + destruct Hx as (bs' & Hok' & Hcfg' & _). exists bs'. split; [done|congruence].
    + destruct Hx as (E1 & E2 & E3). exists bs. split; [|congruence]. destruct Hok as [O1 O2 O3].
      split; rewrite ?E1, ?E2, ?E3; done.
Qed.

(** The branch of a chain, in full. *)
Lemma sound_branch c bs :
  sound_chain c bs -> exists rest, bs = g :: rest /\
    replay (config c) [g] (state (main c0)) rest = Some (state (main c)) /\
    history_ok U g bs (state (main c)) (map (fun _ => new_journal (state (main c)) [] 0) bs).
Proof.
  destruct genesis_facts as (F1 & F2 & F3 & F4). intros [_ [_ _ _ _ [pre Hh] _ _] _].
  pose proof (history_facts U (se_ids ST) g _ F3 F2 F4 _ _ _ _ Hh) as Hf.
  pose proof (history_replay U (se_ids ST) g _ F3 F2 F4 _ _ _ _ Hh) as Hr.
  destruct Hf as [[rest ->] _ T1 T2 T3]. exists rest. split; [done|]. split; [done|].
  split; [by exists rest|by rewrite length_map|done..].
Qed.

(** The bodies in memory are those of the branch. *)
Lemma branch_bodies c bs x y : sound_chain c bs -> x ∈ bs -> get_block c (block_hash x) = Some y -> x = y.
Proof.
  intros [_ [_ _ _ M4 _ _ _] _] [i Hx]%list_elem_of_lookup. unfold get_block. destruct (M4 i x Hx) as [->|[-> _]]; [|done].
  by intros [= ->].
Qed.

(** C1: the state of the node is a function of its active branch. Whatever blocks arrive,
    valid or not, extending the tip, starting forks, or forcing reorganizations with
    their rollbacks, the index of heights lists a branch of linked blocks from the
    genesis block to the tip, and the ledger (outputs, claims, supply, governance) is the
    one obtained by applying the blocks of that branch in order, starting from the
    genesis ledger, with the rules of [apply_block_journaled] and the check of the
    committed root and with nothing else in memory. *)
Theorem active_chain_is_replay c :
  reaches U c0 c ->
  exists rest, height_index (main c) = map block_hash (g :: rest) /\
    (forall i b b', (g :: rest) !! i = Some b -> rest !! i = Some b' -> prev_block_hash (header b') = block_hash b) /\
    replay (config c) [g] (state (main c0)) rest = Some (state (main c)).
Proof.
  intros [bs [Hok _]]%reached_sound. destruct (sound_branch c bs Hok) as (rest & -> & Hr & _). exists rest.
  destruct Hok as [_ [M1 _ M3 _ _ _ _] _]. split_and!; [done| |done]. intros i b b' Hb Hb'. by apply (M3 i b b').
Qed.

(** no transaction is ever included twice in the active chain, and the transaction
    index is exact: it maps an identifier to a block hash and an offset exactly when the
    block of the active branch with that hash has the transaction at that offset.
    [get_transaction] finds it, with its height, as long as the block is in memory. *)
Theorem transactions_indexed_once c :
  reaches U c0 c ->
  exists bs, height_index (main c) = map block_hash bs /\
    NoDup (map txid (all_txs bs)) /\
    (forall id h o, tx_index (main c) !! id = Some (h, o) <->
      exists b tx, b ∈ bs /\ block_hash b = h /\ transactions b !! o = Some tx /\ txid tx = id) /\
    (forall i b o tx, bs !! i = Some b -> transactions b !! o = Some tx ->
      get_block c (block_hash b) = Some b -> get_transaction c (txid tx) = Some (tx, block_hash b, Z.of_nat i)).
Proof.
  intros [bs [Hok _]]%reached_sound. destruct (sound_branch c bs Hok) as (rest & _ & _ & Hh). exists bs.
  destruct Hok as [_ [M1 M2 M3 M4 M5 M6 M7] _]. pose proof (tr_nodup _ _ _ (ho_tracked _ _ _ _ _ Hh)) as Hnd.
  rewrite M6. split_and!; [done|done| |].
  - intros id h o. by apply index_all_spec.
  - intros i b o tx Hb Ho Hget. unfold get_transaction, block_height, get_block in *. rewrite M6.
    rewrite (proj2 (index_all_spec bs (txid tx) (block_hash b) o Hnd)).
    + cbn. destruct (M2 i b Hb) as [-> _]. cbn. rewrite Hget. cbn. by rewrite Ho.
    + exists b, tx. split; [by eapply list_elem_of_lookup_2|done].
Qed.

(** C2: the coins. At every point the outputs that can be spent, together with the legacy
    balances that nobody has claimed yet, are worth at most the recorded supply, which
    never exceeds [MAX_SUPPLY], and the recorded staked total is the value of exactly the
    stakeable outputs. In particular no sequence of blocks, claims, stakes and
    reorganizations brings more than [MAX_SUPPLY] into circulation. *)
Theorem coins_bounded c :
  reaches U c0 c ->
  map_sum spendable (utxo_set (state (main c))) + unclaimed (claimed_addresses (state (main c)))
    <= total_supply (state (main c)) /\
  total_supply (state (main c)) <= MAX_SUPPLY /\
  0 <= unclaimed (claimed_addresses (state (main c))) /\
  total_staked (state (main c)) = map_sum (weight (params (state (main c)))) (utxo_set (state (main c))).
Proof.
  intros [bs [Hok _]]%reached_sound. destruct (sound_branch c bs Hok) as (rest & _ & _ & Hh).
  destruct (ho_ledger _ _ _ _ _ Hh) as [_ L2 L3 L4]. split_and!; [done|lia| |done].
  unfold unclaimed. pose proof (snapshot_total (claimed_addresses (state (main c)))). lia.
Qed.

(** C3: a block that is refused leaves no trace. When [add_block] returns an error, however
    far it got (validation, application, a wrong root after application, the middle of a
    reorganization), the known blocks, the active chain with its ledger, indices and
    journals, and the configuration are what they were; only the scratch buffers of the
    commitment differ. *)
Theorem add_block_error_atomic c now b c' e :
  reaches U c0 c -> typed_txs (transactions b) -> (forall x, x ∈ transactions b -> U x) ->
  add_block now b c = (c', Err e) -> known c' = known c /\ main c' = main c /\ config c' = config c.
Proof.
  intros [bs [Hok _]]%reached_sound Hty Hu E. destruct genesis_facts as (F1 & F2 & F3 & F4).
  pose proof (add_block_ok U (se_ids ST) g _ F3 F2 F4 now b c bs Hok Hty Hu) as Hx. unfold soc in Hx. by rewrite E in Hx.
Qed.

(** C19: the node is always on a heaviest branch it knows. Every known block has a height,
    its work is one more than its height, and no known block, on the active branch or
    on a fork, has more work than the tip; a new block never shortens the chain. *)
Theorem tip_is_heaviest c :
  reaches U c0 c ->
  (exists tip, best_hash c = Some tip /\ block_height c tip = Some (best_height c) /\
    cumulative_work (known c) !! tip = Some (best_height c + 1) /\
    forall h w, cumulative_work (known c) !! h = Some w -> w <= best_height c + 1) /\
  (forall now b c' r, typed_txs (transactions b) -> (forall x, x ∈ transactions b -> U x) ->
    add_block now b c = (c', r) -> r <> Panic -> best_height c <= best_height c').
Proof.
  intros [bs [Hok _]]%reached_sound. destruct genesis_facts as (F1 & F2 & F3 & F4).
  assert (Hheight : forall c bs, sound_chain c bs -> best_height c = zlen bs - 1).
  { intros c1 bs1 [O1 O2 _]. by eapply (best_height_eq U (se_ids ST) g _ F3 F2 F4). }
  split.
  - rewrite (Hheight c bs Hok). destruct Hok as [O1 O2 O3].
    destruct (main_ok_facts U (se_ids ST) g _ F3 F2 F4 _ _ _ _ O2) as [_ Hne].
    destruct (tip_exists bs Hne) as [b0 Ht]. exists (block_hash b0).
    destruct (mo_known _ _ _ _ _ _ _ O2 _ _ Ht) as [Hh _].
    assert (Z.of_nat (Nat.pred (length bs)) = zlen bs - 1) as El by (unfold zlen; destruct bs; simpl; [done|lia]).
    rewrite El in Hh. split_and!.
    + by eapply (best_hash_tip U (se_ids ST) g _ F3 F2 F4).
    + done.
    + by apply (ko_work _ _ _ O1).
    + intros h w Hw. destruct (block_heights (known c) !! h) as [n|] eqn:En.
      * rewrite (ko_work _ _ _ O1 _ _ En) in Hw. injection Hw as <-. specialize (O3 _ _ En). lia.
      * destruct (ko_dom _ _ _ O1 h En) as (_ & _ & E & _). congruence.
  - intros now b c' r Hty Hu E Hp.
    pose proof (add_block_ok U (se_ids ST) g _ F3 F2 F4 now b c bs Hok Hty Hu) as Hx. unfold soc in Hx. rewrite E in Hx.
    destruct r as [a|e|]; [| |done].
    + destruct Hx as (bs' & Hok' & _ & Hle). rewrite (Hheight c bs Hok), (Hheight c' bs' Hok'). lia.
    + destruct Hx as (_ & E2 & _). unfold best_height. rewrite E2. done.
Qed.

(** C5: a valid block on the tip is accepted. If a new block names the tip as its parent,
    passes the checks of [validate_block_inner] and its application to the replayed ledger
    succeeds with the root it commits to, then [add_block] returns [MainChain] with the
    next height and the ledger becomes the one the application gives. *)
Theorem valid_block_extends_tip c :
  reaches U c0 c ->
  exists bs b0, height_index (main c) = map block_hash bs /\ tip_block bs = Some b0 /\
    (forall x y, x ∈ bs -> get_block c (block_hash x) = Some y -> x = y) /\
    forall now b l' j,
      prev_block_hash (header b) = block_hash b0 -> block_height c (block_hash b) = None -> zlen bs <= u32_max ->
      typed_txs (transactions b) -> (forall x, x ∈ transactions b -> U x) -> validated now c b b0 (zlen bs) ->
      connect (config c) bs (state (main c)) b = Some (l', j) ->
      exists added removed c', add_block now b c = (c', Ok (MainChain (zlen bs) added removed (j_claimed j))) /\
        height_index (main c') = map block_hash (bs ++ [b]) /\ state (main c') = l'.
Proof.
  intros [bs [Hok _]]%reached_sound. destruct genesis_facts as (F1 & F2 & F3 & F4).
  destruct (main_ok_facts U (se_ids ST) g _ F3 F2 F4 _ _ _ _ (co_main _ _ _ _ _ Hok)) as [_ Hne].
  destruct (tip_exists bs Hne) as [b0 Ht]. exists bs, b0. split; [apply (co_main _ _ _ _ _ Hok)|]. split; [done|]. split; [intros x y; by apply branch_bodies|].
  intros now b l' j Hp Hn Hmax Hty Hu Hv Hc.
  destruct (returns_Ok _ _ _ (add_block_extends U (se_ids ST) g _ F3 F2 F4 now b c bs b0 l' j Hok Ht Hp Hn Hmax Hty Hu Hv Hc))
    as (a & c' & E & (added & removed & ->) & [_ [M1 _ _ _ _ _ _] _] & Hl & _).
  by exists added, removed, c'.
Qed.

(** C4: a heavier valid branch is adopted. Let [ns] be a fork that leaves the active branch
    after height [n], all of whose blocks are in memory, and let a valid new block [b] on top
    of it make it longer than the active branch ([heavier]; the rollback must be within the
    journals the node keeps). If the whole branch replays from the genesis ledger, then
    [add_block] reorganizes: the active branch becomes the common part followed by the fork
    and [b], and the ledger is the replayed one. None of the loops of the reorganization
    (finding the ancestors, rolling back, collecting and applying the fork) fails. *)
Theorem heavier_branch_adopted c :
  reaches U c0 c ->
  exists bs, height_index (main c) = map block_hash bs /\
    (forall x y, x ∈ bs -> get_block c (block_hash x) = Some y -> x = y) /\
    forall now n ns b l',
      heavier U now c bs n ns b ->
      replay (config c) [g] (state (main c0)) (tail (take (S n) bs ++ ns ++ [b])) = Some l' ->
      exists old depth txs rbs afs c',
        add_block now b c = (c', Ok (Reorg old (block_hash b) depth txs rbs afs)) /\
        height_index (main c') = map block_hash (take (S n) bs ++ ns ++ [b]) /\ state (main c') = l'.
Proof.
  intros [bs [Hok _]]%reached_sound. destruct genesis_facts as (F1 & F2 & F3 & F4).
  destruct (main_ok_facts U (se_ids ST) g _ F3 F2 F4 _ _ _ _ (co_main _ _ _ _ _ Hok)) as [_ Hne].
  destruct (tip_exists bs Hne) as [b0 Ht]. exists bs. split; [apply (co_main _ _ _ _ _ Hok)|].
  split; [intros x y; by apply branch_bodies|]. intros now n ns b l' Hv Hr.
  destruct (returns_Ok _ _ _ (add_block_reorganizes U (se_ids ST) g _ F3 F2 F4 now b c bs b0 n ns l' Hok Ht Hv Hr))
    as (a & c' & E & (depth & txs & rbs & afs & ->) & [_ [M1 _ _ _ _ _ _] _] & Hl).
  by exists (block_hash b0), depth, txs, rbs, afs, c'.
Qed.

(** the loops over known blocks terminate. Walking from any known block to its parent
    again and again ([ancestors]) ends at the genesis block after as many steps as the
    block's height, however many forks are known; and rolling back to any height within
    the journals ends there, leaving the rest of the active branch. *)
Theorem chain_loops_terminate c :
  reaches U c0 c ->
  (forall h n, block_height c h = Some n ->
    exists path, ancestors c h = Ok path /\ zlen path = n + 1 /\ head path = Some h /\
      vec_last path = Some (block_hash g) /\
      forall i x y, path !! i = Some x -> path !! S i = Some y -> parent_map (known c) !! x = Some y) /\
  (forall n, 0 <= n <= best_height c -> best_height c - n <= zlen (journals (main c)) ->
    exists r c', rollback_loop (S (length (height_index (main c)))) n [] [] c = (c', Ok r) /\
      height_index (main c') = take (Z.to_nat (n + 1)) (height_index (main c))).
Proof.
  intros [bs [Hok _]]%reached_sound. destruct genesis_facts as (F1 & F2 & F3 & F4). destruct Hok as [O1 O2 O3].
  destruct (main_ok_facts U (se_ids ST) g _ F3 F2 F4 _ _ _ _ O2) as [[[rest Hrest] _ _ _ _] _]. split.
  - intros h n Hh. pose proof (ko_height _ _ _ O1 _ _ Hh) as Hn.
    destruct (ancestors_branch U g _ O1 (Z.to_nat n) h (S (size (parent_map (known c))))) as (path & E & Hb & Hl).
    { rewrite Z2Nat.id by lia. exact Hh. }
    { rewrite <- (Z2Nat.id n) in Hh by lia. pose proof (known_height_size U g _ O1 _ _ Hh). lia. }
    exists path. split; [|split; [unfold zlen; lia|by apply branch_ends]].
    unfold ancestors. rewrite (mo_index _ _ _ _ _ _ _ O2), Hrest. cbn [map].
    change (vec_get (block_hash g :: map block_hash rest) 0) with (@Ok NodeError _ (block_hash g)). exact E.
  - rewrite (best_height_eq U (se_ids ST) g _ F3 F2 F4 _ _ _ _ c O1 O2 eq_refl). intros n Hn Hj. unfold zlen in *.
    pose proof (rollback_loop_returns U (se_ids ST) g _ F3 F2 F4 (S (length (height_index (main c)))) (Z.to_nat n)
      c bs [] [] O1 O2) as Hr. rewrite Z2Nat.id in Hr by lia.
    destruct (returns_Ok _ _ _ (Hr ltac:(lia) ltac:(rewrite (mo_index _ _ _ _ _ _ _ O2), length_map; lia) ltac:(lia)))
      as (r & c' & E & [M1 _ _ _ _ _ _] & _).
    exists r, c'. split; [done|]. rewrite M1, (mo_index _ _ _ _ _ _ _ O2), <- firstn_map.
    f_equal. lia.
Qed.

End chain.

(** ** Witnesses: a chain with a reorganization *)

Module AcceptanceWitness.
#[local] Existing Instance bincode_layout.
#[local] Existing Instance bincode_layout_laws.
#[local] Existing Instance any_order.
#[local] Existing Instance any_order_laws.

Import GenesisWitness.
#[local] Instance order0 : KeyOrder := fun m => (map_to_list m).*1.
#[local] Instance snap0 : Snapshot := snapshot_of legacy0.

Definition no_block : Block := mkBlock (mkHeader 0 [] [] [] 0 0 0 0) [].
Definition g0 : Block := match create_genesis_block legacy0 with Ok g => g | _ => no_block end.
Definition c0 : Chain := match new_regtest g0 with Ok c => c | _ => empty_chain end.

(** A block of the test mode with one coinbase. *)
Definition child (parent : Block) (h time : Z) (script : bytes) : Block :=
  let cb := mkTx 1 Coinbase [mkTxInput zero_hash 0xffffffff [h] 0xffffffff] [mkTxOutput (10 * COIN) script] h None None in
  let hd root := mkHeader 1 (block_hash parent) root zero_hash time GENESIS_BITS h
    (compute_stake_modifier (stake_modifier (header parent)) (block_hash parent)) in
  match compute_merkle_root (mkBlock (hd zero_hash) [cb]) with Ok root => mkBlock (hd root) [cb] | _ => no_block end.

(** [a1] is the first child of the genesis block; [b1] and [b2] overtake it. *)
Definition a1 : Block := child g0 1 1700000100 [0x51].
Definition b1 : Block := child g0 1 1700000200 [0x52].
Definition b2 : Block := child b1 2 1700000300 [0x53].
Definition now0 : Z := 1700001000.
Definition c1 : Chain := (add_block now0 a1 c0).1.
Definition c2 : Chain := (add_block now0 b1 c1).1.
Definition c3 : Chain := (add_block now0 b2 c2).1.
Definition txs0 : list Transaction := transactions g0 ++ transactions a1 ++ transactions b1 ++ transactions b2.
Definition U0 (tx : Transaction) : Prop := tx ∈ txs0.

Lemma distinct_list (l : list Transaction) : NoDup (map txid l) -> txids_distinct (fun tx => tx ∈ l).
Proof.
  intros Hnd tx tx' [i Hi]%list_elem_of_lookup [j Hj]%list_elem_of_lookup E.
  rewrite NoDup_alt in Hnd. assert (i = j) as ->; [|congruence].
  apply (Hnd i j (txid tx)); rewrite list_lookup_fmap; [by rewrite Hi|by rewrite Hj, E].
Qed.

Lemma setting0 : setting legacy0 U0 g0 c0.
Proof.
  split.
  - exact documented0.
  - apply distinct_list. apply (bool_decide_unpack _). by vm_compute.
  - apply elem_of_app. left. vm_compute. left.
  - apply elem_of_app. left. vm_compute. right. left.
  - by vm_compute.
  - apply starts_regtest. by vm_compute.
Qed.

Lemma typed0 b : b ∈ [a1; b1; b2] -> typed_txs (transactions b) /\ forall x, x ∈ transactions b -> U0 x.
Proof.
  intros Hb. split.
  - repeat (apply elem_of_cons in Hb as [->|Hb]; [constructor; [|constructor]; split; [repeat constructor|]; by vm_compute|]).
    by apply elem_of_nil in Hb.
  - intros x Hx. unfold U0, txs0. rewrite !elem_of_app.
    repeat (apply elem_of_cons in Hb as [->|Hb]; [tauto|]). by apply elem_of_nil in Hb.
Qed.

Lemma steps0 : is_ok (add_block now0 a1 c0).2 = true /\ is_ok (add_block now0 b1 c1).2 = true /\
  is_ok (add_block now0 b2 c2).2 = true.
Proof. by vm_compute. Qed.

Lemma reach_step b c :
  reaches U0 c0 c -> b ∈ [a1; b1; b2] -> is_ok (add_block now0 b c).2 = true -> reaches U0 c0 (add_block now0 b c).1.
Proof.
  intros Hc [Hty Hu]%typed0 Hok. apply (reaches_block U0 c0 now0 b c _ (add_block now0 b c).2 Hc Hty Hu).
  - apply surjective_pairing.
  - intros E. by rewrite E in Hok.
Qed.

Lemma reached2 : reaches U0 c0 c2.
Proof.
  destruct steps0 as (S1 & S2 & _). apply reach_step; [|right; left|exact S2].
  apply reach_step; [apply reaches_start|left|exact S1].
Qed.

Lemma reached3 : reaches U0 c0 c3.
Proof. destruct steps0 as (_ & _ & S3). apply reach_step; [apply reached2|right; right; left|exact S3]. Qed.

Lemma active_chain_is_replay_witness :
  exists rest, height_index (main c3) = map block_hash (g0 :: rest) /\
    replay (config c3) [g0] (state (main c0)) rest = Some (state (main c3)).
Proof.
  destruct (active_chain_is_replay legacy0 U0 g0 c0 setting0 c3 reached3) as (rest & H1 & _ & H3). exists rest. by split.
Defined.

Lemma transactions_indexed_once_witness :
  exists bs, height_index (main c3) = map block_hash bs /\ NoDup (map txid (all_txs bs)).
Proof.
  destruct (transactions_indexed_once legacy0 U0 g0 c0 setting0 c3 reached3) as (bs & H1 & H2 & _). exists bs. by split.
Defined.

Lemma coins_bounded_witness : total_supply (state (main c3)) <= MAX_SUPPLY.
Proof. destruct (coins_bounded legacy0 U0 g0 c0 setting0 c3 reached3) as (_ & H2 & _). exact H2. Defined.

(** A block on the tip with the coinbase of another height. *)
Definition bad : Block :=
  mkBlock (mkHeader 1 (block_hash b2) zero_hash zero_hash 1700000400 GENESIS_BITS 7
    (compute_stake_modifier (stake_modifier (header b2)) (block_hash b2))) (transactions b2).

Lemma add_block_error_atomic_witness :
  exists c' e, add_block now0 bad c3 = (c', Err e) /\ main c' = main c3.
Proof.
  assert (is_err (add_block now0 bad c3).2 = true) as He by by vm_compute.
  destruct (add_block now0 bad c3) as [c' [a|e|]] eqn:E; [done| |done]. exists c', e. split; [done|].
  destruct (typed0 b2) as [Hty Hu]; [right; right; left|].
  destruct (add_block_error_atomic legacy0 U0 g0 c0 setting0 c3 now0 bad c' e reached3 Hty Hu E) as (_ & H2 & _). exact H2.
Defined.

Lemma tip_is_heaviest_witness : exists tip, best_hash c3 = Some tip /\ block_height c3 tip = Some 2.
Proof.
  destruct (tip_is_heaviest legacy0 U0 g0 c0 setting0 c3 reached3) as [(tip & H1 & H2 & _) _]. exists tip.
  split; [exact H1|]. rewrite H2. by vm_compute.
Defined.

Lemma chain_loops_terminate_witness : exists path, ancestors c3 (block_hash b2) = Ok path /\ zlen path = 3.
Proof.
  destruct (chain_loops_terminate legacy0 U0 g0 c0 setting0 c3 reached3) as [H1 _].
  destruct (H1 (block_hash b2) 2) as (path & Hp & Hl & _); [by vm_compute|]. exists path. split; [exact Hp|exact Hl].
Defined.

Lemma bodies2 : get_block c2 (block_hash g0) = Some g0 /\ get_block c2 (block_hash a1) = Some a1.
Proof. by vm_compute. Qed.

Lemma map_two {A B} (f : A -> B) l a b : [a; b] = map f l -> exists x y, l = [x; y] /\ f x = a /\ f y = b.
Proof. destruct l as [|x [|y [|]]]; try done. intros [= -> ->]. by exists x, y. Qed.

(** The active branch of [c2], by its hashes and bodies. *)
Lemma branch2 bs :
  height_index (main c2) = map block_hash bs ->
  (forall x y, x ∈ bs -> get_block c2 (block_hash x) = Some y -> x = y) -> bs = [g0; a1].
Proof.
  intros Hi Hb. assert (height_index (main c2) = [block_hash g0; block_hash a1]) as E by by vm_compute. rewrite E in Hi.
  apply map_two in Hi as (x & y & -> & Hx & Hy). destruct bodies2 as [B1 B2].
  rewrite <- Hx in B1. rewrite <- Hy in B2.
  rewrite <- (Hb x g0 ltac:(left) B1), <- (Hb y a1 ltac:(right; left) B2). reflexivity.
Qed.

Definition l3 : Ledger := match replay (config c2) [g0] (state (main c0)) [b1; b2] with Some l => l | None => state (main c0) end.
Lemma replay3 : replay (config c2) [g0] (state (main c0)) [b1; b2] = Some l3.
Proof.
  assert (bool_decide (is_Some (replay (config c2) [g0] (state (main c0)) [b1; b2])) = true) as Hs by by vm_compute.
  apply bool_decide_eq_true in Hs as [l Hl]. unfold l3. by rewrite Hl.
Qed.

Lemma linked_two (x y : Block) : prev_block_hash (header y) = block_hash x -> forall i b b',
  [x; y] !! i = Some b -> [x; y] !! S i = Some b' -> prev_block_hash (header b') = block_hash b.
Proof. intros E [|[|i]] b b'; [|done|done]. by intros [= <-] [= <-]. Qed.

Lemma heavier2 : heavier U0 now0 c2 [g0; a1] 0 [b1] b2.
Proof.
  split.
  - split; [simpl; lia| | |].
    + apply (linked_two g0 b1). by vm_compute.
    + intros x ->%list_elem_of_singleton. by vm_compute.
    + intros x ->%list_elem_of_singleton. apply (bool_decide_unpack _). by vm_compute.
  - done.
  - exists b1. split; [done|]. split; [by vm_compute|]. split; [by vm_compute|done].
  - by vm_compute.
  - by vm_compute.
  - apply Nat.leb_le. by vm_compute.
  - apply typed0. right. right. left.
  - apply typed0. right. right. left.
  - intros x Hx E. apply elem_of_cons in Hx as [->|[->|Hx%elem_of_nil]%elem_of_cons]; [by vm_compute in E..|done].
Qed.

Lemma heavier_branch_adopted_witness :
  exists old depth txs rbs afs c', add_block now0 b2 c2 = (c', Ok (Reorg old (block_hash b2) depth txs rbs afs)) /\
    height_index (main c') = map block_hash [g0; b1; b2] /\ state (main c') = l3.
Proof.
  destruct (heavier_branch_adopted legacy0 U0 g0 c0 setting0 c2 reached2) as (bs & Hi & Hb & Hadopt).
  apply branch2 in Hi; [|exact Hb]. subst bs. exact (Hadopt now0 0%nat [b1] b2 l3 heavier2 replay3).
Defined.

(** On the tip of [c2]. *)
Definition a2 : Block := child a1 2 1700000300 [0x53].
Lemma valid_block_extends_tip_witness :
  exists added removed c' cl, add_block now0 a2 c2 = (c', Ok (MainChain 2 added removed cl)) /\
    height_index (main c') = map block_hash [g0; a1; a2].
Proof.
  destruct (valid_block_extends_tip legacy0 U0 g0 c0 setting0 c2 reached2) as (bs & b & Hi & Ht & Hb & Hext).
  apply branch2 in Hi; [|exact Hb]. subst bs. injection Ht as <-.
  assert (bool_decide (is_Some (connect (config c2) [g0; a1] (state (main c2)) a2)) = true) as Hs by by vm_compute.
  apply bool_decide_eq_true in Hs as [[l' j] Hc].
  destruct (Hext now0 a2 l' j) as (added & removed & c' & E & Hh & _); [by vm_compute|by vm_compute|by vm_compute| | | |exact Hc|].
  - apply (typed0 b2). right. right. left.
  - apply (typed0 b2). right. right. left.
  - by vm_compute.
  - exists added, removed, c', (j_claimed j). split; [exact E|exact Hh].
Defined.

End AcceptanceWitness.
