(* ===== verification/Mempool.v ===== *)
(** * The mempool

    Models [vtorrent-node/src/mempool.rs]: admission with relay policy, replacement by
    fee, eviction, confirmation, reorganizations, the order in which a staker takes the
    transactions, and the fee estimates.

    The order in which a [HashMap] iterates is a parameter ([MapOrder]).  [now] is the
    system clock.  Saving the pool to a file ([save_to], [load_saved]) is file access
    through [serde_json] and does not change the pool; it is not modelled. *)

From stdpp Require Import base list gmap sorting strings.
From Stdlib Require Import ZArith Lia.
From S2P Require Import Prelude Script Crypto Engine Standard Merkle Codec Block Address Consensus.
From S2P Require Import Deployments Governance Ledger Chain.
Import Scripts.

(** ** Data *)

Definition MIN_RBF_FEE_BUMP : Z := 1.
Definition MIN_RELAY_FEE : Z := 1000.
Definition DEFAULT_MAX_MEMPOOL_BYTES : Z := 32 * 1024 * 1024.
Definition DUST_SATOSHIS : Z := 546.
Definition STALE_TX_TTL_SECS : Z := 48 * 60 * 60.

Record MempoolEntry : Type := mkEntry {
  entry_tx : Transaction;
  entry_fee : Z;
  size_bytes : Z;
  received_at : Z;
  rbf : bool;
}.

(** [MempoolEntry::fee_rate]. *)
Definition rate_of (fee size : Z) : Z := if size =? 0 then 0 else fee / size.
Definition fee_rate (e : MempoolEntry) : Z := rate_of (entry_fee e) (size_bytes e).

Record Mempool : Type := mkPool {
  entries : gmap bytes MempoolEntry;
  pending_claims : gmap bytes bytes;
  spent_inputs : gmap OutPoint bytes;
  max_size : Z;
  max_bytes : Z;
  min_fee_rate : Z;
}.

(** [Mempool::with_byte_limit], [Mempool::new]. *)
Definition with_byte_limit (max_size max_bytes : Z) : Mempool := mkPool ∅ ∅ ∅ max_size max_bytes 1.
Definition pool_new (max_size : Z) : Mempool := with_byte_limit max_size DEFAULT_MAX_MEMPOOL_BYTES.

Definition input_key (i : TxInput) : OutPoint := (prev_txid i, prev_vout i).
Definition spends (tx : Transaction) : list OutPoint := map input_key (inputs tx).

Definition set_min_fee_rate (r : Z) (m : Mempool) : Mempool :=
  mkPool (entries m) (pending_claims m) (spent_inputs m) (max_size m) (max_bytes m) r.

(** The address a claim is for. *)
Definition claim_of (tx : Transaction) : option bytes :=
  if is_legacy_claim tx then claim_address tx else None.

(** ** Removing *)

(** [Mempool::remove_entry] (and [remove_transaction]). *)
Definition remove_entry (id : bytes) (m : Mempool) : Mempool :=
  match entries m !! id with
  | None => m
  | Some e =>
      mkPool (delete id (entries m))
        (match claim_of (entry_tx e) with
         | Some a => if bool_decide (pending_claims m !! a = Some id) then delete a (pending_claims m)
                     else pending_claims m
         | None => pending_claims m
         end)
        (foldl (fun s i => delete (input_key i) s) (spent_inputs m) (inputs (entry_tx e)))
        (max_size m) (max_bytes m) (min_fee_rate m)
  end.

Definition remove_all (ids : list bytes) (m : Mempool) : Mempool :=
  foldl (fun m id => remove_entry id m) m ids.

Section mempool.
Context {C : Crypto} {B : Bincode} {MO : MapOrder}.

(** The owners of the spent outputs that satisfy [f]. *)
Definition spenders (f : OutPoint -> bool) (m : Mempool) : list bytes :=
  map snd (List.filter (fun e => f e.1) (map_order (spent_inputs m))).

(** [Mempool::handle_confirmed_block]. *)
Definition handle_confirmed_block (confirmed : list bytes) (spent : list OutPoint) (m : Mempool) : Mempool :=
  let m := remove_all confirmed m in
  if (length spent =? 0)%nat then m
  else remove_all (spenders (fun k => bool_decide (k ∈ spent)) m) m.

(** [Mempool::evict_stale], with the number of evicted transactions. *)
Definition evict_stale (now : Z) (m : Mempool) : Mempool * Z :=
  let stale := map fst (List.filter (fun e => STALE_TX_TTL_SECS <? sat_sub now (received_at e.2))
                          (map_order (entries m))) in
  (remove_all stale m, zlen stale).

(** The eviction of descendants: entries that spend outputs of removed ones. *)
Fixpoint evict_descendants (fuel : nat) (frontier : gset bytes) : st Mempool NodeError unit :=
  match fuel with
  | O => slift Panic
  | S fuel =>
      if bool_decide (frontier = ∅) then sret tt else
      do* doomed := sget (spenders (fun k => bool_decide (k.1 ∈ frontier))) in
      if (length doomed =? 0)%nat then sret tt else
      do* _ := smod (remove_all doomed) in
      evict_descendants fuel (list_to_set doomed)
  end.

(** ** Adding *)

(** The dust rule. *)
Definition check_dust (tx : Transaction) : res NodeError unit :=
  if is_legacy_claim tx then Ok tt
  else rfold (fun _ o => ensure (negb ((value o <? DUST_SATOSHIS) && negb (is_op_return (script_pubkey o))))
                           (PolicyRejected "Output value is below the dust threshold")) tt (outputs tx).

(** A second claim for the same address. *)
Definition check_pending_claim (m : Mempool) (tx : Transaction) (id : bytes) : res NodeError unit :=
  match claim_of tx ≫= fun a => pending_claims m !! a with
  | Some existing => ensure (bytes_eqb existing id) (PolicyRejected "A claim is already pending")
  | None => Ok tt
  end.

(** [Mempool::find_conflicts]. *)
Definition find_conflicts (tx : Transaction) (m : Mempool) : list bytes :=
  foldl (fun conflicts i =>
      match spent_inputs m !! input_key i with
      | Some id => if bool_decide (id ∈ conflicts) then conflicts else conflicts ++ [id]
      | None => conflicts
      end) [] (inputs tx).

(** The replacement rules against one conflicting entry. *)
Definition check_replacement (m : Mempool) (rate fee : Z) (conflict : bytes) : res NodeError unit :=
  let* e := ok_or (entries m !! conflict) (ChainError "Conflict entry missing") in
  let* _ := ensure (sat_add u64_max (fee_rate e) MIN_RBF_FEE_BUMP <=? rate)
              (ChainError "RBF replacement fee rate must exceed the replaced rate") in
  ensure (entry_fee e <=? fee) (ChainError "RBF replacement absolute fee must not be lower").

(** Replacing the conflicting entries and evicting their descendants. *)
Definition replace_conflicts (signals : bool) (rate fee : Z) (conflicts : list bytes) : st Mempool NodeError unit :=
  if (length conflicts =? 0)%nat then sret tt else
  if negb signals
  then serr (ChainError "Transaction conflicts with mempool entry; signal RBF to replace") else
  do* m := sget (fun m => m) in
  do* _ := slift (rfold (fun _ conflict => check_replacement m rate fee conflict) tt conflicts) in
  do* _ := smod (remove_all conflicts) in
  evict_descendants (S (size (entries m))) (list_to_set conflicts).

(** [Mempool::total_bytes], [total_fees]; the sums panic when they overflow. *)
Definition total_bytes (m : Mempool) : res NodeError Z := psum (map (fun e => size_bytes e.2) (map_order (entries m))).
Definition total_fees (m : Mempool) : res NodeError Z := psum (map (fun e => entry_fee e.2) (map_order (entries m))).

(** The key [(fee_rate, serialized_size, txid)] of [lowest_fee_rate_txid]. *)
Definition entry_leb (a b : bytes * MempoolEntry) : bool :=
  match fee_rate a.2 ?= fee_rate b.2 with
  | Lt => true
  | Gt => false
  | Eq => match serialized_size (entry_tx a.2) ?= serialized_size (entry_tx b.2) with
          | Lt => true
          | Gt => false
          | Eq => bytes_leb a.1 b.1
          end
  end.

(** [Iterator::min_by_key]: the first of the least. *)
Fixpoint min_by {A} (leb : A -> A -> bool) (l : list A) : option A :=
  match l with
  | [] => None
  | x :: l =>
      match min_by leb l with
      | None => Some x
      | Some y => if leb x y then Some x else Some y
      end
  end.

(** [Mempool::lowest_fee_rate_txid]. *)
Definition lowest_fee_rate_txid (m : Mempool) : option bytes :=
  fst <$> min_by entry_leb (map_order (entries m)).

(** The loop that makes room for a transaction of [size] bytes that pays [rate]. *)
Fixpoint make_room (fuel : nat) (size_new rate : Z) : st Mempool NodeError unit :=
  match fuel with
  | O => slift Panic
  | S fuel =>
      do* m := sget (fun m => m) in
      do* bytes := slift (total_bytes m) in
      let over_count := max_size m <=? Z.of_nat (size (entries m)) in
      let over_bytes := max_bytes m <? sat_add u64_max bytes size_new in
      if negb over_count && negb over_bytes then sret tt else
      match lowest_fee_rate_txid m with
      | None => sret tt
      | Some lowest =>
          do* e := slift (unwrap (entries m !! lowest)) in
          if rate <=? fee_rate e then serr (ChainError "Mempool full") else
          do* _ := smod (remove_entry lowest) in
          do* _ := evict_descendants (S (size (entries m))) {[lowest]} in
          do* r := slift (padd u64_max (fee_rate e) 1) in
          do* _ := smod (set_min_fee_rate r) in
          make_room fuel size_new rate
      end
  end.

(** The decay of the dynamic minimum. *)
Definition decay (m : Mempool) : Mempool :=
  if (Z.of_nat (size (entries m)) <? max_size m / 2) && (1 <? min_fee_rate m)
  then set_min_fee_rate (min_fee_rate m - 1) m else m.

(** The new entry and its index. *)
Definition insert_entry (id : bytes) (e : MempoolEntry) (m : Mempool) : Mempool :=
  mkPool (<[id := e]> (entries m))
    (match claim_of (entry_tx e) with Some a => <[a := id]> (pending_claims m) | None => pending_claims m end)
    (foldl (fun s i => <[input_key i := id]> s) (spent_inputs m) (inputs (entry_tx e)))
    (max_size m) (max_bytes m) (min_fee_rate m).

(** [Mempool::add_transaction_with_fee]. *)
Definition add_transaction_with_fee (now : Z) (tx : Transaction) (fee : Z) : st Mempool NodeError unit :=
  do* _ := slift (validate_transaction tx) in
  do* _ := slift (check_dust tx) in
  let id := txid tx in
  do* m := sget (fun m => m) in
  do* _ := slift (check_pending_claim m tx id) in
  let size_new := serialized_size tx in
  let rate := if 0 <? size_new then fee / size_new else 0 in
  let signals := signals_rbf tx in
  let fee_exempt := is_legacy_claim tx in
  if negb fee_exempt && (fee <? MIN_RELAY_FEE) then serr (PolicyRejected "Fee too low") else
  if negb fee_exempt && (rate <? min_fee_rate m) then serr (PolicyRejected "Fee rate too low") else
  if bool_decide (is_Some (entries m !! id)) then sret tt else
  do* _ := replace_conflicts signals rate fee (find_conflicts tx m) in
  if max_bytes m <? size_new
  then serr (PolicyRejected "Transaction size exceeds the mempool byte budget") else
  do* _ := make_room (S (size (entries m))) size_new rate in
  do* _ := smod decay in
  smod (insert_entry id (mkEntry tx fee size_new now signals)).

(** ** Orders and estimates *)

(** Ready transactions, by descending fee rate and then by id: the keys of the
    [BTreeSet] of [get_transactions]. *)
Definition ready_leb (a b : Z * bytes) : bool :=
  match a.1 ?= b.1 with Gt => true | Lt => false | Eq => bytes_leb a.2 b.2 end.

(** [BTreeSet::insert] on the ordered list of the elements. *)
Fixpoint ready_insert (x : Z * bytes) (l : list (Z * bytes)) : list (Z * bytes) :=
  match l with
  | [] => [x]
  | y :: l' => if bool_decide (x = y) then l else if ready_leb x y then x :: l else y :: ready_insert x l'
  end.

(** One input of an entry: an edge of the graph when its parent is in the pool. *)
Definition add_edge (es : gmap bytes MempoolEntry) (id : bytes)
    (g : gmap bytes Z * gmap bytes (list bytes)) (i : TxInput) : gmap bytes Z * gmap bytes (list bytes) :=
  if bool_decide (is_Some (es !! prev_txid i)) then
    (<[id := match g.1 !! id with Some d => d | None => 0 end + 1]> g.1,
     <[prev_txid i := match g.2 !! prev_txid i with Some l => l | None => [] end ++ [id]]> g.2)
  else g.

Definition add_node (es : gmap bytes MempoolEntry) (g : gmap bytes Z * gmap bytes (list bytes))
    (e : bytes * MempoolEntry) : gmap bytes Z * gmap bytes (list bytes) :=
  let id := txid (entry_tx e.2) in
  foldl (add_edge es id) (match g.1 !! id with Some _ => g.1 | None => <[id := 0]> g.1 end, g.2)
    (inputs (entry_tx e.2)).

(** The in-degrees and the children of every entry. *)
Definition dependency_graph (m : Mempool) : gmap bytes Z * gmap bytes (list bytes) :=
  foldl (add_node (entries m)) (∅, ∅) (map_order (entries m)).

(** A child loses a parent. *)
Definition relax (es : gmap bytes MempoolEntry) (s : list (Z * bytes) * gmap bytes Z) (kid : bytes)
    : list (Z * bytes) * gmap bytes Z :=
  match s.2 !! kid with
  | None => s
  | Some d =>
      let d := sat_sub d 1 in
      (match es !! kid with
       | Some e => if d =? 0 then ready_insert (fee_rate e, kid) s.1 else s.1
       | None => s.1
       end, <[kid := d]> s.2)
  end.

(** The loop over the ready set. *)
Fixpoint emit (fuel : nat) (es : gmap bytes MempoolEntry) (children : gmap bytes (list bytes))
    (ready : list (Z * bytes)) (degree : gmap bytes Z) (out : list Transaction)
    : res NodeError (list Transaction) :=
  match fuel with
  | O => Panic
  | S fuel =>
      match ready with
      | [] => Ok out
      | (_, id) :: ready =>
          let out := match es !! id with Some e => out ++ [entry_tx e] | None => out end in
          let kids := match children !! id with Some l => l | None => [] end in
          let '(ready, degree) := foldl (relax es) (ready, degree) kids in
          emit fuel es children ready degree out
      end
  end.

(** [sort_by_key(|e| Reverse(e.fee_rate()))]. *)
Definition rate_ge (a b : MempoolEntry) : Prop := fee_rate b <= fee_rate a.

#[export] Instance rate_ge_dec : RelDecision rate_ge.
Proof. unfold rate_ge. solve_decision. Defined.

(** [Mempool::get_entries]. *)
Definition get_entries (m : Mempool) : list MempoolEntry :=
  merge_sort rate_ge (map snd (map_order (entries m))).

(** [Mempool::get_transactions]. *)
Definition get_transactions (m : Mempool) : res NodeError (list Transaction) :=
  let es := entries m in
  let '(degree, children) := dependency_graph m in
  let ready := foldl (fun ready '(id, d) =>
      match es !! id with
      | Some e => if d =? 0 then ready_insert (fee_rate e, id) ready else ready
      | None => ready
      end) [] (map_order degree) in
  let* out := emit (S (size es)) es children ready degree [] in
  if (length out <? size es)%nat then
    let emitted : gset bytes := list_to_set (map txid out) in
    let leftovers := List.filter (fun e => negb (bool_decide (txid (entry_tx e) ∈ emitted)))
                       (map snd (map_order es)) in
    Ok (out ++ map entry_tx (merge_sort rate_ge leftovers))
  else Ok out.

(** [Mempool::get_transaction], [Mempool::size]. *)
Definition pool_transaction (m : Mempool) (id : bytes) : option Transaction := entry_tx <$> entries m !! id.
Definition pool_size (m : Mempool) : Z := Z.of_nat (size (entries m)).

(** The fee rates in ascending order. *)
Definition rates (m : Mempool) : list Z := merge_sort Z.le (map (fun e => fee_rate e.2) (map_order (entries m))).

(** [Mempool::median_fee_rate], [Mempool::recommended_fee_rate]. *)
Definition median_fee_rate (m : Mempool) : res NodeError Z :=
  match rates m with
  | [] => Ok (min_fee_rate m)
  | rs => vec_get rs (zlen rs / 2)
  end.
Definition recommended_fee_rate (m : Mempool) : Z :=
  if pool_size m <? max_size m / 2 then min_fee_rate m
  else match vec_at (rates m) (zlen (rates m) * 3 / 4) with Some r => r | None => min_fee_rate m end.

(** [Mempool::fee_estimates]. *)
Definition rate_at (m : Mempool) (pct : Z) : res NodeError Z :=
  match rates m with
  | [] => Ok (min_fee_rate m)
  | rs => let* r := vec_get rs (Z.min (zlen rs * pct / 100) (zlen rs - 1)) in Ok (Z.max r (min_fee_rate m))
  end.

(** A faster target must not be cheaper. *)
Fixpoint cap_from (prev : Z) (l : list (Z * Z)) : list (Z * Z) :=
  match l with
  | [] => []
  | (target, r) :: l => let r := if prev <? r then prev else r in (target, r) :: cap_from r l
  end.

Definition fee_estimates (m : Mempool) : res NodeError (list (Z * Z)) :=
  let* r1 := rate_at m 90 in
  let* r2 := rate_at m 75 in
  let* r3 := rate_at m 50 in
  let* r6 := rate_at m 25 in
  Ok ((1, r1) :: cap_from r1 [(2, r2); (3, r3); (6, r6)]).

End mempool.

(** ** Admission against the chain *)

Section admission.
Context {C : Crypto} {B : Bincode} {H : Hex} {N : Snapshot} {MO : MapOrder}.

Definition tip_time (c : Chain) : Z :=
  match get_block_at_height c (best_height c) with Some b => timestamp (header b) | None => 0 end.

(** The cold-staking rule on the inputs of a transaction. *)
Definition check_cold_input (c : Chain) (tx : Transaction) (e : nat * TxInput) : res NodeError unit :=
  let '(input_index, input) := e in
  match get_utxo c (prev_txid input) (prev_vout input) with
  | None => Ok tt
  | Some utxo =>
      let* redeem := p2cs_redeem_script (utxo_script utxo) (script_sig input) in
      match redeem with
      | None => Ok tt
      | Some _ =>
          let* authorized := p2cs_cold_spend_authorized tx input_index utxo in
          ensure authorized (PolicyRejected "P2CS spend must be authorized by the cold spending key")
      end
  end.

(** [Mempool::admit_with_chain_fee]. *)
Definition admit_with_chain_fee (now : Z) (c : Chain) (tx : Transaction) : st Mempool NodeError Z :=
  do* fee := slift (ok_or (compute_tx_fee c tx) (ChainError "Transaction inputs not found in UTXO set")) in
  do* _ := slift (verify_tx_scripts c tx (best_height c) (tip_time c)) in
  do* _ := slift (if is_coinstake tx then Ok tt
                  else rfold (fun _ e => check_cold_input c tx e) tt (imap pair (inputs tx))) in
  do* _ := add_transaction_with_fee now tx fee in
  sret fee.

(** The check of [handle_reorg] on an entry. *)
Definition invalid_on (c : Chain) (e : MempoolEntry) : res NodeError bool :=
  if negb (bool_decide (compute_tx_fee c (entry_tx e) = Some (entry_fee e))) then Ok true else
  match verify_tx_scripts c (entry_tx e) (best_height c) (tip_time c) with
  | Ok _ => Ok false
  | Err _ => Ok true
  | Panic => Panic
  end.

(** [let _ = admit_with_chain_fee(..)]: the error is dropped. *)
Definition readmit (now : Z) (c : Chain) (tx : Transaction) : st Mempool NodeError unit := fun m =>
  match admit_with_chain_fee now c tx m with
  | (m, Panic) => (m, Panic)
  | (m, _) => (m, Ok tt)
  end.

(** [Mempool::handle_reorg]. *)
Definition handle_reorg (now : Z) (c : Chain) (rolled_back : list Transaction) : st Mempool NodeError unit :=
  do* m := sget (fun m => m) in
  do* invalid := slift (rfold (fun ids '(id, e) =>
      let* bad := invalid_on c e in Ok (if bad then ids ++ [id] else ids)) [] (map_order (entries m))) in
  do* _ := smod (remove_all invalid) in
  sfor (readmit now c) rolled_back.

End admission.
