(* ===== verification/Pool.v ===== *)
(** * The mempool: its invariant

    Theorems about [Mempool.v].  The two indexes of the pool are exact: an output is
    marked as spent by exactly the entry that spends it, so no two entries conflict, and a
    claim is pending exactly when its entry is in the pool.  Adding a transaction never
    panics, stays within both limits, replaces only entries it outbids and leaves no
    entry behind whose parent it removed. *)

From stdpp Require Import base list gmap sorting strings.
From Stdlib Require Import ZArith Lia.
From S2P Require Import Prelude Script Crypto Engine Standard Merkle Codec Block Address Consensus.
From S2P Require Import Deployments Governance Ledger Supply Chain Mempool.
Import Scripts.

(** ** Definitions *)

Section pool.
Context {C : Crypto} {B : Bincode} {BL : BincodeLaws B} {MO : MapOrder} {ML : MapOrderLaws MO}.

(** The bytes of all entries. *)
Definition pool_bytes (m : Mempool) : Z := map_sum size_bytes (entries m).

(** Values and script bytes in the range of their machine types. *)
Definition typed_tx (tx : Transaction) : Prop :=
  Forall (fun o => 0 <= value o) (outputs tx) /\ Forall (fun i => is_bytes (script_sig i)) (inputs tx).

Record pool_ok (m : Mempool) : Prop := {
  po_entry : forall t e, entries m !! t = Some e ->
    t = txid (entry_tx e) /\ size_bytes e = serialized_size (entry_tx e) /\ 0 <= entry_fee e <= u64_max;
  po_typed : forall t e, entries m !! t = Some e -> typed_tx (entry_tx e);
  po_spent : forall k t, spent_inputs m !! k = Some t <->
    exists e, entries m !! t = Some e /\ k ∈ spends (entry_tx e);
  po_claims : forall a t, pending_claims m !! a = Some t <->
    exists e, entries m !! t = Some e /\ claim_of (entry_tx e) = Some a;
  po_count : Z.of_nat (size (entries m)) <= max_size m;
  po_bytes : pool_bytes m <= max_bytes m;
  po_limits : 1 <= max_size m /\ 0 <= max_bytes m < u64_max;
  po_floor : 1 <= min_fee_rate m;
}.

(** [m'] is [m] with entries removed. *)
Record shrinks (m m' : Mempool) : Prop := {
  sh_entries : entries m' ⊆ entries m;
  sh_size : max_size m' = max_size m;
  sh_bytes : max_bytes m' = max_bytes m;
}.

(** No entry of [m'] spends an output of an entry of [m] that is gone. *)
Definition keeps_parents (m m' : Mempool) : Prop :=
  forall t e k, entries m' !! t = Some e -> k ∈ spends (entry_tx e) ->
    is_Some (entries m !! k.1) -> is_Some (entries m' !! k.1).

Definition same_limits (m m' : Mempool) : Prop := max_size m' = max_size m /\ max_bytes m' = max_bytes m.

(** ** Lemmas: the indexes *)

#[export] Instance shrinks_refl : Reflexive shrinks.
Proof. by intros m; split. Qed.

#[export] Instance shrinks_trans : Transitive shrinks.
Proof. intros a b c [] []; split; [by etrans|congruence..]. Qed.

Lemma serialized_size_nonneg tx : 0 <= serialized_size tx.
Proof. unfold serialized_size. rewrite ser_size_layout. apply zlen_nonneg. Qed.

Lemma if_elem_nil {A X} `{EqDecision A} (k : A) (a b : X) : (if decide (k ∈ []) then a else b) = b.
Proof. by rewrite decide_False by apply not_elem_of_nil. Qed.

Lemma if_elem_cons {A X} `{EqDecision A} (x k : A) l (a b : X) :
  (if decide (k ∈ x :: l) then a else b) = if decide (k = x) then a else if decide (k ∈ l) then a else b.
Proof. rewrite (decide_ext (k ∈ x :: l) (k = x \/ k ∈ l)) by apply elem_of_cons. by repeat case_decide; try tauto. Qed.

Lemma delete_inputs_lookup (s : gmap OutPoint bytes) l k :
  foldl (fun s i => delete (input_key i) s) s l !! k = if decide (k ∈ map input_key l) then None else s !! k.
Proof.
  revert s; induction l as [|i l IH]; intros s; cbn [foldl map]; [by rewrite if_elem_nil|].
  rewrite IH, if_elem_cons. destruct (decide (k = input_key i)) as [->|Hk].
  - rewrite lookup_delete_eq. by case_decide.
  - by rewrite lookup_delete_ne.
Qed.

Lemma insert_inputs_lookup (s : gmap OutPoint bytes) id l k :
  foldl (fun s i => <[input_key i := id]> s) s l !! k = if decide (k ∈ map input_key l) then Some id else s !! k.
Proof.
  revert s; induction l as [|i l IH]; intros s; cbn [foldl map]; [by rewrite if_elem_nil|].
  rewrite IH, if_elem_cons. destruct (decide (k = input_key i)) as [->|Hk].
  - rewrite lookup_insert_eq. by case_decide.
  - by rewrite lookup_insert_ne.
Qed.

(** The indexes determine each other's entry. *)
Lemma spent_owner m t e k : pool_ok m -> entries m !! t = Some e -> k ∈ spends (entry_tx e) ->
  spent_inputs m !! k = Some t.
Proof. intros Hm He Hk. apply (po_spent _ Hm). eauto. Qed.

Lemma no_double_spend m t1 t2 e1 e2 k : pool_ok m -> entries m !! t1 = Some e1 -> entries m !! t2 = Some e2 ->
  k ∈ spends (entry_tx e1) -> k ∈ spends (entry_tx e2) -> t1 = t2.
Proof.
  intros Hm H1 H2 K1 K2. pose proof (spent_owner _ _ _ _ Hm H1 K1) as E1.
  pose proof (spent_owner _ _ _ _ Hm H2 K2). congruence.
Qed.

Lemma one_claim m t1 t2 e1 e2 a : pool_ok m -> entries m !! t1 = Some e1 -> entries m !! t2 = Some e2 ->
  claim_of (entry_tx e1) = Some a -> claim_of (entry_tx e2) = Some a -> t1 = t2.
Proof.
  intros Hm H1 H2 K1 K2. assert (pending_claims m !! a = Some t1) by (apply (po_claims _ Hm); eauto).
  assert (pending_claims m !! a = Some t2) by (apply (po_claims _ Hm); eauto). congruence.
Qed.

(** ** Lemmas: removing *)

Lemma remove_entries id m : entries (remove_entry id m) = delete id (entries m).
Proof. unfold remove_entry. destruct (entries m !! id) eqn:E; [done|]. by rewrite delete_id. Qed.

Lemma remove_shrinks id m : shrinks m (remove_entry id m).
Proof.
  split; [rewrite remove_entries; apply delete_subseteq|unfold remove_entry; by case_match..].
Qed.

Lemma remove_floor id m : min_fee_rate (remove_entry id m) = min_fee_rate m.
Proof. unfold remove_entry. by case_match. Qed.

Lemma entry_size_nonneg m t e : pool_ok m -> entries m !! t = Some e -> 0 <= size_bytes e.
Proof. intros Hm He. destruct (po_entry _ Hm t e He) as (_ & -> & _). apply serialized_size_nonneg. Qed.

Lemma remove_spent m id e : pool_ok m -> entries m !! id = Some e -> forall k t,
  foldl (fun s i => delete (input_key i) s) (spent_inputs m) (inputs (entry_tx e)) !! k = Some t <->
  exists e', delete id (entries m) !! t = Some e' /\ k ∈ spends (entry_tx e').
Proof.
  intros Hm He k t. rewrite delete_inputs_lookup. fold (spends (entry_tx e)). split.
  - case_decide as Hk; [done|]. intros (e' & He' & Hk')%(po_spent _ Hm). exists e'. split; [|done].
    rewrite lookup_delete_ne; [done|]. intros <-. congruence.
  - intros (e' & [Ht He']%lookup_delete_Some & Hk). case_decide as Hk'; [|by eapply spent_owner].
    by destruct Ht; eapply no_double_spend.
Qed.

Lemma remove_claims m id e : pool_ok m -> entries m !! id = Some e -> forall a t,
  match claim_of (entry_tx e) with
  | Some a => if bool_decide (pending_claims m !! a = Some id) then delete a (pending_claims m) else pending_claims m
  | None => pending_claims m
  end !! a = Some t <-> exists e', delete id (entries m) !! t = Some e' /\ claim_of (entry_tx e') = Some a.
Proof.
  intros Hm He a t. destruct (claim_of (entry_tx e)) as [b|] eqn:Eb.
  - rewrite bool_decide_true by (apply (po_claims _ Hm); eauto). split.
    + intros [Hab (e' & He' & Hc)%(po_claims _ Hm)]%lookup_delete_Some. exists e'. split; [|done].
      rewrite lookup_delete_ne; [done|]. intros <-. congruence.
    + intros (e' & [Ht He']%lookup_delete_Some & Hc). rewrite lookup_delete_ne.
      * apply (po_claims _ Hm). eauto.
      * intros ->. by destruct Ht; eapply one_claim.
  - rewrite (po_claims _ Hm). split; intros (e' & He' & Hc); exists e'.
    + split; [|done]. rewrite lookup_delete_ne; [done|]. intros <-. congruence.
    + by apply lookup_delete_Some in He' as [_ ?].
Qed.

Lemma remove_entry_ok id m : pool_ok m -> pool_ok (remove_entry id m).
Proof.
  intros Hm. unfold remove_entry. destruct (entries m !! id) as [e|] eqn:He; [|done].
  pose proof (entry_size_nonneg _ _ _ Hm He). split; simpl.
  - intros t e' [_ He']%lookup_delete_Some. by apply (po_entry _ Hm).
  - intros t e' [_ He']%lookup_delete_Some. by apply (po_typed _ Hm t).
  - by apply remove_spent.
  - by apply remove_claims.
  - pose proof (po_count _ Hm). rewrite map_size_delete_Some by eauto. lia.
  - pose proof (po_bytes _ Hm). unfold pool_bytes in *. simpl. rewrite (map_sum_delete _ _ _ e) by done. lia.
  - apply (po_limits _ Hm).
  - apply (po_floor _ Hm).
Qed.

Lemma remove_all_ok ids m : pool_ok m -> pool_ok (remove_all ids m).
Proof. revert m; induction ids as [|id ids IH]; intros m Hm; [done|]. by apply IH, remove_entry_ok. Qed.

Lemma remove_all_shrinks ids m : shrinks m (remove_all ids m).
Proof.
  revert m; induction ids as [|id ids IH]; intros m; [done|]. etrans; [apply remove_shrinks|apply IH].
Qed.

Lemma remove_all_floor ids m : min_fee_rate (remove_all ids m) = min_fee_rate m.
Proof. revert m; induction ids as [|id ids IH]; intros m; [done|]. simpl. rewrite IH. apply remove_floor. Qed.

Lemma remove_all_lookup ids m t :
  entries (remove_all ids m) !! t = if decide (t ∈ ids) then None else entries m !! t.
Proof.
  revert m; induction ids as [|id ids IH]; intros m; cbn [remove_all foldl]; [by rewrite if_elem_nil|].
  fold (remove_all ids (remove_entry id m)). rewrite IH, remove_entries, if_elem_cons.
  destruct (decide (t = id)) as [->|Hk]; [|by rewrite lookup_delete_ne].
  rewrite lookup_delete_eq. by case_decide.
Qed.

Lemma remove_all_None ids m t : t ∈ ids -> entries (remove_all ids m) !! t = None.
Proof. intros Ht. rewrite remove_all_lookup. by rewrite decide_True. Qed.

Lemma elem_of_spenders f m t : pool_ok m -> t ∈ spenders f m <->
  exists e k, entries m !! t = Some e /\ k ∈ spends (entry_tx e) /\ f k = true.
Proof.
  intros Hm. unfold spenders. rewrite list_elem_of_fmap. split.
  - intros ([k t'] & -> & [Hin Hf]%list_elem_of_In%filter_In). simpl in *.
    apply list_elem_of_In in Hin. rewrite map_order_perm in Hin. apply elem_of_map_to_list in Hin.
    apply (po_spent _ Hm) in Hin as (e & He & Hk). eauto.
  - intros (e & k & He & Hk & Hf). exists (k, t). split; [done|]. apply list_elem_of_In, filter_In. split; [|done].
    apply list_elem_of_In. rewrite map_order_perm. by apply elem_of_map_to_list, (spent_owner _ _ e).
Qed.

(** ** Lemmas: evicting descendants *)

(** [m'] is [m] without the entries that spend outputs of [X], and theirs. *)
Record evicts (X : gset bytes) (m m' : Mempool) : Prop := {
  ev_ok : pool_ok m';
  ev_shrinks : shrinks m m';
  ev_floor : min_fee_rate m' = min_fee_rate m;
  ev_parents : keeps_parents m m';
  ev_spends : forall t e k, entries m' !! t = Some e -> k ∈ spends (entry_tx e) -> k.1 ∉ X;
}.

Lemma keeps_parents_refl m : keeps_parents m m.
Proof. by intros t e k. Qed.

Lemma keeps_parents_trans m1 m2 m3 :
  shrinks m2 m3 -> keeps_parents m1 m2 -> keeps_parents m2 m3 -> keeps_parents m1 m3.
Proof.
  intros Hs H12 H23 t e k He Hk Hp. apply (H23 t e k He Hk), (H12 t e k); [|done..].
  by eapply lookup_weaken, sh_entries.
Qed.

(** Removing [ids] keeps the parents of what does not spend from them. *)
Lemma remove_keeps_parents ids m m' : shrinks (remove_all ids m) m' ->
  (forall t e k, entries m' !! t = Some e -> k ∈ spends (entry_tx e) -> k.1 ∉ ids) ->
  keeps_parents (remove_all ids m) m' -> keeps_parents m m'.
Proof.
  intros Hs Hx Hp t e k He Hk Hm. apply (Hp t e k He Hk). rewrite remove_all_lookup.
  by rewrite decide_False by (eapply Hx; eauto).
Qed.

Lemma remove_all_smaller ids m t : t ∈ ids -> is_Some (entries m !! t) ->
  (size (entries (remove_all ids m)) < size (entries m))%nat.
Proof.
  intros Ht Hm. apply map_subset_size, map_subset_alt. split; [apply remove_all_shrinks|].
  exists t. split; [by apply remove_all_None|done].
Qed.

Lemma evict_descendants_runs fuel : forall X m, pool_ok m -> (size (entries m) < fuel)%nat ->
  runs (evict_descendants fuel X) (fun _ => evicts X m) (fun _ _ => False) m.
Proof.
  induction fuel as [|fuel IH]; intros X m Hm Hf; [lia|]. cbn [evict_descendants].
  runs_step; intros HX; [apply bool_decide_eq_true in HX as ->; split; [done|reflexivity|done|apply keeps_parents_refl|intros; apply not_elem_of_empty]|].
  runs_step. runs_step. set (doomed := spenders _ m).
  assert (Hd : forall t, t ∈ doomed <-> exists e k, entries m !! t = Some e /\ k ∈ spends (entry_tx e) /\ k.1 ∈ X).
  { intros t. unfold doomed. rewrite elem_of_spenders by done. by setoid_rewrite bool_decide_eq_true. }
  runs_step; intros HE.
  { apply Nat.eqb_eq, nil_length_inv in HE. split; [done|reflexivity|done|apply keeps_parents_refl|].
    intros t e k He Hk Hx. assert (t ∈ doomed) as Ht by (apply Hd; eauto). rewrite HE in Ht. by apply elem_of_nil in Ht. }
  runs_step. runs_step.
  assert (exists t, t ∈ doomed) as [t0 H0] by (destruct doomed as [|t0 ?]; [done|exists t0; left]).
  eapply runs_mono; [apply IH; [by apply remove_all_ok|]| |done].
  { destruct (proj1 (Hd t0) H0) as (e & _ & He & _). pose proof (remove_all_smaller doomed m t0 H0). rewrite He in *.
    specialize (H ltac:(eauto)). lia. }
  intros _ m' [E1 E2 E3 E4 E5]. assert (shrinks m m') as Hs by (etrans; [apply remove_all_shrinks|exact E2]).
  split; [done|done|by rewrite E3, remove_all_floor| |].
  - eapply remove_keeps_parents; [exact E2| |done]. intros t e k He Hk Hin. apply (E5 t e k He Hk).
    by apply elem_of_list_to_set.
  - intros t e k He Hk Hx. assert (t ∈ doomed) as Ht.
    { apply Hd. exists e, k. split_and!; [by eapply lookup_weaken, sh_entries|done..]. }
    pose proof (lookup_weaken _ _ _ _ He (sh_entries _ _ E2)) as He'. by rewrite remove_all_None in He'.
Qed.

(** Removing entries with all their descendants. *)
Lemma remove_and_evict ids X n m : pool_ok m -> (forall t, t ∈ ids <-> t ∈ X) -> (size (entries m) < n)%nat ->
  runs (evict_descendants n X)
    (fun _ m' => evicts X m m' /\ forall t, t ∈ ids -> entries m' !! t = None) (fun _ _ => False) (remove_all ids m).
Proof.
  intros Hm HX Hn. eapply runs_mono; [apply evict_descendants_runs; [by apply remove_all_ok|]| |done].
  { pose proof (map_subseteq_size _ _ (sh_entries _ _ (remove_all_shrinks ids m))). lia. }
  intros _ m' [E1 E2 E3 E4 E5]. split; [split|].
  - done.
  - etrans; [apply remove_all_shrinks|exact E2].
  - by rewrite E3, remove_all_floor.
  - eapply remove_keeps_parents; [exact E2| |done]. intros t e k He Hk Hin. by apply (E5 t e k He Hk), HX.
  - done.
  - intros t Ht. apply (lookup_weaken_None _ (entries (remove_all ids m))); [by apply remove_all_None|apply E2].
Qed.

(** ** Lemmas: making room *)

Lemma psum_from {E} vs : Forall (fun v => 0 <= v) vs -> forall a, a + zsum vs <= u64_max ->
  rfold (@padd E u64_max) a vs = Ok (a + zsum vs).
Proof.
  induction 1 as [|v vs Hv Hvs IH]; intros a Ha; [simpl; by rewrite Z.add_0_r|]. rewrite zsum_cons in *.
  pose proof (zsum_nonneg vs Hvs). cbn [rfold]. unfold padd at 1, checked_add.
  rewrite (proj2 (Z.leb_le _ _)) by lia. simpl. rewrite IH by lia. f_equal. lia.
Qed.

Lemma psum_total {E} vs : Forall (fun v => 0 <= v) vs -> zsum vs <= u64_max -> @psum E vs = Ok (zsum vs).
Proof. intros H1 H2. by apply (psum_from vs H1 0). Qed.

Lemma pool_bytes_nonneg m : pool_ok m -> 0 <= pool_bytes m.
Proof. intros Hm. apply map_sum_nonneg. intros k e He. by eapply entry_size_nonneg. Qed.

Lemma total_bytes_ok m : pool_ok m -> total_bytes m = Ok (pool_bytes m).
Proof.
  intros Hm. assert (Hp : map (fun e => size_bytes e.2) (map_order (entries m)) ≡ₚ
    (fun e : bytes * MempoolEntry => size_bytes e.2) <$> map_to_list (entries m)) by (apply fmap_Permutation, map_order_perm).
  unfold total_bytes. rewrite psum_total.
  - f_equal. unfold pool_bytes, map_sum. by rewrite Hp.
  - rewrite Hp. apply Forall_fmap, Forall_forall. intros [k e] He%elem_of_map_to_list. simpl. by eapply entry_size_nonneg.
  - rewrite Hp. pose proof (po_bytes _ Hm). pose proof (po_limits _ Hm). unfold pool_bytes, map_sum in *. lia.
Qed.

Lemma set_floor_ok r m : pool_ok m -> 1 <= r -> pool_ok (set_min_fee_rate r m).
Proof. by intros [] Hr; split. Qed.

Lemma set_floor_shrinks r m : shrinks m (set_min_fee_rate r m).
Proof. by split. Qed.

Lemma min_by_elem {A} (leb : A -> A -> bool) l x : min_by leb l = Some x -> x ∈ l.
Proof.
  revert x; induction l as [|y l IH]; intros x; simpl; [done|]. destruct (min_by leb l) as [z|]; [|by intros [= ->]; left].
  case_match; intros [= <-]; [left|right; auto].
Qed.

Lemma min_by_None {A} (leb : A -> A -> bool) l : min_by leb l = None -> l = [].
Proof. destruct l as [|y l]; [done|]. simpl. by repeat case_match. Qed.

Lemma lowest_Some m t : lowest_fee_rate_txid m = Some t -> is_Some (entries m !! t).
Proof.
  unfold lowest_fee_rate_txid. intros ([t' e] & Hin%min_by_elem & ->)%fmap_Some. rewrite map_order_perm in Hin.
  apply elem_of_map_to_list in Hin. by exists e.
Qed.

Lemma lowest_None m : lowest_fee_rate_txid m = None -> entries m = ∅.
Proof.
  unfold lowest_fee_rate_txid. intros Hn%fmap_None%min_by_None. pose proof (map_order_perm (entries m)) as Hp.
  rewrite Hn in Hp. apply Permutation_nil in Hp. by apply map_to_list_empty_iff.
Qed.

Lemma fee_rate_bounds m t e : pool_ok m -> entries m !! t = Some e -> 0 <= fee_rate e.
Proof.
  intros Hm He. pose proof (entry_size_nonneg _ _ _ Hm He). destruct (po_entry _ Hm t e He) as (_ & _ & Hf).
  unfold fee_rate, rate_of. destruct (Z.eqb_spec (size_bytes e) 0); [done|]. apply Z.div_pos; lia.
Qed.

(** There is room for [n] more bytes. *)
Definition has_room (n : Z) (m : Mempool) : Prop :=
  Z.of_nat (size (entries m)) < max_size m /\ pool_bytes m + n <= max_bytes m.

Lemma make_room_runs fuel n rate : forall m, pool_ok m -> (size (entries m) < fuel)%nat ->
  0 <= n <= max_bytes m -> rate <= u64_max ->
  runs (make_room fuel n rate)
    (fun _ m' => pool_ok m' /\ shrinks m m' /\ keeps_parents m m' /\ has_room n m')
    (fun _ m' => pool_ok m' /\ shrinks m m' /\ keeps_parents m m') m.
Proof.
  induction fuel as [|fuel IH]; intros m Hm Hf Hn Hr; [lia|]. cbn [make_room].
  runs_step. runs_step. rewrite (total_bytes_ok m Hm). runs_step. runs_step; [done| |done]. intros ? [= <-].
  pose proof (po_limits _ Hm) as [L1 L2]. pose proof (pool_bytes_nonneg _ Hm).
  runs_step; intros Hc.
  { apply andb_true_iff in Hc as [C1%negb_true_iff%Z.leb_gt C2%negb_true_iff%Z.ltb_ge].
    split_and!; [done|reflexivity|apply keeps_parents_refl|split; [done|unfold sat_add in C2; lia]]. }
  destruct (lowest_fee_rate_txid m) as [low|] eqn:El.
  2:{ runs_step. split_and!; [done|reflexivity|apply keeps_parents_refl|]. apply lowest_None in El.
      unfold has_room, pool_bytes. rewrite El, map_size_empty. unfold map_sum. rewrite map_to_list_empty. simpl. lia. }
  apply lowest_Some in El as [e He]. rewrite He. runs_step. runs_step; [done| |done]. intros ? [= <-].
  runs_step; intros Hrate; [runs_step; split_and!; [done|reflexivity|apply keeps_parents_refl]|]. apply Z.leb_gt in Hrate.
  pose proof (fee_rate_bounds _ _ _ Hm He).
  runs_step. runs_step. runs_step.
  eapply runs_mono; [apply (remove_and_evict [low] {[low]}); [done|intros t; by rewrite list_elem_of_singleton, elem_of_singleton|lia]| |by intros ? ? []].
  intros [] m1 [[E1 E2 E3 E4 E5] Hgone]. assert (entries m1 !! low = None) as Hlow by (apply Hgone; left).
  runs_step. runs_step.
  { unfold padd, checked_add. by rewrite (proj2 (Z.leb_le _ _)) by lia. }
  2:{ intros ? Hx. by apply padd_Err in Hx. }
  intros r [-> _]%padd_Ok. runs_step. runs_step. eapply runs_mono.
  { apply IH; [apply set_floor_ok; [done|lia]| | |done]; simpl.
    - assert (size (entries m1) < size (entries m))%nat; [|lia]. apply map_subset_size, map_subset_alt.
      split; [apply E2|]. exists low. rewrite He. split; [done|eauto].
    - rewrite (sh_bytes _ _ E2). lia. }
  - intros _ m' (F1 & F2 & F3 & F4). split_and!; [done| | |done].
    + etrans; [exact E2|]. etrans; [apply set_floor_shrinks|exact F2].
    + eapply keeps_parents_trans; [exact F2|exact E4|exact F3].
  - intros _ m' (F1 & F2 & F3). split_and!; [done| |].
    + etrans; [exact E2|]. etrans; [apply set_floor_shrinks|exact F2].
    + eapply keeps_parents_trans; [exact F2|exact E4|exact F3].
Qed.

(** ** Lemmas: adding *)

Lemma elem_of_find_conflicts tx m t : t ∈ find_conflicts tx m <-> exists k, k ∈ spends tx /\ spent_inputs m !! k = Some t.
Proof.
  unfold find_conflicts, spends.
  assert (Hgen : forall l cs, t ∈ foldl (fun conflicts i => match spent_inputs m !! input_key i with
      | Some id => if bool_decide (id ∈ conflicts) then conflicts else conflicts ++ [id] | None => conflicts end) cs l <->
    t ∈ cs \/ exists k, k ∈ map input_key l /\ spent_inputs m !! k = Some t).
  2:{ rewrite Hgen, elem_of_nil. tauto. }
  induction l as [|i l IH]; intros cs; cbn [foldl map]; [split; [auto|intros [?|(k & []%elem_of_nil & _)]; done]|].
  rewrite IH. setoid_rewrite elem_of_cons. destruct (spent_inputs m !! input_key i) as [t'|] eqn:E.
  - case_bool_decide as Hin; rewrite ?elem_of_app, ?list_elem_of_singleton; split.
    + intros [?|(k & ? & ?)]; [auto|]. right. eauto.
    + intros [?|(k & [->|?] & Ek)]; [auto|left; congruence|eauto].
    + intros [[?| ->]|(k & ? & ?)]; [auto|eauto..].
    + intros [?|(k & [->|?] & Ek)]; [auto|left; right; congruence|eauto].
  - split; (intros [?|(k & Hk & Ek)]; [auto|]); [eauto|]. destruct Hk as [->|?]; [congruence|eauto].
Qed.

Lemma insert_entry_ok now fee signals tx m : pool_ok m -> typed_tx tx -> 0 <= fee <= u64_max ->
  entries m !! txid tx = None -> (forall k, k ∈ spends tx -> spent_inputs m !! k = None) ->
  (forall a, claim_of tx = Some a -> pending_claims m !! a = None) -> has_room (serialized_size tx) m ->
  pool_ok (insert_entry (txid tx) (mkEntry tx fee (serialized_size tx) now signals) m).
Proof.
  intros Hm Hty Hfee Hnew Hfree Hclaim [R1 R2]. split; simpl.
  - intros t e [[<- <-]|[_ He]]%lookup_insert_Some; [done|by apply (po_entry _ Hm)].
  - intros t e [[<- <-]|[_ He]]%lookup_insert_Some; [done|by apply (po_typed _ Hm t)].
  - intros k t. rewrite insert_inputs_lookup. fold (spends tx). case_decide as Hk.
    + split; [intros [= <-]; eexists; by rewrite lookup_insert_eq|].
      intros (e & [[<- <-]|[Ht He]]%lookup_insert_Some & Hk'); [done|].
      pose proof (spent_owner _ _ _ _ Hm He Hk'). rewrite Hfree in * by done. done.
    + rewrite (po_spent _ Hm). split; intros (e & He & Hk'); exists e.
      * rewrite lookup_insert_ne; [done|congruence].
      * apply lookup_insert_Some in He as [[<- <-]|[_ He]]; done.
  - intros a t. destruct (claim_of tx) as [b|] eqn:Eb.
    + rewrite lookup_insert_Some, (po_claims _ Hm). split.
      * intros [[-> ->]|[Hab (e & He & Hc)]]; [eexists; by rewrite lookup_insert_eq|]. exists e.
        rewrite lookup_insert_ne; [done|congruence].
      * intros (e & [[<- <-]|[Ht He]]%lookup_insert_Some & Hc); [left; simpl in Hc; split; congruence|].
        right. split; [|eauto]. intros ->. specialize (Hclaim a eq_refl).
        assert (pending_claims m !! a = Some t) by (apply (po_claims _ Hm); eauto). congruence.
    + rewrite (po_claims _ Hm). split; intros (e & He & Hc); exists e.
      * rewrite lookup_insert_ne; [done|congruence].
      * apply lookup_insert_Some in He as [[<- <-]|[_ He]]; [simpl in Hc; congruence|done].
  - rewrite map_size_insert_None by done. lia.
  - unfold pool_bytes in *. simpl. rewrite map_sum_insert by done. simpl. lia.
  - apply (po_limits _ Hm).
  - apply (po_floor _ Hm).
Qed.

Lemma decay_ok m : pool_ok m -> pool_ok (decay m).
Proof.
  intros Hm. unfold decay. destruct (_ && _) eqn:E; [|done]. apply andb_true_iff in E as [_ E%Z.ltb_lt].
  apply set_floor_ok; [done|lia].
Qed.

Lemma decay_entries m : entries (decay m) = entries m /\ max_size (decay m) = max_size m /\
  max_bytes (decay m) = max_bytes m /\ spent_inputs (decay m) = spent_inputs m /\ pending_claims (decay m) = pending_claims m.
Proof. unfold decay. by case_match. Qed.

Lemma rfold_unit {E A} (f : A -> res E unit) l u : rfold (fun _ x => f x) u l = Ok tt -> forall x, x ∈ l -> f x = Ok tt.
Proof.
  revert u; induction l as [|y l IH]; intros u; [by intros _ x ?%elem_of_nil|]. cbn [rfold]. unfold rbind.
  destruct (f y) as [[]| |] eqn:Ey; [|done..]. intros Hl x [->|Hx]%elem_of_cons; [done|by eapply IH].
Qed.

(** An entry the transaction conflicts with. *)
Definition conflicts (m : Mempool) (tx : Transaction) (t : bytes) (e : MempoolEntry) : Prop :=
  entries m !! t = Some e /\ exists k, k ∈ spends (entry_tx e) /\ k ∈ spends tx.

Lemma conflict_found m tx t e : pool_ok m -> conflicts m tx t e -> t ∈ find_conflicts tx m.
Proof.
  intros Hm (He & k & Hk & Hk'). apply elem_of_find_conflicts. exists k. split; [done|by eapply spent_owner].
Qed.

(** The rules an RBF replacement satisfies against every entry it replaces. *)
Definition outbids (signals : bool) (rate fee : Z) (e : MempoolEntry) : Prop :=
  signals = true /\ sat_add u64_max (fee_rate e) MIN_RBF_FEE_BUMP <= rate /\ entry_fee e <= fee.

Lemma check_replacement_safe m rate fee t : safe (check_replacement m rate fee t).
Proof. unfold check_replacement. panic_free. Qed.

Lemma check_replacement_Ok m rate fee t e : check_replacement m rate fee t = Ok tt -> entries m !! t = Some e ->
  sat_add u64_max (fee_rate e) MIN_RBF_FEE_BUMP <= rate /\ entry_fee e <= fee.
Proof.
  unfold check_replacement. intros Hc He. rewrite He in Hc. simpl in Hc. unfold ensure in Hc.
  destruct (Z.leb_spec (sat_add u64_max (fee_rate e) MIN_RBF_FEE_BUMP) rate); [|done]. simpl in Hc.
  by destruct (Z.leb_spec (entry_fee e) fee).
Qed.

Lemma replace_conflicts_runs signals rate fee tx m : pool_ok m ->
  runs (replace_conflicts signals rate fee (find_conflicts tx m))
    (fun _ m' => pool_ok m' /\ shrinks m m' /\ keeps_parents m m' /\
       (forall k, k ∈ spends tx -> spent_inputs m' !! k = None) /\
       forall t e, conflicts m tx t e -> outbids signals rate fee e)
    (fun _ m' => m' = m) m.
Proof.
  intros Hm. unfold replace_conflicts. runs_step; intros E0.
  { apply Nat.eqb_eq, nil_length_inv in E0.
    assert (forall t, t ∉ find_conflicts tx m) as Hnone by (intros t; rewrite E0; apply not_elem_of_nil).
    split_and!; [done|reflexivity|apply keeps_parents_refl| |].
    - intros k Hk. destruct (spent_inputs m !! k) as [t|] eqn:E; [|done]. destruct (Hnone t).
      apply elem_of_find_conflicts. eauto.
    - intros t e Hc. by destruct (Hnone t); eapply conflict_found. }
  runs_step; intros Hs; [by runs_step|]. apply negb_false_iff in Hs. runs_step. runs_step. runs_step.
  runs_step; [apply rfold_safe; intros; apply check_replacement_safe| |done].
  intros [] Hall. runs_step. runs_step.
  eapply runs_mono; [apply (remove_and_evict (find_conflicts tx m)); [done|intros t; by rewrite elem_of_list_to_set|lia]| |done].
  intros _ m' [[E1 E2 E3 E4 E5] Hgone]. split_and!; [done..| |].
  - intros k Hk. destruct (spent_inputs m' !! k) as [t|] eqn:E; [|done].
    apply (po_spent _ E1) in E as (e & He & Hk'). pose proof (lookup_weaken _ _ _ _ He (sh_entries _ _ E2)) as He'.
    rewrite Hgone in He; [done|]. eapply conflict_found; [done|]. split; [done|eauto].
  - intros t e Hc. split; [done|]. eapply check_replacement_Ok; [|apply Hc].
    by eapply rfold_unit; [exact Hall|eapply conflict_found].
Qed.

(** The fee rate [add_transaction_with_fee] computes. *)
Definition offered_rate (tx : Transaction) (fee : Z) : Z :=
  if 0 <? serialized_size tx then fee / serialized_size tx else 0.

(** What adding a new transaction does to the pool. *)
Record added (now : Z) (tx : Transaction) (fee : Z) (m m' : Mempool) : Prop := {
  ad_entry : entries m' !! txid tx = Some (mkEntry tx fee (serialized_size tx) now (signals_rbf tx));
  ad_rest : delete (txid tx) (entries m') ⊆ entries m;
  ad_fee : is_legacy_claim tx = false -> MIN_RELAY_FEE <= fee /\ min_fee_rate m <= offered_rate tx fee;
  ad_conflicts : forall t e, conflicts m tx t e ->
    outbids (signals_rbf tx) (offered_rate tx fee) fee e /\ entries m' !! t = None;
  ad_parents : forall t e k, t <> txid tx -> entries m' !! t = Some e -> k ∈ spends (entry_tx e) ->
    is_Some (entries m !! k.1) -> is_Some (entries m' !! k.1);
  ad_limits : same_limits m m';
}.

(** What an error leaves of the pool. *)
Definition rejected (m m' : Mempool) : Prop := pool_ok m' /\ shrinks m m' /\ keeps_parents m m'.

Lemma rejected_refl m : pool_ok m -> rejected m m.
Proof. intros Hm. split_and!; [done|reflexivity|apply keeps_parents_refl]. Qed.

Lemma offered_rate_max tx fee : 0 <= fee <= u64_max -> offered_rate tx fee <= u64_max.
Proof.
  intros Hf. unfold offered_rate. destruct (Z.ltb_spec 0 (serialized_size tx)); [|unfold u64_max; lia].
  transitivity fee; [|lia]. apply Z.div_le_upper_bound; nia.
Qed.

Lemma check_dust_safe tx : safe (check_dust tx).
Proof. unfold check_dust. destruct (is_legacy_claim tx); [done|]. apply rfold_safe. intros. apply safe_ensure. Qed.

Lemma check_pending_claim_safe m tx id : safe (check_pending_claim m tx id).
Proof. unfold check_pending_claim. case_match; [apply safe_ensure|done]. Qed.

Lemma no_pending_claim m tx : pool_ok m -> entries m !! txid tx = None ->
  check_pending_claim m tx (txid tx) = Ok tt -> forall a, claim_of tx = Some a -> pending_claims m !! a = None.
Proof.
  intros Hm Hnew Hc a Ha. unfold check_pending_claim in Hc. rewrite Ha in Hc. simpl in Hc.
  destruct (pending_claims m !! a) as [t|] eqn:Et; [|done]. unfold ensure in Hc.
  destruct (bytes_eqb t (txid tx)) eqn:Eq; [|done]. apply bytes_eqb_eq in Eq as ->.
  apply (po_claims _ Hm) in Et as (e & He & _). congruence.
Qed.

Lemma shrinks_claims m m' a : pool_ok m -> pool_ok m' -> shrinks m m' ->
  pending_claims m !! a = None -> pending_claims m' !! a = None.
Proof.
  intros Hm Hm' Hs Hn. destruct (pending_claims m' !! a) as [t|] eqn:Et; [|done].
  apply (po_claims _ Hm') in Et as (e & He & Hc).
  assert (pending_claims m !! a = Some t); [|congruence]. apply (po_claims _ Hm). exists e. split; [|done].
  by eapply lookup_weaken, sh_entries.
Qed.

Lemma shrinks_spent m m' k : pool_ok m -> pool_ok m' -> shrinks m m' ->
  spent_inputs m !! k = None -> spent_inputs m' !! k = None.
Proof.
  intros Hm Hm' Hs Hn. destruct (spent_inputs m' !! k) as [t|] eqn:Et; [|done].
  apply (po_spent _ Hm') in Et as (e & He & Hc).
  assert (spent_inputs m !! k = Some t); [|congruence]. apply (po_spent _ Hm). exists e. split; [|done].
  by eapply lookup_weaken, sh_entries.
Qed.

(** The new entry on top of a pool that has shrunk. *)
Lemma insert_added now tx fee m m' : pool_ok m -> typed_tx tx -> 0 <= fee <= u64_max -> entries m !! txid tx = None ->
  (forall a, claim_of tx = Some a -> pending_claims m !! a = None) ->
  (is_legacy_claim tx = false -> MIN_RELAY_FEE <= fee /\ min_fee_rate m <= offered_rate tx fee) ->
  (forall t e, conflicts m tx t e -> outbids (signals_rbf tx) (offered_rate tx fee) fee e) ->
  pool_ok m' -> shrinks m m' -> keeps_parents m m' -> has_room (serialized_size tx) m' ->
  (forall k, k ∈ spends tx -> spent_inputs m' !! k = None) ->
  let m'' := insert_entry (txid tx) (mkEntry tx fee (serialized_size tx) now (signals_rbf tx)) (decay m') in
  pool_ok m'' /\ added now tx fee m m''.
Proof.
  intros Hm Hty Hfee Hnew Hcl Hrelay Hbid Hm' Hs Hp [R1 R2] Hfree m''.
  destruct (decay_entries m') as (D1 & D2 & D3 & D4 & D5).
  assert (Hnew' : entries m' !! txid tx = None) by (eapply lookup_weaken_None; [exact Hnew|apply Hs]).
  assert (Hok : pool_ok m'').
  { apply insert_entry_ok; rewrite ?D1, ?D4, ?D5; auto using decay_ok.
    - intros a Ha. eapply shrinks_claims; [exact Hm|done..|by apply Hcl].
    - unfold has_room, pool_bytes. by rewrite D1, D2, D3. }
  assert (Hent : entries m'' = <[txid tx := mkEntry tx fee (serialized_size tx) now (signals_rbf tx)]> (entries m')).
  { unfold m'', insert_entry. simpl. by rewrite D1. }
  split; [done|]. split.
  - rewrite Hent. apply lookup_insert_eq.
  - rewrite Hent, delete_insert_id by done. apply Hs.
  - done.
  - intros t e Hc. split; [eauto|]. destruct Hc as (He & k & Hk & Hk'). rewrite Hent.
    destruct (entries m' !! t) as [e'|] eqn:E'.
    + pose proof (lookup_weaken _ _ _ _ E' (sh_entries _ _ Hs)). assert (e' = e) as -> by congruence.
      specialize (Hfree k Hk').
      pose proof (spent_owner _ _ _ _ Hm' E' Hk). congruence.
    + rewrite lookup_insert_ne; [done|congruence].
  - intros t e k Ht He Hk Hpar. rewrite Hent in He |- *. rewrite lookup_insert_ne in He by congruence.
    apply lookup_insert_is_Some'. right. by eapply Hp.
  - unfold same_limits, m'', insert_entry. simpl. rewrite D2, D3. split; apply Hs.
Qed.

Lemma add_runs now tx fee m : pool_ok m -> typed_tx tx -> 0 <= fee <= u64_max ->
  runs (add_transaction_with_fee now tx fee)
    (fun _ m' => pool_ok m' /\ (entries m !! txid tx = None -> added now tx fee m m') /\
                 (is_Some (entries m !! txid tx) -> m' = m))
    (fun _ m' => rejected m m') m.
Proof.
  intros Hm Hty Hfee. pose proof (rejected_refl m Hm) as Hrej. unfold add_transaction_with_fee.
  runs_step. runs_step; [apply validate_transaction_safe| |done]. intros [] Hvalid.
  runs_step. runs_step; [apply check_dust_safe| |done]. intros [] Hdust. runs_step. runs_step.
  runs_step. runs_step; [apply check_pending_claim_safe| |done]. intros [] Hclaim. fold (offered_rate tx fee).
  runs_step; intros G1; [by runs_step|]. runs_step; intros G2; [by runs_step|].
  runs_step; intros G3; [runs_step; split_and!; [done| |done]; apply bool_decide_eq_true in G3 as [? Hx]; congruence|].
  apply bool_decide_eq_false, eq_None_not_Some in G3.
  assert (Hrelay : is_legacy_claim tx = false -> MIN_RELAY_FEE <= fee /\ min_fee_rate m <= offered_rate tx fee).
  { intros Hl. rewrite Hl in G1, G2. simpl in G1, G2. apply Z.ltb_ge in G1, G2. done. }
  runs_step. eapply runs_mono; [by apply replace_conflicts_runs| |by intros _ m' ->].
  intros [] m1 (A1 & A2 & A3 & A4 & A5). runs_step; intros G4; [by runs_step|]. apply Z.ltb_ge in G4.
  runs_step. eapply runs_mono.
  { apply (make_room_runs (S (size (entries m)))); [done| |rewrite (sh_bytes _ _ A2)|by apply offered_rate_max].
    - pose proof (map_subseteq_size _ _ (sh_entries _ _ A2)). lia.
    - pose proof (serialized_size_nonneg tx). lia. }
  - intros [] m2 (F1 & F2 & F3 & F4). runs_step. runs_step. runs_step.
    assert (shrinks m m2) as S2 by (by etrans).
    destruct (insert_added now tx fee m m2) as [K1 K2]; try done.
    + exact (no_pending_claim m tx Hm G3 Hclaim).
    + eapply keeps_parents_trans; [exact F2|done..].
    + intros k Hk. eapply shrinks_spent; [exact A1|done..|by apply A4].
    + split_and!; [done..|]. intros [? Hx]. congruence.
  - intros _ m2 (F1 & F2 & F3). split_and!; [done|by etrans|eapply keeps_parents_trans; [exact F2|done..]].
Qed.

(** ** Lemmas: confirmed blocks *)

Lemma confirmed_block_ok ids spent m : pool_ok m -> pool_ok (handle_confirmed_block ids spent m).
Proof.
  intros Hm. unfold handle_confirmed_block. case_match; [by apply remove_all_ok|by apply remove_all_ok, remove_all_ok].
Qed.

Lemma confirmed_block_gone ids spent m t e : pool_ok m ->
  entries (handle_confirmed_block ids spent m) !! t = Some e ->
  entries m !! t = Some e /\ (t ∉ ids) /\ forall k, k ∈ spends (entry_tx e) -> k ∉ spent.
Proof.
  intros Hm. unfold handle_confirmed_block.
  assert (Hr : forall m ids, entries (remove_all ids m) !! t = Some e -> entries m !! t = Some e /\ t ∉ ids).
  { intros m0 ids0. rewrite remove_all_lookup. by case_decide. }
  destruct (length spent =? 0)%nat eqn:E0.
  - apply Nat.eqb_eq, nil_length_inv in E0 as ->. intros [H1 H2]%Hr. split_and!; [done..|]. intros k _. apply not_elem_of_nil.
  - intros [H0 H3]%Hr. apply Hr in H0 as [H1 H2]. split_and!; [done..|]. intros k Hk Hsp. apply H3.
    apply elem_of_spenders; [by apply remove_all_ok|]. exists e, k. split_and!; [|done|by apply bool_decide_eq_true].
    rewrite remove_all_lookup. by case_decide.
Qed.

End pool.

(** ** Lemmas: admission against the chain *)

Section admission.
Context {C : Crypto} {L : CryptoLaws C} {B : Bincode} {BL : BincodeLaws B} {H : Hex} {N : Snapshot}.
Context {MO : MapOrder} {ML : MapOrderLaws MO}.

(** The scripts of the output set are byte strings. *)
Definition chain_scripts (c : Chain) : Prop :=
  forall k u, utxo_set (state (main c)) !! k = Some u -> is_bytes (utxo_script u).

Lemma from_bytes_safe b : safe (from_bytes b).
Proof. unfold from_bytes. panic_free. Qed.

Lemma from_bytes_Ok b s : from_bytes b = Ok s -> s = b.
Proof. unfold from_bytes. case_match; [done|]. by intros [= <-]. Qed.

Lemma validate_legacy_claim_safe tx balance : safe (validate_legacy_claim tx balance).
Proof.
  unfold validate_legacy_claim, claim_message_hash_v2, bitcoin_signed_message_hash, verify_claim_signature.
  panic_free.
Qed.

Lemma verify_script_safe l h t tx e : (forall k u, utxo_set l !! k = Some u -> is_bytes (utxo_script u)) ->
  is_bytes (script_sig e.2) -> safe (verify_script l h t tx e).
Proof.
  intros Hl He. destruct e as [n i]. unfold verify_script. apply safe_bind; [apply safe_ok_or|]. intros u Hu%ok_or_Ok.
  apply safe_bind; [apply safe_map_err, from_bytes_safe|]. intros sg Hsg.
  apply safe_bind; [apply safe_map_err, from_bytes_safe|]. intros pk Hpk.
  apply safe_bind; [|intros; apply safe_Ok]. apply safe_map_err. eapply wp_safe, execute_grows.
  - destruct (from_bytes (script_sig i)) as [s0| |] eqn:E; [|done..]. injection Hsg as <-.
    by apply from_bytes_Ok in E as ->.
  - destruct (from_bytes (utxo_script u)) as [s0| |] eqn:E; [|done..]. injection Hpk as <-.
    apply from_bytes_Ok in E as ->. eauto.
Qed.

Lemma rfold_safe_in {E A X} (f : A -> res E X) u l : (forall x, x ∈ l -> safe (f x)) -> safe (rfold (fun _ x => f x) u l).
Proof.
  revert u; induction l as [|y l IH]; intros u Hl; [done|]. cbn [rfold]. apply safe_bind; [apply Hl; left|].
  intros. apply IH. intros x Hx. apply Hl. by right.
Qed.

Lemma imap_pair_elem {A} (l : list A) e : e ∈ imap pair l -> e.2 ∈ l.
Proof. intros (n & x & -> & Hx)%elem_of_lookup_imap. simpl. by eapply list_elem_of_lookup_2. Qed.

Lemma verify_tx_scripts_safe c tx h t : chain_scripts c -> typed_tx tx -> safe (verify_tx_scripts c tx h t).
Proof.
  intros Hc [_ Hty]. unfold verify_tx_scripts. destruct (is_legacy_claim tx).
  - apply safe_bind; [apply safe_ok_or|]. intros a _. case_bool_decide; [done|apply validate_legacy_claim_safe].
  - destruct (_ || _); [done|]. apply rfold_safe_in. intros e He%imap_pair_elem. apply verify_script_safe; [done|].
    rewrite Forall_forall in Hty. auto.
Qed.

Lemma push_list_safe s : is_bytes s -> safe (push_list s).
Proof. intros Hs. unfold push_list. by rewrite items_parse. Qed.

Lemma p2cs_redeem_script_safe u s : is_bytes s -> safe (p2cs_redeem_script u s).
Proof.
  intros Hs. unfold p2cs_redeem_script. destruct (from_bytes u); try done. case_match; try done.
  destruct (from_bytes s) as [sg| |] eqn:E; try done. apply from_bytes_Ok in E as ->.
  apply safe_bind; [by apply push_list_safe|]. intros ps _. by case_match.
Qed.

Lemma p2cs_authorized_safe tx n i u : inputs tx !! n = Some i -> is_bytes (script_sig i) ->
  safe (p2cs_cold_spend_authorized tx n u).
Proof.
  intros Hi Hs. unfold p2cs_cold_spend_authorized.
  assert (Hg : vec_get (inputs tx) (Z.of_nat n) = Ok i :> res NodeError TxInput).
  { unfold vec_get, vec_at. rewrite (proj2 (Z.leb_le _ _)), Nat2Z.id, Hi by lia. done. }
  rewrite Hg. simpl. apply safe_bind; [by apply p2cs_redeem_script_safe|]. intros [r|] _; [|done].
  destruct (from_bytes r); try done. destruct (from_bytes (script_sig i)) as [sg| |] eqn:E; try done.
  apply from_bytes_Ok in E as ->. case_match; try done. apply safe_if; intros _; [done|].
  apply safe_bind; [by apply push_list_safe|]. intros ps _. cbv zeta.
  apply safe_if; intros Hz; [done|]. apply Z.ltb_ge in Hz. panic_free.
Qed.

Lemma check_cold_input_safe c tx e : typed_tx tx -> e ∈ imap pair (inputs tx) -> safe (check_cold_input c tx e).
Proof.
  intros [_ Hty] (n & i & -> & Hi)%elem_of_lookup_imap. rewrite Forall_forall in Hty.
  assert (is_bytes (script_sig i)) by (apply Hty; by eapply list_elem_of_lookup_2).
  unfold check_cold_input. case_match; [|done]. apply safe_bind; [by apply p2cs_redeem_script_safe|].
  intros [r|] _; [|done]. apply safe_bind; [by eapply p2cs_authorized_safe|]. intros. apply safe_ensure.
Qed.

Lemma compute_tx_fee_bounds c tx fee : typed_tx tx -> compute_tx_fee c tx = Some fee -> 0 <= fee <= u64_max.
Proof.
  intros [Hty _]. unfold compute_tx_fee. destruct (_ || _); [intros [= <-]; by unfold u64_max|].
  match goal with |- context [foldl ?f (Some 0) (inputs tx)] => set (step := f) end.
  assert (Ht : forall l a, (forall n, a = Some n -> n <= u64_max) -> forall n, foldl step a l = Some n -> n <= u64_max).
  { induction l as [|i l IH]; intros a Ha n; [apply Ha|]. apply IH. intros n' Hn. unfold step in Hn.
    destruct a as [x|]; [|done]. simpl in Hn. destruct (utxo_set _ !! _); [|done]. simpl in Hn. injection Hn as <-.
    unfold sat_add. lia. }
  specialize (Ht (inputs tx) (Some 0) ltac:(intros ? [= <-]; by unfold u64_max)).
  destruct (foldl step (Some 0) (inputs tx)) as [n|]; [|done]. simpl. unfold checked_sub. destruct (Z.leb_spec (total_output tx) n); [|done].
  intros [= <-]. specialize (Ht n eq_refl). assert (0 <= total_output tx); [|lia].
  unfold total_output. rewrite sat_sum_spec by by apply Forall_map.
  pose proof (zsum_nonneg (map value (outputs tx)) ltac:(by apply Forall_map)). unfold u64_max. lia.
Qed.

(** An entry that a block on the tip of [c] could spend: its fee and its scripts hold. *)
Definition valid_on (c : Chain) (e : MempoolEntry) : Prop :=
  compute_tx_fee c (entry_tx e) = Some (entry_fee e) /\
  verify_tx_scripts c (entry_tx e) (best_height c) (tip_time c) = Ok tt.

Lemma admit_runs now c tx m : pool_ok m -> chain_scripts c -> typed_tx tx ->
  runs (admit_with_chain_fee now c tx)
    (fun fee m' => pool_ok m' /\ (is_Some (entries m !! txid tx) -> m' = m) /\
       (entries m !! txid tx = None -> added now tx fee m m') /\
       compute_tx_fee c tx = Some fee /\ verify_tx_scripts c tx (best_height c) (tip_time c) = Ok tt)
    (fun _ m' => rejected m m') m.
Proof.
  intros Hm Hc Hty. pose proof (rejected_refl m Hm) as Hrej. unfold admit_with_chain_fee.
  runs_step. runs_step; [apply safe_ok_or| |done]. intros fee Hfee%ok_or_Ok.
  runs_step. runs_step; [by apply verify_tx_scripts_safe| |done]. intros [] Hver.
  runs_step. runs_step; [| |done].
  { destruct (is_coinstake tx); [done|]. apply rfold_safe_in. intros e He. by apply check_cold_input_safe. }
  intros [] _. runs_step. eapply runs_mono; [apply add_runs; [done..|by eapply compute_tx_fee_bounds]| |done].
  intros [] m' (A1 & A2 & A3). runs_step. done.
Qed.

Definition valid_pool (c : Chain) (m m' : Mempool) : Prop :=
  pool_ok m' /\ (forall t e, entries m' !! t = Some e -> valid_on c e) /\ same_limits m m'.

Lemma same_limits_trans m1 m2 m3 : same_limits m1 m2 -> same_limits m2 m3 -> same_limits m1 m3.
Proof. intros [] []. split; congruence. Qed.

Lemma shrinks_limits m m' : shrinks m m' -> same_limits m m'.
Proof. by intros []. Qed.

(** Whatever becomes of an admission, the entries stay valid. *)
Lemma readmit_runs now c tx m0 m : chain_scripts c -> typed_tx tx -> valid_pool c m0 m ->
  runs (readmit now c tx) (fun _ => valid_pool c m0) (fun _ _ => False) m.
Proof.
  intros Hc Hty (Hm & Hv & Hlim). pose proof (admit_runs now c tx m Hm Hc Hty) as Ha. unfold runs, readmit in *.
  destruct (admit_with_chain_fee now c tx m) as [m' [fee|e|]]; [| |done].
  - destruct Ha as (A1 & A2 & A3 & A4 & A5).
    destruct (entries m !! txid tx) as [old|] eqn:E; [by rewrite A2 by eauto|].
    specialize (A3 eq_refl). split_and!; [done| |eapply same_limits_trans; [done|apply A3]].
    intros t e He. destruct (decide (t = txid tx)) as [->|Ht].
    + rewrite (ad_entry _ _ _ _ _ A3) in He. injection He as <-. by split.
    + apply (Hv t). eapply lookup_weaken; [|apply A3]. by rewrite lookup_delete_ne by congruence.
  - destruct Ha as (A1 & A2 & A3). split_and!; [done| |by eapply same_limits_trans, shrinks_limits].
    intros t e' He. apply (Hv t). by eapply lookup_weaken, A2.
Qed.

Lemma invalid_on_Ok c e : chain_scripts c -> typed_tx (entry_tx e) ->
  exists b, invalid_on c e = Ok b /\ (b = false -> valid_on c e).
Proof.
  intros Hc Hty. unfold invalid_on. case_bool_decide as Hf; simpl; [|by exists true].
  pose proof (verify_tx_scripts_safe c (entry_tx e) (best_height c) (tip_time c) Hc Hty) as Hs.
  unfold valid_on. destruct (verify_tx_scripts _ _ _ _) as [[]|?|]; [by exists false|by exists true|done].
Qed.

(** The entries the check finds. *)
Lemma invalid_found c : chain_scripts c -> forall l ids,
  (forall id e, (id, e) ∈ l -> typed_tx (entry_tx e)) ->
  exists ids', rfold (fun ids '(id, e) => let* bad := invalid_on c e in Ok (if bad then ids ++ [id] else ids)) ids l = Ok ids' /\
    (forall id, id ∈ ids -> id ∈ ids') /\
    forall id e, (id, e) ∈ (l : list (bytes * MempoolEntry)) -> id ∉ ids' -> valid_on c e.
Proof.
  intros Hc. induction l as [|[id e] l IH]; intros ids Hty.
  { exists ids. split_and!; [done..|]. by intros ? ? ?%elem_of_nil. }
  destruct (invalid_on_Ok c e Hc (Hty id e ltac:(left))) as (b & Hb & Hbv). cbn [rfold]. rewrite Hb. cbn [rbind].
  destruct (IH (if b then ids ++ [id] else ids)) as (ids' & H1 & H2 & H3).
  { intros id' e' Hin. apply (Hty id'). by right. }
  exists ids'. split_and!; [done| |].
  - intros x Hx. apply H2. destruct b; [apply elem_of_app; by left|done].
  - intros id' e' [[= -> ->]|Hin]%elem_of_cons Hn; [|by eapply H3].
    apply Hbv. destruct b; [|done]. destruct Hn. apply H2, elem_of_app. right. by apply list_elem_of_singleton.
Qed.

Lemma handle_reorg_runs now c txs m : pool_ok m -> chain_scripts c -> Forall typed_tx txs ->
  runs (handle_reorg now c txs) (fun _ => valid_pool c m) (fun _ _ => False) m.
Proof.
  intros Hm Hc Hty. unfold handle_reorg. runs_step. runs_step. runs_step.
  destruct (invalid_found c Hc (map_order (entries m)) []) as (ids & E1 & _ & E3).
  { intros id e Hin. rewrite map_order_perm in Hin. apply elem_of_map_to_list in Hin. by apply (po_typed _ Hm id). }
  rewrite E1. runs_step; [done| |done]. intros ? [= <-]. runs_step. runs_step.
  apply runs_for.
  - intros tx m' Htx Hm'. rewrite Forall_forall in Hty. by apply readmit_runs; [|apply Hty|].
  - split_and!; [by apply remove_all_ok| |apply shrinks_limits, remove_all_shrinks]. intros t e. rewrite remove_all_lookup. case_decide as Hin; [done|]. intros He.
    apply (E3 t e); [|done..]. rewrite map_order_perm. by apply elem_of_map_to_list.
Qed.

(** ** Reachable pools *)

(** The operations of the node on its pool, with their outcome whether they return a result
    or an error. *)
Inductive pool_step (m : Mempool) : Mempool -> Prop :=
  | step_add now tx fee : typed_tx tx -> 0 <= fee <= u64_max ->
      pool_step m (add_transaction_with_fee now tx fee m).1
  | step_admit now c tx : chain_scripts c -> typed_tx tx -> pool_step m (admit_with_chain_fee now c tx m).1
  | step_remove id : pool_step m (remove_entry id m)
  | step_confirm ids spent : pool_step m (handle_confirmed_block ids spent m)
  | step_stale now : pool_step m (evict_stale now m).1
  | step_reorg now c txs : chain_scripts c -> Forall typed_tx txs -> pool_step m (handle_reorg now c txs m).1.

Lemma runs_state {S E A} (m : st S E A) Q R (P : S -> Prop) s : runs m Q R s ->
  (forall a s', Q a s' -> P s') -> (forall e s', R e s' -> P s') -> P (m s).1.
Proof. unfold runs. destruct (m s) as [s' [a|e|]]; simpl; [eauto|eauto|by intros []]. Qed.

Lemma pool_step_ok m m' : pool_ok m -> pool_step m m' -> pool_ok m' /\ same_limits m m'.
Proof.
  assert (Hl : forall now tx fee m', (entries m !! txid tx = None -> added now tx fee m m') ->
    (is_Some (entries m !! txid tx) -> m' = m) -> same_limits m m').
  { intros now tx fee m1 A1 A2. destruct (entries m !! txid tx); [by rewrite A2 by eauto|by apply A1]. }
  intros Hm [now tx fee Hty Hfee|now c tx Hc Hty|id|ids spent|now|now c txs Hc Hty].
  - eapply runs_state; [by apply add_runs| |]; simpl.
    + intros _ m1 (A1 & A2 & A3). split; [done|by eapply Hl].
    + intros _ m1 (A1 & A2 & A3). split; [done|by apply shrinks_limits].
  - eapply runs_state; [by apply admit_runs| |]; simpl.
    + intros fee m1 (A1 & A2 & A3 & _). split; [done|by eapply Hl].
    + intros _ m1 (A1 & A2 & A3). split; [done|by apply shrinks_limits].
  - split; [by apply remove_entry_ok|apply shrinks_limits, remove_shrinks].
  - split; [by apply confirmed_block_ok|]. unfold handle_confirmed_block.
    case_match; apply shrinks_limits; [apply remove_all_shrinks|etrans; apply remove_all_shrinks].
  - split; [by apply remove_all_ok|apply shrinks_limits, remove_all_shrinks].
  - eapply runs_state; [by apply handle_reorg_runs| |done]. intros _ m1 (A1 & A2 & A3). done.
Qed.

Lemma pool_new_ok size bytes : 1 <= size -> 0 <= bytes < u64_max -> pool_ok (with_byte_limit size bytes).
Proof.
  intros Hs Hb. split; simpl; try done.
  - intros k t. rewrite lookup_empty. split; [done|]. intros (e & He & _). by rewrite lookup_empty in He.
  - intros k t. rewrite lookup_empty. split; [done|]. intros (e & He & _). by rewrite lookup_empty in He.
  - rewrite map_size_empty. lia.
  - unfold pool_bytes. simpl. unfold map_sum. rewrite map_to_list_empty. simpl. lia.
Qed.

(** A pool of the given limits after any operations. *)
Definition pool_reaches (size bytes : Z) (m : Mempool) : Prop :=
  1 <= size /\ 0 <= bytes < u64_max /\ rtc pool_step (with_byte_limit size bytes) m.

Lemma reachable_ok size bytes m : pool_reaches size bytes m ->
  pool_ok m /\ same_limits (with_byte_limit size bytes) m.
Proof.
  intros (Hs & Hb & Hr).
  revert m Hr. apply (rtc_ind_r (fun m => pool_ok m /\ same_limits (with_byte_limit size bytes) m)).
  - split; [by apply pool_new_ok|done].
  - intros m1 m2 _ H12 [H1 H2]. destruct (pool_step_ok _ _ H1 H12). split; [done|by eapply same_limits_trans].
Qed.

(** ** Properties *)

(** C31: a pool that starts empty stays consistent under every operation of the node,
    successful or not: no two entries spend the same output, no two claims are for the
    same address, the two indexes list exactly the spends and the claims of the entries,
    every entry is filed under its transaction id, and neither the number of entries
    nor their total size exceeds its limit. *)
Theorem pool_invariant (size_limit byte_limit : Z) (m : Mempool) :
  pool_reaches size_limit byte_limit m ->
  (forall t1 t2 e1 e2 k, entries m !! t1 = Some e1 -> entries m !! t2 = Some e2 ->
     k ∈ spends (entry_tx e1) -> k ∈ spends (entry_tx e2) -> t1 = t2) /\
  (forall k t, spent_inputs m !! k = Some t <-> exists e, entries m !! t = Some e /\ k ∈ spends (entry_tx e)) /\
  (forall a t, pending_claims m !! a = Some t <-> exists e, entries m !! t = Some e /\ claim_of (entry_tx e) = Some a) /\
  (forall t e, entries m !! t = Some e -> t = txid (entry_tx e)) /\
  pool_size m <= size_limit /\ total_bytes m = Ok (pool_bytes m) /\ pool_bytes m <= byte_limit /\ 1 <= min_fee_rate m.
Proof.
  intros [Hm [L1 L2]]%reachable_ok. simpl in L1, L2. split_and!.
  - intros. by eapply no_double_spend.
  - apply (po_spent _ Hm).
  - apply (po_claims _ Hm).
  - intros t e He. by destruct (po_entry _ Hm t e He).
  - rewrite <- L1. apply (po_count _ Hm).
  - by apply total_bytes_ok.
  - rewrite <- L2. apply (po_bytes _ Hm).
  - apply (po_floor _ Hm).
Qed.

(** C32: [Mempool::add_transaction_with_fee] always returns.  When it accepts a new
    transaction, the transaction is in the pool with its fee, which meets the relay floors
    unless the transaction is a legacy claim; every entry it conflicts with is gone, and was outbid in
    rate and in total by a transaction that signals replacement; nothing else was added; and
    no entry that was there before lost a parent.  The new entry itself may have lost one:
    making room can evict the parent of the transaction that is being added.  When it returns an error,
    entries may be gone, but only with everything that spends their outputs. *)
Theorem add_transaction_sound (size_limit byte_limit : Z) (m : Mempool) (now : Z) (tx : Transaction) (fee : Z) :
  pool_reaches size_limit byte_limit m -> typed_tx tx -> 0 <= fee <= u64_max ->
  match add_transaction_with_fee now tx fee m with
  | (m', Ok _) => if bool_decide (is_Some (entries m !! txid tx)) then m' = m else added now tx fee m m'
  | (m', Err _) => entries m' ⊆ entries m /\ keeps_parents m m'
  | (_, Panic) => False
  end.
Proof.
  intros [Hm _]%reachable_ok Hty Hfee. pose proof (add_runs now tx fee m Hm Hty Hfee) as Ha. unfold runs in Ha.
  destruct (add_transaction_with_fee now tx fee m) as [m' [[]|e|]]; [| |done].
  - destruct Ha as (_ & A2 & A3). case_bool_decide as E; [by apply A3|]. by apply A2, eq_None_not_Some.
  - destruct Ha as (_ & [A2 _ _] & A3). done.
Qed.

(** C34: [Mempool::handle_reorg] always returns, and afterwards every entry is valid on the
    new tip: its inputs are unspent outputs of the chain, the fee it is ranked by is the fee
    it pays there, and its scripts verify at the new height and time. *)
Theorem pool_valid_after_reorg (size_limit byte_limit : Z) (m : Mempool) (now : Z) (c : Chain)
    (rolled_back : list Transaction) :
  pool_reaches size_limit byte_limit m -> chain_scripts c -> Forall typed_tx rolled_back ->
  exists m', handle_reorg now c rolled_back m = (m', Ok tt) /\
    forall t e, entries m' !! t = Some e -> valid_on c e.
Proof.
  intros [Hm _]%reachable_ok Hc Hty. pose proof (handle_reorg_runs now c rolled_back m Hm Hc Hty) as Hr.
  unfold runs in Hr. destruct (handle_reorg now c rolled_back m) as [m' [[]|e|]]; [|done..].
  exists m'. split; [done|apply Hr].
Qed.

End admission.
