(* ===== verification/Priority.v ===== *)
(** * The mempool: block templates and fee estimates

    Theorems about the last part of [Mempool.v]: the order in which a staker takes the
    transactions of the pool, and the estimates for wallets.  [get_transactions] walks the
    graph of in-pool dependencies; it lists every entry once, parents before children, and
    always takes the best-paying transaction whose parents are all listed. *)

From stdpp Require Import base list gmap sorting strings.
From Stdlib Require Import ZArith Lia.
From S2P Require Import Prelude Script Crypto Engine Standard Merkle Codec Block Address Consensus.
From S2P Require Import Deployments Governance Ledger Supply Chain Mempool Pool.
Import Scripts.

(** ** Occurrences *)

Definition occ (k : bytes) (l : list bytes) : Z := zlen (List.filter (fun x => bool_decide (x = k)) l).

Lemma occ_app k l1 l2 : occ k (l1 ++ l2) = occ k l1 + occ k l2.
Proof. unfold occ. by rewrite List.filter_app, zlen_app. Qed.

Lemma occ_one k x : occ k [x] = if decide (x = k) then 1 else 0.
Proof. unfold occ. simpl. by case_bool_decide; case_decide. Qed.

Lemma occ_cons k x l : occ k (x :: l) = (if decide (x = k) then 1 else 0) + occ k l.
Proof. change (x :: l) with ([x] ++ l). by rewrite occ_app, occ_one. Qed.

Lemma occ_nonneg k l : 0 <= occ k l.
Proof. apply zlen_nonneg. Qed.

Lemma occ_pos k l : 0 < occ k l <-> k ∈ l.
Proof.
  induction l as [|x l IH]; [split; [done|by intros ?%elem_of_nil]|]. change (x :: l) with ([x] ++ l).
  rewrite occ_app, occ_one, elem_of_app, list_elem_of_singleton. pose proof (occ_nonneg k l).
  case_decide; split; [auto|lia|intros Hl; right; apply IH; lia|intros [->|Hk%IH]; [done|lia]].
Qed.

(** ** The graph *)

Section graph.
Context {C : Crypto} {B : Bincode} {MO : MapOrder} {ML : MapOrderLaws MO}.

(** The inputs of a transaction that spend outputs of the pool. *)
Definition inner (es : gmap bytes MempoolEntry) (ins : list TxInput) : list bytes :=
  List.filter (fun p => bool_decide (is_Some (es !! p))) (map prev_txid ins).

Definition pool_parents (es : gmap bytes MempoolEntry) (e : MempoolEntry) : list bytes :=
  inner es (inputs (entry_tx e)).

Definition kids (g : gmap bytes (list bytes)) (p : bytes) : list bytes := default [] (g !! p).

Lemma elem_of_pool_parents es e p : p ∈ pool_parents es e <-> is_Some (es !! p) /\ exists n, (p, n) ∈ spends (entry_tx e).
Proof.
  unfold pool_parents, inner, spends, input_key.
  rewrite list_elem_of_In, filter_In, <- list_elem_of_In, bool_decide_eq_true, list_elem_of_fmap. split.
  - intros [(i & -> & Hi) Hp]. split; [done|]. exists (prev_vout i).
    apply (list_elem_of_fmap_2 (fun i => (prev_txid i, prev_vout i))), Hi.
  - intros [Hp (n & (i & [= -> ->] & Hi)%list_elem_of_fmap)]. split; [by exists i|done].
Qed.

Lemma inner_cons es i ins : inner es (i :: ins) = (if decide (is_Some (es !! prev_txid i)) then [prev_txid i] else []) ++ inner es ins.
Proof. unfold inner. simpl. by case_bool_decide; case_decide. Qed.

Lemma add_edges es id ins : forall g d, g.1 !! id = Some d ->
  (foldl (add_edge es id) g ins).1 = <[id := d + zlen (inner es ins)]> g.1 /\
  forall p k, occ k (kids (foldl (add_edge es id) g ins).2 p) =
    occ k (kids g.2 p) + (if decide (k = id) then occ p (inner es ins) else 0).
Proof.
  induction ins as [|i ins IH]; intros g d Hd.
  { simpl. split; [by rewrite Z.add_0_r, insert_id|]. intros p k. case_decide; unfold occ, zlen; simpl; lia. }
  cbn [foldl]. rewrite inner_cons, zlen_app. case_decide as Hp.
  - replace (add_edge es id g i) with (<[id := d + 1]> g.1, <[prev_txid i := kids g.2 (prev_txid i) ++ [id]]> g.2)
      by (unfold add_edge; by rewrite bool_decide_true, Hd).
    destruct (IH (<[id := d + 1]> g.1, <[prev_txid i := kids g.2 (prev_txid i) ++ [id]]> g.2) (d + 1)) as [H1 H2];
      [apply lookup_insert_eq|].
    simpl in H1, H2. rewrite H1, insert_insert_eq. split; [f_equal; unfold zlen; simpl; lia|].
    intros p k. rewrite H2. unfold kids at 1. simpl. destruct (decide (p = prev_txid i)) as [->|Hne].
    + rewrite lookup_insert_eq. simpl. rewrite occ_app, occ_one.
      rewrite occ_cons. repeat case_decide; try congruence; lia.
    + rewrite lookup_insert_ne by done. fold (kids g.2 p). rewrite occ_cons. repeat case_decide; try congruence; lia.
  - replace (add_edge es id g i) with g by (unfold add_edge; by rewrite bool_decide_false). apply (IH g d Hd).
Qed.

(** The nodes listed in [l]. *)
Definition graph_of (es : gmap bytes MempoolEntry) (l : list (bytes * MempoolEntry))
    (g : gmap bytes Z * gmap bytes (list bytes)) : Prop :=
  (forall k e, (k, e) ∈ l -> g.1 !! k = Some (zlen (pool_parents es e))) /\
  (forall k, k ∉ l.*1 -> g.1 !! k = None /\ forall p, occ k (kids g.2 p) = 0) /\
  (forall k e p, (k, e) ∈ l -> occ k (kids g.2 p) = occ p (pool_parents es e)).

Lemma add_node_graph es l g id e : graph_of es l g -> id = txid (entry_tx e) -> id ∉ l.*1 ->
  graph_of es (l ++ [(id, e)]) (add_node es g (id, e)).
Proof.
  intros (G1 & G2 & G3) Hid Hnew. unfold add_node. cbn [snd]. rewrite <- Hid.
  destruct (G2 id Hnew) as [Gn Gk]. rewrite Gn.
  destruct (add_edges es id (inputs (entry_tx e)) (<[id := 0]> g.1, g.2) 0) as [H1 H2]; [apply lookup_insert_eq|].
  simpl in H1, H2. rewrite insert_insert_eq, Z.add_0_l in H1. fold (pool_parents es e) in H1, H2.
  assert (Hl : forall k e', (k, e') ∈ l -> k <> id).
  { intros k e' Hin ->. apply Hnew. apply (list_elem_of_fmap_2 fst _ _ Hin). }
  split_and!.
  - intros k e' [Hin|[= -> ->]%list_elem_of_singleton]%elem_of_app; rewrite H1.
    + rewrite lookup_insert_ne; [by apply G1|]. intros ->. by eapply Hl.
    + apply lookup_insert_eq.
  - intros k. rewrite fmap_app, not_elem_of_app. simpl. intros [Hk1 Hk2]. assert (k <> id) by (intros ->; apply Hk2; left).
    rewrite H1, lookup_insert_ne by done. destruct (G2 k Hk1) as [G4 G5]. split; [done|]. intros p. rewrite H2.
    by rewrite decide_False, Z.add_0_r.
  - intros k e' p [Hin|[= -> ->]%list_elem_of_singleton]%elem_of_app; rewrite H2.
    + rewrite decide_False by (by eapply Hl). rewrite Z.add_0_r. by apply G3.
    + by rewrite decide_True, Gk.
Qed.

Lemma dependency_graph_spec m : pool_ok m ->
  (forall k e, entries m !! k = Some e -> (dependency_graph m).1 !! k = Some (zlen (pool_parents (entries m) e))) /\
  (forall k, entries m !! k = None -> (dependency_graph m).1 !! k = None) /\
  (forall k p, occ k (kids (dependency_graph m).2 p) =
     match entries m !! k with Some e => occ p (pool_parents (entries m) e) | None => 0 end).
Proof.
  intros Hm. unfold dependency_graph.
  assert (Hgen : forall l l0 g, (forall k e, (k, e) ∈ l -> k = txid (entry_tx e)) -> NoDup (l0 ++ l).*1 ->
    graph_of (entries m) l0 g -> graph_of (entries m) (l0 ++ l) (foldl (add_node (entries m)) g l)).
  { induction l as [|[k e] l IH]; intros l0 g Hk Hnd Hg; [by rewrite app_nil_r|]. cbn [foldl].
    replace (l0 ++ (k, e) :: l) with ((l0 ++ [(k, e)]) ++ l) in * by by rewrite <- app_assoc.
    apply IH; [intros k' e' Hin; apply Hk; by right|done|]. apply add_node_graph; [done|apply Hk; left|].
    rewrite !fmap_app, <- app_assoc in Hnd. apply NoDup_app in Hnd as (_ & Hnd & _). intros Hin. apply (Hnd k Hin). left. }
  destruct (Hgen (map_order (entries m)) [] (∅, ∅)) as (G1 & G2 & G3).
  - intros k e Hin. rewrite map_order_perm in Hin. apply elem_of_map_to_list in Hin. by destruct (po_entry _ Hm k e Hin).
  - simpl. rewrite map_order_perm. apply NoDup_fst_map_to_list.
  - split_and!; [by intros ? ? ?%elem_of_nil|done|by intros ? ? ? ?%elem_of_nil].
  - assert (Hin : forall k e, entries m !! k = Some e -> (k, e) ∈ [] ++ map_order (entries m)).
    { intros k e He. simpl. rewrite map_order_perm. by apply elem_of_map_to_list. }
    assert (Hout : forall k, entries m !! k = None -> k ∉ ([] ++ map_order (entries m)).*1).
    { intros k Hk. simpl. rewrite map_order_perm. intros ([k' e] & -> & Hx%elem_of_map_to_list)%list_elem_of_fmap.
      simpl in Hk. congruence. }
    split_and!; [eauto|intros; by apply G2, Hout|]. intros k p. destruct (entries m !! k) as [e|] eqn:E; [by apply G3, Hin|].
    by apply G2, Hout.
Qed.

End graph.

(** ** The ready set *)

(** Best-paying first. *)
Definition pays_more (a b : Z * bytes) : Prop := b.1 <= a.1.

Lemma elem_of_ready_insert x y l : y ∈ ready_insert x l <-> y = x \/ y ∈ l.
Proof.
  induction l as [|z l IH]; simpl; [by rewrite list_elem_of_singleton, elem_of_nil; tauto|].
  case_bool_decide as E; [subst z; rewrite elem_of_cons; tauto|]. destruct (ready_leb x z).
  - rewrite !elem_of_cons. tauto.
  - rewrite !elem_of_cons, IH. tauto.
Qed.

Lemma ready_insert_NoDup x l : NoDup l -> x ∉ l -> NoDup (ready_insert x l).
Proof.
  induction l as [|z l IH]; intros Hnd Hx; simpl; [apply NoDup_singleton|].
  apply not_elem_of_cons in Hx as [Hxz Hx]. rewrite bool_decide_false by done.
  pose proof (NoDup_cons z l) as [Hc _]. destruct (Hc Hnd) as [Hz Hnd']. destruct (ready_leb x z).
  - apply NoDup_cons. split; [by apply not_elem_of_cons|done].
  - apply NoDup_cons. split; [|by apply IH]. rewrite elem_of_ready_insert. intros [->|?]; done.
Qed.

Lemma ready_insert_sorted x l : StronglySorted pays_more l -> StronglySorted pays_more (ready_insert x l).
Proof.
  induction 1 as [|z l Hs IH Hz]; simpl; [repeat constructor|].
  case_bool_decide; [by constructor|]. destruct (ready_leb x z) eqn:E.
  - constructor; [by constructor|]. assert (z.1 <= x.1).
    { unfold ready_leb in E. destruct (Z.compare_spec x.1 z.1); [lia|done|lia]. }
    constructor; [done|]. eapply Forall_impl; [exact Hz|]. intros w Hw. unfold pays_more in *. lia.
  - constructor; [done|]. apply Forall_forall. intros w [->|Hw]%elem_of_ready_insert; [|by rewrite Forall_forall in Hz; auto].
    unfold ready_leb in E. unfold pays_more. destruct (Z.compare_spec x.1 z.1); [lia|lia|done].
Qed.

(** ** The loop *)

Section loop.
Context (es : gmap bytes MempoolEntry) (children : gmap bytes (list bytes)).
Context (Hkids : forall k p, occ k (kids children p) =
           match es !! k with Some e => occ p (pool_parents es e) | None => 0 end).

(** The parents of an entry that are not in [P]. *)
Definition open_parents (P : list bytes) (e : MempoolEntry) : Z :=
  zlen (List.filter (fun p => negb (bool_decide (p ∈ P))) (pool_parents es e)).

(** [P] lists the emitted entries, parents first and best-paying first among those
    whose parents are listed. *)
Definition well_ordered (P : list bytes) : Prop :=
  forall P1 k P2 e, P = P1 ++ k :: P2 -> es !! k = Some e ->
    open_parents P1 e = 0 /\
    forall k' e', es !! k' = Some e' -> k' ∉ P1 -> open_parents P1 e' = 0 -> fee_rate e' <= fee_rate e.

(** The state of the loop when [q] of the current children have been relaxed. *)
Record relaxing (P q : list bytes) (skip : list bytes) (ready : list (Z * bytes)) (degree : gmap bytes Z) : Prop := {
  rx_degree : forall k e, es !! k = Some e -> degree !! k = Some (open_parents P e - occ k q);
  rx_ready : forall r k, (r, k) ∈ ready <->
    exists e, es !! k = Some e /\ r = fee_rate e /\ (k ∉ P ++ skip) /\ open_parents P e - occ k q = 0;
  rx_nodup : NoDup ready;
  rx_sorted : StronglySorted pays_more ready;
}.

Record emitting (P : list bytes) (ready : list (Z * bytes)) (degree : gmap bytes Z) : Prop := {
  em_nodup : NoDup P;
  em_in : forall k, k ∈ P -> is_Some (es !! k);
  em_done : forall k e, k ∈ P -> es !! k = Some e -> open_parents P e = 0;
  em_order : well_ordered P;
  em_state : relaxing P [] [] ready degree;
}.

Lemma open_parents_app P id e : id ∉ P ->
  open_parents (P ++ [id]) e = open_parents P e - occ id (pool_parents es e).
Proof.
  intros Hid. unfold open_parents, occ. generalize (pool_parents es e). intros l.
  induction l as [|p l IH]; simpl; [done|].
  destruct (decide (p = id)) as [->|Hne].
  - rewrite !(bool_decide_true (id = id)) by done. rewrite bool_decide_true by (apply elem_of_app; right; left).
    rewrite bool_decide_false by done. simpl. rewrite !zlen_cons. lia.
  - rewrite (bool_decide_false (p = id)) by done.
    rewrite (bool_decide_ext (p ∈ P ++ [id]) (p ∈ P)) by (rewrite elem_of_app, list_elem_of_singleton; tauto).
    destruct (negb _); rewrite ?zlen_cons; lia.
Qed.

Lemma open_parents_zero P e : open_parents P e = 0 <-> forall p, p ∈ pool_parents es e -> p ∈ P.
Proof.
  unfold open_parents. generalize (pool_parents es e). intros l. split.
  - intros Hz p Hp. destruct (decide (p ∈ P)); [done|].
    assert (p ∈ List.filter (fun p => negb (bool_decide (p ∈ P))) l) as Hin.
    { apply list_elem_of_In, filter_In. split; [by apply list_elem_of_In|]. by rewrite bool_decide_false. }
    destruct (List.filter _ l) as [|x r]; [by apply elem_of_nil in Hin|]. rewrite zlen_cons in Hz. pose proof (zlen_nonneg r). lia.
  - intros Hl. induction l as [|p l IH]; [done|]. simpl. rewrite bool_decide_true by (apply Hl; left). simpl.
    apply IH. intros q Hq. apply Hl. by right.
Qed.

Lemma open_parents_occ P e p : p ∉ P -> occ p (pool_parents es e) <= open_parents P e.
Proof.
  intros Hp. pose proof (open_parents_app P p e Hp) as E. pose proof (zlen_nonneg (List.filter
    (fun q => negb (bool_decide (q ∈ P ++ [p]))) (pool_parents es e))) as Hn. unfold open_parents in *. lia.
Qed.

(** One child loses its parent [id]. *)
Lemma relax_one P id q kid rest ready degree e0 : (forall k e, k ∈ P -> es !! k = Some e -> open_parents P e = 0) ->
  id ∉ P -> es !! id = Some e0 -> open_parents P e0 = 0 ->
  kids children id = q ++ kid :: rest -> relaxing P q [id] ready degree ->
  relaxing P (q ++ [kid]) [id] (relax es (ready, degree) kid).1 (relax es (ready, degree) kid).2.
Proof.
  intros Hdone Hid He0 H0 Hk [R1 R2 R3 R4]. unfold relax. cbn [fst snd].
  pose proof (Hkids kid id) as Hocc. rewrite Hk, occ_app, occ_cons, decide_True in Hocc by done.
  pose proof (occ_nonneg kid q). pose proof (occ_nonneg kid rest).
  destruct (es !! kid) as [e|] eqn:He; [|lia]. rewrite (R1 kid e He). pose proof (open_parents_occ P e id Hid).
  unfold sat_sub. rewrite Z.max_r by lia. cbn [fst snd].
  assert (kid ∉ P) as HkP by (intros Hin; rewrite (Hdone kid e) in * by done; lia).
  assert (kid <> id) as Hkid by (intros ->; assert (e = e0) as -> by congruence; lia).
  assert (Hnr : forall r, (r, kid) ∉ ready).
  { intros r (e' & He' & _ & _ & Hz)%R2. assert (e' = e) as -> by congruence. lia. }
  assert (HD : forall k e', es !! k = Some e' ->
    <[kid := open_parents P e - occ kid q - 1]> degree !! k = Some (open_parents P e' - occ k (q ++ [kid]))).
  { intros k e' He'. rewrite occ_app, occ_one. destruct (decide (kid = k)) as [<-|Hne].
    - rewrite lookup_insert_eq. assert (e' = e) as -> by congruence. f_equal. lia.
    - rewrite lookup_insert_ne by done. rewrite (R1 k e' He'). f_equal. lia. }
  assert (HR : forall r k, k <> kid -> (r, k) ∈ ready <-> exists e', es !! k = Some e' /\ r = fee_rate e' /\
    (k ∉ P ++ [id]) /\ open_parents P e' - occ k (q ++ [kid]) = 0).
  { intros r k Hne. rewrite R2. by rewrite occ_app, occ_one, (decide_False (P:=kid = k)), Z.add_0_r by congruence. }
  destruct (Z.eqb_spec (open_parents P e - occ kid q - 1) 0) as [Hz|Hz].
  - split; [done| |by apply ready_insert_NoDup|by apply ready_insert_sorted]. intros r k. rewrite elem_of_ready_insert.
    destruct (decide (k = kid)) as [->|Hne].
    + rewrite occ_app, occ_one, decide_True by done. split.
      * intros [[= ->]|Hin]; [|by apply Hnr in Hin]. exists e. split_and!; [done..| |lia].
        apply not_elem_of_app. split; [done|]. by intros ?%list_elem_of_singleton.
      * intros (e' & He' & -> & _). left. congruence.
    + rewrite <- HR by done. split; [intros [[= -> ->]|?]; done|by right].
  - split; [done| |done..]. intros r k. destruct (decide (k = kid)) as [->|Hne]; [|by apply HR].
    split; [by intros ?%Hnr|]. intros (e' & He' & _ & _ & Hz'). rewrite occ_app, occ_one, decide_True in Hz' by done.
    assert (e' = e) as -> by congruence. lia.
Qed.

Lemma relax_all P id e0 l : (forall k e, k ∈ P -> es !! k = Some e -> open_parents P e = 0) ->
  id ∉ P -> es !! id = Some e0 -> open_parents P e0 = 0 -> forall q ready degree,
  kids children id = q ++ l -> relaxing P q [id] ready degree ->
  relaxing P (kids children id) [id] (foldl (relax es) (ready, degree) l).1 (foldl (relax es) (ready, degree) l).2.
Proof.
  intros Hdone Hid He0 H0. induction l as [|k l IH]; intros q ready degree Hk HR; [by rewrite app_nil_r in Hk; rewrite Hk|].
  cbn [foldl]. pose proof (relax_one P id q k l ready degree e0 Hdone Hid He0 H0 Hk HR) as H1.
  destruct (relax es (ready, degree) k) as [ready' degree']. apply (IH (q ++ [k])); [|done]. by rewrite <- app_assoc.
Qed.

Lemma emit_one P r id ready degree : emitting P ((r, id) :: ready) degree ->
  is_Some (es !! id) /\ (id ∉ P) /\
  emitting (P ++ [id]) (foldl (relax es) (ready, degree) (kids children id)).1
    (foldl (relax es) (ready, degree) (kids children id)).2.
Proof.
  intros [E1 E2 E3 E4 [R1 R2 R3 R4]].
  destruct (proj1 (R2 r id)) as (e0 & He0 & Hr & HnP & Hz); [left|]. rewrite app_nil_r in HnP.
  change (occ id []) with 0 in Hz. rewrite Z.sub_0_r in Hz.
  apply NoDup_cons in R3 as [Hnr R3]. apply StronglySorted_inv in R4 as [R4 Hmax].
  assert (Hstart : relaxing P [] [id] ready degree).
  { split; [done| |done..]. intros r' k. split.
    - intros Hin. destruct (proj1 (R2 r' k)) as (e & He & -> & HkP & Hk0); [by right|]. exists e. split_and!; try done.
      rewrite app_nil_r in HkP. apply not_elem_of_app. split; [done|]. intros ->%list_elem_of_singleton.
      apply Hnr. assert (e = e0) as -> by congruence. by rewrite Hr.
    - intros (e & He & -> & [HkP Hid]%not_elem_of_app & Hk0). assert ((fee_rate e, k) ∈ (r, id) :: ready) as Hin.
      { apply R2. exists e. rewrite app_nil_r. done. }
      apply elem_of_cons in Hin as [[= _ ->]|?]; [|done]. destruct Hid. left. }
  pose proof (relax_all P id e0 (kids children id) E3 HnP He0 Hz [] ready degree eq_refl Hstart) as [Q1 Q2 Q3 Q4].
  assert (Hopen : forall k e, es !! k = Some e ->
    open_parents P e - occ k (kids children id) = open_parents (P ++ [id]) e - occ k []).
  { intros k e He. rewrite open_parents_app, Hkids, He by done. change (occ k []) with 0. lia. }
  split; [by eexists|]. split; [done|]. split.
  - apply NoDup_app. split_and!; [done| |apply NoDup_singleton]. by intros x Hx ->%list_elem_of_singleton.
  - intros k [Hk| ->%list_elem_of_singleton]%elem_of_app; [by apply E2|by eexists].
  - intros k e Hk He. apply open_parents_zero. intros p Hp. apply elem_of_app. left.
    apply elem_of_app in Hk as [Hk| ->%list_elem_of_singleton]; (eapply open_parents_zero; [|exact Hp]).
    + by apply (E3 k).
    + assert (e = e0) as -> by congruence. done.
  - intros P1 k P2 e Heq He. destruct P2 as [|x P2 _] using rev_ind.
    + apply app_inj_tail in Heq as [<- <-]. assert (e = e0) as -> by congruence. split; [done|].
      intros k' e' He' Hk' Hz'. assert ((fee_rate e', k') ∈ (r, id) :: ready) as Hin.
      { apply R2. exists e'. rewrite app_nil_r. change (occ k' []) with 0. split_and!; [done..|lia]. }
      rewrite <- Hr. apply elem_of_cons in Hin as [[= -> _]|Hin]; [done|]. rewrite Forall_forall in Hmax.
      apply (Hmax _ Hin).
    + rewrite app_comm_cons, app_assoc in Heq. apply app_inj_tail in Heq as [-> _]. by eapply E4.
  - split; [|intros r' k|done..].
    + intros k e He. rewrite <- Hopen by done. by apply Q1.
    + rewrite Q2, app_nil_r. split; intros (e & He & HH); exists e; (split; [done|]); by rewrite ?Hopen in * by done.
Qed.

Lemma emitting_length P ready degree : emitting P ready degree -> (length P <= size es)%nat.
Proof.
  intros [E1 E2 _ _ _]. rewrite <- size_dom, <- (size_list_to_set (C:=gset bytes) P) by done.
  apply subseteq_size. intros k Hk%elem_of_list_to_set. by apply elem_of_dom, E2.
Qed.

Definition txs_of (P : list bytes) : list Transaction := omap (fun k => entry_tx <$> es !! k) P.

Lemma emit_spec fuel : forall P ready degree, emitting P ready degree -> (size es < fuel + length P)%nat ->
  exists P' degree', emit fuel es children ready degree (txs_of P) = Ok (txs_of P') /\ emitting P' [] degree'.
Proof.
  induction fuel as [|fuel IH]; intros P ready degree HE Hf; [pose proof (emitting_length _ _ _ HE); lia|].
  destruct ready as [|[r id] ready]; [by exists P, degree|]. destruct (emit_one P r id ready degree HE) as ([e He] & _ & HE').
  cbn [emit]. rewrite He. change (match children !! id with Some l => l | None => [] end) with (kids children id).
  replace (txs_of P ++ [entry_tx e]) with (txs_of (P ++ [id])) by (unfold txs_of; rewrite omap_app; simpl; by rewrite He).
  destruct (foldl (relax es) (ready, degree) (kids children id)) as [ready' degree']. apply IH; [done|].
  rewrite length_app. simpl. lia.
Qed.

(** The ready set before the loop. *)
Lemma ready_init l : NoDup l.*1 -> forall ready, StronglySorted pays_more ready -> NoDup ready ->
  (forall r k, (r, k) ∈ ready -> k ∉ l.*1) ->
  let ready' := foldl (fun ready '(id, d) => match es !! id with
      | Some e => if d =? 0 then ready_insert (fee_rate e, id) ready else ready | None => ready end) ready l in
  StronglySorted pays_more ready' /\ NoDup ready' /\
  forall r k, (r, k) ∈ ready' <-> (r, k) ∈ ready \/ (k, 0) ∈ l /\ exists e, es !! k = Some e /\ r = fee_rate e.
Proof.
  induction l as [|[id d] l IH]; intros Hnd ready Hs Hn Hfresh; cbn [foldl].
  { split_and!; [done..|]. intros r k. rewrite elem_of_nil. tauto. }
  apply NoDup_cons in Hnd as [Hid Hnd]. set (ready1 := match es !! id with Some _ => _ | None => _ end).
  assert (H1 : StronglySorted pays_more ready1 /\ NoDup ready1 /\ forall r k, (r, k) ∈ ready1 <->
    (r, k) ∈ ready \/ k = id /\ d = 0 /\ exists e, es !! k = Some e /\ r = fee_rate e).
  { unfold ready1. destruct (es !! id) as [e|] eqn:He; [destruct (Z.eqb_spec d 0) as [->|Hd]|].
    - split_and!; [by apply ready_insert_sorted|apply ready_insert_NoDup; [done|]; intros Hin; by apply (Hfresh _ _ Hin); left|].
      intros r k. rewrite elem_of_ready_insert. split.
      + intros [[= -> ->]|?]; [right; eauto|by left].
      + intros [?|(-> & _ & e' & He' & ->)]; [by right|]. left. congruence.
    - split_and!; [done..|]. intros r k. split; [by left|]. intros [?|(_ & ? & _)]; done.
    - split_and!; [done..|]. intros r k. split; [by left|]. intros [?|(-> & _ & e & He' & _)]; [done|congruence]. }
  destruct H1 as (A1 & A2 & A3). destruct (IH Hnd ready1 A1 A2) as (B1 & B2 & B3).
  { intros r k [Hin|(-> & _)]%A3; [|done]. intros Hk. apply (Hfresh r k Hin). by right. }
  split_and!; [done..|]. intros r k. rewrite B3, A3, elem_of_cons. split.
  - intros [[?|(-> & -> & ?)]|[? ?]]; [by left|right; split; [by left|done]|right; split; [by right|done]].
  - intros [?|[[[= -> ->]|?] ?]]; [by left; left|left; right; done|right; done].
Qed.

End loop.

(** ** The template *)

Section template.
Context {C : Crypto} {B : Bincode} {BL : BincodeLaws B} {MO : MapOrder} {ML : MapOrderLaws MO}.

Lemma emitting_init m : pool_ok m ->
  emitting (entries m) [] (foldl (fun ready '(id, d) => match entries m !! id with
      | Some e => if d =? 0 then ready_insert (fee_rate e, id) ready else ready | None => ready end) []
      (map_order (dependency_graph m).1)) (dependency_graph m).1.
Proof.
  intros Hm. destruct (dependency_graph_spec m Hm) as (G1 & G2 & _).
  assert (Hopen : forall e, open_parents (entries m) [] e = zlen (pool_parents (entries m) e)).
  { intros e. unfold open_parents. f_equal.
    induction (pool_parents (entries m) e) as [|p l IH]; [done|]. cbn [List.filter].
    rewrite bool_decide_false by apply not_elem_of_nil. cbn [negb]. by rewrite IH. }
  destruct (ready_init (entries m) (map_order (dependency_graph m).1)) with (ready := @nil (Z * bytes)) as (R1 & R2 & R3).
  { rewrite map_order_perm. apply NoDup_fst_map_to_list. }
  { constructor. }
  { constructor. }
  { by intros r k ?%elem_of_nil. }
  split; [constructor|by intros k ?%elem_of_nil|by intros k e ?%elem_of_nil|by intros [|? ?] k P2 e|].
  split; [| |done..].
  - intros k e He. rewrite Hopen. change (occ k []) with 0. rewrite Z.sub_0_r. by apply G1.
  - intros r k. rewrite R3, elem_of_nil, map_order_perm, elem_of_map_to_list. change (occ k []) with 0. split.
    + intros [[]|(Hd & e & He & ->)]. exists e. split_and!; [done..|apply not_elem_of_nil|].
      rewrite Hopen. rewrite (G1 k e He) in Hd. injection Hd as ->. done.
    + intros (e & He & -> & _ & Hz). right. split; [|eauto]. rewrite (G1 k e He). f_equal. rewrite Hopen in Hz. lia.
Qed.

Lemma txs_of_lookup (es : gmap bytes MempoolEntry) P i : (forall k, k ∈ P -> is_Some (es !! k)) ->
  txs_of es P !! i = (P !! i) ≫= fun k => entry_tx <$> es !! k.
Proof.
  revert i; induction P as [|k P IH]; intros i HP; [done|]. destruct (HP k) as [e He]; [left|].
  unfold txs_of. cbn [omap list_omap]. rewrite He. destruct i as [|i]; simpl; [by rewrite He|].
  apply IH. intros k' Hk'. apply HP. by right.
Qed.

Lemma txs_of_length (es : gmap bytes MempoolEntry) P : (forall k, k ∈ P -> is_Some (es !! k)) -> length (txs_of es P) = length P.
Proof.
  induction P as [|k P IH]; intros HP; [done|]. destruct (HP k) as [e He]; [left|].
  unfold txs_of. cbn [omap list_omap]. rewrite He. simpl. f_equal. apply IH. intros k' Hk'. apply HP. by right.
Qed.

(** The ids of the emitted transactions. *)
Lemma txs_of_ids m P : pool_ok m -> (forall k, k ∈ P -> is_Some (entries m !! k)) -> map txid (txs_of (entries m) P) = P.
Proof.
  intros Hm. induction P as [|k P IH]; intros HP; [done|]. destruct (HP k) as [e He]; [left|].
  unfold txs_of. cbn [omap list_omap]. rewrite He. simpl. destruct (po_entry _ Hm k e He) as [<- _]. f_equal.
  apply IH. intros k' Hk'. apply HP. by right.
Qed.

Lemma filter_split {A} (f : A -> bool) l : l ≡ₚ List.filter f l ++ List.filter (fun x => negb (f x)) l.
Proof.
  induction l as [|x l IH]; [done|]. simpl. destruct (f x); simpl; [by constructor|].
  rewrite <- Permutation_middle. by constructor.
Qed.

(** The entries of [P], and the others. *)
Lemma emitted_entries m P : pool_ok m -> NoDup P -> (forall k, k ∈ P -> is_Some (entries m !! k)) ->
  map (fun e => entry_tx e.2) (List.filter (fun e => bool_decide (e.1 ∈ P)) (map_order (entries m))) ≡ₚ txs_of (entries m) P.
Proof.
  intros Hm HP Hin. set (es := entries m) in *.
  assert (Hp : List.filter (fun e => bool_decide (e.1 ∈ P)) (map_order es) ≡ₚ omap (fun k => (k,.) <$> es !! k) P).
  { apply NoDup_Permutation.
    - apply NoDup_ListNoDup, List.NoDup_filter, NoDup_ListNoDup. rewrite map_order_perm. apply NoDup_map_to_list.
    - clear Hin. induction HP as [|k P Hk HP IH]; [constructor|]. cbn [omap list_omap]. destruct (es !! k) as [e|] eqn:E; simpl; [|done].
      constructor; [|done]. intros (k' & Hk' & Hx)%list_elem_of_omap. destruct (es !! k') eqn:E'; [|done].
      simpl in Hx. congruence.
    - intros [k e]. rewrite list_elem_of_In, filter_In, <- list_elem_of_In, bool_decide_eq_true, map_order_perm,
        elem_of_map_to_list, list_elem_of_omap. simpl. split.
      + intros [He Hk]. exists k. by rewrite He.
      + intros (k' & Hk' & Hx). destruct (es !! k') eqn:E'; [|done]. simpl in Hx. injection Hx as <- <-. done. }
  rewrite Hp. apply reflexive_eq. unfold txs_of. clear Hp. induction P as [|k P IH]; [done|].
  destruct (Hin k) as [e He]; [left|]. cbn [omap list_omap]. rewrite He. simpl. f_equal.
  apply NoDup_cons in HP as [_ HP]. apply IH; [done|]. intros k' Hk'. apply Hin. by right.
Qed.

(** [get_transactions] emits [P] and then what is left. *)
Lemma get_transactions_spec m : pool_ok m -> exists P rest,
  get_transactions m = Ok (txs_of (entries m) P ++ rest) /\
  txs_of (entries m) P ++ rest ≡ₚ map (fun e => entry_tx e.2) (map_to_list (entries m)) /\
  (length P = size (entries m) -> rest = []) /\
  exists degree, emitting (entries m) P [] degree.
Proof.
  intros Hm. destruct (dependency_graph_spec m Hm) as (_ & _ & G3). pose proof (emitting_init m Hm) as H0.
  unfold get_transactions. destruct (dependency_graph m) as [degree children]. cbn [fst snd] in *.
  destruct (emit_spec (entries m) children G3 (S (size (entries m))) [] _ degree H0) as (P & degree' & E1 & E2); [simpl; lia|].
  change (txs_of (entries m) []) with (@nil Transaction) in E1. cbv zeta. rewrite E1. cbn [rbind].
  pose proof E2 as [F1 F2 F3 F4 F5]. rewrite txs_of_length, txs_of_ids by done.
  assert (Hsplit : map (fun e => entry_tx e.2) (map_to_list (entries m)) ≡ₚ txs_of (entries m) P ++
    map entry_tx (List.filter (fun e => negb (bool_decide (txid (entry_tx e) ∈ (list_to_set P : gset bytes))))
      (map snd (map_order (entries m))))).
  { rewrite <- (emitted_entries m P) by done. rewrite <- (map_order_perm (entries m)).
    rewrite (filter_split (fun e => bool_decide (e.1 ∈ P)) (map_order (entries m))) at 1. rewrite map_app. f_equiv.
    apply reflexive_eq. assert (Hk : forall e, e ∈ map_order (entries m) -> e.1 = txid (entry_tx e.2)).
    { intros [k e] Hin. rewrite map_order_perm in Hin. apply elem_of_map_to_list in Hin. by destruct (po_entry _ Hm k e Hin). }
    induction (map_order (entries m)) as [|[k e] l IH]; [done|]. pose proof (Hk (k, e) ltac:(left)) as Hke.
    simpl in *. rewrite <- Hke.
    rewrite (bool_decide_ext (k ∈ (list_to_set P : gset bytes)) (k ∈ P)) by apply elem_of_list_to_set.
    destruct (bool_decide (k ∈ P)); simpl; [|f_equal]; apply IH; intros; apply Hk; by right. }
  destruct (length P <? size (entries m))%nat eqn:El.
  - apply Nat.ltb_lt in El. eexists P, _. split; [done|]. split_and!; [|lia|by exists degree'].
    rewrite Hsplit. f_equiv. apply Permutation_map, merge_sort_Permutation.
  - apply Nat.ltb_ge in El. exists P, []. rewrite app_nil_r. split_and!; [done| |done|by exists degree'].
    rewrite Hsplit. symmetry. rewrite <- (app_nil_r (txs_of (entries m) P)) at 2. f_equiv.
    apply Permutation_length in Hsplit. rewrite length_map, length_app, txs_of_length in Hsplit by done.
    rewrite length_map_to_list in Hsplit.
    destruct (map entry_tx _); [done|]. simpl in Hsplit. lia.
Qed.

(** No entry depends on itself through others: a cycle would be a set of transaction ids
    that commit to each other. *)
Definition acyclic (m : Mempool) : Prop :=
  exists rank : bytes -> nat, forall t e k, entries m !! t = Some e -> k ∈ spends (entry_tx e) ->
    is_Some (entries m !! k.1) -> (rank k.1 < rank t)%nat.

(** Without cycles the loop emits everything. *)
Lemma acyclic_emits m P degree : acyclic m -> emitting (entries m) P [] degree ->
  forall k, is_Some (entries m !! k) -> k ∈ P.
Proof.
  intros [rank Hrank] HE. enough (Hn : forall n k, (rank k < n)%nat -> is_Some (entries m !! k) -> k ∈ P).
  { intros k. apply (Hn (S (rank k))). lia. }
  induction n as [|n IH]; intros k Hk [e He]; [lia|]. destruct (decide (k ∈ P)) as [|HkP]; [done|].
  assert ((fee_rate e, k) ∈ []) as Hx%elem_of_nil; [|done]. apply (rx_ready _ _ _ _ _ _ (em_state _ _ _ _ HE)).
  exists e. rewrite app_nil_r. split_and!; [done..|]. change (occ k []) with 0. rewrite Z.sub_0_r.
  apply open_parents_zero. intros p [Hp (i & Hi)]%elem_of_pool_parents. apply IH; [|done].
  specialize (Hrank k e (p, i) He Hi Hp). simpl in Hrank. lia.
Qed.

Lemma emits_all_length m P degree : emitting (entries m) P [] degree ->
  (forall k, is_Some (entries m !! k) -> k ∈ P) -> length P = size (entries m).
Proof.
  intros HE Hall. pose proof (emitting_length _ _ _ _ HE). apply Nat.le_antisymm; [done|].
  rewrite <- size_dom, <- (size_list_to_set (C:=gset bytes) P) by apply HE.
  apply subseteq_size. intros k Hk%elem_of_dom. by apply elem_of_list_to_set, Hall.
Qed.

(** [Mempool::get_transactions], which a staker fills its blocks from, always returns
    and lists every entry exactly once.  When no entry depends on itself, every
    transaction comes after the pool transactions it spends from; and at each position
    stands the best-paying of the transactions whose parents are already listed. *)
Theorem template_order (m : Mempool) : pool_ok m ->
  exists txs, get_transactions m = Ok txs /\
    txs ≡ₚ map (fun e => entry_tx e.2) (map_to_list (entries m)) /\
    (acyclic m ->
     (forall i j p tx, txs !! i = Some p -> txs !! j = Some tx -> txid p ∈ map prev_txid (inputs tx) -> (i < j)%nat) /\
     (forall i j a b, (i <= j)%nat -> txs !! i = Some a -> txs !! j = Some b ->
        (forall p, p ∈ map prev_txid (inputs b) -> is_Some (entries m !! p) -> p ∈ map txid (take i txs)) ->
        exists ea eb, entries m !! txid a = Some ea /\ entries m !! txid b = Some eb /\ fee_rate eb <= fee_rate ea)).
Proof.
  intros Hm. destruct (get_transactions_spec m Hm) as (P & rest & E1 & E2 & E3 & degree & HE).
  eexists. split; [exact E1|]. split; [exact E2|]. intros Hac.
  pose proof (acyclic_emits m P degree Hac HE) as Hall. rewrite E3 by by eapply emits_all_length. rewrite app_nil_r.
  pose proof (em_in _ _ _ _ HE) as Hin. pose proof (em_nodup _ _ _ _ HE) as Hnd.
  assert (Hat : forall i tx, txs_of (entries m) P !! i = Some tx ->
    exists e, P !! i = Some (txid tx) /\ entries m !! txid tx = Some e /\ entry_tx e = tx).
  { intros i tx. rewrite txs_of_lookup by done. destruct (P !! i) as [k|] eqn:Ek; [|done]. simpl.
    destruct (entries m !! k) as [e|] eqn:He; [|done]. intros [= <-]. exists e. destruct (po_entry _ Hm k e He) as [<- _]. done. }
  assert (Hpre : forall i k, P !! i = Some k -> P = take i P ++ k :: drop (S i) P).
  { intros i k Hk. by rewrite <- (take_drop i P) at 1; rewrite (drop_S _ k). }
  split.
  - intros i j p tx (ep & Pi & Hp & _)%Hat (e & Pj & He & Htx)%Hat Hpar.
    destruct (em_order _ _ _ _ HE _ _ _ e (Hpre j _ Pj) He) as [Hz _].
    assert (txid p ∈ take j P) as (i' & Hi')%list_elem_of_lookup.
    { eapply open_parents_zero; [exact Hz|]. apply elem_of_pool_parents. split; [by eexists|].
      rewrite Htx. apply list_elem_of_fmap in Hpar as (inp & -> & Hinp). exists (prev_vout inp).
      apply (list_elem_of_fmap_2 input_key), Hinp. }
    apply lookup_take_Some in Hi' as [Hi' Hlt]. rewrite (NoDup_lookup _ _ _ _ Hnd Pi Hi'). done.
  - intros i j a b Hij (ea & Pi & Ha & _)%Hat (eb & Pj & Hb & Hbt)%Hat Hpar. exists ea, eb. split_and!; [done..|].
    apply (proj2 (em_order _ _ _ _ HE _ _ _ ea (Hpre i _ Pi) Ha) (txid b)); [done| |].
    + intros (i' & [Hi' Hlt]%lookup_take_Some)%list_elem_of_lookup. pose proof (NoDup_lookup _ _ _ _ Hnd Pj Hi'). lia.
    + apply open_parents_zero. intros p [Hp (n & Hn)]%elem_of_pool_parents. rewrite Hbt in Hn.
      assert (p ∈ map txid (take i (txs_of (entries m) P))) as Hx.
      { apply Hpar; [|done]. apply list_elem_of_fmap in Hn as (inp & [= -> ->] & Hinp). by apply (list_elem_of_fmap_2 prev_txid). }
      rewrite <- (txs_of_ids m P Hm Hin). change (p ∈ take i (txid <$> txs_of (entries m) P)). by rewrite fmap_take in *.
Qed.

(** ** Fee estimates *)

Lemma rates_sorted m : StronglySorted Z.le (rates m).
Proof. apply Sorted_StronglySorted; [intros x y z; lia|]. apply Sorted_merge_sort. intros x y. lia. Qed.

Lemma sorted_lookup l i j x y : StronglySorted Z.le l -> (i <= j)%nat -> l !! i = Some x -> l !! j = Some y -> x <= y.
Proof.
  intros Hs. revert i j; induction Hs as [|z l Hs IH Hz]; intros [|i] [|j] Hij; simpl; try done || lia.
  - intros [= <-] [= <-]. lia.
  - intros [= <-] Hy. rewrite Forall_forall in Hz. by apply Hz; eapply list_elem_of_lookup_2.
  - apply IH. lia.
Qed.

(** The rate at a percentile. *)
Lemma rate_at_spec m pct : 0 <= pct <= 100 -> exists r, rate_at m pct = Ok r /\ min_fee_rate m <= r /\
  forall pct' r', 0 <= pct' <= pct -> rate_at m pct' = Ok r' -> r' <= r.
Proof.
  intros Hp. pose proof (rates_sorted m) as Hs. unfold rate_at.
  destruct (rates m) as [|x0 l0] eqn:El. { exists (min_fee_rate m). split_and!; [done|lia|]. intros ? ? ? [= <-]. lia. }
  rewrite <- El in *. set (l := rates m) in *. assert (0 < zlen l) as Hl by (rewrite El, zlen_cons; pose proof (zlen_nonneg l0); lia).
  assert (Hget : forall q, 0 <= q -> exists x, vec_get (E:=NodeError) l (Z.min (zlen l * q / 100) (zlen l - 1)) = Ok x /\
    l !! Z.to_nat (Z.min (zlen l * q / 100) (zlen l - 1)) = Some x).
  { intros q Hq. assert (0 <= zlen l * q / 100) by (apply Z.div_pos; nia).
    destruct (lookup_lt_is_Some_2 l (Z.to_nat (Z.min (zlen l * q / 100) (zlen l - 1)))) as [x Hx]; [unfold zlen in *; lia|].
    exists x. split; [|done]. unfold vec_get, vec_at. rewrite (proj2 (Z.leb_le _ _)), Hx by lia. done. }
  destruct (Hget pct) as (x & Hx & Ex); [lia|]. rewrite Hx. simpl. eexists. split_and!; [done|lia|].
  intros pct' r' Hp'. destruct (Hget pct') as (y & Hy & Ey); [lia|]. rewrite Hy. simpl. intros [= <-].
  assert (y <= x); [|lia]. eapply (sorted_lookup l); [done| |exact Ey|exact Ex].
  apply Z2Nat.inj_le; [| |apply Z.min_le_compat_r, Z.div_le_mono; nia]; apply Z.min_glb; try lia; apply Z.div_pos; nia.
Qed.

(** [Mempool::fee_estimates] always returns, one estimate for each of the targets of
    1, 2, 3 and 6 blocks; a faster target is never cheaper, and no estimate is below the
    minimum the pool accepts. *)
Theorem fee_estimates_monotone (m : Mempool) :
  exists r1 r2 r3 r6, fee_estimates m = Ok [(1, r1); (2, r2); (3, r3); (6, r6)] /\
    min_fee_rate m <= r6 /\ r6 <= r3 /\ r3 <= r2 /\ r2 <= r1.
Proof.
  destruct (rate_at_spec m 90) as (r1 & E1 & B1 & M1); [lia|]. destruct (rate_at_spec m 75) as (r2 & E2 & B2 & M2); [lia|].
  destruct (rate_at_spec m 50) as (r3 & E3 & B3 & M3); [lia|]. destruct (rate_at_spec m 25) as (r6 & E6 & B6 & M6); [lia|].
  pose proof (M1 75 r2 ltac:(lia) E2). pose proof (M2 50 r3 ltac:(lia) E3). pose proof (M3 25 r6 ltac:(lia) E6).
  exists r1, r2, r3, r6. split; [|lia]. unfold fee_estimates. rewrite E1, E2, E3, E6. simpl.
  rewrite !(proj2 (Z.ltb_ge _ _)) by lia. done.
Qed.

End template.

(** ** Witnesses *)

Module PoolWitness.
#[local] Existing Instance bincode_layout.
#[local] Existing Instance bincode_layout_laws.
#[local] Existing Instance any_order.
#[local] Existing Instance any_order_laws.

#[local] Instance snap1 : Snapshot := fun _ => 0.

(** A transaction that spends output 0 of [parent]. *)
Definition spend (parent : bytes) (values : list Z) (seq : Z) : Transaction :=
  mkTx 1 Block.Standard [mkTxInput parent 0 [] seq] (map (fun v => mkTxOutput v [0x51]) values) 0 None None.

Definition coin : bytes := repeat 1 32.
Definition tx1 : Transaction := spend coin [90000] 0xFFFFFFFD.
Definition tx2 : Transaction := spend (txid tx1) [50000] 0xFFFFFFFF.
Definition tx3 : Transaction := spend coin [30000; 40000] 0xFFFFFFFD.

(** [tx1], its child [tx2] with a higher fee rate, and [tx3], which replaces both. *)
Definition m0 : Mempool := with_byte_limit 10 1000.
Definition m1 : Mempool := (add_transaction_with_fee 5 tx1 10000 m0).1.
Definition m2 : Mempool := (add_transaction_with_fee 6 tx2 40000 m1).1.

Lemma typed_spend parent values seq : Forall (fun v => 0 <= v) values -> typed_tx (spend parent values seq).
Proof. intros Hv. split; [by apply Forall_map|]. repeat constructor. Qed.

Lemma reaches1 : pool_reaches 10 1000 m1.
Proof.
  split_and!; [done..|]. eapply rtc_l; [|apply rtc_refl]. apply step_add; [|done]. apply typed_spend. by repeat constructor.
Qed.

Lemma reaches2 : pool_reaches 10 1000 m2.
Proof.
  destruct reaches1 as (H1 & H2 & Hr). split_and!; [done..|]. eapply rtc_r; [exact Hr|]. apply step_add; [|done].
  apply typed_spend. by repeat constructor.
Qed.

(** The pool holds two entries within its limits. *)
Lemma pool_invariant_witness : pool_size m2 = 2 /\ pool_size m2 <= 10 /\ pool_bytes m2 <= 1000.
Proof.
  destruct (pool_invariant 10 1000 m2 reaches2) as (_ & _ & _ & _ & H5 & _ & H7 & _). split_and!; [by vm_compute|done..].
Defined.

(** [tx3] replaces [tx1]; its child goes with it. *)
Lemma add_transaction_sound_witness :
  exists m', add_transaction_with_fee 7 tx3 30000 m2 = (m', Ok tt) /\ added 7 tx3 30000 m2 m' /\ pool_size m' = 1.
Proof.
  assert (typed_tx tx3) as Hty by (apply typed_spend; by repeat constructor).
  pose proof (add_transaction_sound 10 1000 m2 7 tx3 30000 reaches2 Hty ltac:(done)) as Ha.
  assert (is_ok (add_transaction_with_fee 7 tx3 30000 m2).2 = true) as Hok by by vm_compute.
  assert (pool_size (add_transaction_with_fee 7 tx3 30000 m2).1 = 1) as Hs by by vm_compute.
  assert (bool_decide (is_Some (entries m2 !! txid tx3)) = false) as Hn by by vm_compute.
  rewrite Hn in Ha. revert Ha Hok Hs. generalize (add_transaction_with_fee 7 tx3 30000 m2).
  intros [m' [[]|e|]] Ha Hok Hs; [|discriminate Hok|destruct Ha]. exists m'. exact (conj eq_refl (conj Ha Hs)).
Defined.

(** A chain with the output [tx1] spends. *)
Definition c1 : Chain :=
  set_ledger (set_utxos {[ ((coin, 0) : OutPoint) := mkUtxo coin 0 100000 [0x51] 0 0 ]} (state (main empty_chain)))
    (mkTree []) empty_chain.

(** The child, whose parent is not confirmed, goes; [tx1] stays. *)
Lemma pool_valid_after_reorg_witness : exists m', handle_reorg 8 c1 [] m2 = (m', Ok tt) /\ pool_size m' = 1 /\
  forall t e, entries m' !! t = Some e -> valid_on c1 e.
Proof.
  assert (chain_scripts c1) as Hc.
  { intros k u Hu. change (({[ ((coin, 0) : OutPoint) := mkUtxo coin 0 100000 [0x51] 0 0 ]} : gmap OutPoint Utxo) !! k = Some u) in Hu.
    apply lookup_singleton_Some in Hu as [_ <-]. by repeat constructor. }
  destruct (pool_valid_after_reorg 10 1000 m2 8 c1 [] reaches2 Hc ltac:(constructor)) as (m' & Hm' & Hv).
  assert (pool_size (handle_reorg 8 c1 [] m2).1 = 1) as Hs by by vm_compute.
  rewrite Hm' in Hs. exists m'. exact (conj Hm' (conj Hs Hv)).
Defined.

(** The parent comes first although the child pays more. *)
Lemma template_order_witness : get_transactions m2 = Ok [tx1; tx2] /\
  exists txs, get_transactions m2 = Ok txs /\ forall i j p tx, txs !! i = Some p -> txs !! j = Some tx ->
    txid p ∈ map prev_txid (inputs tx) -> (i < j)%nat.
Proof.
  destruct (reachable_ok 10 1000 m2 reaches2) as [Hm _].
  assert (acyclic m2) as Hac.
  { exists (fun t => if bool_decide (t = txid tx1) then 0%nat else 1%nat).
    assert (Hall : Forall (fun '(t, e) => Forall (fun k => is_Some (entries m2 !! k.1) ->
      ((if bool_decide (k.1 = txid tx1) then 0%nat else 1%nat) < (if bool_decide (t = txid tx1) then 0%nat else 1%nat))%nat)
        (spends (entry_tx e))) (map_to_list (entries m2))) by by vm_compute; repeat constructor; intros [? ?].
    intros t e k He Hk. rewrite Forall_forall in Hall. specialize (Hall (t, e) ltac:(by apply elem_of_map_to_list)).
    rewrite Forall_forall in Hall. by apply Hall. }
  destruct (template_order m2 Hm) as (txs & H1 & _ & H3). destruct (H3 Hac) as [Hord _]. clear H3.
  split; [by vm_compute|]. exists txs. exact (conj H1 Hord).
Defined.

(** a replacement that is refused because of its size has already evicted what it
    was to replace: the pool rejects [tx3], and [tx1] is gone. *)
Example failed_replacement_evicts :
  let pool := (add_transaction_with_fee 5 tx1 10000 (with_byte_limit 10 100)).1 in
  pool_size pool = 1 /\
  add_transaction_with_fee 6 tx3 30000 pool =
    ((add_transaction_with_fee 6 tx3 30000 pool).1, Err (PolicyRejected "Transaction size exceeds the mempool byte budget")) /\
  pool_size (add_transaction_with_fee 6 tx3 30000 pool).1 = 0.
Proof. by vm_compute. Qed.

End PoolWitness.
