(* ===== verification/Wire.v ===== *)
(** * Wire format

    Models [vtorrent-p2p/src/message.rs] and [vtorrent-p2p/src/codec.rs]: the messages of the
    network protocol, the choice between the two payload encodings (the packages behind them
    are parameters), and the framing of messages on a byte stream.  The theorem at the end
    says that a stream of frames is taken apart again however it arrives. *)

From stdpp Require Import base list strings.
From Stdlib Require Import ZArith Lia.
From S2P Require Import Prelude Crypto Codec Consensus.

(** ** [vtorrent-p2p/src/error.rs] *)

Inductive P2pError : Type :=
  | Io | ConnectionRefused (peer : string) | Transport (message : string) | Protocol (message : string)
  | Decode | Disconnected | TooManyPeers (max : Z) | Banned (peer : string).

(** ** [vtorrent-p2p/src/message.rs] *)

Definition NETWORK_MAGIC : bytes := [0x56; 0x54; 0x52; 0x58].
Definition TESTNET_NETWORK_MAGIC : bytes := [0x56; 0x54; 0x52; 0x54].
Definition MAX_PAYLOAD_SIZE : Z := 4 * 1024 * 1024.
Definition PROTOCOL_VERSION : Z := 3.
Definition LEGACY_PROTOCOL_VERSION : Z := 70001.

Record NetMessage : Type := mkMessage { command : bytes; payload : bytes }.

(** [NetMessage::new]: the command is cut or padded to twelve bytes. *)
Definition message (cmd payload : bytes) : NetMessage :=
  mkMessage (take 12 cmd ++ replicate (12 - length (take 12 cmd)) 0) payload.

(** [std::str::from_utf8]. *)
Definition cont (b : Z) : bool := (0x80 <=? b) && (b <=? 0xBF).
Definition within (lo hi b : Z) : bool := (lo <=? b) && (b <=? hi).
Fixpoint utf8_valid (fuel : nat) (l : bytes) : bool :=
  match fuel with
  | O => true
  | S fuel =>
      match l with
      | [] => true
      | a :: l =>
          if within 0 0x7F a then utf8_valid fuel l
          else if within 0xC2 0xDF a then
            match l with b :: l => cont b && utf8_valid fuel l | _ => false end
          else if within 0xE0 0xEF a then
            match l with
            | b :: c :: l =>
                (if a =? 0xE0 then within 0xA0 0xBF b else if a =? 0xED then within 0x80 0x9F b else cont b) &&
                cont c && utf8_valid fuel l
            | _ => false
            end
          else if within 0xF0 0xF4 a then
            match l with
            | b :: c :: d :: l =>
                (if a =? 0xF0 then within 0x90 0xBF b else if a =? 0xF4 then within 0x80 0x8F b else cont b) &&
                cont c && cont d && utf8_valid fuel l
            | _ => false
            end
          else false
      end
  end.

(** The bytes before the first zero. *)
Fixpoint until_zero (l : bytes) : bytes :=
  match l with
  | [] => []
  | b :: l => if b =? 0 then [] else b :: until_zero l
  end.

(** [NetMessage::command_str]. *)
Definition command_str (m : NetMessage) : bytes :=
  let cmd := until_zero (command m) in
  if utf8_valid (length cmd) cmd then cmd else str "unknown".

Inductive InvType : Type := InvError | InvTransaction | InvBlock | InvFilteredBlock | InvClaimTransaction | InvAtomicSwap.
#[export] Instance InvType_eq_dec : EqDecision InvType.
Proof. solve_decision. Defined.

Record InvItem : Type := mkInv { inv_type : InvType; inv_hash : bytes }.
#[export] Instance InvItem_eq_dec : EqDecision InvItem.
Proof. solve_decision. Defined.

Record InvMsg : Type := mkInvMsg { inv_items : list InvItem }.
Record GetDataMsg : Type := mkGetData { gd_items : list InvItem }.
Record GetBlocksMsg : Type := mkGetBlocks { gb_version : Z; gb_locator : list bytes; gb_hash_stop : bytes }.
Record PingMsg : Type := mkPing { ping_nonce : Z }.
Record SendCmpctMsg : Type := mkSendCmpct { sc_high_bandwidth : bool; sc_version : Z }.
Record PrefilledTx : Type := mkPrefilled { pf_index : Z; pf_tx_bytes : bytes }.
Record CmpctBlockMsg : Type := mkCmpct {
  cb_version : Z;
  cb_prev_block_hash : bytes;
  cb_merkle_root : bytes;
  cb_utxo_root : bytes;
  cb_timestamp : Z;
  cb_bits : Z;
  cb_nonce : Z;
  cb_stake_modifier : Z;
  cb_siphash_nonce : Z;
  cb_short_ids : list Z;
  cb_prefilled_txs : list PrefilledTx;
}.
Record GetBlockTxnMsg : Type := mkGetBlockTxn { gt_block_hash : bytes; gt_indexes : list Z }.
Record BlockTxnMsg : Type := mkBlockTxn { bt_block_hash : bytes; bt_transactions : list bytes }.
Record FeeFilterMsg : Type := mkFeeFilter { ff_feerate : Z }.
Record GetHeadersMsg : Type := mkGetHeaders { gh_version : Z; gh_locator : list bytes; gh_hash_stop : bytes }.
Record HeaderEntry : Type := mkHeaderEntry { he_header : bytes; he_tx_count : Z }.
Record HeadersMsg : Type := mkHeaders { hm_headers : list HeaderEntry }.
Record GetProofMsg : Type := mkGetProof { gp_block_hash : bytes }.

(** [is_v2_peer]. *)
Definition is_v2_peer (version : Z) : bool := (2 <=? version) && negb (version =? LEGACY_PROTOCOL_VERSION).

Section payload.
Context {A : Type} {B : BincodeOf A} {J : Json A}.

(** [encode_v2], [decode_v2]. *)
Definition encode_v2 (msg : A) : res P2pError bytes := ok_or (bin_ser msg) Decode.
Definition decode_v2 (b : bytes) : res P2pError A := ok_or (bin_de MAX_PAYLOAD_SIZE b) Decode.

(** [encode_for_peer]: nothing is sent for a value that cannot be written. *)
Definition encode_for_peer (msg : A) (peer_version : Z) : bytes :=
  if is_v2_peer peer_version then match encode_v2 msg with Ok v => v | _ => [] end
  else match to_vec msg with Some v => v | None => [] end.

(** [decode_for_peer]. *)
Definition decode_for_peer (b : bytes) (peer_version : Z) : res P2pError A :=
  if is_v2_peer peer_version then
    match decode_v2 b with
    | Ok v => Ok v
    | _ => ok_or (from_slice b) Decode
    end
  else ok_or (from_slice b) Decode.

Context {BL : BincodeOfLaws A B} {JL : JsonLaws A J}.

Lemma peer_round_trip msg version :
  (forall v, bin_ser msg = Some v -> zlen v <= MAX_PAYLOAD_SIZE) -> is_Some (bin_ser msg) ->
  decode_for_peer (encode_for_peer msg version) version = Ok msg.
Proof.
  intros Hlen [v Hv]. unfold decode_for_peer, encode_for_peer, decode_v2, encode_v2. destruct (is_v2_peer version).
  - rewrite Hv. cbn. pose proof (bin_round_trip msg MAX_PAYLOAD_SIZE v [] Hv (Hlen v Hv)) as E.
    rewrite app_nil_r in E. by rewrite E.
  - destruct (json_round_trip msg) as (w & -> & Hw). by rewrite Hw.
Qed.
End payload.

(** ** [vtorrent-p2p/src/codec.rs] *)

Definition HEADER_SIZE : Z := 24.

Section codec.
Context {C : Crypto}.

Definition message_checksum (payload : bytes) : bytes := take 4 (sha256 (sha256 payload)).

(** [VtrCodec::decode] on the bytes received so far: what is left of them, and a message if
    there is one. *)
Definition decode (magic : bytes) : st bytes P2pError (option NetMessage) := fun src =>
  if zlen src <? HEADER_SIZE then (src, Ok None) else
  if negb (bytes_eqb (slice 0 4 src) magic) then (src, Err (Protocol "Invalid magic")) else
  let payload_len := from_le (slice 16 20 src) in
  if MAX_PAYLOAD_SIZE <? payload_len then (src, Err (Protocol "Payload too large")) else
  if zlen src <? HEADER_SIZE + payload_len then (src, Ok None) else
  let command := slice 4 16 src in
  let expected_checksum := slice 20 24 src in
  let src := drop (Z.to_nat HEADER_SIZE) src in
  let payload := take (Z.to_nat payload_len) src in
  let src := drop (Z.to_nat payload_len) src in
  if negb (bytes_eqb (message_checksum payload) expected_checksum) then (src, Err (Protocol "Checksum mismatch")) else
  (src, Ok (Some (mkMessage command payload))).

(** [VtrCodec::encode]: what is appended to the output. *)
Definition encode (magic : bytes) (msg : NetMessage) : bytes :=
  magic ++ command msg ++ le32 (as_u32 (zlen (payload msg))) ++ message_checksum (payload msg) ++ payload msg.

Context {CL : CryptoLaws C}.

Lemma length_checksum p : length (message_checksum p) = 4%nat.
Proof. unfold message_checksum. by rewrite length_take, sha256_len. Qed.

(** A message that fits the frame. *)
Definition fits (magic : bytes) (m : NetMessage) : Prop :=
  length magic = 4%nat /\ length (command m) = 12%nat /\ zlen (payload m) <= MAX_PAYLOAD_SIZE.

Lemma zlen_encode magic m : fits magic m -> zlen (encode magic m) = HEADER_SIZE + zlen (payload m).
Proof.
  intros (H1 & H2 & _). unfold encode. rewrite !zlen_app. unfold zlen. rewrite H1, H2, length_checksum.
  unfold le32. rewrite length_to_le. unfold HEADER_SIZE. lia.
Qed.

(** The fields of a frame, found in a buffer that starts with its first 24 bytes. *)
Lemma frame_fields magic m rest : fits magic m ->
  let src := encode magic m ++ rest in
  slice 0 4 src = magic /\ slice 4 16 src = command m /\ from_le (slice 16 20 src) = zlen (payload m) /\
  slice 20 24 src = message_checksum (payload m) /\ drop 24 src = payload m ++ rest.
Proof.
  intros (H1 & H2 & H3). cbv zeta. unfold encode.
  assert (0 <= zlen (payload m) <= u32_max) as Hr by (pose proof (zlen_nonneg (payload m)); unfold MAX_PAYLOAD_SIZE, u32_max in *; lia).
  rewrite Z_as_u32 by done. set (p := payload m) in *. set (k := message_checksum p).
  assert (zlen magic = 4) as Z1 by (unfold zlen; lia). assert (zlen (command m) = 12) as Z2 by (unfold zlen; lia).
  assert (zlen (le32 (zlen p)) = 4) as Z3 by apply zlen_to_le. assert (zlen k = 4) as Z4 by (unfold zlen, k; by rewrite length_checksum).
  split_and!.
  - rewrite <- !app_assoc. apply (slice_mid [] magic); [done|lia].
  - rewrite <- !app_assoc. apply (slice_mid magic (command m)); lia.
  - rewrite <- !app_assoc, (app_assoc magic). rewrite slice_mid by (rewrite ?zlen_app; lia).
    apply from_le_to_le. unfold u32_max in Hr. simpl. lia.
  - rewrite <- !app_assoc, (app_assoc magic), (app_assoc _ (le32 _)). apply slice_mid; rewrite ?zlen_app; lia.
  - rewrite <- !app_assoc, (app_assoc magic), (app_assoc _ (le32 _)), (app_assoc _ k). apply drop_app_length'.
    unfold zlen in *. rewrite !length_app. lia.
Qed.

Lemma slice_take a b n (l : bytes) : 0 <= a <= b -> b <= Z.of_nat n -> slice a b (take n l) = slice a b l.
Proof.
  intros Ha Hb. unfold slice. rewrite skipn_firstn_comm, take_take. f_equal. lia.
Qed.

(** frames survive the stream. Whatever part of the bytes of a frame and of what follows it
    has arrived, [decode] asks for more and keeps every byte until the frame is complete; then
    it gives back the message that was encoded and leaves exactly the bytes behind it. *)
Theorem stream_decoded magic m rest n : fits magic m ->
  decode magic (take n (encode magic m ++ rest)) =
    if Z.of_nat n <? zlen (encode magic m) then (take n (encode magic m ++ rest), Ok None)
    else (take (n - length (encode magic m)) rest, Ok (Some m)).
Proof.
  intros Hf. pose proof (zlen_encode magic m Hf) as Hlen. destruct (frame_fields magic m rest Hf) as (F1 & F2 & F3 & F4 & F5).
  destruct Hf as (_ & _ & Hmax). pose proof (zlen_nonneg (payload m)) as Hp. pose proof (zlen_nonneg rest) as Hr.
  assert (Hz : zlen (take n (encode magic m ++ rest)) = Z.min (Z.of_nat n) (24 + zlen (payload m) + zlen rest))
    by (rewrite zlen_take, zlen_app, Hlen; unfold HEADER_SIZE; lia).
  unfold decode. rewrite Hz, Hlen. unfold HEADER_SIZE in *.
  destruct (Z.ltb_spec (Z.min (Z.of_nat n) (24 + zlen (payload m) + zlen rest)) 24);
    [by rewrite (proj2 (Z.ltb_lt _ _)) by lia|].
  rewrite !slice_take, F1, F2, F3, F4, bytes_eqb_refl by lia. cbn [negb].
  rewrite (proj2 (Z.ltb_ge _ _) Hmax). destruct (Z.ltb_spec (Z.of_nat n) (24 + zlen (payload m))).
  - by rewrite (proj2 (Z.ltb_lt _ _)) by lia.
  - rewrite (proj2 (Z.ltb_ge _ _)) by lia. change (Z.to_nat 24) with 24%nat. rewrite skipn_firstn_comm, F5.
    unfold zlen in *. rewrite Nat2Z.id, take_take, Nat.min_l, take_app_length by lia.
    rewrite bytes_eqb_refl. cbn [negb]. destruct m as [cmd p]. cbn [command payload] in *. do 2 f_equal.
    rewrite skipn_firstn_comm, drop_app_length. f_equal. lia.
Qed.
End codec.

(** Two messages, of which the second has arrived in part. *)
Lemma stream_decoded_witness :
  exists m, fits NETWORK_MAGIC m /\
    decode NETWORK_MAGIC (take 30 (encode NETWORK_MAGIC m ++ encode NETWORK_MAGIC m)) =
      (take 4 (encode NETWORK_MAGIC m), Ok (Some m)).
Proof.
  exists (message (str "ping") [7; 7]).
  assert (fits NETWORK_MAGIC (message (str "ping") [7; 7])) as Hf by (split; [|split]; [reflexivity|reflexivity|apply Z.leb_le; reflexivity]).
  split; [exact Hf|]. exact (stream_decoded NETWORK_MAGIC _ _ 30 Hf).
Defined.
