(* ===== verification/Compact.v ===== *)
(** * Compact blocks

    Models [vtorrent-p2p/src/compact.rs]: the keyed hash behind short transaction ids, the
    encoder with its retries, and the decoder with and without the transactions of a
    [blocktxn] message.  [compact_block_roundtrip] says that a receiver who knows any part of
    the transactions ends up with the block, asking exactly for what it lacks. *)

From stdpp Require Import base list gmap.
From Stdlib Require Import ZArith Lia.
From S2P Require Import Prelude Crypto Codec Consensus Wire.

(** ** SipHash *)

Definition wrapping_add64 (a b : Z) : Z := as_u64 (a + b).
Definition rotate_left64 (x k : Z) : Z := Z.lor (as_u64 (Z.shiftl x k)) (Z.shiftr x (64 - k)).

Record SipHasher : Type := mkSip { v0 : Z; v1 : Z; v2 : Z; v3 : Z }.

Definition sip_new (k0 k1 : Z) : SipHasher :=
  mkSip (Z.lxor k0 0x736f6d6570736575) (Z.lxor k1 0x646f72616e646f6d)
        (Z.lxor k0 0x6c7967656e657261) (Z.lxor k1 0x7465646279746573).

(** [SipHasher::compress]. *)
Definition compress (h : SipHasher) : SipHasher :=
  let '(mkSip v0 v1 v2 v3) := h in
  let v0 := wrapping_add64 v0 v1 in
  let v1 := Z.lxor (rotate_left64 v1 13) v0 in
  let v0 := rotate_left64 v0 32 in
  let v2 := wrapping_add64 v2 v3 in
  let v3 := Z.lxor (rotate_left64 v3 16) v2 in
  let v0 := wrapping_add64 v0 v3 in
  let v3 := Z.lxor (rotate_left64 v3 21) v0 in
  let v2 := wrapping_add64 v2 v1 in
  let v1 := Z.lxor (rotate_left64 v1 17) v2 in
  let v2 := rotate_left64 v2 32 in
  mkSip v0 v1 v2 v3.

(** One 8-byte block. *)
Definition absorb (h : SipHasher) (m : Z) : SipHasher :=
  let h := compress (compress (mkSip (v0 h) (v1 h) (v2 h) (Z.lxor (v3 h) m))) in
  mkSip (Z.lxor (v0 h) m) (v1 h) (v2 h) (v3 h).

Definition sip_finish (h : SipHasher) : Z :=
  let h := compress (compress (compress (compress (mkSip (v0 h) (v1 h) (Z.lxor (v2 h) 0xff) (v3 h))))) in
  Z.lxor (Z.lxor (Z.lxor (v0 h) (v1 h)) (v2 h)) (v3 h).

(** [SipHasher::hash], [SipHasher::hash32]: [as_chunks] leaves a rest out. *)
Definition sip_hash (h : SipHasher) (data : bytes) : Z := sip_finish (absorb h (from_le data)).

Fixpoint words (n : nat) (l : bytes) : list Z :=
  match n with
  | O => []
  | S n => if zlen l <? 8 then [] else from_le (take 8 l) :: words n (drop 8 l)
  end.
Definition hash32 (h : SipHasher) (data : bytes) : Z := sip_finish (foldl absorb h (words (length data) data)).

Section compact.
Context {C : Crypto}.

(** [derive_siphash_keys]. *)
Definition derive_siphash_keys (header_bytes : bytes) (nonce : Z) : Z * Z :=
  let key := sha256 (sha256 (header_bytes ++ le64 nonce)) in
  (from_le (slice 0 8 key), from_le (slice 8 16 key)).

(** [short_txid]. *)
Definition short_txid (txid : bytes) (k0 k1 : Z) : Z := Z.land (hash32 (sip_new k0 k1) txid) 0x0000ffffffffffff.

(** ** Encoding *)

Inductive CompactBlockEncodeError : Type := ShortIdCollision.

(** The 120 bytes that the keys depend on. *)
Definition key_bytes (version : Z) (prev_block_hash merkle_root utxo_root : bytes)
    (timestamp bits nonce stake_modifier : Z) : bytes :=
  le32 version ++ prev_block_hash ++ merkle_root ++ utxo_root ++ le32 timestamp ++ le32 bits ++ le32 nonce ++ le64 stake_modifier.

Definition MAX_SHORTID_RETRIES : nat := 64.

(** The loop that looks for distinct short ids. *)
Fixpoint find_short_ids (retries : nat) (header_bytes : bytes) (txids : list bytes) (siphash_nonce : Z)
    : res CompactBlockEncodeError (Z * list Z) :=
  match retries with
  | O => Err ShortIdCollision
  | S retries =>
      let '(k0, k1) := derive_siphash_keys header_bytes siphash_nonce in
      let ids := map (fun txid => short_txid txid k0 k1) (drop 1 txids) in
      if bool_decide (NoDup ids) then Ok (siphash_nonce, ids)
      else find_short_ids retries header_bytes txids (as_u64 (siphash_nonce + 1))
  end.

(** [CompactBlockEncoder::encode]; [seed] is the random number it starts with. *)
Definition encode_compact (seed : Z) (version : Z) (prev_block_hash merkle_root utxo_root : bytes)
    (timestamp bits nonce stake_modifier : Z) (txids : list bytes) (coinbase_tx_bytes : bytes)
    : res CompactBlockEncodeError CmpctBlockMsg :=
  let header_bytes := key_bytes version prev_block_hash merkle_root utxo_root timestamp bits nonce stake_modifier in
  let* (siphash_nonce, short_ids) := find_short_ids MAX_SHORTID_RETRIES header_bytes txids seed in
  Ok (mkCmpct version prev_block_hash merkle_root utxo_root timestamp bits nonce stake_modifier
        siphash_nonce short_ids [mkPrefilled 0 coinbase_tx_bytes]).

(** ** Decoding *)

Inductive CompactBlockDecodeError : Type :=
  | MissingTransactions (indexes : list Z)
  | TooManyTransactions
  | InvalidPrefilledIndex
  | DuplicateShortId.

Definition total_txs (msg : CmpctBlockMsg) : Z := zlen (cb_prefilled_txs msg) + zlen (cb_short_ids msg).

(** One prefilled transaction; the offset is where the next index counts from. *)
Definition place_one (acc : list (option bytes) * Z) (prefilled : PrefilledTx)
    : res CompactBlockDecodeError (list (option bytes) * Z) :=
  let '(txs, offset) := acc in
  let abs_index := offset + pf_index prefilled in
  match vec_at txs abs_index with
  | Some None => Ok (<[Z.to_nat abs_index := Some (pf_tx_bytes prefilled)]> txs, abs_index + 1)
  | _ => Err InvalidPrefilledIndex
  end.
Definition place_prefilled (msg : CmpctBlockMsg) : res CompactBlockDecodeError (list (option bytes)) :=
  let* (txs, _) := rfold place_one (replicate (Z.to_nat (total_txs msg)) None, 0) (cb_prefilled_txs msg) in Ok txs.

Definition check_short_ids (msg : CmpctBlockMsg) : res CompactBlockDecodeError unit :=
  ensure (bool_decide (NoDup (cb_short_ids msg))) DuplicateShortId.

(** The loop over the slots from index [i]; [find] looks a short id up for an index. *)
Fixpoint fill (find : Z -> Z -> option bytes) (i : Z) (txs : list (option bytes)) (short_ids : list Z)
    : list (option bytes) * list Z :=
  match txs with
  | [] => ([], [])
  | Some t :: txs => let '(txs', missing) := fill find (i + 1) txs short_ids in (Some t :: txs', missing)
  | None :: txs =>
      match short_ids with
      | [] => let '(txs', missing) := fill find (i + 1) txs [] in (None :: txs', missing)
      | sid :: short_ids =>
          let '(txs', missing) := fill find (i + 1) txs short_ids in
          match find sid i with
          | Some t => (Some t :: txs', missing)
          | None => (None :: txs', i mod 65536 :: missing)
          end
      end
  end.

Definition finish (filled : list (option bytes) * list Z) : res CompactBlockDecodeError (list bytes) :=
  match filled.2 with
  | [] => Ok (map (fun t => match t with Some t => t | None => [] end) filled.1)
  | missing => Err (MissingTransactions missing)
  end.

(** [CompactBlockDecoder::decode]. *)
Definition decode_compact (msg : CmpctBlockMsg) (mempool : gmap Z bytes) : res CompactBlockDecodeError (list bytes) :=
  if u16_max <? total_txs msg then Err TooManyTransactions else
  let* txs := place_prefilled msg in
  let* _ := check_short_ids msg in
  finish (fill (fun sid _ => mempool !! sid) 0 txs (cb_short_ids msg)).

(** [CompactBlockDecoder::decode_with_received]. *)
Definition decode_with_received (msg : CmpctBlockMsg) (mempool received : gmap Z bytes)
    : res CompactBlockDecodeError (list bytes) :=
  if u16_max <? total_txs msg then Err TooManyTransactions else
  let* _ := check_short_ids msg in
  let* txs := place_prefilled msg in
  finish (fill (fun sid i => match mempool !! sid with Some t => Some t | None => received !! i end) 0 txs (cb_short_ids msg)).

(** [CompactBlockDecoder::build_getblocktxn], [build_blocktxn]. *)
Definition build_getblocktxn (block_hash : bytes) (missing_indexes : list Z) : GetBlockTxnMsg :=
  mkGetBlockTxn block_hash missing_indexes.
Definition build_blocktxn (block_hash : bytes) (transactions : list bytes) : BlockTxnMsg :=
  mkBlockTxn block_hash transactions.

(** [handle_blocktxn] maps the answer, in the order of the request, back to indexes. *)
Definition positional (requested : list Z) (transactions : list bytes) : gmap Z bytes :=
  foldl (fun received '(pos, t) => match requested !! pos with Some i => <[i := t]> received | None => received end)
    ∅ (imap pair transactions).

(** ** What the loop over the slots finds *)

Fixpoint look (find : Z -> Z -> option bytes) (i : Z) (sids : list Z) : list (option bytes) :=
  match sids with [] => [] | sid :: sids => find sid i :: look find (i + 1) sids end.
Fixpoint lacks (find : Z -> Z -> option bytes) (i : Z) (sids : list Z) : list Z :=
  match sids with
  | [] => []
  | sid :: sids => match find sid i with Some _ => lacks find (i + 1) sids | None => i :: lacks find (i + 1) sids end
  end.

Lemma fill_all find sids : forall i, 0 <= i -> i + zlen sids <= 65536 ->
  fill find i (replicate (length sids) None) sids = (look find i sids, lacks find i sids).
Proof.
  induction sids as [|sid sids IH]; intros i Hi Hmax; [done|]. rewrite zlen_cons in Hmax.
  pose proof (zlen_nonneg sids). cbn [length replicate fill look lacks]. rewrite IH by lia.
  rewrite Z.mod_small by lia. by destruct (find sid i).
Qed.

(** The indexes that are missing, and that what is found is right. *)
Lemma elem_of_lacks find sids k : forall i, k ∈ lacks find i sids <->
  exists sid, vec_at sids (k - i) = Some sid /\ find sid k = None.
Proof.
  induction sids as [|sid sids IH]; intros i; cbn [lacks].
  - rewrite elem_of_nil. split; [done|]. intros (s & E & _). unfold vec_at in E. by destruct (0 <=? k - i).
  - assert (Hs : forall s, vec_at (sid :: sids) (k - i) = Some s <-> (k = i /\ s = sid) \/ (vec_at sids (k - (i + 1)) = Some s)).
    { intros s. unfold vec_at. destruct (Z.leb_spec 0 (k - i)).
      - destruct (decide (k = i)) as [->|Hne].
        + rewrite Z.sub_diag. cbn. rewrite (proj2 (Z.leb_gt _ _)) by lia. split; [intros [= ->]; by left|intros [[_ ->]|?]; done].
        + rewrite (proj2 (Z.leb_le _ _)) by lia. replace (Z.to_nat (k - i)) with (S (Z.to_nat (k - (i + 1)))) by lia.
          cbn. split; [by right|intros [[? _]|?]; done].
      - rewrite (proj2 (Z.leb_gt _ _)) by lia. split; [done|intros [[? _]|?]; [lia|done]]. }
    split.
    + intros Hk. destruct (find sid i) as [t|] eqn:E.
      * apply IH in Hk as (s & Hs' & Hf). exists s. split; [apply Hs; by right|done].
      * apply elem_of_cons in Hk as [->|Hk]; [exists sid; split; [apply Hs; by left|done]|].
        apply IH in Hk as (s & Hs' & Hf). exists s. split; [apply Hs; by right|done].
    + intros (s & [[-> ->]|Hs']%Hs & Hf); [rewrite Hf; left|].
      assert (k ∈ lacks find (i + 1) sids) as Hk by (apply IH; eauto). destruct (find sid i); [done|by right].
Qed.

Lemma lacks_above find sids : forall i k, k ∈ lacks find i sids -> i <= k.
Proof.
  induction sids as [|sid sids IH]; intros i k; cbn [lacks]; [by intros ?%elem_of_nil|].
  destruct (find sid i); [intros Hk%IH; lia|]. intros [->|Hk%IH]%elem_of_cons; lia.
Qed.

Lemma lacks_nodup find sids : forall i, NoDup (lacks find i sids).
Proof.
  induction sids as [|sid sids IH]; intros i; cbn [lacks]; [constructor|]. destruct (find sid i); [done|].
  constructor; [|done]. intros Hk%lacks_above. lia.
Qed.

(** What is found is what belongs there. *)
Definition finds_right (find : Z -> Z -> option bytes) (i : Z) (sids : list Z) (rest : list bytes) : Prop :=
  forall k sid t, sids !! k = Some sid -> find sid (i + Z.of_nat k) = Some t -> rest !! k = Some t.

Lemma look_all find sids : forall i rest, length sids = length rest -> finds_right find i sids rest ->
  lacks find i sids = [] -> look find i sids = map Some rest.
Proof.
  induction sids as [|sid sids IH]; intros i [|t rest] Hl Hr Hn; try done. cbn [lacks look map] in *.
  destruct (find sid i) as [t'|] eqn:E; [|done]. f_equal.
  - specialize (Hr 0%nat sid t' eq_refl). rewrite Z.add_0_r in Hr. by apply Hr in E.
  - apply IH; [by injection Hl| |done]. intros k s u Hk Hf. apply (Hr (S k) s u Hk). by replace (i + Z.of_nat (S k)) with (i + 1 + Z.of_nat k) by lia.
Qed.

Lemma positional_lookup requested transactions i : NoDup requested ->
  forall t, positional requested transactions !! i = Some t <->
    exists pos, requested !! pos = Some i /\ transactions !! pos = Some t.
Proof.
  intros Hnd t. unfold positional. induction transactions as [|x l IH] using rev_ind.
  - cbn. rewrite lookup_empty. split; [done|]. intros (pos & _ & E). by rewrite lookup_nil in E.
  - rewrite imap_app, foldl_app. cbn [imap foldl]. unfold compose. rewrite Nat.add_0_r.
    assert (Hl : forall pos, (l ++ [x]) !! pos = Some t <-> l !! pos = Some t \/ (pos = length l /\ t = x)).
    { intros pos. destruct (decide (pos = length l)) as [->|Hne].
      - rewrite list_lookup_middle by done. rewrite lookup_ge_None_2 by done. split; [intros [= ->]; by right|].
        intros [?|[_ ->]]; done.
      - destruct (decide (pos < length l)%nat).
        + rewrite lookup_app_l by done. split; [by left|intros [?|[? _]]; done].
        + rewrite !lookup_ge_None_2 by (rewrite ?length_app; simpl; lia). split; [done|intros [?|[? _]]; done]. }
    destruct (requested !! length l) as [j|] eqn:Ej.
    + destruct (decide (j = i)) as [->|Hne].
      * rewrite lookup_insert_eq. split.
        -- intros [= ->]. exists (length l). split; [done|]. apply Hl. by right.
        -- intros (pos & Hp & Ht%Hl). rewrite NoDup_alt in Hnd. pose proof (Hnd _ _ _ Hp Ej) as ->.
           destruct Ht as [Ht|[_ ->]]; [|done]. apply lookup_lt_Some in Ht. lia.
      * rewrite lookup_insert_ne, IH by done. split; intros (pos & Hp & Ht); exists pos; (split; [done|]).
        -- apply Hl. by left.
        -- apply Hl in Ht as [Ht|[-> _]]; [done|]. congruence.
    + rewrite IH. split; intros (pos & Hp & Ht); exists pos; (split; [done|]).
      * apply Hl. by left.
      * apply Hl in Ht as [Ht|[-> _]]; [done|]. congruence.
Qed.

Lemma encode_form seed v ph mr ur ts bi no sm txids cb msg :
  encode_compact seed v ph mr ur ts bi no sm txids cb = Ok msg ->
  cb_prefilled_txs msg = [mkPrefilled 0 cb] /\ NoDup (cb_short_ids msg) /\
  length (cb_short_ids msg) = length (drop 1 txids).
Proof.
  unfold encode_compact. intros E. destruct (find_short_ids _ _ _ _) as [[n ids]| |] eqn:Ef; [|done..].
  injection E as <-. cbn. split; [done|]. revert seed Ef. generalize MAX_SHORTID_RETRIES.
  induction n0 as [|k IH]; intros seed Ef; [done|]. cbn [find_short_ids] in Ef.
  destruct (derive_siphash_keys _ _) as [k0 k1]. destruct (bool_decide _) eqn:Hb; [|by eapply IH].
  injection Ef as <- <-. apply bool_decide_eq_true in Hb. split; [done|]. apply length_map.
Qed.

(** With the first transaction prefilled and the others found right. *)
Lemma decode_form msg cb rest (find : Z -> Z -> option bytes) :
  cb_prefilled_txs msg = [mkPrefilled 0 cb] -> NoDup (cb_short_ids msg) ->
  length (cb_short_ids msg) = length rest -> zlen (cb :: rest) <= u16_max ->
  finds_right find 1 (cb_short_ids msg) rest ->
  (u16_max <? total_txs msg) = false /\ check_short_ids msg = Ok tt /\
  exists txs, place_prefilled msg = Ok txs /\
    finish (fill find 0 txs (cb_short_ids msg)) =
      match lacks find 1 (cb_short_ids msg) with
      | [] => Ok (cb :: rest)
      | missing => Err (MissingTransactions missing)
      end.
Proof.
  intros Hp Hnd Hl Hmax Hr. assert (Hz : zlen (cb_short_ids msg) < u16_max) by (rewrite zlen_cons in Hmax; unfold zlen in *; lia).
  assert (Ht : total_txs msg = 1 + zlen (cb_short_ids msg)) by (unfold total_txs; by rewrite Hp).
  split; [apply Z.ltb_ge; lia|]. split; [unfold check_short_ids, ensure; by rewrite bool_decide_eq_true_2|].
  exists (Some cb :: replicate (length (cb_short_ids msg)) None). split.
  - unfold place_prefilled. rewrite Hp, Ht.
    replace (Z.to_nat (1 + zlen (cb_short_ids msg))) with (S (length (cb_short_ids msg))) by (unfold zlen; lia). done.
  - cbn [fill]. change (0 + 1) with 1. rewrite fill_all by (unfold u16_max in *; lia). unfold finish. cbn [fst snd].
    destruct (lacks find 1 (cb_short_ids msg)) eqn:Hn; [|done]. cbn [map].
    rewrite (look_all find _ 1 rest Hl Hr Hn), map_map. by rewrite map_id.
Qed.

(** Once the missing transactions are there, none is missing. *)
Lemma nothing_lacks (mempool : gmap Z bytes) sids cb rest : length sids = length rest ->
  finds_right (fun sid _ => mempool !! sid) 1 sids rest ->
  let missing := lacks (fun sid _ => mempool !! sid) 1 sids in
  let received := positional missing (omap (vec_at (cb :: rest)) missing) in
  let find := fun sid i => match mempool !! sid with Some t => Some t | None => received !! i end in
  finds_right find 1 sids rest /\ lacks find 1 sids = [].
Proof.
  intros Hl Hr missing received find. assert (Hnd : NoDup missing) by apply lacks_nodup.
  assert (Hom : omap (vec_at (cb :: rest)) missing = map (fun i => default [] (vec_at (cb :: rest) i)) missing /\
    forall i, i ∈ missing -> is_Some (vec_at (cb :: rest) i)).
  { assert (forall i, i ∈ missing -> is_Some (vec_at (cb :: rest) i)) as Hs.
    { intros i (sid & Hv & _)%elem_of_lacks. unfold vec_at in *. destruct (Z.leb_spec 0 (i - 1)); [|done].
      rewrite (proj2 (Z.leb_le _ _)) by lia. apply lookup_lt_is_Some. apply lookup_lt_Some in Hv. cbn. lia. }
    split; [|done]. clear Hnd. induction missing as [|i l IH]; [done|]. cbn.
    destruct (Hs i) as [t ->]; [left|]. cbn. f_equal. apply IH. intros j Hj. apply Hs. by right. }
  destruct Hom as [Eo Hsome].
  assert (Hrec : forall i t, received !! i = Some t -> vec_at (cb :: rest) i = Some t).
  { intros i t (pos & H1 & H2)%positional_lookup; [|done]. rewrite Eo, list_lookup_fmap, H1 in H2. injection H2 as <-.
    destruct (Hsome i) as [t ->]; [by eapply list_elem_of_lookup_2|done]. }
  assert (Hhas : forall i, i ∈ missing -> is_Some (received !! i)).
  { intros i Hi. destruct (Hsome i Hi) as [t Ht]. apply list_elem_of_lookup in Hi as [pos Hp]. exists t.
    apply positional_lookup; [done|]. exists pos. split; [done|]. rewrite Eo, list_lookup_fmap, Hp. cbn. by rewrite Ht. }
  split.
  - intros k sid t Hk. unfold find. destruct (mempool !! sid) eqn:Em; [intros [= <-]; by eapply Hr|]. intros H1%Hrec.
    unfold vec_at in H1. rewrite (proj2 (Z.leb_le _ _)) in H1 by lia. by replace (Z.to_nat (1 + Z.of_nat k)) with (S k) in H1 by lia.
  - destruct (lacks find 1 sids) as [|i l] eqn:El; [done|]. exfalso.
    assert (i ∈ lacks find 1 sids) as (sid & Hv & Hf)%elem_of_lacks by (rewrite El; left). unfold find in Hf.
    destruct (mempool !! sid) eqn:Em; [done|]. destruct (Hhas i) as [t Ht]; [apply elem_of_lacks; eauto|congruence].
Qed.

Lemma lacks_ext f h sids : (forall sid i, f sid i = h sid i) -> forall i, lacks f i sids = lacks h i sids.
Proof. intros E. induction sids as [|x l IH]; intros i; [done|]. cbn. by rewrite E, IH. Qed.

(** a compact block gives the block back. A receiver whose pool holds, under the short ids of
    the message, only transactions of the block reconstructs all of them, or is told exactly
    which indexes it lacks; and when these are sent in the order of the request, the second
    attempt gives the transactions of the block. *)
Theorem compact_block_roundtrip seed v ph mr ur ts bi no sm txids cb rest msg (mempool : gmap Z bytes) :
  encode_compact seed v ph mr ur ts bi no sm txids cb = Ok msg ->
  length txids = length (cb :: rest) -> zlen (cb :: rest) <= u16_max ->
  (forall i sid t, cb_short_ids msg !! i = Some sid -> mempool !! sid = Some t -> rest !! i = Some t) ->
  exists missing,
    (forall i, i ∈ missing <-> exists sid, vec_at (cb_short_ids msg) (i - 1) = Some sid /\ mempool !! sid = None) /\
    decode_compact msg mempool = (match missing with [] => Ok (cb :: rest) | _ => Err (MissingTransactions missing) end) /\
    (missing <> [] ->
       decode_with_received msg mempool ∅ = Err (MissingTransactions missing) /\
       decode_with_received msg mempool (positional missing (omap (vec_at (cb :: rest)) missing)) = Ok (cb :: rest)).
Proof.
  intros He Hlen Hmax Hpool. destruct (encode_form _ _ _ _ _ _ _ _ _ _ _ _ He) as (Hp & Hnd & Hl).
  assert (Hl' : length (cb_short_ids msg) = length rest) by (rewrite Hl, length_drop, Hlen; cbn; lia).
  assert (Hr0 : finds_right (fun sid _ => mempool !! sid) 1 (cb_short_ids msg) rest) by (intros k sid t Hk Hf; by eapply Hpool).
  exists (lacks (fun sid _ => mempool !! sid) 1 (cb_short_ids msg)).
  split; [intros i; exact (elem_of_lacks (fun sid _ => mempool !! sid) _ i 1)|].
  destruct (decode_form msg cb rest _ Hp Hnd Hl' Hmax Hr0) as (E1 & E2 & txs & E3 & E4). split.
  - unfold decode_compact. rewrite E1, E3. cbn [rbind]. rewrite E2. cbn [rbind]. rewrite E4. by destruct (lacks _ _ _).
  - intros Hne. split; unfold decode_with_received; rewrite E1, E2; cbn [rbind]; rewrite E3; cbn [rbind].
    + destruct (decode_form msg cb rest (fun sid i => match mempool !! sid with Some t => Some t | None => (∅ : gmap Z bytes) !! i end) Hp Hnd Hl' Hmax)
        as (_ & _ & txs' & E5 & E6); [intros k sid t Hk Hf; apply (Hpool k sid t Hk); by destruct (mempool !! sid)|].
      rewrite E3 in E5. injection E5 as <-. rewrite E6. rewrite (lacks_ext _ (fun sid _ => mempool !! sid)) by (intros sid i; by destruct (mempool !! sid)).
      by destruct (lacks _ _ _).
    + destruct (nothing_lacks mempool (cb_short_ids msg) cb rest Hl' Hr0) as [Hr2 Hn2].
      destruct (decode_form msg cb rest _ Hp Hnd Hl' Hmax Hr2) as (_ & _ & txs' & E5 & E6).
      rewrite E3 in E5. injection E5 as <-. by rewrite E6, Hn2.
Qed.
End compact.

(** ** The keyed hash and SipHash-2-4 *)

(** SipHash-2-4 as its authors define it: the last block carries the length. *)
Definition siphash24 (k0 k1 : Z) (data : bytes) : Z :=
  let full := (length data / 8)%nat in
  let tail := drop (8 * full) data in
  sip_finish (foldl absorb (sip_new k0 k1) (words full data ++ [from_le tail + (zlen data mod 256) * 2 ^ 56])).

(** The test vector of the authors: the key [00..0f] and the input [00..0e]. *)
Lemma siphash24_test_vector :
  siphash24 (from_le (seqZ 0 8)) (from_le (seqZ 8 8)) (seqZ 0 15) = 0xa129ca6149be45e5.
Proof. by vm_compute. Qed.

(** [hash32] leaves the last block out, and is another function. *)
Lemma hash32_is_not_siphash24 :
  let k0 := from_le (seqZ 0 8) in let k1 := from_le (seqZ 8 8) in
  Z.land (siphash24 k0 k1 (seqZ 0 32)) 0xffffffffffff <> short_txid (seqZ 0 32) k0 k1.
Proof. by vm_compute. Qed.

(** Short ids have 48 bits. *)
Lemma short_txid_range txid k0 k1 : 0 <= short_txid txid k0 k1 < 2 ^ 48.
Proof.
  unfold short_txid. change 0x0000ffffffffffff with (Z.ones 48). rewrite Z.land_ones by lia. apply Z.mod_pos_bound. lia.
Qed.

Module CompactWitness.

Definition zero32 : bytes := replicate 32 0.
Definition no_msg : CmpctBlockMsg := mkCmpct 0 [] [] [] 0 0 0 0 0 [] [].
Definition txids0 : list bytes := [replicate 32 1; replicate 32 2; replicate 32 3].
Definition sent : res CompactBlockEncodeError CmpctBlockMsg :=
  encode_compact 5 1 zero32 zero32 zero32 100 200 300 400 txids0 [10].
Definition msg0 : CmpctBlockMsg := match sent with Ok m => m | _ => no_msg end.
Definition sid1 : Z := match cb_short_ids msg0 with sid :: _ => sid | [] => 0 end.

Lemma sent0 : sent = Ok msg0.
Proof. by vm_compute. Qed.

(** The receiver has the first of two transactions. *)
Lemma compact_block_roundtrip_witness :
  exists missing, decode_compact msg0 {[sid1 := [11]]} = Err (MissingTransactions missing) /\
    decode_with_received msg0 {[sid1 := [11]]} (positional missing (omap (vec_at [[10]; [11]; [12]]) missing)) =
      Ok [[10]; [11]; [12]].
Proof.
  destruct (compact_block_roundtrip 5 1 zero32 zero32 zero32 100 200 300 400 txids0 [10] [[11]; [12]] msg0 {[sid1 := [11]]}
    sent0 eq_refl) as (missing & H1 & H2 & H3).
  - by apply Z.leb_le.
  - intros i sid t Hi [<- <-]%lookup_singleton_Some. assert (NoDup (cb_short_ids msg0)) as Hnd by (apply (bool_decide_unpack _); by vm_compute).
    rewrite NoDup_alt in Hnd. assert (cb_short_ids msg0 !! 0%nat = Some sid1) as H0 by by vm_compute.
    by rewrite (Hnd i 0%nat sid1 Hi H0).
  - exists missing. assert (missing <> []) as Hne.
    { intros ->. apply (not_elem_of_nil 2). apply H1. exists (nth 1 (cb_short_ids msg0) 0). split; vm_compute; reflexivity. }
    split; [|apply (H3 Hne)]. rewrite H2. destruct missing; [destruct (Hne eq_refl)|reflexivity].
Defined.

End CompactWitness.
