(* ===== verification/Peers.v ===== *)
(** * Peers, misbehaviour and bans

    Models [vtorrent-p2p/src/ban_manager.rs] and the parts of
    [vtorrent-p2p/src/peer_manager.rs] that work on its tables: who is connected, what is
    handed to which peer, offences and bans.  Readings of the monotonic clock and durations
    are nanoseconds; the clock is an argument.  Sockets, the tasks behind the command queues
    and their capacity are not modelled: the queue of a peer is the list of the commands
    handed to it. *)

From stdpp Require Import base list gmap sorting strings.
From Stdlib Require Import ZArith Lia.
From S2P Require Import Prelude Crypto Codec Consensus Wire.

(** ** Addresses *)

Inductive IpAddr : Type := V4 (octets : bytes) | V6 (octets : bytes).
#[export] Instance IpAddr_eq_dec : EqDecision IpAddr.
Proof. solve_decision. Defined.
#[export] Instance IpAddr_countable : Countable IpAddr.
Proof.
  refine (inj_countable' (fun ip => match ip with V4 o => inl o | V6 o => inr o end)
    (fun x => match x with inl o => V4 o | inr o => V6 o end) _). by intros [].
Defined.

(** [SocketAddr] without the flow label and the scope of IPv6. *)
Record SocketAddr : Type := mkAddr { addr_ip : IpAddr; addr_port : Z }.
#[export] Instance SocketAddr_eq_dec : EqDecision SocketAddr.
Proof. solve_decision. Defined.
#[export] Instance SocketAddr_countable : Countable SocketAddr.
Proof.
  refine (inj_countable' (fun a => (addr_ip a, addr_port a)) (fun x => mkAddr x.1 x.2) _). by intros [].
Defined.

(** [Ipv6Addr::to_ipv4_mapped]. *)
Definition to_ipv4_mapped (octets : bytes) : option bytes :=
  if bytes_eqb (take 12 octets) [0; 0; 0; 0; 0; 0; 0; 0; 0; 0; 255; 255] then Some (drop 12 octets) else None.

(** [ban_key]. *)
Definition ban_key (ip : IpAddr) : IpAddr :=
  match ip with
  | V4 v4 => V4 v4
  | V6 v6 =>
      match to_ipv4_mapped v6 with
      | Some v4 => V4 v4
      | None => V6 (take 8 v6 ++ replicate (length v6 - 8) 0)
      end
  end.

(** ** Offences and bans *)

Definition secs (n : Z) : Z := n * 1000000000.
Definition BAN_THRESHOLD : Z := 100.
Definition BAN_DURATION_SECS : Z := 24 * 60 * 60.
Definition ESCALATING_BAN_DURATIONS : list Z := [5 * 60; 15 * 60; 60 * 60].
Definition CONSECUTIVE_FAILURE_THRESHOLD : Z := 5.
Definition MAX_TRACKED_PEERS : Z := 50000.

Inductive Misbehaviour : Type :=
  | InvalidBlockHeader | InvalidBlock | InvalidTransaction | DuplicateInv | OversizedMessage | MalformedMessage
  | InvalidPeerAddr | BloomFilterTooLarge | StaleBlock | UnknownMessage | Custom (n : Z).

Definition offence_score (o : Misbehaviour) : Z :=
  match o with
  | InvalidBlockHeader => 20
  | InvalidBlock => 20
  | InvalidTransaction => 10
  | DuplicateInv => 5
  | OversizedMessage => 20
  | MalformedMessage => 20
  | InvalidPeerAddr => 2
  | BloomFilterTooLarge => 10
  | StaleBlock => 5
  | UnknownMessage => 1
  | Custom n => n
  end.

Record BanRecord : Type := mkBan { banned_at : Z; ban_length : Z; ban_reason : string }.
Record PeerScore : Type := mkScore { peer_score : Z; offence_count : Z; last_seen : Z }.

Record BanManager : Type := mkBans {
  scores : gmap IpAddr PeerScore;
  bans : gmap IpAddr BanRecord;
  ban_threshold : Z;
  ban_duration : Z;
  consecutive_failures : gmap IpAddr Z;
}.

Definition bans_new (threshold duration : Z) : BanManager := mkBans ∅ ∅ threshold duration ∅.
Definition bans_default : BanManager := bans_new BAN_THRESHOLD (secs BAN_DURATION_SECS).

Definition with_scores (f : gmap IpAddr PeerScore -> gmap IpAddr PeerScore) (m : BanManager) : BanManager :=
  mkBans (f (scores m)) (bans m) (ban_threshold m) (ban_duration m) (consecutive_failures m).
Definition with_bans (f : gmap IpAddr BanRecord -> gmap IpAddr BanRecord) (m : BanManager) : BanManager :=
  mkBans (scores m) (f (bans m)) (ban_threshold m) (ban_duration m) (consecutive_failures m).
Definition with_failures (f : gmap IpAddr Z -> gmap IpAddr Z) (m : BanManager) : BanManager :=
  mkBans (scores m) (bans m) (ban_threshold m) (ban_duration m) (f (consecutive_failures m)).

(** [Instant::elapsed] at [now], [BanRecord::is_expired]. *)
Definition elapsed (now t : Z) : Z := sat_sub now t.
Definition is_expired (now : Z) (b : BanRecord) : bool := ban_length b <=? elapsed now (banned_at b).

(** What is left of a ban. *)
Definition remaining (now : Z) (b : BanRecord) : Z := sat_sub (ban_length b) (elapsed now (banned_at b)).

Section bans.
Context {MO : MapOrder}.

(** [entries.sort_by_key] and removing the first [excess]. *)
Definition key_before {A} (key : A -> Z) (a b : IpAddr * A) : Prop := key a.2 <= key b.2.
#[export] Instance key_before_dec {A} (key : A -> Z) : RelDecision (key_before key).
Proof. intros a b. unfold key_before. apply _. Defined.

Definition evict_least {A} (key : A -> Z) (m : gmap IpAddr A) : gmap IpAddr A :=
  let entries := merge_sort (key_before key) (map_order m) in
  let excess := zlen entries - MAX_TRACKED_PEERS * 3 / 4 in
  foldl (fun m e => delete e.1 m) m (take (Z.to_nat excess) entries).

(** [BanManager::enforce_ban_cap]. *)
Definition enforce_ban_cap (now : Z) (m : BanManager) : BanManager :=
  if Z.of_nat (size (bans m)) <=? MAX_TRACKED_PEERS then m else with_bans (evict_least (remaining now)) m.

(** The end of every ban: the record, the score, the cap. *)
Definition insert_ban (now : Z) (ip : IpAddr) (duration : Z) (reason : string) (m : BanManager) : BanManager :=
  enforce_ban_cap now (with_scores (delete ip) (with_bans (<[ip := mkBan now duration reason]>) m)).

(** [BanManager::ban_ip], [BanManager::ban_ip_with_duration]. *)
Definition ban_ip (now : Z) (ip : IpAddr) (reason : string) (m : BanManager) : BanManager :=
  insert_ban now (ban_key ip) (ban_duration m) reason m.
Definition ban_ip_with_duration (now : Z) (ip : IpAddr) (duration : Z) (reason : string) (m : BanManager) : BanManager :=
  insert_ban now (ban_key ip) duration reason m.

(** [BanManager::record_misbehaviour]: whether the peer was banned. *)
Definition bans_record_misbehaviour (now : Z) (ip : IpAddr) (offence : Misbehaviour) : st BanManager P2pError bool :=
  let ip := ban_key ip in
  do* entry := sget (fun m => default (mkScore 0 0 now) (scores m !! ip)) in
  do* count := slift (padd u32_max (offence_count entry) 1) in
  let new_score := sat_add u32_max (peer_score entry) (offence_score offence) in
  do* _ := smod (with_scores (<[ip := mkScore new_score count now]>)) in
  do* threshold := sget ban_threshold in
  if threshold <=? new_score then
    do* _ := smod (ban_ip now ip "Score >= threshold") in sret true
  else sret false.

(** [BanManager::record_connection_failure]: whether the peer was banned. *)
Definition record_connection_failure (now : Z) (ip : IpAddr) : st BanManager P2pError bool :=
  let ip := ban_key ip in
  do* old := sget (fun m => default 0 (consecutive_failures m !! ip)) in
  do* current_count := slift (padd u32_max old 1) in
  do* _ := smod (with_failures (<[ip := current_count]>)) in
  if CONSECUTIVE_FAILURE_THRESHOLD <=? current_count then
    let duration_idx := Z.min (current_count - CONSECUTIVE_FAILURE_THRESHOLD) (zlen ESCALATING_BAN_DURATIONS - 1) in
    do* ban_secs := slift (vec_get ESCALATING_BAN_DURATIONS duration_idx) in
    do* _ := smod (insert_ban now ip (secs ban_secs) "consecutive connection failures") in
    sret true
  else sret false.

(** [BanManager::clear_consecutive_failures], [is_banned], [score], [unban]. *)
Definition clear_consecutive_failures (ip : IpAddr) (m : BanManager) : BanManager := with_failures (delete (ban_key ip)) m.
Definition bans_is_banned (now : Z) (ip : IpAddr) (m : BanManager) : bool :=
  match bans m !! ban_key ip with Some ban => negb (is_expired now ban) | None => false end.
Definition bans_score (ip : IpAddr) (m : BanManager) : Z :=
  match scores m !! ban_key ip with Some s => peer_score s | None => 0 end.
Definition unban (ip : IpAddr) (m : BanManager) : BanManager := with_bans (delete (ban_key ip)) m.

(** [BanManager::prune]. *)
Definition decayed (now : Z) (s : PeerScore) : PeerScore :=
  if secs 3600 <=? elapsed now (last_seen s) then mkScore (peer_score s / 2) (offence_count s) (last_seen s) else s.
Definition prune (now : Z) (m : BanManager) : BanManager :=
  let m := with_bans (filter (fun e => is_expired now e.2 = false)) m in
  let m := with_scores (fun t => filter (fun e => 0 < peer_score e.2) (decayed now <$> t)) m in
  let m := if MAX_TRACKED_PEERS <? Z.of_nat (size (scores m)) then with_scores (evict_least last_seen) m else m in
  let m := enforce_ban_cap now m in
  with_failures (filter (fun e => is_Some (bans m !! e.1) \/ is_Some (scores m !! e.1))) m.

(** [BanManager::ban_count], [list_bans], [list_scores]. *)
Definition list_bans (now : Z) (m : BanManager) : list (IpAddr * BanRecord) :=
  List.filter (fun e => negb (is_expired now e.2)) (map_order (bans m)).
Definition ban_count (now : Z) (m : BanManager) : Z := zlen (list_bans now m).
Definition list_scores (m : BanManager) : list (IpAddr * Z) := map (fun e => (e.1, peer_score e.2)) (map_order (scores m)).

(** ** The tables stay in order *)

Context {ML : MapOrderLaws MO}.

Lemma ban_key_idem ip : ban_key (ban_key ip) = ban_key ip.
Proof.
  destruct ip as [o|o]; [done|]. cbn. destruct (to_ipv4_mapped o) eqn:E; [done|]. cbn.
  assert (Hl : length (take 8 o ++ replicate (length o - 8) 0) = length o) by (rewrite length_app, length_take, length_replicate; lia).
  destruct (to_ipv4_mapped (take 8 o ++ replicate (length o - 8) 0)) eqn:E'.
  - exfalso. unfold to_ipv4_mapped in E'. destruct (bytes_eqb _ _) eqn:Eb; [|done]. apply bytes_eqb_eq in Eb.
    apply (f_equal (fun l => l !! 10%nat)) in Eb. rewrite lookup_take_lt, lookup_app_r in Eb by (rewrite ?length_take; lia).
    change ([0; 0; 0; 0; 0; 0; 0; 0; 0; 0; 255; 255] !! 10%nat) with (Some 255) in Eb.
    apply lookup_replicate in Eb as [Eb _]. done.
  - rewrite Hl. do 2 f_equal. destruct (decide (8 <= length o)%nat).
    + apply take_app_length'. rewrite length_take. lia.
    + replace (length o - 8)%nat with 0%nat by lia. cbn. rewrite app_nil_r, take_take. f_equal; lia.
Qed.

(** Evicting entries. *)
Lemma deletes_size {A} (l : list (IpAddr * A)) : forall m : gmap IpAddr A,
  NoDup l.*1 -> (forall e, e ∈ l -> m !! e.1 = Some e.2) ->
  (size (foldl (fun m e => delete e.1 m) m l) + length l = size m)%nat.
Proof.
  induction l as [|e l IH]; intros m Hnd Hm; [cbn; lia|]. cbn [foldl fmap list_fmap length] in *.
  apply NoDup_cons in Hnd as [Hx Hnd]. rewrite Nat.add_succ_r, IH.
  - rewrite map_size_delete_Some by (eexists; apply Hm; left).
    assert (size m <> 0)%nat; [|lia]. intros E%map_size_empty_inv. subst m. specialize (Hm e ltac:(left)). by rewrite lookup_empty in Hm.
  - done.
  - intros e' He'. rewrite lookup_delete_ne; [apply Hm; by right|]. intros E. apply Hx. rewrite E. apply list_elem_of_fmap. eauto.
Qed.

Lemma deletes_sub {A} (l : list (IpAddr * A)) : forall m : gmap IpAddr A,
  foldl (fun m e => delete e.1 m) m l ⊆ m.
Proof.
  induction l as [|e l IH]; intros m; [done|]. cbn. etrans; [apply IH|apply delete_subseteq].
Qed.

Lemma evict_least_spec {A} (key : A -> Z) (m : gmap IpAddr A) :
  MAX_TRACKED_PEERS < Z.of_nat (size m) ->
  evict_least key m ⊆ m /\ Z.of_nat (size (evict_least key m)) = MAX_TRACKED_PEERS * 3 / 4.
Proof.
  intros Hlt. unfold evict_least. cbv zeta. set (l := merge_sort (key_before key) (map_order m)).
  assert (Hp : l ≡ₚ map_to_list m) by (unfold l; rewrite merge_sort_Permutation; apply map_order_perm).
  split; [apply deletes_sub|]. set (k := Z.to_nat (zlen l - MAX_TRACKED_PEERS * 3 / 4)).
  assert (H34 : MAX_TRACKED_PEERS * 3 / 4 = 37500) by reflexivity.
  assert (Hlen : length l = size m) by (rewrite Hp; apply length_map_to_list).
  assert (Hk : (k <= length l)%nat) by (unfold k; rewrite H34; unfold zlen, MAX_TRACKED_PEERS in *; lia).
  assert (NoDup l.*1) as Hnd by (rewrite Hp; apply NoDup_fst_map_to_list).
  pose proof (deletes_size (take k l) m) as Hs. rewrite length_take, Nat.min_l in Hs by done.
  assert (Z.of_nat k = Z.of_nat (size m) - MAX_TRACKED_PEERS * 3 / 4) as Ek
    by (unfold k; rewrite H34; unfold zlen, MAX_TRACKED_PEERS in *; lia).
  enough (size (foldl (fun m e => delete e.1 m) m (take k l)) + k = size m)%nat by lia. apply Hs.
  - rewrite <- (take_drop k l), fmap_app in Hnd. by apply NoDup_app in Hnd as (? & _).
  - intros [ip a] He. apply elem_of_map_to_list. rewrite <- Hp. apply elem_of_take in He as (i & Hi & _). by eapply list_elem_of_lookup_2.
Qed.

(** The tables are keyed by [ban_key], scores are below the threshold, the bans are bounded. *)
Record bans_ok (m : BanManager) : Prop := {
  bo_scores : forall ip s, scores m !! ip = Some s -> ban_key ip = ip /\ 0 <= peer_score s < ban_threshold m;
  bo_bans : forall ip b, bans m !! ip = Some b -> ban_key ip = ip;
  bo_failures : forall ip n, consecutive_failures m !! ip = Some n -> ban_key ip = ip /\ 1 <= n <= u32_max;
  bo_count : Z.of_nat (size (bans m)) <= MAX_TRACKED_PEERS;
  bo_threshold : 1 <= ban_threshold m;
}.

Lemma enforce_sub now m : bans (enforce_ban_cap now m) ⊆ bans m /\
  scores (enforce_ban_cap now m) = scores m /\ consecutive_failures (enforce_ban_cap now m) = consecutive_failures m /\
  ban_threshold (enforce_ban_cap now m) = ban_threshold m /\ ban_duration (enforce_ban_cap now m) = ban_duration m /\
  Z.of_nat (size (bans (enforce_ban_cap now m))) <= MAX_TRACKED_PEERS.
Proof.
  unfold enforce_ban_cap. destruct (Z.leb_spec (Z.of_nat (size (bans m))) MAX_TRACKED_PEERS); [done|]. cbn.
  destruct (evict_least_spec (remaining now) (bans m)) as [H1 H2]; [done|]. rewrite H2. done.
Qed.

Lemma insert_ban_ok now ip d r m :
  (forall ip s, scores m !! ip = Some s -> ban_key ip = ip /\ 0 <= peer_score s) ->
  (forall k s, k <> ip -> scores m !! k = Some s -> peer_score s < ban_threshold m) ->
  (forall ip b, bans m !! ip = Some b -> ban_key ip = ip) ->
  (forall ip n, consecutive_failures m !! ip = Some n -> ban_key ip = ip /\ 1 <= n <= u32_max) ->
  1 <= ban_threshold m -> ban_key ip = ip -> bans_ok (insert_ban now ip d r m).
Proof.
  intros H1 H2 H3 H4 H5 Hip. unfold insert_ban. set (m1 := with_scores _ _).
  destruct (enforce_sub now m1) as (E1 & E2 & E3 & E4 & E5 & E6). split; rewrite ?E2, ?E3, ?E4; [| |done|done|done].
  - intros k s Hk. cbn in Hk. apply lookup_delete_Some in Hk as [Hne Hk]. destruct (H1 k s Hk). split; [done|].
    split; [done|]. by apply (H2 k s); [intros ->|].
  - intros k b Hk. eapply lookup_weaken in Hk; [|exact E1]. cbn in Hk.
    apply lookup_insert_Some in Hk as [[<- _]|[_ Hk]]; [done|by eapply H3].
Qed.

(** Every operation. *)
Inductive bans_step : BanManager -> BanManager -> Prop :=
  | step_misbehaviour now ip o m m' r : 0 <= offence_score o -> bans_record_misbehaviour now ip o m = (m', Ok r) -> bans_step m m'
  | step_ban now ip reason m : bans_step m (ban_ip now ip reason m)
  | step_ban_duration now ip d reason m : bans_step m (ban_ip_with_duration now ip d reason m)
  | step_failure now ip m m' r : record_connection_failure now ip m = (m', Ok r) -> bans_step m m'
  | step_clear ip m : bans_step m (clear_consecutive_failures ip m)
  | step_unban ip m : bans_step m (unban ip m)
  | step_prune now m : bans_step m (prune now m).

Lemma insert_ban_from now ip d r m : bans_ok m -> ban_key ip = ip -> bans_ok (insert_ban now ip d r m).
Proof.
  intros [B1 B2 B3 B4 B5] Hip. apply insert_ban_ok; try done.
  - intros k s Hk. destruct (B1 k s Hk). split; [done|lia].
  - intros k s _ Hk. by apply (B1 k s Hk).
Qed.

Lemma record_ok now ip o m m' r : 0 <= offence_score o -> bans_ok m ->
  bans_record_misbehaviour now ip o m = (m', Ok r) -> bans_ok m'.
Proof.
  intros Ho [B1 B2 B3 B4 B5]. unfold bans_record_misbehaviour, sbind at 1, sget. cbv zeta.
  set (e := default _ _). unfold sbind at 1, slift. destruct (padd _ _ _) as [n| |]; [|done..].
  unfold sbind at 1, smod, sbind at 1, sget. cbn [with_scores ban_threshold].
  assert (He : 0 <= peer_score e).
  { unfold e. destruct (scores m !! ban_key ip) eqn:E; [|done]. cbn. destruct (B1 _ _ E). lia. }
  set (x := sat_add _ _ _). assert (Hx : 0 <= x) by (unfold x, sat_add, u32_max; lia).
  destruct (Z.leb_spec (ban_threshold m) x) as [Hle|Hlt].
  - unfold sbind, smod, sret. intros [= <- <-]. unfold ban_ip. rewrite ban_key_idem. apply insert_ban_ok; cbn; try done.
    + intros k s [[<- <-]|[_ Hk]]%lookup_insert_Some; [by rewrite ban_key_idem|]. destruct (B1 k s Hk). split; [done|lia].
    + intros k s Hne Hk. rewrite lookup_insert_ne in Hk by done. by apply (B1 k s Hk).
    + apply ban_key_idem.
  - unfold sret. intros [= <- <-]. split; cbn; try done.
    intros k s [[<- <-]|[_ Hk]]%lookup_insert_Some; [by rewrite ban_key_idem|by apply B1].
Qed.

Lemma failure_ok now ip m m' r : bans_ok m -> record_connection_failure now ip m = (m', Ok r) -> bans_ok m'.
Proof.
  intros [B1 B2 B3 B4 B5]. unfold record_connection_failure, sbind at 1, sget. cbv zeta.
  set (old := default _ _). unfold sbind at 1, slift. destruct (padd _ _ _) as [n| |] eqn:En; [|done..].
  apply padd_Ok in En as [-> Hn]. unfold sbind at 1, smod.
  assert (Ho : 0 <= old).
  { unfold old. destruct (consecutive_failures m !! ban_key ip) eqn:E; [|done]. cbn. destruct (B3 _ _ E). lia. }
  set (m1 := with_failures _ m). assert (B : bans_ok m1).
  { split; cbn; try done. intros k s [[<- <-]|[_ Hk]]%lookup_insert_Some; [rewrite ban_key_idem; split; [done|lia]|by apply B3]. }
  destruct (CONSECUTIVE_FAILURE_THRESHOLD <=? old + 1); [|by intros [= <- <-]]. unfold sbind at 1, slift.
  destruct (vec_get _ _) as [d| |]; [|done..]. unfold sbind, smod, sret. intros [= <- <-].
  apply insert_ban_from; [done|apply ban_key_idem].
Qed.

Lemma bans_prune_ok now m : bans_ok m -> bans_ok (prune now m).
Proof.
  intros [B1 B2 B3 B4 B5]. unfold prune. cbv zeta.
  set (m1 := with_scores _ (with_bans _ m)).
  assert (S1 : forall ip s, scores m1 !! ip = Some s -> ban_key ip = ip /\ 0 <= peer_score s < ban_threshold m).
  { intros ip s Hs. cbn in Hs. apply map_lookup_filter_Some in Hs as [Hs _]. rewrite lookup_fmap in Hs.
    destruct (scores m !! ip) as [s'|] eqn:E; [|done]. injection Hs as <-. destruct (B1 ip s' E). split; [done|].
    unfold decayed. case_match; [|done]. cbn. split; [apply Z.div_pos; lia|].
    eapply Z.le_lt_trans; [apply (Z.div_le_upper_bound _ 2 (peer_score s')); lia|lia]. }
  set (m2 := if MAX_TRACKED_PEERS <? _ then _ else m1).
  assert (S2 : forall ip s, scores m2 !! ip = Some s -> scores m1 !! ip = Some s).
  { unfold m2. destruct (Z.ltb_spec MAX_TRACKED_PEERS (Z.of_nat (size (scores m1)))); [|done]. intros ip s Hs. cbn in Hs.
    eapply lookup_weaken; [exact Hs|]. by apply evict_least_spec. }
  assert (bans m2 = filter (fun e => is_expired now e.2 = false) (bans m)) as E2 by (unfold m2; by destruct (_ <? _)).
  assert (ban_threshold m2 = ban_threshold m /\ consecutive_failures m2 = consecutive_failures m) as [E3 E4]
    by (unfold m2; by destruct (_ <? _)).
  destruct (enforce_sub now m2) as (F1 & F2 & F3 & F4 & _ & F6). split; cbn; rewrite ?F2, ?F4, ?E3; try done.
  - intros ip s Hs%S2. by apply S1.
  - intros ip b Hb. eapply lookup_weaken in Hb; [|exact F1]. rewrite E2 in Hb.
    apply map_lookup_filter_Some in Hb as [Hb _]. by eapply B2.
  - intros ip n [Hn _]%map_lookup_filter_Some. rewrite F3, E4 in Hn. by apply B3.
Qed.

Lemma step_ok m m' : bans_step m m' -> bans_ok m -> bans_ok m'.
Proof.
  intros Hs Hm. destruct Hs.
  - by eapply record_ok.
  - apply insert_ban_from; [done|apply ban_key_idem].
  - apply insert_ban_from; [done|apply ban_key_idem].
  - by eapply failure_ok.
  - destruct Hm as [B1 B2 B3 B4 B5]. split; cbn; try done. intros k n [_ Hk]%lookup_delete_Some. by apply B3.
  - destruct Hm as [B1 B2 B3 B4 B5]. split; cbn; try done.
    + intros k b [_ Hk]%lookup_delete_Some. by eapply B2.
    + etrans; [|exact B4]. apply inj_le, map_subseteq_size, delete_subseteq.
  - by apply bans_prune_ok.
Qed.

Lemma insert_ban_params now ip d r m :
  ban_threshold (insert_ban now ip d r m) = ban_threshold m /\ ban_duration (insert_ban now ip d r m) = ban_duration m.
Proof. unfold insert_ban. destruct (enforce_sub now (with_scores (delete ip) (with_bans (<[ip := mkBan now d r]>) m))) as (_ & _ & _ & -> & -> & _). done. Qed.

Lemma step_params m m' : bans_step m m' -> ban_threshold m' = ban_threshold m /\ ban_duration m' = ban_duration m.
Proof.
  intros Hs. destruct Hs as [now ip o m m' r _ E|now ip r m|now ip d r m|now ip m m' r E|ip m|ip m|now m]; try done;
    try apply insert_ban_params.
  - unfold bans_record_misbehaviour, sbind, sget, slift, smod, sret in E. cbv zeta in E. destruct (padd _ _ _); [|done..].
    destruct (_ <=? _); injection E as <- _; [|done]. unfold ban_ip.
    split; [rewrite (proj1 (insert_ban_params _ _ _ _ _))|rewrite (proj2 (insert_ban_params _ _ _ _ _))]; done.
  - unfold record_connection_failure, sbind, sget, slift, smod, sret in E. cbv zeta in E. destruct (padd _ _ _); [|done..].
    destruct (_ <=? _); [|by injection E as <- _]. destruct (vec_get _ _) as [d| |]; [|done..]. injection E as <- _.
    split; [rewrite (proj1 (insert_ban_params _ _ _ _ _))|rewrite (proj2 (insert_ban_params _ _ _ _ _))]; done.
  - unfold prune. cbv zeta. match goal with |- context [enforce_ban_cap now ?x] => set (m2 := x) end.
    cbn [with_failures ban_threshold ban_duration].
    destruct (enforce_sub now m2) as (_ & _ & _ & -> & -> & _). unfold m2. by destruct (_ <? _).
Qed.

Lemma reachable_bans m : rtc bans_step bans_default m ->
  bans_ok m /\ ban_threshold m = BAN_THRESHOLD /\ ban_duration m = secs BAN_DURATION_SECS.
Proof.
  intros Hr. assert (bans_ok bans_default) as H0 by (split; cbn; try done; intros ? ? Hx; by rewrite lookup_empty in Hx).
  assert (ban_threshold bans_default = BAN_THRESHOLD /\ ban_duration bans_default = secs BAN_DURATION_SECS) as [E1 E2] by done.
  revert H0 E1 E2. induction Hr as [m|m m1 m2 Hs _ IH]; [done|]. intros H0 E1 E2. destruct (step_params _ _ Hs) as [P1 P2].
  apply IH; [by eapply step_ok|congruence|congruence].
Qed.

(** the tables of the ban manager stay in order. After any operations, addresses of one
    IPv6 /64 and IPv4-mapped addresses share one entry, every recorded score is below the
    threshold, and there are never more bans than the limit. *)
Theorem ban_tables_in_order m : rtc bans_step bans_default m ->
  (forall ip s, scores m !! ip = Some s -> ban_key ip = ip /\ 0 <= peer_score s < BAN_THRESHOLD) /\
  (forall ip b, bans m !! ip = Some b -> ban_key ip = ip) /\
  Z.of_nat (size (bans m)) <= MAX_TRACKED_PEERS /\
  (forall now, Z.of_nat (size (scores (prune now m))) <= MAX_TRACKED_PEERS).
Proof.
  intros ([B1 B2 _ B4 _] & E & _)%reachable_bans. rewrite E in B1. split_and!; [done..|]. intros now. unfold prune. cbv zeta.
  match goal with |- context [enforce_ban_cap now ?x] => set (m2 := x) end. cbn [with_failures scores]. destruct (enforce_sub now m2) as (_ & -> & _). unfold m2. clear m2.
  match goal with |- context [if _ <? Z.of_nat (size (scores ?x)) then _ else _] => generalize x end. intros m1.
  destruct (Z.ltb_spec MAX_TRACKED_PEERS (Z.of_nat (size (scores m1)))); [|done]. cbn [with_scores scores].
  destruct (evict_least_spec last_seen (scores m1)) as [_ ->]; done.
Qed.

Lemma elapsed_lt now t d : 0 < d -> elapsed t now < d <-> t < now + d.
Proof. unfold elapsed, sat_sub. lia. Qed.

(** Adding one ban to a table that is not full. *)
Lemma insert_ban_lookup now ip d r m : Z.of_nat (size (bans m)) < MAX_TRACKED_PEERS ->
  bans (insert_ban now ip d r m) = <[ip := mkBan now d r]> (bans m) /\ scores (insert_ban now ip d r m) = delete ip (scores m).
Proof.
  intros Hlt. unfold insert_ban, enforce_ban_cap. cbn. rewrite (proj2 (Z.leb_le _ _)); [done|].
  rewrite map_size_insert. destruct (bans m !! ip); unfold id; lia.
Qed.

(** an offence adds its points to the score of the address it came from, and bans every
    address with the same key for a day exactly when the threshold is reached; no other
    address is affected. *)
Theorem offence_bans_at_threshold m now ip o :
  rtc bans_step bans_default m -> Z.of_nat (size (bans m)) < MAX_TRACKED_PEERS ->
  (forall s, scores m !! ban_key ip = Some s -> 0 <= offence_count s < u32_max) -> 0 <= offence_score o <= u32_max ->
  let score := bans_score ip m + offence_score o in
  exists m', bans_record_misbehaviour now ip o m = (m', Ok (BAN_THRESHOLD <=? score)) /\
    (forall ip', ban_key ip' = ban_key ip ->
       if BAN_THRESHOLD <=? score
       then bans_score ip' m' = 0 /\
            forall t, bans_is_banned t ip' m' = true <-> t < now + secs BAN_DURATION_SECS
       else bans_score ip' m' = score /\ forall t, bans_is_banned t ip' m' = bans_is_banned t ip' m) /\
    (forall ip', ban_key ip' <> ban_key ip ->
       bans_score ip' m' = bans_score ip' m /\ forall t, bans_is_banned t ip' m' = bans_is_banned t ip' m).
Proof.
  intros ([B1 B2 _ B4 _] & Et & Ed)%reachable_bans Hlt Hc Ho. cbv zeta. set (e := default (mkScore 0 0 now) (scores m !! ban_key ip)).
  assert (He : peer_score e = bans_score ip m /\ 0 <= peer_score e < BAN_THRESHOLD /\ 0 <= offence_count e < u32_max).
  { unfold e, bans_score. destruct (scores m !! ban_key ip) eqn:E; [|done]. destruct (B1 _ _ E). rewrite Et in *. cbn. auto. }
  destruct He as (E1 & E2 & E3).
  assert (Hs : (BAN_THRESHOLD <=? sat_add u32_max (peer_score e) (offence_score o)) = (BAN_THRESHOLD <=? bans_score ip m + offence_score o)).
  { rewrite <- E1. unfold sat_add, BAN_THRESHOLD, u32_max in *. destruct (Z.leb_spec 100 (peer_score e + offence_score o));
      [apply Z.leb_le|apply Z.leb_gt]; lia. }
  unfold bans_record_misbehaviour, sbind, sget, slift, smod, sret. cbv zeta. fold e.
  unfold padd, checked_add. rewrite (proj2 (Z.leb_le _ _)) by lia. cbn [unwrap with_scores ban_threshold]. rewrite Et, Hs.
  set (m1 := with_scores _ m). destruct (Z.leb_spec BAN_THRESHOLD (bans_score ip m + offence_score o)) as [Hle|Hgt].
  - eexists. split; [reflexivity|]. unfold ban_ip, bans_score, bans_is_banned. rewrite ban_key_idem.
    destruct (insert_ban_lookup now (ban_key ip) (ban_duration m1) "Score >= threshold" m1 Hlt) as [-> ->]. split.
    + intros ip' ->. rewrite lookup_delete_eq, lookup_insert_eq. split; [done|]. intros t. unfold is_expired. cbn [ban_length banned_at].
      change (ban_duration m1) with (ban_duration m). rewrite Ed, negb_true_iff, Z.leb_gt. apply elapsed_lt. by vm_compute.
    + intros ip' Hne. rewrite lookup_delete_ne, lookup_insert_ne by done. cbn. by rewrite lookup_insert_ne by done.
  - eexists. split; [reflexivity|]. unfold bans_score, bans_is_banned. cbn. split.
    + intros ip' ->. rewrite lookup_insert_eq. cbn [peer_score]. split; [|done]. fold (bans_score ip m) in *.
      unfold sat_add, BAN_THRESHOLD, u32_max in *. lia.
    + intros ip' Hne. by rewrite lookup_insert_ne by done.
Qed.
End bans.

(** ** The peer manager *)

Definition MAX_PEERS : Z := 125.

Inductive PeerState : Type := Connecting | Connected | Disconnecting.
#[export] Instance PeerState_eq_dec : EqDecision PeerState.
Proof. solve_decision. Defined.

Inductive PeerCommand : Type := Send (msg : NetMessage) | Disconnect.

(** [cmd_tx] is the list of the commands sent. *)
Record Peer : Type := mkPeer {
  peer_addr : SocketAddr;
  peer_state : PeerState;
  peer_best_height : Z;
  user_agent : string;
  services : Z;
  cmd_tx : list PeerCommand;
}.

Record PeerManager : Type := mkPeers { own_best_height : Z; peers : gmap SocketAddr Peer; ban_manager : BanManager }.

Definition with_peers (f : gmap SocketAddr Peer -> gmap SocketAddr Peer) (m : PeerManager) : PeerManager :=
  mkPeers (own_best_height m) (f (peers m)) (ban_manager m).
Definition with_ban_manager (f : BanManager -> BanManager) (m : PeerManager) : PeerManager :=
  mkPeers (own_best_height m) (peers m) (f (ban_manager m)).

Definition push_command (c : PeerCommand) (p : Peer) : Peer :=
  mkPeer (peer_addr p) (peer_state p) (peer_best_height p) (user_agent p) (services p) (cmd_tx p ++ [c]).
Definition connected (p : Peer) : bool := bool_decide (peer_state p = Connected).

(** [let _ = peer.cmd_tx.try_send(PeerCommand::Disconnect)]. *)
Definition drop_peer (addr : SocketAddr) : PeerManager -> PeerManager := with_peers (alter (push_command Disconnect) addr).

Section manager.
Context {MO : MapOrder}.

(** [PeerManager::record_misbehaviour], [ban_peer], [ban_peer_with_duration]. *)
Definition record_misbehaviour (now : Z) (addr : SocketAddr) (offence : Misbehaviour) : st PeerManager P2pError bool := fun m =>
  match bans_record_misbehaviour now (addr_ip addr) offence (ban_manager m) with
  | (b, Ok banned) =>
      let m := with_ban_manager (fun _ => b) m in
      (if banned then drop_peer addr m else m, Ok banned)
  | (b, Err e) => (with_ban_manager (fun _ => b) m, Err e)
  | (b, Panic) => (with_ban_manager (fun _ => b) m, Panic)
  end.
Definition ban_peer (now : Z) (addr : SocketAddr) (reason : string) (m : PeerManager) : PeerManager :=
  drop_peer addr (with_ban_manager (ban_ip now (addr_ip addr) reason) m).
Definition ban_peer_with_duration (now : Z) (addr : SocketAddr) (duration : Z) (reason : string) (m : PeerManager) : PeerManager :=
  drop_peer addr (with_ban_manager (ban_ip_with_duration now (addr_ip addr) duration reason) m).

(** [PeerManager::is_banned], [prune_bans]. *)
Definition is_banned (now : Z) (addr : SocketAddr) (m : PeerManager) : bool := bans_is_banned now (addr_ip addr) (ban_manager m).
Definition prune_bans (now : Z) : PeerManager -> PeerManager := with_ban_manager (prune now).

(** [PeerManager::register_virtual_peer]. *)
Definition register_virtual_peer (addr : SocketAddr) (agent : string) : st PeerManager P2pError unit := fun m =>
  if bool_decide (is_Some (peers m !! addr)) then (m, Err (Protocol "Peer already registered")) else
  if MAX_PEERS <=? Z.of_nat (size (peers m)) then (m, Err (TooManyPeers MAX_PEERS)) else
  (with_peers (<[addr := mkPeer addr Connected 0 agent 0 []]>) m, Ok tt).

(** [PeerManager::broadcast], [broadcast_except], [send_to]. *)
Definition broadcast (msg : NetMessage) : PeerManager -> PeerManager :=
  with_peers (fmap (fun p => if connected p then push_command (Send msg) p else p)).
Definition broadcast_except (except : SocketAddr) (msg : NetMessage) : PeerManager -> PeerManager :=
  with_peers (fmap (fun p => if connected p && bool_decide (peer_addr p <> except) then push_command (Send msg) p else p)).
Definition send_to (addr : SocketAddr) (msg : NetMessage) : PeerManager -> PeerManager :=
  with_peers (alter (fun p => if connected p then push_command (Send msg) p else p) addr).

(** [PeerManager::connected_peers], [peer_count], [network_best_height], [set_best_height]. *)
Definition connected_list (m : PeerManager) : list Peer := List.filter connected (map_order (peers m)).*2.
Definition connected_peers (m : PeerManager) : list SocketAddr := map peer_addr (connected_list m).
Definition peer_count (m : PeerManager) : Z := zlen (connected_list m).
Definition network_best_height (m : PeerManager) : Z := foldr Z.max 0 (map peer_best_height (connected_list m)).
Definition set_best_height (h : Z) (m : PeerManager) : PeerManager := mkPeers h (peers m) (ban_manager m).

(** [PeerManager::disconnect]. *)
Definition disconnect (addr : SocketAddr) : PeerManager -> PeerManager :=
  with_peers (alter (fun p =>
    mkPeer (peer_addr p) Disconnecting (peer_best_height p) (user_agent p) (services p) (cmd_tx p ++ [Disconnect])) addr).

(** The branch of [process_events] for a finished handshake, without the address book: whether
    the event is passed on. *)
Definition handshake_complete (now : Z) (addr : SocketAddr) (start_height : Z) (agent : string) (flags : Z) (m : PeerManager)
    : PeerManager * bool :=
  if is_banned now addr m then (drop_peer addr m, false) else
  (with_peers (alter (fun p => mkPeer (peer_addr p) Connected start_height agent flags (cmd_tx p)) addr)
     (with_ban_manager (clear_consecutive_failures (addr_ip addr)) m), true).
End manager.

Module PeersWitness.
#[local] Existing Instance any_order.
#[local] Existing Instance any_order_laws.

(** An address of a /64 with four malformed messages behind it, and another of the same /64. *)
Definition ip1 : IpAddr := V6 [32; 1; 13; 184; 0; 0; 0; 1; 0; 0; 0; 0; 0; 0; 0; 1].
Definition ip2 : IpAddr := V6 [32; 1; 13; 184; 0; 0; 0; 1; 9; 9; 9; 9; 9; 9; 9; 9].

Definition m4 : BanManager :=
  foldl (fun m t => (bans_record_misbehaviour t ip1 MalformedMessage m).1) bans_default [1; 2; 3; 4].

Lemma reached4 : rtc bans_step bans_default m4.
Proof.
  unfold m4. cbn [foldl]. repeat match goal with
  | |- rtc bans_step ?a ?a => apply rtc_refl
  | |- rtc _ _ (bans_record_misbehaviour ?t ip1 MalformedMessage ?m).1 =>
      eapply rtc_r; [|apply (step_misbehaviour t ip1 MalformedMessage m _ false); [done|by vm_compute]]
  end.
Qed.

Lemma ban_tables_in_order_witness : Z.of_nat (size (bans m4)) <= MAX_TRACKED_PEERS.
Proof. destruct (ban_tables_in_order m4 reached4) as (_ & _ & H & _). exact H. Defined.

Lemma offence_bans_at_threshold_witness :
  exists m', bans_record_misbehaviour 5 ip1 MalformedMessage m4 = (m', Ok true) /\ bans_is_banned 6 ip2 m' = true.
Proof.
  destruct (offence_bans_at_threshold m4 5 ip1 MalformedMessage reached4) as (m' & E & H & _).
  - by vm_compute.
  - intros s Hs. assert (scores m4 !! ban_key ip1 = Some (mkScore 80 4 4)) as E by by vm_compute.
    rewrite E in Hs. injection Hs as <-. by vm_compute.
  - by vm_compute.
  - assert ((BAN_THRESHOLD <=? bans_score ip1 m4 + offence_score MalformedMessage) = true) as Eb by by vm_compute.
    rewrite Eb in E, H. exists m'. split; [exact E|]. destruct (H ip2 eq_refl) as [_ Hb]. apply Hb. reflexivity.
Defined.

End PeersWitness.
