(* ===== verification/Proofs.v ===== *)
(** * Requests for stake proofs

    Models [vtorrent-node/src/node/proof_service.rs] and
    [vtorrent-node/src/node/proof_retry.rs]: the sliding windows that bound how often proofs
    are rebuilt for peers, and the queue of the proofs the node is waiting for.  The theorem on
    the windows says that in no stretch of sixty seconds more than the limits are admitted. *)

From stdpp Require Import base list gmap sorting.
From Stdlib Require Import ZArith Lia.
From S2P Require Import Prelude Crypto Codec Consensus Wire Peers.

(** ** The budget *)

Definition PROOF_WINDOW : Z := secs 60.
Definition PROOFS_PER_IP : Z := 100.
Definition PROOFS_GLOBAL : Z := 200.

Record ProofBudget : Type := mkBudget { global : list Z; per_ip : gmap IpAddr (list Z) }.
Definition no_budget : ProofBudget := mkBudget [] ∅.

(** [expire]: the oldest are in front. *)
Fixpoint expire (now : Z) (times : list Z) : list Z :=
  match times with
  | [] => []
  | t :: rest => if PROOF_WINDOW <=? elapsed now t then expire now rest else times
  end.

(** [IpAddr::to_canonical]. *)
Definition to_canonical (ip : IpAddr) : IpAddr :=
  match ip with
  | V4 v4 => V4 v4
  | V6 v6 => match to_ipv4_mapped v6 with Some v4 => V4 v4 | None => V6 v6 end
  end.

(** The windows after [expire]; empty ones are dropped. *)
Definition expire_all (now : Z) (b : ProofBudget) : ProofBudget :=
  mkBudget (expire now (global b))
    (omap (fun times => match expire now times with [] => None | times => Some times end) (per_ip b)).

(** [ProofBudget::try_admit]. *)
Definition try_admit (ip : IpAddr) (now : Z) (b : ProofBudget) : ProofBudget * bool :=
  let b := expire_all now b in
  let ip := to_canonical ip in
  let used := default [] (per_ip b !! ip) in
  if (PROOFS_GLOBAL <=? zlen (global b)) || (PROOFS_PER_IP <=? zlen used) then (b, false) else
  (mkBudget (global b ++ [now]) (<[ip := used ++ [now]]> (per_ip b)), true).

(** ** The retries *)

Definition MAX_PENDING_PROOFS : Z := 100.
Definition MAX_ATTEMPTS : Z := 4.
Definition MAX_RETRIES_PER_TICK : nat := 8.
Definition RETRY_DELAY : Z := PROOF_WINDOW + secs 5.
Definition REQUEST_TTL : Z := secs 300.

Record PendingProof : Type := mkPending {
  pp_height : Z;
  pp_peer : SocketAddr;
  pp_created : Z;
  pp_next_attempt : Z;
  pp_attempts : Z;
}.

(** [ProofRetries]: the pending requests. *)
Abbreviation ProofRetries := (gmap bytes PendingProof).

Section retries.
Context {MO : MapOrder}.

(** The order of [min_by_key] in [track]. *)
Definition height_hash_leb (a b : bytes * PendingProof) : bool :=
  match Z.compare (pp_height a.2) (pp_height b.2) with
  | Lt => true
  | Gt => false
  | Eq => match bytes_cmp a.1 b.1 with Gt => false | _ => true end
  end.
Definition height_hash_le (a b : bytes * PendingProof) : Prop := height_hash_leb a b = true.
#[export] Instance height_hash_le_dec : RelDecision height_hash_le.
Proof. intros a b. unfold height_hash_le. apply _. Defined.

Definition oldest (q : ProofRetries) : option bytes := fst <$> head (merge_sort height_hash_le (map_order q)).

(** [ProofRetries::track]: whether the proof has to be requested. *)
Definition track (hash : bytes) (height : Z) (peer : SocketAddr) (now : Z) (q : ProofRetries) : ProofRetries * bool :=
  if bool_decide (is_Some (q !! hash)) then (q, false) else
  let q := if MAX_PENDING_PROOFS <=? Z.of_nat (size q)
           then match oldest q with Some old => delete old q | None => q end
           else q in
  (<[hash := mkPending height peer now (now + RETRY_DELAY) 1]> q, true).

(** [ProofRetries::complete], [ProofRetries::prune]. *)
Definition complete (hash : bytes) (q : ProofRetries) : ProofRetries := delete hash q.
Definition alive (now : Z) (keep : bytes -> Z -> bool) (e : bytes * PendingProof) : bool :=
  (elapsed now (pp_created e.2) <? REQUEST_TTL) &&
  ((pp_attempts e.2 <? MAX_ATTEMPTS) || (now <? pp_next_attempt e.2)) && keep e.1 (pp_height e.2).
Definition prune_pending (now : Z) (keep : bytes -> Z -> bool) (q : ProofRetries) : ProofRetries :=
  filter (fun e => alive now keep e = true) q.

(** The order in which requests that are due are repeated. *)
Definition due_leb (a b : bytes * PendingProof) : bool :=
  match Z.compare (pp_next_attempt a.2) (pp_next_attempt b.2) with
  | Lt => true
  | Gt => false
  | Eq => height_hash_leb a b
  end.
Definition due_le (a b : bytes * PendingProof) : Prop := due_leb a b = true.
#[export] Instance due_le_dec : RelDecision due_le.
Proof. intros a b. unfold due_le. apply _. Defined.

(** Whom to ask: the peer of the entry, or the others in turn. *)
Definition next_peer (peers : list (SocketAddr * Z)) (e : PendingProof) : option (SocketAddr * Z) :=
  match List.find (fun p => bool_decide (p.1 = pp_peer e)) peers with
  | Some p => Some p
  | None => vec_at peers ((pp_attempts e - 1) mod zlen peers)
  end.
Definition retried (now : Z) (e : PendingProof) : PendingProof :=
  mkPending (pp_height e) (pp_peer e) (pp_created e) (now + RETRY_DELAY) (pp_attempts e + 1).

Definition retry_one (now : Z) (peers : list (SocketAddr * Z))
    (acc : ProofRetries * list (bytes * SocketAddr * Z)) (e : bytes * PendingProof)
    : ProofRetries * list (bytes * SocketAddr * Z) :=
  match next_peer peers e.2 with
  | Some (peer, version) => (<[e.1 := retried now e.2]> acc.1, acc.2 ++ [(e.1, peer, version)])
  | None => acc
  end.

Definition is_due (now : Z) (e : bytes * PendingProof) : bool :=
  (pp_next_attempt e.2 <=? now) && (pp_attempts e.2 <? MAX_ATTEMPTS).

(** [ProofRetries::due]: what to ask whom. *)
Definition due (now : Z) (peers : list (SocketAddr * Z)) (q : ProofRetries) : ProofRetries * list (bytes * SocketAddr * Z) :=
  let q := prune_pending now (fun _ _ => true) q in
  match peers with
  | [] => (q, [])
  | _ => foldl (retry_one now peers) (q, [])
           (take MAX_RETRIES_PER_TICK (merge_sort due_le (List.filter (is_due now) (map_order q))))
  end.
End retries.

(** ** The windows hold *)

(** What the budget has admitted, with the oldest first. *)
Fixpoint admissions (reqs : list (IpAddr * Z)) (b : ProofBudget) : list (IpAddr * Z) :=
  match reqs with
  | [] => []
  | (ip, now) :: reqs =>
      let '(b, ok) := try_admit ip now b in
      if ok then (to_canonical ip, now) :: admissions reqs b else admissions reqs b
  end.

(** The admissions in the [PROOF_WINDOW] that starts at [t]. *)
Definition in_window (t : Z) (e : IpAddr * Z) : bool := (t <=? e.2) && (e.2 <? t + PROOF_WINDOW).

Definition recent (now : Z) (times : list Z) : list Z := filter (fun t => elapsed now t < PROOF_WINDOW) times.
Definition within_window (t : Z) (times : list Z) : list Z := filter (fun x => t <= x < t + PROOF_WINDOW) times.

(** A queue [l] that stands for the admissions [h] until [now], at most [cap] in a window. *)
Record window (cap : Z) (h l : list Z) (now : Z) : Prop := {
  wi_past : Forall (fun t => t <= now) h;
  wi_sorted : StronglySorted Z.le l;
  wi_recent : forall t, now <= t -> recent t l = recent t h;
  wi_cap : forall t, zlen (within_window t h) <= cap;
}.

Lemma filter_all {A} (P : A -> Prop) `{forall x, Decision (P x)} l : Forall P l -> filter P l = l.
Proof. induction 1; [done|]. rewrite filter_cons_True by done. by f_equal. Qed.

Lemma filter_mono {A} (P Q : A -> Prop) `{forall x, Decision (P x), forall x, Decision (Q x)} l :
  (forall x, x ∈ l -> P x -> Q x) -> zlen (filter P l) <= zlen (filter Q l).
Proof.
  induction l as [|a l IH]; intros HPQ; [done|]. assert (zlen (filter P l) <= zlen (filter Q l)) by (apply IH; intros x Hx; apply HPQ; by right).
  destruct (decide (P a)) as [Ha|Ha].
  - rewrite !filter_cons_True by (try apply HPQ; done || left). rewrite !zlen_cons. lia.
  - rewrite filter_cons_False by done. destruct (decide (Q a)); [rewrite filter_cons_True by done; rewrite zlen_cons; lia|].
    by rewrite filter_cons_False.
Qed.

Lemma expire_recent now l : StronglySorted Z.le l -> expire now l = recent now l.
Proof.
  induction 1 as [|t l Hs IH Hf]; [done|]. cbn [expire]. unfold recent in *. destruct (Z.leb_spec PROOF_WINDOW (elapsed now t)).
  - rewrite filter_cons_False by lia. done.
  - symmetry. apply filter_all. constructor; [done|]. eapply Forall_impl; [exact Hf|]. intros x Hx. unfold elapsed, sat_sub in *. simpl. lia.
Qed.

Lemma recent_recent now t l : now <= t -> recent t (recent now l) = recent t l.
Proof.
  intros Hle. unfold recent. rewrite list_filter_filter. apply list_filter_iff. intros x. unfold elapsed, sat_sub. lia.
Qed.

Lemma sorted_filter (P : Z -> Prop) `{forall x, Decision (P x)} l : StronglySorted Z.le l -> StronglySorted Z.le (filter P l).
Proof.
  induction 1 as [|t l Hs IH Hf]; [constructor|]. destruct (decide (P t)).
  - rewrite filter_cons_True by done. constructor; [done|]. apply Forall_forall. intros x [_ Hx]%list_elem_of_filter.
    by eapply Forall_forall in Hf.
  - by rewrite filter_cons_False.
Qed.

Lemma window_expire cap h l now now' : window cap h l now -> now <= now' -> window cap h (expire now' l) now' /\ expire now' l = recent now' h.
Proof.
  intros [W1 W2 W3 W4] Hle. rewrite expire_recent by done. split; [|by apply W3]. split.
  - eapply Forall_impl; [exact W1|]. simpl. lia.
  - by apply sorted_filter.
  - intros t Ht. rewrite recent_recent by done. apply W3. lia.
  - done.
Qed.

Lemma window_push cap h now : Forall (fun t => t <= now) h -> StronglySorted Z.le (recent now h) ->
  (forall t, zlen (within_window t h) <= cap) -> zlen (recent now h) < cap ->
  window cap (h ++ [now]) (recent now h ++ [now]) now.
Proof.
  intros H1 H2 H3 H4. split.
  - apply Forall_app. split; [done|]. by apply Forall_singleton.
  - apply StronglySorted_app_2; [|done|repeat constructor]. intros x y [_ Hx]%list_elem_of_filter ->%list_elem_of_singleton.
    by eapply Forall_forall in H1.
  - intros t Ht. unfold recent at 1 3. rewrite !filter_app. f_equal. by apply recent_recent.
  - intros t. unfold within_window. rewrite filter_app. destruct (decide (t <= now < t + PROOF_WINDOW)) as [Hin|Hout].
    + rewrite zlen_app. assert (zlen (filter (fun x => t <= x < t + PROOF_WINDOW) h) <= zlen (recent now h)).
      { apply filter_mono. intros x Hx Hw. rewrite Forall_forall in H1. specialize (H1 x Hx). unfold elapsed, sat_sub, PROOF_WINDOW, secs in *. lia. }
      pose proof (length_filter (fun x => t <= x < t + PROOF_WINDOW) [now]). unfold zlen in *. simpl in *. lia.
    + rewrite (filter_singleton_False _ now) by done. rewrite app_nil_r. apply H3.
Qed.

Lemma window_start cap now : 0 <= cap -> window cap [] [] now.
Proof. intros Hc. split; [constructor|constructor|done|done]. Qed.

Lemma window_later cap h l now now' : window cap h l now -> now <= now' -> window cap h l now'.
Proof.
  intros [W1 W2 W3 W4] Hle. split; [|done| |done].
  - eapply Forall_impl; [exact W1|]. simpl. lia.
  - intros t Ht. apply W3. lia.
Qed.

(** The queues of a budget that has admitted [h] until [now]. *)
Definition of_ip (ip : IpAddr) (h : list (IpAddr * Z)) : list Z := (filter (fun e => e.1 = ip) h).*2.
Record budget_ok (h : list (IpAddr * Z)) (b : ProofBudget) (now : Z) : Prop := {
  bu_global : window PROOFS_GLOBAL h.*2 (global b) now;
  bu_ip : forall ip, window PROOFS_PER_IP (of_ip ip h) (default [] (per_ip b !! ip)) now;
}.

Lemma expire_ip now ip b : default [] (per_ip (expire_all now b) !! ip) = expire now (default [] (per_ip b !! ip)).
Proof.
  cbn. rewrite lookup_omap. destruct (per_ip b !! ip) as [times|]; [|done]. cbn. by destruct (expire now times).
Qed.

Lemma admit_ok h b now ip now' : budget_ok h b now -> now <= now' ->
  budget_ok (if (try_admit ip now' b).2 then h ++ [(to_canonical ip, now')] else h) (try_admit ip now' b).1 now'.
Proof.
  intros [B1 B2] Hle. unfold try_admit. cbv zeta. destruct (window_expire _ _ _ _ _ B1 Hle) as [G1 G2].
  assert (I1 : forall a, window PROOFS_PER_IP (of_ip a h) (default [] (per_ip (expire_all now' b) !! a)) now' /\
    default [] (per_ip (expire_all now' b) !! a) = recent now' (of_ip a h)).
  { intros a. rewrite expire_ip. by eapply window_expire. }
  destruct (I1 (to_canonical ip)) as [J1 J2]. set (a := to_canonical ip) in *.
  change (global (expire_all now' b)) with (expire now' (global b)) in *.
  destruct (Z.leb_spec PROOFS_GLOBAL (zlen (expire now' (global b)))); cbn [orb fst snd]; [split; [done|apply I1]|].
  destruct (Z.leb_spec PROOFS_PER_IP (zlen (default [] (per_ip (expire_all now' b) !! a)))); cbn [fst snd]; [split; [done|apply I1]|].
  split; cbn [global per_ip].
  - rewrite fmap_app. cbn. rewrite G2 in *. destruct G1 as [W1 W2 W3 W4]. by apply window_push.
  - rewrite J2 in J1 |- *. rewrite J2 in *. intros a'. unfold of_ip at 1. rewrite filter_app, fmap_app. destruct (decide (a = a')) as [<-|Hne].
    + rewrite lookup_insert_eq, filter_singleton_True by done. cbn. fold (of_ip a h). destruct J1 as [W1 W2 W3 W4].
      by apply window_push.
    + rewrite lookup_insert_ne, filter_singleton_False by done. rewrite app_nil_r. apply I1.
Qed.

Lemma admissions_ok reqs : forall h b now, budget_ok h b now -> StronglySorted Z.le reqs.*2 -> Forall (fun e => now <= e.2) reqs ->
  exists b' now', budget_ok (h ++ admissions reqs b) b' now'.
Proof.
  induction reqs as [|[ip t] reqs IH]; intros h b now Hb Hs Hf; [exists b, now; by rewrite app_nil_r|].
  apply Forall_cons in Hf as [Ht Hf]. cbn in Ht, Hs. apply StronglySorted_inv in Hs as [Hs Hle].
  pose proof (admit_ok h b now ip t Hb Ht) as H1. cbn [admissions]. destruct (try_admit ip t b) as [b1 ok].
  cbn [fst snd] in H1. assert (Hf' : Forall (fun e => t <= e.2) reqs).
  { apply Forall_forall. intros e He. eapply Forall_forall in Hle; [exact Hle|]. apply list_elem_of_fmap. eauto. }
  destruct (IH _ _ _ H1 Hs Hf') as (b' & now' & H2). exists b', now'. destruct ok; [|done].
  rewrite <- app_assoc in H2. exact H2.
Qed.

(** the budget for rebuilding stake proofs holds in every window. For requests in the order
    of time, of all that are admitted in any stretch of sixty seconds there are at most 200,
    and at most 100 from one address (IPv4-mapped addresses count as IPv4). *)
Theorem proof_budget_holds reqs t :
  StronglySorted Z.le reqs.*2 ->
  let admitted := filter (fun e => t <= e.2 < t + PROOF_WINDOW) (admissions reqs no_budget) in
  zlen admitted <= PROOFS_GLOBAL /\ forall ip, zlen (filter (fun e => e.1 = ip) admitted) <= PROOFS_PER_IP.
Proof.
  intros Hs. cbv zeta. destruct (admissions_ok reqs [] no_budget (foldr Z.min 0 reqs.*2)) as (b & now & [B1 B2]); [| done| |].
  - split; [by apply window_start|]. intros ip. cbn. rewrite lookup_empty. by apply window_start.
  - clear Hs. apply Forall_forall. intros e He. assert (e.2 ∈ reqs.*2) as Hx by (apply list_elem_of_fmap; eauto).
    revert Hx. generalize (reqs.*2) (e.2). clear. induction l as [|x l IH]; intros z; [by intros ?%elem_of_nil|].
    cbn. intros [->|Hz%IH]%elem_of_cons; lia.
  - cbn [app] in *. set (adm := admissions reqs no_budget) in *.
    assert (Hw : forall l, zlen (filter (fun e : IpAddr * Z => t <= e.2 < t + PROOF_WINDOW) l) = zlen (within_window t l.*2)).
    { intros l. unfold within_window, zlen. f_equal. induction l as [|e l IH]; [done|]. cbn [fmap list_fmap].
      rewrite !filter_cons. destruct (decide _); cbn; by rewrite IH. }
    split; [rewrite Hw; apply (wi_cap _ _ _ _ B1)|]. intros ip. rewrite list_filter_filter.
    rewrite (list_filter_iff _ (fun e => t <= e.2 < t + PROOF_WINDOW /\ e.1 = ip)) by (intros; tauto).
    rewrite <- list_filter_filter, Hw. apply (wi_cap _ _ _ _ (B2 ip)).
Qed.

(** ** The queue stays bounded *)

Section queue.
Context {MO : MapOrder} {ML : MapOrderLaws MO}.

Definition queue_ok (q : ProofRetries) : Prop :=
  Z.of_nat (size q) <= MAX_PENDING_PROOFS /\ forall hash e, q !! hash = Some e -> 1 <= pp_attempts e <= MAX_ATTEMPTS.

Lemma oldest_in q : q <> ∅ -> exists old e, oldest q = Some old /\ q !! old = Some e.
Proof.
  intros Hne. unfold oldest. destruct (merge_sort height_hash_le (map_order q)) as [|[h e] l] eqn:E.
  - exfalso. apply Hne. apply map_to_list_empty_iff, Permutation_nil_r. rewrite <- map_order_perm.
    rewrite <- (merge_sort_Permutation height_hash_le (map_order q)). by rewrite E.
  - exists h, e. split; [done|]. apply elem_of_map_to_list. rewrite <- map_order_perm, <- (merge_sort_Permutation height_hash_le (map_order q)).
    rewrite E. left.
Qed.

Lemma track_ok hash height peer now q : queue_ok q -> queue_ok (track hash height peer now q).1.
Proof.
  intros [Q1 Q2]. unfold track. case_bool_decide as Hin; [done|]. cbn [fst]. apply eq_None_not_Some in Hin.
  match goal with |- context [if ?b then ?x else q] => set (q1 := if b then x else q) end.
  assert (Hq : q1 ⊆ q /\ Z.of_nat (size q1) < MAX_PENDING_PROOFS).
  { unfold q1. destruct (Z.leb_spec MAX_PENDING_PROOFS (Z.of_nat (size q))) as [Hge|]; [|done].
    destruct (oldest_in q) as (old & e & -> & He); [intros ->; by apply Hge|].
    split; [apply delete_subseteq|]. rewrite map_size_delete_Some by by eexists. unfold MAX_PENDING_PROOFS in *. lia. }
  destruct Hq as [Hsub Hlt]. split.
  - rewrite map_size_insert. destruct (q1 !! hash); unfold id; lia.
  - intros k e [[<- <-]|[_ Hk]]%lookup_insert_Some; [done|]. eapply Q2, lookup_weaken; done.
Qed.

Lemma prune_pending_ok now keep q : queue_ok q -> queue_ok (prune_pending now keep q).
Proof.
  intros [Q1 Q2]. split.
  - etrans; [|exact Q1]. apply inj_le, map_subseteq_size, map_filter_subseteq.
  - intros k e [Hk _]%map_lookup_filter_Some. by eapply Q2.
Qed.

Lemma next_peer_some peers e : peers <> [] -> 1 <= pp_attempts e -> exists p, next_peer peers e = Some p /\ p ∈ peers.
Proof.
  intros Hne Ha. unfold next_peer. destruct (List.find _ peers) as [p|] eqn:E.
  - exists p. split; [done|]. apply find_some in E as [Hin _]. by apply list_elem_of_In.
  - assert (0 < zlen peers) by (destruct peers; [done|rewrite zlen_cons; pose proof (zlen_nonneg peers); lia]).
    pose proof (Z.mod_pos_bound (pp_attempts e - 1) (zlen peers) ltac:(done)) as Hm. unfold vec_at.
    rewrite (proj2 (Z.leb_le _ _)) by lia. destruct (lookup_lt_is_Some_2 peers (Z.to_nat ((pp_attempts e - 1) mod zlen peers))) as [p Hp].
    { unfold zlen in *. lia. }
    exists p. split; [done|]. by eapply list_elem_of_lookup_2.
Qed.

Lemma NoDup_keys_filter {A} (f : bytes * A -> bool) l : NoDup l.*1 -> NoDup (List.filter f l).*1.
Proof.
  induction l as [|x l IH]; [done|]. cbn. intros [Hx Hnd]%NoDup_cons. destruct (f x); [|by apply IH]. cbn. constructor; [|by apply IH].
  intros (y & E & Hy)%list_elem_of_fmap. apply Hx. rewrite E. apply list_elem_of_fmap. exists y. split; [done|].
  apply list_elem_of_In, filter_In in Hy as [Hy _]. by apply list_elem_of_In.
Qed.

(** The loop over the requests [l] that are due. *)
Lemma retry_all now peers l : forall q asks, peers <> [] -> NoDup l.*1 ->
  (forall k e, (k, e) ∈ l -> q !! k = Some e /\ 1 <= pp_attempts e) ->
  exists q' more, foldl (retry_one now peers) (q, asks) l = (q', asks ++ more) /\ length more = length l /\
    (forall k e, (k, e) ∈ l -> q' !! k = Some (retried now e)) /\ (forall k, k ∉ l.*1 -> q' !! k = q !! k) /\
    (forall k peer v, (k, peer, v) ∈ more -> k ∈ l.*1 /\ (peer, v) ∈ peers).
Proof.
  induction l as [|[k0 e0] l IH]; intros q asks Hne Hnd Hq.
  - exists q, []. rewrite app_nil_r. split_and!; [done|done| |done|]; [by intros ? ? ?%elem_of_nil|by intros ? ? ? ?%elem_of_nil].
  - cbn [fmap list_fmap] in Hnd. apply NoDup_cons in Hnd as [Hx Hnd]. destruct (Hq k0 e0) as [Hk0 Ha0]; [left|].
    cbn [foldl]. unfold retry_one at 2. cbn [fst snd]. destruct (next_peer_some peers e0 Hne Ha0) as ([peer v] & Ep & Hin). rewrite Ep.
    destruct (IH (<[k0 := retried now e0]> q) (asks ++ [(k0, peer, v)]) Hne Hnd) as (q' & more & E & L & F1 & F2 & F3).
    { intros k e Hke. assert (k <> k0) by (intros ->; apply Hx, list_elem_of_fmap; by exists (k0, e)).
      rewrite lookup_insert_ne by done. apply Hq. by right. }
    exists q', ((k0, peer, v) :: more). rewrite E, <- app_assoc. split; [done|]. split; [cbn; lia|]. split_and!.
    + intros k e [[= -> ->]|Hke]%elem_of_cons; [|by apply F1]. rewrite F2 by done. by rewrite lookup_insert_eq.
    + intros k Hk. cbn in Hk. apply not_elem_of_cons in Hk as [H1 H2]. rewrite F2 by done. by rewrite lookup_insert_ne.
    + intros k p w [[= -> -> ->]|Hm]%elem_of_cons; [split; [left|done]|]. destruct (F3 k p w Hm). split; [by right|done].
Qed.

(** Requests are repeated for entries that wait for it, to connected peers, and never more than
    [MAX_ATTEMPTS] times; the queue keeps its bounds. *)
Lemma due_sound now peers q : queue_ok q ->
  queue_ok (due now peers q).1 /\ (length (due now peers q).2 <= MAX_RETRIES_PER_TICK)%nat /\
  forall k peer v, (k, peer, v) ∈ (due now peers q).2 ->
    (peer, v) ∈ peers /\ exists e, q !! k = Some e /\ pp_next_attempt e <= now /\ pp_attempts e < MAX_ATTEMPTS /\
      (due now peers q).1 !! k = Some (retried now e).
Proof.
  intros Hq. unfold due. pose proof (prune_pending_ok now (fun _ _ => true) q Hq) as Hq1.
  set (q1 := prune_pending _ _ q) in *. destruct peers as [|p ps] eqn:Ep; [split; [done|]; split; [cbn; lia|by intros ? ? ? ?%elem_of_nil]|].
  rewrite <- Ep in *. set (l := take _ _).
  assert (Hl : forall k e, (k, e) ∈ l -> q1 !! k = Some e /\ is_due now (k, e) = true).
  { intros k e Hin. apply elem_of_take in Hin as (i & Hi%list_elem_of_lookup_2 & _). rewrite merge_sort_Permutation in Hi.
    apply list_elem_of_In, filter_In in Hi as [Hi Hd]. split; [|done]. apply list_elem_of_In in Hi. rewrite map_order_perm in Hi.
    by apply elem_of_map_to_list. }
  assert (Hnd : NoDup l.*1).
  { unfold l. rewrite fmap_take. eapply sublist_NoDup; [|apply sublist_take].
    rewrite merge_sort_Permutation. apply NoDup_keys_filter. rewrite map_order_perm. apply NoDup_fst_map_to_list. }
  destruct (retry_all now peers l q1 [] ltac:(by rewrite Ep) Hnd) as (q' & more & E & L & F1 & F2 & F3).
  { intros k e [Hk _]%Hl. split; [done|]. by apply (proj2 Hq1 k). }
  rewrite E. cbn [fst snd app]. assert (Hin : forall k, k ∈ l.*1 -> exists e, (k, e) ∈ l).
  { intros k ([k' e] & -> & He)%list_elem_of_fmap. by exists e. }
  split; [split|split].
  - rewrite <- size_dom. replace (dom q') with (dom q1); [rewrite size_dom; apply Hq1|]. apply set_eq. intros k.
    rewrite !elem_of_dom. destruct (decide (k ∈ l.*1)) as [[e He]%Hin|Hn]; [|by rewrite F2].
    rewrite (F1 k e He). destruct (Hl k e He) as [-> _]. split; by eexists.
  - intros k e' Hk. destruct (decide (k ∈ l.*1)) as [[e He]%Hin|Hn]; [|rewrite F2 in Hk by done; by apply (proj2 Hq1 k)].
    rewrite (F1 k e He) in Hk. injection Hk as <-. destruct (Hl k e He) as [Hk Hd].
    apply andb_true_iff in Hd as [_ Hd%Z.ltb_lt]. pose proof (proj2 Hq1 k e Hk). cbn in *. lia.
  - rewrite L. unfold l. rewrite length_take. lia.
  - intros k peer v Hm. destruct (F3 k peer v Hm) as [[e He]%Hin Hp]. split; [done|]. destruct (Hl k e He) as [Hk Hd].
    apply map_lookup_filter_Some in Hk as [Hk _]. apply andb_true_iff in Hd as [Hd1%Z.leb_le Hd2%Z.ltb_lt].
    exists e. split_and!; [done..|]. by apply F1.
Qed.
End queue.
