(* ===== verification/Events.v ===== *)
(** * What the node reports

    Models [vtorrent-node/src/events.rs] and the events that [handle_block] of
    [node/handler.rs] emits for the outcome of a block. *)

From stdpp Require Import base list gmap strings.
From Stdlib Require Import ZArith.
From S2P Require Import Prelude Script Crypto Engine Standard Merkle Codec Block Address Consensus.
From S2P Require Import Deployments Governance Ledger Chain Wire Peers.

Inductive NodeEvent : Type :=
  | NewBlock (height : Z) (hash : bytes) (tx_count timestamp size_bytes : Z) (block : Block)
      (utxos_added : list Utxo) (utxos_removed : list OutPoint) (claimed_addresses : list bytes)
  | TxConfirmed (id : bytes) (block_height : Z) (block_hash : bytes)
  | TxUnconfirmed (id : bytes) (fee_sats size_bytes : Z)
  | PeerConnected (addr : SocketAddr) (agent : string) (version height : Z)
  | PeerDisconnected (addr : SocketAddr)
  | Reorganized (old_tip new_tip : bytes) (depth : Z) (rolled_back_blocks : list RolledBackBlock)
      (applied_fork_blocks : list AppliedForkBlock)
  | StakingReward (block_height reward_sats : Z) (address : bytes).

Section events.
Context {C : Crypto} {B : Bincode} {JB : Json Block}.

(** The size of a block in [NewBlock]. *)
Definition json_size (block : Block) : Z := match to_vec block with Some v => zlen v | None => 0 end.

(** The events for the outcome [a] of [block]. *)
Definition block_events (block : Block) (a : BlockAcceptance) : list NodeEvent :=
  match a with
  | MainChain height utxos_added utxos_removed claimed_addresses =>
      NewBlock height (block_hash block) (zlen (transactions block)) (timestamp (header block)) (json_size block) block
        utxos_added utxos_removed claimed_addresses ::
      map (fun tx => TxConfirmed (txid tx) height (block_hash block)) (transactions block)
  | Reorg old_tip new_tip depth _ rolled_back_blocks applied_fork_blocks =>
      [Reorganized old_tip new_tip depth rolled_back_blocks applied_fork_blocks]
  | Fork _ | Duplicate => []
  end.
End events.
