(* ===== verification/Store.v ===== *)
(** * The block store

    Models [vtorrent-store/src/store.rs] and the bridge of [vtorrent-daemon/src/main.rs]
    that writes the outcome of [Chain::add_block] to it.  The five tables of the database
    are finite maps with the keys and encodings of the source: hexadecimal hashes, the
    text ["txid:vout"], decimal heights, and JSON values, whose codec is a parameter.  A
    write transaction is atomic ([write_txn]): what fails before its commit changes
    nothing.  Failures of the database itself, log messages and the numbers in the texts of
    errors are not modelled. *)

From stdpp Require Import base list gmap sorting strings.
From Stdlib Require Import ZArith Lia.
From S2P Require Import Prelude Script Crypto Engine Standard Merkle Codec Block Address Consensus.
From S2P Require Import Deployments Governance Ledger Chain Events.
Import Scripts.

(** ** Data *)

Inductive StoreError : Type :=
  | Redb | RedbDatabase | RedbTransaction | RedbTable | RedbCommit | RedbStorage
  | Serde
  | BlockNotFound (hash : string)
  | Corrupted (message : string).

(** [hex::decode]. *)
Class HexDecode : Type := hex_decode : bytes -> option bytes.
Class HexDecodeLaws (H : Hex) (D : HexDecode) : Prop :=
  hex_round_trip : forall a, is_bytes a -> hex_decode (hex_encode a) = Some a.

(** The tables. The values of [CLAIMED_ADDRS] are all the same. *)
Record BlockStore : Type := mkStore {
  BLOCKS : gmap bytes bytes;
  HEIGHT_INDEX : gmap Z bytes;
  UTXOS : gmap bytes bytes;
  CLAIMED_ADDRS : gset bytes;
  META : gmap bytes bytes;
}.

Definition empty_store : BlockStore := mkStore ∅ ∅ ∅ ∅ ∅.

Definition STORE_PROTOCOL_VERSION : bytes := str "3".
Definition MAX_CHAIN_HEIGHT : Z := 10000000.

Definition with_blocks (f : gmap bytes bytes -> gmap bytes bytes) (s : BlockStore) : BlockStore :=
  mkStore (f (BLOCKS s)) (HEIGHT_INDEX s) (UTXOS s) (CLAIMED_ADDRS s) (META s).
Definition with_heights (f : gmap Z bytes -> gmap Z bytes) (s : BlockStore) : BlockStore :=
  mkStore (BLOCKS s) (f (HEIGHT_INDEX s)) (UTXOS s) (CLAIMED_ADDRS s) (META s).
Definition with_utxos (f : gmap bytes bytes -> gmap bytes bytes) (s : BlockStore) : BlockStore :=
  mkStore (BLOCKS s) (HEIGHT_INDEX s) (f (UTXOS s)) (CLAIMED_ADDRS s) (META s).
Definition with_claimed (f : gset bytes -> gset bytes) (s : BlockStore) : BlockStore :=
  mkStore (BLOCKS s) (HEIGHT_INDEX s) (UTXOS s) (f (CLAIMED_ADDRS s)) (META s).
Definition with_meta (f : gmap bytes bytes -> gmap bytes bytes) (s : BlockStore) : BlockStore :=
  mkStore (BLOCKS s) (HEIGHT_INDEX s) (UTXOS s) (CLAIMED_ADDRS s) (f (META s)).

(** A write transaction: without a commit its changes are dropped. *)
Definition write_txn {A} (m : st BlockStore StoreError A) : st BlockStore StoreError A := fun s =>
  match m s with
  | (s', Ok a) => (s', Ok a)
  | (_, r) => (s, r)
  end.

(** [str::parse::<u32>]: an optional plus sign and at least one digit, in range. *)
Definition push_digit (acc : option Z) (c : Z) : option Z :=
  match acc with
  | Some v =>
      if (48 <=? c) && (c <=? 57) && (10 * v + (c - 48) <=? u32_max) then Some (10 * v + (c - 48)) else None
  | None => None
  end.
Definition strip_plus (s : bytes) : bytes :=
  match s with
  | c :: digits => if c =? 43 then digits else s
  | [] => []
  end.
Definition parse_u32 (s : bytes) : option Z :=
  match strip_plus s with
  | [] => None
  | digits => foldl push_digit (Some 0) digits
  end.

(** The order of a table with string keys. *)
Definition key_le (a b : bytes) : Prop := bytes_cmp a b <> Gt.
#[export] Instance key_le_dec : RelDecision key_le.
Proof. intros a b. unfold key_le. apply _. Defined.

(** The values of a table, in the order of the keys. *)
Definition table_values (t : gmap bytes bytes) : list bytes :=
  omap (fun k => t !! k) (merge_sort key_le (map_to_list t).*1).

(** The heights [from..=to]. *)
Definition heights (from to : Z) : list Z := seqZ from (to - from + 1).

Module Store.
Section store.
Context {C : Crypto} {B : Bincode} {H : Hex} {N : Snapshot} {K : KeyOrder}.
Context {D : HexDecode} {JB : Json Block} {JU : Json Utxo}.
(** The block of [genesis::create_genesis_block]. *)
Context (genesis : Block).

Definition hash_hex (b : Block) : bytes := hex_encode (block_hash b).

(** The key of an output in [UTXOS]. *)
Definition utxo_key (k : OutPoint) : bytes := hex_encode k.1 ++ str ":" ++ dec_string k.2.

Definition serialize {A} `{Json A} (a : A) : res StoreError bytes :=
  match to_vec a with Some v => Ok v | None => Err Serde end.
Definition deserialize {A} `{Json A} (v : bytes) : res StoreError A :=
  match from_slice v with Some a => Ok a | None => Err Serde end.

(** ** Opening *)

Definition check_protocol : st BlockStore StoreError unit := fun s =>
  match META s !! str "protocol_version" with
  | Some version =>
      if bytes_eqb version STORE_PROTOCOL_VERSION then (s, Ok tt)
      else (s, Err (Corrupted "block store protocol is incompatible with required protocol; start with a new data directory"))
  | None =>
      if 0 <? Z.of_nat (size (HEIGHT_INDEX s))
      then (s, Err (Corrupted "legacy block store predates protocol 3 UTXO commitments; start with a new data directory"))
      else (with_meta (<[str "protocol_version" := STORE_PROTOCOL_VERSION]>) s, Ok tt)
  end.

(** The genesis block is entered when height 0 is missing. *)
Definition backfill_genesis : st BlockStore StoreError bool :=
  do* needs_genesis := sget (fun s => bool_decide (HEIGHT_INDEX s !! 0 = None)) in
  if needs_genesis then
    do* block_bytes := slift (serialize genesis) in
    do* _ := smod (with_blocks (<[hash_hex genesis := block_bytes]>)) in
    do* _ := smod (with_heights (<[0 := hash_hex genesis]>)) in
    sret true
  else sret false.

Definition max_indexed (s : BlockStore) : Z := foldr Z.max 0 (map_to_list (HEIGHT_INDEX s)).*1.

Definition stored_height (s : BlockStore) : Z :=
  match META s !! str "best_height" ≫= parse_u32 with Some h => h | None => 0 end.

Definition set_best (height : Z) (hash : bytes) (meta : gmap bytes bytes) : gmap bytes bytes :=
  <[str "best_hash" := hash]> (<[str "best_height" := dec_string height]> meta).

Definition repair_meta (backfilled : bool) : st BlockStore StoreError unit :=
  do* s := sget (fun s => s) in
  if backfilled || (stored_height s <? max_indexed s) then
    do* hash := slift (ok_or (HEIGHT_INDEX s !! max_indexed s) (Corrupted "height index missing block")) in
    smod (with_meta (set_best (max_indexed s) hash))
  else sret tt.

(** [BlockStore::open_with_cache] on the tables found at the path; [empty_store] if new. *)
Definition open_with_cache : st BlockStore StoreError unit :=
  write_txn (do* _ := check_protocol in do* backfilled := backfill_genesis in repair_meta backfilled).

(** ** Metadata *)

Definition best_height (s : BlockStore) : res StoreError Z :=
  match META s !! str "best_height" with
  | Some v => ok_or (parse_u32 v) (Corrupted "invalid best_height")
  | None => Ok 0
  end.

Definition decode_hash (v : bytes) (bad wrong : string) : res StoreError bytes :=
  let* hash := ok_or (hex_decode v) (Corrupted bad) in
  if zlen hash =? 32 then Ok hash else Err (Corrupted wrong).

Definition best_hash (s : BlockStore) : res StoreError (option bytes) :=
  match META s !! str "best_hash" with
  | Some v => let* hash := decode_hash v "invalid best_hash hex" "best_hash wrong length" in Ok (Some hash)
  | None => Ok None
  end.

(** ** Writing *)

Fixpoint insert_utxos (us : list Utxo) : st BlockStore StoreError unit :=
  match us with
  | [] => sret tt
  | u :: us =>
      do* val := slift (serialize u) in
      do* _ := smod (with_utxos (<[utxo_key (outpoint u) := val]>)) in
      insert_utxos us
  end.

Definition remove_utxos (ks : list OutPoint) (utxos : gmap bytes bytes) : gmap bytes bytes :=
  foldl (fun t k => delete (utxo_key k) t) utxos ks.

(** [BlockStore::append_block]. *)
Definition append_block (block : Block) (height : Z) (utxos_added : list Utxo) (utxos_removed : list OutPoint)
    (claimed_addresses : list bytes) : st BlockStore StoreError unit :=
  do* block_bytes := slift (serialize block) in
  write_txn (
    do* _ := smod (with_blocks (<[hash_hex block := block_bytes]>)) in
    do* _ := smod (with_heights (<[height := hash_hex block]>)) in
    do* _ := insert_utxos utxos_added in
    do* _ := smod (with_utxos (remove_utxos utxos_removed)) in
    do* _ := smod (with_claimed (fun claimed => foldl (fun cl a => {[a]} ∪ cl) claimed claimed_addresses)) in
    smod (with_meta (set_best height (hash_hex block)))).

(** [BlockStore::rollback_tip]. *)
Definition rollback_tip (utxos_to_restore : list Utxo) (utxos_to_remove : list OutPoint)
    (claimed_to_remove : list bytes) : st BlockStore StoreError unit :=
  do* current_height := fun s => (s, best_height s) in
  if current_height =? 0 then serr (Corrupted "Cannot roll back genesis block") else
  let new_height := current_height - 1 in
  write_txn (
    do* _ := insert_utxos utxos_to_restore in
    do* _ := smod (with_utxos (remove_utxos utxos_to_remove)) in
    do* _ := smod (with_claimed (fun claimed => foldl (fun cl a => cl ∖ {[a]}) claimed claimed_to_remove)) in
    do* _ := smod (with_heights (delete current_height)) in
    do* s := sget (fun s => s) in
    do* new_hash := slift (ok_or (HEIGHT_INDEX s !! new_height) (Corrupted "no block at height")) in
    smod (with_meta (set_best new_height new_hash))).

(** ** Reading *)

Definition stored_block (s : BlockStore) (hash_hex : bytes) : res StoreError (option Block) :=
  match BLOCKS s !! hash_hex with
  | Some v => let* block := deserialize v in Ok (Some block)
  | None => Ok None
  end.

Definition get_block (s : BlockStore) (hash : bytes) : res StoreError (option Block) := stored_block s (hex_encode hash).

Definition get_block_at_height (s : BlockStore) (height : Z) : res StoreError (option Block) :=
  match HEIGHT_INDEX s !! height with
  | Some hash_hex => stored_block s hash_hex
  | None => Ok None
  end.

(** [BlockStore::main_chain_hashes]: gaps in the index are skipped. *)
Definition main_chain_hashes (s : BlockStore) : res StoreError (list bytes) :=
  let* height := best_height s in
  if MAX_CHAIN_HEIGHT <? height then Err (Corrupted "best_height exceeds maximum") else
  rfold (fun hashes h =>
      match HEIGHT_INDEX s !! h with
      | Some v => let* hash := decode_hash v "bad hash at height" "bad hash length" in Ok (hashes ++ [hash])
      | None => Ok hashes
      end) [] (heights 0 height).

Definition all_utxos (s : BlockStore) : res StoreError (list Utxo) :=
  rfold (fun us v => let* u := deserialize v in Ok (us ++ [u])) [] (table_values (UTXOS s)).

Definition utxos_for_script (s : BlockStore) (script : bytes) : res StoreError (list Utxo) :=
  let* us := all_utxos s in Ok (List.filter (fun u => bytes_eqb (utxo_script u) script) us).

Definition balance_for_script (s : BlockStore) (script : bytes) : res StoreError Z :=
  let* us := utxos_for_script s script in psum (map utxo_value us).

Definition has_utxo (s : BlockStore) (txid : bytes) (vout : Z) : bool :=
  bool_decide (is_Some (UTXOS s !! utxo_key (txid, vout))).

Definition get_utxo (s : BlockStore) (txid : bytes) (vout : Z) : res StoreError (option Utxo) :=
  match UTXOS s !! utxo_key (txid, vout) with
  | Some v => let* u := deserialize v in Ok (Some u)
  | None => Ok None
  end.

Definition is_claimed (s : BlockStore) (address : bytes) : bool := bool_decide (address ∈ CLAIMED_ADDRS s).
Definition all_claimed_addresses (s : BlockStore) : list bytes := merge_sort key_le (elements (CLAIMED_ADDRS s)).
Definition block_count (s : BlockStore) : Z := Z.of_nat (size (BLOCKS s)).
Definition utxo_count (s : BlockStore) : Z := Z.of_nat (size (UTXOS s)).

(** [impl BlockBodySource for BlockStore]. *)
Definition body_source (s : BlockStore) : BlockBodySource :=
  mkSource (fun hash => match get_block s hash with Ok b => b | _ => None end)
    (fun height => match get_block_at_height s height with Ok b => b | _ => None end).

(** ** Loading a chain *)

(** [Chain::add_block] on behalf of the store; its error becomes a message. The clock is
    read once. *)
Definition add_stored (now : Z) (block : Block) (message : string) : st Chain StoreError BlockAcceptance := fun c =>
  match add_block now block c with
  | (c', Ok a) => (c', Ok a)
  | (c', Err _) => (c', Err (Corrupted message))
  | (c', Panic) => (c', Panic)
  end.

(** One round of [replay_range]. *)
Definition replay_step (now : Z) (s : BlockStore) (h : Z) : st Chain StoreError unit :=
  do* found := slift (get_block_at_height s h) in
  match found with
  | Some block => do* _ := add_stored now block "replay failed" in sret tt
  | None => serr (Corrupted "missing block during load")
  end.
Definition replay_range (now : Z) (s : BlockStore) (from to : Z) : st Chain StoreError unit :=
  sfor (replay_step now s) (heights from to).

(** [first_failing_height]: the loop over [hs] with [max] as its last resort. *)
Fixpoint first_failing (now : Z) (s : BlockStore) (max : Z) (hs : list Z) : st Chain StoreError Z :=
  match hs with
  | [] => sret max
  | h :: hs =>
      match get_block_at_height s h with
      | Ok (Some block) => fun c =>
          match add_block now block c with
          | (c', Ok _) => first_failing now s max hs c'
          | (c', Err _) => (c', Ok h)
          | (c', Panic) => (c', Panic)
          end
      | Panic => slift Panic
      | _ => sret h
      end
  end.
Definition first_failing_height (now : Z) (s : BlockStore) (max : Z) : st Chain StoreError Z :=
  first_failing now s max (heights 1 max).

(** [truncate_above]. *)
Definition truncate_above (keep : Z) : st BlockStore StoreError unit :=
  do* from := slift (padd u32_max keep 1) in
  write_txn (smod (fun s =>
    let doomed := List.filter (fun '(h, _) => from <=? h) (map_to_list (HEIGHT_INDEX s)) in
    foldl (fun s '(h, hash_hex) => with_heights (delete h) (with_blocks (delete hash_hex) s)) s doomed)).

(** [clear_derived_state]. *)
Definition clear_derived_state : st BlockStore StoreError unit :=
  write_txn (
    do* _ := smod (with_utxos (fun t => foldl (fun t k => delete k t) t (map_to_list t).*1)) in
    smod (with_claimed (fun cl => foldl (fun cl a => cl ∖ {[a]}) cl (elements cl)))).

(** The database and the chain that is being built. *)
Definition on_store {A} (m : st BlockStore StoreError A) : st (BlockStore * Chain) StoreError A := fun '(s, c) =>
  let '(s', r) := m s in ((s', c), r).
Definition on_chain {A} (m : BlockStore -> st Chain StoreError A) : st (BlockStore * Chain) StoreError A := fun '(s, c) =>
  let '(c', r) := m s c in ((s, c'), r).

(** What [replay_and_repersist], [rebuild_from_blocks] and [reconcile_tail] do with the
    outcome of a block; [skip] says whether a duplicate is passed over. *)
Definition persist_accepted (block : Block) (h : Z) (skip : bool) (message : string) (a : BlockAcceptance)
    : st (BlockStore * Chain) StoreError unit :=
  match a with
  | MainChain _ utxos_added utxos_removed claimed => on_store (append_block block h utxos_added utxos_removed claimed)
  | Duplicate => if skip then sret tt else serr (Corrupted message)
  | _ => serr (Corrupted message)
  end.

(** One round of [replay_and_repersist]. *)
Definition repersist_height (now h : Z) : st (BlockStore * Chain) StoreError unit :=
  do* found := on_store (fun s => (s, get_block_at_height s h)) in
  do* block := slift (ok_or found (Corrupted "missing block during rebuild")) in
  do* a := on_chain (fun _ => add_stored now block "rebuild replay failed") in
  persist_accepted block h (h =? 0) "unexpected acceptance during rebuild" a.
Definition replay_and_repersist (now from to : Z) : st (BlockStore * Chain) StoreError unit :=
  sfor (repersist_height now) (heights from to).

(** [make_chain]. *)
Definition make_chain (regtest fast_stake : bool) : res StoreError Chain :=
  match (if regtest && fast_stake then new_regtest_fast genesis
         else if regtest then new_regtest genesis else new genesis) with
  | Ok c => Ok c
  | Err _ => Err (Corrupted "chain init failed")
  | Panic => Panic
  end.

(** The rounds of the self-heal in [load_into_chain_with_mode]. *)
Fixpoint heal_rounds (now : Z) (regtest fast_stake : bool) (rounds : nat) (replay_height : Z)
    : st (BlockStore * Chain) StoreError unit :=
  match rounds with
  | O => sret tt
  | S rounds => fun '(s, c) =>
      match replay_range now s 1 replay_height c with
      | (c', Ok _) => ((s, c'), Ok tt)
      | (c', Panic) => ((s, c'), Panic)
      | (c', Err _) =>
          (do* bad := on_chain (fun s => first_failing_height now s replay_height) in
           let keep := sat_sub bad 1 in
           do* _ := on_store (truncate_above keep) in
           do* _ := on_store clear_derived_state in
           do* fresh := slift (make_chain regtest fast_stake) in
           do* _ := on_chain (fun _ => smod (fun _ => fresh)) in
           do* _ := replay_and_repersist now 1 keep in
           heal_rounds now regtest fast_stake rounds keep) (s, c')
      end
  end.

(** ** Repairing the output table *)

(** The outputs the table should hold: those of the genesis block are left out. *)
Definition expected_utxos (c : Chain) : gmap bytes Utxo :=
  foldl (fun m u => <[utxo_key (outpoint u) := u]> m) ∅
    (List.filter (fun u => 0 <? utxo_height u) (utxo_values c)).

(** The checks of the height index. *)
Definition index_matches (c : Chain) (s : BlockStore) : res StoreError unit :=
  if negb (Z.of_nat (size (HEIGHT_INDEX s)) =? Chain.best_height c + 1)
  then Err (Corrupted "height index changed during UTXO repair")
  else if forallb (fun '(height, hash) => bool_decide (hex_encode <$> block_hash_at_height c height = Some hash))
            (map_to_list (HEIGHT_INDEX s))
  then Ok tt else Err (Corrupted "height index disagrees with replayed chain during UTXO repair").

(** One entry of the table: what is still expected, what must go and what must be written. *)
Definition repair_entry (acc : gmap bytes Utxo * list bytes * list (bytes * bytes)) (entry : bytes * bytes)
    : res StoreError (gmap bytes Utxo * list bytes * list (bytes * bytes)) :=
  let '(expected, remove, replace) := acc in
  let '(key, value) := entry in
  match expected !! key with
  | Some utxo =>
      if bool_decide (from_slice value = Some utxo) then Ok (delete key expected, remove, replace) else
      let* v := serialize utxo in Ok (delete key expected, remove, replace ++ [(key, v)])
  | None => Ok (expected, remove ++ [key], replace)
  end.

Definition repair_missing (replace : list (bytes * bytes)) (entry : bytes * Utxo) : res StoreError (list (bytes * bytes)) :=
  let* v := serialize entry.2 in Ok (replace ++ [(entry.1, v)]).

(** [repair_utxos]: whether anything was written. *)
Definition repair_utxos (c : Chain) : st BlockStore StoreError bool :=
  write_txn (
    do* s := sget (fun s => s) in
    do* _ := slift (index_matches c s) in
    do* (expected, remove, replace) := slift (rfold repair_entry (expected_utxos c, [], []) (map_to_list (UTXOS s))) in
    do* replace := slift (rfold repair_missing replace (map_to_list expected)) in
    match remove, replace with
    | [], [] => sret false
    | _, _ =>
        do* _ := smod (with_utxos (fun t => foldl (fun t k => delete k t) t remove)) in
        do* _ := smod (with_utxos (fun t => foldl (fun t '(k, v) => <[k := v]> t) t replace)) in
        sret true
    end).

(** [load_into_chain_with_mode]; [governance_activation] is the override of the tests. *)
Definition load_into_chain_with_mode (now : Z) (regtest fast_stake : bool) (cache : Z)
    (governance_activation : option Z) : st BlockStore StoreError Chain :=
  do* height := fun s => (s, best_height s) in
  do* chain := slift (make_chain regtest fast_stake) in
  let chain := set_block_body_cache cache chain in
  let chain := match governance_activation with
               | Some activation => set_governance_test_activation activation chain
               | None => chain
               end in
  do* chain := fun s =>
    let '((s', c), r) := heal_rounds now regtest fast_stake (S (Z.to_nat height)) height (s, chain) in
    (s', let* _ := r in Ok c) in
  do* _ := repair_utxos chain in
  sret chain.

Definition load_into_chain (now : Z) : st BlockStore StoreError Chain :=
  load_into_chain_with_mode now false false usize_max None.
Definition load_into_regtest_chain (now : Z) : st BlockStore StoreError Chain :=
  load_into_chain_with_mode now true false usize_max None.
Definition load_into_fast_regtest_chain (now : Z) : st BlockStore StoreError Chain :=
  load_into_chain_with_mode now true true usize_max None.
Definition load_into_chain_with_cache (now cache : Z) : st BlockStore StoreError Chain :=
  load_into_chain_with_mode now false false cache None.
Definition load_into_regtest_chain_with_cache (now cache : Z) : st BlockStore StoreError Chain :=
  load_into_chain_with_mode now true false cache None.
Definition load_into_fast_regtest_chain_with_cache (now cache : Z) : st BlockStore StoreError Chain :=
  load_into_chain_with_mode now true true cache None.
Definition load_into_fast_regtest_chain_with_cache_and_governance (now cache governance_activation : Z)
    : st BlockStore StoreError Chain :=
  load_into_chain_with_mode now true true cache (Some governance_activation).
Definition load_into_regtest_chain_with_cache_and_governance (now cache governance_activation : Z)
    : st BlockStore StoreError Chain :=
  load_into_chain_with_mode now true false cache (Some governance_activation).

(** ** Rebuilding *)

(** One round of [rebuild_from_blocks_with_mode] and of [reconcile_tail]. *)
Definition rebuild_block (now : Z) (e : nat * Block) : st (BlockStore * Chain) StoreError unit :=
  let '(i, block) := e in
  let h := as_u32 (Z.of_nat i) in
  do* a := on_chain (fun _ => add_stored now block "rebuild failed") in
  persist_accepted block h (h =? 0) "unexpected acceptance during rebuild" a.

Definition reconcile_block (now start_height : Z) (e : nat * Block) : st (BlockStore * Chain) StoreError unit :=
  let '(i, block) := e in
  do* h := slift (padd u32_max start_height (as_u32 (Z.of_nat i))) in
  do* a := on_chain (fun _ => add_stored now block "reconcile failed") in
  persist_accepted block h false "unexpected acceptance during reconcile" a.

(** A loop over blocks that starts with [chain]; the chain is dropped at the end. *)
Definition with_chain (chain : Chain) (m : st (BlockStore * Chain) StoreError unit) : st BlockStore StoreError unit :=
  fun s => let '((s', _), r) := m (s, chain) in (s', r).

(** [rebuild_from_blocks_with_mode]. *)
Definition rebuild_from_blocks_with_mode (now : Z) (blocks : list Block) (regtest fast_stake : bool)
    : st BlockStore StoreError unit :=
  do* chain := slift (match make_chain regtest fast_stake with
                      | Err _ => Err (Corrupted "chain init failed during rebuild")
                      | r => r
                      end) in
  do* _ := truncate_above 0 in
  do* _ := clear_derived_state in
  with_chain chain (sfor (rebuild_block now) (imap pair blocks)).

Definition rebuild_from_blocks (now : Z) (blocks : list Block) : st BlockStore StoreError unit :=
  rebuild_from_blocks_with_mode now blocks false false.
Definition rebuild_from_regtest_blocks (now : Z) (blocks : list Block) : st BlockStore StoreError unit :=
  rebuild_from_blocks_with_mode now blocks true false.
Definition rebuild_from_fast_regtest_blocks (now : Z) (blocks : list Block) : st BlockStore StoreError unit :=
  rebuild_from_blocks_with_mode now blocks true true.

(** [reconcile_tail]. *)
Definition reconcile_tail (now : Z) (regtest fast_stake : bool) (cache start_height : Z) (blocks : list Block)
    : st BlockStore StoreError unit :=
  if start_height =? 0 then rebuild_from_blocks_with_mode now blocks regtest fast_stake else
  do* chain := (if regtest && fast_stake then load_into_fast_regtest_chain_with_cache now cache
                else if regtest then load_into_regtest_chain_with_cache now cache
                else load_into_chain_with_cache now cache) in
  do* expected := slift (padd u32_max (Chain.best_height chain) 1) in
  if negb (expected =? start_height) then serr (Corrupted "reconcile tail start is not the store tip + 1") else
  with_chain chain (sfor (reconcile_block now start_height) (imap pair blocks)).

(** ** The bridge of the daemon *)

(** Errors are logged. *)
Definition logged (m : st BlockStore StoreError unit) : st BlockStore StoreError unit := fun s =>
  match m s with
  | (s', Panic) => (s', Panic)
  | (s', _) => (s', Ok tt)
  end.

Definition persist_rollback (rb : RolledBackBlock) : st BlockStore StoreError unit :=
  logged (rollback_tip (utxos_to_restore rb) (utxos_to_remove rb) (claimed_to_remove rb)).
Definition persist_fork_block (fb : AppliedForkBlock) : st BlockStore StoreError unit :=
  logged (append_block (af_block fb) (af_height fb) (af_utxos_added fb) (af_utxos_removed fb) (af_claimed fb)).

(** What is written for the events [NewBlock] and [Reorg]. *)
Definition persist_new_block (block : Block) (height : Z) (utxos_added : list Utxo) (utxos_removed : list OutPoint)
    (claimed : list bytes) : st BlockStore StoreError unit :=
  logged (append_block block height utxos_added utxos_removed claimed).
Definition persist_reorg (rolled_back_blocks : list RolledBackBlock) (applied_fork_blocks : list AppliedForkBlock)
    : st BlockStore StoreError unit :=
  do* _ := sfor persist_rollback rolled_back_blocks in
  sfor persist_fork_block applied_fork_blocks.

(** The other events are not written. *)
Definition persist_event (e : NodeEvent) : st BlockStore StoreError unit :=
  match e with
  | NewBlock height _ _ _ _ block utxos_added utxos_removed claimed => persist_new_block block height utxos_added utxos_removed claimed
  | Reorganized _ _ _ rolled_back_blocks applied_fork_blocks => persist_reorg rolled_back_blocks applied_fork_blocks
  | _ => sret tt
  end.
Definition persist_events : list NodeEvent -> st BlockStore StoreError unit := sfor persist_event.

End store.
End Store.
