(* ===== verification/Restart.v ===== *)
(** * The store follows the chain

    Theorems about [Store.v].  The specification of the store is the view of an observer
    ([Mirror.v]); [mirrors] relates its tables to a view, and every write of the bridge
    follows the step of the view.  A node that stops and starts again loads the chain it
    had. *)

From stdpp Require Import base list gmap sorting strings.
From Stdlib Require Import ZArith Lia.
From S2P Require Import Prelude Script Crypto Engine Standard Merkle Codec Block Address Consensus.
From S2P Require Import Deployments Governance Ledger Supply History Chain Mirror Replay Progress Genesis Acceptance Events Store.
Import Scripts.

(** ** Lemmas: numbers and keys *)

Lemma push_digits ds : Forall (fun c => 48 <= c <= 57) ds -> dec_val ds <= u32_max ->
  0 <= dec_val ds /\ foldl push_digit (Some 0) (rev ds) = Some (dec_val ds).
Proof.
  induction ds as [|c ds IH]; intros Hd Hm; [by split|]. apply Forall_cons in Hd as [Hc Hd]. cbn [dec_val] in Hm.
  assert (Hle : dec_val ds <= u32_max).
  { destruct (Z.le_gt_cases (dec_val ds) u32_max); [done|]. unfold u32_max in *. lia. }
  destruct (IH Hd Hle) as [H0 E]. cbn [dec_val]. split; [lia|]. cbn [rev]. rewrite foldl_app, E. cbn [foldl push_digit].
  rewrite (proj2 (Z.leb_le 48 c)), (proj2 (Z.leb_le c 57)), (proj2 (Z.leb_le _ u32_max)) by lia. cbn [andb]. f_equal. lia.
Qed.

Lemma parse_dec z : 0 <= z <= u32_max -> parse_u32 (dec_string z) = Some z.
Proof.
  intros Hz. pose proof (dec_string_digits z) as Hd. unfold parse_u32.
  assert (strip_plus (dec_string z) = dec_string z) as ->.
  { destruct (dec_string z) as [|c l]; [done|]. apply Forall_inv in Hd. unfold strip_plus. by destruct (Z.eqb_spec c 43); [lia|]. }
  assert (dec_val (dec_rev 20 z) = z) as Ev by (apply dec_val_rev; unfold u32_max in *; lia).
  assert (Hr : foldl push_digit (Some 0) (dec_string z) = Some z).
  { unfold dec_string. rewrite <- Ev at 2. apply push_digits; [|lia]. unfold dec_string in Hd. apply Forall_rev in Hd.
    by rewrite rev_involutive in Hd. }
  destruct (dec_string z) eqn:E; [|done]. exfalso. apply (f_equal (@rev Z)) in E. unfold dec_string in E.
  rewrite rev_involutive in E. cbn [dec_rev rev] in E. done.
Qed.

Section keys.
Context {C : Crypto} {B : Bincode} {H : Hex} {CL : CryptoLaws C} {HL : HexLaws H}.

Definition key_bytes (k : OutPoint) : Prop := is_bytes k.1 /\ 0 <= k.2 <= u32_max.

Lemma well_keyed_bytes k : well_keyed k -> key_bytes k.
Proof. intros [[tx E] Hk]. split; [rewrite E; apply sha256_bytes|done]. Qed.

Lemma hex_no_colon a : is_bytes a -> Forall (fun z => z <> 58) (hex_encode a).
Proof. intros Ha. eapply Forall_impl; [by apply hex_digits|]. simpl. lia. Qed.

(** The text of a key determines it. *)
Lemma utxo_key_inj k k' : key_bytes k -> key_bytes k' -> Store.utxo_key k = Store.utxo_key k' -> k = k'.
Proof.
  intros [H1 H2] [H1' H2'] E. unfold Store.utxo_key in E.
  apply (split_at 58) in E as [E1 E2]; [|by apply hex_no_colon..].
  apply hex_inj in E1; [|done..]. apply dec_string_inj in E2; [|unfold u32_max in *; lia..].
  destruct k, k'. simpl in *. congruence.
Qed.

Lemma block_hash_bytes b : is_bytes (block_hash b).
Proof. apply sha256_bytes. Qed.

Lemma hash_hex_inj b b' : Store.hash_hex b = Store.hash_hex b' -> block_hash b = block_hash b'.
Proof. apply hex_inj; apply block_hash_bytes. Qed.
End keys.

(** ** What the tables hold *)

Section mirror.
Context {C : Crypto} {B : Bincode} {H : Hex} {N : Snapshot} {K : KeyOrder} {D : HexDecode} {JB : Json Block} {JU : Json Utxo}.
Context {CL : CryptoLaws C} {HL : HexLaws H} {JBL : JsonLaws Block JB} {JUL : JsonLaws Utxo JU}.

(** The output table: every entry is an unspent output, and every unspent output that was created
    above the genesis block has an entry. An output of the genesis block may be missing, or be there,
    when a block that spent it was rolled back. *)
Record utxos_mirror (m : gmap OutPoint Utxo) (t : gmap bytes bytes) : Prop := {
  um_keys : forall k, is_Some (m !! k) -> key_bytes k;
  um_sound : forall key v, t !! key = Some v -> exists k u, m !! k = Some u /\ key = Store.utxo_key k /\ from_slice v = Some u;
  um_complete : forall k u, m !! k = Some u -> 0 < utxo_height u -> exists v, t !! Store.utxo_key k = Some v /\ from_slice v = Some u;
}.

Lemma um_insert m t u v : key_bytes (outpoint u) -> from_slice v = Some u -> utxos_mirror m t ->
  utxos_mirror (<[(outpoint u : OutPoint) := u]> m) (<[Store.utxo_key (outpoint u) := v]> t).
Proof.
  intros Hk Hv [U1 U2 U3]. split.
  - intros k [<-|[_ Hm]]%lookup_insert_is_Some; [done|auto].
  - intros key v' [[<- <-]|[Hne Ht]]%lookup_insert_Some.
    + exists (outpoint u), u. by rewrite lookup_insert_eq.
    + destruct (U2 key v' Ht) as (k & u' & Hm & -> & Hv'). exists k, u'. rewrite lookup_insert_ne; [done|]. intros E. apply Hne. by rewrite E.
  - intros k u' [[<- <-]|[Hne Hm]]%lookup_insert_Some Hh; [exists v; by rewrite lookup_insert_eq|].
    rewrite lookup_insert_ne; [by apply U3|]. intros E. apply Hne. apply utxo_key_inj; [done| |done]. apply U1. by eexists.
Qed.

Lemma um_delete m t k : key_bytes k -> utxos_mirror m t -> utxos_mirror (delete k m) (delete (Store.utxo_key k) t).
Proof.
  intros Hk [U1 U2 U3]. split.
  - intros k' [_ Hm]%lookup_delete_is_Some. auto.
  - intros key v [Hne Ht]%lookup_delete_Some. destruct (U2 key v Ht) as (k' & u & Hm & -> & Hv). exists k', u.
    rewrite lookup_delete_ne; [done|]. by intros ->.
  - intros k' u [Hne Hm]%lookup_delete_Some Hh. rewrite lookup_delete_ne; [by apply U3|]. intros E. apply Hne.
    apply utxo_key_inj; [done| |done]. apply U1. by eexists.
Qed.

Lemma remove_utxos_mirror ks : forall m t, Forall key_bytes ks -> utxos_mirror m t ->
  utxos_mirror (spend_keys m ks) (Store.remove_utxos ks t).
Proof.
  induction ks as [|k ks IH]; intros m t Hk Hm; [done|]. apply Forall_cons in Hk as [Hk Hks].
  apply (IH (delete k m) (delete (Store.utxo_key k) t)); [done|]. by apply um_delete.
Qed.

Lemma insert_utxos_mirror us : forall m s, Forall (fun u => key_bytes (outpoint u)) us -> utxos_mirror m (UTXOS s) ->
  exists t, Store.insert_utxos us s = (with_utxos (fun _ => t) s, Ok tt) /\ utxos_mirror (create_utxos m us) t.
Proof.
  induction us as [|u us IH]; intros m s Hk Hm; [exists (UTXOS s); by destruct s|]. apply Forall_cons in Hk as [Hk Hks].
  destruct (json_round_trip u) as (v & Hv & Hu). cbn [Store.insert_utxos]. unfold Store.serialize. rewrite Hv.
  unfold sbind, slift, smod.
  destruct (IH (<[(outpoint u : OutPoint) := u]> m) (with_utxos (<[Store.utxo_key (outpoint u) := v]>) s)) as (t & E & Ht);
    [done|by apply um_insert|]. exists t. rewrite E. done.
Qed.

(** The tables of a store that has seen a view. Bodies of blocks that are not of the view may be
    there as well. *)
Record tables (v : View) (s : BlockStore) : Prop := {
  tb_heights : forall h, HEIGHT_INDEX s !! h = Store.hash_hex <$> vec_at (v_blocks v) h;
  tb_blocks : forall b, b ∈ v_blocks v -> exists j, BLOCKS s !! Store.hash_hex b = Some j /\ from_slice j = Some b;
  tb_utxos : utxos_mirror (v_utxos v) (UTXOS s);
  tb_claimed : CLAIMED_ADDRS s = v_claimed v;
}.

(** With its metadata. *)
Record mirrors (v : View) (s : BlockStore) : Prop := {
  mr_tables : tables v s;
  mr_height : META s !! str "best_height" = Some (dec_string (zlen (v_blocks v) - 1));
  mr_hash : META s !! str "best_hash" = Store.hash_hex <$> tip_block (v_blocks v);
  mr_protocol : META s !! str "protocol_version" = Some STORE_PROTOCOL_VERSION;
}.

(** Blocks that the store can tell apart. *)
Definition apart (bs : list Block) : Prop := NoDup (map block_hash bs) /\ 1 <= zlen bs <= u32_max + 1.

Lemma vec_at_snoc {A} (l : list A) x h : vec_at (l ++ [x]) h = if h =? zlen l then Some x else vec_at l h.
Proof.
  unfold vec_at, zlen. destruct (Z.leb_spec 0 h), (Z.eqb_spec h (Z.of_nat (length l))); try lia; try done.
  - subst h. rewrite Nat2Z.id. by apply list_lookup_middle.
  - destruct (decide (Z.to_nat h < length l)%nat); [by apply lookup_app_l|].
    rewrite (lookup_ge_None_2 l) by lia. apply lookup_ge_None. rewrite length_app. simpl. lia.
Qed.

Lemma foldl_claim (l : list bytes) : forall X : gset bytes, foldl (fun cl a => {[a]} ∪ cl) X l = list_to_set l ∪ X.
Proof.
  induction l as [|a l IH]; intros X; [by rewrite list_to_set_nil, union_empty_l_L|]. cbn [foldl]. rewrite IH, list_to_set_cons.
  by rewrite (assoc_L (∪)), (comm_L (∪) (list_to_set l)).
Qed.

Lemma set_best_lookup h hash meta :
  Store.set_best h hash meta !! str "best_height" = Some (dec_string h) /\
  Store.set_best h hash meta !! str "best_hash" = Some hash /\
  Store.set_best h hash meta !! str "protocol_version" = meta !! str "protocol_version".
Proof.
  unfold Store.set_best. split_and!; [|apply lookup_insert_eq|]; rewrite lookup_insert_ne by done;
    [apply lookup_insert_eq|by rewrite lookup_insert_ne].
Qed.

(** What writing a block does to the tables. *)
Lemma append_tables m s b h added removed claims :
  utxos_mirror m (UTXOS s) -> keyed added removed ->
  exists j t, from_slice j = Some b /\ utxos_mirror (sync added removed m) t /\
    Store.append_block b h added removed claims s =
      (mkStore (<[Store.hash_hex b := j]> (BLOCKS s)) (<[h := Store.hash_hex b]> (HEIGHT_INDEX s)) t
         (list_to_set claims ∪ CLAIMED_ADDRS s) (Store.set_best h (Store.hash_hex b) (META s)), Ok tt).
Proof.
  intros Hm [K1 K2]. destruct (json_round_trip b) as (vb & Hb & Hb'). exists vb.
  set (s1 := with_heights (<[h := Store.hash_hex b]>) (with_blocks (<[Store.hash_hex b := vb]>) s)).
  destruct (insert_utxos_mirror added m s1) as (t & E & Ht); [|done|].
  { eapply Forall_impl; [exact K1|]. intros u. apply well_keyed_bytes. }
  exists (Store.remove_utxos removed t). split; [done|]. split.
  { apply remove_utxos_mirror; [|done]. eapply Forall_impl; [exact K2|]. apply well_keyed_bytes. }
  unfold Store.append_block, Store.serialize. rewrite Hb.
  unfold sbind at 1, slift, write_txn, sbind at 1, smod at 1, sbind at 1, smod at 1. fold s1. unfold sbind at 1. rewrite E.
  unfold sbind, smod, with_meta, with_claimed, with_utxos. cbn [BLOCKS HEIGHT_INDEX UTXOS CLAIMED_ADDRS META].
  by rewrite foldl_claim.
Qed.

(** Writing a block follows the view. *)
Lemma append_view v v' s b h added removed claims :
  tables v s -> view_append b h added removed claims v v' -> apart (v_blocks v') ->
  exists s', Store.append_block b h added removed claims s = (s', Ok tt) /\ tables v' s' /\
    META s' = Store.set_best (zlen (v_blocks v)) (Store.hash_hex b) (META s).
Proof.
  intros [M1 M2 M3 M4] (-> & Hk & ->) [Hnd Hlen]. cbn [v_blocks] in *.
  destruct (append_tables (v_utxos v) s b (zlen (v_blocks v)) added removed claims M3 Hk) as (j & t & Hj & Ht & ->).
  eexists. split; [reflexivity|]. split; [|done]. split; cbn [BLOCKS HEIGHT_INDEX UTXOS CLAIMED_ADDRS v_blocks v_utxos v_claimed].
  - intros k. rewrite vec_at_snoc. destruct (Z.eqb_spec k (zlen (v_blocks v))) as [->|Hne]; [by rewrite lookup_insert_eq|].
    by rewrite lookup_insert_ne.
  - intros x. rewrite elem_of_app, list_elem_of_singleton. intros [Hx| ->]; [|exists j; by rewrite lookup_insert_eq].
    rewrite lookup_insert_ne; [by apply M2|]. intros Eh%hash_hex_inj. rewrite map_app in Hnd.
    apply NoDup_app in Hnd as (_ & Hd & _). apply (Hd (block_hash x)); [by apply list_elem_of_fmap_2|].
    cbn [map]. rewrite Eh. left.
  - exact Ht.
  - by rewrite M4.
Qed.

Lemma append_mirrors v v' s b h added removed claims :
  mirrors v s -> view_append b h added removed claims v v' -> apart (v_blocks v') ->
  exists s', Store.append_block b h added removed claims s = (s', Ok tt) /\ mirrors v' s'.
Proof.
  intros [M1 M2 M3 M4] Hv Hap. destruct (append_view v v' s b h added removed claims M1 Hv Hap) as (s' & E & T & Em).
  exists s'. split; [done|]. destruct Hv as (_ & _ & ->). cbn [v_blocks] in *.
  destruct (set_best_lookup (zlen (v_blocks v)) (Store.hash_hex b) (META s)) as (B1 & B2 & B3).
  split; [done|..]; rewrite Em; cbn [v_blocks].
  - rewrite B1, zlen_app. change (zlen [b]) with 1. by replace (zlen (v_blocks v) + 1 - 1) with (zlen (v_blocks v)) by lia.
  - by rewrite B2, tip_snoc.
  - by rewrite B3.
Qed.

Lemma stored_best v s : mirrors v s -> apart (v_blocks v) -> Store.best_height s = Ok (zlen (v_blocks v) - 1).
Proof. intros M [_ Hl]. unfold Store.best_height. rewrite (mr_height _ _ M), parse_dec by lia. done. Qed.

(** Rolling a block back follows the view. *)
Lemma rollback_mirrors v v' s rb :
  mirrors v s -> view_rollback rb v v' -> apart (v_blocks v) ->
  exists s', Store.rollback_tip (utxos_to_restore rb) (utxos_to_remove rb) (claimed_to_remove rb) s = (s', Ok tt) /\ mirrors v' s'.
Proof.
  intros M ([b Eb] & Hne & [K1 K2] & Eu & Ec) Hap. pose proof (stored_best v s M Hap) as Hbest.
  destruct M as [[M1 M2 M3 M4] M5 M6 M7]. unfold Store.rollback_tip, sbind at 1. rewrite Hbest, Eb, zlen_app.
  change (zlen [b]) with 1. replace (zlen (v_blocks v') + 1 - 1) with (zlen (v_blocks v')) by lia.
  assert (Hpos : 0 < zlen (v_blocks v')).
  { unfold zlen. destruct (v_blocks v'); [done|]. simpl. lia. }
  rewrite (proj2 (Z.eqb_neq _ _)) by lia.
  destruct (insert_utxos_mirror (utxos_to_restore rb) (v_utxos v) s) as (t & E & Ht); [|done|].
  { eapply Forall_impl; [exact K1|]. intros u. apply well_keyed_bytes. }
  unfold write_txn, sbind at 1. rewrite E. unfold sbind, smod, sget, slift. cbn [with_utxos with_claimed with_heights HEIGHT_INDEX].
  destruct (tip_exists _ Hne) as [b0 Ht0]. 
  assert (Hlast : delete (zlen (v_blocks v')) (HEIGHT_INDEX s) !! (zlen (v_blocks v') - 1) = Some (Store.hash_hex b0)).
  { rewrite lookup_delete_ne by lia. rewrite M1, Eb, vec_at_snoc, (proj2 (Z.eqb_neq _ _)) by lia. unfold vec_at.
    rewrite (proj2 (Z.leb_le _ _)) by lia. unfold tip_block in Ht0.
    replace (Z.to_nat (zlen (v_blocks v') - 1)) with (Nat.pred (length (v_blocks v'))) by (unfold zlen; lia). by rewrite Ht0. }
  rewrite Hlast. cbn [ok_or]. eexists. split; [reflexivity|].
  destruct (set_best_lookup (zlen (v_blocks v') - 1) (Store.hash_hex b0) (META s)) as (B1 & B2 & B3).
  split; [split|..]; cbn -[Store.set_best str].
  - intros k. destruct (decide (k = zlen (v_blocks v'))) as [->|Hk].
    + rewrite lookup_delete_eq. unfold vec_at, zlen. rewrite (proj2 (Z.leb_le _ _)), Nat2Z.id by lia.
      by rewrite lookup_ge_None_2 by lia.
    + by rewrite lookup_delete_ne, M1, Eb, vec_at_snoc, (proj2 (Z.eqb_neq _ _)) by done.
  - intros x Hx. apply M2. rewrite Eb. apply elem_of_app. by left.
  - rewrite Eu. apply remove_utxos_mirror; [|done]. eapply Forall_impl; [exact K2|]. apply well_keyed_bytes.
  - by rewrite foldl_difference, M4, Ec.
  - done.
  - by rewrite B2, Ht0.
  - by rewrite B3.
Qed.

Lemma apart_prefix xs ys : apart (xs ++ ys) -> xs <> [] -> apart xs.
Proof.
  intros [Hnd Hl] Hne. split.
  - rewrite map_app in Hnd. by apply NoDup_app in Hnd as (? & _).
  - rewrite zlen_app in Hl. pose proof (zlen_nonneg ys). unfold zlen in *. destruct xs; [done|]. simpl in *. lia.
Qed.

Lemma rollbacks_mirror rbs : forall v v' s,
  mirrors v s -> view_rollbacks rbs v v' -> apart (v_blocks v) ->
  exists s', sfor Store.persist_rollback rbs s = (s', Ok tt) /\ mirrors v' s'.
Proof.
  induction rbs as [|rb rbs IH]; intros v v' s M Hv Hap; cbn [sfor].
  - exists s. by rewrite Hv.
  - destruct Hv as (v1 & H1 & H2). destruct (rollback_mirrors v v1 s rb M H1 Hap) as (s1 & E1 & M1).
    unfold sbind, Store.persist_rollback at 1, Store.logged. rewrite E1. apply (IH v1 v' s1 M1 H2).
    destruct H1 as ([b Eb] & Hne & _). rewrite Eb in Hap. by eapply apart_prefix.
Qed.

Lemma view_forks_prefix fs : forall v v', view_forks fs v v' -> exists r, v_blocks v' = v_blocks v ++ r.
Proof.
  induction fs as [|f fs IH]; intros v v'; [intros ->; exists []; by rewrite app_nil_r|].
  intros (v1 & (_ & _ & E1) & H2). destruct (IH v1 v' H2) as [r Er]. subst v1. cbn in Er. rewrite <- app_assoc in Er. eauto.
Qed.

Lemma forks_mirror fs : forall v v' s,
  mirrors v s -> view_forks fs v v' -> apart (v_blocks v') ->
  exists s', sfor Store.persist_fork_block fs s = (s', Ok tt) /\ mirrors v' s'.
Proof.
  induction fs as [|f fs IH]; intros v v' s M Hv Hap; cbn [sfor].
  - exists s. by rewrite Hv.
  - destruct Hv as (v1 & H1 & H2). assert (Hap1 : apart (v_blocks v1)).
    { destruct (view_forks_prefix fs v1 v' H2) as [r Er]. rewrite Er in Hap. eapply apart_prefix; [exact Hap|].
      destruct H1 as (_ & _ & ->). cbn. by destruct (v_blocks v). }
    destruct (append_mirrors v v1 s _ _ _ _ _ M H1 Hap1) as (s1 & E1 & M1).
    unfold sbind, Store.persist_fork_block at 1, Store.logged. rewrite E1. by apply (IH v1 v' s1 M1 H2).
Qed.

Lemma confirmations_unwritten (f : Transaction -> NodeEvent) txs s :
  (forall tx, Store.persist_event (f tx) = sret tt) -> sfor Store.persist_event (map f txs) s = (s, Ok tt).
Proof. intros Hf. induction txs as [|tx txs IH]; [done|]. cbn. unfold sbind. by rewrite Hf. Qed.

(** The bridge writes what the observer sees. *)
Lemma persist_mirrors b a v v' s :
  mirrors v s -> view_accept b a v v' -> apart (v_blocks v) -> apart (v_blocks v') ->
  exists s', Store.persist_events (block_events b a) s = (s', Ok tt) /\ mirrors v' s'.
Proof.
  intros M Hv Hap Hap'. destruct a as [h added removed claims|o n d txs rbs fs|f|]; cbn in Hv |- *.
  - destruct (append_mirrors v v' s _ _ _ _ _ M Hv Hap') as (s' & E & M'). exists s'. split; [|done].
    unfold sbind, Store.persist_new_block, Store.logged. rewrite E. by apply confirmations_unwritten.
  - destruct Hv as (v1 & H1 & H2). destruct (rollbacks_mirror rbs v v1 s M H1 Hap) as (s1 & E1 & M1).
    destruct (forks_mirror fs v1 v' s1 M1 H2 Hap') as (s2 & E2 & M2). exists s2. split; [|done].
    unfold sbind, Store.persist_reorg, sbind. by rewrite E1, E2.
  - exists s. by rewrite Hv.
  - exists s. by rewrite Hv.
Qed.

(** A new store. *)
Lemma open_fresh g l0 :
  claimed_addresses l0 = ∅ -> (forall k u, utxo_set l0 !! k = Some u -> utxo_height u = 0 /\ well_keyed k) ->
  exists s, Store.open_with_cache g empty_store = (s, Ok tt) /\ mirrors (view_of [g] l0) s.
Proof.
  intros Hc Hu. destruct (json_round_trip g) as (vg & Hg & Hg').
  set (s1 := with_meta (<[str "protocol_version" := STORE_PROTOCOL_VERSION]>) empty_store).
  set (s2 := with_heights (<[0 := Store.hash_hex g]>) (with_blocks (<[Store.hash_hex g := vg]>) s1)).
  assert (Store.check_protocol empty_store = (s1, Ok tt)) as E1.
  { unfold Store.check_protocol. cbn [META empty_store]. by rewrite lookup_empty. }
  assert (Store.backfill_genesis g s1 = (s2, Ok true)) as E2.
  { unfold Store.backfill_genesis, sbind at 1, sget. rewrite bool_decide_true by apply lookup_empty.
    unfold sbind, slift, Store.serialize. by rewrite Hg. }
  assert (Store.max_indexed s2 = 0) as E3.
  { unfold Store.max_indexed. cbn. by rewrite insert_empty, map_to_list_singleton. }
  unfold Store.open_with_cache, write_txn, sbind at 1. rewrite E1. unfold sbind at 1. rewrite E2.
  unfold Store.repair_meta, sbind, sget. cbn [orb]. rewrite E3. change (HEIGHT_INDEX s2) with (<[0 := Store.hash_hex g]> (∅ : gmap Z bytes)).
  rewrite lookup_insert_eq. cbn [slift ok_or]. unfold smod. eexists. split; [reflexivity|].
  destruct (set_best_lookup 0 (Store.hash_hex g) (META s2)) as (B1 & B2 & B3).
  split; [split|..]; cbn -[Store.set_best str].
  - intros h. rewrite <- (app_nil_l [g]), vec_at_snoc. change (zlen (@nil Block)) with 0. destruct (Z.eqb_spec h 0) as [->|Hne]; [by rewrite lookup_insert_eq|].
    rewrite lookup_insert_ne, lookup_empty by done. unfold vec_at. destruct (0 <=? h); by rewrite ?lookup_nil.
  - intros b ->%list_elem_of_singleton. exists vg. by rewrite lookup_insert_eq.
  - split.
    + intros k [u Hk]. apply well_keyed_bytes. by apply (Hu k u).
    + intros key v Hk. by rewrite lookup_empty in Hk.
    + intros k u Hk. destruct (Hu k u Hk) as [-> _]. lia.
  - done.
  - exact B1.
  - exact B2.
  - etransitivity; [exact B3|apply lookup_insert_eq].
Qed.
End mirror.

(** ** Replaying a branch *)

(** The parts of a configuration that the rules depend on. *)
Definition same_rules (f f' : Config) : Prop :=
  allow_pow_test_blocks f = allow_pow_test_blocks f' /\ governance_test_activation f = governance_test_activation f' /\
  governance_test_deployment f = governance_test_deployment f'.

(** The one check of a block that depends on the clock. *)
Definition on_time (now : Z) (b : Block) : Prop := timestamp (header b) <= sat_add u32_max now 7200.

Section load.
Context {C : Crypto} {B : Bincode} {H : Hex} {N : Snapshot} {SL : SnapshotLaws N} {K : KeyOrder}.
Context {D : HexDecode} {JB : Json Block} {JU : Json Utxo}.
Context {CL : CryptoLaws C} {HL : HexLaws H} {JBL : JsonLaws Block JB} {JUL : JsonLaws Utxo JU}.
Context (U : Transaction -> Prop) (HU : txids_distinct U) (g : Block) (l0 : Ledger).
Context (G1 : tracked 1 (transactions g) l0) (G2 : ledger_inv l0) (G3 : forall x, x ∈ transactions g -> U x).

Lemma connect_rules f f' bs l b : same_rules f f' -> connect f bs l b = connect f' bs l b.
Proof.
  intros (_ & R1 & R2). unfold connect.
  destruct (apply_block_agrees b (zlen bs) (view_chain f bs l) (view_chain f' bs l)) as [E1 E2]; [by split|].
  destruct (apply_block b (zlen bs) (view_chain f bs l)) as [c1 r1], (apply_block b (zlen bs) (view_chain f' bs l)) as [c2 r2].
  simpl in E1, E2. by rewrite E1, E2.
Qed.

Lemma validate_later now now' b n ts bi sm prev pow :
  validate_block_inner now b n ts bi sm prev pow = Ok tt -> on_time now' b ->
  validate_block_inner now' b n ts bi sm prev pow = Ok tt.
Proof.
  unfold validate_block_inner, on_time. intros Hv Ht. destruct (transactions b) as [|tx rest]; [done|].
  destruct (_ <? _); [done|]. destruct (padd u32_max n 1); [|done..]. cbn [rbind] in *. destruct (negb (_ =? _)); [done|].
  destruct (negb (_ =? _)); [done|]. destruct (negb (_ =? _)); [done|]. destruct (check_first_tx _ _ _ _); [|done..]. cbn [rbind] in *.
  destruct (existsb _ _); [done|]. destruct (_ <? _); [done|]. by rewrite (proj2 (Z.ltb_ge _ _)).
Qed.

(** A chain that was built from the branch [bs]. *)
Record loaded (f : Config) (bs : list Block) (l : Ledger) (c : Chain) : Prop := {
  ld_ok : chain_ok U g l0 c bs;
  ld_state : state (main c) = l;
  ld_config : config c = f;
  ld_known : forall h, is_Some (block_heights (known c) !! h) -> h ∈ map block_hash bs;
}.

Lemma loaded_genesis c : at_genesis g c -> state (main c) = l0 -> loaded (config c) [g] l0 c.
Proof.
  intros Ha Hs. split; [by apply at_genesis_ok|done|done|]. rewrite (ag_known _ _ Ha). cbn.
  intros h <-%lookup_singleton_is_Some. left.
Qed.

Lemma loaded_duplicate f bs l c now b : loaded f bs l c -> b ∈ bs -> add_block now b c = (c, Ok Duplicate).
Proof.
  intros Hl [i Hi]%list_elem_of_lookup. unfold add_block.
  by destruct (mo_known _ _ _ _ _ _ _ (co_main _ _ _ _ _ (ld_ok _ _ _ _ Hl)) i b Hi) as [-> _].
Qed.

(** The next block of a branch that was accepted before is accepted again. *)
Lemma loaded_next f f' bs l b l' j now c :
  loaded f' bs l c -> same_rules f f' -> connect f bs l b = Some (l', j) ->
  sound_block_txs (zlen bs) (transactions b) -> (forall x, x ∈ transactions b -> U x) -> valid_child f bs b ->
  on_time now b -> apart (bs ++ [b]) ->
  exists added removed c', add_block now b c = (c', Ok (MainChain (zlen bs) added removed (j_claimed j))) /\
    loaded f' (bs ++ [b]) l' c' /\
    view_append b (zlen bs) added removed (j_claimed j) (view_of bs l) (view_of (bs ++ [b]) l') /\
    (1 <= max_reorg_depth f' -> get_block c' (block_hash b) = Some b).
Proof.
  intros [L1 <- <- L4] R Hc Hs Hu (b0 & now0 & Ht & Hp & Hv) Hot [Hnd Hlen].
  rewrite map_app in Hnd. apply NoDup_app in Hnd as (_ & Hd & _). rewrite zlen_app in Hlen. change (zlen [b]) with 1 in Hlen.
  rewrite (connect_rules f (config c)) in Hc by done.
  assert (Hty : typed_txs (transactions b)).
  { destruct Hs as [Hs _]. eapply Forall_impl; [exact Hs|]. by intros tx [[_ Hx] Hy]. }
  assert (Hn : block_heights (known c) !! block_hash b = None).
  { apply eq_None_not_Some. intros Hx%L4. apply (Hd _ Hx). left. }
  assert (Hval : validated now c b b0 (zlen bs)).
  { unfold validated. destruct R as [<- _]. by eapply validate_later. }
  destruct (returns_Ok _ _ _ (add_block_extends U HU g l0 G1 G2 G3 now b c bs b0 l' j L1 Ht Hp Hn ltac:(lia) Hty Hu Hval Hc))
    as (a & c' & E & (added & removed & ->) & Hok & Hst & Hcf & Hkn & Hview & Hjs).
  exists added, removed, c'. split; [done|]. split; [|split; [exact Hview|]].
  - split; [done..|]. intros h [->|Hx%L4]%Hkn; rewrite map_app, elem_of_app; [right; left|by left].
  - intros Hdep%Hjs. destruct (mo_body _ _ _ _ _ _ _ (co_main _ _ _ _ _ Hok) (length bs) b) as [|(_ & _ & Hx)]; [by apply list_lookup_middle|done|].
    rewrite length_app in Hx. cbn in Hx. destruct (journals (main c')); [done|cbn in Hx; lia].
Qed.

Lemma heights_snoc a b : a <= b -> heights a b = heights a (b - 1) ++ [b].
Proof.
  intros Hab. unfold heights. replace (b - 1 - a + 1) with (b - a) by lia. rewrite seqZ_app by lia.
  f_equal. rewrite seqZ_cons, seqZ_nil by lia. f_equal. lia.
Qed.

(** A branch that was accepted before is replayed from the store. *)
Lemma replay_loads f f' s now bs l js c1 :
  history U g l0 f bs l js -> apart bs -> same_rules f f' -> Forall (on_time now) (tail bs) ->
  (forall i b, bs !! i = Some b -> Store.get_block_at_height s (Z.of_nat i) = Ok (Some b)) ->
  loaded f' [g] l0 c1 ->
  exists c', Store.replay_range now s 1 (zlen bs - 1) c1 = (c', Ok tt) /\ loaded f' bs l c'.
Proof.
  intros Hh Hap R Hot Hst Hl1. induction Hh as [j0|bs l js b l' j Hh IH Hc Hs Hu Hv].
  { exists c1. done. }
  assert (Hne : bs <> []).
  { destruct (history_facts U HU g l0 G1 G2 G3 _ _ _ _ Hh) as [[rest ->] _ _ _ _]. done. }
  assert (Hot' : Forall (on_time now) (tail bs) /\ on_time now b).
  { destruct bs as [|b1 bs]; [done|]. change (tail ((b1 :: bs) ++ [b])) with (bs ++ [b]) in Hot.
    apply Forall_app in Hot as [Hot Hb]. split; [done|]. exact (Forall_inv Hb). }
  destruct IH as (c & E & Hl); [by eapply apart_prefix|apply Hot'|intros i x Hx; apply Hst; by apply lookup_app_l_Some|].
  destruct (loaded_next f f' bs l b l' j now c Hl R Hc Hs Hu Hv (proj2 Hot') Hap) as (added & removed & c' & E' & Hl' & _ & _).
  exists c'. split; [|done]. unfold Store.replay_range. rewrite zlen_app. change (zlen [b]) with 1.
  assert (0 < zlen bs) as Hpos by (unfold zlen; destruct bs; simpl; [done|lia]).
  replace (zlen bs + 1 - 1) with (zlen bs) by lia. rewrite heights_snoc by lia. rewrite sfor_app. unfold sbind.
  unfold Store.replay_range in E. rewrite E. cbn [sfor]. unfold sbind, Store.replay_step, slift, sbind.
  unfold zlen at 1. rewrite (Hst (length bs) b) by by apply list_lookup_middle. unfold Store.add_stored. by rewrite E'.
Qed.

(** ** Repairing the outputs *)

Section repair.
Context (expected : gmap bytes Utxo).

(** What is known after the entries [p] of the table. *)
Record repairing (p : list (bytes * bytes)) (acc : gmap bytes Utxo * list bytes * list (bytes * bytes)) : Prop := {
  rp_expected : forall key, acc.1.1 !! key = if decide (key ∈ p.*1) then None else expected !! key;
  rp_remove : forall key, key ∈ acc.1.2 <-> key ∈ p.*1 /\ expected !! key = None;
  rp_replace : forall key v, (key, v) ∈ acc.2 -> exists u, expected !! key = Some u /\ from_slice v = Some u;
  rp_kept : forall key v u, (key, v) ∈ p -> expected !! key = Some u -> from_slice v = Some u \/ key ∈ acc.2.*1;
}.

Lemma repair_entry_ok p e acc : repairing p acc -> (e.1 ∉ p.*1) ->
  exists acc', Store.repair_entry acc e = Ok acc' /\ repairing (p ++ [e]) acc'.
Proof.
  destruct acc as [[E rem] rep], e as [key v]. intros [R1 R2 R3 R4] Hk. simpl in *.
  assert (Hkey : E !! key = expected !! key) by (rewrite R1; by rewrite decide_False).
  assert (Hdel : forall k, delete key E !! k = if decide (k ∈ (p ++ [(key, v)]).*1) then None else expected !! k).
  { intros k. rewrite fmap_app. cbn. destruct (decide (k = key)) as [->|Hne].
    - rewrite lookup_delete_eq, decide_True; [done|]. apply elem_of_app. right. left.
    - rewrite lookup_delete_ne, R1 by done. destruct (decide (k ∈ p.*1)) as [Hin|Hin].
      + rewrite decide_True; [done|]. apply elem_of_app. by left.
      + rewrite decide_False; [done|]. rewrite elem_of_app, list_elem_of_singleton. tauto. }
  assert (Hsnoc : forall k x, (k, x) ∈ p ++ [(key, v)] -> (k, x) ∈ p \/ (k = key /\ x = v)).
  { intros k x [?|[= -> ->]%list_elem_of_singleton]%elem_of_app; auto. }
  rewrite Hkey. destruct (expected !! key) as [u|] eqn:Eu.
  - assert (Hrem : forall k, k ∈ rem <-> k ∈ (p ++ [(key, v)]).*1 /\ expected !! k = None).
    { intros k. rewrite R2, fmap_app, elem_of_app. cbn. rewrite list_elem_of_singleton. split; [tauto|].
      intros [[?| ->] ?]; [done|congruence]. }
    case_bool_decide as Ed.
    + eexists. split; [done|]. split; simpl; try done. intros k x u' [Hin|[-> ->]]%Hsnoc Hx; [eauto|]. left. congruence.
    + destruct (json_round_trip u) as (w & Hw & Hw'). unfold Store.serialize. rewrite Hw. cbn [rbind].
      eexists. split; [done|]. split; simpl; try done.
      * intros k x [?|[= -> ->]%list_elem_of_singleton]%elem_of_app; [auto|]. eauto.
      * intros k x u' [Hin|[-> ->]]%Hsnoc Hx; rewrite fmap_app, elem_of_app; [destruct (R4 k x u' Hin Hx); auto|]. right. right. left.
  - eexists. split; [done|]. split; simpl; try done.
    + intros k. rewrite <- Hdel. destruct (decide (k = key)) as [->|Hne]; [by rewrite lookup_delete_eq|by rewrite lookup_delete_ne].
    + intros k. rewrite elem_of_app, R2, fmap_app, elem_of_app. cbn. rewrite !list_elem_of_singleton. split; [|tauto].
      intros [?| ->]; [tauto|]. split; [by right|done].
    + intros k x u' [Hin|[-> ->]]%Hsnoc Hx; [eauto|congruence].
Qed.

Lemma repair_entries_ok es : forall p acc, repairing p acc -> NoDup (p ++ es).*1 ->
  exists acc', rfold Store.repair_entry acc es = Ok acc' /\ repairing (p ++ es) acc'.
Proof.
  induction es as [|e es IH]; intros p acc R Hnd; cbn [rfold]; [exists acc; by rewrite app_nil_r|].
  assert (Hk : e.1 ∉ p.*1).
  { rewrite fmap_app in Hnd. apply NoDup_app in Hnd as (_ & Hd & _). intros Hin. apply (Hd _ Hin). left. }
  destruct (repair_entry_ok p e acc R Hk) as (acc1 & E1 & R1). rewrite E1. cbn [rbind].
  destruct (IH (p ++ [e]) acc1 R1) as (acc' & E' & R'); [by rewrite <- app_assoc|]. exists acc'.
  rewrite <- app_assoc in R'. done.
Qed.

Lemma repair_missing_ok es : forall rep,
  exists rep', rfold Store.repair_missing rep es = Ok rep' /\ (forall k, k ∈ es.*1 -> k ∈ rep'.*1) /\
    (forall e, e ∈ rep -> e ∈ rep') /\
    (forall k v, (k, v) ∈ rep' -> (k, v) ∈ rep \/ exists u, (k, u) ∈ es /\ from_slice v = Some u).
Proof.
  induction es as [|[k0 u0] es IH]; intros rep; cbn [rfold].
  { exists rep. split_and!; [done|by intros k ?%elem_of_nil|done|by left]. }
  destruct (json_round_trip u0) as (w & Hw & Hw'). unfold Store.repair_missing at 1, Store.serialize. cbn [fst snd]. rewrite Hw.
  cbn [rbind]. destruct (IH (rep ++ [(k0, w)])) as (rep' & E & I1 & I2 & I3). exists rep'. split_and!; [done| | |].
  - intros k [->|Hin]%elem_of_cons; [|auto]. apply list_elem_of_fmap. exists (k0, w). split; [done|].
    apply I2, elem_of_app. right. left.
  - intros e He. apply I2, elem_of_app. by left.
  - intros k v [[?|[= -> ->]%list_elem_of_singleton]%elem_of_app|(u & Hin & Hu)]%I3; [by left| |].
    + right. exists u0. split; [left|done].
    + right. exists u. split; [by right|done].
Qed.

Lemma deletes_at (ks : list bytes) (t : gmap bytes bytes) k :
  foldl (fun t k => delete k t) t ks !! k = if decide (k ∈ ks) then None else t !! k.
Proof.
  revert t; induction ks as [|k' ks IH]; intros t; [done|]. cbn [foldl]. rewrite IH.
  destruct (decide (k = k')) as [->|Hne].
  - rewrite lookup_delete_eq. rewrite (decide_True (P := k' ∈ k' :: ks)) by left. by destruct (decide _).
  - rewrite lookup_delete_ne by done. destruct (decide (k ∈ ks)) as [Hin|Hin].
    + by rewrite decide_True by by right.
    + by rewrite decide_False by by intros [?|?]%elem_of_cons.
Qed.

Lemma inserts_at (es : list (bytes * bytes)) (P : bytes -> Prop) k : forall t : gmap bytes bytes,
  (forall v, (k, v) ∈ es -> P v) -> (k ∉ es.*1 -> exists v, t !! k = Some v /\ P v) ->
  exists v, foldl (fun t '(k, v) => <[k := v]> t) t es !! k = Some v /\ P v.
Proof.
  induction es as [|[k' v'] es IH]; intros t Hin Hout; cbn [foldl]; [by apply Hout, not_elem_of_nil|].
  apply IH; [intros v Hv; apply Hin; by right|]. intros Hn. destruct (decide (k = k')) as [->|Hne].
  - exists v'. rewrite lookup_insert_eq. split; [done|]. apply Hin. left.
  - rewrite lookup_insert_ne by done. apply Hout. cbn. by intros [?|?]%elem_of_cons.
Qed.

Lemma inserts_other (es : list (bytes * bytes)) k : forall t : gmap bytes bytes,
  k ∉ es.*1 -> foldl (fun t '(k, v) => <[k := v]> t) t es !! k = t !! k.
Proof.
  induction es as [|[k' v'] es IH]; intros t Hn; [done|]. cbn in *. apply not_elem_of_cons in Hn as [Hne Hn].
  by rewrite IH, lookup_insert_ne.
Qed.

(** The table holds exactly the expected outputs. *)
Definition holds (t : gmap bytes bytes) : Prop :=
  forall key, match expected !! key with
              | Some u => exists v, t !! key = Some v /\ from_slice v = Some u
              | None => t !! key = None
              end.

Lemma repaired_holds t acc rep' :
  repairing (map_to_list t) acc -> (forall k, k ∈ (map_to_list acc.1.1).*1 -> k ∈ rep'.*1) ->
  (forall e, e ∈ acc.2 -> e ∈ rep') ->
  (forall k v, (k, v) ∈ rep' -> (k, v) ∈ acc.2 \/ exists u, (k, u) ∈ map_to_list acc.1.1 /\ from_slice v = Some u) ->
  holds (foldl (fun t '(k, v) => <[k := v]> t) (foldl (fun t k => delete k t) t acc.1.2) rep').
Proof.
  intros [R1 R2 R3 R4] M1 M2 M3 key.
  assert (Hdom : forall k, k ∈ (map_to_list t).*1 <-> is_Some (t !! k)).
  { intros k. rewrite list_elem_of_fmap. split.
    - intros ([k' v] & -> & Hin%elem_of_map_to_list). by eexists.
    - intros [v Hv]. exists (k, v). split; [done|]. by apply elem_of_map_to_list. }
  assert (Hrep : forall v, (key, v) ∈ rep' -> exists u, expected !! key = Some u /\ from_slice v = Some u).
  { intros v [Hin|(u & Hin%elem_of_map_to_list & Hu)]%M3; [by apply R3|]. exists u. split; [|done].
    rewrite R1 in Hin. by destruct (decide _). }
  destruct (expected !! key) as [u|] eqn:Eu.
  - apply inserts_at.
    + intros v Hv. destruct (Hrep v Hv) as (u' & [= <-] & ?). done.
    + intros Hn. rewrite deletes_at, decide_False by (rewrite R2; intros [_ ?]; congruence).
      destruct (decide (is_Some (t !! key))) as [[v Hv]|Hnone].
      * exists v. split; [done|]. destruct (R4 key v u) as [?|Hin]; [by apply elem_of_map_to_list|done|done|].
        exfalso. apply Hn. apply list_elem_of_fmap in Hin as (e & -> & He). apply list_elem_of_fmap. eauto.
      * exfalso. apply Hn, M1, list_elem_of_fmap. exists (key, u). split; [done|]. apply elem_of_map_to_list.
        rewrite R1, decide_False by by rewrite Hdom. done.
  - rewrite inserts_other.
    + rewrite deletes_at. destruct (decide _) as [|Hn]; [done|]. rewrite R2, Hdom in Hn.
      apply eq_None_not_Some. intros Hs. by apply Hn.
    + intros (e & -> & He)%list_elem_of_fmap. destruct e as [k v]. by destruct (Hrep v He) as (? & ? & _).
Qed.
End repair.

Lemma repair_utxos_ok c s :
  Store.index_matches c s = Ok tt ->
  exists t r, Store.repair_utxos c s = (with_utxos (fun _ => t) s, Ok r) /\ holds (Store.expected_utxos c) t.
Proof.
  intros Hi. assert (R0 : repairing (Store.expected_utxos c) [] (Store.expected_utxos c, [], [])).
  { split; simpl; [done| |by intros ? ? ?%elem_of_nil|by intros ? ? ? ?%elem_of_nil].
    intros k. rewrite !elem_of_nil. tauto. }
  destruct (repair_entries_ok _ (map_to_list (UTXOS s)) [] _ R0) as ([[E rem] rep] & E1 & R1); [apply NoDup_fst_map_to_list|].
  destruct (repair_missing_ok (map_to_list E) rep) as (rep' & E2 & M1 & M2 & M3).
  pose proof (repaired_holds _ _ _ rep' R1 M1 M2 M3) as Hh. cbn [fst snd] in Hh.
  unfold Store.repair_utxos, write_txn, sbind at 1, sget, sbind at 1, slift. rewrite Hi. unfold sbind at 1. rewrite E1.
  unfold sbind at 1. rewrite E2.
  destruct rem as [|x rem], rep' as [|y rep']; [exists (UTXOS s), false; split; [by destruct s|exact Hh]|..];
    unfold sbind, smod; eexists _, true; (split; [reflexivity|exact Hh]).
Qed.

(** ** Loading a store that is in order *)

Lemma inserts_spec (f : Utxo -> bytes) us key u : forall m : gmap bytes Utxo,
  (forall x y, x ∈ us -> y ∈ us -> f x = f y -> x = y) -> (forall x, x ∈ us -> m !! f x = None) ->
  foldl (fun m u => <[f u := u]> m) m us !! key = Some u <-> (u ∈ us /\ key = f u) \/ m !! key = Some u.
Proof.
  induction us as [|x us IH] using rev_ind; intros m Hinj Hm; [cbn; rewrite elem_of_nil; tauto|].
  rewrite foldl_app. cbn [foldl]. rewrite elem_of_app, list_elem_of_singleton.
  assert (Hin : forall y, y ∈ us -> y ∈ us ++ [x]) by (intros y Hy; apply elem_of_app; by left).
  assert (Hx : x ∈ us ++ [x]) by (apply elem_of_app; right; left).
  specialize (IH m ltac:(auto) ltac:(auto)). destruct (decide (f x = key)) as [<-|Hne].
  - rewrite lookup_insert_eq. split; [intros [= ->]; left; auto|]. intros [[[Hu| ->] Ek]|Hu]; [|done|].
    + f_equal. apply Hinj; auto.
    + by rewrite Hm in Hu.
  - rewrite lookup_insert_ne, IH by done. split; [tauto|]. intros [[[Hu| ->] Ek]|Hu]; [tauto| |tauto]. by subst key.
Qed.

Lemma expected_spec c key u :
  (forall k u, utxo_set (state (main c)) !! k = Some u -> outpoint u = k /\ key_bytes k) ->
  Store.expected_utxos c !! key = Some u <->
    exists k, utxo_set (state (main c)) !! k = Some u /\ 0 < utxo_height u /\ key = Store.utxo_key k.
Proof.
  intros Hk. unfold Store.expected_utxos.
  assert (Hv : forall x, x ∈ List.filter (fun u => 0 <? utxo_height u) (utxo_values c) <->
    exists k, utxo_set (state (main c)) !! k = Some x /\ 0 < utxo_height x).
  { intros x. rewrite list_elem_of_In, filter_In, <- list_elem_of_In, Z.ltb_lt. unfold utxo_values.
    rewrite list_elem_of_fmap. split.
    - intros [([k x'] & -> & Hin%elem_of_in_order) Hh]. eauto.
    - intros (k & Hin & Hh). split; [|done]. exists (k, x). split; [done|]. by apply elem_of_in_order. }
  rewrite (inserts_spec (fun u => Store.utxo_key (outpoint u))).
  - rewrite lookup_empty, Hv. split.
    + intros [[(k & Hu & Hh) ->]|?]; [|done]. exists k. destruct (Hk k u Hu) as [-> _]. done.
    + intros (k & Hu & Hh & ->). left. split; [eauto|]. destruct (Hk k u Hu) as [-> _]. done.
  - intros x y (k & Hx & _)%Hv (k' & Hy & _)%Hv E. destruct (Hk k x Hx) as [Ex Kx], (Hk k' y Hy) as [Ey Ky].
    rewrite Ex, Ey in E. apply utxo_key_inj in E; [|done..]. congruence.
  - intros x _. apply lookup_empty.
Qed.

(** The outputs of a ledger in order. *)
Lemma history_outputs f bs l js k u : history U g l0 f bs l js -> utxo_set l !! k = Some u -> outpoint u = k /\ key_bytes k.
Proof.
  intros Hh Hu. pose proof (history_facts U HU g l0 G1 G2 G3 _ _ _ _ Hh) as Hok. split.
  - by apply (li_utxos _ (ho_ledger _ _ _ _ _ Hok) k u).
  - apply well_keyed_bytes. eapply (history_keyed U g); [exact Hok|by eexists].
Qed.

Lemma holds_mirror c t :
  (forall k u, utxo_set (state (main c)) !! k = Some u -> outpoint u = k /\ key_bytes k) ->
  holds (Store.expected_utxos c) t -> utxos_mirror (utxo_set (state (main c))) t.
Proof.
  intros Hk Ht. split.
  - intros k [u Hu]. by apply (Hk k u).
  - intros key v Hv. specialize (Ht key). destruct (Store.expected_utxos c !! key) as [u|] eqn:Eu; [|congruence].
    apply expected_spec in Eu as (k & Hu & _ & ->); [|done]. destruct Ht as (v' & Hv' & Hd). exists k, u.
    rewrite Hv in Hv'. injection Hv' as <-. done.
  - intros k u Hu Hh. specialize (Ht (Store.utxo_key k)).
    rewrite (proj2 (expected_spec c (Store.utxo_key k) u Hk)) in Ht; [done|eauto].
Qed.

Lemma index_size bs s : (forall h, HEIGHT_INDEX s !! h = Store.hash_hex <$> vec_at bs h) ->
  Z.of_nat (size (HEIGHT_INDEX s)) = zlen bs.
Proof.
  intros Hi. assert (dom (HEIGHT_INDEX s) = list_to_set (seqZ 0 (zlen bs))) as Hd.
  { apply set_eq. intros h. rewrite elem_of_dom, Hi, fmap_is_Some, elem_of_list_to_set, elem_of_seqZ. unfold vec_at, zlen.
    destruct (Z.leb_spec 0 h); [rewrite lookup_lt_is_Some; lia|]. split; [by intros []|lia]. }
  rewrite <- size_dom, Hd, size_list_to_set by apply NoDup_seqZ. rewrite length_seqZ. unfold zlen. lia.
Qed.

Lemma index_ok f bs l c s : loaded f bs l c -> apart bs ->
  (forall h, HEIGHT_INDEX s !! h = Store.hash_hex <$> vec_at bs h) -> Store.index_matches c s = Ok tt.
Proof.
  intros Hl Hap Hi. destruct (ld_ok _ _ _ _ Hl) as [O1 O2 _].
  unfold Store.index_matches. rewrite (best_height_eq U HU g l0 G1 G2 G3 _ _ _ _ c O1 O2 eq_refl).
  rewrite (index_size _ _ Hi).
  replace (zlen bs - 1 + 1) with (zlen bs) by lia. rewrite Z.eqb_refl. cbn [negb].
  rewrite (proj2 (forallb_forall _ _)); [done|]. intros [h hash] Hin%list_elem_of_In%elem_of_map_to_list.
  apply bool_decide_eq_true. rewrite <- Hin, Hi. unfold block_hash_at_height. rewrite (mo_index _ _ _ _ _ _ _ O2).
  unfold vec_at. destruct (0 <=? h); [|done]. rewrite list_lookup_fmap. by destruct (bs !! Z.to_nat h).
Qed.

Lemma stored_at v s i b : mirrors v s -> v_blocks v !! i = Some b ->
  Store.get_block_at_height s (Z.of_nat i) = Ok (Some b).
Proof.
  intros M Hi. unfold Store.get_block_at_height. rewrite (tb_heights _ _ (mr_tables _ _ M)). unfold vec_at.
  rewrite (proj2 (Z.leb_le _ _)), Nat2Z.id, Hi by lia. cbn. unfold Store.stored_block.
  destruct (tb_blocks _ _ (mr_tables _ _ M) b) as (j & -> & Hj); [by eapply list_elem_of_lookup_2|]. unfold Store.deserialize. by rewrite Hj.
Qed.

Lemma make_chain_starts regtest fast c : Store.make_chain g regtest fast = Ok c -> starts g c.
Proof.
  unfold Store.make_chain. destruct regtest, fast; cbn [andb].
  - destruct (new_regtest_fast g) eqn:E; [|done..]. intros [= <-]. by apply starts_regtest_fast.
  - destruct (new_regtest g) eqn:E; [|done..]. intros [= <-]. by apply starts_regtest.
  - destruct (new g) eqn:E; [|done..]. intros [= <-]. by apply starts_new.
  - destruct (new g) eqn:E; [|done..]. intros [= <-]. by apply starts_new.
Qed.

(** The chain that [load_into_chain_with_mode] starts with. *)
Definition load_start (cache : Z) (gov : option Z) (c : Chain) : Chain :=
  match gov with
  | Some h => set_governance_test_activation h (set_block_body_cache cache c)
  | None => set_block_body_cache cache c
  end.

Lemma load_start_genesis cache gov c : at_genesis g c -> state (main c) = l0 ->
  loaded (config (load_start cache gov c)) [g] l0 (load_start cache gov c).
Proof. intros Ha Hs. apply loaded_genesis; [destruct Ha|]; by destruct gov. Qed.

Lemma load_mirrored now regtest fast cache gov f bs l js s c1 :
  mirrors (view_of bs l) s -> history U g l0 f bs l js -> apart bs -> Forall (on_time now) (tail bs) ->
  Store.make_chain g regtest fast = Ok c1 -> at_genesis g c1 -> state (main c1) = l0 ->
  same_rules f (config (load_start cache gov c1)) ->
  exists s' c', Store.load_into_chain_with_mode g now regtest fast cache gov s = (s', Ok c') /\
    loaded (config (load_start cache gov c1)) bs l c' /\ mirrors (view_of bs l) s' /\
    holds (Store.expected_utxos c') (UTXOS s').
Proof.
  intros M Hh Hap Hot Hmk Ha Hs1 R.
  pose proof (load_start_genesis cache gov c1 Ha Hs1) as L0.
  destruct (replay_loads f _ s now bs l js _ Hh Hap R Hot (fun i b => stored_at _ s i b M) L0) as (c' & E & Hl).
  destruct (repair_utxos_ok c' s) as (t & r & Er & Ht); [eapply index_ok; [exact Hl|done|apply (mr_tables _ _ M)]|].
  exists (with_utxos (fun _ => t) s), c'. split; [|split; [done|]].
  - unfold Store.load_into_chain_with_mode, sbind at 1. rewrite (stored_best _ _ M Hap). unfold sbind at 1, slift. rewrite Hmk.
    cbv zeta. fold (load_start cache gov c1). unfold sbind at 1. cbn [Store.heal_rounds view_of v_blocks]. rewrite E.
    unfold sbind. cbn [rbind]. by rewrite Er.
  - split; [|exact Ht]. destruct M as [[M1 M2 M3 M4] M5 M6 M7]. split; [split|..]; try done.
    cbn. rewrite <- (ld_state _ _ _ _ Hl). apply holds_mirror; [|done]. rewrite (ld_state _ _ _ _ Hl).
    intros k u. by eapply history_outputs.
Qed.
End load.

(** ** The node and its store *)

Section node.
Context {C : Crypto} {B : Bincode} {H : Hex} {K : KeyOrder} {D : HexDecode} {JB : Json Block} {JU : Json Utxo}.
Context {CL : CryptoLaws C} {HL : HexLaws H} {JBL : JsonLaws Block JB} {JUL : JsonLaws Utxo JU}.
Context (legacy : list (bytes * Z)) (U : Transaction -> Prop) (g : Block) (c0 : Chain) (s0 : BlockStore).
#[local] Hint Extern 0 Snapshot => exact (N legacy) : typeclass_instances.
Context (ST : setting legacy U g c0) (HO : Store.open_with_cache g empty_store = (s0, Ok tt)).
#[local] Hint Extern 0 (SnapshotLaws _) => exact (SL legacy U g c0 ST) : typeclass_instances.

(** The node at work: blocks arrive and what [add_block] reports is written to the store,
    starting with a new store. *)
Inductive operates : Chain -> BlockStore -> Prop :=
  | operates_start : operates c0 s0
  | operates_block now b c c' a s s' r :
      operates c s -> typed_txs (transactions b) -> (forall x, x ∈ transactions b -> U x) ->
      add_block now b c = (c', Ok a) -> Store.persist_events (block_events b a) s = (s', r) -> operates c' s'
  | operates_refused now b c c' e s :
      operates c s -> typed_txs (transactions b) -> (forall x, x ∈ transactions b -> U x) ->
      add_block now b c = (c', Err e) -> operates c' s.

Lemma sound_apart c bs : sound_chain legacy U g c0 c bs -> apart bs.
Proof.
  destruct (genesis_facts legacy U g c0 ST) as (F1 & F2 & F3 & F4). intros [O1 O2 _]. split.
  - by eapply hashes_nodup.
  - by eapply (branch_length U (se_ids _ _ _ _ ST) g _ F3 F2 F4).
Qed.

Lemma operates_sound c s : operates c s ->
  exists bs, sound_chain legacy U g c0 c bs /\ config c = config c0 /\ mirrors (view_of bs (state (main c))) s.
Proof.
  destruct (genesis_facts legacy U g c0 ST) as (F1 & F2 & F3 & F4). pose proof (se_ids _ _ _ _ ST) as HU.
  induction 1 as [|now b c c' a s s' r Hc (bs & Hok & Hcf & M) Hty Hu E Ep|now b c c' e s Hc (bs & Hok & Hcf & M) Hty Hu E].
  - exists [g]. split; [by apply at_genesis_ok|]. split; [done|].
    destruct ST as [S1 S2 S3 S4 S5 S6].
    assert (txid genesis_coinbase <> txid (legacy_distribution legacy)) as Hne by by intros Ex%S2.
    destruct (genesis_starts legacy g c0 S1 Hne S5 S6) as (_ & Hl & _ & Hcl & Hz).
    destruct (open_fresh g (state (main c0)) Hcl) as (s & E & M).
    { intros k u Hk. split; [by eapply Hz|]. split; [|by apply (li_utxos _ Hl k u)].
      pose proof (tr_keys _ _ _ F3 k ltac:(by eexists)) as (tx & Ex & _)%list_elem_of_fmap. by exists tx. }
    rewrite HO in E. injection E as <-. exact M.
  - pose proof (add_block_ok U HU g _ F3 F2 F4 now b c bs Hok Hty Hu) as Hx. unfold soc in Hx. rewrite E in Hx.
    destruct Hx as (bs' & Hok' & Hcf' & _ & Hv). exists bs'. split; [done|]. split; [congruence|].
    destruct (persist_mirrors b a _ _ s M Hv) as (s1 & E1 & M1); [by apply (sound_apart c)|by apply (sound_apart c')|].
    rewrite Ep in E1. by injection E1 as -> _.
  - pose proof (add_block_ok U HU g _ F3 F2 F4 now b c bs Hok Hty Hu) as Hx. unfold soc in Hx. rewrite E in Hx.
    destruct Hx as (E1 & E2 & E3). exists bs. destruct Hok as [O1 O2 O3]. rewrite E2. split; [|split; [congruence|done]].
    split; rewrite ?E1, ?E2, ?E3; done.
Qed.

(** The bridge writes the events of an accepted block without an error. *)
Lemma operates_persists now b c c' a s :
  operates c s -> typed_txs (transactions b) -> (forall x, x ∈ transactions b -> U x) ->
  add_block now b c = (c', Ok a) ->
  exists s', Store.persist_events (block_events b a) s = (s', Ok tt) /\ operates c' s'.
Proof.
  destruct (genesis_facts legacy U g c0 ST) as (F1 & F2 & F3 & F4). pose proof (se_ids _ _ _ _ ST) as HU.
  intros Hc Hty Hu E. destruct (operates_sound c s Hc) as (bs & Hok & Hcf & M).
  pose proof (add_block_ok U HU g _ F3 F2 F4 now b c bs Hok Hty Hu) as Hx. unfold soc in Hx. rewrite E in Hx.
  destruct Hx as (bs' & Hok' & _ & _ & Hv).
  destruct (persist_mirrors b a _ _ s M Hv) as (s' & E' & _); [by apply (sound_apart c)|by apply (sound_apart c')|].
  exists s'. split; [done|]. by eapply operates_block.
Qed.

(** C6: the store follows the chain. Starting with a new store, after any sequence of blocks
    that [add_block] accepts (as an extension, on a side branch or with a reorganization) or
    refuses, with the report of each one written by the bridge of the daemon, the tables mirror
    the active branch. The height index is that of the branch, with no height above the tip, and
    the body of each of its blocks is stored; bodies of blocks the branch abandoned may remain.
    Every unspent output that was created above the genesis block has its entry, and every
    entry is an unspent output of the chain; of the outputs of the genesis block some may have
    an entry (those a block spent that was rolled back) and others none. The claimed addresses,
    the height and the hash of the tip are those of the chain. *)
Theorem store_mirrors_chain c s :
  operates c s ->
  exists bs, height_index (main c) = map block_hash bs /\ mirrors (view_of bs (state (main c))) s.
Proof. intros (bs & [_ [M1 _ _ _ _ _ _] _] & _ & M)%operates_sound. by exists bs. Qed.

(** C7: a restart restores the chain. Loading the store of a running node under the same
    rules, when the clock has not gone back by more than the allowed drift, succeeds and gives
    a chain with the same ledger, the same active branch and the same index of transactions;
    afterwards the table of outputs agrees entry by entry with the loaded chain. *)
Theorem restart_restores_chain c s now regtest fast_stake cache gov c1 :
  operates c s ->
  Store.make_chain g regtest fast_stake = Ok c1 -> state (main c1) = state (main c0) ->
  same_rules (config c0) (config (load_start cache gov c1)) ->
  (forall h hd, get_header_at_height c h = Some hd -> timestamp hd <= sat_add u32_max now 7200) ->
  exists s' c', Store.load_into_chain_with_mode g now regtest fast_stake cache gov s = (s', Ok c') /\
    state (main c') = state (main c) /\ height_index (main c') = height_index (main c) /\
    tx_index (main c') = tx_index (main c) /\
    exists bs, height_index (main c) = map block_hash bs /\ mirrors (view_of bs (state (main c))) s' /\
      holds (Store.expected_utxos c) (UTXOS s').
Proof.
  intros Hop Hmk Hs1 R Ht. apply operates_sound in Hop as (bs & Hok & Hcf & M).
  destruct (genesis_facts legacy U g c0 ST) as (F1 & F2 & F3 & F4). pose proof (se_ids _ _ _ _ ST) as HU.
  assert (Hap : apart bs) by by apply (sound_apart c). destruct Hok as [O1 O2 O3].
  destruct (mo_history _ _ _ _ _ _ _ O2) as [pre Hh]. rewrite Hcf in Hh.
  assert (Ha : at_genesis g c1).
  { destruct ST as [S1 S2 S3 S4 S5 S6].
    assert (txid genesis_coinbase <> txid (legacy_distribution legacy)) as Hne by by intros Ex%S2.
    apply (genesis_starts legacy g c1 S1 Hne S5). by eapply make_chain_starts. }
  assert (Hot : Forall (on_time now) (tail bs)).
  { apply Forall_forall. intros b Hb. destruct bs as [|b0 bs]; [by apply elem_of_nil in Hb|]. cbn [tail] in Hb. apply list_elem_of_lookup in Hb as [i Hi].
    apply (Ht (Z.of_nat (S i))). unfold get_header_at_height, vec_at. rewrite (mo_index _ _ _ _ _ _ _ O2).
    rewrite (proj2 (Z.leb_le _ _)), Nat2Z.id, list_lookup_fmap by lia. change ((b0 :: bs) !! S i) with (bs !! i).
    rewrite Hi. apply (mo_known _ _ _ _ _ _ _ O2 (S i) b Hi). }
  destruct (load_mirrored U HU g _ F3 F2 F4 now regtest fast_stake cache gov _ bs _ _ s c1 M Hh Hap Hot Hmk Ha Hs1 R)
    as (s' & c' & E & [L1 L2 L3 L4] & M' & Hx).
  exists s', c'. split; [done|]. split; [done|]. destruct L1 as [_ [P1 _ _ _ _ P6 _] _], O2 as [Q1 _ _ _ _ Q6 _].
  rewrite P1, P6, Q1, Q6. split_and!; [done..|]. exists bs. split; [done|]. split; [done|].
  unfold Store.expected_utxos, utxo_values in *. by rewrite L2 in Hx.
Qed.
End node.
