(* ===== verification/Branches.v ===== *)
(** * Branches

    The prefixes of a branch and the ledger it leads to: facts on the histories of [Replay]
    that the synchronization of nodes and the stake proofs share. *)

From stdpp Require Import base list gmap sorting strings.
From Stdlib Require Import ZArith Lia.
From S2P Require Import Prelude Script Crypto Engine Standard Merkle Codec Block Address Consensus.
From S2P Require Import Deployments Governance Ledger Supply History Chain Mirror Replay Progress Genesis Acceptance Store Restart.

Section histories.
Context {C : Crypto} {B : Bincode} {H : Hex} {N : Snapshot} {SL : SnapshotLaws N}.
Context (U : Transaction -> Prop) (HU : txids_distinct U) (g : Block) (l0 : Ledger).
Context (G1 : tracked 1 (transactions g) l0) (G2 : ledger_inv l0) (G3 : forall x, x ∈ transactions g -> U x).

Lemma history_head f bs l js : history U g l0 f bs l js -> exists rest, bs = g :: rest.
Proof. intros Hh. by apply (ho_head _ _ _ _ _ (history_facts U HU g l0 G1 G2 G3 _ _ _ _ Hh)). Qed.

(** A branch leads to one ledger. *)
Lemma history_unique f f' bs l js : history U g l0 f bs l js -> forall l' js', history U g l0 f' bs l' js' -> same_rules f f' -> l = l'.
Proof.
  induction 1 as [j0|bs l js b l1 j Hh IH Hc _ _ _]; intros l' js' Hh' R.
  - inversion Hh' as [|bs2 l2 js2 b2 l3 j3 Hh2 _ _ _ _ E]; subst; [done|].
    destruct (history_head _ _ _ _ Hh2) as [rest ->]. apply (f_equal length) in E. rewrite length_app in E. cbn in E. lia.
  - destruct (history_head _ _ _ _ Hh) as [rest Er].
    inversion Hh' as [j1 E|bs2 l2 js2 b2 l3 j3 Hh2 Hc2 _ _ _ E]; subst.
    + apply (f_equal length) in E. rewrite length_app in E. cbn in E. lia.
    + apply app_inj_tail in E as [-> ->]. assert (l = l2) as -> by by eapply IH. rewrite (connect_rules f f') in Hc by done. congruence.
Qed.

(** The prefixes of a branch, and the block that follows. *)
Lemma history_step f full l js : history U g l0 f full l js -> forall k, (S k < length full)%nat ->
  exists b lk jk l' j, full !! S k = Some b /\ history U g l0 f (take (S k) full) lk jk /\
    connect f (take (S k) full) lk b = Some (l', j) /\ sound_block_txs (Z.of_nat (S k)) (transactions b) /\
    (forall x, x ∈ transactions b -> U x) /\ valid_child f (take (S k) full) b /\ history U g l0 f (take (S (S k)) full) l' (jk ++ [j]).
Proof.
  induction 1 as [j0|bs l js b l1 j Hh IH Hc Hs Hu Hv]; intros k Hk; [cbn in Hk; lia|]. rewrite length_app in Hk. cbn in Hk.
  destruct (decide (S k < length bs)%nat) as [Hlt|Hge].
  - destruct (IH k Hlt) as (b1 & lk & jk & l' & j1 & I1 & I2 & I3 & I4 & I5 & I6 & I7). exists b1, lk, jk, l', j1.
    rewrite !take_app_le by lia. split_and!; [by apply lookup_app_l_Some|done..].
  - assert (S k = length bs) as E by lia. exists b, l, js, l1, j. rewrite E, take_app_length, (take_ge (bs ++ [b])) by (rewrite length_app; cbn; lia).
    split_and!; [by apply list_lookup_middle|done..|by econstructor].
Qed.

Lemma history_link f full l js k b b' : history U g l0 f full l js -> full !! k = Some b -> full !! S k = Some b' ->
  prev_block_hash (header b') = block_hash b.
Proof.
  intros Hh Hb Hb'. pose proof (lookup_lt_Some _ _ _ Hb') as Hk.
  destruct (history_step _ _ _ _ Hh k Hk) as (b1 & lk & jk & l' & j & I1 & _ & _ & _ & _ & (b0 & now & Ht & Hp & _) & _).
  rewrite Hb' in I1. injection I1 as <-. rewrite Hp. f_equal. unfold tip_block in Ht. rewrite length_take in Ht.
  replace (Nat.pred (S k `min` length full)) with k in Ht by lia. rewrite lookup_take_lt in Ht by lia. congruence.
Qed.
End histories.
