(* ===== verification/Heal.v ===== *)
(** * Healing a damaged store

    Theorems about the self-heal of [load_into_chain_with_mode]: whatever the output table
    and the list of claims hold, and however the blocks above the last good height are
    damaged, the load returns the chain of the good blocks and leaves a store that mirrors
    it; and the damage for which it does not work. *)

From stdpp Require Import base list gmap sorting strings.
From Stdlib Require Import ZArith Lia.
From S2P Require Import Prelude Script Crypto Engine Standard Merkle Codec Block Address Consensus.
From S2P Require Import Deployments Governance Ledger Supply History Chain Mirror Replay Progress Genesis Acceptance Events Store Restart.
Import Scripts.

(** ** Truncating and clearing *)

Lemma truncate_fold (doomed : list (Z * bytes)) : forall s,
  let s' := foldl (fun s '(h, hash) => with_heights (delete h) (with_blocks (delete hash) s)) s doomed in
  (forall h, HEIGHT_INDEX s' !! h = if decide (h ∈ doomed.*1) then None else HEIGHT_INDEX s !! h) /\
  (forall x, x ∉ doomed.*2 -> BLOCKS s' !! x = BLOCKS s !! x) /\ META s' = META s.
Proof.
  induction doomed as [|[h0 x0] doomed IH]; intros s; [done|]. cbn [foldl].
  destruct (IH (with_heights (delete h0) (with_blocks (delete x0) s))) as (I1 & I2 & I3). cbn in I1, I2, I3 |- *.
  split_and!; [| |done].
  - intros h. rewrite I1. destruct (decide (h = h0)) as [->|Hne].
    + rewrite lookup_delete_eq, (decide_True (P := h0 ∈ h0 :: _)) by left. by destruct (decide _).
    + rewrite lookup_delete_ne by done. destruct (decide (h ∈ doomed.*1)).
      * by rewrite decide_True by by right.
      * by rewrite decide_False by by intros [?|?]%elem_of_cons.
  - intros x [Hne Hx]%not_elem_of_cons. by rewrite I2, lookup_delete_ne.
Qed.

Lemma truncate_above_ok keep s : 0 <= keep < u32_max ->
  exists s', Store.truncate_above keep s = (s', Ok tt) /\ META s' = META s /\
    (forall h, HEIGHT_INDEX s' !! h = if keep <? h then None else HEIGHT_INDEX s !! h) /\
    (forall x, (forall h, keep < h -> HEIGHT_INDEX s !! h <> Some x) -> BLOCKS s' !! x = BLOCKS s !! x).
Proof.
  intros Hk. unfold Store.truncate_above, sbind, slift, padd, checked_add. rewrite (proj2 (Z.leb_le _ _)) by lia.
  cbn [unwrap]. unfold write_txn, smod. eexists. split; [reflexivity|].
  set (doomed := List.filter _ _). destruct (truncate_fold doomed s) as (T1 & T2 & T3). split; [done|].
  assert (Hd : forall h x, (h, x) ∈ doomed <-> HEIGHT_INDEX s !! h = Some x /\ keep < h).
  { intros h x. unfold doomed. rewrite list_elem_of_In, filter_In, <- list_elem_of_In, elem_of_map_to_list, Z.leb_le.
    split; intros [? ?]; (split; [done|lia]). }
  split.
  - intros h. rewrite T1. destruct (Z.ltb_spec keep h) as [Hlt|Hge].
    + destruct (decide _) as [|Hn]; [done|]. apply eq_None_not_Some. intros [x Hx]. apply Hn, list_elem_of_fmap.
      exists (h, x). split; [done|]. by apply Hd.
    + rewrite decide_False; [done|]. intros ([h' x] & -> & [_ Hh]%Hd)%list_elem_of_fmap. simpl in Hge. lia.
  - intros x Hx. apply T2. intros ([h x'] & -> & [Hh Hlt]%Hd)%list_elem_of_fmap. by apply (Hx h Hlt).
Qed.

Lemma clear_ok s : Store.clear_derived_state s = (mkStore (BLOCKS s) (HEIGHT_INDEX s) ∅ ∅ (META s), Ok tt).
Proof.
  unfold Store.clear_derived_state, write_txn, sbind, smod, with_utxos, with_claimed. cbn [BLOCKS HEIGHT_INDEX UTXOS CLAIMED_ADDRS META].
  do 2 f_equal.
  - apply map_eq. intros k. rewrite deletes_at, lookup_empty. destruct (decide _) as [|Hn]; [done|].
    apply eq_None_not_Some. intros [v Hv]. apply Hn, list_elem_of_fmap. exists (k, v). split; [done|]. by apply elem_of_map_to_list.
  - rewrite foldl_difference. apply set_eq. intros a. rewrite elem_of_difference, elem_of_list_to_set, elem_of_elements, elem_of_empty. tauto.
Qed.

Section heal.
Context {C : Crypto} {B : Bincode} {H : Hex} {N : Snapshot} {SL : SnapshotLaws N} {K : KeyOrder}.
Context {D : HexDecode} {JB : Json Block} {JU : Json Utxo}.
Context {CL : CryptoLaws C} {HL : HexLaws H} {JBL : JsonLaws Block JB} {JUL : JsonLaws Utxo JU}.
Context (U : Transaction -> Prop) (HU : txids_distinct U) (g : Block) (l0 : Ledger).
Context (G1 : tracked 1 (transactions g) l0) (G2 : ledger_inv l0) (G3 : forall x, x ∈ transactions g -> U x).
Context (G4 : claimed_addresses l0 = ∅) (G5 : forall k u, utxo_set l0 !! k = Some u -> utxo_height u = 0).

(** ** Rebuilding the derived tables *)

(** The blocks [full] are stored and indexed; the derived tables are those after [bs]. *)
Record rebuilt (full : list Block) (bs : list Block) (l : Ledger) (meta : gmap bytes bytes) (s : BlockStore) : Prop := {
  rb_heights : forall h, HEIGHT_INDEX s !! h = Store.hash_hex <$> vec_at full h;
  rb_blocks : forall b, b ∈ full -> exists j, BLOCKS s !! Store.hash_hex b = Some j /\ from_slice j = Some b;
  rb_utxos : utxos_mirror (utxo_set l) (UTXOS s);
  rb_claimed : CLAIMED_ADDRS s = claimed_addresses l;
  rb_meta : META s = if zlen bs =? 1 then meta
    else Store.set_best (zlen bs - 1) (match tip_block bs with Some b => Store.hash_hex b | None => [] end) meta;
}.

Lemma indexed_at full s i b :
  (forall h, h < zlen full -> HEIGHT_INDEX s !! h = Store.hash_hex <$> vec_at full h) ->
  (forall b, b ∈ full -> exists j, BLOCKS s !! Store.hash_hex b = Some j /\ from_slice j = Some b) ->
  full !! i = Some b -> Store.get_block_at_height s (Z.of_nat i) = Ok (Some b).
Proof.
  intros Hh Hb Hi. pose proof (lookup_lt_Some _ _ _ Hi). unfold Store.get_block_at_height.
  rewrite Hh by (unfold zlen; lia). unfold vec_at.
  rewrite (proj2 (Z.leb_le _ _)), Nat2Z.id, Hi by lia. cbn. unfold Store.stored_block.
  destruct (Hb b) as (j & -> & Hj); [by eapply list_elem_of_lookup_2|]. unfold Store.deserialize. by rewrite Hj.
Qed.

Lemma set_best_twice h h' x x' meta : Store.set_best h x (Store.set_best h' x' meta) = Store.set_best h x meta.
Proof.
  unfold Store.set_best. apply map_eq. intros k. destruct (decide (k = str "best_hash")) as [->|H1]; [by rewrite !lookup_insert_eq|].
  rewrite !(lookup_insert_ne _ (str "best_hash") k) by done.
  destruct (decide (k = str "best_height")) as [->|H2]; [by rewrite !lookup_insert_eq|].
  by rewrite !lookup_insert_ne.
Qed.

Lemma rebuilt_next full bs l l' meta s b added removed claims :
  rebuilt full bs l meta s -> full !! length bs = Some b -> bs <> [] -> NoDup (map block_hash full) ->
  view_append b (zlen bs) added removed claims (view_of bs l) (view_of (bs ++ [b]) l') ->
  exists s', Store.append_block b (zlen bs) added removed claims s = (s', Ok tt) /\ rebuilt full (bs ++ [b]) l' meta s'.
Proof.
  intros [R1 R2 R3 R4 R5] Hb Hne Hnd (_ & Hk & Hv). unfold view_of in Hv. cbn in Hv. injection Hv as Hu Hcl.
  destruct (append_tables (utxo_set l) s b (zlen bs) added removed claims R3 Hk) as (j & t & Hj & Ht & ->).
  eexists. split; [reflexivity|].
  assert (Hpos : 1 <= zlen bs) by (unfold zlen; destruct bs; [done|simpl; lia]).
  split; cbn [BLOCKS HEIGHT_INDEX UTXOS CLAIMED_ADDRS META].
  - intros h. destruct (decide (h = zlen bs)) as [->|Hh]; [|by rewrite lookup_insert_ne].
    rewrite lookup_insert_eq. unfold vec_at, zlen. by rewrite (proj2 (Z.leb_le _ _)), Nat2Z.id, Hb by lia.
  - intros x Hx. destruct (decide (Store.hash_hex b = Store.hash_hex x)) as [E|E]; [|rewrite lookup_insert_ne by done; auto].
    exists j. rewrite <- E, lookup_insert_eq. split; [done|]. apply hash_hex_inj in E.
    apply list_elem_of_lookup in Hx as [i Hi]. rewrite NoDup_alt in Hnd.
    assert (i = length bs) as ->; [|congruence]. apply (Hnd _ _ (block_hash x)); rewrite list_lookup_fmap.
    + by rewrite Hi.
    + by rewrite Hb, <- E.
  - by rewrite Hu.
  - by rewrite R4, Hcl.
  - rewrite R5, zlen_app, tip_snoc. change (zlen [b]) with 1. rewrite (proj2 (Z.eqb_neq (zlen bs + 1) 1)) by lia.
    replace (zlen bs + 1 - 1) with (zlen bs) by lia. destruct (zlen bs =? 1); [done|apply set_best_twice].
Qed.

Lemma repersist_loads f f' now full meta s1 bs l js c1 :
  history U g l0 f bs l js -> (exists rest, full = bs ++ rest) -> apart full -> same_rules f f' ->
  Forall (on_time now) (tail bs) -> rebuilt full [g] l0 meta s1 -> loaded U g l0 f' [g] l0 c1 ->
  exists s' c', Store.replay_and_repersist now 1 (zlen bs - 1) (s1, c1) = ((s', c'), Ok tt) /\
    rebuilt full bs l meta s' /\ loaded U g l0 f' bs l c'.
Proof.
  intros Hh Hfull Hap R Hot Hr Hl1. induction Hh as [j0|bs l js b l' j Hh IH Hc Hs Hu Hv].
  { exists s1, c1. done. }
  destruct Hfull as [rest Hfull]. rewrite <- app_assoc in Hfull.
  assert (Hne : bs <> []).
  { destruct (history_facts U HU g l0 G1 G2 G3 _ _ _ _ Hh) as [[r ->] _ _ _ _]. done. }
  assert (Hot' : Forall (on_time now) (tail bs) /\ on_time now b).
  { destruct bs as [|b1 bs]; [done|]. change (tail ((b1 :: bs) ++ [b])) with (bs ++ [b]) in Hot.
    apply Forall_app in Hot as [Hot Hb]. split; [done|]. exact (Forall_inv Hb). }
  destruct IH as (s & c & E & Hr' & Hl); [by eexists|apply Hot'|].
  assert (Hap' : apart (bs ++ [b])).
  { rewrite Hfull, app_assoc in Hap. eapply apart_prefix; [exact Hap|]. by destruct bs. }
  destruct (loaded_next U HU g l0 G1 G2 G3 f f' bs l b l' j now c Hl R Hc Hs Hu Hv (proj2 Hot') Hap')
    as (added & removed & c' & E' & Hl' & Hview & _).
  assert (Hb : full !! length bs = Some b) by (rewrite Hfull; by apply list_lookup_middle).
  destruct (rebuilt_next full bs l l' meta s b _ _ _ Hr' Hb Hne (proj1 Hap) Hview) as (s' & Es & Hr'').
  exists s', c'. split; [|done]. unfold Store.replay_and_repersist in *. rewrite zlen_app. change (zlen [b]) with 1.
  assert (0 < zlen bs) as Hpos by (unfold zlen; destruct bs; simpl; [done|lia]).
  replace (zlen bs + 1 - 1) with (zlen bs) by lia. rewrite heights_snoc by lia. rewrite sfor_app. unfold sbind at 1.
  rewrite E. cbn [sfor]. unfold sbind, Store.repersist_height, sbind, Store.on_store, Store.on_chain.
  unfold zlen at 1. rewrite (indexed_at full s (length bs) b (fun h _ => rb_heights _ _ _ _ _ Hr' h) (rb_blocks _ _ _ _ _ Hr') Hb).
  unfold slift. cbn [ok_or]. unfold Store.add_stored. rewrite E'. unfold Store.persist_accepted, Store.on_store. by rewrite Es.
Qed.

(** ** The rounds of the self-heal *)

(** A block that no chain with the branch [bs] takes. *)
Definition refused (now : Z) (f : Config) (bs : list Block) (l : Ledger) (b : Block) : Prop :=
  typed_txs (transactions b) /\ (forall x, x ∈ transactions b -> U x) /\
  forall c, loaded U g l0 f bs l c -> is_err (add_block now b c).2 = true.

(** A store with the blocks [bs] whose next block is missing, unreadable or refused. The tables
    of outputs and claims may hold anything; the heights above may name any block but those of [bs]. *)
Record damaged (now : Z) (f : Config) (bs : list Block) (l : Ledger) (top : Z) (s : BlockStore) : Prop := {
  da_top : Store.best_height s = Ok top;
  da_above : zlen bs <= top;
  da_heights : forall h, h < zlen bs -> HEIGHT_INDEX s !! h = Store.hash_hex <$> vec_at bs h;
  da_blocks : forall b, b ∈ bs -> exists j, BLOCKS s !! Store.hash_hex b = Some j /\ from_slice j = Some b;
  da_apart : forall h b, zlen bs <= h -> b ∈ bs -> HEIGHT_INDEX s !! h <> Some (Store.hash_hex b);
  da_next : forall b, Store.get_block_at_height s (zlen bs) = Ok (Some b) -> refused now f bs l b;
}.

Lemma parse_u32_max v z : parse_u32 v = Some z -> z <= u32_max.
Proof.
  unfold parse_u32. assert (Hf : forall ds acc, (forall a, acc = Some a -> a <= u32_max) ->
    forall z, foldl push_digit acc ds = Some z -> z <= u32_max).
  { induction ds as [|c ds IH]; intros acc Ha; [done|]. cbn [foldl]. apply IH. intros a. unfold push_digit.
    destruct acc; [|done]. case_match eqn:E; [|done]. intros [= <-]. apply andb_true_iff in E as [_ E%Z.leb_le]. done. }
  destruct (strip_plus v) as [|c ds]; [done|]. apply Hf. intros a [= <-]. done.
Qed.

Lemma best_height_max s top : Store.best_height s = Ok top -> top <= u32_max.
Proof.
  unfold Store.best_height. destruct (META s !! str "best_height") as [v|]; [|by intros [= <-]].
  destruct (parse_u32 v) eqn:E; [|done]. intros [= <-]. by eapply parse_u32_max.
Qed.

Lemma loaded_refused now f bs l b c : refused now f bs l b -> loaded U g l0 f bs l c ->
  exists c' e, add_block now b c = (c', Err e) /\ loaded U g l0 f bs l c'.
Proof.
  intros (Hty & Hu & He) Hl. specialize (He c Hl). pose proof Hl as [[O1 O2 O3] L2 L3 L4].
  pose proof (add_block_ok U HU g l0 G1 G2 G3 now b c bs (ld_ok _ _ _ _ _ _ _ Hl) Hty Hu) as Hx. unfold soc in Hx.
  destruct (add_block now b c) as [c' [a|e|]]; [done| |done]. exists c', e. split; [done|]. destruct Hx as (E1 & E2 & E3).
  split; [split|..]; rewrite ?E1, ?E2, ?E3; done.
Qed.

Lemma heights_split a m b : a <= m <= b -> heights a b = heights a (m - 1) ++ m :: heights (m + 1) b.
Proof.
  intros Hm. unfold heights. replace (b - a + 1) with ((m - 1 - a + 1) + (b - m + 1)) by lia. rewrite seqZ_app by lia. f_equal.
  rewrite seqZ_cons by lia. f_equal; [lia|]. f_equal; lia.
Qed.

Lemma elem_heights h a b : h ∈ heights a b <-> a <= h <= b.
Proof. unfold heights. rewrite elem_of_seqZ. lia. Qed.

(** Every height of [hs] holds a block of [bs]. *)
Definition holds_blocks (s : BlockStore) (bs : list Block) (hs : list Z) : Prop :=
  forall h, h ∈ hs -> exists b, b ∈ bs /\ Store.get_block_at_height s h = Ok (Some b).

Lemma holds_branch s bs :
  (forall h, h < zlen bs -> HEIGHT_INDEX s !! h = Store.hash_hex <$> vec_at bs h) ->
  (forall b, b ∈ bs -> exists j, BLOCKS s !! Store.hash_hex b = Some j /\ from_slice j = Some b) ->
  holds_blocks s bs (heights 1 (zlen bs - 1)).
Proof.
  intros Hh Hb h Hin%elem_heights. destruct (lookup_lt_is_Some_2 bs (Z.to_nat h)) as [b Hi]; [unfold zlen in Hin; lia|].
  exists b. split; [by eapply list_elem_of_lookup_2|]. pose proof (indexed_at bs s _ b Hh Hb Hi) as E.
  by rewrite Z2Nat.id in E by lia.
Qed.

(** Blocks of the branch are duplicates. *)
Lemma replay_duplicates now s f bs l c hs :
  loaded U g l0 f bs l c -> holds_blocks s bs hs -> sfor (Store.replay_step now s) hs c = (c, Ok tt).
Proof.
  intros Hl. induction hs as [|h hs IH]; intros Hb; [done|]. cbn [sfor]. destruct (Hb h) as (b & Hin & E); [left|].
  unfold sbind, Store.replay_step, sbind, slift. rewrite E. unfold Store.add_stored.
  rewrite (loaded_duplicate U g l0 f bs l c now b Hl Hin). apply IH. intros h' Hh'. apply Hb. by right.
Qed.

Lemma first_failing_duplicates now s max f bs l c hs hs' :
  loaded U g l0 f bs l c -> holds_blocks s bs hs ->
  Store.first_failing now s max (hs ++ hs') c = Store.first_failing now s max hs' c.
Proof.
  intros Hl. induction hs as [|h hs IH]; intros Hb; [done|]. cbn [app Store.first_failing].
  destruct (Hb h) as (b & Hin & E); [left|]. rewrite E, (loaded_duplicate U g l0 f bs l c now b Hl Hin).
  apply IH. intros h' Hh'. apply Hb. by right.
Qed.

(** The replay of a damaged store stops at the first bad height, and the search finds it. *)
Lemma damaged_replay now f f' bs l js top s c1 :
  damaged now f' bs l top s -> history U g l0 f bs l js -> apart bs -> same_rules f f' -> Forall (on_time now) (tail bs) ->
  loaded U g l0 f' [g] l0 c1 ->
  exists c2 e c3, Store.replay_range now s 1 top c1 = (c2, Err e) /\
    Store.first_failing_height now s top c2 = (c3, Ok (zlen bs)).
Proof.
  intros [D1 D2 D3 D4 D5 D6] Hh Hap R Hot Hl1. destruct Hap as [Hnd Hlen].
  destruct (replay_loads U HU g l0 G1 G2 G3 f f' s now bs l js c1 Hh (conj Hnd Hlen) R Hot
    (fun i b Hi => indexed_at bs s i b D3 D4 Hi) Hl1) as (c & E & Hl).
  assert (Hd : holds_blocks s bs (heights 1 (zlen bs - 1))) by by apply holds_branch.
  unfold Store.replay_range, Store.first_failing_height in *. rewrite !(heights_split 1 (zlen bs) top) by lia.
  rewrite sfor_app. unfold sbind at 1. rewrite E. cbn [sfor]. unfold sbind, Store.replay_step, sbind, slift.
  destruct (Store.get_block_at_height s (zlen bs)) as [[b|]|e|] eqn:Eg.
  - destruct (loaded_refused now f' bs l b c (D6 b eq_refl) Hl) as (c2 & e & E2 & Hl2).
    destruct (loaded_refused now f' bs l b c2 (D6 b eq_refl) Hl2) as (c3 & e' & E3 & _).
    unfold Store.add_stored. rewrite E2. eexists c2, _, c3. split; [reflexivity|].
    rewrite (first_failing_duplicates now s top f' bs l c2 _ _ Hl2 Hd). cbn [Store.first_failing]. by rewrite Eg, E3.
  - eexists c, _, c. split; [reflexivity|]. rewrite (first_failing_duplicates now s top f' bs l c _ _ Hl Hd).
    cbn [Store.first_failing]. by rewrite Eg.
  - eexists c, _, c. split; [reflexivity|]. rewrite (first_failing_duplicates now s top f' bs l c _ _ Hl Hd).
    cbn [Store.first_failing]. by rewrite Eg.
  - unfold Store.get_block_at_height, Store.stored_block, Store.deserialize in Eg. by repeat case_match.
Qed.

Lemma damaged_truncated now f bs l top s :
  damaged now f bs l top s -> apart bs -> (exists rest, bs = g :: rest) ->
  exists s2, (do* _ := Store.truncate_above (zlen bs - 1) in Store.clear_derived_state) s = (s2, Ok tt) /\
    rebuilt bs [g] l0 (META s) s2.
Proof.
  intros [D1 D2 D3 D4 D5 D6] [Hnd Hlen] [rest Hbs]. pose proof (best_height_max _ _ D1).
  destruct (truncate_above_ok (zlen bs - 1) s) as (s1 & E1 & T1 & T2 & T3); [lia|].
  unfold sbind. rewrite E1, clear_ok. eexists. split; [reflexivity|]. split; cbn.
  - intros h. rewrite T2. destruct (Z.ltb_spec (zlen bs - 1) h) as [Hlt|Hge]; [|apply D3; lia].
    unfold vec_at, zlen in *. rewrite (proj2 (Z.leb_le _ _)), lookup_ge_None_2 by lia. done.
  - intros b Hb. rewrite T3; [by apply D4|]. intros h Hh. apply D5; [lia|done].
  - split; [|by intros key v Hk; rewrite lookup_empty in Hk|intros k u Hk; rewrite (G5 k u Hk); lia].
    intros k [u Hk]. apply well_keyed_bytes. split; [|by apply (li_utxos _ G2 k u)].
    pose proof (tr_keys _ _ _ G1 k ltac:(by eexists)) as (tx & Ex & _)%list_elem_of_fmap. by exists tx.
  - done.
  - by rewrite T1.
Qed.

Lemma heal_rounds_damaged now regtest fast f f' bs l js top s c c1 :
  damaged now f' bs l top s -> history U g l0 f bs l js -> apart bs -> Forall (on_time now) (tail bs) ->
  loaded U g l0 f' [g] l0 c -> same_rules f f' ->
  Store.make_chain g regtest fast = Ok c1 -> loaded U g l0 (config c1) [g] l0 c1 -> same_rules f (config c1) ->
  exists s' c', Store.heal_rounds g now regtest fast (S (Z.to_nat top)) top (s, c) = ((s', c'), Ok tt) /\
    rebuilt bs bs l (META s) s' /\ loaded U g l0 (config c1) bs l c'.
Proof.
  intros Hd Hh Hap Hot Hl R Hmk Hl1 R1.
  destruct (damaged_replay now f f' bs l js top s c Hd Hh Hap R Hot Hl) as (c2 & e & c3 & E1 & E2).
  destruct (damaged_truncated now f' bs l top s Hd Hap) as (s2 & E3 & Hr).
  { by destruct (history_facts U HU g l0 G1 G2 G3 _ _ _ _ Hh) as [? _ _ _ _]. }
  destruct (repersist_loads f (config c1) now bs (META s) s2 bs l js c1 Hh) as (s' & c' & E4 & Hr' & Hl');
    [exists []; by rewrite app_nil_r|done..|].
  exists s', c'. split; [|done]. pose proof (da_above _ _ _ _ _ _ Hd). destruct Hap as [_ Hlen].
  cbn [Store.heal_rounds]. rewrite E1. unfold sbind at 1, Store.on_chain at 1. rewrite E2. cbv zeta.
  replace (sat_sub (zlen bs) 1) with (zlen bs - 1) by (unfold sat_sub; lia).
  unfold sbind in E3. unfold sbind at 1, Store.on_store at 1.
  destruct (Store.truncate_above (zlen bs - 1) s) as [s1 [u| |]]; [|done..].
  unfold sbind at 1, Store.on_store at 1. rewrite E3. unfold sbind at 1, slift. rewrite Hmk.
  unfold sbind at 1, Store.on_chain at 1, smod. unfold sbind at 1. rewrite E4.
  destruct (Z.to_nat top) as [|rounds] eqn:Et; [lia|]. cbn [Store.heal_rounds]. unfold Store.replay_range.
  rewrite (replay_duplicates now s' (config c1) bs l c' _ Hl'); [done|].
  apply holds_branch; [intros h _; by apply Hr'|apply Hr'].
Qed.

Lemma load_damaged now regtest fast cache gov f bs l js top s c1 :
  damaged now (config (load_start cache gov c1)) bs l top s -> history U g l0 f bs l js -> apart bs ->
  Forall (on_time now) (tail bs) ->
  Store.make_chain g regtest fast = Ok c1 -> at_genesis g c1 -> state (main c1) = l0 ->
  same_rules f (config (load_start cache gov c1)) -> same_rules f (config c1) ->
  exists s' c', Store.load_into_chain_with_mode g now regtest fast cache gov s = (s', Ok c') /\
    loaded U g l0 (config c1) bs l c' /\ rebuilt bs bs l (META s) s' /\ holds (Store.expected_utxos c') (UTXOS s').
Proof.
  intros Hd Hh Hap Hot Hmk Ha Hs1 R R1.
  destruct (heal_rounds_damaged now regtest fast f _ bs l js top s (load_start cache gov c1) c1 Hd Hh Hap Hot)
    as (s1 & c' & E & Hr & Hl); [by apply load_start_genesis|done|done|by apply loaded_genesis|done|].
  destruct (repair_utxos_ok c' s1) as (t & r & Er & Ht).
  { eapply (index_ok U HU g l0 G1 G2 G3); [exact Hl|done|apply Hr]. }
  exists (with_utxos (fun _ => t) s1), c'. split_and!; [|done| |exact Ht].
  - unfold Store.load_into_chain_with_mode, sbind at 1. rewrite (da_top _ _ _ _ _ _ Hd). unfold sbind at 1, slift. rewrite Hmk.
    cbv zeta. fold (load_start cache gov c1). unfold sbind at 1. rewrite E. unfold sbind. cbn [rbind]. by rewrite Er.
  - destruct Hr as [R1' R2 R3 R4 R5]. split; try done.
    cbn. rewrite <- (ld_state _ _ _ _ _ _ _ Hl). apply holds_mirror; [|done]. rewrite (ld_state _ _ _ _ _ _ _ Hl).
    intros k u. by eapply (history_outputs U HU g l0 G1 G2 G3).
Qed.

(** Heights that hold blocks of the branch again are passed over, and the load gives up
    when it compares the index with the chain. *)
Lemma load_repeated now regtest fast cache gov f bs l js s c1 b :
  (forall h, h < zlen bs -> HEIGHT_INDEX s !! h = Store.hash_hex <$> vec_at bs h) ->
  (forall b, b ∈ bs -> exists j, BLOCKS s !! Store.hash_hex b = Some j /\ from_slice j = Some b) ->
  b ∈ bs -> HEIGHT_INDEX s !! zlen bs = Some (Store.hash_hex b) -> Store.best_height s = Ok (zlen bs) ->
  Z.of_nat (size (HEIGHT_INDEX s)) <> zlen bs ->
  history U g l0 f bs l js -> apart bs -> Forall (on_time now) (tail bs) ->
  Store.make_chain g regtest fast = Ok c1 -> at_genesis g c1 -> state (main c1) = l0 ->
  same_rules f (config (load_start cache gov c1)) ->
  Store.load_into_chain_with_mode g now regtest fast cache gov s =
    (s, Err (Corrupted "height index changed during UTXO repair")).
Proof.
  intros S1 S2 Hb S3 S4 S5 Hh Hap Hot Hmk Ha Hs1 R.
  destruct (replay_loads U HU g l0 G1 G2 G3 f _ s now bs l js (load_start cache gov c1) Hh Hap R Hot
    (fun i x Hi => indexed_at bs s i x S1 S2 Hi)) as (c & E & Hl); [by apply load_start_genesis|].
  unfold Store.load_into_chain_with_mode, sbind at 1. rewrite S4. unfold sbind at 1, slift. rewrite Hmk. cbv zeta.
  fold (load_start cache gov c1). unfold sbind at 1. cbn [Store.heal_rounds]. unfold Store.replay_range in *.
  destruct Hap as [_ Hlen]. rewrite (heights_split 1 (zlen bs) (zlen bs)), sfor_app by lia. unfold sbind at 1. rewrite E.
  rewrite (replay_duplicates now s _ bs l c (zlen bs :: heights (zlen bs + 1) (zlen bs)) Hl).
  2: { intros h [->|Hx%elem_heights]%elem_of_cons; [|lia]. exists b. split; [done|]. unfold Store.get_block_at_height.
       rewrite S3. unfold Store.stored_block. destruct (S2 b Hb) as (j & -> & Hj). unfold Store.deserialize. by rewrite Hj. }
  unfold sbind. cbn [rbind]. unfold Store.repair_utxos, write_txn, sbind at 1, sget, sbind at 1, slift, Store.index_matches.
  destruct (ld_ok _ _ _ _ _ _ _ Hl) as [O1 O2 _]. rewrite (best_height_eq U HU g l0 G1 G2 G3 _ _ _ _ c O1 O2 eq_refl).
  replace (zlen bs - 1 + 1) with (zlen bs) by lia. by rewrite (proj2 (Z.eqb_neq _ _)).
Qed.

(** A store rebuilt beyond the genesis block mirrors the chain. *)
Lemma rebuilt_mirrors bs l meta s :
  rebuilt bs bs l meta s -> 2 <= zlen bs -> meta !! str "protocol_version" = Some STORE_PROTOCOL_VERSION ->
  mirrors (view_of bs l) s.
Proof.
  intros [R1 R2 R3 R4 R5] Hlen Hp. rewrite (proj2 (Z.eqb_neq _ _)) in R5 by lia.
  destruct (tip_exists bs) as [b0 Ht]; [by intros ->|]. rewrite Ht in R5.
  destruct (set_best_lookup (zlen bs - 1) (Store.hash_hex b0) meta) as (B1 & B2 & B3).
  split; [split|..]; cbn [view_of v_blocks v_utxos v_claimed]; rewrite ?R5; try done.
  - by rewrite B2, Ht.
  - by rewrite B3.
Qed.

Lemma history_prefix f xs ys l js : history U g l0 f (xs ++ ys) l js -> xs <> [] -> exists l' js', history U g l0 f xs l' js'.
Proof.
  revert l js. induction ys as [|y ys IH] using rev_ind; intros l js Hh Hne; [rewrite app_nil_r in Hh; eauto|].
  rewrite app_assoc in Hh. apply (history_last U HU g l0 G1 G2 G3) in Hh as (l1 & js1 & j1 & _ & Hh & _); [|by destruct xs]. eauto.
Qed.

(** ** Rebuilding and catching up *)

(** A loop that takes blocks to the chain and writes each as a block of the active chain. *)
Definition writes_block (now : Z) (F : nat * Block -> st (BlockStore * Chain) StoreError unit) (bs rest : list Block) : Prop :=
  forall i b s c s' c' added removed claims, rest !! i = Some b ->
    add_block now b c = (c', Ok (MainChain (zlen bs + Z.of_nat i) added removed claims)) ->
    Store.append_block b (zlen bs + Z.of_nat i) added removed claims s = (s', Ok tt) ->
    F (i, b) (s, c) = ((s', c'), Ok tt).

Definition best_meta (bs : list Block) (meta : gmap bytes bytes) : gmap bytes bytes :=
  match tip_block bs with
  | Some b => Store.set_best (zlen bs - 1) (Store.hash_hex b) meta
  | None => meta
  end.

Lemma write_loop now F f f' bs rest : forall l js l' js' s c,
  writes_block now F bs rest -> history U g l0 f bs l js -> history U g l0 f (bs ++ rest) l' js' -> apart (bs ++ rest) ->
  same_rules f f' -> Forall (on_time now) rest -> loaded U g l0 f' bs l c -> tables (view_of bs l) s ->
  exists s' c', sfor F (imap pair rest) (s, c) = ((s', c'), Ok tt) /\ loaded U g l0 f' (bs ++ rest) l' c' /\
    tables (view_of (bs ++ rest) l') s' /\
    META s' = match rest with [] => META s | _ => best_meta (bs ++ rest) (META s) end.
Proof.
  induction rest as [|b rest IH] using rev_ind; intros l js l' js' s c HF Hh Hh' Hap R Hot Hl Ht.
  { exists s, c. rewrite app_nil_r in *. pose proof (history_replay U HU g l0 G1 G2 G3 _ _ _ _ Hh) as E1.
    rewrite (history_replay U HU g l0 G1 G2 G3 _ _ _ _ Hh') in E1. injection E1 as ->. done. }
  assert (Hne : bs <> []) by (destruct (history_facts U HU g l0 G1 G2 G3 _ _ _ _ Hh) as [[r ->] _ _ _ _]; done).
  rewrite app_assoc in Hh', Hap |- *. apply Forall_app in Hot as [Hot Hb].
  inversion Hh' as [j0 E|bs1 l1 js1 b1 l1' j1 Hh1 Hc Hs Hu Hv E]; 
    [apply (f_equal length) in E; rewrite !length_app in E; destruct bs; [done|simpl in E; lia]|].
  apply app_inj_tail in E as [-> ->]. subst l1' js'.
  destruct (IH l js l1 js1 s c) as (s1 & c1 & E1 & Hl1 & Ht1 & Em); try done.
  { intros i x ? ? ? ? ? ? ? Hi. apply HF. by apply lookup_app_l_Some. }
  { eapply apart_prefix; [exact Hap|by destruct bs]. }
  destruct (loaded_next U HU g l0 G1 G2 G3 f f' (bs ++ rest) l1 b l' j1 now c1 Hl1 R Hc Hs Hu Hv (Forall_inv Hb) Hap)
    as (added & removed & c' & E' & Hl' & Hview & _).
  destruct (append_view _ _ s1 _ _ _ _ _ Ht1 Hview Hap) as (s' & Es & Ht' & Em').
  exists s', c'. rewrite imap_app, sfor_app. unfold sbind at 1. rewrite E1. cbn [imap sfor]. unfold sbind.
  rewrite Nat.add_0_r. assert (zlen (bs ++ rest) = zlen bs + Z.of_nat (length rest)) as Hz by (rewrite zlen_app; done).
  rewrite Hz in E', Es. rewrite (HF (length rest) b s1 c1 s' c' added removed (j_claimed j1)); [|by apply list_lookup_middle|done..].
  split_and!; [done..|]. rewrite Em'. cbn [view_of v_blocks]. unfold best_meta. rewrite tip_snoc.
  assert (zlen ((bs ++ rest) ++ [b]) - 1 = zlen (bs ++ rest)) as -> by (rewrite (zlen_app _ [b]); change (zlen [b]) with 1; lia).
  destruct rest as [|b' rest]; cbn [app]; rewrite Em; [done|]. unfold best_meta. destruct (tip_block _); [|done]. apply set_best_twice.
Qed.

Lemma reconcile_writes now bs rest : apart (bs ++ rest) -> writes_block now (Store.reconcile_block now (zlen bs)) bs rest.
Proof.
  intros [_ Hlen] i b s c s' c' added removed claims Hi E Es. rewrite zlen_app in Hlen. pose proof (lookup_lt_Some _ _ _ Hi) as Hlt.
  assert (0 <= Z.of_nat i < zlen rest) by (unfold zlen; lia). pose proof (zlen_nonneg bs).
  unfold Store.reconcile_block, sbind at 1, slift. rewrite (Z_as_u32 (Z.of_nat i)) by lia.
  unfold padd, checked_add. rewrite (proj2 (Z.leb_le _ _)) by lia. cbn [unwrap].
  unfold sbind, Store.on_chain, Store.add_stored. rewrite E. unfold Store.persist_accepted, Store.on_store. by rewrite Es.
Qed.

Lemma rebuild_writes now bs rest : apart (bs ++ rest) -> length bs = 1%nat ->
  writes_block now (fun e => Store.rebuild_block now (S e.1, e.2)) bs rest.
Proof.
  intros [_ Hlen] H1 i b s c s' c' added removed claims Hi E Es. rewrite zlen_app in Hlen. pose proof (lookup_lt_Some _ _ _ Hi) as Hlt.
  assert (0 <= Z.of_nat i < zlen rest) by (unfold zlen; lia). assert (zlen bs = 1) as Hz by (unfold zlen; lia). rewrite Hz in *.
  replace (1 + Z.of_nat i) with (Z.of_nat (S i)) in * by lia.
  unfold Store.rebuild_block. cbn [fst snd]. rewrite (Z_as_u32 (Z.of_nat (S i))) by lia.
  unfold sbind, Store.on_chain, Store.add_stored. rewrite E. unfold Store.persist_accepted, Store.on_store. by rewrite Es.
Qed.

Lemma reconcile_ok now regtest fast cache f bs l js rest l' js' s c1 :
  mirrors (view_of bs l) s -> history U g l0 f bs l js -> history U g l0 f (bs ++ rest) l' js' -> apart (bs ++ rest) ->
  zlen bs <= u32_max -> Forall (on_time now) (tail bs ++ rest) ->
  Store.make_chain g regtest fast = Ok c1 -> at_genesis g c1 -> state (main c1) = l0 ->
  same_rules f (config (load_start cache None c1)) ->
  exists s', Store.reconcile_tail g now regtest fast cache (zlen bs) rest s = (s', Ok tt) /\ mirrors (view_of (bs ++ rest) l') s'.
Proof.
  intros M Hh Hh' Hap Hmax [Hot Hot']%Forall_app Hmk Ha Hs1 R.
  assert (Hne : bs <> []) by (destruct (history_facts U HU g l0 G1 G2 G3 _ _ _ _ Hh) as [[r ->] _ _ _ _]; done).
  assert (Hpos : 1 <= zlen bs) by (unfold zlen; destruct bs; [done|simpl; lia]).
  assert (Hmk' : Store.make_chain g regtest (regtest && fast) = Ok c1) by by destruct regtest, fast.
  destruct (load_mirrored U HU g l0 G1 G2 G3 now regtest (regtest && fast) cache None f bs l js s c1 M Hh
    (apart_prefix _ _ Hap Hne) Hot Hmk' Ha Hs1 R) as (s1 & c & E & Hl & [T1 T2 T3 T4] & _).
  destruct (write_loop now (Store.reconcile_block now (zlen bs)) f _ bs rest l js l' js' s1 c (reconcile_writes now bs rest Hap)
    Hh Hh' Hap R Hot' Hl T1) as (s' & c' & E' & _ & T' & Em). cbn [view_of v_blocks] in T2, T3.
  exists s'. split.
  - unfold Store.reconcile_tail. rewrite (proj2 (Z.eqb_neq _ _)) by lia.
    assert ((if regtest && fast then Store.load_into_fast_regtest_chain_with_cache g now cache
      else if regtest then Store.load_into_regtest_chain_with_cache g now cache
      else Store.load_into_chain_with_cache g now cache) s = (s1, Ok c)) as El by by destruct regtest, fast.
    unfold sbind at 1. rewrite El. destruct (ld_ok _ _ _ _ _ _ _ Hl) as [O1 O2 _].
    rewrite (best_height_eq U HU g l0 G1 G2 G3 _ _ _ _ c O1 O2 eq_refl). unfold sbind, slift, padd, checked_add.
    rewrite (proj2 (Z.leb_le _ _)) by lia. cbn [unwrap]. rewrite (proj2 (Z.eqb_eq _ _)) by lia. cbn [negb].
    unfold Store.with_chain. by rewrite E'.
  - destruct (tip_exists (bs ++ rest)) as [b0 Ht]; [by destruct bs|].
    destruct (set_best_lookup (zlen (bs ++ rest) - 1) (Store.hash_hex b0) (META s1)) as (B1 & B2 & B3).
    unfold best_meta in Em. rewrite Ht in Em.
    split; [done|..]; cbn [view_of v_blocks]; destruct rest as [|x rest]; rewrite Em, ?app_nil_r in *; try done.
    + by rewrite B2, Ht.
    + by rewrite B3.
Qed.

(** A store whose entry for the genesis block is in order. *)
Record has_genesis (s : BlockStore) : Prop := {
  hg_height : HEIGHT_INDEX s !! 0 = Some (Store.hash_hex g);
  hg_below : forall h, h < 0 -> HEIGHT_INDEX s !! h = None;
  hg_block : exists j, BLOCKS s !! Store.hash_hex g = Some j /\ from_slice j = Some g;
  hg_apart : forall h, 0 < h -> HEIGHT_INDEX s !! h <> Some (Store.hash_hex g);
}.

Lemma genesis_tables s s1 : has_genesis s ->
  (do* _ := Store.truncate_above 0 in Store.clear_derived_state) s = (s1, Ok tt) ->
  tables (view_of [g] l0) s1 /\ META s1 = META s.
Proof.
  intros [H1 H2 H3 H4]. destruct (truncate_above_ok 0 s) as (s2 & E & T1 & T2 & T3); [done|].
  unfold sbind. rewrite E, clear_ok. intros [= <-]. split; [|by rewrite T1].
  split; cbn [BLOCKS HEIGHT_INDEX UTXOS CLAIMED_ADDRS view_of v_blocks v_utxos v_claimed]; [| | |done].
  - intros h. rewrite T2, <- (app_nil_l [g]), vec_at_snoc. change (zlen (@nil Block)) with 0.
    destruct (Z.ltb_spec 0 h), (Z.eqb_spec h 0) as [->|]; try lia; [|done|].
    + unfold vec_at. destruct (0 <=? h); by rewrite ?lookup_nil.
    + rewrite H2 by lia. unfold vec_at. by rewrite (proj2 (Z.leb_gt _ _)) by lia.
  - intros b ->%list_elem_of_singleton. by rewrite T3.
  - split; [|by intros key v Hk; rewrite lookup_empty in Hk|intros k u Hk; rewrite (G5 k u Hk); lia].
    intros k [u Hk]. apply well_keyed_bytes. split; [|by apply (li_utxos _ G2 k u)].
    pose proof (tr_keys _ _ _ G1 k ltac:(by eexists)) as (tx & Ex & _)%list_elem_of_fmap. by exists tx.
Qed.

Lemma rebuild_ok now regtest fast f rest l' js' s c1 :
  has_genesis s -> history U g l0 f (g :: rest) l' js' -> apart (g :: rest) -> Forall (on_time now) rest ->
  Store.make_chain g regtest fast = Ok c1 -> at_genesis g c1 -> state (main c1) = l0 -> same_rules f (config c1) ->
  exists s', Store.rebuild_from_blocks_with_mode g now (g :: rest) regtest fast s = (s', Ok tt) /\
    tables (view_of (g :: rest) l') s' /\ META s' = match rest with [] => META s | _ => best_meta (g :: rest) (META s) end.
Proof.
  intros Hg Hh Hap Hot Hmk Ha Hs1 R.
  destruct (truncate_above_ok 0 s) as (s1 & E1 & _); [done|]. pose proof (clear_ok s1) as E2. set (s2 := mkStore _ _ _ _ _) in E2.
  destruct (genesis_tables s s2 Hg) as [T2 M2]; [unfold sbind; by rewrite E1|].
  assert (Hl : loaded U g l0 (config c1) [g] l0 c1) by by apply loaded_genesis.
  destruct (write_loop now _ f _ [g] rest l0 [new_journal l0 [] 0] l' js' s2 c1 (rebuild_writes now [g] rest Hap eq_refl)
    (history_genesis U g l0 f _) Hh Hap R Hot Hl T2) as (s' & c' & E & _ & T' & Em).
  exists s'. split; [|split; [done|by rewrite <- M2]].
  unfold Store.rebuild_from_blocks_with_mode, sbind at 1, slift. rewrite Hmk. unfold sbind at 1. rewrite E1. unfold sbind at 1.
  rewrite E2. unfold Store.with_chain. rewrite imap_cons. cbn [sfor]. unfold sbind, Store.rebuild_block at 1. 
  unfold sbind, Store.on_chain, Store.add_stored. rewrite (loaded_duplicate U g l0 _ [g] l0 c1 now g Hl ltac:(left)).
  assert (imap (pair ∘ S) rest = map (fun e => (S e.1, e.2)) (imap pair rest)) as ->.
  { apply list_eq. intros i. rewrite list_lookup_fmap, !list_lookup_imap. by destruct (rest !! i). }
  change (as_u32 (Z.of_nat 0) =? 0) with true. unfold Store.persist_accepted, sret. by rewrite sfor_map, E.
Qed.

End heal.

Section node.
Context {C : Crypto} {B : Bincode} {H : Hex} {K : KeyOrder} {D : HexDecode} {JB : Json Block} {JU : Json Utxo}.
Context {CL : CryptoLaws C} {HL : HexLaws H} {JBL : JsonLaws Block JB} {JUL : JsonLaws Utxo JU}.
Context (legacy : list (bytes * Z)) (U : Transaction -> Prop) (g : Block) (c0 : Chain).
#[local] Hint Extern 0 Snapshot => exact (N legacy) : typeclass_instances.
Context (ST : setting legacy U g c0).
#[local] Hint Extern 0 (SnapshotLaws _) => exact (SL legacy U g c0 ST) : typeclass_instances.
(** The mode and the options of the load; the chain had the same rules. *)
Context (now : Z) (regtest fast_stake : bool) (cache : Z) (gov : option Z) (c1 : Chain).

Record load_setting (bs : list Block) : Prop := {
  lo_chain : Store.make_chain g regtest fast_stake = Ok c1;
  lo_state : state (main c1) = state (main c0);
  lo_rules : same_rules (config c0) (config (load_start cache gov c1));
  lo_fresh : same_rules (config c0) (config c1);
  lo_clock : Forall (on_time now) (tail bs);
}.

Lemma genesis_derived : claimed_addresses (state (main c0)) = ∅ /\
  forall k u, utxo_set (state (main c0)) !! k = Some u -> utxo_height u = 0.
Proof.
  destruct ST as [S1 S2 S3 S4 S5 S6].
  assert (txid genesis_coinbase <> txid (legacy_distribution legacy)) as Hne by by intros Ex%S2.
  by destruct (genesis_starts legacy g c0 S1 Hne S5 S6) as (_ & _ & _ & ?).
Qed.

Lemma load_at_genesis : Store.make_chain g regtest fast_stake = Ok c1 -> at_genesis g c1.
Proof.
  intros Hmk. destruct ST as [S1 S2 S3 S4 S5 S6].
  assert (txid genesis_coinbase <> txid (legacy_distribution legacy)) as Hne by by intros Ex%S2.
  apply (genesis_starts legacy g c1 S1 Hne S5). by eapply make_chain_starts.
Qed.

(** A part of the active branch from its start is a history. *)
Lemma branch_history c bs n l : sound_chain legacy U g c0 c bs -> config c = config c0 ->
  replay (config c0) [g] (state (main c0)) (tail (take (S n) bs)) = Some l ->
  apart (take (S n) bs) /\ exists js, history U g (state (main c0)) (config c0) (take (S n) bs) l js.
Proof.
  intros Hok Hcf Hr. destruct (genesis_facts legacy U g c0 ST) as (F1 & F2 & F3 & F4). pose proof (se_ids _ _ _ _ ST) as HU.
  assert (Hne : take (S n) bs <> []).
  { destruct (sound_branch legacy U g c0 ST c bs Hok) as (rest & -> & _). done. }
  pose proof (sound_apart legacy U g c0 ST c bs Hok) as Hap. split.
  - rewrite <- (take_drop (S n) bs) in Hap. by eapply apart_prefix.
  - destruct Hok as [_ [_ _ _ _ [pre Hh] _ _] _]. rewrite Hcf, <- (take_drop (S n) bs) in Hh.
    destruct (history_prefix U HU g _ F3 F2 F4 _ _ _ _ _ Hh Hne) as (l' & js & Hh').
    rewrite (history_replay U HU g _ F3 F2 F4 _ _ _ _ Hh') in Hr. injection Hr as ->. by exists js.
Qed.

(** C11: a damaged store heals. A store holds a part of the active branch from its start and
    records a greater height, and the block above that part is missing, unreadable or refused by
    every chain with that part. The tables of outputs and claims may hold anything, and so may
    the heights above, except that none of them names a block of the part that is kept. Then, when the load
    runs under the rules the chain was built with (with the options of the load, and without
    them in the chain each repair starts from) and the kept blocks are not ahead of the clock, it
    succeeds with the chain of that part: its ledger, its branch, a table of outputs that agrees
    with it and, unless only the genesis block is left, a store that mirrors it again. *)
Theorem corrupted_tail_healed c :
  reaches U c0 c ->
  exists bs, height_index (main c) = map block_hash bs /\
    (forall x y, x ∈ bs -> get_block c (block_hash x) = Some y -> x = y) /\
    forall n l top s,
      replay (config c0) [g] (state (main c0)) (tail (take (S n) bs)) = Some l ->
      load_setting (take (S n) bs) ->
      damaged U g (state (main c0)) now (config (load_start cache gov c1)) (take (S n) bs) l top s ->
      META s !! str "protocol_version" = Some STORE_PROTOCOL_VERSION ->
      exists s' c', Store.load_into_chain_with_mode g now regtest fast_stake cache gov s = (s', Ok c') /\
        state (main c') = l /\ height_index (main c') = take (S n) (height_index (main c)) /\
        holds (Store.expected_utxos c') (UTXOS s') /\
        (1 <= zlen (take (S n) bs) - 1 -> mirrors (view_of (take (S n) bs) l) s').
Proof.
  intros (bs & Hok & Hcf)%(reached_sound legacy U g c0 ST). exists bs. split; [apply (co_main _ _ _ _ _ Hok)|].
  split; [intros x y; by apply (branch_bodies legacy U g c0)|]. intros n l top s Hr [L1 L2 L3 L4 L5] Hd Hp.
  destruct (genesis_facts legacy U g c0 ST) as (F1 & F2 & F3 & F4). pose proof (se_ids _ _ _ _ ST) as HU.
  destruct genesis_derived as [F5 F6]. destruct (branch_history c bs n l Hok Hcf Hr) as [Hap [js Hh]].
  destruct (load_damaged U HU g _ F3 F2 F4 F5 F6 now regtest fast_stake cache gov _ _ l js top s c1 Hd Hh Hap L5 L1
    (load_at_genesis L1) L2 L3 L4) as (s' & c' & E & [[_ [P1 _ _ _ _ _ _] _] P2 _ _] & Hb & Hx).
  exists s', c'. split_and!; [done|done| |done|].
  - rewrite P1, (mo_index _ _ _ _ _ _ _ (co_main _ _ _ _ _ Hok)). symmetry. apply firstn_map.
  - intros Hlen. eapply rebuilt_mirrors; [exact Hb|lia|done].
Qed.

(** C40: healing back to the genesis block leaves a wrong height. When the first block above
    the genesis block is lost, the load succeeds with a chain of height 0 while the recorded
    height of the store stays at that of the lost branch. *)
Theorem heal_to_genesis_keeps_height top s :
  load_setting [g] ->
  damaged U g (state (main c0)) now (config (load_start cache gov c1)) [g] (state (main c0)) top s ->
  exists s' c', Store.load_into_chain_with_mode g now regtest fast_stake cache gov s = (s', Ok c') /\
    best_height c' = 0 /\ Store.best_height s' = Ok top /\ 0 < top.
Proof.
  intros [L1 L2 L3 L4 L5] Hd. destruct (genesis_facts legacy U g c0 ST) as (F1 & F2 & F3 & F4).
  pose proof (se_ids _ _ _ _ ST) as HU. destruct genesis_derived as [F5 F6].
  destruct (load_damaged U HU g _ F3 F2 F4 F5 F6 now regtest fast_stake cache gov _ _ _ _ top s c1 Hd
    (history_genesis U g _ (config c0) (new_journal (state (main c0)) [] 0)) ltac:(split; [apply NoDup_singleton|done]) L5 L1
    (load_at_genesis L1) L2 L3 L4) as (s' & c' & E & Hl & Hb & _).
  exists s', c'. pose proof (rb_meta _ _ _ _ _ Hb) as Em. cbn in Em. split; [done|]. split_and!.
  - destruct (ld_ok _ _ _ _ _ _ _ Hl) as [O1 O2 _]. by rewrite (best_height_eq U HU g _ F3 F2 F4 _ _ _ _ c' O1 O2 eq_refl).
  - unfold Store.best_height. rewrite Em. apply Hd.
  - pose proof (da_above _ _ _ _ _ _ _ _ _ Hd) as Ha. change (zlen [g]) with 1 in Ha. lia.
Qed.

(** a block of the active branch that the index lists again above the tip, which the replay
    passes over as known, is not healed: the load fails, and it leaves the store as it is, so
    that every later load fails in the same way. *)
Theorem repeated_block_stops_load c :
  reaches U c0 c ->
  exists bs, height_index (main c) = map block_hash bs /\
    (forall x y, x ∈ bs -> get_block c (block_hash x) = Some y -> x = y) /\
    forall s b, load_setting bs -> mirrors (view_of bs (state (main c))) s -> b ∈ bs -> zlen bs <= u32_max ->
      let s1 := with_heights (<[zlen bs := Store.hash_hex b]>)
                  (with_meta (Store.set_best (zlen bs) (Store.hash_hex b)) s) in
      Store.load_into_chain_with_mode g now regtest fast_stake cache gov s1 =
        (s1, Err (Corrupted "height index changed during UTXO repair")).
Proof.
  intros (bs & Hok & Hcf)%(reached_sound legacy U g c0 ST). exists bs. split; [apply (co_main _ _ _ _ _ Hok)|].
  split; [intros x y; by apply (branch_bodies legacy U g c0)|]. intros s b [L1 L2 L3 L4 L5] [[T1 T2 T3 T4] M2 M3 M4] Hb Hmax s1.
  destruct (genesis_facts legacy U g c0 ST) as (F1 & F2 & F3 & F4). pose proof (se_ids _ _ _ _ ST) as HU.
  pose proof (sound_apart legacy U g c0 ST c bs Hok) as Hap. pose proof Hok as [_ [_ _ _ _ [pre Hh] _ _] _]. rewrite Hcf in Hh.
  cbn [view_of v_blocks] in T1, T2.
  assert (Hnew : HEIGHT_INDEX s !! zlen bs = None).
  { rewrite T1. unfold vec_at, zlen. by rewrite (proj2 (Z.leb_le _ _)), Nat2Z.id, lookup_ge_None_2 by lia. }
  assert (Hs1 : HEIGHT_INDEX s1 = <[zlen bs := Store.hash_hex b]> (HEIGHT_INDEX s)) by done.
  assert (Hb1 : BLOCKS s1 = BLOCKS s) by done. assert (Hm1 : META s1 = Store.set_best (zlen bs) (Store.hash_hex b) (META s)) by done.
  clearbody s1. eapply (load_repeated U HU g _ F3 F2 F4 now regtest fast_stake cache gov (config c0) bs _ _ s1 c1 b);
    [| |exact Hb| | | |exact Hh|exact Hap|exact L5|exact L1|by apply load_at_genesis|exact L2|exact L3].
  - intros h Hlt. rewrite Hs1, lookup_insert_ne by lia. apply T1.
  - rewrite Hb1. exact T2.
  - rewrite Hs1. apply lookup_insert_eq.
  - unfold Store.best_height. rewrite Hm1. rewrite (proj1 (set_best_lookup _ _ _)), parse_dec; [done|].
    destruct Hap as [_ Hlen]. lia.
  - rewrite Hs1, map_size_insert_None by done. pose proof (index_size bs s T1). lia.
Qed.

(** the store catches up. Rebuilding a store from the blocks of the active branch, whatever
    it held above the genesis block, gives a store that mirrors the chain; and so does
    reconciling a store that mirrors a shorter part of the branch with the blocks it lacks. *)
Theorem store_catches_up c :
  reaches U c0 c ->
  exists bs, height_index (main c) = map block_hash bs /\
    (forall x y, x ∈ bs -> get_block c (block_hash x) = Some y -> x = y) /\
    (load_setting bs ->
     (forall s, has_genesis g s -> META s !! str "protocol_version" = Some STORE_PROTOCOL_VERSION -> 2 <= zlen bs ->
        exists s', Store.rebuild_from_blocks_with_mode g now bs regtest fast_stake s = (s', Ok tt) /\
          mirrors (view_of bs (state (main c))) s') /\
     (forall n l s, (S n < length bs)%nat ->
        replay (config c0) [g] (state (main c0)) (tail (take (S n) bs)) = Some l ->
        mirrors (view_of (take (S n) bs) l) s ->
        exists s', Store.reconcile_tail g now regtest fast_stake cache (Z.of_nat (S n)) (drop (S n) bs) s = (s', Ok tt) /\
          mirrors (view_of bs (state (main c))) s')).
Proof.
  intros (bs & Hok & Hcf)%(reached_sound legacy U g c0 ST). exists bs. split; [apply (co_main _ _ _ _ _ Hok)|].
  split; [intros x y; by apply (branch_bodies legacy U g c0)|]. intros [L1 L2 L3 L4 L5].
  destruct (genesis_facts legacy U g c0 ST) as (F1 & F2 & F3 & F4). pose proof (se_ids _ _ _ _ ST) as HU.
  destruct genesis_derived as [F5 F6]. pose proof (sound_apart legacy U g c0 ST c bs Hok) as Hap.
  pose proof Hok as [_ [_ _ _ _ [pre Hh] _ _] _]. rewrite Hcf in Hh. split.
  - intros s Hg Hp Hlen. destruct (sound_branch legacy U g c0 ST c bs Hok) as (rest & -> & _).
    destruct (rebuild_ok U HU g _ F3 F2 F4 F5 F6 now regtest fast_stake _ rest _ _ s c1 Hg Hh Hap L5 L1 (load_at_genesis L1) L2 L4)
      as (s' & E & T & Em). exists s'. split; [done|]. destruct rest as [|b rest]; [done|].
    destruct (tip_exists (g :: b :: rest)) as [b0 Ht]; [done|]. unfold best_meta in Em. rewrite Ht in Em.
    destruct (set_best_lookup (zlen (g :: b :: rest) - 1) (Store.hash_hex b0) (META s)) as (B1 & B2 & B3).
    split; [done|..]; cbn [view_of v_blocks]; rewrite Em; [done|by rewrite B2, Ht|by rewrite B3].
  - intros n l s Hn Hr M. destruct (branch_history c bs n l Hok Hcf Hr) as [_ [js Hh1]].
    assert (zlen (take (S n) bs) = Z.of_nat (S n)) as Hz by (unfold zlen; rewrite length_take; lia).
    rewrite <- Hz. rewrite <- (take_drop (S n) bs) in Hh, Hap.
    destruct (reconcile_ok U HU g _ F3 F2 F4 now regtest fast_stake cache (config c0) (take (S n) bs) l js (drop (S n) bs)
      (state (main c)) (pre ++ journals (main c)) s c1 M Hh1 Hh Hap) as (s' & E & M').
    + destruct Hap as [_ Hl]. rewrite zlen_app in Hl. unfold zlen in *. rewrite length_drop in Hl. lia.
    + destruct bs as [|x bs]; [done|]. cbn [take tail drop] in *. by rewrite take_drop.
    + exact L1.
    + by apply load_at_genesis.
    + exact L2.
    + by destruct L4 as (A1 & A2 & A3).
    + rewrite take_drop in M'. by exists s'.
Qed.
End node.
