(* ===== verification/StoreWitness.v ===== *)
(** * Witnesses for the store

    A concrete codec in the place of JSON and hexadecimal decoding, and the theorems about
    the store applied to a chain with a reorganization, to a store with a damaged tail and
    to the cases in which the self-heal falls short. *)

From stdpp Require Import base list gmap sorting strings.
From Stdlib Require Import ZArith Lia.
From S2P Require Import Prelude Script Crypto Engine Standard Merkle Codec Block Address Consensus.
From S2P Require Import Deployments Governance Ledger Supply History Chain Mirror Replay Progress Genesis Acceptance Events Store Restart Heal.
Import Scripts.

(** ** A codec *)

Record codec (A : Type) : Type := mkCodec {
  put : A -> bytes -> bytes;
  get : bytes -> option (A * bytes);
  get_put : forall a r, get (put a r) = Some (a, r);
}.
Arguments mkCodec {_}. Arguments put {_}. Arguments get {_}. Arguments get_put {_}.

Definition c_int : codec Z :=
  mkCodec cons (fun l => match l with z :: r => Some (z, r) | [] => None end) (fun _ _ => eq_refl).

Definition c_pair {A B} (ca : codec A) (cb : codec B) : codec (A * B).
Proof.
  refine (mkCodec (fun '(a, b) r => put ca a (put cb b r))
    (fun l => match get ca l with
              | Some (a, l) => match get cb l with Some (b, r) => Some ((a, b), r) | None => None end
              | None => None
              end) _).
  intros [a b] r. by rewrite get_put, get_put.
Defined.

Definition c_iso {A B} (c : codec A) (f : B -> A) (f' : A -> option B) (Hf : forall b, f' (f b) = Some b) : codec B.
Proof.
  refine (mkCodec (fun b => put c (f b))
    (fun l => match get c l with
              | Some (a, r) => match f' a with Some b => Some (b, r) | None => None end
              | None => None
              end) _).
  intros b r. by rewrite get_put, Hf.
Defined.

Fixpoint get_n {A} (c : codec A) (n : nat) (l : bytes) : option (list A * bytes) :=
  match n with
  | O => Some ([], l)
  | S n =>
      match get c l with
      | Some (a, l) => match get_n c n l with Some (x, r) => Some (a :: x, r) | None => None end
      | None => None
      end
  end.

Definition c_list {A} (c : codec A) : codec (list A).
Proof.
  refine (mkCodec (fun x r => zlen x :: foldr (put c) r x)
    (fun l => match l with z :: l => get_n c (Z.to_nat z) l | [] => None end) _).
  intros x r. unfold zlen. rewrite Nat2Z.id. induction x as [|a x IH]; [done|]. cbn [length foldr get_n].
  by rewrite get_put, IH.
Defined.

Definition c_bytes : codec bytes := c_list c_int.
Definition c_option {A} (c : codec A) : codec (option A).
Proof.
  refine (c_iso (c_list c) option_list (fun l => match l with [] => Some None | [a] => Some (Some a) | _ => None end) _).
  by intros [].
Defined.

Definition c_type : codec TxType.
Proof.
  refine (c_iso c_int TxType_code (fun z =>
    List.find (fun t => TxType_code t =? z) [Standard; Coinbase; Coinstake; LegacyClaim; AtomicSwap; TorrentIncentive]) _).
  by intros [].
Defined.

Definition c_input : codec TxInput.
Proof.
  refine (c_iso (c_pair c_bytes (c_pair c_int (c_pair c_bytes c_int)))
    (fun i => (prev_txid i, (prev_vout i, (script_sig i, sequence i))))
    (fun '(a, (b, (c, d))) => Some (mkTxInput a b c d)) _).
  by intros [].
Defined.
Definition c_output : codec TxOutput.
Proof.
  refine (c_iso (c_pair c_int c_bytes) (fun o => (value o, script_pubkey o)) (fun '(a, b) => Some (mkTxOutput a b)) _).
  by intros [].
Defined.
Definition c_tx : codec Transaction.
Proof.
  refine (c_iso (c_pair (c_pair c_int c_type) (c_pair (c_pair (c_list c_input) (c_list c_output))
      (c_pair c_int (c_pair (c_option c_bytes) (c_option c_bytes)))))
    (fun t => ((tx_version t, tx_type t), ((inputs t, outputs t), (lock_time t, (claim_address t, claim_signature t)))))
    (fun '((a, b), ((c, d), (e, (f, h)))) => Some (mkTx a b c d e f h)) _).
  by intros [].
Defined.
Definition c_block : codec Block.
Proof.
  refine (c_iso (c_pair (c_pair (c_pair c_int c_bytes) (c_pair c_bytes c_bytes))
      (c_pair (c_pair (c_pair c_int c_int) (c_pair c_int c_int)) (c_list c_tx)))
    (fun b => (((version (header b), prev_block_hash (header b)), (merkle_root (header b), utxo_root (header b))),
               (((timestamp (header b), bits (header b)), (nonce (header b), stake_modifier (header b))), transactions b)))
    (fun '(((a, b), (c, d)), (((e, f), (h, i)), l)) => Some (mkBlock (mkHeader a b c d e f h i) l)) _).
  by intros [[] ?].
Defined.
Definition c_utxo : codec Utxo.
Proof.
  refine (c_iso (c_pair (c_pair c_bytes c_int) (c_pair (c_pair c_int c_bytes) (c_pair c_int c_int)))
    (fun u => ((utxo_txid u, utxo_vout u), ((utxo_value u, utxo_script u), (utxo_height u, utxo_timestamp u))))
    (fun '((a, b), ((c, d), (e, f))) => Some (mkUtxo a b c d e f)) _).
  by intros [].
Defined.

Definition json_of {A} (c : codec A) : Json A :=
  {| to_vec a := Some (put c a []); from_slice v := match get c v with Some (a, []) => Some a | _ => None end |}.
Lemma json_of_laws {A} (c : codec A) : JsonLaws A (json_of c).
Proof. intros a. exists (put c a []). split; [done|]. cbn. by rewrite get_put. Qed.

#[export] Instance json_block : Json Block := json_of c_block.
#[export] Instance json_block_laws : JsonLaws Block json_block := json_of_laws c_block.
#[export] Instance json_utxo : Json Utxo := json_of c_utxo.
#[export] Instance json_utxo_laws : JsonLaws Utxo json_utxo := json_of_laws c_utxo.

(** Digits of either case are read, as hexadecimal decoders do. *)
Definition hex_value (c : Z) : option Z :=
  if (48 <=? c) && (c <=? 57) then Some (c - 48)
  else if (97 <=? c) && (c <=? 102) then Some (c - 87)
  else if (65 <=? c) && (c <=? 70) then Some (c - 55)
  else None.

Fixpoint hex_values (l : bytes) : option bytes :=
  match l with
  | [] => Some []
  | [_] => None
  | a :: b :: l =>
      match hex_value a, hex_value b, hex_values l with
      | Some x, Some y, Some r => Some (16 * x + y :: r)
      | _, _, _ => None
      end
  end.
#[export] Instance hex_lower_decode : HexDecode := hex_values.

Lemma hex_value_digit d : 0 <= d < 16 -> hex_value (hex_digit d) = Some d.
Proof.
  intros Hd. unfold hex_digit. destruct (Z.ltb_spec d 10); unfold hex_value.
  - rewrite (proj2 (Z.leb_le 48 _)), (proj2 (Z.leb_le _ 57)) by lia. f_equal. lia.
  - rewrite (proj2 (Z.leb_gt _ 57)), andb_false_r by lia.
    rewrite (proj2 (Z.leb_le 97 _)), (proj2 (Z.leb_le _ 102)) by lia. f_equal. lia.
Qed.

#[export] Instance hex_lower_decode_laws : HexDecodeLaws hex_lower hex_lower_decode.
Proof.
  intros a Ha. induction a as [|x a IH]; [done|]. apply Forall_cons in Ha as [Hx Ha].
  unfold hex_encode, hex_decode, hex_lower, hex_lower_decode in *. cbn [map concat app hex_values].
  assert (0 <= x / 16 < 16) by (unfold is_byte in Hx; split; [apply Z.div_pos; lia|apply Z.div_lt_upper_bound; lia]).
  rewrite !hex_value_digit, IH by (done || (apply Z.mod_pos_bound; lia)). do 2 f_equal.
  rewrite (Z.div_mod x 16) at 3 by lia. done.
Qed.

(** A store that has lost the body of a block. *)
Lemma missing_damaged {C : Crypto} {CL : CryptoLaws C} {B : Bincode} {H : Hex} {HL : HexLaws H} {N : Snapshot} {K : KeyOrder}
    {D : HexDecode} {JB : Json Block} {JU : Json Utxo} U g l0 now f bs b rest l0' l s :
  mirrors (view_of (bs ++ b :: rest) l0') s -> apart (bs ++ b :: rest) ->
  damaged U g l0 now f bs l (zlen (bs ++ b :: rest) - 1) (with_blocks (delete (Store.hash_hex b)) s).
Proof.
  intros M Hap. pose proof (stored_best _ _ M Hap) as Hbest. destruct M as [[T1 T2 _ _] _ _ _]. destruct Hap as [Hnd _].
  cbn [view_of v_blocks] in *. rewrite map_app in Hnd. apply NoDup_app in Hnd as (_ & Hnd & _).
  assert (Hfar : forall x y, x ∈ bs -> y ∈ b :: rest -> Store.hash_hex y <> Store.hash_hex x).
  { intros x y Hx Hy E%hash_hex_inj. apply (Hnd (block_hash x)); apply list_elem_of_fmap; [by exists x|by exists y]. }
  split.
  - exact Hbest.
  - rewrite zlen_app. pose proof (zlen_nonneg rest). unfold zlen in *. simpl. lia.
  - intros h Hh. cbn. rewrite T1. f_equal. unfold vec_at, zlen in *. destruct (Z.leb_spec 0 h); [|done]. apply lookup_app_l. lia.
  - intros x Hx. cbn. rewrite lookup_delete_ne by (apply Hfar; [done|left]). apply T2. apply elem_of_app. by left.
  - intros h x Hh Hx. cbn. rewrite T1. unfold vec_at, zlen in *. destruct (Z.leb_spec 0 h); [|done].
    rewrite lookup_app_r by lia. destruct ((b :: rest) !! _) as [y|] eqn:Ey; [|done]. cbn. intros [= E].
    by apply (Hfar x y Hx); [eapply list_elem_of_lookup_2|].
  - intros x. unfold Store.get_block_at_height. cbn. rewrite T1. unfold vec_at, zlen.
    rewrite (proj2 (Z.leb_le _ _)), Nat2Z.id, lookup_app_r, Nat.sub_diag by lia. cbn. unfold Store.stored_block. cbn.
    by rewrite lookup_delete_eq.
Qed.

(** ** A node with a reorganization, and its store *)

Module StoreWitness.
#[local] Existing Instance bincode_layout.
#[local] Existing Instance bincode_layout_laws.
#[local] Existing Instance any_order.
#[local] Existing Instance any_order_laws.

Import GenesisWitness AcceptanceWitness.
#[local] Existing Instance order0.
#[local] Existing Instance snap0.

Definition s0 : BlockStore := (Store.open_with_cache g0 empty_store).1.
Definition written (b : Block) (c : Chain) (s : BlockStore) : BlockStore :=
  match (add_block now0 b c).2 with Ok a => (Store.persist_events (block_events b a) s).1 | _ => s end.
Definition s1 : BlockStore := written a1 c0 s0.
Definition s2 : BlockStore := written b1 c1 s1.
Definition s3 : BlockStore := written b2 c2 s2.

Lemma opened0 : Store.open_with_cache g0 empty_store = (s0, Ok tt).
Proof.
  assert (is_ok (Store.open_with_cache g0 empty_store).2 = true) as Hok by by vm_compute.
  unfold s0. revert Hok. generalize (Store.open_with_cache g0 empty_store). by intros [? [[]| |]].
Qed.

Lemma operates_step b c s :
  operates legacy0 U0 c0 s0 c s -> b ∈ [a1; b1; b2] -> is_ok (add_block now0 b c).2 = true ->
  operates legacy0 U0 c0 s0 (add_block now0 b c).1 (written b c s).
Proof.
  intros Hc [Hty Hu]%typed0 Hok. unfold written. destruct (add_block now0 b c) as [c' [a| |]] eqn:E; [|done..]. cbn [fst snd].
  eapply operates_block; [exact Hc|exact Hty|exact Hu|exact E|apply surjective_pairing].
Qed.

Lemma operated3 : operates legacy0 U0 c0 s0 c3 s3.
Proof.
  destruct steps0 as (S1 & S2 & S3). apply operates_step; [|right; right; left|exact S3].
  apply operates_step; [|right; left|exact S2]. apply operates_step; [apply operates_start|left|exact S1].
Qed.

Lemma store_mirrors_chain_witness :
  exists bs, height_index (main c3) = map block_hash bs /\ mirrors (view_of bs (state (main c3))) s3.
Proof. exact (store_mirrors_chain legacy0 U0 g0 c0 s0 setting0 opened0 c3 s3 operated3). Defined.

Lemma regtest0 : new_regtest g0 = Ok c0.
Proof.
  assert (is_ok (new_regtest g0) = true) as Hok by by vm_compute.
  unfold c0. revert Hok. generalize (new_regtest g0). intros []; [reflexivity|discriminate..].
Qed.

Lemma make0 : Store.make_chain g0 true false = Ok c0.
Proof. unfold Store.make_chain. rewrite regtest0. reflexivity. Qed.

Lemma rules0 : same_rules (config c0) (config (load_start 256 None c0)).
Proof. by vm_compute. Qed.

(** The times of the blocks on the active branch. *)
Lemma clock3 h hd : get_header_at_height c3 h = Some hd -> timestamp hd <= sat_add u32_max now0 7200.
Proof.
  assert (forallb (fun x => match headers (known c3) !! x with
                            | Some hd => timestamp hd <=? sat_add u32_max now0 7200 | None => true end)
            (height_index (main c3)) = true) as Hall by by vm_compute.
  rewrite forallb_forall in Hall. unfold get_header_at_height, vec_at. destruct (0 <=? h); [|done].
  intros (x & Hx & Hd)%bind_Some. specialize (Hall x (proj1 (list_elem_of_In _ _) (list_elem_of_lookup_2 _ _ _ Hx))).
  rewrite Hd in Hall. by apply Z.leb_le.
Qed.

Lemma restart_restores_chain_witness :
  exists s' c', Store.load_into_chain_with_mode g0 now0 true false 256 None s3 = (s', Ok c') /\
    state (main c') = state (main c3) /\ height_index (main c') = height_index (main c3).
Proof.
  destruct (restart_restores_chain legacy0 U0 g0 c0 s0 setting0 opened0 c3 s3 now0 true false 256 None c0 operated3
    make0 eq_refl rules0 clock3) as (s' & c' & E & H1 & H2 & _). exists s', c'. split; [exact E|]. split; [exact H1|exact H2].
Defined.

Lemma bodies3 : get_block c3 (block_hash g0) = Some g0 /\ get_block c3 (block_hash b1) = Some b1 /\
  get_block c3 (block_hash b2) = Some b2.
Proof. by vm_compute. Qed.

Lemma map_three {A B} (f : A -> B) l a b c : [a; b; c] = map f l ->
  exists x y z, l = [x; y; z] /\ f x = a /\ f y = b /\ f z = c.
Proof. destruct l as [|x [|y [|z [|]]]]; try done. intros [= -> -> ->]. by exists x, y, z. Qed.

(** The active branch of [c3], by its hashes and bodies. *)
Lemma branch3 bs :
  height_index (main c3) = map block_hash bs ->
  (forall x y, x ∈ bs -> get_block c3 (block_hash x) = Some y -> x = y) -> bs = [g0; b1; b2].
Proof.
  intros Hi Hb. assert (height_index (main c3) = [block_hash g0; block_hash b1; block_hash b2]) as E by by vm_compute.
  rewrite E in Hi. apply map_three in Hi as (x & y & z & -> & Hx & Hy & Hz). destruct bodies3 as (B1 & B2 & B3).
  rewrite <- Hx in B1. rewrite <- Hy in B2. rewrite <- Hz in B3.
  rewrite <- (Hb x g0 ltac:(left) B1), <- (Hb y b1 ltac:(right; left) B2), <- (Hb z b2 ltac:(right; right; left) B3).
  reflexivity.
Qed.

Lemma mirrored3 : apart [g0; b1; b2] /\ mirrors (view_of [g0; b1; b2] (state (main c3))) s3.
Proof.
  destruct (operates_sound legacy0 U0 g0 c0 s0 setting0 opened0 c3 s3 operated3) as (bs & Hok & _ & M).
  pose proof (sound_apart legacy0 U0 g0 c0 setting0 c3 bs Hok) as Hap.
  assert (bs = [g0; b1; b2]) as ->; [|by split].
  apply branch3; [apply (co_main _ _ _ _ _ Hok)|]. intros x y. by apply (branch_bodies legacy0 U0 g0 c0).
Qed.

Lemma times3 n : Forall (on_time now0) (tail (take (S n) [g0; b1; b2])).
Proof.
  assert (Forall (on_time now0) [b1; b2]) as Ht.
  { constructor; [apply Z.leb_le; by vm_compute|]. constructor; [apply Z.leb_le; by vm_compute|constructor]. }
  cbn [take tail]. apply Forall_take, Ht.
Qed.

Lemma loading3 n : load_setting legacy0 g0 c0 now0 true false 256 None c0 (take (S n) [g0; b1; b2]).
Proof. split; [exact make0|reflexivity|exact rules0|by vm_compute|apply times3]. Qed.

Definition l2 : Ledger := match replay (config c0) [g0] (state (main c0)) [b1] with Some l => l | None => state (main c0) end.
Lemma replay2 : replay (config c0) [g0] (state (main c0)) [b1] = Some l2.
Proof.
  assert (bool_decide (is_Some (replay (config c0) [g0] (state (main c0)) [b1])) = true) as Hs by by vm_compute.
  apply bool_decide_eq_true in Hs as [l Hl]. unfold l2. by rewrite Hl.
Qed.

(** The body of the last block is lost. *)
Lemma corrupted_tail_healed_witness :
  exists s' c', Store.load_into_chain_with_mode g0 now0 true false 256 None (with_blocks (delete (Store.hash_hex b2)) s3) = (s', Ok c') /\
    state (main c') = l2 /\ mirrors (view_of [g0; b1] l2) s'.
Proof.
  destruct (corrupted_tail_healed legacy0 U0 g0 c0 setting0 now0 true false 256 None c0 c3 reached3) as (bs & Hi & Hb & Hheal).
  apply branch3 in Hi; [|exact Hb]. subst bs. destruct mirrored3 as [Hap M].
  pose proof (missing_damaged U0 g0 (state (main c0)) now0 (config (load_start 256 None c0)) [g0; b1] b2 [] _ l2 s3 M Hap) as Hd.
  specialize (Hheal 1%nat l2 2 (with_blocks (delete (Store.hash_hex b2)) s3)). cbn [take tail] in Hheal.
  specialize (Hheal replay2). specialize (Hheal (loading3 1)). specialize (Hheal Hd).
  assert (forall s, META (with_blocks (delete (Store.hash_hex b2)) s) = META s) as Hm by (intros s; reflexivity).
  rewrite Hm in Hheal. destruct (Hheal (mr_protocol _ _ M)) as (s' & c' & E & H1 & _ & _ & H4).
  exists s', c'. split; [exact E|]. split; [exact H1|]. apply H4. by vm_compute.
Defined.

(** The body of the first block is lost. *)
Lemma heal_to_genesis_keeps_height_witness :
  exists s' c', Store.load_into_chain_with_mode g0 now0 true false 256 None (with_blocks (delete (Store.hash_hex b1)) s3) = (s', Ok c') /\
    best_height c' = 0 /\ Store.best_height s' = Ok 2.
Proof.
  destruct mirrored3 as [Hap M].
  pose proof (missing_damaged U0 g0 (state (main c0)) now0 (config (load_start 256 None c0)) [g0] b1 [b2] _ (state (main c0)) s3 M Hap) as Hd.
  destruct (heal_to_genesis_keeps_height legacy0 U0 g0 c0 setting0 now0 true false 256 None c0 _ _ (loading3 0) Hd)
    as (s' & c' & E & H1 & H2 & _). exists s', c'. split; [exact E|]. split; [exact H1|exact H2].
Defined.

(** The first block once more above the tip. *)
Lemma repeated_block_stops_load_witness :
  let s := with_heights (<[3 := Store.hash_hex b1]>) (with_meta (Store.set_best 3 (Store.hash_hex b1)) s3) in
  Store.load_into_chain_with_mode g0 now0 true false 256 None s =
    (s, Err (Corrupted "height index changed during UTXO repair")).
Proof.
  destruct (repeated_block_stops_load legacy0 U0 g0 c0 setting0 now0 true false 256 None c0 c3 reached3) as (bs & Hi & Hb & Hstop).
  apply branch3 in Hi; [|exact Hb]. subst bs. destruct mirrored3 as [_ M].
  apply (Hstop s3 b1 (loading3 2) M); [right; left|by vm_compute].
Defined.

Lemma mirrored0 : mirrors (view_of [g0] (state (main c0))) s0.
Proof.
  destruct (operates_sound legacy0 U0 g0 c0 s0 setting0 opened0 c0 s0 (operates_start _ _ _ _)) as (bs & Hok & _ & M).
  assert (bs = [g0]) as ->; [|exact M].
  destruct (sound_branch legacy0 U0 g0 c0 setting0 c0 bs Hok) as (rest & -> & _).
  assert (length (height_index (main c0)) = 1%nat) as Hl by by vm_compute.
  rewrite (mo_index _ _ _ _ _ _ _ (co_main _ _ _ _ _ Hok)), length_map in Hl. cbn [length] in Hl. injection Hl as Hl.
  by apply nil_length_inv in Hl as ->.
Qed.

(** The new store is rebuilt from all blocks, and receives the two that it lacks. *)
Lemma store_catches_up_witness :
  (exists s', Store.rebuild_from_blocks_with_mode g0 now0 [g0; b1; b2] true false s0 = (s', Ok tt) /\
     mirrors (view_of [g0; b1; b2] (state (main c3))) s') /\
  (exists s', Store.reconcile_tail g0 now0 true false 256 1 [b1; b2] s0 = (s', Ok tt) /\
     mirrors (view_of [g0; b1; b2] (state (main c3))) s').
Proof.
  destruct (store_catches_up legacy0 U0 g0 c0 setting0 now0 true false 256 None c0 c3 reached3) as (bs & Hi & Hb & Hc).
  apply branch3 in Hi; [|exact Hb]. subst bs. destruct (Hc (loading3 2)) as [H1 H2]. pose proof mirrored0 as M. split.
  - apply H1; [|exact (mr_protocol _ _ M)|by vm_compute]. destruct M as [[T1 T2 _ _] _ _ _]. cbn [view_of v_blocks] in T1, T2. split.
    + exact (T1 0).
    + intros h Hh. rewrite T1. unfold vec_at. by rewrite (proj2 (Z.leb_gt _ _)).
    + apply T2. left.
    + intros h Hh. rewrite T1. unfold vec_at. rewrite (proj2 (Z.leb_le _ _)) by lia.
      rewrite lookup_ge_None_2; [discriminate|]. cbn [length]. lia.
  - apply (H2 0%nat (state (main c0)) s0); [apply Nat.ltb_lt; by vm_compute|reflexivity|exact M].
Defined.

End StoreWitness.
