(* ===== verification/Node.v ===== *)
(** * The node's message handlers

    Models [vtorrent-node/src/node/handler.rs] with the parts of [node/mod.rs],
    [node/chain.rs], [node/p2p.rs] and [node/proof_retry.rs] it works with: how a
    node takes blocks and transactions from its peers, keeps blocks whose parent is unknown,
    answers requests, and reports to the rest of the program.  A handler is a state
    transformer on [Node]; what it sends is in the queues of the peers, what it emits in
    [events].  The payload encodings and the clocks are parameters.  The commands for peer
    addresses, stake proofs and swap orders are not modelled. *)

From stdpp Require Import base list gmap sorting strings.
From Stdlib Require Import ZArith Lia.
From S2P Require Import Prelude Script Crypto Engine Standard Merkle Codec Block Address Consensus.
From S2P Require Import Deployments Governance Ledger Chain Mempool Wire Compact Peers Proofs Events.

(** ** Data *)

Definition MAX_GETDATA_ITEMS : Z := 500.
Definition MAX_INV_ITEMS : Z := 1000.
Definition MAX_LOCATOR_HASHES : Z := 64.
Definition HEADERS_PER_BATCH : Z := 2000.
Definition MAX_ORPHAN_BLOCKS : Z := 64.
Definition MAX_ORPHAN_BYTES : Z := 16 * 1024 * 1024.
Definition MAX_PENDING_COMPACT : Z := 16.
Definition MAX_BLOCKTXN_INDEXES : nat := 500.
Definition MAX_BLOCKTXN_BYTES : Z := 4 * 1024 * 1024.
Definition GETDATA_BYTE_BUDGET : Z := 64 * 1024 * 1024.
Definition GETDATA_BUDGET_WINDOW : Z := secs 3600.
Definition MAX_MSGS_PER_WINDOW : Z := 500.
Definition MAX_DATA_MSGS_PER_WINDOW : Z := 5000.
Definition MSG_WINDOW_SECS : Z := 10.

Record OrphanBlock : Type := mkOrphan {
  ob_block : Block;
  ob_peer_addr : SocketAddr;
  ob_peer_version : Z;
  ob_size_bytes : Z;
}.

Record CompactBlockPeerState : Type := mkCompactPeer { cp_enabled : bool; cp_high_bandwidth : bool; cp_version : Z }.
Definition compact_peer_default : CompactBlockPeerState := mkCompactPeer false false 1.

(** The orphan pool. *)
Record Orphans : Type := mkOrphans { orphan_blocks : gmap bytes OrphanBlock; orphan_order : list bytes; orphan_bytes : Z }.

(** What the node keeps for each peer. *)
Record PeerTables : Type := mkTables {
  compact_peers : gmap SocketAddr CompactBlockPeerState;
  peer_fee_filters : gmap SocketAddr Z;
  peer_ping_nonces : gmap SocketAddr Z;
  peer_msg_counts : gmap SocketAddr (Z * Z);
  peer_data_msg_counts : gmap SocketAddr (Z * Z);
  peer_versions : gmap SocketAddr Z;
  peer_served_bytes : gmap IpAddr (Z * Z);
}.

Record Node : Type := mkNode {
  chain : Chain;
  mempool : Mempool;
  peer_manager : PeerManager;
  orphans : Orphans;
  pending_compact_blocks : gmap bytes CmpctBlockMsg;
  stake_proofs : gset bytes;
  proof_retries : ProofRetries;
  tables : PeerTables;
  events : list NodeEvent;
}.

(** The wall clock in seconds and the monotonic clock in nanoseconds. *)
Record Clock : Type := mkClock { unix : Z; instant : Z }.

Definition with_chain (f : Chain -> Chain) (n : Node) : Node :=
  mkNode (f (chain n)) (mempool n) (peer_manager n) (orphans n) (pending_compact_blocks n) (stake_proofs n)
    (proof_retries n) (tables n) (events n).
Definition with_mempool (f : Mempool -> Mempool) (n : Node) : Node :=
  mkNode (chain n) (f (mempool n)) (peer_manager n) (orphans n) (pending_compact_blocks n) (stake_proofs n)
    (proof_retries n) (tables n) (events n).
Definition with_manager (f : PeerManager -> PeerManager) (n : Node) : Node :=
  mkNode (chain n) (mempool n) (f (peer_manager n)) (orphans n) (pending_compact_blocks n) (stake_proofs n)
    (proof_retries n) (tables n) (events n).
Definition with_orphans (f : Orphans -> Orphans) (n : Node) : Node :=
  mkNode (chain n) (mempool n) (peer_manager n) (f (orphans n)) (pending_compact_blocks n) (stake_proofs n)
    (proof_retries n) (tables n) (events n).
Definition with_pending (f : gmap bytes CmpctBlockMsg -> gmap bytes CmpctBlockMsg) (n : Node) : Node :=
  mkNode (chain n) (mempool n) (peer_manager n) (orphans n) (f (pending_compact_blocks n)) (stake_proofs n)
    (proof_retries n) (tables n) (events n).
Definition with_retries (f : ProofRetries -> ProofRetries) (n : Node) : Node :=
  mkNode (chain n) (mempool n) (peer_manager n) (orphans n) (pending_compact_blocks n) (stake_proofs n)
    (f (proof_retries n)) (tables n) (events n).
Definition with_tables (f : PeerTables -> PeerTables) (n : Node) : Node :=
  mkNode (chain n) (mempool n) (peer_manager n) (orphans n) (pending_compact_blocks n) (stake_proofs n)
    (proof_retries n) (f (tables n)) (events n).

(** [Node::emit] with a subscriber. *)
Definition emit_event (e : NodeEvent) (n : Node) : Node :=
  mkNode (chain n) (mempool n) (peer_manager n) (orphans n) (pending_compact_blocks n) (stake_proofs n)
    (proof_retries n) (tables n) (events n ++ [e]).

(** ** Helpers of the handlers *)

(** [capped_range]. *)
Definition capped_range (start_height tip_height max_items : Z) : Z * Z :=
  (start_height, Z.min tip_height (sat_sub (sat_add u32_max start_height max_items) 1)).

(** [slice::chunks]. *)
Fixpoint chunks {A} (fuel : nat) (size : nat) (l : list A) : list (list A) :=
  match fuel with
  | O => []
  | S fuel => match l with [] => [] | _ => take size l :: chunks fuel size (drop size l) end
  end.
(** [chunk_getdata]. *)
Definition chunk_getdata (items : list InvItem) : list (list InvItem) :=
  chunks (length items) (Z.to_nat MAX_GETDATA_ITEMS) items.

Section orphan_pool.
Context {C : Crypto} {B : Bincode} {MO : MapOrder}.

(** The loop of [queue_orphan] that makes room for [size_bytes]. *)
Fixpoint evict_orphans (order : list bytes) (size_bytes : Z) (o : Orphans) : Orphans :=
  if (MAX_ORPHAN_BLOCKS <=? Z.of_nat (size (orphan_blocks o))) ||
     (MAX_ORPHAN_BYTES <? sat_add usize_max (orphan_bytes o) size_bytes)
  then match order with
       | [] => o
       | oldest :: order =>
           let o := match orphan_blocks o !! oldest with
                    | Some removed =>
                        mkOrphans (delete oldest (orphan_blocks o)) order (sat_sub (orphan_bytes o) (ob_size_bytes removed))
                    | None => mkOrphans (orphan_blocks o) order (orphan_bytes o)
                    end in
           evict_orphans order size_bytes o
       end
  else o.

(** [queue_orphan]. *)
Definition queue_orphan (block : Block) (peer_addr : SocketAddr) (peer_version size_bytes : Z) (o : Orphans) : Orphans * bool :=
  let hash := block_hash block in
  if bool_decide (is_Some (orphan_blocks o !! hash)) || (MAX_ORPHAN_BYTES <? size_bytes) then (o, false) else
  let o := evict_orphans (orphan_order o) size_bytes o in
  (mkOrphans (<[hash := mkOrphan block peer_addr peer_version size_bytes]> (orphan_blocks o)) (orphan_order o ++ [hash])
     (sat_add usize_max (orphan_bytes o) size_bytes), true).

(** One child of [take_orphan_children]. *)
Definition take_child (acc : Orphans * list OrphanBlock) (hash : bytes) : Orphans * list OrphanBlock :=
  let '(o, taken) := acc in
  match orphan_blocks o !! hash with
  | Some orphan =>
      (mkOrphans (delete hash (orphan_blocks o)) (orphan_order o) (sat_sub (orphan_bytes o) (ob_size_bytes orphan)),
       taken ++ [orphan])
  | None => (o, taken)
  end.

(** [take_orphan_children]. *)
Definition take_orphan_children (parent_hash : bytes) (o : Orphans) : Orphans * list OrphanBlock :=
  let child_hashes := map fst (List.filter (fun e =>
    bytes_eqb (prev_block_hash (header (ob_block e.2))) parent_hash) (map_order (orphan_blocks o))) in
  match child_hashes with
  | [] => (o, [])
  | _ => foldl take_child
           (mkOrphans (orphan_blocks o) (filter (fun hash => hash ∉ child_hashes) (orphan_order o)) (orphan_bytes o), [])
           child_hashes
  end.
End orphan_pool.

(** [reconstruct_compact_block]. *)
Definition reconstruct_compact_block (compact : CmpctBlockMsg) (transactions : list Transaction) : Block :=
  mkBlock (mkHeader (cb_version compact) (cb_prev_block_hash compact) (cb_merkle_root compact) (cb_utxo_root compact)
             (cb_timestamp compact) (cb_bits compact) (cb_nonce compact) (cb_stake_modifier compact)) transactions.

Module Handler.
Section handler.
Context {C : Crypto} {B : Bincode} {H : Hex} {N : Snapshot} {K : KeyOrder} {MO : MapOrder}.
Context {JB : Json Block} {JT : Json Transaction} {BB : BincodeOf Block} {BT : BincodeOf Transaction} {BH : BincodeOf BlockHeader}.
Context {JI : Json InvMsg} {BI : BincodeOf InvMsg} {JD : Json GetDataMsg} {BD : BincodeOf GetDataMsg}.
Context {JK : Json GetBlocksMsg} {BK : BincodeOf GetBlocksMsg} {JG : Json GetHeadersMsg} {BG : BincodeOf GetHeadersMsg}.
Context {JS : Json HeadersMsg} {BS : BincodeOf HeadersMsg} {JP : Json GetProofMsg} {BP : BincodeOf GetProofMsg}.
Context {JC : Json CmpctBlockMsg} {JQ : Json GetBlockTxnMsg} {JR : Json BlockTxnMsg}.
Context {JN : Json PingMsg} {BN : BincodeOf PingMsg} {JM : Json SendCmpctMsg} {JF : Json FeeFilterMsg}.

(** The parts of the node as state of their own. *)
Definition in_mempool {A} (m : st Mempool NodeError A) : st Node NodeError A := fun n =>
  let '(p, r) := m (mempool n) in (with_mempool (fun _ => p) n, r).
Definition in_manager {A} (m : st PeerManager P2pError A) : st Node NodeError A := fun n =>
  let '(p, r) := m (peer_manager n) in (with_manager (fun _ => p) n, no_err r).
Definition misbehaved (clk : Clock) (addr : SocketAddr) (offence : Misbehaviour) : st Node NodeError unit :=
  do* _ := in_manager (record_misbehaviour (instant clk) addr offence) in sret tt.
Definition send (addr : SocketAddr) (cmd : string) (payload : bytes) : st Node NodeError unit :=
  smod (with_manager (send_to addr (message (str cmd) payload))).

(** ** [node/chain.rs] *)

Definition deserialize_block (b : bytes) : res NodeError Block :=
  match bin_de MAX_BLOCK_SIZE b with
  | Some block => Ok block
  | None => ok_or (from_slice b) (ChainError "Block deserialization failed")
  end.
Definition deserialize_tx (b : bytes) : res NodeError Transaction :=
  match bin_de MAX_BLOCK_SIZE b with
  | Some tx => Ok tx
  | None => ok_or (from_slice b) (ChainError "TX deserialization failed")
  end.
Definition serialize_block_for_peer (block : Block) (peer_version : Z) : bytes :=
  default [] (if is_v2_peer peer_version then bin_ser block else to_vec block).
Definition serialize_tx_for_peer (tx : Transaction) (peer_version : Z) : bytes :=
  default [] (if is_v2_peer peer_version then bin_ser tx else to_vec tx).

(** ** [node/proof_retry.rs] *)

Definition recent_canonical (c : Chain) (hash : bytes) (height : Z) : bool :=
  (0 <? height) && bool_decide (block_hash_at_height c height = Some hash) &&
  (sat_sub (best_height c) height <? MAX_PENDING_PROOFS).

Definition prune_proof_requests (now : Z) : st Node NodeError unit :=
  smod (fun n => with_retries (prune_pending now (fun hash height =>
    recent_canonical (chain n) hash height && negb (bool_decide (hash ∈ stake_proofs n)))) n).

Definition request_stake_proof (now : Z) (hash : bytes) (height : Z) (peer : SocketAddr) (version : Z) : st Node NodeError unit :=
  do* _ := prune_proof_requests now in
  do* eligible := sget (fun n => recent_canonical (chain n) hash height && negb (bool_decide (hash ∈ stake_proofs n))) in
  if eligible then
    do* tracked := (fun n => let '(q, b) := track hash height peer now (proof_retries n) in (with_retries (fun _ => q) n, Ok b)) in
    if (tracked : bool) then send peer "getproof" (encode_for_peer (mkGetProof hash) version) else sret tt
  else sret tt.

(** ** Blocks *)

Definition request_orphan_parent (peer_addr : SocketAddr) (peer_version : Z) (parent_hash : bytes) : st Node NodeError unit :=
  send peer_addr "getdata" (encode_for_peer (mkGetData [mkInv InvBlock parent_hash]) peer_version).

(** What [handle_block] does to the mempool. *)
Definition update_mempool (clk : Clock) (block : Block) (acceptance : res NodeError BlockAcceptance) : st Node NodeError unit :=
  match acceptance with
  | Ok (MainChain _ _ utxos_removed _) =>
      smod (with_mempool (handle_confirmed_block (map txid (transactions block)) utxos_removed))
  | Ok (Reorg _ _ _ rolled_back_txs _ _) =>
      do* c := sget chain in in_mempool (handle_reorg (unix clk) c rolled_back_txs)
  | _ => sret tt
  end.

(** What it reports and asks for; whether the block is announced to others. *)
Definition announce (clk : Clock) (peer_addr : SocketAddr) (peer_version : Z) (block : Block) (a : BlockAcceptance)
    : st Node NodeError bool :=
  let hash := block_hash block in
  match a with
  | MainChain height utxos_added utxos_removed claimed_addresses =>
      do* _ := smod (emit_event (NewBlock height hash (zlen (transactions block)) (timestamp (header block)) (json_size block) block
                                   utxos_added utxos_removed claimed_addresses)) in
      do* _ := sfor (fun tx => smod (emit_event (TxConfirmed (txid tx) height hash))) (transactions block) in
      do* _ := (if is_pos (header block) then request_stake_proof (instant clk) hash height peer_addr peer_version
                else sret tt) in
      sret true
  | Reorg old_tip new_tip depth _ rolled_back_blocks applied_fork_blocks =>
      do* _ := sfor (fun fork =>
        if is_pos (header (af_block fork))
        then request_stake_proof (instant clk) (block_hash (af_block fork)) (af_height fork) peer_addr peer_version
        else sret tt) applied_fork_blocks in
      do* _ := smod (emit_event (Reorganized old_tip new_tip depth rolled_back_blocks applied_fork_blocks)) in
      sret true
  | Fork _ | Duplicate => sret false
  end.

(** The body of [handle_block], with the handler for the orphans that waited for the block. *)
Definition handle_block_body (self : SocketAddr -> bytes -> Z -> st Node NodeError unit) (clk : Clock) (peer_addr : SocketAddr)
    (payload : bytes) (peer_version : Z) : st Node NodeError unit :=
  match deserialize_block payload with
  | Ok block =>
      let hash := block_hash block in
      let parent_hash := prev_block_hash (header block) in
      do* dependency_known := sget (fun n => bool_decide (is_Some (get_block (chain n) hash)) ||
                                              bool_decide (is_Some (get_block (chain n) parent_hash))) in
      if negb dependency_known then
        do* _ := smod (with_orphans (fun o => (queue_orphan block peer_addr peer_version (zlen payload) o).1)) in
        request_orphan_parent peer_addr peer_version parent_hash
      else
        do* acceptance := (fun n => let '(c, r) := add_block (unix clk) block (chain n) in (with_chain (fun _ => c) n, Ok r)) in
        do* _ := update_mempool clk block acceptance in
        match acceptance with
        | Ok a =>
            do* should_relay := announce clk peer_addr peer_version block a in
            do* _ := (if (should_relay : bool)
                      then smod (with_manager (broadcast_except peer_addr (message (str "inv")
                             (encode_for_peer (mkInvMsg [mkInv InvBlock hash]) peer_version))))
                      else sret tt) in
            do* children := (fun n => let '(o, l) := take_orphan_children hash (orphans n) in (with_orphans (fun _ => o) n, Ok l)) in
            sfor (fun orphan => self (ob_peer_addr orphan)
                    (serialize_block_for_peer (ob_block orphan) (ob_peer_version orphan)) (ob_peer_version orphan)) children
        | Err _ => smod (with_manager (ban_peer_with_duration (instant clk) peer_addr (secs 3600) "Invalid block"))
        | Panic => slift Panic
        end
  | Err _ => misbehaved clk peer_addr MalformedMessage
  | Panic => slift Panic
  end.

(** [handle_block]. Each nested call is for an orphan that waited for the block, so the number
    of orphans bounds the nesting; [fuel] is one more. *)
Fixpoint handle_block_within (fuel : nat) (clk : Clock) : SocketAddr -> bytes -> Z -> st Node NodeError unit :=
  match fuel with
  | O => fun _ _ _ => slift Panic
  | S fuel => handle_block_body (handle_block_within fuel clk) clk
  end.

Definition handle_block (clk : Clock) (peer_addr : SocketAddr) (payload : bytes) (peer_version : Z) : st Node NodeError unit := fun n =>
  handle_block_within (S (size (orphan_blocks (orphans n)))) clk peer_addr payload peer_version n.

(** ** Transactions *)

(** [handle_tx]. *)
Definition handle_tx (clk : Clock) (peer_addr : SocketAddr) (payload : bytes) (peer_version : Z) : st Node NodeError unit :=
  match deserialize_tx payload with
  | Ok tx =>
      do* result := (fun n => let '(p, r) := admit_with_chain_fee (unix clk) (chain n) tx (mempool n) in
                              (with_mempool (fun _ => p) n, Ok r)) in
      match result with
      | Ok fee =>
          do* _ := smod (emit_event (TxUnconfirmed (txid tx) fee (serialized_size tx))) in
          smod (with_manager (broadcast_except peer_addr (message (str "inv")
            (encode_for_peer (mkInvMsg [mkInv InvTransaction (txid tx)]) peer_version))))
      | Err (PolicyRejected _) => sret tt
      | Err _ => misbehaved clk peer_addr Peers.InvalidTransaction
      | Panic => slift Panic
      end
  | Err _ => misbehaved clk peer_addr MalformedMessage
  | Panic => slift Panic
  end.

(** ** Inventory *)

(** The items of an announcement that the node lacks. *)
Definition wanted (n : Node) (item : InvItem) : bool :=
  match inv_type item with
  | InvBlock => bool_decide (get_block (chain n) (inv_hash item) = None)
  | InvTransaction => bool_decide (pool_transaction (mempool n) (inv_hash item) = None)
  | _ => false
  end.

(** [handle_inv]. *)
Definition handle_inv (clk : Clock) (peer_addr : SocketAddr) (payload : bytes) (peer_version : Z) : st Node NodeError unit :=
  match decode_for_peer payload peer_version with
  | Ok inv =>
      if MAX_INV_ITEMS <? zlen (inv_items inv) then misbehaved clk peer_addr OversizedMessage else
      do* want := sget (fun n => List.filter (wanted n) (inv_items inv)) in
      sfor (fun chunk => smod (with_manager (broadcast (message (str "getdata") (encode_for_peer (mkGetData chunk) peer_version)))))
        (chunk_getdata want)
  | _ => sret tt
  end.

(** ** Requests for blocks and headers *)

(** The loop from [our_height] down to [floor] for a block of the locator. *)
Definition locate (c : Chain) (locator : list bytes) (hs : list Z) : Z :=
  match List.find (fun h => match get_block_at_height c h with
                            | Some b => bool_decide (block_hash b ∈ locator)
                            | None => false
                            end) hs with
  | Some h => h + 1
  | None => 1
  end.

(** The heights [from..=to]. *)
Definition height_range (from to : Z) : list Z := seqZ from (to - from + 1).

(** [handle_getblocks]. *)
Definition handle_getblocks (clk : Clock) (peer_addr : SocketAddr) (payload : bytes) (peer_version : Z) : st Node NodeError unit :=
  match decode_for_peer payload peer_version with
  | Ok req =>
      if MAX_LOCATOR_HASHES <? zlen (gb_locator req) then misbehaved clk peer_addr MalformedMessage else
      do* c := sget chain in
      let our_height := best_height c in
      let scan_floor := Z.max (sat_sub our_height 10000) 1 in
      let start_height := locate c (gb_locator req) (rev (height_range scan_floor our_height)) in
      let '(from, to) := capped_range start_height our_height MAX_GETDATA_ITEMS in
      let items := map (fun b => mkInv InvBlock (block_hash b)) (omap (get_block_at_height c) (height_range from to)) in
      match items with
      | [] => sret tt
      | _ => send peer_addr "inv" (encode_for_peer (mkInvMsg items) peer_version)
      end
  | _ => sret tt
  end.

(** The loop over the heights of a [headers] answer. *)
Fixpoint collect_headers (c : Chain) (hash_stop : bytes) (hs : list Z) : list HeaderEntry :=
  match hs with
  | [] => []
  | h :: hs =>
      match get_block_at_height c h with
      | Some block =>
          let entry := mkHeaderEntry (default [] (bin_ser (header block))) 0 in
          if negb (bytes_eqb hash_stop zero_hash) && bytes_eqb (block_hash block) hash_stop then [entry]
          else entry :: collect_headers c hash_stop hs
      | None => collect_headers c hash_stop hs
      end
  end.

(** [handle_getheaders]. *)
Definition handle_getheaders (clk : Clock) (peer_addr : SocketAddr) (payload : bytes) (peer_version : Z) : st Node NodeError unit :=
  match decode_for_peer payload peer_version with
  | Ok req =>
      if MAX_LOCATOR_HASHES <? zlen (gh_locator req) then misbehaved clk peer_addr MalformedMessage else
      do* c := sget chain in
      let our_height := best_height c in
      let start_height := locate c (gh_locator req) (rev (height_range 1 our_height)) in
      let '(from, to) := capped_range start_height our_height HEADERS_PER_BATCH in
      match collect_headers c (gh_hash_stop req) (height_range from to) with
      | [] => sret tt
      | headers => send peer_addr "headers" (encode_for_peer (mkHeaders headers) peer_version)
      end
  | _ => sret tt
  end.

(** [handle_headers]; a default deserializer has no limit. *)
Definition handle_headers (clk : Clock) (peer_addr : SocketAddr) (payload : bytes) (peer_version : Z) : st Node NodeError unit :=
  match decode_for_peer payload peer_version with
  | Ok resp =>
      let count := zlen (hm_headers resp) in
      if count =? 0 then sret tt else
      if HEADERS_PER_BATCH <? count then misbehaved clk peer_addr OversizedMessage else
      let decoded : list BlockHeader := omap (fun h => bin_de u64_max (he_header h)) (hm_headers resp) in
      do* want := sget (fun n => map (mkInv InvBlock)
        (List.filter (fun hash => bool_decide (get_block (chain n) hash = None)) (map header_hash decoded))) in
      do* _ := sfor (fun chunk => send peer_addr "getdata" (encode_for_peer (mkGetData chunk) peer_version)) (chunk_getdata want) in
      if count =? HEADERS_PER_BATCH then
        let last_hash := default zero_hash (header_hash <$> vec_last decoded) in
        send peer_addr "getheaders" (encode_for_peer (mkGetHeaders PROTOCOL_VERSION [last_hash] zero_hash) peer_version)
      else sret tt
  | _ => sret tt
  end.

(** The locator of [request_blocks_from_peers]: the loop with [fuel] for the heights left. *)
Fixpoint locator_from (fuel : nat) (c : Chain) (hashes : list bytes) (step h : Z) : res NodeError (list bytes) :=
  match fuel with
  | O => Panic
  | S fuel =>
      let hashes := match get_block_at_height c h with Some block => hashes ++ [block_hash block] | None => hashes end in
      let* step := (if 10 <=? zlen hashes
                    then if step * 2 <=? u32_max then Ok (step * 2) else Panic
                    else Ok step) in
      if h <? step then
        match get_block_at_height c 0 with
        | Some genesis =>
            Ok (if bool_decide (vec_last hashes = Some (block_hash genesis)) then hashes else hashes ++ [block_hash genesis])
        | None => Ok hashes
        end
      else locator_from fuel c hashes step (h - step)
  end.
Definition block_locator (c : Chain) : res NodeError (list bytes) :=
  locator_from (S (Z.to_nat (best_height c))) c [] 1 (best_height c).

(** [Node::request_blocks_from_peers]. *)
Definition request_blocks_from_peers : st Node NodeError unit :=
  do* n := sget (fun n => n) in
  if best_height (chain n) <? network_best_height (peer_manager n) then
    do* locator := slift (block_locator (chain n)) in
    let msg := mkGetHeaders PROTOCOL_VERSION locator zero_hash in
    let has_v2 := existsb (fun e => is_v2_peer e.2) (map_to_list (peer_versions (tables n))) in
    let payload := default [] (if has_v2 then bin_ser msg else to_vec msg) in
    smod (with_manager (broadcast (message (str "getheaders") payload)))
  else sret tt.

(** ** Serving data *)

(** What one [getdata] item is answered with, and the bytes it counts for. *)
Definition serve_item (n : Node) (peer_version : Z) (item : InvItem) : option (string * bytes * Z) :=
  let not_found := Some ("notfound"%string, encode_for_peer (mkInvMsg [item]) peer_version, 0) in
  let found cmd payload := match payload with [] => None | _ => Some (cmd, payload, zlen payload) end in
  match inv_type item with
  | InvBlock =>
      match get_block (chain n) (inv_hash item) with
      | Some block => found "block"%string (serialize_block_for_peer block peer_version)
      | None => not_found
      end
  | InvTransaction =>
      match pool_transaction (mempool n) (inv_hash item) with
      | Some tx => found "tx"%string (serialize_tx_for_peer tx peer_version)
      | None => not_found
      end
  | _ => None
  end.

(** The loop over the items, with the bytes served so far. *)
Fixpoint serve_items (peer_addr : SocketAddr) (peer_version : Z) (items : list InvItem) (served : Z) : st Node NodeError Z :=
  match items with
  | [] => sret served
  | item :: items =>
      if GETDATA_BYTE_BUDGET <=? served then sret served else
      do* answer := sget (fun n => serve_item n peer_version item) in
      match answer with
      | Some (cmd, payload, size) =>
          do* _ := send peer_addr cmd payload in
          serve_items peer_addr peer_version items (sat_add u64_max served size)
      | None => serve_items peer_addr peer_version items served
      end
  end.

Definition set_served (key : IpAddr) (v : Z * Z) : Node -> Node :=
  with_tables (fun t => mkTables (compact_peers t) (peer_fee_filters t) (peer_ping_nonces t) (peer_msg_counts t)
    (peer_data_msg_counts t) (peer_versions t) (<[key := v]> (peer_served_bytes t))).

(** The table of served bytes is cut back to 7,500 entries, the oldest windows first. *)
Definition start_before (a b : IpAddr * (Z * Z)) : Prop := a.2.2 <= b.2.2.
#[export] Instance start_before_dec : RelDecision start_before.
Proof. intros a b. unfold start_before. apply _. Defined.
Definition bound_served : Node -> Node :=
  with_tables (fun t =>
    let m := peer_served_bytes t in
    mkTables (compact_peers t) (peer_fee_filters t) (peer_ping_nonces t) (peer_msg_counts t) (peer_data_msg_counts t) (peer_versions t)
      (if 10000 <? Z.of_nat (size m)
       then foldl (fun m e => delete e.1 m) m
              (take (Z.to_nat (Z.of_nat (size m) - 7500)) (merge_sort start_before (map_order m)))
       else m)).

(** [handle_getdata]. *)
Definition handle_getdata (clk : Clock) (peer_addr : SocketAddr) (payload : bytes) (peer_version : Z) : st Node NodeError unit :=
  match decode_for_peer payload peer_version with
  | Ok req =>
      if MAX_GETDATA_ITEMS <? zlen (gd_items req) then misbehaved clk peer_addr OversizedMessage else
      let now := instant clk in
      let budget_key := to_canonical (addr_ip peer_addr) in
      do* (served, budget_start) := sget (fun n => default (0, now) (peer_served_bytes (tables n) !! budget_key)) in
      let '(served, budget_start) :=
        if GETDATA_BUDGET_WINDOW <=? elapsed now budget_start then (0, now) else (served, budget_start) in
      if GETDATA_BYTE_BUDGET <=? served then smod (set_served budget_key (served, budget_start)) else
      do* served := serve_items peer_addr peer_version (gd_items req) served in
      do* _ := smod (set_served budget_key (served, budget_start)) in
      smod bound_served
  | _ => sret tt
  end.

(** ** Compact blocks *)

(** The pool by short ids under the keys of a compact block; later entries replace earlier. *)
Definition short_id_pool (cmpct : CmpctBlockMsg) (m : Mempool) : gmap Z bytes :=
  let header_bytes := key_bytes (cb_version cmpct) (cb_prev_block_hash cmpct) (cb_merkle_root cmpct) (cb_utxo_root cmpct)
    (cb_timestamp cmpct) (cb_bits cmpct) (cb_nonce cmpct) (cb_stake_modifier cmpct) in
  let '(k0, k1) := derive_siphash_keys header_bytes (cb_siphash_nonce cmpct) in
  foldl (fun pool e => match to_vec (entry_tx e) with
                       | Some v => <[short_txid (txid (entry_tx e)) k0 k1 := v]> pool
                       | None => pool
                       end) ∅ (get_entries m).

(** The transactions of a decoded compact block, if all can be read. *)
Definition read_txs (l : list bytes) : option (list Transaction) := mapM from_slice l.

(** A reconstructed block goes the way of a block that was received. *)
Definition accept_compact (clk : Clock) (peer_addr : SocketAddr) (cmpct : CmpctBlockMsg) (tx_bytes_list : list bytes)
    : st Node NodeError unit :=
  match reconstruct_compact_block cmpct <$> read_txs tx_bytes_list with
  | Some block =>
      do* peer_version := sget (fun n => default PROTOCOL_VERSION (peer_versions (tables n) !! peer_addr)) in
      handle_block clk peer_addr (serialize_block_for_peer block peer_version) peer_version
  | None => sret tt
  end.

(** Room in [pending_compact_blocks]: any entry goes. *)
Definition drop_pending (p : gmap bytes CmpctBlockMsg) : gmap bytes CmpctBlockMsg :=
  if MAX_PENDING_COMPACT <=? Z.of_nat (size p)
  then match map_order p with (oldest, _) :: _ => delete oldest p | [] => p end
  else p.

(** [handle_cmpctblock]. *)
Definition handle_cmpctblock (clk : Clock) (peer_addr : SocketAddr) (payload : bytes) : st Node NodeError unit :=
  match from_slice payload with
  | Some cmpct =>
      do* pool := sget (fun n => short_id_pool cmpct (mempool n)) in
      match decode_compact cmpct pool with
      | Ok tx_bytes_list => accept_compact clk peer_addr cmpct tx_bytes_list
      | Err (MissingTransactions missing_indexes) =>
          let hash := block_hash (reconstruct_compact_block cmpct []) in
          do* _ := send peer_addr "getblocktxn" (default [] (to_vec (build_getblocktxn hash missing_indexes))) in
          smod (with_pending (fun p => <[hash := cmpct]> (drop_pending p)))
      | Err TooManyTransactions => sret tt
      | Err DuplicateShortId => misbehaved clk peer_addr MalformedMessage
      | Err InvalidPrefilledIndex => misbehaved clk peer_addr MalformedMessage
      | Panic => slift Panic
      end
  | None => sret tt
  end.

(** [select_blocktxn_transactions]: the loop with the indexes seen and the bytes so far. *)
Fixpoint select_txs (block : Block) (indexes : list Z) (seen : gset Z) (total : Z) : list bytes :=
  match indexes with
  | [] => []
  | idx :: indexes =>
      match vec_at (transactions block) idx with
      | None => select_txs block indexes seen total
      | Some tx =>
          if bool_decide (idx ∈ seen) then select_txs block indexes seen total else
          let seen := {[idx]} ∪ seen in
          match to_vec tx with
          | None => select_txs block indexes seen total
          | Some v =>
              if MAX_BLOCKTXN_BYTES <? sat_add usize_max total (zlen v) then []
              else v :: select_txs block indexes seen (total + zlen v)
          end
      end
  end.
Definition select_blocktxn_transactions (block : Block) (indexes : list Z) : list bytes :=
  select_txs block (take MAX_BLOCKTXN_INDEXES indexes) ∅ 0.

(** [blocktxn_payload]. *)
Definition blocktxn_payload (block : Block) (hash : bytes) (indexes : list Z) : option bytes :=
  match to_vec (mkBlockTxn hash (select_blocktxn_transactions block indexes)) with
  | Some payload => if zlen payload <=? MAX_PAYLOAD_SIZE then Some payload else None
  | None => None
  end.

(** [handle_getblocktxn]; the request has the fields of [GetBlockTxnMsg]. *)
Definition handle_getblocktxn (peer_addr : SocketAddr) (payload : bytes) (peer_version : Z) : st Node NodeError unit :=
  match from_slice payload with
  | Some req =>
      do* found := sget (fun n => get_block (chain n) (gt_block_hash req)) in
      match found with
      | Some block =>
          match blocktxn_payload block (gt_block_hash req) (gt_indexes req) with
          | Some payload => send peer_addr "blocktxn" payload
          | None => send peer_addr "notfound" (encode_for_peer (mkInvMsg [mkInv InvBlock (gt_block_hash req)]) peer_version)
          end
      | None => sret tt
      end
  | None => sret tt
  end.

(** [handle_blocktxn]. *)
Definition handle_blocktxn (clk : Clock) (peer_addr : SocketAddr) (payload : bytes) : st Node NodeError unit :=
  match from_slice payload with
  | Some resp =>
      do* found := sget (fun n => pending_compact_blocks n !! bt_block_hash resp) in
      match found with
      | None => sret tt
      | Some pending =>
          do* _ := smod (with_pending (delete (bt_block_hash resp))) in
          do* pool := sget (fun n => short_id_pool pending (mempool n)) in
          match decode_with_received pending pool ∅ with
          | Err (MissingTransactions requested_indexes) =>
              match decode_with_received pending pool (positional requested_indexes (bt_transactions resp)) with
              | Ok tx_bytes_list => accept_compact clk peer_addr pending tx_bytes_list
              | Err _ => sret tt
              | Panic => slift Panic
              end
          | Panic => slift Panic
          | _ => sret tt
          end
      end
  | None => sret tt
  end.

(** The [notfound] command: a compact block that cannot be completed is asked for in full. *)
Definition handle_notfound (peer_addr : SocketAddr) (payload : bytes) (peer_version : Z) : st Node NodeError unit :=
  match decode_for_peer payload peer_version with
  | Ok nf => sfor (fun item => fun n =>
      if bool_decide (inv_type item = InvBlock) && bool_decide (is_Some (pending_compact_blocks n !! inv_hash item))
      then send peer_addr "getdata" (encode_for_peer (mkGetData [item]) peer_version) (with_pending (delete (inv_hash item)) n)
      else (n, Ok tt)) (inv_items nf)
  | _ => sret tt
  end.

(** ** Small commands and keepalive *)

Definition set_compact (f : gmap SocketAddr CompactBlockPeerState -> gmap SocketAddr CompactBlockPeerState) : Node -> Node :=
  with_tables (fun t => mkTables (f (compact_peers t)) (peer_fee_filters t) (peer_ping_nonces t) (peer_msg_counts t)
    (peer_data_msg_counts t) (peer_versions t) (peer_served_bytes t)).
Definition set_fee_filters (f : gmap SocketAddr Z -> gmap SocketAddr Z) : Node -> Node :=
  with_tables (fun t => mkTables (compact_peers t) (f (peer_fee_filters t)) (peer_ping_nonces t) (peer_msg_counts t)
    (peer_data_msg_counts t) (peer_versions t) (peer_served_bytes t)).
Definition set_nonces (f : gmap SocketAddr Z -> gmap SocketAddr Z) : Node -> Node :=
  with_tables (fun t => mkTables (compact_peers t) (peer_fee_filters t) (f (peer_ping_nonces t)) (peer_msg_counts t)
    (peer_data_msg_counts t) (peer_versions t) (peer_served_bytes t)).
Definition set_versions (f : gmap SocketAddr Z -> gmap SocketAddr Z) : Node -> Node :=
  with_tables (fun t => mkTables (compact_peers t) (peer_fee_filters t) (peer_ping_nonces t) (peer_msg_counts t)
    (peer_data_msg_counts t) (f (peer_versions t)) (peer_served_bytes t)).

(** The commands [sendcmpct], [ping], [pong], [feefilter]. *)
Definition handle_sendcmpct (peer_addr : SocketAddr) (payload : bytes) : st Node NodeError unit :=
  match from_slice payload with
  | Some msg => smod (set_compact (<[peer_addr := mkCompactPeer true (sc_high_bandwidth msg) (sc_version msg)]>))
  | None => sret tt
  end.
Definition handle_ping (peer_addr : SocketAddr) (payload : bytes) (peer_version : Z) : st Node NodeError unit :=
  match decode_for_peer payload peer_version with
  | Ok ping => send peer_addr "pong" (encode_for_peer (mkPing (ping_nonce ping)) peer_version)
  | _ => sret tt
  end.
Definition handle_pong (peer_addr : SocketAddr) (payload : bytes) (peer_version : Z) : st Node NodeError unit :=
  match decode_for_peer payload peer_version with
  | Ok pong =>
      do* expected := sget (fun n => peer_ping_nonces (tables n) !! peer_addr) in
      if bool_decide (expected = Some (ping_nonce pong)) then smod (set_nonces (delete peer_addr)) else sret tt
  | _ => sret tt
  end.
Definition handle_feefilter (peer_addr : SocketAddr) (payload : bytes) : st Node NodeError unit :=
  match from_slice payload with
  | Some ff => smod (set_fee_filters (<[peer_addr := ff_feerate ff]>))
  | None => sret tt
  end.

(** One peer of [send_keepalive_pings]: a new ping, unless the last one is unanswered. *)
Definition ping_peer (nonce : Z) (addr : SocketAddr) (n : Node) : Node :=
  let n := set_nonces (<[addr := nonce]>) n in
  let peer_version := default LEGACY_PROTOCOL_VERSION (peer_versions (tables n) !! addr) in
  let msg := mkPing nonce in
  let payload := default [] (if is_v2_peer peer_version then bin_ser msg else to_vec msg) in
  with_manager (send_to addr (message (str "ping") payload)) n.
Definition forget_peer (addr : SocketAddr) (n : Node) : Node :=
  set_versions (delete addr) (set_compact (delete addr) (set_nonces (delete addr) (set_fee_filters (delete addr)
    (with_manager (disconnect addr) n)))).

(** [Node::send_keepalive_pings]; [nonces] gives the random numbers. *)
Definition send_keepalive_pings (nonces : SocketAddr -> Z) (n : Node) : Node :=
  let peers := connected_peers (peer_manager n) in
  let '(n, stale) := foldl (fun '(n, stale) addr =>
      if bool_decide (is_Some (peer_ping_nonces (tables n) !! addr)) then (n, stale ++ [addr])
      else (ping_peer (nonces addr) addr n, stale)) (n, []) peers in
  foldl (fun n addr => forget_peer addr n) n stale.

(** ** Flood control *)

Definition KNOWN_COMMANDS : list bytes := map str
  ["addr"; "getaddr"; "inv"; "block"; "tx"; "getblocks"; "sendcmpct"; "cmpctblock"; "getblocktxn"; "blocktxn"; "ping"; "pong";
   "feefilter"; "notfound"; "getdata"; "getheaders"; "headers"; "getproof"; "proof"; "dexorder"]%string.

(** One more message of a peer in its window. *)
Definition count_message (now : Z) (addr : SocketAddr) (counts : gmap SocketAddr (Z * Z)) : res NodeError (Z * Z) :=
  let '(count, window_start) := default (0, now) (counts !! addr) in
  let '(count, window_start) := if MSG_WINDOW_SECS <=? sat_sub now window_start then (0, now) else (count, window_start) in
  let* count := padd u64_max count 1 in
  Ok (count, window_start).

(** The first part of [dispatch_message]: whether the command is handled. *)
Definition admit_message (clk : Clock) (peer_addr : SocketAddr) (cmd : bytes) : st Node NodeError bool :=
  if negb (bool_decide (cmd ∈ KNOWN_COMMANDS)) then sret false else
  let is_bulk_data := bytes_eqb cmd (str "block") || bytes_eqb cmd (str "tx") in
  let budget := if is_bulk_data then MAX_DATA_MSGS_PER_WINDOW else MAX_MSGS_PER_WINDOW in
  do* counts := sget (fun n => if is_bulk_data then peer_data_msg_counts (tables n) else peer_msg_counts (tables n)) in
  do* (count, window_start) := slift (count_message (unix clk) peer_addr counts) in
  let counts := <[peer_addr := (count, window_start)]> counts in
  do* _ := smod (with_tables (fun t =>
    mkTables (compact_peers t) (peer_fee_filters t) (peer_ping_nonces t)
      (if is_bulk_data then peer_msg_counts t else counts) (if is_bulk_data then counts else peer_data_msg_counts t)
      (peer_versions t) (peer_served_bytes t))) in
  if budget <? count then
    do* _ := misbehaved clk peer_addr (Custom 100) in sret false
  else
    do* _ := smod (set_nonces (delete peer_addr)) in
    sret true.
End handler.
End Handler.
