(* ===== verification/NodeFacts.v ===== *)
(** * The orphan pool and the recursion of the block handler

    Facts on the definitions of [Node]: the pool of blocks without a parent stays within its
    caps, [handle_block] satisfies its recursive equation, and what the handlers leave alone. *)

From stdpp Require Import base list gmap sorting strings.
From Stdlib Require Import ZArith Lia.
From S2P Require Import Prelude Script Crypto Engine Standard Merkle Codec Block Address Consensus.
From S2P Require Import Deployments Governance Ledger Chain Mempool Wire Compact Peers Proofs Events Node.

(** ** The orphan pool *)

Section orphan_pool.
Context {C : Crypto} {B : Bincode} {MO : MapOrder} {ML : MapOrderLaws MO}.

Definition pool_size (o : Orphans) : nat := size (orphan_blocks o).

(** The queue lists the keys of the map once each, a block is kept under its hash, and the
    counter is the sum of the sizes. *)
Record orphans_wf (o : Orphans) : Prop := {
  ow_nodup : NoDup (orphan_order o);
  ow_dom : forall h, h ∈ orphan_order o <-> is_Some (orphan_blocks o !! h);
  ow_keys : forall h x, orphan_blocks o !! h = Some x -> h = block_hash (ob_block x) /\ 0 <= ob_size_bytes x;
  ow_bytes : orphan_bytes o = map_sum ob_size_bytes (orphan_blocks o);
}.

(** The pool is well formed and within its two caps. *)
Record orphans_ok (o : Orphans) : Prop := {
  oo_wf :> orphans_wf o;
  oo_count : Z.of_nat (pool_size o) <= MAX_ORPHAN_BLOCKS;
  oo_cap : orphan_bytes o <= MAX_ORPHAN_BYTES;
}.

Lemma orphan_bytes_nonneg o : orphans_wf o -> 0 <= orphan_bytes o.
Proof. intros [_ _ Hk ->]. apply map_sum_nonneg. intros h x Hx. by apply (Hk h x). Qed.

Lemma orphan_bytes_ge o h x : orphans_wf o -> orphan_blocks o !! h = Some x -> ob_size_bytes x <= orphan_bytes o.
Proof.
  intros [_ _ Hk ->] Hx. pose proof (map_sum_delete ob_size_bytes (orphan_blocks o) h x Hx) as E.
  enough (0 <= map_sum ob_size_bytes (delete h (orphan_blocks o))) by lia.
  apply map_sum_nonneg. intros h' x' [_ Hx']%lookup_delete_Some. by apply (Hk h' x').
Qed.

(** Taking a block out keeps the counter right. *)
Lemma remove_orphan_bytes o h x : orphans_wf o -> orphan_blocks o !! h = Some x ->
  sat_sub (orphan_bytes o) (ob_size_bytes x) = map_sum ob_size_bytes (delete h (orphan_blocks o)).
Proof.
  intros Hwf Hx. pose proof (orphan_bytes_ge o h x Hwf Hx). rewrite (map_sum_delete _ _ _ _ Hx), <- (ow_bytes o Hwf).
  unfold sat_sub. lia.
Qed.

Lemma evict_oldest o h order x : orphans_wf o -> orphan_order o = h :: order -> orphan_blocks o !! h = Some x ->
  orphans_wf (mkOrphans (delete h (orphan_blocks o)) order (sat_sub (orphan_bytes o) (ob_size_bytes x))).
Proof.
  intros Hwf Eo Hx. rewrite (remove_orphan_bytes o h x Hwf Hx). destruct Hwf as [Hn Hd Hk _]. rewrite Eo in Hn, Hd.
  apply NoDup_cons in Hn as [Hni Hn]. split; cbn; [done| | |done].
  - intros h'. specialize (Hd h'). rewrite elem_of_cons in Hd. destruct (decide (h' = h)) as [->|Hne].
    + rewrite lookup_delete_eq. split; [done|]. by intros [? ?].
    + rewrite lookup_delete_ne by done. rewrite <- Hd. tauto.
  - intros h' x' [_ Hx']%lookup_delete_Some. by apply Hk.
Qed.

(** The loop ends with room for the block: an empty queue means an empty pool. *)
Lemma evict_orphans_ok order size_bytes : forall o,
  orphans_wf o -> orphan_order o = order -> 0 <= size_bytes <= MAX_ORPHAN_BYTES ->
  let o' := evict_orphans order size_bytes o in
  orphans_wf o' /\ (pool_size o' <= pool_size o)%nat /\ Z.of_nat (pool_size o') < MAX_ORPHAN_BLOCKS /\
  orphan_bytes o' + size_bytes <= MAX_ORPHAN_BYTES /\ orphan_blocks o' ⊆ orphan_blocks o.
Proof.
  induction order as [|h order IH]; intros o Hwf Eo Hs; cbn [evict_orphans].
  - assert (orphan_blocks o = ∅) as E0.
    { apply map_eq. intros h. rewrite lookup_empty. apply eq_None_not_Some. intros Hh%(ow_dom o Hwf). rewrite Eo in Hh. by apply elem_of_nil in Hh. }
    assert (orphan_bytes o = 0) as Eb by (rewrite (ow_bytes o Hwf), E0; done).
    assert (pool_size o = 0%nat) as En by (unfold pool_size; by rewrite E0).
    case_match; cbn zeta; (split_and!; [done|lia|rewrite En; done|lia|done]).
  - pose proof (orphan_bytes_nonneg o Hwf). case_match eqn:Hfull; cycle 1.
    + apply orb_false_iff in Hfull as [H1%Z.leb_gt H2%Z.ltb_ge]. cbn zeta. fold (pool_size o) in H1. unfold sat_add in H2.
      unfold MAX_ORPHAN_BYTES, usize_max in *. split_and!; [done|lia|done|lia|done].
    + destruct (proj1 (ow_dom o Hwf h)) as [x Hx]; [rewrite Eo; left|]. rewrite Hx.
      specialize (IH _ (evict_oldest o h order x Hwf Eo Hx) eq_refl Hs). cbn in IH |- *.
      destruct IH as (I1 & I2 & I3 & I4 & I5). split_and!; [done| |done|done|].
      * etrans; [exact I2|]. unfold pool_size. cbn. rewrite map_size_delete, Hx. lia.
      * etrans; [exact I5|]. apply delete_subseteq.
Qed.

Lemma queue_orphan_ok block peer v size_bytes o : 0 <= size_bytes -> orphans_ok o ->
  orphans_ok (queue_orphan block peer v size_bytes o).1.
Proof.
  intros Hs Ho. unfold queue_orphan. case_match eqn:Hc; [done|]. apply orb_false_iff in Hc as [H1 H2%Z.ltb_ge].
  apply bool_decide_eq_false in H1. pose proof (oo_wf o Ho) as Hwf.
  destruct (evict_orphans_ok (orphan_order o) size_bytes o Hwf eq_refl) as (W & _ & I3 & I4 & I5); [done|].
  set (o' := evict_orphans _ _ _) in *. cbn.
  assert (orphan_blocks o' !! block_hash block = None) as Hno.
  { apply eq_None_not_Some. intros [x Hx]. apply H1. exists x. by eapply lookup_weaken. }
  pose proof (orphan_bytes_nonneg o' W). destruct W as [Wn Wd Wk Wb].
  assert (sat_add usize_max (orphan_bytes o') size_bytes = orphan_bytes o' + size_bytes) as Es
    by (unfold sat_add, MAX_ORPHAN_BYTES, usize_max in *; lia).
  split; [split; cbn| |cbn; lia].
  - apply NoDup_app. split; [done|]. split; [|apply NoDup_singleton].
    intros h Hh ->%list_elem_of_singleton. apply Wd in Hh. rewrite Hno in Hh. by destruct Hh.
  - intros h. rewrite elem_of_app, list_elem_of_singleton, Wd. destruct (decide (h = block_hash block)) as [->|Hne].
    + rewrite lookup_insert_eq. split; [by eexists|by right].
    + rewrite lookup_insert_ne by done. tauto.
  - intros h x. destruct (decide (h = block_hash block)) as [->|Hne].
    + rewrite lookup_insert_eq. by intros [= <-].
    + rewrite lookup_insert_ne by done. apply Wk.
  - rewrite map_sum_insert by done. cbn. rewrite <- Wb. lia.
  - unfold pool_size in *. cbn. rewrite map_size_insert_None by done. lia.
Qed.

Lemma queue_orphan_size block peer v size_bytes o :
  (pool_size (queue_orphan block peer v size_bytes o).1 <= S (pool_size o))%nat.
Proof.
  unfold queue_orphan. case_match; [cbn; lia|]. cbn. unfold pool_size. cbn.
  enough (forall order o, size (orphan_blocks (evict_orphans order size_bytes o)) <= size (orphan_blocks o))%nat as He.
  { specialize (He (orphan_order o) o). rewrite map_size_insert. case_match; unfold id; cbn in *; lia. }
  induction order as [|h order IH]; intros o'; cbn [evict_orphans]; case_match; try lia.
  etrans; [apply IH|]. destruct (orphan_blocks o' !! h) as [x|] eqn:Hx; cbn; [|done]. rewrite map_size_delete, Hx. lia.
Qed.

(** *** Taking the children of a block *)

Lemma take_children_fold hs : forall o acc,
  NoDup hs -> (forall h, h ∈ hs -> is_Some (orphan_blocks o !! h)) ->
  exists xs o', foldl take_child (o, acc) hs = (o', acc ++ xs) /\ Forall2 (fun h x => orphan_blocks o !! h = Some x) hs xs /\
    orphan_order o' = orphan_order o /\ (pool_size o' + length hs = pool_size o)%nat /\
    (forall h, orphan_blocks o' !! h = if decide (h ∈ hs) then None else orphan_blocks o !! h) /\
    ((forall h x, orphan_blocks o !! h = Some x -> 0 <= ob_size_bytes x) ->
     orphan_bytes o = map_sum ob_size_bytes (orphan_blocks o) -> orphan_bytes o' = map_sum ob_size_bytes (orphan_blocks o')).
Proof.
  induction hs as [|h hs IH]; intros o acc Hnd Hin.
  { exists [], o. rewrite app_nil_r. cbn. split_and!; [done|constructor|done|lia| |done]. intros h.
    destruct (decide (h ∈ [])) as [E%elem_of_nil|]; done. }
  apply NoDup_cons in Hnd as [Hni Hnd]. destruct (Hin h) as [x Hx]; [left|]. cbn [foldl take_child]. rewrite Hx.
  set (o1 := mkOrphans _ _ _).
  assert (forall h', h' ∈ hs -> orphan_blocks o1 !! h' = orphan_blocks o !! h') as Hsame.
  { intros h' Hh'. cbn. apply lookup_delete_ne. by intros ->. }
  destruct (IH o1 (acc ++ [x]) Hnd) as (xs & o' & E1 & E2 & E3 & E4 & E5 & E6).
  { intros h' Hh'. rewrite Hsame by done. apply Hin. by right. }
  exists (x :: xs), o'. rewrite E1, <- app_assoc. split_and!; [done| |done| | |].
  - constructor; [done|]. eapply Forall2_impl; [exact E2|]. cbn. intros h' x' [_ Hx']%lookup_delete_Some. done.
  - assert (S (pool_size o1) = pool_size o) as Es.
    { unfold pool_size. cbn. rewrite map_size_delete, Hx.
      pose proof (map_size_ne_0_lookup_2 (orphan_blocks o) h ltac:(by rewrite Hx)). lia. }
    cbn [length]. lia.
  - intros h'. rewrite E5. cbn. destruct (decide (h' = h)) as [->|Hne].
    + rewrite lookup_delete_eq, (decide_False (P := h ∈ hs)) by done. by rewrite decide_True by left.
    + rewrite lookup_delete_ne by done. destruct (decide (h' ∈ hs)) as [Hh|Hh].
      * by rewrite decide_True by by right.
      * rewrite decide_False; [done|]. rewrite elem_of_cons. tauto.
  - intros Hk Hb. apply E6.
    + cbn. intros h' x' [_ Hx']%lookup_delete_Some. by eapply Hk.
    + cbn. pose proof (map_sum_delete ob_size_bytes (orphan_blocks o) h x Hx) as Ed. rewrite Ed, Hb. unfold sat_sub.
      enough (0 <= map_sum ob_size_bytes (delete h (orphan_blocks o))) by lia.
      apply map_sum_nonneg. intros h' x' [_ Hx']%lookup_delete_Some. by eapply Hk.
Qed.

Definition child_of (parent : bytes) (x : OrphanBlock) : Prop := prev_block_hash (header (ob_block x)) = parent.

Lemma child_hashes_spec (parent : bytes) (m : gmap bytes OrphanBlock) :
  let hs := map fst (List.filter (fun e => bytes_eqb (prev_block_hash (header (ob_block e.2))) parent) (map_order m)) in
  NoDup hs /\ forall h, h ∈ hs <-> exists x, m !! h = Some x /\ child_of parent x.
Proof.
  cbn zeta. split.
  - assert (NoDup (map_order m).*1) as Hnd by (rewrite map_order_perm; apply NoDup_fst_map_to_list).
    induction (map_order m) as [|e l IH]; [constructor|]. cbn in Hnd |- *. apply NoDup_cons in Hnd as [Hni Hnd].
    destruct (bytes_eqb _ _); [|by apply IH]. cbn. constructor; [|by apply IH]. intros Hin. apply Hni.
    apply list_elem_of_fmap in Hin as (e' & E & Hin). rewrite E. apply list_elem_of_fmap. exists e'. split; [done|].
    apply list_elem_of_In in Hin. apply filter_In in Hin as [Hin _]. by apply list_elem_of_In.
  - intros h. unfold child_of. split.
    + intros ([k x] & -> & Hin)%list_elem_of_fmap. apply list_elem_of_In, filter_In in Hin as [Hin E%bytes_eqb_eq].
      apply list_elem_of_In in Hin. rewrite map_order_perm in Hin. apply elem_of_map_to_list in Hin. by exists x.
    + intros (x & Hx & E). apply list_elem_of_fmap. exists (h, x). split; [done|]. apply list_elem_of_In, filter_In.
      split; [|by apply bytes_eqb_eq]. apply list_elem_of_In. rewrite map_order_perm. by apply elem_of_map_to_list.
Qed.

(** The children leave the pool, all of them and nothing else. *)
Lemma take_orphan_children_spec (parent : bytes) o o' l :
  take_orphan_children parent o = (o', l) ->
  (orphans_wf o -> orphans_wf o' /\ NoDup l) /\ (pool_size o' + length l = pool_size o)%nat /\
  (forall h x, orphan_blocks o' !! h = Some x <-> orphan_blocks o !! h = Some x /\ ~ child_of parent x) /\
  (forall x, x ∈ l <-> exists h, orphan_blocks o !! h = Some x /\ child_of parent x).
Proof.
  unfold take_orphan_children. destruct (child_hashes_spec parent (orphan_blocks o)) as [Hnd Hin].
  set (hs := map fst _) in *.
  assert (forall h x, orphan_blocks o !! h = Some x -> h ∈ hs <-> child_of parent x) as Hc.
  { intros h x Hx. rewrite Hin. split; [|by exists x]. intros (x' & Hx' & ?). congruence. }
  assert (exists xs o2, (match hs with
     | [] => (o, [])
     | _ => foldl take_child (mkOrphans (orphan_blocks o) (filter (fun hash => hash ∉ hs) (orphan_order o)) (orphan_bytes o), []) hs
     end) = (o2, xs) /\ Forall2 (fun h x => orphan_blocks o !! h = Some x) hs xs /\
     orphan_order o2 = filter (fun hash => hash ∉ hs) (orphan_order o) /\ (pool_size o2 + length hs = pool_size o)%nat /\
     (forall h, orphan_blocks o2 !! h = if decide (h ∈ hs) then None else orphan_blocks o !! h) /\
     ((forall h x, orphan_blocks o !! h = Some x -> 0 <= ob_size_bytes x) ->
      orphan_bytes o = map_sum ob_size_bytes (orphan_blocks o) -> orphan_bytes o2 = map_sum ob_size_bytes (orphan_blocks o2)))
    as (xs & o2 & E0 & E2 & E3 & E4 & E5 & E6).
  { destruct hs as [|h0 hs0].
    - exists [], o. split_and!; [done|constructor| |cbn; lia| |done].
      + symmetry. apply list_filter_all. intros h _. apply not_elem_of_nil.
      + intros h. by rewrite decide_False by apply not_elem_of_nil.
    - destruct (take_children_fold (h0 :: hs0)
        (mkOrphans (orphan_blocks o) (filter (fun hash => hash ∉ h0 :: hs0) (orphan_order o)) (orphan_bytes o)) []) as (xs & o2 & F1 & F2 & F3 & F4 & F5 & F6); [done| |].
      { intros h (x & Hx & _)%Hin. by exists x. }
      exists xs, o2. exact (conj F1 (conj F2 (conj F3 (conj F4 (conj F5 F6))))). }
  rewrite E0. intros [= <- <-]. split_and!.
  - intros [Wn Wd Wk Wb]. split; [split|].
    + rewrite E3. by apply NoDup_filter.
    + intros h. rewrite E3, list_elem_of_filter, Wd, E5. case_decide; [|tauto]. split; [tauto|]. by intros [? ?].
    + intros h x. rewrite E5. case_decide; [done|]. apply Wk.
    + apply E6; [|done]. intros h x Hx. by apply (Wk h x).
    + apply NoDup_alt. intros i j x Hi Hj. destruct (Forall2_lookup_r _ _ _ _ _ E2 Hi) as (h & Hh & [Eh _]%Wk).
      destruct (Forall2_lookup_r _ _ _ _ _ E2 Hj) as (h' & Hh' & [Eh' _]%Wk). rewrite NoDup_alt in Hnd. apply (Hnd i j h); congruence.
  - by rewrite <- (Forall2_length _ _ _ E2).
  - intros h x. rewrite E5. case_decide as Hh; split; try done.
    + intros [Hx Hn]. by apply Hc in Hx as [Hx _]; apply Hx in Hh.
    + intros Hx. split; [done|]. by rewrite <- (Hc h x Hx).
    + by intros [? _].
  - intros x. split.
    + intros (i & Hi)%list_elem_of_lookup. destruct (Forall2_lookup_r _ _ _ _ _ E2 Hi) as (h & Hh & Hx). exists h. split; [done|].
      apply (Hc h x Hx). by eapply list_elem_of_lookup_2.
    + intros (h & Hx & Hch). apply (Hc h x Hx) in Hch. apply list_elem_of_lookup in Hch as [i Hi].
      destruct (Forall2_lookup_l _ _ _ _ _ E2 Hi) as (x' & Hx' & Hh). assert (x' = x) as -> by congruence.
      by eapply list_elem_of_lookup_2.
Qed.
End orphan_pool.

(** ** What the handlers leave alone *)

Section handlers.
Context {C : Crypto} {B : Bincode} {H : Hex} {N : Snapshot} {K : KeyOrder} {MO : MapOrder} {ML : MapOrderLaws MO}.
Context {JB : Json Block} {JT : Json Transaction} {BB : BincodeOf Block} {BT : BincodeOf Transaction} {BH : BincodeOf BlockHeader}.
Context {JI : Json InvMsg} {BI : BincodeOf InvMsg} {JD : Json GetDataMsg} {BD : BincodeOf GetDataMsg}.
Context {JP : Json GetProofMsg} {BP : BincodeOf GetProofMsg}.
Import Handler.

(** A part of the node that has nothing to do with the mempool, the peers and the queue of
    proof requests. *)
Record apart_from_relay {X} (f : Node -> X) : Prop := {
  ar_mempool g n : f (with_mempool g n) = f n;
  ar_manager g n : f (with_manager g n) = f n;
  ar_retries g n : f (with_retries g n) = f n;
}.

Lemma orphans_apart : apart_from_relay orphans.
Proof. done. Qed.
Lemma chain_apart : apart_from_relay chain.
Proof. done. Qed.

Section frame.
Context {X : Type} (f : Node -> X) (Hf : apart_from_relay f).

Lemma keeps_in_mempool {A} (m : st Mempool NodeError A) : keeps f (in_mempool m).
Proof. intros n. unfold in_mempool. destruct (m _). apply (ar_mempool f Hf). Qed.
Lemma keeps_in_manager {A} (m : st PeerManager P2pError A) : keeps f (in_manager m).
Proof. intros n. unfold in_manager. destruct (m _). apply (ar_manager f Hf). Qed.
#[local] Hint Resolve keeps_in_mempool keeps_in_manager : keeps.

Lemma keeps_misbehaved clk addr o : keeps f (misbehaved clk addr o).
Proof. unfold misbehaved. keeps_tac. Qed.
Lemma keeps_send addr cmd p : keeps f (send addr cmd p).
Proof. apply keeps_mod. intros n. apply (ar_manager f Hf). Qed.
#[local] Hint Resolve keeps_misbehaved keeps_send : keeps.

Lemma keeps_request_stake_proof now hash h p v : keeps f (request_stake_proof now hash h p v).
Proof.
  unfold request_stake_proof, prune_proof_requests. apply keeps_bind; [apply keeps_mod; intros n; apply (ar_retries f Hf)|intros _].
  keeps_step; [auto with keeps|]. keeps_step; [|auto with keeps]. keeps_step.
  - intros n. destruct (track _ _ _ _ _). apply (ar_retries f Hf).
  - keeps_step; auto with keeps.
Qed.
#[local] Hint Resolve keeps_request_stake_proof : keeps.

Lemma keeps_update_mempool clk block r : keeps f (update_mempool clk block r).
Proof.
  unfold update_mempool. repeat keeps_step. all: try apply keeps_mod; intros; apply (ar_mempool f Hf).
Qed.

Lemma keeps_announce clk p v block a : (forall e n, f (emit_event e n) = f n) -> keeps f (announce clk p v block a).
Proof.
  intros He. unfold announce. destruct a; try apply keeps_ret.
  - apply keeps_bind; [by apply keeps_mod|intros _]. apply keeps_bind; [apply keeps_for; intros tx; by apply keeps_mod|intros _].
    keeps_tac.
  - apply keeps_bind; [keeps_tac|intros _]. apply keeps_bind; [by apply keeps_mod|intros _; apply keeps_ret].
Qed.
End frame.

Lemma events_apart : apart_from_relay events.
Proof. done. Qed.

(** A request for a proof returns and emits nothing. *)
Lemma request_stake_proof_quiet now hash h p v n :
  runs (request_stake_proof now hash h p v) (fun _ n' => events n' = events n) (fun _ _ => False) n.
Proof.
  unfold runs. pose proof (keeps_request_stake_proof events events_apart now hash h p v n) as Ek.
  assert ((request_stake_proof now hash h p v n).2 = Ok tt) as Er.
  { unfold request_stake_proof, prune_proof_requests, sbind, smod, sget, sret, send. cbn. case_match; [|done].
    destruct (track _ _ _ _ _) as [q []]; done. }
  destruct (request_stake_proof _ _ _ _ _ n) as [n' r]. cbn in *. by subst r.
Qed.

Lemma emit_all {A} (g : A -> NodeEvent) l : forall n,
  runs (E := NodeError) (sfor (fun x => smod (emit_event (g x))) l)
    (fun _ n' => events n' = events n ++ map g l) (fun _ _ => False) n.
Proof.
  induction l as [|x l IH]; intros n; cbn [sfor]; [unfold runs; cbn; by rewrite app_nil_r|].
  runs_step. runs_step. eapply runs_mono; [apply IH| |done]. cbn. intros _ n' ->. by rewrite <- app_assoc.
Qed.

(** [announce] returns, and emits the events of the outcome in order. *)
Lemma announce_emits clk p v block a n :
  runs (announce clk p v block a)
    (fun relay n' => events n' = events n ++ block_events block a /\ relay = match a with MainChain _ _ _ _ | Reorg _ _ _ _ _ _ => true | _ => false end)
    (fun _ _ => False) n.
Proof.
  unfold announce. destruct a as [h added removed claims|o t d txs rbs fs|t|].
  - runs_step. runs_step. runs_step. eapply runs_mono; [apply emit_all| |done]. intros [] n1 E1. runs_step.
    apply (runs_mono _ (fun _ n' => events n' = events n1) _ (fun _ _ => False)); [| |done].
    + apply runs_if; intros _; [apply request_stake_proof_quiet|done].
    + intros [] n2 E2. runs_step. split; [|done]. rewrite E2, E1. cbn. by rewrite <- app_assoc.
  - runs_step. apply (runs_mono _ (fun _ n' => events n' = events n) _ (fun _ _ => False)); [| |done].
    + apply runs_for; [|done]. intros fork n1 _ E1. apply runs_if; intros _; [|done].
      eapply runs_mono; [apply request_stake_proof_quiet| |done]. cbn. congruence.
    + intros [] n1 E1. runs_step. runs_step. runs_step. cbn. by rewrite E1.
  - runs_step. cbn. by rewrite app_nil_r.
  - runs_step. cbn. by rewrite app_nil_r.
Qed.

(** ** The recursion of [handle_block] *)

Definition psize (n : Node) : nat := pool_size (orphans n).

Lemma keeps_psize {A} (m : st Node NodeError A) : keeps orphans m -> keeps psize m.
Proof. intros Hm n. unfold psize. by rewrite Hm. Qed.

Definition handler : Type := SocketAddr -> bytes -> Z -> st Node NodeError unit.
(** A call adds at most one block to the pool. *)
Definition adds_one (self : handler) : Prop := forall p b v n, (psize (self p b v n).1 <= S (psize n))%nat.

(** The children of an accepted block: the pool never reaches the size it had before they were
    taken out. *)
Lemma children_small (self : handler) (g : OrphanBlock -> SocketAddr * bytes * Z) m l n :
  (forall p b v n', (psize n' < m)%nat -> (psize (self p b v n').1 <= S (psize n'))%nat) ->
  (psize n + length l <= m)%nat ->
  let call x := let '(p, b, v) := g x in self p b v in
  swp (sfor call l) (fun _ n' => psize n' <= m)%nat (fun n' => psize n' <= m)%nat n.
Proof.
  intros Hs Hl. cbn zeta. revert n Hl. induction l as [|x l IH]; intros n Hl; cbn [sfor]; [cbn in Hl; apply swp_ret; lia|].
  cbn in Hl. apply swp_bind. destruct (g x) as [[p b] v]. specialize (Hs p b v n ltac:(lia)). unfold swp.
  destruct (self p b v n) as [n' [u|e|]]; cbn in Hs; [|lia..]. apply IH. lia.
Qed.

(** The tail of [handle_block] after [add_block]. *)
Lemma body_small (self : handler) clk p b v n :
  (forall p b v n', (psize n' < psize n)%nat -> (psize (self p b v n').1 <= S (psize n'))%nat) ->
  (psize (handle_block_body self clk p b v n).1 <= S (psize n))%nat.
Proof.
  intros Hs. enough (swp (handle_block_body self clk p b v) (fun _ n' => psize n' <= S (psize n))%nat (fun n' => psize n' <= S (psize n))%nat n) as Hw.
  { unfold swp in Hw. by destruct (handle_block_body _ _ _ _ _ n) as [n' []]. }
  assert (forall A (m : st Node NodeError A), keeps orphans m ->
    swp m (fun _ n' => psize n' <= S (psize n))%nat (fun n' => psize n' <= S (psize n))%nat n) as Hq.
  { intros A m Hm%keeps_psize. apply (swp_keeps psize); [done|intros ??->; lia|intros ?->; lia]. }
  unfold handle_block_body. destruct (deserialize_block b) as [block|e|]; [|apply Hq, keeps_misbehaved, orphans_apart|apply Hq; done].
  swp_step. swp_step. swp_step; intros _.
  { swp_step. swp_step. apply (swp_keeps psize); [apply keeps_psize, keeps_send, orphans_apart|intros ??->|intros ?->]; apply queue_orphan_size. }
  swp_step. unfold swp at 1. destruct (add_block (unix clk) block (chain n)) as [c r]. cbn. set (n1 := with_chain _ n).
  change (psize n) with (psize n1) in *. clearbody n1. swp_step.
  apply (swp_keeps psize); [apply keeps_psize, keeps_update_mempool, orphans_apart| |intros ?->; lia]. intros _ n2 E2.
  rewrite <- E2 in *. clear n1 E2 n Hq. destruct r as [a|e|]; [|apply swp_mod; unfold psize; cbn; lia|apply swp_lift; [done|lia]].
  swp_step. apply (swp_keeps psize); [by apply keeps_psize, keeps_announce| |intros ?->; lia]. intros relay n3 E3.
  rewrite <- E3 in *. clear n2 E3. swp_step.
  apply (swp_keeps psize); [apply keeps_psize; by destruct relay| |intros ?->; lia]. intros _ n4 E4. rewrite <- E4 in *. clear n3 E4.
  swp_step. unfold swp at 1. destruct (take_orphan_children (block_hash block) (orphans n4)) as [o l] eqn:Et. cbn.
  destruct (take_orphan_children_spec _ _ _ _ Et) as (_ & Hsz & _).
  eapply swp_mono; [apply (children_small self (fun x => (ob_peer_addr x, serialize_block_for_peer (ob_block x) (ob_peer_version x), ob_peer_version x)) (psize n4))|cbn; lia..].
  - exact Hs.
  - unfold psize. cbn. lia.
Qed.

Lemma keeps_run {X A} (f : Node -> X) (m : st Node NodeError A) n n' r : keeps f m -> m n = (n', r) -> f n' = f n.
Proof. intros Hm E. specialize (Hm n). by rewrite E in Hm. Qed.

Lemma children_ext (self1 self2 : handler) (g : OrphanBlock -> SocketAddr * bytes * Z) m l n :
  (forall p b v n', (psize n' < m)%nat -> self1 p b v n' = self2 p b v n' /\ (psize (self1 p b v n').1 <= S (psize n'))%nat) ->
  (psize n + length l <= m)%nat ->
  sfor (fun x => let '(p, b, v) := g x in self1 p b v) l n = sfor (fun x => let '(p, b, v) := g x in self2 p b v) l n.
Proof.
  intros Hs. revert n. induction l as [|x l IH]; intros n Hl; [done|]. cbn in Hl. cbn [sfor]. destruct (g x) as [[p b] v].
  destruct (Hs p b v n ltac:(lia)) as [E Hn]. unfold sbind. rewrite <- E. destruct (self1 p b v n) as [n' [u|e|]]; [|done..].
  cbn in Hn. apply IH. lia.
Qed.

(** The body only calls its handler on nodes with a smaller pool. *)
Lemma body_ext (self1 self2 : handler) clk p b v n :
  (forall p b v n', (psize n' < psize n)%nat -> self1 p b v n' = self2 p b v n' /\ (psize (self1 p b v n').1 <= S (psize n'))%nat) ->
  handle_block_body self1 clk p b v n = handle_block_body self2 clk p b v n.
Proof.
  intros Hs. unfold handle_block_body. destruct (deserialize_block b) as [block|e|]; [|done..].
  apply sbind_ext. intros known n0 [= <- <-]. case_match; [done|].
  apply sbind_ext. intros r n1. destruct (add_block _ _ _) as [c r'] eqn:Ea. intros [= <- <-].
  apply sbind_ext. intros [] n2 E2. destruct r' as [a|e|]; [|done..].
  apply sbind_ext. intros relay n3 E3. apply sbind_ext. intros [] n4 E4.
  apply sbind_ext. intros l n5. destruct (take_orphan_children (block_hash block) (orphans n4)) as [o l'] eqn:Et. intros [= <- <-].
  apply (keeps_run psize) in E2; [|apply keeps_psize, keeps_update_mempool, orphans_apart].
  apply (keeps_run psize) in E3; [|by apply keeps_psize, keeps_announce].
  apply (keeps_run psize) in E4; [|apply keeps_psize; by destruct relay].
  destruct (take_orphan_children_spec _ _ _ _ Et) as (_ & Hsz & _).
  apply (children_ext self1 self2
    (fun x => (ob_peer_addr x, serialize_block_for_peer (ob_block x) (ob_peer_version x), ob_peer_version x)) (psize n)); [done|].
  rewrite <- E4 in *. change (psize (with_chain (fun _ => c) n)) with (psize n) in E2. unfold psize in *. cbn. lia.
Qed.

Lemma within_small fuel clk : adds_one (handle_block_within fuel clk).
Proof. induction fuel as [|fuel IH]; intros p b v n; [cbn; lia|]. apply body_small. intros ? ? ? ? _. apply IH. Qed.

(** More fuel than orphans makes no difference. *)
Lemma within_enough fuel1 : forall fuel2 clk p b v n, (psize n < fuel1)%nat -> (psize n < fuel2)%nat ->
  handle_block_within fuel1 clk p b v n = handle_block_within fuel2 clk p b v n.
Proof.
  induction fuel1 as [|fuel1 IH]; intros [|fuel2] clk p b v n H1 H2; [lia..|]. apply body_ext. intros p' b' v' n' Hn'. split.
  - apply IH; lia.
  - apply within_small.
Qed.

Lemma handle_block_eq clk p b v n :
  handle_block clk p b v n = handle_block_body (handle_block clk) clk p b v n.
Proof.
  unfold handle_block at 1. cbn [handle_block_within]. apply body_ext. intros p' b' v' n' Hn'. split; [|apply within_small].
  apply within_enough; unfold psize, pool_size in *; lia.
Qed.

(** The source's recursion cut off at depth [k]: the calls at that depth go to [deep]. *)
Fixpoint nested (clk : Clock) (deep : handler) (k : nat) : handler :=
  match k with O => deep | S k => handle_block_body (nested clk deep k) clk end.

(** Cut off above the number of orphans, the recursion computes what [handle_block] does. *)
Lemma nested_enough clk deep k : forall p b v n, (psize n < k)%nat -> nested clk deep k p b v n = handle_block clk p b v n.
Proof.
  induction k as [|k IH]; intros p b v n Hk; [lia|]. rewrite handle_block_eq. symmetry. apply body_ext.
  intros p' b' v' n' Hn'. split; [symmetry; apply IH; lia|apply within_small].
Qed.

(** C10: [handle_block] terminates, and the nesting of its calls is bounded by the number of
    orphans in the pool, although every one of these calls may queue a block again. First, it
    satisfies the recursive equation of the source: the handler runs its body, and the calls for
    the orphans that waited for the accepted block are calls of [handle_block] itself, on the node as
    the earlier calls left it. Second, calls nested deeper than the number of orphans
    the node has when the block arrives are never made: whatever is put in their place, be
    it a handler that panics, one that changes the node or any other, the result and the node
    are the same. Third, the equation has no other solution: a handler that satisfies it
    is [handle_block] on every node and every message. *)
Theorem handle_block_terminates clk p b v n :
  handle_block clk p b v n = handle_block_body (handle_block clk) clk p b v n /\
  (forall deep, nested clk deep (S (size (orphan_blocks (orphans n)))) p b v n = handle_block clk p b v n) /\
  (forall f : handler, (forall p b v n, f p b v n = handle_block_body f clk p b v n) -> f p b v n = handle_block clk p b v n).
Proof.
  split; [apply handle_block_eq|]. split; [intros deep; apply nested_enough; unfold psize, pool_size; lia|]. intros f Hf.
  remember (psize n) as m eqn:Em. revert p b v n Em. induction m as [m IH] using lt_wf_ind. intros p b v n ->.
  rewrite Hf, handle_block_eq. symmetry. apply body_ext. intros p' b' v' n' Hn'. split; [symmetry; by eapply IH|apply within_small].
Qed.
End handlers.
