(* ===== verification/NodeStore.v ===== *)
(** * The node, its events and the store

    The handlers of [Node] against the store of [Store]: whatever messages arrive, the events
    the node emits let the bridge of the daemon keep the store in step with the chain. *)

From stdpp Require Import base list gmap sorting strings.
From Stdlib Require Import ZArith Lia.
From S2P Require Import Prelude Script Crypto Engine Standard Merkle Codec Block Address Consensus.
From S2P Require Import Deployments Governance Ledger Supply History Chain Mirror Replay Progress Genesis Acceptance.
From S2P Require Import Mempool Wire Compact Peers Proofs Events Store Restart Node NodeFacts.

(** ** Handlers that do not touch the chain *)

(** An event the bridge does not write. *)
Definition unwritten (e : NodeEvent) : Prop :=
  match e with NewBlock _ _ _ _ _ _ _ _ _ | Reorganized _ _ _ _ _ => False | _ => True end.

(** The chain and the orphans stay, and nothing that is written is emitted. *)
Record quiet (n n' : Node) : Prop := {
  qu_chain : chain n' = chain n;
  qu_orphans : orphans n' = orphans n;
  qu_events : exists es, events n' = events n ++ es /\ Forall unwritten es;
}.

#[export] Instance quiet_refl : Reflexive quiet.
Proof. intros n. split; [done..|]. exists []. by rewrite app_nil_r. Qed.
#[export] Instance quiet_trans : Transitive quiet.
Proof.
  intros n1 n2 n3 [A1 A2 (es1 & A3 & A4)] [B1 B2 (es2 & B3 & B4)]. split; [congruence..|].
  exists (es1 ++ es2). rewrite B3, A3, app_assoc. split; [done|]. by apply Forall_app.
Qed.

Lemma keeps_quiet {A} (m : st Node NodeError A) :
  keeps chain m -> keeps orphans m -> keeps events m -> forall n, quiet n (m n).1.
Proof. intros H1 H2 H3 n. split; [done..|]. exists []. by rewrite H3, app_nil_r. Qed.

Section quiet.
Context {C : Crypto} {B : Bincode} {H : Hex} {N : Snapshot} {K : KeyOrder} {MO : MapOrder}.
Context {JB : Json Block} {JT : Json Transaction} {BB : BincodeOf Block} {BT : BincodeOf Transaction} {BH : BincodeOf BlockHeader}.
Context {JI : Json InvMsg} {BI : BincodeOf InvMsg} {JD : Json GetDataMsg} {BD : BincodeOf GetDataMsg}.
Context {JK : Json GetBlocksMsg} {BK : BincodeOf GetBlocksMsg} {JG : Json GetHeadersMsg} {BG : BincodeOf GetHeadersMsg}.
Context {JS : Json HeadersMsg} {BS : BincodeOf HeadersMsg} {JP : Json GetProofMsg} {BP : BincodeOf GetProofMsg}.
Context {JC : Json CmpctBlockMsg} {JQ : Json GetBlockTxnMsg} {JR : Json BlockTxnMsg}.
Context {JN : Json PingMsg} {BN : BincodeOf PingMsg} {JM : Json SendCmpctMsg} {JF : Json FeeFilterMsg}.
Import Handler.

(** The part of the node the quiet handlers leave alone. *)
Definition core (n : Node) : Chain * Orphans * list NodeEvent := (chain n, orphans n, events n).

Lemma core_apart : apart_from_relay core.
Proof. done. Qed.
#[local] Hint Resolve core_apart keeps_misbehaved keeps_send : keeps.

Lemma core_quiet {A} (m : st Node NodeError A) n : keeps core m -> quiet n (m n).1.
Proof. intros Hm. specialize (Hm n). unfold core in Hm. injection Hm as E1 E2 E3. split; [done..|]. exists []. by rewrite E3, app_nil_r. Qed.

(** Commands that neither bring a block nor a transaction, and the node's own request for blocks. *)
Inductive request (clk : Clock) (addr : SocketAddr) (payload : bytes) (v : Z) : st Node NodeError unit -> Prop :=
  | req_inv : request clk addr payload v (handle_inv clk addr payload v)
  | req_getblocks : request clk addr payload v (handle_getblocks clk addr payload v)
  | req_getheaders : request clk addr payload v (handle_getheaders clk addr payload v)
  | req_headers : request clk addr payload v (handle_headers clk addr payload v)
  | req_getdata : request clk addr payload v (handle_getdata clk addr payload v)
  | req_getblocktxn : request clk addr payload v (handle_getblocktxn addr payload v)
  | req_notfound : request clk addr payload v (handle_notfound addr payload v)
  | req_sendcmpct : request clk addr payload v (handle_sendcmpct addr payload)
  | req_ping : request clk addr payload v (handle_ping addr payload v)
  | req_pong : request clk addr payload v (handle_pong addr payload v)
  | req_feefilter : request clk addr payload v (handle_feefilter addr payload)
  | req_sync : request clk addr payload v request_blocks_from_peers.

Lemma keeps_serve_items addr v items : forall served, keeps core (serve_items addr v items served).
Proof. induction items as [|i items IH]; intros served; cbn [serve_items]; keeps_tac. Qed.
#[local] Hint Resolve keeps_serve_items : keeps.

Lemma request_keeps clk addr payload v m : request clk addr payload v m -> keeps core m.
Proof.
  destruct 1; unfold handle_inv, handle_getblocks, handle_getheaders, handle_headers, handle_getdata, handle_getblocktxn,
    handle_notfound, handle_sendcmpct, handle_ping, handle_pong, handle_feefilter, request_blocks_from_peers; keeps_tac.
Qed.

(** A transaction only reaches the mempool. *)
Lemma handle_tx_quiet clk addr payload v n : quiet n (handle_tx clk addr payload v n).1.
Proof.
  unfold handle_tx. destruct (deserialize_tx payload) as [tx|e|]; [|by apply core_quiet, keeps_misbehaved|done].
  unfold sbind. destruct (admit_with_chain_fee _ _ _ _) as [p r]. cbn. set (n1 := with_mempool _ n).
  assert (quiet n n1) as Hq by (split; [done..|]; exists []; by rewrite app_nil_r).
  destruct r as [fee|e|]; cbn.
  - split; [done..|]. cbn. exists [TxUnconfirmed (txid tx) fee (serialized_size tx)]. by repeat constructor.
  - etrans; [exact Hq|]. destruct e; by apply core_quiet; keeps_tac.
  - done.
Qed.

Lemma keepalive_quiet nonces n : quiet n (send_keepalive_pings nonces n).
Proof.
  enough (core (send_keepalive_pings nonces n) = core n) as E.
  { unfold core in E. injection E as E1 E2 E3. split; [done..|]. exists []. by rewrite E3, app_nil_r. }
  unfold send_keepalive_pings. set (peers := connected_peers _). clearbody peers.
  assert (forall acc, core (foldl (fun '(n, stale) addr =>
      if bool_decide (is_Some (peer_ping_nonces (tables n) !! addr)) then (n, stale ++ [addr])
      else (ping_peer (nonces addr) addr n, stale)) acc peers).1 = core acc.1) as Hf.
  { induction peers as [|a peers IH]; intros [n' stale]; [done|]. cbn [foldl]. rewrite IH. by case_match. }
  specialize (Hf (n, [])). destruct (foldl _ _ _) as [n1 stale]. cbn in Hf. rewrite <- Hf. clear.
  revert n1. induction stale as [|a stale IH]; intros n1; [done|]. cbn [foldl]. by rewrite IH.
Qed.
End quiet.

(** ** Blocks *)

Section daemon.
Context {C : Crypto} {B : Bincode} {H : Hex} {K : KeyOrder} {D : HexDecode} {MO : MapOrder} {ML : MapOrderLaws MO}.
Context {JB : Json Block} {JU : Json Utxo} {JT : Json Transaction} {BB : BincodeOf Block} {BT : BincodeOf Transaction} {BH : BincodeOf BlockHeader}.
Context {JI : Json InvMsg} {BI : BincodeOf InvMsg} {JD : Json GetDataMsg} {BD : BincodeOf GetDataMsg}.
Context {JK : Json GetBlocksMsg} {BK : BincodeOf GetBlocksMsg} {JG : Json GetHeadersMsg} {BG : BincodeOf GetHeadersMsg}.
Context {JS : Json HeadersMsg} {BS : BincodeOf HeadersMsg} {JP : Json GetProofMsg} {BP : BincodeOf GetProofMsg}.
Context {JC : Json CmpctBlockMsg} {JQ : Json GetBlockTxnMsg} {JR : Json BlockTxnMsg}.
Context {JN : Json PingMsg} {BN : BincodeOf PingMsg} {JM : Json SendCmpctMsg} {JF : Json FeeFilterMsg}.
Context {CL : CryptoLaws C} {HL : HexLaws H} {JBL : JsonLaws Block JB} {JUL : JsonLaws Utxo JU}.
Context (legacy : list (bytes * Z)) (U : Transaction -> Prop) (g : Block) (c0 : Chain) (s0 : BlockStore).
#[local] Hint Extern 0 Snapshot => exact (N legacy) : typeclass_instances.
Context (ST : setting legacy U g c0) (HO : Store.open_with_cache g empty_store = (s0, Ok tt)).
Import Handler.

(** A block whose transactions are machine values and whose identifiers are their own. *)
Definition good (b : Block) : Prop := typed_txs (transactions b) /\ forall x, x ∈ transactions b -> U x.

(** A block the node wrote for a peer is read as that block or not at all. *)
Context (reencoded : forall b v b', deserialize_block (serialize_block_for_peer b v) = Ok b' -> b' = b).

Definition good_orphans (n : Node) : Prop := forall h x, orphan_blocks (orphans n) !! h = Some x -> good (ob_block x).

(** Since [ev] was emitted and [s] was the store, what was emitted brings the store in step. *)
Definition in_step (ev : list NodeEvent) (s : BlockStore) (n : Node) : Prop :=
  good_orphans n /\ exists es s', events n = ev ++ es /\ Store.persist_events es s = (s', Ok tt) /\ operates legacy U c0 s0 (chain n) s'.

Lemma in_step_quiet ev s n n' : quiet n n' -> in_step ev s n -> in_step ev s n'.
Proof.
  intros [Q1 Q2 (es' & Q3 & Q4)] [Ho (es & s' & E1 & E2 & E3)]. split; [unfold good_orphans; by rewrite Q2|].
  exists (es ++ es'), s'. rewrite Q3, E1, <- app_assoc, Q1. split_and!; [done| |done].
  unfold Store.persist_events in *. rewrite sfor_app. unfold sbind. rewrite E2. clear -Q4.
  induction Q4 as [|e es He _ IH]; [done|]. cbn [sfor]. unfold sbind at 1. destruct e; done || exact IH.
Qed.

Lemma handle_reorg_no_error now c txs m e : (handle_reorg now c txs m).2 <> Err e.
Proof.
  unfold handle_reorg, sbind, sget, slift, smod. cbn.
  destruct (rfold _ _ _) as [ids|e'|] eqn:Er.
  - cbn. generalize (remove_all ids m). clear. induction txs as [|tx txs IH]; intros m; cbn [sfor]; [done|].
    unfold sbind, readmit at 1. destruct (admit_with_chain_fee _ _ _ _) as [m' [x|e'|]]; [apply IH..|done].
  - exfalso. enough (forall l acc, rfold (fun ids '(id, e) => let* bad := invalid_on c e in Ok (if bad then ids ++ [id] else ids)) acc l <> Err e')
      as Hr by by apply Hr in Er.
    clear Er. induction l as [|[id x] l IH]; intros acc; [done|]. cbn.
    destruct (invalid_on c x) as [bad|e1|] eqn:Ei; cbn; [apply IH| |done]. revert Ei. unfold invalid_on. repeat case_match; done.
  - done.
Qed.

Lemma update_mempool_no_error clk block r n e : (update_mempool clk block r n).2 <> Err e.
Proof.
  destruct r as [[h added removed claims|o t d txs rbs fs|t|]|e'|]; try done. change (update_mempool clk block _ n) with
    (in_mempool (handle_reorg (unix clk) (chain n) txs) n). unfold in_mempool.
  pose proof (handle_reorg_no_error (unix clk) (chain n) txs (mempool n) e) as Hr. by destruct (handle_reorg _ _ _ _).
Qed.

(** The block is put on the chain and its events are emitted, or the node stops in between. *)
Lemma accept_in_step clk p v block n c ev s :
  in_step ev s n -> good block -> forall r, add_block (unix clk) block (chain n) = (c, r) ->
  soc (do* _ := update_mempool clk block r in
       match r with
       | Ok a => announce clk p v block a
       | Err _ => sret false
       | Panic => slift Panic
       end) (fun _ => in_step ev s) (fun _ => in_step ev s) (with_chain (fun _ => c) n).
Proof.
  intros [Ho (es & s' & E1 & E2 & E3)] [G1 G2] r Ea. set (n1 := with_chain _ n).
  assert (keeps core (update_mempool clk block r)) as Hk by apply keeps_update_mempool, core_apart. specialize (Hk n1).
  unfold soc, sbind. destruct (update_mempool clk block r n1) as [n2 r2] eqn:Eu. unfold core in Hk. injection Hk as K1 K2 K3.
  assert (forall e, r2 <> Err e) as Hne.
  { intros e ->. apply (update_mempool_no_error clk block r n1 e). by rewrite Eu. }
  destruct r2 as [[]|e|]; [|by destruct (Hne e)|done].
  assert (forall n', events n' = events n2 -> chain n' = c -> orphans n' = orphans n2 -> operates legacy U c0 s0 c s' -> in_step ev s n') as Hsame.
  { intros n' V1 V2 V3 V4. split; [unfold good_orphans; by rewrite V3, K2|]. exists es, s'. by rewrite V1, K3, V2. }
  destruct r as [a|e|]; [| |done].
  - pose proof (announce_emits clk p v block a n2) as Hr. unfold runs in Hr.
    pose proof (keeps_announce chain chain_apart clk p v block a ltac:(done) n2) as Kc.
    pose proof (keeps_announce orphans orphans_apart clk p v block a ltac:(done) n2) as Ko.
    destruct (announce clk p v block a n2) as [n3 [relay|e|]]; [|done..]. cbn in Kc, Ko. destruct Hr as [Hev _].
    split; [unfold good_orphans; by rewrite Ko, K2|].
    destruct (operates_persists legacy U g c0 s0 ST HO _ _ _ _ _ _ E3 G1 G2 Ea) as (s'' & Ep & Hop).
    exists (es ++ block_events block a), s''. split_and!; [by rewrite Hev, K3, app_assoc; cbn; rewrite E1| |by rewrite Kc, K1].
    unfold Store.persist_events in *. rewrite sfor_app. unfold sbind. by rewrite E2.
  - cbn. apply Hsame; [done..|]. by eapply operates_refused.
Qed.

Lemma soc_for {A} (I : Node -> Prop) (f : A -> st Node NodeError unit) l : forall n,
  (forall a n, a ∈ l -> I n -> soc (f a) (fun _ => I) (fun _ => I) n) -> I n -> soc (sfor f l) (fun _ => I) (fun _ => I) n.
Proof.
  induction l as [|a l IH]; intros n Hf Hn; [done|]. apply soc_bind. eapply soc_mono; [apply Hf; [left|done]| |done].
  intros [] n' Hn'. apply IH; [|done]. intros b n1 Hb. apply Hf. by right.
Qed.

Lemma queue_good block p v sz n ev s : good block -> in_step ev s n ->
  in_step ev s (with_orphans (fun o => (queue_orphan block p v sz o).1) n).
Proof.
  intros Hg [Ho He]. split; [|done]. intros h x. cbn. unfold queue_orphan. case_match; [apply Ho|]. cbn.
  assert (forall order o, orphan_blocks (evict_orphans order sz o) ⊆ orphan_blocks o) as Hsub.
  { clear. induction order as [|h order IH]; intros o; cbn [evict_orphans]; case_match; try done.
    etrans; [apply IH|]. destruct (orphan_blocks o !! h); [apply delete_subseteq|done]. }
  destruct (decide (h = block_hash block)) as [->|Hne].
  - rewrite lookup_insert_eq. by intros [= <-].
  - rewrite lookup_insert_ne by done. intros Hx. eapply Ho, lookup_weaken; [exact Hx|apply Hsub].
Qed.

Definition good_payload (payload : bytes) : Prop := forall b, deserialize_block payload = Ok b -> good b.

Lemma body_in_step ev s (self : handler) clk p payload v n :
  (forall p b v n, in_step ev s n -> good_payload b -> soc (self p b v) (fun _ => in_step ev s) (fun _ => in_step ev s) n) ->
  in_step ev s n -> good_payload payload ->
  soc (handle_block_body self clk p payload v) (fun _ => in_step ev s) (fun _ => in_step ev s) n.
Proof.
  intros Hs Hn Hp.
  assert (forall A (m : st Node NodeError A) n, keeps core m -> in_step ev s n -> soc m (fun _ => in_step ev s) (fun _ => in_step ev s) n) as Hq.
  { intros A m n1 Hm Hn1. pose proof (core_quiet m n1 Hm) as Q. unfold soc. destruct (m n1) as [n2 [a|e|]]; [..|done]; by eapply in_step_quiet. }
  unfold handle_block_body. destruct (deserialize_block payload) as [block|e|] eqn:Ed; [|apply Hq; [apply keeps_misbehaved, core_apart|done]|done].
  specialize (Hp block Ed). apply soc_bind, soc_get. apply soc_if; intros _.
  { apply soc_bind, soc_mod. apply Hq; [apply keeps_send, core_apart|]. by apply queue_good. }
  apply soc_bind. unfold soc at 1. destruct (add_block (unix clk) block (chain n)) as [c r] eqn:Ea.
  pose proof (accept_in_step clk p v block n c ev s Hn Hp r Ea) as Hacc. revert Hacc. unfold soc, sbind.
  destruct (update_mempool clk block r _) as [n2 [[]|e|]]; [|done..]. destruct r as [a|e|]; [| |done].
  - destruct (announce clk p v block a n2) as [n3 [relay|e|]]; [|done..]. intros H3.
    match goal with |- context [(if relay then ?m1 else ?m2) n3] =>
      assert (exists n4, (if relay then m1 else m2) n3 = (n4, Ok tt) /\ quiet n3 n4) as (n4 & -> & Q) end.
    { destruct relay; eexists; (split; [reflexivity|]); [|done]. by apply (core_quiet (smod (with_manager _)) n3). }
    pose proof (in_step_quiet _ _ _ _ Q H3) as H4. destruct (take_orphan_children (block_hash block) (orphans n4)) as [o l] eqn:Et.
    destruct (take_orphan_children_spec _ _ _ _ Et) as (_ & _ & To & Tl). destruct H4 as [Ho He].
    apply soc_for.
    + intros x n5 Hx Hn5. apply Hs; [done|]. intros b Eb%reencoded. subst b. apply Tl in Hx as (h & Hh & _). by eapply Ho.
    + split; [|done]. intros h x [Hx _]%To. by eapply Ho.
  - intros H3. apply (in_step_quiet ev s n2); [|done]. by apply (core_quiet (smod (with_manager _))).
Qed.

Lemma within_in_step ev s fuel clk : forall p payload v n, in_step ev s n -> good_payload payload ->
  soc (handle_block_within fuel clk p payload v) (fun _ => in_step ev s) (fun _ => in_step ev s) n.
Proof. induction fuel as [|fuel IH]; intros p payload v n Hn Hp; [done|]. by apply body_in_step. Qed.

(** ** The messages *)

(** A message that reaches the node in the state [n], as its handler. The blocks it carries,
    whole or in compact form, are good ones. The handlers of the address book, of stake proofs and
    of exchange orders ([addr], [getaddr], [getproof], [proof], [dexorder]) are left out. *)
Inductive message_in (n : Node) : st Node NodeError unit -> Prop :=
  | in_block clk addr payload v : good_payload payload -> message_in n (handle_block clk addr payload v)
  | in_tx clk addr payload v : message_in n (handle_tx clk addr payload v)
  | in_cmpctblock clk addr payload :
      (forall cmpct l txs, from_slice payload = Some cmpct -> decode_compact cmpct (short_id_pool cmpct (mempool n)) = Ok l ->
         read_txs l = Some txs -> good (reconstruct_compact_block cmpct txs)) ->
      message_in n (handle_cmpctblock clk addr payload)
  | in_blocktxn clk addr payload :
      (forall resp pending requested l txs, from_slice payload = Some resp ->
         pending_compact_blocks n !! bt_block_hash resp = Some pending ->
         decode_with_received pending (short_id_pool pending (mempool n)) (positional requested (bt_transactions resp)) = Ok l ->
         read_txs l = Some txs -> good (reconstruct_compact_block pending txs)) ->
      message_in n (handle_blocktxn clk addr payload)
  | in_request clk addr payload v m : request clk addr payload v m -> message_in n m
  | in_keepalive nonces : message_in n (fun n => (send_keepalive_pings nonces n, Ok tt)).

(** The node with the bridge behind it: after each message the new events are written. *)
Inductive daemon : Node -> BlockStore -> Prop :=
  | daemon_start n : chain n = c0 -> orphan_blocks (orphans n) = ∅ -> daemon n s0
  | daemon_message n n' s s' m r r' es :
      daemon n s -> message_in n m -> m n = (n', r) -> r <> Panic ->
      events n' = events n ++ es -> Store.persist_events es s = (s', r') -> daemon n' s'.

Lemma accept_compact_in_step ev s clk addr cmpct l n : in_step ev s n ->
  (forall txs, read_txs l = Some txs -> good (reconstruct_compact_block cmpct txs)) ->
  soc (accept_compact clk addr cmpct l) (fun _ => in_step ev s) (fun _ => in_step ev s) n.
Proof.
  intros Hn Hg. unfold accept_compact. destruct (read_txs l) as [txs|] eqn:Et; [|done]. cbn. apply soc_bind, soc_get.
  apply within_in_step; [done|]. intros b ->%reencoded. by apply Hg.
Qed.

Lemma message_in_step ev s n m : in_step ev s n -> message_in n m -> soc m (fun _ => in_step ev s) (fun _ => in_step ev s) n.
Proof.
  assert (forall A (m : st Node NodeError A) n, quiet n (m n).1 -> in_step ev s n -> soc m (fun _ => in_step ev s) (fun _ => in_step ev s) n) as Hq.
  { intros A m1 n1 Q Hn1. unfold soc. destruct (m1 n1) as [n2 [a|e|]]; [..|done]; by eapply in_step_quiet. }
  intros Hn [clk addr payload v Hp|clk addr payload v|clk addr payload Hg|clk addr payload Hg|clk addr payload v m' Hr|nonces].
  - by apply within_in_step.
  - apply Hq; [apply handle_tx_quiet|done].
  - unfold handle_cmpctblock. destruct (from_slice payload) as [cmpct|] eqn:Ef; [|done]. apply soc_bind, soc_get.
    destruct (decode_compact cmpct _) as [l|[missing| | |]|] eqn:Ed.
    + apply accept_compact_in_step; [done|]. intros txs. by apply (Hg cmpct l txs).
    + apply Hq; [|done]. apply core_quiet. apply keeps_bind; [apply keeps_send, core_apart|intros _; by apply keeps_mod].
    + done.
    + apply Hq; [|done]. apply core_quiet, keeps_misbehaved, core_apart.
    + apply Hq; [|done]. apply core_quiet, keeps_misbehaved, core_apart.
    + done.
  - unfold handle_blocktxn. destruct (from_slice payload) as [resp|] eqn:Ef; [|done]. apply soc_bind, soc_get.
    destruct (pending_compact_blocks n !! bt_block_hash resp) as [pending|] eqn:Epd; [|done].
    apply soc_bind, soc_mod. apply soc_bind, soc_get. assert (in_step ev s (with_pending (delete (bt_block_hash resp)) n)) as Hn' by done.
    destruct (decode_with_received _ _ ∅) as [|[requested| | |]|]; try done.
    destruct (decode_with_received _ _ (positional _ _)) as [l|e|] eqn:Ed; [|done..]. apply accept_compact_in_step; [done|].
    intros txs. by apply (Hg resp pending requested l txs).
  - apply Hq; [|done]. apply core_quiet. by eapply request_keeps.
  - apply Hq; [|done]. apply keepalive_quiet.
Qed.

Lemma daemon_in_step n s : daemon n s -> in_step (events n) s n.
Proof.
  induction 1 as [n Ec Eo|n n' s s' m r r' es _ IH Hm E Hr Ee Ep].
  - split; [intros h x; by rewrite Eo, lookup_empty|]. exists [], s0. rewrite app_nil_r, Ec. split_and!; [done..|constructor].
  - pose proof (message_in_step _ _ _ _ IH Hm) as Hs. unfold soc in Hs. rewrite E in Hs.
    assert (in_step (events n) s n') as [Ho (es' & s1 & E1 & E2 & E3)] by by destruct r. split; [done|].
    assert (es' = es) as -> by (eapply app_inv_head; by rewrite <- E1, Ee). rewrite Ep in E2. injection E2 as -> ->.
    exists [], s1. by rewrite app_nil_r.
Qed.

(** The bridge can always follow. *)
Lemma daemon_next n n' s m r : daemon n s -> message_in n m -> m n = (n', r) -> r <> Panic -> exists s', daemon n' s'.
Proof.
  intros Hd Hm E Hr. pose proof (message_in_step _ _ _ _ (daemon_in_step _ _ Hd) Hm) as Hs. unfold soc in Hs. rewrite E in Hs.
  assert (in_step (events n) s n') as [_ (es & s' & E1 & E2 & _)] by by destruct r. exists s'. by eapply daemon_message.
Qed.

(** C8: the node and its store stay in step. Starting from the genesis chain, a new store and an
    empty orphan pool, after any sequence of calls of these handlers, in any order and from any
    peers: [block], [cmpctblock] and [blocktxn] (with blocks that are accepted, refused or
    kept as orphans and accepted later), [tx], [inv], [getblocks], [getheaders], [headers],
    [getdata], [getblocktxn], [notfound], [sendcmpct], [ping], [pong] and [feefilter], the
    node's own requests for blocks and its keepalive pings, the events the node emitted, written one
    after the other by the bridge of the daemon, have made the store mirror the active branch. The
    blocks carry transactions that are told apart by their ids, and no handler panicked. The
    commands [addr], [getaddr], [getproof], [proof] and [dexorder] are not among the messages. *)
Theorem node_keeps_store_in_step n s :
  daemon n s ->
  exists bs, height_index (main (chain n)) = map block_hash bs /\ mirrors (view_of bs (state (main (chain n)))) s.
Proof.
  intros [_ (es & s' & E1 & E2 & E3)]%daemon_in_step. assert (es = []) as -> by (apply (app_inv_head (events n)); by rewrite app_nil_r).
  injection E2 as <-. destruct (operates_sound legacy U g c0 s0 ST HO _ _ E3) as (bs & [_ [M1 _ _ _ _ _ _] _] & _ & M). by exists bs.
Qed.
End daemon.
