(* ===== verification/Sync.v ===== *)
(** * Catching up with a peer

    A node that receives the blocks of a branch in any order ends on that branch: the orphan
    pool of [Node] puts them in order, and the chain of [Chain] accepts each one as the peer
    did. *)

From stdpp Require Import base list gmap sorting strings.
From Stdlib Require Import ZArith Lia.
From S2P Require Import Prelude Script Crypto Engine Standard Merkle Codec Block Address Consensus.
From S2P Require Import Deployments Governance Ledger Supply History Chain Mirror Replay Progress Genesis Acceptance.
From S2P Require Import Mempool Wire Compact Peers Proofs Events Store Restart Branches Heal Node NodeFacts.

Section sync.
Context {C : Crypto} {B : Bincode} {H : Hex} {N : Snapshot} {SL : SnapshotLaws N} {K : KeyOrder} {MO : MapOrder} {ML : MapOrderLaws MO}.
Context {JB : Json Block} {JT : Json Transaction} {BB : BincodeOf Block} {BT : BincodeOf Transaction} {BH : BincodeOf BlockHeader}.
Context {JI : Json InvMsg} {BI : BincodeOf InvMsg} {JD : Json GetDataMsg} {BD : BincodeOf GetDataMsg}.
Context {JP : Json GetProofMsg} {BP : BincodeOf GetProofMsg}.
Context (U : Transaction -> Prop) (HU : txids_distinct U) (g : Block) (l0 : Ledger).
Context (G1 : tracked 1 (transactions g) l0) (G2 : ledger_inv l0) (G3 : forall x, x ∈ transactions g -> U x).
Import Handler.

(** The branch [full] of the peers, the rules of the node, and who delivers which block. *)
Context (f f' : Config) (full : list Block) (l : Ledger) (js : list BlockJournal).
Context (clk : Clock) (addr : Block -> SocketAddr) (ver : Block -> Z) (k0 : nat).

Definition wire_block (b : Block) : bytes := serialize_block_for_peer b (ver b).
Definition deliver (b : Block) : st Node NodeError unit := handle_block clk (addr b) (wire_block b) (ver b).
Definition orphan_of (b : Block) : OrphanBlock := mkOrphan b (addr b) (ver b) (zlen (wire_block b)).

Context (Hh : history U g l0 f full l js) (Hap : apart full) (R : same_rules f f').
Context (Hot : Forall (on_time (unix clk)) (tail full)) (Hd : 1 <= max_reorg_depth f').
Context (Hde : forall b, b ∈ full -> deserialize_block (wire_block b) = Ok b).
Context (Hcount : zlen (drop (S k0) full) <= MAX_ORPHAN_BLOCKS).
Context (Hbytes : zsum (map (fun b => zlen (wire_block b)) (drop (S k0) full)) <= MAX_ORPHAN_BYTES).

(** The node follows the branch up to block [k] and keeps the blocks [W] of it that came too
    early. *)
Record following (k : nat) (W : gset nat) (n : Node) : Prop := {
  fo_start : (k0 <= k < length full)%nat;
  fo_loaded : exists lk jk, history U g l0 f (take (S k) full) lk jk /\ loaded U g l0 f' (take (S k) full) lk (chain n);
  fo_tip : forall b, full !! k = Some b -> get_block (chain n) (block_hash b) = Some b;
  fo_early : forall j, j ∈ W -> (S k < j < length full)%nat;
  fo_wf : orphans_wf (orphans n);
  fo_pool : forall h x, orphan_blocks (orphans n) !! h = Some x <->
    exists j b, j ∈ W /\ full !! j = Some b /\ h = block_hash b /\ x = orphan_of b;
}.

(** The blocks the node has, on the chain or waiting. *)
Definition has (k : nat) (W : gset nat) (j : nat) : Prop := (j <= k)%nat \/ j ∈ W.

Lemma hash_inj i j b b' : full !! i = Some b -> full !! j = Some b' -> block_hash b = block_hash b' -> i = j.
Proof.
  intros Hi Hj E. destruct Hap as [Hnd _]. rewrite NoDup_alt in Hnd. apply (Hnd i j (block_hash b)); rewrite list_lookup_fmap.
  - by rewrite Hi.
  - by rewrite Hj, E.
Qed.

Lemma link_inj i j b b' : full !! i = Some b -> full !! S j = Some b' -> prev_block_hash (header b') = block_hash b <-> i = j.
Proof.
  intros Hi Hj. destruct (lookup_lt_is_Some_2 full j) as [p Hp]; [apply lookup_lt_Some in Hj; lia|].
  rewrite (history_link U g l0 f full l js j p b' Hh Hp Hj). split; [|intros ->; congruence].
  intros E. symmetry. by eapply hash_inj.
Qed.

(** A block beyond the tip is not known. *)
Lemma beyond_unknown k W n j b : following k W n -> full !! j = Some b -> (k < j)%nat -> get_block (chain n) (block_hash b) = None.
Proof.
  intros F Hj Hlt. destruct (fo_loaded _ _ _ F) as (lk & jk & _ & Hl).
  assert (block_heights (known (chain n)) !! block_hash b = None) as Hn.
  { apply eq_None_not_Some. intros Hx%(ld_known _ _ _ _ _ _ _ Hl). apply list_elem_of_fmap in Hx as (b' & E & Hx).
    apply list_elem_of_lookup in Hx as [i Hi]. apply lookup_take_Some in Hi as [Hi Hlt'].
    assert (i = j); [by eapply hash_inj|lia]. }
  apply (ko_dom _ _ _ (co_known _ _ _ _ _ (ld_ok _ _ _ _ _ _ _ Hl)) _ Hn).
Qed.

(** There is room in the pool for the blocks still to come. *)
Lemma room k W n j b : following k W n -> full !! j = Some b -> (S k < j)%nat -> j ∉ W ->
  Z.of_nat (pool_size (orphans n)) < MAX_ORPHAN_BLOCKS /\ orphan_bytes (orphans n) + zlen (wire_block b) <= MAX_ORPHAN_BYTES.
Proof.
  intros F Hj Hlt HW. set (m := orphan_blocks (orphans n)). set (ws := map (fun e => ob_block e.2) (map_to_list m)).
  assert (Hin : forall h x, (h, x) ∈ map_to_list m -> exists i b', i ∈ W /\ full !! i = Some b' /\ h = block_hash b' /\ x = orphan_of b').
  { intros h x Hx%elem_of_map_to_list. by apply (fo_pool _ _ _ F). }
  assert (Hhash : map block_hash ws = (map_to_list m).*1).
  { unfold ws. rewrite map_map. apply list_fmap_ext. intros i [h x] Hi. apply list_elem_of_lookup_2 in Hi.
    by destruct (Hin h x Hi) as (? & b' & _ & _ & -> & ->). }
  assert (Hnd : NoDup (b :: ws)).
  { constructor.
    - intros Hb. unfold ws in Hb. apply list_elem_of_fmap in Hb as ([h x] & -> & Hx). destruct (Hin h x Hx) as (i & b' & Hi & Hb' & _ & ->).
      cbn in *. assert (i = j) as -> by by eapply hash_inj. done.
    - apply (NoDup_fmap_1 block_hash). change (NoDup (map block_hash ws)). rewrite Hhash. apply NoDup_fst_map_to_list. }
  assert (Hsub : b :: ws ⊆+ drop (S k0) full).
  { apply NoDup_submseteq; [done|]. pose proof (fo_start _ _ _ F). intros x [->|Hx]%elem_of_cons.
    - apply list_elem_of_lookup. exists (j - S k0)%nat. rewrite lookup_drop. rewrite <- Hj. f_equal. lia.
    - unfold ws in Hx. apply list_elem_of_fmap in Hx as ([h x'] & -> & Hx). destruct (Hin h x' Hx) as (i & b' & Hi & Hb' & _ & ->).
      apply (fo_early _ _ _ F) in Hi. apply list_elem_of_lookup. exists (i - S k0)%nat. rewrite lookup_drop. cbn. rewrite <- Hb'. f_equal. lia. }
  split.
  - apply submseteq_length in Hsub. cbn in Hsub. unfold ws in Hsub. rewrite length_map, length_map_to_list in Hsub.
    unfold pool_size. fold m. unfold zlen in Hcount. lia.
  - rewrite (ow_bytes _ (fo_wf _ _ _ F)). fold m.
    assert (map_sum ob_size_bytes m = zsum (map (fun b => zlen (wire_block b)) ws)) as ->.
    { unfold map_sum, ws. rewrite map_map. f_equal. apply list_fmap_ext. intros i [h x] Hi. apply list_elem_of_lookup_2 in Hi.
      by destruct (Hin h x Hi) as (? & b' & _ & _ & -> & ->). }
    apply (fmap_submseteq (fun b => zlen (wire_block b))), zsum_submseteq in Hsub.
    + change (map ?g ?l) with (g <$> l) in *. rewrite fmap_cons, zsum_cons in Hsub. lia.
    + apply Forall_fmap, Forall_forall. intros x _. unfold compose, zlen. lia.
Qed.

Lemma evict_none order s o : Z.of_nat (pool_size o) < MAX_ORPHAN_BLOCKS -> orphan_bytes o + s <= MAX_ORPHAN_BYTES -> evict_orphans order s o = o.
Proof.
  intros H1 H2. unfold pool_size in H1. destruct order; cbn [evict_orphans]; (case_match eqn:E; [|done]); exfalso; revert E;
    rewrite (proj2 (Z.leb_gt _ _) H1), orb_false_l; intros E%Z.ltb_lt; unfold sat_add, MAX_ORPHAN_BYTES in *; lia.
Qed.

(** A block that comes too early waits. *)
Lemma early_block k W n j b : following k W n -> full !! j = Some b -> (S k < j)%nat -> j ∉ W ->
  exists n', deliver b n = (n', Ok tt) /\ following k ({[j]} ∪ W) n'.
Proof.
  intros F Hj Hlt HW. pose proof (room k W n j b F Hj Hlt HW) as [Hr1 Hr2]. pose proof (lookup_lt_Some _ _ _ Hj) as Hlen.
  destruct j as [|j]; [lia|]. destruct (lookup_lt_is_Some_2 full j) as [p Hp]; [lia|].
  unfold deliver. rewrite handle_block_eq. unfold handle_block_body. rewrite Hde by by eapply list_elem_of_lookup_2.
  unfold sbind at 1, sget. rewrite (history_link U g l0 f full l js j p b Hh Hp Hj).
  rewrite (beyond_unknown k W n (S j) b F Hj), (beyond_unknown k W n j p F Hp) by lia. cbn [bool_decide].
  assert (orphan_blocks (orphans n) !! block_hash b = None) as Hno.
  { apply eq_None_not_Some. intros [x Hx]. apply (fo_pool _ _ _ F) in Hx as (i & b' & Hi & Hb' & E & _).
    apply HW. assert (S j = i) as -> by by eapply hash_inj. done. }
  assert (0 <= zlen (wire_block b)) as Hz by (unfold zlen; lia).
  pose proof (orphan_bytes_nonneg _ (fo_wf _ _ _ F)) as Hob.
  set (o' := (queue_orphan b (addr b) (ver b) (zlen (wire_block b)) (orphans n)).1).
  assert (orphans_wf o') as Hwf.
  { apply queue_orphan_ok; [done|]. split; [apply F|lia|lia]. }
  assert (orphan_blocks o' = <[block_hash b := orphan_of b]> (orphan_blocks (orphans n))) as Eo.
  { unfold o', queue_orphan. rewrite Hno. cbn [bool_decide orb]. rewrite bool_decide_eq_false_2 by (by intros [? ?]).
    rewrite (proj2 (Z.ltb_ge _ _)) by lia. cbn [orb]. rewrite evict_none by lia. done. }
  eexists. split; [done|]. destruct F as [F1 F2 F3 F4 F5 F6]. split; [done|done|done| |exact Hwf|].
  - intros i [->%elem_of_singleton|Hi]%elem_of_union; [lia|auto].
  - change (orphans _) with o'. intros h x. rewrite Eo, lookup_insert_Some, F6. split.
    + intros [[<- <-]|(Hne & i & b' & Hi & Hx)]; [exists (S j), b|exists i, b'; destruct Hx as (? & ? & ?)]; (split; [|done]); rewrite elem_of_union, elem_of_singleton; auto.
    + intros (i & b' & Hi & Hb' & -> & ->). destruct (decide (i = S j)) as [->|Hne].
      * left. rewrite Hj in Hb'. by injection Hb' as <-.
      * right. split; [intros E; apply Hne; symmetry; by eapply hash_inj|]. exists i, b'. split; [|done].
        rewrite elem_of_union, elem_of_singleton in Hi. tauto.
Qed.

(** The orphan that waited for block [S k], if there is one. *)
Lemma waiting_child k W n b o cs : following k W n -> full !! S k = Some b ->
  take_orphan_children (block_hash b) (orphans n) = (o, cs) ->
  orphans_wf o /\
  (forall h x, orphan_blocks o !! h = Some x <->
     exists j b', j ∈ W ∖ {[S (S k)]} /\ full !! j = Some b' /\ h = block_hash b' /\ x = orphan_of b') /\
  cs = match full !! S (S k) with Some b' => if decide (S (S k) ∈ W) then [orphan_of b'] else [] | None => [] end.
Proof.
  intros F Hb Et. destruct (take_orphan_children_spec _ _ _ _ Et) as (Hwf & _ & Ho & Hcs).
  destruct (Hwf (fo_wf _ _ _ F)) as [Hwf' Hnd]. split; [done|].
  assert (Hc : forall j b', full !! j = Some b' -> j ∈ W -> child_of (block_hash b) (orphan_of b') <-> j = S (S k)).
  { intros [|j] b' Hj HW; [apply (fo_early _ _ _ F) in HW; lia|]. unfold child_of. cbn. rewrite (link_inj (S k) j b b' Hb Hj). lia. }
  split.
  - intros h x. rewrite Ho, (fo_pool _ _ _ F). split.
    + intros [(j & b' & Hj & Hb' & -> & ->) Hn]. exists j, b'. rewrite (Hc j b' Hb' Hj) in Hn. split; [|done]. apply elem_of_difference.
      by rewrite elem_of_singleton.
    + intros (j & b' & [Hj Hn]%elem_of_difference & Hb' & -> & ->). rewrite elem_of_singleton in Hn. split; [by exists j, b'|]. by rewrite (Hc j b' Hb' Hj).
  - assert (Hcs' : forall x, x ∈ cs <-> exists b', S (S k) ∈ W /\ full !! S (S k) = Some b' /\ x = orphan_of b').
    { intros x. rewrite Hcs. split.
      - intros (h & (j & b' & Hj & Hb' & -> & ->)%(fo_pool _ _ _ F) & Hx). apply (Hc j b' Hb' Hj) in Hx as ->. by exists b'.
      - intros (b' & HW & Hb' & ->). exists (block_hash b'). rewrite (fo_pool _ _ _ F), (Hc _ b' Hb' HW). split; [|done]. by exists (S (S k)), b'. }
    destruct (full !! S (S k)) as [b'|] eqn:E2; [destruct (decide (S (S k) ∈ W)) as [HW|HW]|].
    + assert (orphan_of b' ∈ cs) as Hin by (apply Hcs'; by exists b').
      destruct cs as [|x [|y cs]]; [by apply elem_of_nil in Hin|by apply list_elem_of_singleton in Hin as ->|]. exfalso.
      destruct (proj1 (Hcs' x) ltac:(left)) as (bx & _ & [= <-] & ->). destruct (proj1 (Hcs' y) ltac:(right; left)) as (by' & _ & [= <-] & ->).
      apply NoDup_cons in Hnd as [Hni _]. apply Hni. left.
    + destruct cs as [|x cs]; [done|]. destruct (proj1 (Hcs' x) ltac:(left)) as (? & ? & _). done.
    + destruct cs as [|x cs]; [done|]. destruct (proj1 (Hcs' x) ltac:(left)) as (? & _ & ? & _). done.
Qed.

(** The block extends the active branch: it is announced, and the handler turns to the orphans
    that waited for it. *)
Lemma handle_block_extends p payload v n block parent c' h added removed claims :
  deserialize_block payload = Ok block -> get_block (chain n) (prev_block_hash (header block)) = Some parent ->
  add_block (unix clk) block (chain n) = (c', Ok (MainChain h added removed claims)) ->
  exists n', handle_block clk p payload v n =
      sfor (fun orphan => handle_block clk (ob_peer_addr orphan) (serialize_block_for_peer (ob_block orphan) (ob_peer_version orphan))
              (ob_peer_version orphan)) (take_orphan_children (block_hash block) (orphans n)).2 n' /\
    chain n' = c' /\ orphans n' = (take_orphan_children (block_hash block) (orphans n)).1.
Proof.
  intros Hdes Hpar Ea. rewrite handle_block_eq. unfold handle_block_body. rewrite Hdes. unfold sbind at 1, sget. rewrite Hpar.
  rewrite (bool_decide_eq_true_2 (is_Some (Some parent))) by done. rewrite orb_true_r. cbn [negb].
  unfold sbind at 1. rewrite Ea. unfold sbind at 1, update_mempool, smod. set (n2 := with_mempool _ _).
  pose proof (announce_emits clk p v block (MainChain h added removed claims) n2) as Hr.
  pose proof (keeps_announce chain chain_apart clk p v block (MainChain h added removed claims) ltac:(done) n2) as Kc.
  pose proof (keeps_announce orphans orphans_apart clk p v block (MainChain h added removed claims) ltac:(done) n2) as Ko.
  unfold sbind at 1. unfold runs in Hr. destruct (announce _ _ _ _ _ n2) as [n3 [relay|e|]]; [|done..]. destruct Hr as [_ ->].
  cbn [fst] in Kc, Ko. unfold sbind at 1. set (n4 := with_manager _ n3). unfold sbind at 1.
  change (orphans n4) with (orphans n3). rewrite Ko. change (orphans n2) with (orphans n).
  destruct (take_orphan_children (block_hash block) (orphans n)) as [o cs]. exists (with_orphans (fun _ => o) n4).
  split; [done|]. split; [|done]. exact Kc.
Qed.

(** The node after [add_block] accepted block [S k] and its child left the pool. *)
Lemma accepted_step k W n b c' lk jk o : following k W n -> full !! S k = Some b ->
  history U g l0 f (take (S (S k)) full) lk jk -> loaded U g l0 f' (take (S (S k)) full) lk c' -> get_block c' (block_hash b) = Some b ->
  orphans_wf o ->
  (forall h x, orphan_blocks o !! h = Some x <->
     exists j b', j ∈ W ∖ {[S (S k)]} /\ full !! j = Some b' /\ h = block_hash b' /\ x = orphan_of b') ->
  forall n', chain n' = c' -> orphans n' = o -> following (S k) (W ∖ {[S (S k)]}) n'.
Proof.
  intros F Hb Hhk Hl Hg Hwf Hpool n' E1 E2. pose proof (lookup_lt_Some _ _ _ Hb) as Hlen. pose proof (fo_start _ _ _ F).
  split; rewrite ?E1, ?E2; [lia|by exists lk, jk|intros b1 Hb1; congruence| |done|done].
  intros j [Hj Hn]%elem_of_difference. rewrite elem_of_singleton in Hn. apply (fo_early _ _ _ F) in Hj. lia.
Qed.

(** The next block is accepted, and so are the blocks that waited behind it. *)
Lemma next_block m : forall k W n b, (length full - k <= m)%nat -> following k W n -> full !! S k = Some b ->
  exists n' k' W', deliver b n = (n', Ok tt) /\ following k' W' n' /\ (forall j, has k' W' j <-> has k W j \/ j = S k).
Proof.
  induction m as [|m IH]; intros k W n b Hm F Hb; pose proof (lookup_lt_Some _ _ _ Hb) as Hlen; [lia|].
  destruct (fo_loaded _ _ _ F) as (lk & jk & Hhk & Hl).
  destruct (history_step U g l0 f full l js Hh k Hlen) as (b1 & lk' & jk' & l' & j & I1 & I2 & I3 & I4 & I5 & I6 & I7).
  rewrite Hb in I1. injection I1 as <-. assert (lk' = lk) as -> by (eapply (history_unique U HU g l0 G1 G2 G3 f f); done).
  assert (Etk : take (S (S k)) full = take (S k) full ++ [b]) by by apply take_S_r.
  assert (Hlk : zlen (take (S k) full) = Z.of_nat (S k)) by (unfold zlen; rewrite length_take; lia).
  destruct (loaded_next U HU g l0 G1 G2 G3 f f' (take (S k) full) lk b l' j (unix clk) (chain n)) as (added & removed & c' & Ea & Hl' & _ & Hg);
    [done|done|done|by rewrite Hlk|done|done| | |].
  { destruct full as [|b0 rest]; [done|]. cbn in Hb, Hot. by eapply Forall_lookup_1. }
  { rewrite <- Etk. rewrite <- (take_drop (S (S k)) full) in Hap. eapply apart_prefix; [exact Hap|]. rewrite Etk. by intros [_ ?]%app_nil. }
  rewrite <- Etk in Hl'. destruct (lookup_lt_is_Some_2 full k) as [p Hp]; [lia|].
  unfold deliver. destruct (handle_block_extends (addr b) (wire_block b) (ver b) n b p c' (zlen (take (S k) full)) added removed (j_claimed j)) as (n5 & -> & Ec & Eo);
    [apply Hde; by eapply list_elem_of_lookup_2|by rewrite (history_link U g l0 f full l js k p b Hh Hp Hb), (fo_tip _ _ _ F p Hp)|exact Ea|].
  destruct (take_orphan_children (block_hash b) (orphans n)) as [o cs] eqn:Et. cbn [fst snd] in Eo |- *.
  destruct (waiting_child k W n b o cs F Hb Et) as (W1 & W2 & ->).
  assert (following (S k) (W ∖ {[S (S k)]}) n5) as F5 by (eapply (accepted_step k W n b c' l' (jk' ++ [j]) o); eauto).
  assert (Hhas : forall j, has (S k) (W ∖ {[S (S k)]}) j \/ j = S (S k) /\ S (S k) ∈ W <-> has k W j \/ j = S k).
  { intros i. unfold has. rewrite elem_of_difference, elem_of_singleton. destruct (decide (i = S (S k))) as [->|]; [intuition lia|].
    destruct (decide (i <= k)%nat), (decide (i = S k)); intuition lia. }
  destruct (full !! S (S k)) as [b2|] eqn:Hb2; [destruct (decide (S (S k) ∈ W)) as [HW|HW]|].
  - destruct (IH (S k) (W ∖ {[S (S k)]}) n5 b2) as (n' & k' & W' & E' & F' & Hj'); [lia|done|done|].
    exists n', k', W'. split; [unfold deliver, wire_block in E'; cbn [sfor ob_peer_addr ob_peer_version ob_block orphan_of]; unfold sbind; by rewrite E'|].
    split; [done|].
    intros i. rewrite Hj', <- Hhas. tauto.
  - exists n5, (S k), (W ∖ {[S (S k)]}). split; [done|]. split; [done|]. intros i. rewrite <- Hhas. tauto.
  - exists n5, (S k), (W ∖ {[S (S k)]}). split; [done|]. split; [done|]. intros i. rewrite <- Hhas. split; [tauto|].
    intros [?|[_ HW]]; [done|]. apply (fo_early _ _ _ F) in HW. apply lookup_ge_None in Hb2. lia.
Qed.

(** Every arrival adds its block to those the node has. *)
Lemma arrival k W n j b : following k W n -> full !! j = Some b -> ~ has k W j ->
  exists n' k' W', deliver b n = (n', Ok tt) /\ following k' W' n' /\ (forall i, has k' W' i <-> has k W i \/ i = j).
Proof.
  intros F Hj Hn. unfold has in Hn. destruct (decide (j = S k)) as [->|Hne]; [by eapply next_block|].
  destruct (early_block k W n j b F Hj) as (n' & E & F'); [lia|tauto|]. exists n', k, ({[j]} ∪ W). split; [done|]. split; [done|].
  intros i. unfold has. rewrite elem_of_union, elem_of_singleton. tauto.
Qed.

Lemma arrivals_in (idx : list nat) : forall bs k W n, following k W n -> Forall2 (fun j b => full !! j = Some b) idx bs ->
  NoDup idx -> (forall j, j ∈ idx -> ~ has k W j) ->
  exists n' k' W', sfor deliver bs n = (n', Ok tt) /\ following k' W' n' /\ (forall i, has k' W' i <-> has k W i \/ i ∈ idx).
Proof.
  induction idx as [|j idx IH]; intros bs k W n F Hbs Hnd Hn; inversion Hbs as [|? b ? bs' Hj Hbs']; subst.
  { exists n, k, W. split; [done|]. split; [done|]. intros i. rewrite elem_of_nil. tauto. }
  apply NoDup_cons in Hnd as [Hni Hnd]. destruct (arrival k W n j b F Hj) as (n1 & k1 & W1 & E1 & F1 & H1); [apply Hn; left|].
  destruct (IH bs' k1 W1 n1 F1 Hbs' Hnd) as (n2 & k2 & W2 & E2 & F2 & H2).
  { intros i Hi [Hx| ->]%H1; [|done]. apply (Hn i); [by right|done]. }
  exists n2, k2, W2. cbn [sfor]. unfold sbind. rewrite E1. split; [done|]. split; [done|].
  intros i. rewrite H2, H1, elem_of_cons. tauto.
Qed.

(** A node that has every block of the branch follows all of it. *)
Lemma following_all k W n : following k W n -> (forall j, (j < length full)%nat -> has k W j) ->
  loaded U g l0 f' full l (chain n) /\ orphan_blocks (orphans n) = ∅.
Proof.
  intros F Hall. pose proof (fo_start _ _ _ F). assert (S k = length full) as Ek.
  { destruct (decide (S k < length full)%nat) as [Hlt|]; [|lia]. destruct (Hall (S k) Hlt) as [|HW]; [lia|]. apply (fo_early _ _ _ F) in HW. lia. }
  split.
  - destruct (fo_loaded _ _ _ F) as (lk & jk & Hhk & Hl). rewrite take_ge in Hhk, Hl by lia.
    by rewrite (history_unique U HU g l0 G1 G2 G3 f f full l js Hh lk jk).
  - apply map_eq. intros h. rewrite lookup_empty. apply eq_None_not_Some. intros [x Hx].
    apply (fo_pool _ _ _ F) in Hx as (j & b & Hj & _). apply (fo_early _ _ _ F) in Hj. lia.
Qed.

(** The places of the arrivals on the branch. *)
Lemma arrivals_places arrivals : arrivals ≡ₚ drop (S k0) full ->
  exists idx, Forall2 (fun j b => full !! j = Some b) idx arrivals /\ NoDup idx /\ (forall j, j ∈ idx <-> (k0 < j < length full)%nat).
Proof.
  intros Hp. assert (exists idx, Forall2 (fun j b => full !! j = Some b /\ (k0 < j)%nat) idx arrivals) as [idx Hidx].
  { assert (Forall (fun b => exists j, full !! j = Some b /\ (k0 < j)%nat) arrivals) as Hall.
    { rewrite Hp. apply Forall_forall. intros b [j Hj]%list_elem_of_lookup. rewrite lookup_drop in Hj. exists (S k0 + j)%nat. split; [done|lia]. }
    clear Hp. induction Hall as [|b bs [j Hj] _ [idx IH]]; [by exists []|]. exists (j :: idx). by constructor. }
  exists idx. split; [eapply Forall2_impl; [exact Hidx|]; by intros j b [? _]|]. split.
  - assert (NoDup arrivals) as Hnd.
    { rewrite Hp. destruct Hap as [Hnd _]. apply (NoDup_fmap_1 block_hash) in Hnd. rewrite <- (take_drop (S k0) full) in Hnd. by apply NoDup_app in Hnd as (_ & _ & ?). }
    apply NoDup_alt. intros i i' j Hi Hi'. destruct (Forall2_lookup_l _ _ _ _ _ Hidx Hi) as (b & Hb & Eb & _).
    destruct (Forall2_lookup_l _ _ _ _ _ Hidx Hi') as (b' & Hb' & Eb' & _). rewrite NoDup_alt in Hnd. apply (Hnd i i' b); congruence.
  - intros j. split.
    + intros [i Hi]%list_elem_of_lookup. destruct (Forall2_lookup_l _ _ _ _ _ Hidx Hi) as (b & _ & Eb & Hlt). apply lookup_lt_Some in Eb. lia.
    + intros [Hlt Hlen]. destruct (lookup_lt_is_Some_2 full j Hlen) as [b Hb]. assert (b ∈ arrivals) as Hin.
      { rewrite Hp. apply list_elem_of_lookup. exists (j - S k0)%nat. rewrite lookup_drop, <- Hb. f_equal. lia. }
      apply list_elem_of_lookup in Hin as [i Hi]. destruct (Forall2_lookup_r _ _ _ _ _ Hidx Hi) as (j' & Hj' & Eb & _).
      assert (j' = j) as -> by by eapply hash_inj. by eapply list_elem_of_lookup_2.
Qed.

Lemma start_following n lk : (k0 < length full)%nat -> loaded U g l0 f' (take (S k0) full) lk (chain n) ->
  (forall b, full !! k0 = Some b -> get_block (chain n) (block_hash b) = Some b) -> orphans n = mkOrphans ∅ [] 0 -> following k0 ∅ n.
Proof.
  intros Hk Hl Ht Ho.
  assert (exists lk' jk', history U g l0 f (take (S k0) full) lk' jk') as (lk' & jk' & Hhk).
  { rewrite <- (take_drop (S k0) full) in Hh. eapply (history_prefix U HU g l0 G1 G2 G3); [exact Hh|]. intros E%(f_equal length). rewrite length_take in E. change (length (A := Block) []) with 0%nat in E. lia. }
  destruct (mo_history _ _ _ _ _ _ _ (co_main _ _ _ _ _ (ld_ok _ _ _ _ _ _ _ Hl))) as [pre Hhc].
  rewrite (ld_config _ _ _ _ _ _ _ Hl), (ld_state _ _ _ _ _ _ _ Hl) in Hhc.
  rewrite <- (history_unique U HU g l0 G1 G2 G3 f f' _ _ _ Hhk _ _ Hhc R) in Hl.
  split; [lia|by exists lk', jk'|done|intros j Hj; set_solver|rewrite Ho|rewrite Ho].
  - split; cbn; [constructor| |done|done]. intros h. rewrite elem_of_nil, lookup_empty. split; [done|by intros [? ?]].
  - intros h x. cbn. rewrite lookup_empty. split; [done|]. intros (j & b & Hj & _). set_solver.
Qed.

Lemma arrivals_complete n lk arrivals : (k0 < length full)%nat -> loaded U g l0 f' (take (S k0) full) lk (chain n) ->
  (forall b, full !! k0 = Some b -> get_block (chain n) (block_hash b) = Some b) -> orphans n = mkOrphans ∅ [] 0 ->
  arrivals ≡ₚ drop (S k0) full ->
  exists n', sfor deliver arrivals n = (n', Ok tt) /\ loaded U g l0 f' full l (chain n') /\ orphan_blocks (orphans n') = ∅.
Proof.
  intros Hk Hl Ht Ho Hp. destruct (arrivals_places arrivals Hp) as (idx & I1 & I2 & I3).
  destruct (arrivals_in idx arrivals k0 ∅ n) as (n' & k' & W' & E & F & Hhas); [by eapply start_following|done|done| |].
  { intros j Hj%I3 [Hx|Hx]; [lia|set_solver]. }
  exists n'. split; [done|]. apply (following_all k' W' n' F). intros j Hj. apply Hhas. rewrite I3. unfold has. lia.
Qed.
End sync.

(** ** Two nodes *)

Section convergence.
Context {C : Crypto} {B : Bincode} {H : Hex} {K : KeyOrder} {MO : MapOrder} {ML : MapOrderLaws MO}.
Context {JB : Json Block} {JT : Json Transaction} {BB : BincodeOf Block} {BT : BincodeOf Transaction} {BH : BincodeOf BlockHeader}.
Context {JI : Json InvMsg} {BI : BincodeOf InvMsg} {JD : Json GetDataMsg} {BD : BincodeOf GetDataMsg}.
Context {JP : Json GetProofMsg} {BP : BincodeOf GetProofMsg}.
Context (legacy : list (bytes * Z)) (U : Transaction -> Prop) (g : Block) (c0 : Chain).
#[local] Hint Extern 0 Snapshot => exact (N legacy) : typeclass_instances.
Context (ST : setting legacy U g c0).
#[local] Hint Extern 0 (SnapshotLaws _) => exact (SL legacy U g c0 ST) : typeclass_instances.
Import Handler.

(** The node has the blocks of the branch up to [k0] and no orphans; the others arrive in some
    order and fit in the orphan pool together. *)
Record catching_up (clk : Clock) (ver : Block -> Z) (k0 : nat) (bs arrivals : list Block) (n : Node) : Prop := {
  cu_start : (k0 < length bs)%nat;
  cu_rules : same_rules (config c0) (config (chain n));
  cu_depth : 1 <= max_reorg_depth (config (chain n));
  cu_clock : Forall (on_time (unix clk)) (tail bs);
  cu_chain : exists lk, loaded U g (state (main c0)) (config (chain n)) (take (S k0) bs) lk (chain n);
  cu_tip : forall b, bs !! k0 = Some b -> get_block (chain n) (block_hash b) = Some b;
  cu_pool : orphans n = mkOrphans ∅ [] 0;
  cu_sent : arrivals ≡ₚ drop (S k0) bs;
  cu_count : zlen (drop (S k0) bs) <= MAX_ORPHAN_BLOCKS;
  cu_bytes : zsum (map (fun b => zlen (wire_block ver b)) (drop (S k0) bs)) <= MAX_ORPHAN_BYTES;
  cu_decode : forall b, b ∈ bs -> deserialize_block (wire_block ver b) = Ok b;
}.

(** C9: nodes converge within the limits of the orphan pool. When a chain of some peer was built by
    [add_block], take a node with the same rules that has a part of its active branch from the
    start and an empty orphan pool, and that lacks at most 64 blocks of it, which on the wire take
    at most 16 MiB together. It receives the blocks it lacks, each once, each from any peer, in a
    form it can decode, and with times its clock allows. Then, in whatever order they come, it ends with
    the same branch and the same ledger, and keeps no orphan: a block that comes before its parent
    waits in the orphan pool, and is accepted right after the parent. *)
Theorem blocks_in_any_order c :
  reaches U c0 c ->
  exists bs, height_index (main c) = map block_hash bs /\
    (forall x y, x ∈ bs -> get_block c (block_hash x) = Some y -> x = y) /\
    forall clk addr ver k0 arrivals n,
      catching_up clk ver k0 bs arrivals n ->
      exists n', sfor (deliver clk addr ver) arrivals n = (n', Ok tt) /\
        height_index (main (chain n')) = height_index (main c) /\ state (main (chain n')) = state (main c) /\
        orphan_blocks (orphans n') = ∅.
Proof.
  intros (bs & Hok & Hcf)%(reached_sound legacy U g c0 ST). exists bs. split; [apply (co_main _ _ _ _ _ Hok)|].
  split; [intros x y; by apply (branch_bodies legacy U g c0)|]. intros clk addr ver k0 arrivals n [].
  destruct (genesis_facts legacy U g c0 ST) as (F1 & F2 & F3 & F4). pose proof (se_ids _ _ _ _ ST) as HU.
  destruct (mo_history _ _ _ _ _ _ _ (co_main _ _ _ _ _ Hok)) as [pre Hh]. rewrite Hcf in Hh.
  pose proof (sound_apart legacy U g c0 ST c bs Hok) as Hap. destruct cu_chain0 as [lk Hl].
  destruct (arrivals_complete U HU g _ F3 F2 F4 _ _ bs (state (main c)) _ clk addr ver k0 Hh Hap cu_rules0 cu_clock0 cu_depth0 cu_decode0
    cu_count0 cu_bytes0 n lk arrivals) as (n' & E & Hl' & Ho); [done..|].
  exists n'. split_and!; [done| |by apply (ld_state _ _ _ _ _ _ _ Hl')|done].
  rewrite (mo_index _ _ _ _ _ _ _ (co_main _ _ _ _ _ (ld_ok _ _ _ _ _ _ _ Hl'))). symmetry. apply (co_main _ _ _ _ _ Hok).
Qed.
End convergence.
