(* ===== verification/NodeWitness.v ===== *)
(** * Witnesses for the node

    Concrete encodings in the place of JSON and bincode, and the theorems about the node
    applied to a node that receives an orphan, its rival and its parent. *)

From stdpp Require Import base list gmap sorting strings.
From Stdlib Require Import ZArith Lia.
From S2P Require Import Prelude Script Crypto Engine Standard Merkle Codec Block Address Consensus.
From S2P Require Import Deployments Governance Ledger Supply History Chain Mirror Replay Progress Genesis Acceptance.
From S2P Require Import Mempool Wire Compact Peers Proofs Events Store Restart Heal StoreWitness Node NodeFacts NodeStore Sync.

(** ** Two encodings that cannot be mistaken for each other *)

Definition tagged_get {A} (t : Z) (c : codec A) (v : bytes) : option A :=
  match v with
  | x :: v => if x =? t then match get c v with Some (a, _) => Some a | None => None end else None
  | [] => None
  end.
Definition tagged_json {A} (c : codec A) : Json A :=
  {| to_vec a := Some (123 :: put c a []); from_slice := tagged_get 123 c |}.
Definition tagged_bincode {A} (c : codec A) : BincodeOf A :=
  {| bin_ser a := Some (1 :: put c a []); bin_de limit v := if zlen v <=? limit then tagged_get 1 c v else None |}.
Definition no_json {A} : Json A := {| to_vec _ := None; from_slice _ := None |}.
Definition no_bincode {A} : BincodeOf A := {| bin_ser _ := None; bin_de _ _ := None |}.

Lemma tagged_json_laws {A} (c : codec A) : JsonLaws A (tagged_json c).
Proof. intros a. eexists. split; [reflexivity|]. cbn. by rewrite get_put. Qed.

(** What is read back of either encoding, by either decoder. *)
Lemma tagged_read {A} (c : codec A) (v2 : bool) limit a a' :
  let payload := default [] (if v2 then @bin_ser A (tagged_bincode c) a else @to_vec A (tagged_json c) a) in
  match @bin_de A (tagged_bincode c) limit payload with Some b => Some b | None => @from_slice A (tagged_json c) payload end = Some a' ->
  a' = a.
Proof. destruct v2; cbn; destruct (_ <=? _); cbn; rewrite ?get_put; congruence. Qed.

Module NodeWitness.
#[local] Existing Instance bincode_layout.
#[local] Existing Instance bincode_layout_laws.
#[local] Existing Instance any_order.
#[local] Existing Instance any_order_laws.
Import GenesisWitness AcceptanceWitness.
#[local] Existing Instance order0.
#[local] Existing Instance snap0.
#[local] Instance json_block : Json Block := tagged_json c_block.
#[local] Instance json_block_laws : JsonLaws Block json_block := tagged_json_laws c_block.
#[local] Instance json_utxo : Json Utxo := json_of c_utxo.
#[local] Instance json_utxo_laws : JsonLaws Utxo json_utxo := json_of_laws c_utxo.
#[local] Instance bin_block : BincodeOf Block := tagged_bincode c_block.
#[local] Instance json_tx : Json Transaction := tagged_json c_tx.
#[local] Instance bin_tx : BincodeOf Transaction := tagged_bincode c_tx.
#[local] Existing Instance no_json | 100.
#[local] Existing Instance no_bincode | 100.
Import Handler.

Lemma reencoded0 b v b' : deserialize_block (serialize_block_for_peer b v) = Ok b' -> b' = b.
Proof.
  intros E. apply (tagged_read c_block (is_v2_peer v) MAX_BLOCK_SIZE b b'). revert E. unfold deserialize_block, serialize_block_for_peer.
  unfold bin_block, json_block. cbv zeta. destruct (@bin_de _ _ _ _); cbn [ok_or]; [congruence|]. destruct (@from_slice _ _ _); cbn [ok_or]; congruence.
Qed.

Definition s0 : BlockStore := (Store.open_with_cache g0 empty_store).1.
Lemma node_opened0 : Store.open_with_cache g0 empty_store = (s0, Ok tt).
Proof.
  assert (is_ok (Store.open_with_cache g0 empty_store).2 = true) as Hok by by vm_compute.
  unfold s0. revert Hok. generalize (Store.open_with_cache g0 empty_store). by intros [? [[]| |]].
Qed.

Definition peer1 : SocketAddr := mkAddr (V4 [10; 0; 0; 1]) 22526.
Definition clk0 : Clock := mkClock now0 0.
Definition n0 : Node := mkNode c0 (with_byte_limit 100 1000000) (mkPeers 0 ∅ bans_default) (mkOrphans ∅ [] 0) ∅ ∅ ∅
  (mkTables ∅ ∅ ∅ ∅ ∅ ∅ ∅) [].
Definition receive (b : Block) : st Node NodeError unit := handle_block clk0 peer1 (serialize_block_for_peer b 3) 3.
(** The second block of a branch arrives before the first, and a rival block in between. *)
Definition n1 : Node := (receive b2 n0).1.
Definition n2 : Node := (receive a1 n1).1.
Definition n3 : Node := (receive b1 n2).1.

Lemma received0 : is_ok (receive b2 n0).2 = true /\ is_ok (receive a1 n1).2 = true /\ is_ok (receive b1 n2).2 = true.
Proof. split; [by vm_compute|]. split; by vm_compute. Qed.

Lemma good0 b n : b ∈ [a1; b1; b2] -> message_in legacy0 U0 n (receive b).
Proof. intros Hb. apply in_block. intros b' ->%reencoded0. split; by apply typed0. Qed.

Lemma next0 b n s : daemon legacy0 U0 c0 s0 n s -> b ∈ [a1; b1; b2] -> is_ok (receive b n).2 = true ->
  exists s', daemon legacy0 U0 c0 s0 (receive b n).1 s'.
Proof.
  intros Hd Hb Hok. eapply (daemon_next legacy0 U0 g0 c0 s0 setting0 node_opened0 reencoded0 n _ s (receive b)); [exact Hd|by apply good0|apply surjective_pairing|].
  revert Hok. generalize (receive b n). by intros [? []].
Qed.

Lemma node_keeps_store_in_step_witness :
  exists s bs, height_index (main (chain n3)) = map block_hash bs /\ mirrors (view_of bs (state (main (chain n3)))) s.
Proof.
  destruct received0 as (R1 & R2 & R3).
  destruct (next0 b2 n0 s0) as [s1 D1]; [by apply daemon_start|right; right; left|exact R1|].
  destruct (next0 a1 n1 s1 D1) as [s2 D2]; [left|exact R2|].
  destruct (next0 b1 n2 s2 D2) as [s3 D3]; [right; left|exact R3|].
  exists s3. exact (node_keeps_store_in_step legacy0 U0 g0 c0 s0 setting0 node_opened0 reencoded0 n3 s3 D3).
Defined.

(** The rival was on the chain, and the orphan brought the reorganization. *)
Lemma reorganized0 : best_height (chain n2) = 1 /\ best_height (chain n3) = 2 /\ orphan_blocks (orphans n3) = ∅ /\
  size (orphan_blocks (orphans n1)) = 1%nat.
Proof. split; [by vm_compute|]. split; [by vm_compute|]. split; [|by vm_compute]. apply map_size_empty_inv. by vm_compute. Qed.

(** The orphan is handled by a nested call of the handler, and none is made below that one. *)
Lemma handle_block_terminates_witness :
  nested clk0 (fun _ _ _ => slift Panic) 2 peer1 (serialize_block_for_peer b1 3) 3 n2 =
  handle_block clk0 peer1 (serialize_block_for_peer b1 3) 3 n2.
Proof.
  destruct (handle_block_terminates clk0 peer1 (serialize_block_for_peer b1 3) 3 n2) as (_ & Hd & _).
  assert (E : size (orphan_blocks (orphans n2)) = 1%nat) by by vm_compute. rewrite E in Hd. exact (Hd (fun _ _ _ => slift Panic)).
Defined.

(** ** The second block before the first *)

Lemma decoded0 b : b ∈ [g0; b1; b2] -> deserialize_block (wire_block (fun _ => 3) b) = Ok b.
Proof.
  intros Hb. assert (forallb (fun b => is_ok (deserialize_block (wire_block (fun _ => 3) b))) [g0; b1; b2] = true) as Hd by by vm_compute.
  rewrite forallb_forall in Hd. specialize (Hd b ltac:(by apply list_elem_of_In)).
  destruct (deserialize_block _) as [b'| |] eqn:E; [|done..]. by rewrite (reencoded0 b 3 b' E).
Qed.

Lemma catching0 : catching_up legacy0 U0 g0 c0 clk0 (fun _ => 3) 0 [g0; b1; b2] [b2; b1] n0.
Proof.
  destruct (genesis_facts legacy0 U0 g0 c0 setting0) as (F1 & _ & F3 & F4).
  assert (forall b, [g0; b1; b2] !! 0%nat = Some b -> get_block c0 (block_hash b) = Some b) as Ht.
  { intros b E. change (Some g0 = Some b) in E. apply (inj Some) in E as <-. unfold get_block. rewrite (ag_known _ _ F1). apply lookup_singleton_eq. }
  pose proof (loaded_genesis U0 g0 (state (main c0)) F3 F4 c0 F1 eq_refl) as Hl.
  split; [cbn; lia|change (chain n0) with c0; done|by vm_compute|apply (StoreWitness.times3 2)|
    exact (ex_intro _ (state (main c0)) Hl)|exact Ht|reflexivity|apply perm_swap|by vm_compute|by vm_compute|apply decoded0].
Qed.

Lemma blocks_in_any_order_witness :
  exists n', sfor (deliver clk0 (fun _ => peer1) (fun _ => 3)) [b2; b1] n0 = (n', Ok tt) /\
    height_index (main (chain n')) = height_index (main c3) /\ state (main (chain n')) = state (main c3).
Proof.
  destruct (blocks_in_any_order legacy0 U0 g0 c0 setting0 c3 reached3) as (bs & Hi & Hb & Hs).
  apply StoreWitness.branch3 in Hi; [|exact Hb]. subst bs.
  destruct (Hs clk0 (fun _ => peer1) (fun _ => 3) 0%nat [b2; b1] n0 catching0) as (n' & E & H1 & H2 & _). exists n'. exact (conj E (conj H1 H2)).
Defined.
End NodeWitness.
