(* ===== verification/Spv.v ===== *)
(** * The light client

    Models [vtorrent-spv]: the mirror types of [stake.rs] with the inclusion proofs of staked
    outputs, the header chain of [spv_chain.rs] and the Bloom filter of [bloom.rs]. The Merkle
    trees of [merkle.rs] are in [Merkle]. *)

From stdpp Require Import base list gmap strings.
From Stdlib Require Import ZArith Lia.
From S2P Require Import Prelude Script Crypto Engine Standard Merkle Codec Block.

Module Spv.

(** ** [stake.rs] *)

Record SpvUtxo : Type := mkSpvUtxo {
  su_txid : bytes;
  su_vout : Z;
  su_value : Z;
  su_script_pubkey : bytes;
  su_height : Z;
  su_timestamp : Z;
}.

Record UtxoInclusionProof : Type := mkInclusion {
  leaf_index : nat;
  ui_siblings : list ProofNode;
  ui_root : bytes;
}.

Inductive SpvTxType : Type :=
  | SpvStandard
  | SpvCoinbase
  | SpvCoinstake
  | SpvLegacyClaim
  | SpvAtomicSwap
  | SpvTorrentIncentive.

Record SpvTxInput : Type := mkSpvInput {
  si_prev_txid : bytes;
  si_prev_vout : Z;
  si_script_sig : bytes;
  si_sequence : Z;
}.

Record SpvTxOutput : Type := mkSpvOutput {
  so_value : Z;
  so_script_pubkey : bytes;
}.

Record SpvTransaction : Type := mkSpvTx {
  st_version : Z;
  st_tx_type : SpvTxType;
  st_inputs : list SpvTxInput;
  st_outputs : list SpvTxOutput;
  st_lock_time : Z;
  st_claim_address : option bytes;
  st_claim_signature : option bytes;
}.

Record StakeProof : Type := mkStakeProof {
  coinstake : SpvTransaction;
  tx_merkle_proof : MerkleProof;
  sp_utxo : SpvUtxo;
  utxo_proof : UtxoInclusionProof;
  prev_stake_modifier : Z;
}.

#[export] Instance SpvTxType_eq_dec : EqDecision SpvTxType.
Proof. solve_decision. Defined.

Inductive SpvFailure : Type :=
  | HeaderValidation (msg : string)
  | UnknownParent (hash : bytes)
  | HeightMismatch (expected got : Z)
  | BadMerkleProof (msg : string).

(** [bincode::serialize] of the mirror type. *)
Class SpvBincode : Type := spv_ser_tx : SpvTransaction -> option bytes.

Definition SpvTxType_code (t : SpvTxType) : Z :=
  match t with
  | SpvStandard => 0
  | SpvCoinbase => 1
  | SpvCoinstake => 2
  | SpvLegacyClaim => 3
  | SpvAtomicSwap => 4
  | SpvTorrentIncentive => 5
  end.

Definition layout_spv_tx (tx : SpvTransaction) : bytes :=
  le32 (st_version tx) ++ le32 (SpvTxType_code (st_tx_type tx)) ++
  enc_vec 8 (fun i => si_prev_txid i ++ le32 (si_prev_vout i) ++ enc_bytes 8 (si_script_sig i) ++ le32 (si_sequence i)) (st_inputs tx) ++
  enc_vec 8 (fun o => le64 (so_value o) ++ enc_bytes 8 (so_script_pubkey o)) (st_outputs tx) ++
  le32 (st_lock_time tx) ++
  enc_option (enc_bytes 8) (st_claim_address tx) ++ enc_option (enc_bytes 8) (st_claim_signature tx).

(** The documented layout, as in [BincodeLaws]. *)
Class SpvBincodeLaws (S : SpvBincode) : Prop :=
  spv_ser_layout : forall tx, spv_ser_tx tx = Some (layout_spv_tx tx).

Section stake.
Context {C : Crypto} {SB : SpvBincode}.

(** [hash_utxo]. *)
Definition spv_hash_utxo (u : SpvUtxo) : bytes :=
  let len := zlen (su_script_pubkey u) in
  sha256 (sha256 (su_txid u ++ le32 (su_vout u) ++ le64 (su_value u) ++
    (if len <? 0xfd then [as_u8 len]
     else if len <=? 0xffff then [0xfd] ++ le16 len
     else if len <=? 0xffffffff then [0xfe] ++ le32 len
     else [0xff] ++ le64 len) ++
    su_script_pubkey u ++ le32 (su_height u) ++ le32 (su_timestamp u))).

(** [UtxoInclusionProof::verify]. *)
Definition verify_inclusion (p : UtxoInclusionProof) (expected_root leaf : bytes) : res SpvFailure unit :=
  if negb (bytes_eqb (ui_root p) expected_root) then Err (BadMerkleProof "utxo root mismatch") else
  if bytes_eqb (fold_left climb (ui_siblings p) leaf) expected_root then Ok tt else Err (BadMerkleProof "computed root").

(** [Transaction::txid]. *)
Definition spv_txid (tx : SpvTransaction) : bytes := sha256 (sha256 (unwrap_or (spv_ser_tx tx) [])).

Definition spv_sighash_input (input_index : nat) (subscript : bytes) (i : nat) (inp : SpvTxInput) : bytes :=
  let sig := if (i =? input_index)%nat then subscript else [] in
  si_prev_txid inp ++ le32 (si_prev_vout inp) ++ le64 (zlen sig) ++ sig ++ le32 (si_sequence inp).

(** [Transaction::sighash]. *)
Definition spv_sighash (tx : SpvTransaction) (input_index : nat) (subscript : bytes) : bytes :=
  sha256 (sha256 (
    le32 (st_version tx) ++ le32 (SpvTxType_code (st_tx_type tx)) ++ le64 (zlen (st_inputs tx)) ++
    concat (imap (spv_sighash_input input_index subscript) (st_inputs tx)) ++
    le64 (zlen (st_outputs tx)) ++
    concat (map (fun o => le64 (so_value o) ++ le64 (zlen (so_script_pubkey o)) ++ so_script_pubkey o) (st_outputs tx)) ++
    le32 (st_lock_time tx) ++
    match st_claim_address tx with
    | None => [0]
    | Some addr => [1] ++ le64 (zlen addr) ++ addr
    end ++
    match st_claim_signature tx with
    | None => [0]
    | Some sig => [1] ++ le64 (zlen sig) ++ sig
    end ++
    le32 1)).

Definition spv_is_coinstake (tx : SpvTransaction) : bool := bool_decide (st_tx_type tx = SpvCoinstake).
Definition spv_total_output (tx : SpvTransaction) : Z := sat_sum (map so_value (st_outputs tx)).

(** [compute_stake_modifier]. *)
Definition spv_compute_stake_modifier (prev_modifier : Z) (prev_hash : bytes) : Z :=
  from_le (take 8 (sha256 (sha256 (le64 prev_modifier ++ prev_hash)))).

(** [stake_kernel_hash]. *)
Definition spv_stake_kernel_hash (modifier : Z) (txid : bytes) (vout ts : Z) : bytes :=
  sha256 (sha256 (le64 modifier ++ txid ++ le32 vout ++ le32 ts)).

(** [check_stake_kernel]. *)
Definition spv_check_stake_kernel (modifier value : Z) (txid : bytes) (vout ts : Z) : bool :=
  from_le (take 4 (spv_stake_kernel_hash modifier txid vout ts)) <=? Z.min (value / 1000) u32_max.

(** [compute_pos_reward]. *)
Definition spv_compute_pos_reward (stake_amount coin_age_seconds : Z) : Z :=
  as_u64 (stake_amount * Z.min coin_age_seconds (6 * 24 * 60 * 60) * 5 / (100 * 86400 * 365)).
End stake.

(** ** [spv_chain.rs]: headers *)

Record SpvHeader : Type := mkSpvHeader {
  sh_version : Z;
  sh_prev_hash : bytes;
  sh_merkle_root : bytes;
  sh_utxo_root : bytes;
  sh_timestamp : Z;
  sh_bits : Z;
  sh_nonce : Z;
  sh_stake_modifier : Z;
  sh_height : Z;
}.

(** The [cmp] loop over the bytes from the most significant one; both arrays have 32 bytes. *)
Fixpoint le_bytes_leb (n : nat) (a b : bytes) : res SpvFailure bool :=
  match n with
  | O => Ok true
  | S n =>
      let* x := unwrap (a !! n) in
      let* y := unwrap (b !! n) in
      match x ?= y with Lt => Ok true | Gt => Ok false | Eq => le_bytes_leb n a b end
  end.

(** The loop that places the mantissa; [None] is the early [return false]. *)
Fixpoint place_mantissa (mb : bytes) (idx : nat) (target : bytes) : option bytes :=
  match mb with
  | [] => Some target
  | b :: mb =>
      if b =? 0 then place_mantissa mb (S idx) target else
      if (32 <=? idx)%nat then None else place_mantissa mb (S idx) (<[idx := b]> target)
  end.

(** The target as 32 little-endian bytes, unless the header is rejected outright. *)
Definition compact_target (bits : Z) : option bytes :=
  let exponent := Z.shiftr bits 24 in
  let mantissa := Z.land bits 0x00ffffff in
  if (exponent =? 0) || (mantissa =? 0) then None else
  if exponent <=? 3 then
    let val := Z.shiftr mantissa (8 * (3 - exponent)) in
    if val =? 0 then None else
    Some ([as_u8 val; as_u8 (Z.shiftr val 8); as_u8 (Z.shiftr val 16)] ++ repeat 0 29)
  else place_mantissa (take 3 (le32 mantissa)) (Z.to_nat (exponent - 3)) (repeat 0 32).

(** [hash_meets_target]. *)
Definition hash_meets_target (hash : bytes) (bits : Z) : res SpvFailure bool :=
  match compact_target bits with
  | None => Ok false
  | Some target => le_bytes_leb 32 hash target
  end.

(** [header_work]. *)
Definition header_work (bits : Z) : Z :=
  let exponent := Z.shiftr bits 24 in
  let mantissa := Z.land bits 0x00ffffff in
  if mantissa =? 0 then 0 else
  let shift := sat_sub 280 (8 * exponent) in
  if 128 <=? shift then u128_max else Z.shiftl 1 shift / mantissa.

Section chain.
Context {C : Crypto} {SB : SpvBincode}.

(** [SpvHeader::hash] and [SpvHeader::is_pos]. *)
Definition spv_header_hash (h : SpvHeader) : bytes :=
  sha256 (sha256 (le32 (sh_version h) ++ sh_prev_hash h ++ sh_merkle_root h ++ sh_utxo_root h ++ le32 (sh_timestamp h) ++
    le32 (sh_bits h) ++ le32 (sh_nonce h) ++ le64 (sh_stake_modifier h))).
Definition spv_is_pos (h : SpvHeader) : bool := sh_nonce h =? 0.

(** ** Signatures of the coinstake *)

(** [<len><sig><len><pk>], the signature without its last byte, which is [SIGHASH_ALL], and the
    key; [tail] bytes follow the key. *)
Definition split_script_sig (short truncated no_all shape : string) (min tail : Z) (script_sig : bytes)
    : res SpvFailure (bytes * bytes) :=
  if zlen script_sig <? min then Err (HeaderValidation short) else
  let* len_sig := vec_get script_sig 0 in
  if zlen script_sig <? 1 + len_sig + 1 then Err (HeaderValidation truncated) else
  let sig_bytes := slice 1 (1 + len_sig) script_sig in
  let* _ := match vec_last sig_bytes with
            | Some x => ensure (x =? 1) (HeaderValidation no_all)
            | None => Err (HeaderValidation no_all)
            end in
  let der := take (length sig_bytes - 1) sig_bytes in
  let* len_pk := vec_get script_sig (1 + len_sig) in
  if negb (zlen script_sig =? 1 + len_sig + 1 + len_pk + tail) then Err (HeaderValidation shape) else
  Ok (der, slice (1 + len_sig + 1) (1 + len_sig + 1 + len_pk) script_sig).

(** [Signature::from_der], [PublicKey::from_slice] and [verify_ecdsa]. *)
Definition check_ecdsa (failed : string) (sighash der pk_bytes : bytes) : res SpvFailure unit :=
  let* _ := ensure (der_ok der) (HeaderValidation "bad DER sig") in
  let* _ := ensure (pubkey_ok pk_bytes) (HeaderValidation "bad pubkey") in
  ensure (verify_ecdsa sighash der pk_bytes) (HeaderValidation failed).

(** [verify_p2pkh_signature]. *)
Definition verify_p2pkh_signature (coinstake : SpvTransaction) (utxo : SpvUtxo) : res SpvFailure unit :=
  let* input := unwrap (st_inputs coinstake !! 0%nat) in
  let* (der, pk_bytes) := split_script_sig "script_sig too short" "script_sig truncated sig" "missing SIGHASH_ALL"
                            "script_sig extra bytes" 2 0 (si_script_sig input) in
  let* _ := check_ecdsa "sig verify failed" (spv_sighash coinstake 0 (su_script_pubkey utxo)) der pk_bytes in
  let s := su_script_pubkey utxo in
  if negb (zlen s =? 25) || negb (bytes_eqb (slice 0 3 s) [0x76; 0xa9; 0x14]) || negb (bytes_eqb (slice 23 25 s) [0x88; 0xac])
  then Err (HeaderValidation "utxo script not P2PKH") else
  ensure (bytes_eqb (Core.hash160 pk_bytes) (slice 3 23 s)) (HeaderValidation "pubkey hash160 mismatch").

(** [verify_p2cs_signature]. *)
Definition verify_p2cs_signature (coinstake : SpvTransaction) (utxo : SpvUtxo) : res SpvFailure unit :=
  let* input := unwrap (st_inputs coinstake !! 0%nat) in
  let* (der, pk_bytes) := split_script_sig "P2CS script_sig too short" "P2CS script_sig truncated sig" "P2CS missing SIGHASH_ALL"
                            "P2CS script_sig shape" 3 1 (si_script_sig input) in
  let* last := unwrap (vec_last (si_script_sig input)) in
  if negb (last =? 0x51) then Err (HeaderValidation "P2CS coinstake must use the staking (OP_IF) branch") else
  let* script := map_err (fun _ => HeaderValidation "bad P2CS script") (Scripts.from_bytes (su_script_pubkey utxo)) in
  match classify_script script with
  | P2CS staking_hash _ _ =>
      if negb (bytes_eqb (Core.hash160 pk_bytes) staking_hash)
      then Err (HeaderValidation "P2CS staking pubkey hash160 mismatch") else
      let* _ := check_ecdsa "P2CS sig verify failed" (spv_sighash coinstake 0 (su_script_pubkey utxo)) der pk_bytes in
      let redirected := sat_sum (map so_value (List.filter (fun o =>
        (0 <? so_value o) && negb (bytes_eqb (so_script_pubkey o) (su_script_pubkey utxo))) (st_outputs coinstake))) in
      if 0 <? redirected then Err (HeaderValidation "P2CS coinstake redirects") else
      let relocked := sat_sum (map so_value (List.filter (fun o =>
        (0 <? so_value o) && bytes_eqb (so_script_pubkey o) (su_script_pubkey utxo)) (st_outputs coinstake))) in
      if relocked <? su_value utxo then Err (HeaderValidation "P2CS coinstake re-locks below the staked value") else Ok tt
  | _ => Err (HeaderValidation "utxo script not P2CS")
  end.

(** ** The header chain *)

Record SpvChain : Type := mkSpvChain {
  sc_headers : gmap bytes SpvHeader;
  sc_work : gmap bytes Z;
  sc_best_hash : option bytes;
  sc_best_height : Z;
}.

Definition new_spv_chain : SpvChain := mkSpvChain ∅ ∅ None 0.

(** The clock check; [now + 7200] overflows in the last two hours of the type. *)
Definition check_future (now : Z) (header : SpvHeader) : res SpvFailure unit :=
  let* limit := padd u32_max now 7200 in
  if limit <? sh_timestamp header then Err (HeaderValidation "header timestamp too far in the future") else Ok tt.

(** The comparisons with the stored parent, which the source makes when it is there. *)
Definition check_parent (c : SpvChain) (header : SpvHeader) : res SpvFailure unit :=
  if 0 <? sh_height header then
    match sc_headers c !! sh_prev_hash header with
    | Some parent =>
        if sh_timestamp header <=? sh_timestamp parent
        then Err (HeaderValidation "header timestamp must exceed parent timestamp") else
        let* expected := padd u32_max (sh_height parent) 1 in
        if negb (sh_height header =? expected) then Err (HeightMismatch expected (sh_height header)) else Ok tt
    | None => Ok tt
    end
  else Ok tt.

(** [self.work[&header.prev_hash]], a lookup that panics, or zero. *)
Definition parent_work (c : SpvChain) (header : SpvHeader) : res SpvFailure Z :=
  if (sh_height header =? 0) || negb (bool_decide (is_Some (sc_headers c !! sh_prev_hash header))) then Ok 0
  else unwrap (sc_work c !! sh_prev_hash header).

(** The two insertions and the choice of the tip. *)
Definition insert_header (hash : bytes) (header : SpvHeader) (cumulative : Z) : st SpvChain SpvFailure unit :=
  do* _ := smod (fun c => mkSpvChain (<[hash := header]> (sc_headers c)) (<[hash := cumulative]> (sc_work c))
                            (sc_best_hash c) (sc_best_height c)) in
  do* c := sget id in
  do* better := slift (match sc_best_hash c with
                       | None => Ok true
                       | Some best => let* w := unwrap (sc_work c !! best) in Ok (w <? cumulative)
                       end) in
  if (better : bool) then smod (fun c => mkSpvChain (sc_headers c) (sc_work c) (Some hash) (sh_height header)) else sret tt.

(** [add_header_inner]. *)
Definition add_header_inner (now : Z) (header : SpvHeader) (trusted : bool) : st SpvChain SpvFailure unit :=
  let hash := spv_header_hash header in
  do* c := sget id in
  if bool_decide (is_Some (sc_headers c !! hash)) then sret tt else
  if (0 <? sh_height header) && negb (bool_decide (is_Some (sc_headers c !! sh_prev_hash header))) &&
     negb (trusted && bool_decide (sc_headers c = ∅))
  then serr (UnknownParent (sh_prev_hash header)) else
  do* _ := (if trusted then sret tt else
            do* ok := slift (hash_meets_target hash (sh_bits header)) in
            if (ok : bool) then sret tt else serr (HeaderValidation "hash does not meet target")) in
  do* _ := slift (check_future now header) in
  do* _ := slift (check_parent c header) in
  do* work := slift (parent_work c header) in
  insert_header hash header (sat_add u128_max work (header_work (sh_bits header))).

(** [add_header]. *)
Definition add_header (now : Z) (header : SpvHeader) : st SpvChain SpvFailure unit :=
  if spv_is_pos header then serr (HeaderValidation "PoS headers require full-block stake validation")
  else add_header_inner now header false.

(** [add_trusted_header]. *)
Definition add_trusted_header (now : Z) (header : SpvHeader) : st SpvChain SpvFailure unit :=
  add_header_inner now header true.

(** [add_headers]: the number of headers added. *)
Fixpoint add_headers_from (now : Z) (added : Z) (hs : list SpvHeader) : st SpvChain SpvFailure Z := fun c =>
  match hs with
  | [] => (c, Ok added)
  | h :: hs =>
      match add_header now h c with
      | (c, Ok _) => add_headers_from now (added + 1) hs c
      | (c, Err e) => (c, if added =? 0 then Err e else Ok added)
      | (c, Panic) => (c, Panic)
      end
  end.
Definition add_headers (now : Z) (hs : list SpvHeader) : st SpvChain SpvFailure Z := add_headers_from now 0 hs.

(** The checks of [add_pos_header] on the header and its parent. *)
Definition check_pos_header (now : Z) (header : SpvHeader) (parent : SpvHeader) (proof : StakeProof) : res SpvFailure unit :=
  let* expected := padd u32_max (sh_height parent) 1 in
  if negb (sh_height header =? expected) then Err (HeightMismatch expected (sh_height header)) else
  if negb (sh_bits header =? sh_bits parent) then Err (HeaderValidation "header difficulty does not match parent difficulty") else
  let* _ := check_future now header in
  if sh_timestamp header <=? sh_timestamp parent
  then Err (HeaderValidation "header timestamp must exceed parent timestamp") else
  if negb (sh_stake_modifier header =? spv_compute_stake_modifier (prev_stake_modifier proof) (sh_prev_hash header))
  then Err (HeaderValidation "stake modifier") else
  if negb (prev_stake_modifier proof =? sh_stake_modifier parent) then Err (HeaderValidation "prev_stake_modifier") else Ok tt.

(** The checks on the coinstake and the two inclusion proofs. *)
Definition check_pos_proof (header parent : SpvHeader) (proof : StakeProof) : res SpvFailure unit :=
  let tx := coinstake proof in
  if negb (spv_is_coinstake tx) then Err (HeaderValidation "coinstake must be Coinstake") else
  if negb (zlen (st_inputs tx) =? 1) then Err (HeaderValidation "coinstake must have 1 input") else
  let* _ := match st_outputs tx with
            | o :: _ => ensure ((so_value o =? 0) && (zlen (so_script_pubkey o) =? 0))
                          (HeaderValidation "coinstake first output must be empty marker")
            | [] => Err (HeaderValidation "coinstake first output must be empty marker")
            end in
  if negb (st_lock_time tx =? sh_height header) then Err (HeaderValidation "coinstake lock_time") else
  let* _ := map_err (fun _ => HeaderValidation "tx merkle proof") (verify (tx_merkle_proof proof) (sh_merkle_root header)) in
  if negb (bytes_eqb (proof_txid (tx_merkle_proof proof)) (spv_txid tx)) then Err (HeaderValidation "tx merkle proof txid mismatch") else
  if negb (proof_index (tx_merkle_proof proof) =? 0)%nat then Err (HeaderValidation "coinstake must be index 0") else
  let* _ := map_err (fun _ => HeaderValidation "utxo proof") (verify_inclusion (utxo_proof proof) (sh_utxo_root parent) (spv_hash_utxo (sp_utxo proof))) in
  let* inp := unwrap (st_inputs tx !! 0%nat) in
  if negb (bytes_eqb (si_prev_txid inp) (su_txid (sp_utxo proof))) || negb (si_prev_vout inp =? su_vout (sp_utxo proof))
  then Err (HeaderValidation "coinstake outpoint != utxo") else Ok tt.

(** The checks on the stake, its signature and its reward. *)
Definition check_pos_stake (header : SpvHeader) (proof : StakeProof) : res SpvFailure unit :=
  let u := sp_utxo proof in
  if su_value u <? 100000000 then Err (HeaderValidation "stake value below minimum") else
  let age := sat_sub (sh_timestamp header) (su_timestamp u) in
  if (age <? 6 * 60 * 60) || (6 * 24 * 60 * 60 <? age) then Err (HeaderValidation "stake age") else
  if negb (spv_check_stake_kernel (prev_stake_modifier proof) (su_value u) (su_txid u) (su_vout u) (sh_timestamp header))
  then Err (HeaderValidation "kernel hash does not meet stake target") else
  let* _ := (if is_p2cs (su_script_pubkey u) then verify_p2cs_signature (coinstake proof) u
             else verify_p2pkh_signature (coinstake proof) u) in
  let minted := sat_sub (spv_total_output (coinstake proof)) (su_value u) in
  if spv_compute_pos_reward (su_value u) age <? minted then Err (HeaderValidation "minted exceeds max reward") else Ok tt.

(** [add_pos_header]. *)
Definition add_pos_header (now : Z) (header : SpvHeader) (proof : StakeProof) : st SpvChain SpvFailure unit :=
  if negb (spv_is_pos header) then serr (HeaderValidation "expected PoS header (nonce 0)") else
  if sh_height header =? 0 then serr (HeaderValidation "PoS genesis not allowed") else
  do* c := sget id in
  do* parent := slift (ok_or (sc_headers c !! sh_prev_hash header) (UnknownParent (sh_prev_hash header))) in
  do* _ := slift (check_pos_header now header parent proof) in
  do* _ := slift (check_pos_proof header parent proof) in
  do* _ := slift (check_pos_stake header proof) in
  serr (HeaderValidation "stake proof authenticates the parent UTXO but not the committed post-state").

(** [verify_tx_inclusion]. *)
Definition verify_tx_inclusion (c : SpvChain) (hash : bytes) (proof : MerkleProof) : res SpvFailure unit :=
  let* header := ok_or (sc_headers c !! hash) (UnknownParent hash) in
  map_err (fun _ => BadMerkleProof "computed root") (verify proof (sh_merkle_root header)).

(** [get_header], [len] and [is_empty]. *)
Definition spv_get_header (c : SpvChain) (hash : bytes) : option SpvHeader := sc_headers c !! hash.
Definition spv_len (c : SpvChain) : nat := size (sc_headers c).
Definition spv_is_empty (c : SpvChain) : bool := bool_decide (sc_headers c = ∅).

(** ** The locator *)

(** One step back, with the [filter] on the all-zero hash. *)
Definition step_back (c : SpvChain) (hash : bytes) : option bytes :=
  match sc_headers c !! hash with
  | Some h => if bytes_eqb (sh_prev_hash h) hash_zero then None else Some (sh_prev_hash h)
  | None => None
  end.

(** The [while] loop of [get_locator]; [None] when the fuel runs out. *)
Fixpoint locator_loop (fuel : nat) (c : SpvChain) (current : option bytes) (step count : Z) : option (list bytes) :=
  match current with
  | None => Some []
  | Some hash =>
      match fuel with
      | O => None
      | S fuel =>
          let count := count + 1 in
          let step := if 10 <? count then step * 2 else step in
          let current := Nat.iter (Z.to_nat (step - 1)) (fun o => o ≫= step_back c) (step_back c hash) in
          (fun l => hash :: l) <$> locator_loop fuel c current step count
      end
  end.

(** [get_locator]. *)
Definition get_locator (fuel : nat) (c : SpvChain) : option (list bytes) := locator_loop fuel c (sc_best_hash c) 1 0.
End chain.

(** ** [bloom.rs] *)

Definition MAX_BLOOM_FILTER_SIZE : Z := 36000.
Definition MAX_HASH_FUNCS : Z := 50.

Inductive BloomFlags : Type := FlagNone | FlagAll | FlagPubKeyOnly.

Record BloomFilter : Type := mkBloom {
  bf_data : bytes;
  bf_hash_funcs : Z;
  bf_tweak : Z;
  bf_flags : BloomFlags;
}.

Definition rotate_left32 (x k : Z) : Z := Z.lor (as_u32 (Z.shiftl x k)) (Z.shiftr x (32 - k)).
Definition wmul32 (a b : Z) : Z := as_u32 (a * b).

(** The mix of one block of [murmur3]. *)
Definition murmur_k (k1 : Z) : Z := wmul32 (rotate_left32 (wmul32 k1 0xcc9e2d51) 15) 0x1b873593.

(** The body: blocks of four bytes; the state and the rest of the data. *)
Fixpoint murmur_body (n : nat) (h1 : Z) (data : bytes) : Z * bytes :=
  match n with
  | O => (h1, data)
  | S n => murmur_body n (as_u32 (wmul32 (rotate_left32 (Z.lxor h1 (murmur_k (from_le (take 4 data)))) 13) 5 + 0xe6546b64)) (drop 4 data)
  end.

(** [murmur3]; the bytes of the tail are exclusive-ored into disjoint places, as in a
    little-endian number. *)
Definition murmur3 (data : bytes) (seed : Z) : Z :=
  let '(h1, tail) := murmur_body (Z.to_nat (zlen data / 4)) seed data in
  let h1 := match tail with [] => h1 | _ => Z.lxor h1 (murmur_k (from_le tail)) end in
  let h1 := Z.lxor h1 (as_u32 (zlen data)) in
  let h1 := Z.lxor h1 (Z.shiftr h1 16) in
  let h1 := wmul32 h1 0x85ebca6b in
  let h1 := Z.lxor h1 (Z.shiftr h1 13) in
  let h1 := wmul32 h1 0xc2b2ae35 in
  Z.lxor h1 (Z.shiftr h1 16).

(** [hash]. *)
Definition bloom_hash (f : BloomFilter) (data : bytes) (hash_num : Z) : Z :=
  murmur3 data (as_u32 (wmul32 hash_num 0xfba4c795 + bf_tweak f)).

(** The bits of an item. *)
Definition bloom_bits (f : BloomFilter) (item : bytes) : list Z :=
  map (fun i => bloom_hash f item (Z.of_nat i) mod (zlen (bf_data f) * 8)) (seq 0 (Z.to_nat (bf_hash_funcs f))).

Definition set_bit (data : bytes) (bit : Z) : bytes :=
  alter (fun b => Z.lor b (Z.shiftl 1 (bit mod 8))) (Z.to_nat (bit / 8)) data.
Definition get_bit (data : bytes) (bit : Z) : bool :=
  match data !! Z.to_nat (bit / 8) with
  | Some b => negb (Z.land b (Z.shiftl 1 (bit mod 8)) =? 0)
  | None => false
  end.

(** [insert], with the [insert_hash] and [insert_script] aliases. *)
Definition bloom_insert (f : BloomFilter) (item : bytes) : BloomFilter :=
  if zlen (bf_data f) =? 0 then f else
  mkBloom (fold_left set_bit (bloom_bits f item) (bf_data f)) (bf_hash_funcs f) (bf_tweak f) (bf_flags f).

(** [contains]. *)
Definition bloom_contains (f : BloomFilter) (item : bytes) : bool :=
  if zlen (bf_data f) =? 0 then false else forallb (get_bit (bf_data f)) (bloom_bits f item).

(** [from_bytes]. *)
Definition bloom_from_bytes (data : bytes) (hash_funcs tweak flags : Z) : BloomFilter :=
  let data := if MAX_BLOOM_FILTER_SIZE <? zlen data then take (Z.to_nat MAX_BLOOM_FILTER_SIZE) data else data in
  let data := if zlen data =? 0 then repeat 0 1024 else data in
  mkBloom data (Z.min 50 (Z.max 1 hash_funcs)) tweak (if flags =? 1 then FlagAll else if flags =? 2 then FlagPubKeyOnly else FlagNone).

(** The part of [new] after the floating-point estimates of the size in bits and of the number
    of hash functions. *)
Definition bloom_new (size_bits hash_funcs tweak : Z) : BloomFilter :=
  let size_bytes := Z.min MAX_BLOOM_FILTER_SIZE (Z.max 1024 ((size_bits + 7) / 8)) in
  mkBloom (repeat 0 (Z.to_nat size_bytes)) (Z.min MAX_HASH_FUNCS (Z.max 1 hash_funcs)) tweak FlagAll.

(** [to_wire], [is_empty] and [is_full]. *)
Definition bloom_to_wire (f : BloomFilter) : bytes * Z * Z * Z :=
  (bf_data f, bf_hash_funcs f, bf_tweak f, match bf_flags f with FlagNone => 0 | FlagAll => 1 | FlagPubKeyOnly => 2 end).
Definition bloom_is_empty (f : BloomFilter) : bool := forallb (Z.eqb 0) (bf_data f).
Definition bloom_is_full (f : BloomFilter) : bool := forallb (Z.eqb 255) (bf_data f).
End Spv.
