(* ===== verification/SpvFacts.v ===== *)
(** * The light client: what it accepts

    The target of a header as a number, the invariant of the header chain, the agreement of the
    mirror types with those of the node, and the Bloom filter. *)

From stdpp Require Import base list gmap strings.
From Stdlib Require Import ZArith Lia.
From S2P Require Import Prelude Script Crypto Engine Standard Merkle Codec Block Consensus Spv.
Import Spv.

(** ** Targets *)

Lemma is_bytes_take n l : is_bytes l -> is_bytes (take n l).
Proof. apply Forall_take. Qed.

Lemma le_bytes_leb_spec n : forall a b, (n <= length a)%nat -> (n <= length b)%nat -> is_bytes a -> is_bytes b ->
  le_bytes_leb n a b = Ok (from_le (take n a) <=? from_le (take n b)).
Proof.
  induction n as [|n IH]; intros a b Ha Hb Ba Bb; [done|]. cbn [le_bytes_leb].
  destruct (lookup_lt_is_Some_2 a n) as [x Hx]; [lia|]. destruct (lookup_lt_is_Some_2 b n) as [y Hy]; [lia|].
  rewrite Hx, Hy. cbn [unwrap rbind]. rewrite (take_S_r _ _ _ Hx), (take_S_r _ _ _ Hy), !from_le_app.
  assert (zlen (take n a) = Z.of_nat n) as -> by (unfold zlen; rewrite length_take; lia).
  assert (zlen (take n b) = Z.of_nat n) as -> by (unfold zlen; rewrite length_take; lia).
  pose proof (from_le_bound _ (is_bytes_take n a Ba)) as HA. pose proof (from_le_bound _ (is_bytes_take n b Bb)) as HB.
  assert (zlen (take n a) = Z.of_nat n) as E1 by (unfold zlen; rewrite length_take; lia).
  assert (zlen (take n b) = Z.of_nat n) as E2 by (unfold zlen; rewrite length_take; lia). rewrite E1 in HA. rewrite E2 in HB.
  cbn [from_le]. rewrite IH by (done || lia). destruct (Z.compare_spec x y) as [->|Hlt|Hgt]; f_equal; symmetry.
  - apply eq_true_iff_eq. rewrite !Z.leb_le. lia.
  - apply Z.leb_le. nia.
  - apply Z.leb_gt. nia.
Qed.

Lemma from_le_insert l : forall i b, l !! i = Some 0 -> from_le (<[i := b]> l) = from_le l + b * 256 ^ Z.of_nat i.
Proof.
  induction l as [|x l IH]; intros [|i] b Hi; cbn in Hi |- *; [done..|injection Hi as ->; lia|]. rewrite IH by done.
  rewrite Nat2Z.inj_succ, Z.pow_succ_r by lia. lia.
Qed.

Lemma from_le_repeat n : from_le (repeat 0 n) = 0.
Proof. induction n as [|n IH]; cbn; [done|]. rewrite IH. done. Qed.

Lemma is_bytes_zeros n : is_bytes (repeat 0 n).
Proof. induction n; cbn; constructor; [by split|done]. Qed.

Lemma lookup_zeros n : forall i, (i < n)%nat -> repeat 0 n !! i = Some 0.
Proof. induction n as [|n IH]; intros [|i] Hi; cbn; [lia..|done|]. apply IH. lia. Qed.

(** The bytes are placed, or the number they make is too large. *)
Lemma place_mantissa_spec mb : forall idx t, length t = 32%nat -> is_bytes t -> is_bytes mb ->
  (forall i, (idx <= i < 32)%nat -> t !! i = Some 0) ->
  match place_mantissa mb idx t with
  | Some t' => from_le t' = from_le t + from_le mb * 256 ^ Z.of_nat idx /\ length t' = 32%nat /\ is_bytes t'
  | None => 256 ^ 32 <= from_le mb * 256 ^ Z.of_nat idx
  end.
Proof.
  induction mb as [|b mb IH]; intros idx t Hlen Ht Hmb Hz; cbn [place_mantissa]; [split; [cbn; lia|done]|].
  apply Forall_cons in Hmb as [Hb Hmb]. pose proof (from_le_bound _ Hmb) as Hbound.
  assert (Hpow : 256 ^ Z.of_nat (S idx) = 256 * 256 ^ Z.of_nat idx) by (rewrite Nat2Z.inj_succ, Z.pow_succ_r; lia).
  assert (0 < 256 ^ Z.of_nat idx) by (apply Z.pow_pos_nonneg; lia). destruct (Z.eqb_spec b 0) as [->|Hne].
  - specialize (IH (S idx) t Hlen Ht Hmb ltac:(intros; apply Hz; lia)). destruct (place_mantissa _ _ _) as [t'|].
    + destruct IH as (-> & ? & ?). split; [cbn [from_le]; rewrite Hpow; lia|done].
    + cbn [from_le]. rewrite Hpow in IH. lia.
  - destruct (Nat.leb_spec 32 idx) as [Hge|Hlt].
    + assert (256 ^ 32 <= 256 ^ Z.of_nat idx) by (apply Z.pow_le_mono_r; lia). cbn [from_le]. unfold is_byte in Hb. nia.
    + specialize (IH (S idx) (<[idx := b]> t)). rewrite length_insert in IH. specialize (IH Hlen ltac:(by apply Forall_insert) Hmb).
      rewrite (from_le_insert t idx b) in IH by (apply Hz; lia).
      assert (forall i, (S idx <= i < 32)%nat -> <[idx := b]> t !! i = Some 0) as Hz'.
      { intros i Hi. rewrite list_lookup_insert_ne by lia. apply Hz. lia. }
      specialize (IH Hz'). destruct (place_mantissa _ _ _) as [t'|]; cbn [from_le].
      * destruct IH as (-> & ? & ?). split; [rewrite Hpow; lia|done].
      * rewrite Hpow in IH. unfold is_byte in Hb. nia.
Qed.

(** The number a compact target stands for. *)
Definition target_of (bits : Z) : Z :=
  let exponent := Z.shiftr bits 24 in
  let mantissa := Z.land bits 0x00ffffff in
  if exponent <=? 3 then mantissa / 256 ^ (3 - exponent) else mantissa * 256 ^ (exponent - 3).

Lemma mantissa_range bits : 0 <= Z.land bits 0x00ffffff < 2 ^ 24.
Proof. change 0x00ffffff with (Z.ones 24). rewrite Z.land_ones by lia. apply Z.mod_pos_bound. lia. Qed.

Lemma take_le32 m : 0 <= m < 2 ^ 24 -> from_le (take 3 (le32 m)) = m /\ is_bytes (take 3 (le32 m)).
Proof.
  intros Hm. change (take 3 (le32 m)) with (to_le 3 m). split; [apply from_le_to_le; lia|]. apply to_le_bytes.
Qed.

Lemma compact_target_spec bits : 0 <= bits <= u32_max ->
  match compact_target bits with
  | Some t => from_le t = target_of bits /\ length t = 32%nat /\ is_bytes t /\ 0 < target_of bits < 2 ^ 256 /\ 0 < Z.shiftr bits 24
  | None => Z.shiftr bits 24 = 0 \/ target_of bits = 0 \/ 2 ^ 256 <= target_of bits
  end.
Proof.
  intros Hbits. unfold compact_target, target_of. pose proof (mantissa_range bits) as Hm. set (m := Z.land bits _) in *.
  assert (0 <= Z.shiftr bits 24) as He by (apply Z.shiftr_nonneg; lia). set (e := Z.shiftr bits 24) in *.
  destruct (Z.eqb_spec e 0) as [E|He0]; [by left|]. destruct (Z.eqb_spec m 0) as [Em|Hm0]; cbn [orb].
  { right. left. rewrite Em. case_match; [apply Z.div_0_l; apply Z.pow_nonzero; lia|lia]. }
  destruct (Z.leb_spec e 3) as [Hle|Hgt].
  - rewrite Z.shiftr_div_pow2 by lia. replace (2 ^ (8 * (3 - e))) with (256 ^ (3 - e)) by (rewrite Z.pow_mul_r by lia; done).
    assert (0 < 256 ^ (3 - e)) as Hp by (apply Z.pow_pos_nonneg; lia). assert (0 <= m / 256 ^ (3 - e)) as Hv by (apply Z.div_pos; lia).
    assert (m / 256 ^ (3 - e) < 2 ^ 24) as Hv' by (apply Z.div_lt_upper_bound; nia). set (v := m / 256 ^ (3 - e)) in *.
    destruct (Z.eqb_spec v 0) as [Ev|Hv0]; [auto|].
    assert ([as_u8 v; as_u8 (Z.shiftr v 8); as_u8 (Z.shiftr v 16)] = to_le 3 v) as ->.
    { unfold as_u8. rewrite !Z.shiftr_div_pow2 by lia. cbn [to_le]. rewrite Zdiv.Zdiv_Zdiv by lia. done. }
    rewrite from_le_app, from_le_repeat, from_le_to_le by lia. split_and!; try lia; [done|].
    apply Forall_app. split; [apply to_le_bytes|apply (is_bytes_zeros 29)].
  - destruct (take_le32 m Hm) as [E1 E2]. pose proof (place_mantissa_spec (take 3 (le32 m)) (Z.to_nat (e - 3)) (repeat 0 32)) as Hp.
    rewrite E1, from_le_repeat, Z2Nat.id in Hp by lia. change (2 ^ 256) with (256 ^ 32).
    assert (0 < 256 ^ (e - 3)) by (apply Z.pow_pos_nonneg; lia).
    destruct (place_mantissa _ _ _) as [t|].
    + destruct Hp as (P1 & P2 & P3); [done|apply is_bytes_zeros|done|intros i Hi; apply lookup_zeros; lia|].
      pose proof (from_le_bound t P3) as Hb. unfold zlen in Hb. rewrite P2 in Hb. change (Z.of_nat 32) with 32 in Hb. split_and!; try done; nia.
    + right. right. apply Hp; [done|apply is_bytes_zeros|done|intros i Hi; apply lookup_zeros; lia].
Qed.

(** The check of a header's hash is the comparison with the number its bits stand for. *)
Lemma hash_meets_target_spec hash bits : length hash = 32%nat -> is_bytes hash -> 0 <= bits <= u32_max ->
  hash_meets_target hash bits =
    Ok ((0 <? Z.shiftr bits 24) && (0 <? target_of bits) && (target_of bits <? 2 ^ 256) && (from_le hash <=? target_of bits)).
Proof.
  intros Hl Hb Hbits. unfold hash_meets_target. pose proof (compact_target_spec bits Hbits) as Hc.
  destruct (compact_target bits) as [t|].
  - destruct Hc as (E & L & Bt & Ht & He). rewrite le_bytes_leb_spec by (done || lia). rewrite !take_ge, E by lia. f_equal.
    by rewrite !(proj2 (Z.ltb_lt _ _)) by lia.
  - f_equal. symmetry. apply andb_false_iff. left. apply andb_false_iff.
    destruct Hc as [E|[E|E]]; [left; by rewrite E|left; by rewrite E, andb_false_r|right; by apply Z.ltb_ge].
Qed.

Lemma meets_target_total hash bits : length hash = 32%nat -> is_bytes hash -> 0 <= bits <= u32_max ->
  exists b, hash_meets_target hash bits = Ok b.
Proof. intros. eexists. by apply hash_meets_target_spec. Qed.

(** ** The header chain *)

Section chain.
Context {C : Crypto} {CL : CryptoLaws C} {SB : SpvBincode}.

(** What the types guarantee; the last height is left out, whose successor does not exist. *)
Definition typed_header (h : SpvHeader) : Prop := 0 <= sh_height h < u32_max /\ 0 <= sh_bits h <= u32_max.
Definition typed_clock (now : Z) : Prop := 0 <= now <= u32_max - 7200.

(** The chain of headers. [anchor] is a first header that was trusted without a parent, [T] are
    the headers that were trusted. *)
Record spv_ok (anchor : option bytes) (T : gset bytes) (c : SpvChain) : Prop := {
  sk_key : forall h x, sc_headers c !! h = Some x -> spv_header_hash x = h /\ typed_header x;
  sk_dom : forall h, is_Some (sc_work c !! h) <-> is_Some (sc_headers c !! h);
  sk_link : forall h x, sc_headers c !! h = Some x -> 0 < sh_height x -> anchor <> Some h ->
    exists p wp, sc_headers c !! sh_prev_hash x = Some p /\ sh_height x = sh_height p + 1 /\ sh_timestamp p < sh_timestamp x /\
      sc_work c !! sh_prev_hash x = Some wp /\ sc_work c !! h = Some (sat_add u128_max wp (header_work (sh_bits x)));
  sk_root : forall h x, sc_headers c !! h = Some x -> sh_height x = 0 \/ anchor = Some h -> sc_work c !! h = Some (header_work (sh_bits x));
  sk_pow : forall h x, sc_headers c !! h = Some x -> h ∉ T -> spv_is_pos x = false /\ hash_meets_target h (sh_bits x) = Ok true;
  sk_best : match sc_best_hash c with
            | None => sc_headers c = ∅
            | Some b => exists x w, sc_headers c !! b = Some x /\ sc_best_height c = sh_height x /\ sc_work c !! b = Some w /\
                forall h w', sc_work c !! h = Some w' -> w' <= w
            end;
  sk_anchor : forall a, anchor = Some a -> is_Some (sc_headers c !! a);
}.

Lemma spv_ok_new : spv_ok None ∅ new_spv_chain.
Proof. split; try done. cbn. intros h. by rewrite !lookup_empty. Qed.

Lemma header_work_range bits : 0 <= header_work bits <= u128_max.
Proof.
  unfold header_work. pose proof (mantissa_range bits). destruct (Z.eqb_spec (Z.land bits 16777215) 0); [done|].
  destruct (Z.leb_spec 128 (sat_sub 280 (8 * Z.shiftr bits 24))) as [|Hs]; [done|]. rewrite Z.shiftl_mul_pow2 by (unfold sat_sub; lia).
  assert (0 < 2 ^ sat_sub 280 (8 * Z.shiftr bits 24) <= 2 ^ 127).
  { split; [apply Z.pow_pos_nonneg; unfold sat_sub; lia|]. apply Z.pow_le_mono_r; lia. }
  split; [apply Z.div_pos; lia|]. etrans; [apply Z.div_le_upper_bound with (q := 2 ^ 127); nia|done].
Qed.

(** A new header under its parent, or as a root: the tip stays the header with the most work. *)
Lemma insert_header_ok anchor anchor' T T' c h x w :
  spv_ok anchor T c -> sc_headers c !! h = None -> spv_header_hash x = h -> typed_header x -> T ⊆ T' ->
  (h ∉ T' -> spv_is_pos x = false /\ hash_meets_target h (sh_bits x) = Ok true) ->
  (anchor' = anchor \/ (sc_headers c = ∅ /\ anchor' = Some h)) ->
  (0 < sh_height x -> anchor' <> Some h ->
     exists p wp, sc_headers c !! sh_prev_hash x = Some p /\ sh_height x = sh_height p + 1 /\ sh_timestamp p < sh_timestamp x /\
       sc_work c !! sh_prev_hash x = Some wp /\ w = sat_add u128_max wp (header_work (sh_bits x))) ->
  (sh_height x = 0 \/ anchor' = Some h -> w = header_work (sh_bits x)) ->
  runs (insert_header h x w) (fun _ c' => spv_ok anchor' T' c' /\ sc_headers c' = <[h := x]> (sc_headers c)) (fun _ _ => False) c.
Proof.
  intros [K1 K2 K3 K4 K5 K6 K7] Hn Hh Hty HT Hpow Ha Hlink Hroot. unfold insert_header.
  assert (Hw : sc_work c !! h = None).
  { apply eq_None_not_Some. intros Hx%K2. rewrite Hn in Hx. by destruct Hx. }
  assert (Hrest : forall best bh,
    match best with
    | None => <[h := x]> (sc_headers c) = ∅
    | Some b => exists y w', <[h := x]> (sc_headers c) !! b = Some y /\ bh = sh_height y /\ <[h := w]> (sc_work c) !! b = Some w' /\
        forall h' w'', <[h := w]> (sc_work c) !! h' = Some w'' -> w'' <= w'
    end -> spv_ok anchor' T' (mkSpvChain (<[h := x]> (sc_headers c)) (<[h := w]> (sc_work c)) best bh)).
  { intros best bh Hbest. split; cbn; [| | | | |exact Hbest|].
    - intros h' y [[<- <-]|[_ Hy]]%lookup_insert_Some; [done|auto].
    - intros h'. destruct (decide (h' = h)) as [->|Hne]; [rewrite !lookup_insert_eq; split; by eexists|]. by rewrite !lookup_insert_ne.
    - intros h' y [[<- <-]|[Hne Hy]]%lookup_insert_Some Hpos Han.
      + destruct (Hlink Hpos Han) as (p & wp & P1 & P2 & P3 & P4 & P5). exists p, wp.
        assert (sh_prev_hash x <> h) by congruence. rewrite !lookup_insert_ne, lookup_insert_eq by done. by rewrite P5.
      + destruct (K3 h' y Hy Hpos) as (p & wp & P1 & P2 & P3 & P4 & P5).
        { destruct Ha as [<-|[E _]]; [done|]. by rewrite E in Hy. }
        exists p, wp. assert (sh_prev_hash y <> h) by congruence. by rewrite !lookup_insert_ne.
    - intros h' y [[<- <-]|[Hne Hy]]%lookup_insert_Some Hr; [rewrite lookup_insert_eq; f_equal; by apply Hroot|].
      rewrite lookup_insert_ne by done. apply (K4 h' y Hy). destruct Hr as [?|Hr]; [auto|]. destruct Ha as [<-|[_ E]]; [auto|congruence].
    - intros h' y [[<- <-]|[Hne Hy]]%lookup_insert_Some Hnt; [auto|]. apply K5; [done|]. intros Hx%HT. done.
    - intros a Ea. destruct (decide (a = h)) as [->|Hne]; [rewrite lookup_insert_eq; by eexists|]. rewrite lookup_insert_ne by done.
      destruct Ha as [<-|[_ E]]; [by apply K7|congruence]. }
  unfold runs, sbind, smod, sget, slift, sret, id. cbn [sc_best_hash sc_work].
  destruct (sc_best_hash c) as [b|] eqn:Eb.
  - destruct K6 as (y & wb & B1 & B2 & B3 & B4). assert (b <> h) by congruence.
    rewrite lookup_insert_ne, B3 by done. cbn [unwrap rbind]. destruct (Z.ltb_spec wb w) as [Hlt|Hge]; (split; [|done]); apply Hrest.
    + exists x, w. rewrite !lookup_insert_eq. split_and!; try done. intros h' w' [[_ <-]|[_ Hw']]%lookup_insert_Some; [lia|]. apply B4 in Hw'. lia.
    + exists y, wb. rewrite !lookup_insert_ne by done. split_and!; try done. intros h' w' [[_ <-]|[_ Hw']]%lookup_insert_Some; [lia|]. by eapply B4.
  - cbn [rbind]. split; [|done]. apply Hrest. exists x, w. rewrite !lookup_insert_eq. split_and!; try done.
    intros h' w' [[_ <-]|[_ Hw']]%lookup_insert_Some; [lia|]. apply mk_is_Some, K2 in Hw'. rewrite K6, lookup_empty in Hw'. by destruct Hw'.
Qed.

Lemma check_future_safe now x : typed_clock now -> safe (check_future now x).
Proof.
  intros Hn. unfold check_future, padd, checked_add, typed_clock in *. rewrite (proj2 (Z.leb_le _ _)) by lia. cbn. by case_match.
Qed.

Lemma check_parent_safe c x : (forall p, sc_headers c !! sh_prev_hash x = Some p -> typed_header p) -> safe (check_parent c x).
Proof.
  intros Hp. unfold check_parent. case_match; [|done]. destruct (sc_headers c !! sh_prev_hash x) as [p|]; [|done]. case_match; [done|].
  destruct (Hp p eq_refl) as [? _]. unfold padd, checked_add. rewrite (proj2 (Z.leb_le _ _)) by lia. cbn. by case_match.
Qed.

(** [add_header_inner] adds the header or leaves the chain alone, and never stops. *)
Lemma add_header_inner_ok anchor T c now x (trusted : bool) :
  spv_ok anchor T c -> typed_header x -> typed_clock now -> (trusted = false -> spv_is_pos x = false) ->
  runs (add_header_inner now x trusted)
    (fun _ c' => exists anchor', spv_ok anchor' (if trusted then {[spv_header_hash x]} ∪ T else T) c' /\
       (is_Some (sc_headers c !! spv_header_hash x) \/ sc_headers c' = <[spv_header_hash x := x]> (sc_headers c)))
    (fun _ c' => c' = c) c.
Proof.
  intros Hok Hty Hnow Hpos. unfold add_header_inner. set (h := spv_header_hash x). runs_step. runs_step. unfold id.
  case_bool_decide as Hdup; [runs_step; exists anchor|].
  { split; [|by left]. destruct Hok as [K1 K2 K3 K4 K5 K6 K7]. split; try done. intros h' y Hy Hn. apply K5; [done|].
    destruct trusted; [|done]. rewrite elem_of_union in Hn. tauto. }
  apply eq_None_not_Some in Hdup. runs_step; intros Hun; [by runs_step|]. runs_step.
  eapply (runs_mono _ (fun _ c' => c' = c /\ (trusted = false -> hash_meets_target h (sh_bits x) = Ok true)) _ (fun _ c' => c' = c)); [| |done].
  { destruct trusted; [by runs_step|]. destruct (meets_target_total h (sh_bits x)) as [b Hb]; [apply sha256_len|apply sha256_bytes|apply Hty|].
    rewrite Hb. by destruct b. }
  intros _ c1 [-> Hmeet]. runs_step. runs_step; [apply check_future_safe, Hnow|intros _ _|done].
  pose proof (sk_dom _ _ _ Hok (sh_prev_hash x)) as Hdom.
  assert (Hp : forall p, sc_headers c !! sh_prev_hash x = Some p -> typed_header p) by (intros p Hp; by apply (sk_key _ _ _ Hok) in Hp as [_ ?]).
  runs_step. runs_step; [by apply check_parent_safe|intros [] Hpar|done]. runs_step.
  assert (Hwork : safe (parent_work c x)).
  { unfold parent_work. case_bool_decide as Hs; cbn [negb]; [|by rewrite orb_true_r]. destruct (_ || _); [done|].
    apply Hdom in Hs as [w ->]. done. }
  runs_step; [done|intros wp Hwp|done].
  set (anchor' := if (0 <? sh_height x) && bool_decide (sc_headers c !! sh_prev_hash x = None) then Some h else anchor).
  eapply runs_mono; [apply (insert_header_ok anchor anchor' T (if trusted then {[h]} ∪ T else T) c h x _ Hok Hdup eq_refl Hty)| |done].
  - destruct trusted; [apply union_subseteq_r|done].
  - destruct trusted; [|by auto]. rewrite elem_of_union, elem_of_singleton. tauto.
  - unfold anchor'. case_match eqn:E; [|by left]. apply andb_true_iff in E as [E1 E2%bool_decide_eq_true]. right. split; [|done].
    rewrite E1, E2 in Hun. rewrite bool_decide_eq_false_2 in Hun by (by intros [? ?]). cbn in Hun. destruct trusted; [|done].
    cbn in Hun. apply negb_false_iff, bool_decide_eq_true in Hun. done.
  - intros Hh Han. unfold anchor' in Han. rewrite (proj2 (Z.ltb_lt _ _)) in Han by done. unfold check_parent in Hpar.
    rewrite (proj2 (Z.ltb_lt _ _)) in Hpar by done. unfold parent_work in Hwp. rewrite (proj2 (Z.eqb_neq _ _)) in Hwp by lia.
    destruct (sc_headers c !! sh_prev_hash x) as [p|] eqn:Ep; [|by rewrite bool_decide_eq_true_2 in Han].
    destruct (Z.leb_spec (sh_timestamp x) (sh_timestamp p)); [done|]. destruct (Hp p eq_refl) as [Hpr _].
    unfold padd, checked_add in Hpar. rewrite (proj2 (Z.leb_le _ _)) in Hpar by lia. cbn in Hpar.
    destruct (Z.eqb_spec (sh_height x) (sh_height p + 1)); [|done]. cbn in Hwp. destruct (sc_work c !! sh_prev_hash x) as [w|] eqn:Ew; [|done].
    injection Hwp as <-. by exists p, w.
  - intros Hr. pose proof (header_work_range (sh_bits x)). assert (wp = 0) as ->; [|unfold sat_add; lia]. unfold parent_work in Hwp.
    destruct Hr as [E|E]; [rewrite E in Hwp; by injection Hwp|]. unfold anchor' in E. case_match eqn:E1.
    + apply andb_true_iff in E1 as [_ E1%bool_decide_eq_true]. rewrite E1 in Hwp. rewrite orb_true_r in Hwp. by injection Hwp.
    + apply (sk_anchor _ _ _ Hok) in E. rewrite Hdup in E. by destruct E.
  - intros [] c' [Hc' Eh]. exists anchor'. auto.
Qed.

(** [add_pos_header] refuses. *)
Lemma add_pos_header_refused now x proof c : (add_pos_header now x proof c).1 = c /\ (add_pos_header now x proof c).2 <> Ok tt.
Proof.
  unfold add_pos_header, sbind, serr, slift, sget, id. repeat case_match; try done; cbn;
    repeat match goal with H : (_, _) = (_, _) |- _ => injection H as <- <- end; done.
Qed.

(** The chains a client can reach, with the headers it trusted. *)
Inductive followed : SpvChain -> gset bytes -> Prop :=
  | fw_new : followed new_spv_chain ∅
  | fw_header c T now x c' r : followed c T -> typed_clock now -> typed_header x -> add_header now x c = (c', r) -> followed c' T
  | fw_headers c T now xs c' r : followed c T -> typed_clock now -> Forall typed_header xs -> add_headers now xs c = (c', r) -> followed c' T
  | fw_trusted c T now x c' r : followed c T -> typed_clock now -> typed_header x -> add_trusted_header now x c = (c', r) ->
      followed c' ({[spv_header_hash x]} ∪ T)
  | fw_pos c T now x proof c' r : followed c T -> add_pos_header now x proof c = (c', r) -> followed c' T.

Lemma add_header_ok anchor T c now x : spv_ok anchor T c -> typed_header x -> typed_clock now ->
  runs (add_header now x) (fun _ c' => exists anchor', spv_ok anchor' T c') (fun _ c' => c' = c) c.
Proof.
  intros Hok Hty Hnow. unfold add_header. runs_step; intros Hp; [by runs_step|].
  eapply runs_mono; [by apply (add_header_inner_ok anchor T)| |done]. cbn. intros _ c' (anchor' & Hc' & _). by exists anchor'.
Qed.

Lemma add_headers_ok xs : forall anchor T c now added, spv_ok anchor T c -> Forall typed_header xs -> typed_clock now ->
  (add_headers_from now added xs c).2 <> Panic /\ exists anchor', spv_ok anchor' T (add_headers_from now added xs c).1.
Proof.
  induction xs as [|x xs IH]; intros anchor T c now added Hok Hty Hnow; [by split; [|exists anchor]|].
  apply Forall_cons in Hty as [Hx Hty]. cbn [add_headers_from]. pose proof (add_header_ok anchor T c now x Hok Hx Hnow) as Hr. unfold runs in Hr.
  destruct (add_header now x c) as [c1 [u|e|]]; [|subst c1|done].
  - destruct Hr as [anchor1 Hc1]. by apply (IH anchor1).
  - split; [by case_match|]. by exists anchor.
Qed.

Lemma followed_ok c T : followed c T -> exists anchor, spv_ok anchor T c.
Proof.
  induction 1 as [|c T now x c' r _ [an IH] Hn Hx E|c T now xs c' r _ [an IH] Hn Hx E|c T now x c' r _ [an IH] Hn Hx E|c T now x proof c' r _ [an IH] E].
  - exists None. apply spv_ok_new.
  - pose proof (add_header_ok an T c now x IH Hx Hn) as Hr. unfold runs in Hr. rewrite E in Hr. destruct r; [done|subst; by exists an|done].
  - destruct (add_headers_ok xs an T c now 0 IH Hx Hn) as [_ [an' Hc']]. unfold add_headers in E. rewrite E in Hc'. by exists an'.
  - pose proof (add_header_inner_ok an T c now x true IH Hx Hn ltac:(done)) as Hr. unfold runs, add_trusted_header in *. rewrite E in Hr.
    destruct r; [|subst c'|done]; [destruct Hr as (an' & ? & _); by exists an'|]. exists an. destruct IH as [K1 K2 K3 K4 K5 K6 K7].
    split; try done. intros h y Hy Hni. apply K5; [done|]. rewrite elem_of_union in Hni. tauto.
  - destruct (add_pos_header_refused now x proof c) as [E' _]. rewrite E in E'. cbn in E'. subst c'. by exists an.
Qed.

(** A stake proof stops no check: the script signatures it carries are bytes. *)
Definition typed_proof (proof : StakeProof) : Prop := Forall (fun i => is_bytes (si_script_sig i)) (st_inputs (coinstake proof)).

Lemma split_script_sig_safe s1 s2 s3 s4 min tail b : 1 <= min -> is_bytes b -> safe (split_script_sig s1 s2 s3 s4 min tail b).
Proof.
  intros Hm Hb. unfold split_script_sig. apply safe_if; intros H1; [done|]. apply Z.ltb_ge in H1.
  apply safe_bind; [apply safe_vec_get; lia|]. intros n Hn. assert (0 <= n).
  { destruct b as [|x b]; [done|]. apply Forall_cons in Hb as [Hx _]. cbn in Hn, Hx. injection Hn as <-. unfold is_byte in Hx; lia. }
  apply safe_if; intros H2; [done|]. apply Z.ltb_ge in H2. apply safe_bind; [case_match; panic_free|]. intros _ _.
  apply safe_bind; [apply safe_vec_get; lia|]. intros k _. panic_free.
Qed.

Lemma check_ecdsa_safe s h d k : safe (check_ecdsa s h d k).
Proof. unfold check_ecdsa. panic_free. Qed.

Lemma single_input proof : typed_proof proof -> zlen (st_inputs (coinstake proof)) = 1 ->
  exists i, st_inputs (coinstake proof) !! 0%nat = Some i /\ is_bytes (si_script_sig i).
Proof.
  unfold typed_proof, zlen. destruct (st_inputs (coinstake proof)) as [|i l]; [done|]. intros [Hi _]%Forall_cons _. by exists i.
Qed.

Lemma verify_p2pkh_signature_safe tx u i : st_inputs tx !! 0%nat = Some i -> is_bytes (si_script_sig i) -> safe (verify_p2pkh_signature tx u).
Proof.
  intros Ei Hi. unfold verify_p2pkh_signature. rewrite Ei. cbn [unwrap rbind].
  apply safe_bind; [by apply split_script_sig_safe|]. intros [d k] _. apply safe_bind; [apply check_ecdsa_safe|]. intros _ _. panic_free.
Qed.

Lemma verify_p2cs_signature_safe tx u i : st_inputs tx !! 0%nat = Some i -> is_bytes (si_script_sig i) -> safe (verify_p2cs_signature tx u).
Proof.
  intros Ei Hi. unfold verify_p2cs_signature. rewrite Ei. cbn [unwrap rbind].
  apply safe_bind; [by apply split_script_sig_safe|]. intros [d k] Es. apply safe_bind.
  { unfold vec_last. destruct (rev (si_script_sig i)) eqn:Er; [|done]. apply (f_equal (@rev Z)) in Er. rewrite rev_involutive in Er.
    by rewrite Er in Es. }
  intros l _. apply safe_if; intros _; [done|]. apply safe_bind; [apply safe_map_err; unfold Scripts.from_bytes; panic_free|].
  intros sc _. case_match; try done. apply safe_if; intros _; [done|]. apply safe_bind; [apply check_ecdsa_safe|]. intros _ _. panic_free.
Qed.

Lemma check_pos_header_safe now x p proof : typed_clock now -> typed_header p -> safe (check_pos_header now x p proof).
Proof.
  intros Hn [Hp _]. unfold check_pos_header. apply safe_bind.
  { unfold padd, checked_add. by rewrite (proj2 (Z.leb_le _ _)) by lia. }
  intros e _. apply safe_if; intros _; [done|]. apply safe_if; intros _; [done|]. apply safe_bind; [by apply check_future_safe|].
  intros _ _. panic_free.
Qed.

Lemma check_pos_proof_safe x p proof : safe (check_pos_proof x p proof) /\
  (check_pos_proof x p proof = Ok tt -> zlen (st_inputs (coinstake proof)) = 1).
Proof.
  unfold check_pos_proof. destruct (spv_is_coinstake _); cbn [negb]; [|done].
  destruct (Z.eqb_spec (zlen (st_inputs (coinstake proof))) 1) as [E|]; cbn [negb]; [|done]. split; [|done].
  apply safe_bind; [case_match; panic_free|]. intros _ _. apply safe_if; intros _; [done|].
  apply safe_bind; [apply safe_map_err; unfold verify; panic_free|]. intros _ _. apply safe_if; intros _; [done|]. apply safe_if; intros _; [done|].
  apply safe_bind; [apply safe_map_err; unfold verify_inclusion; panic_free|]. intros _ _.
  apply safe_bind; [|intros i _; panic_free]. by destruct (st_inputs (coinstake proof)).
Qed.

Lemma check_pos_stake_safe x proof : typed_proof proof -> zlen (st_inputs (coinstake proof)) = 1 -> safe (check_pos_stake x proof).
Proof.
  intros Ht Hl. destruct (single_input proof Ht Hl) as (i & Ei & Hi). unfold check_pos_stake.
  apply safe_if; intros _; [done|]. apply safe_if; intros _; [done|]. apply safe_if; intros _; [done|].
  apply safe_bind; [|intros _ _; panic_free].
  apply safe_if; intros _; [by eapply verify_p2cs_signature_safe|by eapply verify_p2pkh_signature_safe].
Qed.

(** A stake header stops the client no more than another. *)
Lemma add_pos_header_safe anchor T c now x proof :
  spv_ok anchor T c -> typed_clock now -> typed_proof proof -> (add_pos_header now x proof c).2 <> Panic.
Proof.
  intros Hok Hn Hp. unfold add_pos_header. destruct (negb (spv_is_pos x)); [done|]. destruct (sh_height x =? 0); [done|].
  unfold sbind, serr, slift, sget, id. cbn. destruct (sc_headers c !! sh_prev_hash x) as [p|] eqn:Ep; [|done]. cbn.
  pose proof (check_pos_header_safe now x p proof Hn (proj2 (sk_key _ _ _ Hok _ _ Ep))) as H1.
  destruct (check_pos_header now x p proof); [|done..]. destruct (check_pos_proof_safe x p proof) as [H2 Hl].
  destruct (check_pos_proof x p proof) as [[]| |]; [|done..]. pose proof (check_pos_stake_safe x proof Hp (Hl eq_refl)) as H3.
  by destruct (check_pos_stake x proof).
Qed.


(** The same header with another height. *)
Definition at_spv_height (k : Z) (x : SpvHeader) : SpvHeader :=
  mkSpvHeader (sh_version x) (sh_prev_hash x) (sh_merkle_root x) (sh_utxo_root x) (sh_timestamp x) (sh_bits x) (sh_nonce x)
    (sh_stake_modifier x) k.

Lemma known_header_ignored now x c : spv_is_pos x = false -> is_Some (sc_headers c !! spv_header_hash x) -> add_header now x c = (c, Ok tt).
Proof.
  intros Hp Hs. unfold add_header, add_header_inner, sbind, sget, id. rewrite Hp. by rewrite bool_decide_eq_true_2.
Qed.

(** A header that claims height 0 needs its own proof of work and nothing else, whatever the chain holds. *)
Lemma height_zero_accepted anchor T c now x :
  spv_ok anchor T c -> typed_clock now -> typed_header x -> spv_is_pos x = false -> sh_height x = 0 ->
  hash_meets_target (spv_header_hash x) (sh_bits x) = Ok true -> sh_timestamp x <= now + 7200 ->
  sc_headers c !! spv_header_hash x = None ->
  exists c', add_header now x c = (c', Ok tt) /\ sc_headers c' = <[spv_header_hash x := x]> (sc_headers c).
Proof.
  intros Hok Hn Hty Hp Hh Hm Ht Hnew. pose proof (add_header_inner_ok anchor T c now x false Hok Hty Hn ltac:(done)) as Hr.
  assert (Hne : forall e, (add_header_inner now x false c).2 <> Err e).
  { intros e. unfold add_header_inner, sbind, sget, slift, serr, sret, id. rewrite Hnew, Hh, Hm.
    rewrite bool_decide_eq_false_2 by (by intros [? ?]). cbn [Z.ltb Z.compare andb].
    unfold check_future, padd, checked_add. unfold typed_clock in Hn. rewrite (proj2 (Z.leb_le _ _)) by lia. cbn [unwrap rbind].
    rewrite (proj2 (Z.ltb_ge _ _)) by lia. unfold check_parent, parent_work. rewrite Hh. cbn.
    destruct (sc_best_hash c) as [b|]; [|done]. cbn. match goal with |- context [unwrap ?o] => destruct o as [w|] end; [|done]. cbn. by destruct (w <? _). }
  unfold add_header. rewrite Hp. unfold runs in Hr. destruct (add_header_inner now x false c) as [c' [[]|e|]]; [|by destruct (Hne e)|done].
  exists c'. split; [done|]. destruct Hr as (_ & _ & [Hs|E]); [|done]. rewrite Hnew in Hs. by destruct Hs.
Qed.

(** C36: the height of a header is not part of its hash, and a chain that is not empty accepts a
    header it does not have that claims height 0, whatever its parent: such a header only needs
    to be a proof-of-work header whose hash meets the target it states and whose time is at most
    two hours ahead of the clock. From then on the client has the header at that height: the header
    with its real height [k] changes nothing, and a proof-of-work child at height [k + 1] that is
    valid otherwise is refused for its height. *)
Theorem misplaced_header_sticks c T now x :
  followed c T -> sc_headers c <> ∅ -> typed_clock now -> typed_header x -> spv_is_pos x = false -> sh_height x = 0 ->
  hash_meets_target (spv_header_hash x) (sh_bits x) = Ok true -> sh_timestamp x <= now + 7200 ->
  sc_headers c !! spv_header_hash x = None ->
  exists c', add_header now x c = (c', Ok tt) /\ sc_headers c' = <[spv_header_hash x := x]> (sc_headers c) /\
    forall now' k, typed_clock now' -> 0 < k ->
      add_header now' (at_spv_height k x) c' = (c', Ok tt) /\
      (forall y, sh_prev_hash y = spv_header_hash x -> sh_height y = k + 1 -> sc_headers c' !! spv_header_hash y = None ->
         spv_is_pos y = false -> hash_meets_target (spv_header_hash y) (sh_bits y) = Ok true ->
         sh_timestamp x < sh_timestamp y <= now' + 7200 ->
         add_header now' y c' = (c', Err (HeightMismatch 1 (k + 1)))).
Proof.
  intros [anchor Hok]%followed_ok _ Hn0 Htx Hp Hh Hmx Htx0 Hnew.
  destruct (height_zero_accepted anchor T c now x) as (c' & E & Ec'); try done. exists c'. split; [done|]. split; [done|].
  assert (Hx : sc_headers c' !! spv_header_hash x = Some x) by (rewrite Ec'; apply lookup_insert_eq).
  intros now' k Hn Hk. split; [apply known_header_ignored; [done|by exists x]|]. intros y Ey Hy Hny Hpy Hm [Ht1 Ht2].
  unfold add_header, add_header_inner, sbind, sget, slift, serr, sret, id. rewrite Hpy, Hny, Ey, Hx, Hm, Hy.
  rewrite bool_decide_eq_false_2 by (by intros [? ?]). rewrite (bool_decide_eq_true_2 (is_Some (Some x))) by done. cbn [negb]. rewrite andb_false_r. cbn [andb].
  unfold check_future, padd, checked_add. unfold typed_clock in Hn. rewrite (proj2 (Z.leb_le _ _)) by lia. cbn [unwrap rbind].
  rewrite (proj2 (Z.ltb_ge _ _)) by lia. unfold check_parent. rewrite Hy, Ey, Hx, (proj2 (Z.ltb_lt 0 (k + 1))) by lia.
  rewrite (proj2 (Z.leb_gt _ _)) by lia. rewrite Hh. change (padd u32_max 0 1) with (Ok (E := SpvFailure) 1). cbn [rbind].
  by rewrite (proj2 (Z.eqb_neq _ _)) by lia.
Qed.
End chain.

(** ** The filter *)

Lemma get_set_bit data bit bit' : 0 <= bit -> 0 <= bit' -> get_bit data bit' = true -> get_bit (set_bit data bit) bit' = true.
Proof.
  intros Hb Hb'. unfold get_bit, set_bit. destruct (decide (Z.to_nat (bit / 8) = Z.to_nat (bit' / 8))) as [E|Hne].
  - rewrite E, list_lookup_alter_eq. destruct (data !! Z.to_nat (bit' / 8)) as [b|]; [|done]. cbn.
    rewrite !negb_true_iff, !Z.eqb_neq. intros Hn Hz. apply Hn. rewrite Z.land_lor_distr_l in Hz. by apply Z.lor_eq_0_iff in Hz as [? _].
  - by rewrite list_lookup_alter_ne.
Qed.

Lemma set_bit_get data bit : 0 <= bit < zlen data * 8 -> get_bit (set_bit data bit) bit = true.
Proof.
  intros Hb. unfold get_bit, set_bit. rewrite list_lookup_alter_eq.
  destruct (lookup_lt_is_Some_2 data (Z.to_nat (bit / 8))) as [b ->].
  { unfold zlen in Hb. pose proof (Z.div_lt_upper_bound bit 8 (Z.of_nat (length data)) ltac:(lia) ltac:(lia)). pose proof (Z.div_pos bit 8). lia. }
  cbn. apply negb_true_iff, Z.eqb_neq. rewrite Z.land_lor_distr_l, Z.land_diag. intros [_ Hz]%Z.lor_eq_0_iff. rewrite Z.shiftl_1_l in Hz.
  pose proof (Z.pow_pos_nonneg 2 (bit mod 8) ltac:(lia) ltac:(apply Z.mod_pos_bound; lia)). lia.
Qed.

Lemma length_set_bit data bit : length (set_bit data bit) = length data.
Proof. apply length_alter. Qed.

Lemma set_bits_spec bits : forall data, Forall (fun bit => 0 <= bit < zlen data * 8) bits ->
  length (fold_left set_bit bits data) = length data /\
  (forall bit, 0 <= bit -> bit ∈ bits \/ get_bit data bit = true -> get_bit (fold_left set_bit bits data) bit = true).
Proof.
  induction bits as [|b bits IH]; intros data Hb; cbn [fold_left].
  { split; [done|]. intros bit _ [[]%elem_of_nil|?]; done. }
  apply Forall_cons in Hb as [Hb Hbs]. destruct (IH (set_bit data b)) as [I1 I2].
  { unfold zlen in *. by rewrite length_set_bit. }
  rewrite I1, length_set_bit. split; [done|]. intros bit Hbit [[->|Hin]%elem_of_cons|Hg]; apply I2; try done; [right|by left|right].
  - by apply set_bit_get.
  - apply get_set_bit; [lia|done|done].
Qed.

Lemma bloom_bits_range f item : 0 < zlen (bf_data f) -> Forall (fun bit => 0 <= bit < zlen (bf_data f) * 8) (bloom_bits f item).
Proof.
  intros Hl. unfold bloom_bits. apply Forall_forall. intros bit (i & -> & _)%list_elem_of_fmap. apply Z.mod_pos_bound. lia.
Qed.

Lemma bloom_bits_same f d item : zlen d = zlen (bf_data f) ->
  bloom_bits (mkBloom d (bf_hash_funcs f) (bf_tweak f) (bf_flags f)) item = bloom_bits f item.
Proof. intros E. unfold bloom_bits, bloom_hash. cbn. by rewrite E. Qed.

Lemma bloom_insert_keeps f item other : 0 < zlen (bf_data f) ->
  zlen (bf_data (bloom_insert f item)) = zlen (bf_data f) /\ bloom_contains (bloom_insert f item) item = true /\
  (bloom_contains f other = true -> bloom_contains (bloom_insert f item) other = true).
Proof.
  intros Hl. pose proof (bloom_bits_range f item Hl) as Hr. destruct (set_bits_spec _ _ Hr) as [L G].
  unfold bloom_insert. rewrite (proj2 (Z.eqb_neq _ _)) by lia.
  assert (Hz : zlen (fold_left set_bit (bloom_bits f item) (bf_data f)) = zlen (bf_data f)) by (unfold zlen; by rewrite L).
  assert (Hsame : forall x, bloom_bits (mkBloom (fold_left set_bit (bloom_bits f item) (bf_data f)) (bf_hash_funcs f) (bf_tweak f) (bf_flags f)) x = bloom_bits f x).
  { intros x. by apply bloom_bits_same. }
  unfold bloom_contains. rewrite !Hsame. cbn [bf_data]. rewrite Hz. rewrite (proj2 (Z.eqb_neq _ _)) by lia. split; [done|].
  rewrite !forallb_forall. split.
  - intros bit Hin%list_elem_of_In. rewrite Forall_forall in Hr. apply G; [by apply Hr|by left].
  - intros Ho bit Hin%list_elem_of_In. pose proof (bloom_bits_range f other Hl) as Hr'. rewrite Forall_forall in Hr'.
    apply G; [by apply Hr'|]. right. apply Ho. by apply list_elem_of_In.
Qed.

(** the filter has no false negatives, also after it travelled. A filter received from a
    peer is within the protocol's limits, sending it on and reading it back gives the same
    filter, and whatever is inserted is found afterwards, before and after more insertions. *)
Theorem bloom_no_false_negatives data hash_funcs tweak flags items x :
  let f := bloom_from_bytes data hash_funcs tweak flags in
  1 <= zlen (bf_data f) <= MAX_BLOOM_FILTER_SIZE /\ 1 <= bf_hash_funcs f <= MAX_HASH_FUNCS /\
  (let '(d, k, t, fl) := bloom_to_wire (fold_left bloom_insert items f) in bloom_from_bytes d k t fl) = fold_left bloom_insert items f /\
  (x ∈ items -> bloom_contains (fold_left bloom_insert items f) x = true).
Proof.
  cbn zeta. set (f := bloom_from_bytes data hash_funcs tweak flags).
  assert (Hf : 1 <= zlen (bf_data f) <= MAX_BLOOM_FILTER_SIZE /\ 1 <= bf_hash_funcs f <= MAX_HASH_FUNCS).
  { unfold f, bloom_from_bytes. cbn [bf_data bf_hash_funcs]. split; [|unfold MAX_HASH_FUNCS; lia].
    pose proof (zlen_nonneg data). destruct (Z.ltb_spec MAX_BLOOM_FILTER_SIZE (zlen data)) as [Hlt|Hge].
    - assert (zlen (take (Z.to_nat MAX_BLOOM_FILTER_SIZE) data) = MAX_BLOOM_FILTER_SIZE) as E by (unfold zlen, MAX_BLOOM_FILTER_SIZE in *; rewrite length_take; lia).
      rewrite E. unfold MAX_BLOOM_FILTER_SIZE. cbn [Z.eqb]. unfold MAX_BLOOM_FILTER_SIZE in E. rewrite E. lia.
    - destruct (Z.eqb_spec (zlen data) 0); [by vm_compute|lia]. }
  assert (Hfold : forall items f, 1 <= zlen (bf_data f) <= MAX_BLOOM_FILTER_SIZE ->
    let f' := fold_left bloom_insert items f in
    zlen (bf_data f') = zlen (bf_data f) /\ bf_hash_funcs f' = bf_hash_funcs f /\
    (forall x, x ∈ items \/ bloom_contains f x = true -> bloom_contains f' x = true)).
  { clear. induction items as [|i items IH]; intros f Hf; cbn [fold_left]; [split; [done|]; split; [done|]; intros x [[]%elem_of_nil|?]; done|].
    destruct (bloom_insert_keeps f i i) as (L & I & _); [lia|]. destruct (IH (bloom_insert f i)) as (J1 & J2 & J3); [lia|]. rewrite J1, L, J2.
    split; [done|]. split; [unfold bloom_insert; by case_match|]. intros x [[->|Hx]%elem_of_cons|Hx]; apply J3; auto.
    right. by apply (bloom_insert_keeps f i x); [lia|]. }
  destruct (Hfold items f (proj1 Hf)) as (F1 & F2 & F3). split; [apply Hf|]. split; [apply Hf|]. split; [|auto].
  destruct (fold_left bloom_insert items f) as [d k t fl]. cbn [bf_data bf_hash_funcs] in *. unfold bloom_to_wire, bloom_from_bytes. cbn.
  rewrite F1, F2 in *. rewrite (proj2 (Z.ltb_ge _ _)) by lia. rewrite F1, (proj2 (Z.eqb_neq _ _)) by lia. f_equal; [unfold MAX_HASH_FUNCS in Hf; lia|].
  by destruct fl.
Qed.
