(* ===== verification/StakeProof.v ===== *)
(** * Stake proofs

    Models [vtorrent-node/src/chain/stake_proof.rs] and [spv_transaction_mirror] of
    [staking.rs]: the proofs a full node rebuilds from its journals for the light clients of
    [Spv], and the check that ties a relayed proof to a block of the active chain. *)

From stdpp Require Import base list gmap sorting strings.
From Stdlib Require Import ZArith Lia.
From S2P Require Import Prelude Script Crypto Engine Standard Merkle Codec Block Address Consensus.
From S2P Require Import Deployments Governance Ledger Supply History Chain Mirror Replay Progress Genesis Acceptance Store Restart Branches Spv SpvFacts.
Import Spv.

(** ** The mirror types *)

Definition mirror_type (t : TxType) : SpvTxType :=
  match t with
  | Block.Standard => SpvStandard
  | Coinbase => SpvCoinbase
  | Coinstake => SpvCoinstake
  | LegacyClaim => SpvLegacyClaim
  | AtomicSwap => SpvAtomicSwap
  | TorrentIncentive => SpvTorrentIncentive
  end.

(** [spv_transaction_mirror]. *)
Definition spv_transaction_mirror (tx : Transaction) : SpvTransaction :=
  mkSpvTx (tx_version tx) (mirror_type (tx_type tx))
    (map (fun i => mkSpvInput (prev_txid i) (prev_vout i) (script_sig i) (sequence i)) (inputs tx))
    (map (fun o => mkSpvOutput (value o) (script_pubkey o)) (outputs tx))
    (lock_time tx) (claim_address tx) (claim_signature tx).

Definition spv_utxo (u : Utxo) : SpvUtxo :=
  mkSpvUtxo (utxo_txid u) (utxo_vout u) (utxo_value u) (utxo_script u) (utxo_height u) (utxo_timestamp u).

Definition spv_header (h : BlockHeader) (height : Z) : SpvHeader :=
  mkSpvHeader (version h) (prev_block_hash h) (merkle_root h) (utxo_root h) (timestamp h) (bits h) (nonce h) (stake_modifier h) height.

Record StakeProofSnapshot : Type := mkSnapshot {
  sn_block : Block;
  sn_parent : BlockHeader;
  sn_utxos : gmap OutPoint Utxo;
  sn_undo : list (list UtxoChange);
}.

Section stake_proof.
Context {C : Crypto} {B : Bincode} {SB : SpvBincode}.

(** [stake_proof_height]. *)
Definition stake_proof_height (c : Chain) (hash : bytes) : option Z :=
  block_height c hash ≫= fun height =>
  if (height =? 0) || negb (bool_decide (block_hash_at_height c height = Some hash)) then None else
  get_header c hash ≫= fun header =>
  if negb (is_pos header) then None else
  if existsb (fun j => bytes_eqb (j_block_hash j) hash) (journals (main c)) then Some height else None.

(** [has_stake_proof_history]. *)
Definition has_stake_proof_history (c : Chain) (hash : bytes) : bool := bool_decide (is_Some (stake_proof_height c hash)).

(** The loop over the journals from the newest one. *)
Fixpoint collect_undo (height expected_height : Z) (js : list BlockJournal) (undo : list (list UtxoChange))
    : option (list (list UtxoChange)) :=
  match js with
  | [] => None
  | journal :: js =>
      if negb (j_height journal =? expected_height) then None else
      let undo := undo ++ [changes journal] in
      if j_height journal =? height then Some undo else
      checked_sub expected_height 1 ≫= fun expected_height => collect_undo height expected_height js undo
  end.

(** [stake_proof_snapshot]. *)
Definition stake_proof_snapshot (c : Chain) (hash : bytes) : option StakeProofSnapshot :=
  stake_proof_height c hash ≫= fun height =>
  get_block_owned c hash ≫= fun block =>
  if negb (is_pos (header block)) then None else
  head (transactions block) ≫= fun coinstake =>
  if negb (is_coinstake coinstake) then None else
  if negb (length (inputs coinstake) =? 1)%nat then None else
  get_header c (prev_block_hash (header block)) ≫= fun parent =>
  collect_undo height (best_height c) (rev (journals (main c))) [] ≫= fun undo =>
  Some (mkSnapshot block parent (utxo_set (state (main c))) undo).

(** [proof_matches_block]. *)
Definition proof_matches_block (block : Block) (parent : BlockHeader) (proof : StakeProof) : bool :=
  match transactions block with
  | tx :: _ =>
      if negb (is_coinstake tx) then false else
      match inputs tx with
      | input :: _ =>
          let id := txid tx in
          is_pos (header block) && (length (inputs tx) =? 1)%nat &&
          bytes_eqb (spv_txid (coinstake proof)) id &&
          bytes_eqb (proof_txid (tx_merkle_proof proof)) id &&
          (proof_index (tx_merkle_proof proof) =? 0)%nat &&
          bytes_eqb (proof_root (tx_merkle_proof proof)) (merkle_root (header block)) &&
          is_ok (verify (tx_merkle_proof proof) (merkle_root (header block))) &&
          bytes_eqb (su_txid (sp_utxo proof)) (prev_txid input) &&
          (su_vout (sp_utxo proof) =? prev_vout input) &&
          (prev_stake_modifier proof =? stake_modifier parent) &&
          is_ok (verify_inclusion (utxo_proof proof) (utxo_root parent) (spv_hash_utxo (sp_utxo proof)))
      | [] => false
      end
  | [] => false
  end.

(** [stake_proof_matches]. *)
Definition stake_proof_matches (c : Chain) (hash : bytes) (proof : StakeProof) : bool :=
  match block_height c hash with
  | Some height =>
      if negb (bool_decide (block_hash_at_height c height = Some hash)) then false else
      match get_block_owned c hash with
      | Some block =>
          match get_header c (prev_block_hash (header block)) with
          | Some parent => proof_matches_block block parent proof
          | None => false
          end
      | None => false
      end
  | None => false
  end.

(** [StakeProofSnapshot::reconstruct]. *)
Definition reconstruct (s : StakeProofSnapshot) : res SpvError (option StakeProof) :=
  let utxos := foldl (fun m cs => foldl undo_change m (rev cs)) (sn_utxos s) (sn_undo s) in
  match head (transactions (sn_block s)) with
  | None => Ok None
  | Some coinstake =>
  match head (inputs coinstake) with
  | None => Ok None
  | Some input =>
  let key : OutPoint := (prev_txid input, prev_vout input) in
  match utxos !! key with
  | None => Ok None
  | Some utxo =>
  match list_find (fun e : OutPoint * Utxo => e.1 = key) (in_order outpoint_leb utxos) with
  | None => Ok None
  | Some (index, _) =>
  let tree := build (map (fun e => hash_utxo e.2) (in_order outpoint_leb utxos)) in
  let* root := root tree in
  if negb (bytes_eqb root (utxo_root (sn_parent s))) then Ok None else
  let* inclusion := proof tree index in
  match inclusion with
  | None => Ok None
  | Some inclusion =>
  let* tx_proof := proof (build (map txid (transactions (sn_block s)))) 0 in
  match tx_proof with
  | None => Ok None
  | Some tx_proof =>
  let p := mkStakeProof (spv_transaction_mirror coinstake) tx_proof (spv_utxo utxo)
             (mkInclusion index (siblings inclusion) (utxo_root (sn_parent s))) (stake_modifier (sn_parent s)) in
  Ok (if proof_matches_block (sn_block s) (sn_parent s) p then Some p else None)
  end end end end end end.
End stake_proof.

(** ** The mirrors agree with the node *)

Section mirror.
Context {C : Crypto} {B : Bincode} {BL : BincodeLaws B} {SB : SpvBincode} {SL : SpvBincodeLaws SB}.

Lemma mirror_layout tx : layout_spv_tx (spv_transaction_mirror tx) = layout_tx tx.
Proof.
  unfold layout_spv_tx, layout_tx. cbn. unfold enc_vec. unfold zlen. rewrite !length_map, !map_map. by destruct (tx_type tx).
Qed.

Lemma mirror_txid tx : spv_txid (spv_transaction_mirror tx) = txid tx.
Proof. unfold spv_txid, txid. by rewrite spv_ser_layout, ser_tx_layout, mirror_layout. Qed.

Lemma mirror_hash_utxo u : spv_hash_utxo (spv_utxo u) = hash_utxo u.
Proof. done. Qed.

(** what the light client computes is what the node computes. The mirror of a transaction
    has the same identifier and the same signature hashes; the mirror of a header has the same
    hash; the leaf of an output, the stake modifier, the kernel and the total of the outputs are
    the same numbers. *)
Theorem spv_mirrors_node tx i sub u h height m ts :
  spv_txid (spv_transaction_mirror tx) = txid tx /\
  spv_sighash (spv_transaction_mirror tx) i sub = sighash tx i sub /\
  spv_total_output (spv_transaction_mirror tx) = total_output tx /\
  spv_header_hash (spv_header h height) = header_hash h /\
  spv_hash_utxo (spv_utxo u) = hash_utxo u /\
  spv_compute_stake_modifier m (header_hash h) = compute_stake_modifier m (header_hash h) /\
  spv_check_stake_kernel m (su_value (spv_utxo u)) (su_txid (spv_utxo u)) (su_vout (spv_utxo u)) ts = check_stake_kernel m u ts.
Proof.
  split; [apply mirror_txid|]. split; [|split; [|split; [|done]]].
  - assert (SpvTxType_code (mirror_type (tx_type tx)) = TxType_code (tx_type tx)) as Ec by by destruct (tx_type tx).
    assert (imap (spv_sighash_input i sub) (st_inputs (spv_transaction_mirror tx)) = imap (sighash_input i sub) (inputs tx)) as Ei.
    { apply list_eq. intros j. cbn. rewrite !list_lookup_imap, list_lookup_fmap. by destruct (inputs tx !! j). }
    unfold spv_sighash, sighash, sighash_preimage. rewrite Ei. cbn. rewrite Ec. unfold zlen. by rewrite !length_map, map_map.
  - unfold spv_total_output, total_output. cbn. by rewrite map_map.
  - unfold header_hash. by rewrite ser_header_layout.
Qed.
End mirror.

(** ** Undoing blocks *)

(** The leaves of the commitment to a set of outputs. *)
Definition utxo_leaves `{Crypto} (m : gmap OutPoint Utxo) : list bytes := map (fun e => hash_utxo e.2) (in_order outpoint_leb m).

Definition undo_blocks (m : gmap OutPoint Utxo) (undo : list (list UtxoChange)) : gmap OutPoint Utxo :=
  foldl (fun m cs => foldl undo_change m (rev cs)) m undo.

Section undo.
Context {C : Crypto} {B : Bincode} {H : Hex} {N : Snapshot} {SL : SnapshotLaws N}.
Context (U : Transaction -> Prop) (HU : txids_distinct U) (g : Block) (l0 : Ledger).
Context (G1 : tracked 1 (transactions g) l0) (G2 : ledger_inv l0) (G3 : forall x, x ∈ transactions g -> U x).

Lemma scratch_root_spec old leaves : exists t r, scratch_build old leaves = Ok (t, r) /\ root (build leaves) = Ok r.
Proof.
  destruct leaves as [|x leaves]; [by eexists _, _|]. rewrite scratch_build_spec, root_build by done. by eexists _, _.
Qed.

(** The journal of a block has the root of the outputs after it. *)
Lemma applied_root genesis bootstrap h ts md active hash txs tree l l' tree' j :
  apply_block_journaled genesis bootstrap h ts md active hash txs tree l = (l', tree', Ok j) ->
  root (build (utxo_leaves (utxo_set l'))) = Ok (j_utxo_root j).
Proof.
  unfold apply_block_journaled. destruct (apply_block_body _ _ _ _ _ _ _ _) as [[l1 j1] r].
  unfold commit_root. destruct r as [u|e|]; [|cbn; by destruct (rollback_journal _ _)|done].
  unfold recompute_utxo_root. destruct (scratch_root_spec tree (utxo_leaves (utxo_set l1))) as (t & rt & E & Er).
  unfold utxo_leaves in E at 1. rewrite E. cbn. intros [= <- _ <-]. exact Er.
Qed.

Lemma connect_applied f bs l b l' j : connect f bs l b = Some (l', j) ->
  exists genesis bootstrap md active tree tree',
    apply_block_journaled genesis bootstrap (zlen bs) (timestamp (header b)) md active (block_hash b) (transactions b) tree l = (l', tree', Ok j) /\
    root_mismatch b j = false.
Proof.
  unfold connect, apply_block. destruct (governance_active _ _) as [act| |]; [|done..].
  destruct (if zlen bs =? 0 then _ else _) as [md| |]; [|done..].
  destruct (apply_block_journaled _ _ _ _ _ _ _ _ _ _) as [[l1 t] [j1| |]] eqn:E; [|done..].
  destruct (root_mismatch b j1) eqn:Er; [done|]. cbn. intros [= <- <-]. cbn in E. by eexists _, _, _, _, _, _.
Qed.

Lemma connect_root f bs l b l' j : connect f bs l b = Some (l', j) -> is_pos (header b) = true ->
  root (build (utxo_leaves (utxo_set l'))) = Ok (utxo_root (header b)).
Proof.
  intros (ge & bo & md & act & t & t' & E & Er)%connect_applied Hp. rewrite (applied_root _ _ _ _ _ _ _ _ _ _ _ _ _ E). f_equal.
  unfold root_mismatch in Er. rewrite Hp in Er. cbn in Er. apply negb_false_iff, bytes_eqb_eq in Er. done.
Qed.

Lemma rollback_undoes j l' l : rollback_journal j l' = Ok l -> utxo_set l = foldl undo_change (utxo_set l') (rev (changes j)).
Proof. unfold rollback_journal. destruct (match previous_governance j with Some _ => _ | None => _ end); cbn; [|done..]. by intros [= <-]. Qed.

(** Undoing the blocks above a block of the branch gives the outputs at that block. *)
Lemma history_undo f bs l js : history U g l0 f bs l js -> forall k, (k < length bs)%nat ->
  exists lk jk, history U g l0 f (take (S k) bs) lk jk /\
    undo_blocks (utxo_set l) (map changes (rev (drop (S k) js))) = utxo_set lk /\ length js = length bs /\
    forall i j b, (0 < i)%nat -> js !! i = Some j -> bs !! i = Some b -> j_height j = Z.of_nat i /\ j_block_hash j = block_hash b.
Proof.
  induction 1 as [j0|bs l js b l' j Hh IH Hc Hs Hu Hv]; intros k Hk.
  { exists l0, [j0]. cbn in Hk. destruct k; [|lia]. split; [constructor|]. split; [done|]. split; [done|]. intros [|i] j b ? Hj; [lia|]. by destruct i. }
  rewrite length_app in Hk. cbn in Hk. pose proof (history_facts U HU g l0 G1 G2 G3 _ _ _ _ Hh) as Hf.
  destruct (connect_sound U HU g f bs l b l' j) as (Hroll & _ & _ & Hjb & Hjh & _); [by exists js|done..|].
  assert (Hlen : length js = length bs) by apply Hf.
  assert (Hheights : forall i j' b', (0 < i)%nat -> (js ++ [j]) !! i = Some j' -> (bs ++ [b]) !! i = Some b' ->
    j_height j' = Z.of_nat i /\ j_block_hash j' = block_hash b').
  { intros i j' b' Hi Hj Hb. destruct (decide (i < length bs)%nat) as [Hlt|Hge].
    - rewrite lookup_app_l in Hj by lia. rewrite lookup_app_l in Hb by lia. destruct (IH 0%nat) as (_ & _ & _ & _ & _ & Hx); [lia|]. by apply Hx.
    - assert (i = length bs) as -> by (apply lookup_lt_Some in Hb; rewrite length_app in Hb; cbn in Hb; lia).
      rewrite <- Hlen in Hj at 1. rewrite list_lookup_middle in Hj by done. rewrite list_lookup_middle in Hb by done. injection Hj as <-. injection Hb as <-. done. }
  destruct (decide (k = length bs)) as [->|Hne].
  - exists l', (js ++ [j]). rewrite !drop_ge, take_ge by (rewrite length_app; cbn; lia). split; [by econstructor|]. split; [done|].
    rewrite !length_app, Hlen. done.
  - destruct (IH k) as (lk & jk & I1 & I2 & _ & _); [lia|]. exists lk, jk. rewrite take_app_le by lia. split; [done|].
    rewrite drop_app_le by lia. rewrite rev_app_distr. cbn [rev app map]. split; [|rewrite !length_app, Hlen; done].
    unfold undo_blocks in *. cbn [foldl]. by rewrite <- (rollback_undoes _ _ _ Hroll).
Qed.

(** The input of the coinstake of an accepted block was an output before the block. *)
Lemma coinstake_input f bs l b l' j tx rest input : connect f bs l b = Some (l', j) -> transactions b = tx :: rest ->
  is_coinstake tx = true -> inputs tx = [input] -> is_Some (utxo_set l !! in_key input).
Proof.
  intros (ge & bo & md & act & t & t' & E & _)%connect_applied Et Hcs Hi. rewrite Et in E.
  apply apply_block_Ok in E as (l1 & l2 & j2 & E1 & E2 & _).
  pose proof (begin_governance_block_frame (zlen bs) (timestamp (header b)) act (l, new_journal l (block_hash b) (zlen bs))) as Hfr.
  rewrite E1 in Hfr. destruct Hfr as (Eu & _). cbn in Eu.
  cbn [sfor] in E2. apply sbind_Ok in E2 as ([] & [l3 j3] & E2 & _). unfold apply_transaction in E2.
  apply sbind_Ok in E2 as ([] & [l4 j4] & E3 & E4).
  assert (utxo_set l4 = utxo_set l1) as E5.
  { destruct act; [|by injection E3 as <- _]. destruct ge; [|done]. destruct (process_transaction _ _ _ _ _ _ _ _) as [gg [[]| |]]; [|done..]. by injection E3 as <- _. }
  apply apply_journaled_spec in E4 as [us A]; [|intros Hl; by destruct (kinds_disjoint tx Hl Hcs)].
  destruct A as [A1 _ _ _ _ _ _ _ _ _]. unfold spent_inputs in A1.
  assert (is_coinbase tx = false) as Hcb.
  { unfold is_coinstake in Hcs. apply bool_decide_eq_true in Hcs. unfold is_coinbase. by rewrite Hcs. }
  rewrite Hcb, Hi in A1. cbn in A1. inversion A1 as [|? u ? ? [Hu _] _]; subst. rewrite E5, Eu in Hu. by exists u.
Qed.
End undo.

(** The loop of the snapshot collects the journals down to the block. *)
Lemma collect_undo_spec L : forall base h acc, 0 <= base -> base <= h < base + zlen L ->
  (forall i j, L !! i = Some j -> h <= base + Z.of_nat i -> j_height j = base + Z.of_nat i) ->
  collect_undo h (base + zlen L - 1) (rev L) acc = Some (acc ++ map changes (rev (drop (Z.to_nat (h - base)) L))).
Proof.
  induction L as [|j L IH] using rev_ind; intros base h acc Hb Hh Hj; [unfold zlen in Hh; cbn in Hh; lia|].
  rewrite rev_app_distr. cbn [rev app collect_undo]. rewrite zlen_app in Hh |- *. change (zlen [j]) with 1 in *. pose proof (zlen_nonneg L).
  rewrite (Hj (length L) j) by (try apply list_lookup_middle; done || unfold zlen in *; lia). fold (zlen L).
  rewrite (proj2 (Z.eqb_eq _ _)) by (unfold zlen; lia). cbn [negb].
  destruct (Z.eqb_spec (base + zlen L) h) as [E|Hne].
  - rewrite drop_app_ge by (unfold zlen in *; lia). replace (Z.to_nat (h - base) - length L)%nat with 0%nat by (unfold zlen in *; lia). done.
  - unfold checked_sub. rewrite (proj2 (Z.leb_le _ _)) by lia. cbn [mbind option_bind].
    rewrite drop_app_le by (unfold zlen in *; lia). rewrite rev_app_distr. cbn [rev app map].
    replace (base + (zlen L + 1) - 1 - 1) with (base + zlen L - 1) by lia. rewrite IH; [|lia|lia|].
    + by rewrite <- app_assoc.
    + intros i j' Hi. apply Hj. by apply lookup_app_l_Some.
Qed.

(** ** Serving proofs *)

Section serving.
Context {C : Crypto} {B : Bincode} {BL : BincodeLaws B} {SB : SpvBincode} {SBL : SpvBincodeLaws SB}.

Lemma in_order_find (m : gmap OutPoint Utxo) key u : m !! key = Some u ->
  exists i, list_find (fun e : OutPoint * Utxo => e.1 = key) (in_order outpoint_leb m) = Some (i, (key, u)) /\
    utxo_leaves m !! i = Some (hash_utxo u).
Proof.
  intros Hu.
  destruct (list_find_elem_of (fun e : OutPoint * Utxo => e.1 = key) (in_order outpoint_leb m) (key, u)) as [[i [k v]] E]; [by apply elem_of_in_order|done|].
  exists i. rewrite E. apply list_find_Some in E as (Hi & Ek & _). cbn in Ek. subst k.
  pose proof (list_elem_of_lookup_2 _ _ _ Hi) as Hin. apply elem_of_in_order in Hin. rewrite Hu in Hin. injection Hin as <-.
  split; [done|]. unfold utxo_leaves. change (map ?f ?l) with (f <$> l). rewrite list_lookup_fmap. unfold OutPoint in Hi. by rewrite Hi.
Qed.

Lemma reconstruct_spec s m tx rest input u :
  undo_blocks (sn_utxos s) (sn_undo s) = m -> transactions (sn_block s) = tx :: rest -> is_coinstake tx = true -> inputs tx = [input] ->
  is_pos (header (sn_block s)) = true -> m !! in_key input = Some u -> outpoint u = in_key input ->
  root (build (utxo_leaves m)) = Ok (utxo_root (sn_parent s)) ->
  compute_merkle_root (sn_block s) = Ok (merkle_root (header (sn_block s))) ->
  exists p, reconstruct s = Ok (Some p) /\ proof_matches_block (sn_block s) (sn_parent s) p = true /\
    sp_utxo p = spv_utxo u /\ coinstake p = spv_transaction_mirror tx.
Proof.
  intros Hm Et Hcs Hi Hpos Hu Ho Hroot Hmr. unfold reconstruct. change (foldl _ (sn_utxos s) (sn_undo s)) with (undo_blocks (sn_utxos s) (sn_undo s)).
  rewrite Hm, Et. cbn [head]. rewrite Hi. cbn [head]. unfold in_key in Hu, Ho. rewrite Hu.
  destruct (in_order_find m (prev_txid input, prev_vout input) u Hu) as (idx & -> & Hidx). fold (utxo_leaves m). rewrite Hroot. cbn [rbind].
  rewrite bytes_eqb_refl. cbn [negb].
  assert (Hne : utxo_leaves m <> []) by (intros E; by rewrite E in Hidx).
  pose proof (merkle_proof_complete (utxo_leaves m) idx Hne) as Hp. rewrite Hidx in Hp.
  destruct Hp as (p1 & r1 & P1 & P2 & _ & P3 & P4 & _). rewrite P1. cbn [rbind]. rewrite P3 in Hroot. injection Hroot as ->.
  pose proof (merkle_proof_complete (map txid (tx :: rest)) 0 ltac:(done)) as Hq. cbn [map lookup list_lookup] in Hq.
  destruct Hq as (p2 & r2 & Q1 & Q2 & Q3 & Q4 & Q5 & Q6). change (map txid (tx :: rest)) with (txid tx :: map txid rest). rewrite Q1. cbn [rbind].
  assert (r2 = merkle_root (header (sn_block s))) as ->.
  { unfold compute_merkle_root in Hmr. rewrite Et, compute_merkle_root_spec in Hmr by done. cbn [map] in Hmr. rewrite root_build in Q4 by done. congruence. }
  assert (proof_root p2 = merkle_root (header (sn_block s))) as Hr2.
  { unfold verify_self, verify in Q5, Q6. destruct (bytes_eqb _ (merkle_root _)) eqn:E1; [|done]. destruct (bytes_eqb _ (proof_root p2)) eqn:E2; [|done].
    apply bytes_eqb_eq in E1, E2. congruence. }
  set (p := mkStakeProof _ _ _ _ _).
  assert (proof_matches_block (sn_block s) (sn_parent s) p = true) as Hpm; [|rewrite Hpm; by exists p].
  unfold proof_matches_block. rewrite Et, Hcs, Hi, Hpos. cbn [negb length Nat.eqb andb]. unfold p. cbn.
  rewrite mirror_txid, Q2, Q3, Hr2, Q5, !bytes_eqb_refl. cbn. unfold outpoint in Ho. injection Ho as -> ->.
  rewrite bytes_eqb_refl, !Z.eqb_refl. cbn. unfold verify_inclusion. cbn. rewrite bytes_eqb_refl. cbn. rewrite mirror_hash_utxo.
  unfold verify in P4. rewrite P2 in P4. by destruct (bytes_eqb _ _).
Qed.
End serving.

(** ** Paths that cannot lie about their length

    A leaf and an inner node of the tree are hashed the same way, but an inner node hashes 64
    bytes. Where no leaf does, a path of any length that ends in the root starts at a leaf. *)

Section paths.
Context {C : Crypto} {CL : CryptoLaws C} (S : bytes -> Prop) (HS : collision_free S).
Context (zs : list bytes) (Hzs : forall z, z ∈ zs -> S z /\ length z <> 64%nat).

Inductive in_tree : bytes -> Prop :=
  | it_leaf z : z ∈ zs -> in_tree (sha256 (sha256 z))
  | it_node a b : in_tree a -> in_tree b -> S (a ++ b) -> in_tree (combine a b).

Lemma in_tree_sized v : in_tree v -> length v = 32%nat.
Proof. destruct 1; apply sha256_len. Qed.

Lemma root_in_tree n : forall l, (length l <= n)%nat -> l <> [] -> (forall v, v ∈ l -> in_tree v) -> (forall z, z ∈ tree_preimages l -> S z) ->
  in_tree (tree_root l).
Proof.
  induction n as [|n IH]; intros l Hn Hne Hl Ht; [destruct l; [done|cbn in Hn; lia]|].
  destruct (decide (length l = 1)%nat) as [E|E]; [destruct l as [|x [|]]; [done| |done]; apply Hl; left|].
  assert (1 < length l)%nat as Hlt by (destruct l; [done|cbn in *; lia]). rewrite tree_root_unfold by done.
  pose proof (next_level_shrinks l Hlt) as Hs. apply IH; [lia|intros En; rewrite En in Hs; cbn in Hs; lia| |].
  - intros v (a & b & Ha & Hb & Hp & ->)%next_level_elem. apply it_node; [auto..|]. apply Ht. rewrite tree_preimages_step by done. by left.
  - intros z Hz. apply Ht. rewrite tree_preimages_step by done. by right.
Qed.

Lemma climb_preimages_snoc sib node cur :
  climb_preimages (sib ++ [node]) cur = climb_preimages sib cur ++ climb_preimages [node] (fold_left climb sib cur).
Proof. revert cur. induction sib as [|n sib IH]; intros cur; [done|]. cbn [app climb_preimages fold_left]. by rewrite IH. Qed.

Lemma climb_any sib x v : S x -> length x <> 64%nat -> Forall (fun n => length (node_hash n) = 32%nat) sib ->
  (forall z, z ∈ climb_preimages sib (sha256 (sha256 x)) -> S z) -> in_tree v -> fold_left climb sib (sha256 (sha256 x)) = v -> x ∈ zs.
Proof.
  intros Sx Hx. revert v. induction sib as [|node sib IH] using rev_ind; intros v Hn Hp Hv E.
  - cbn in E. destruct Hv as [z Hz|a b Ha Hb Sab].
    + apply HS in E as ->; [done|done|by apply Hzs].
    + apply HS in E as ->; [|done..]. rewrite length_app, (in_tree_sized a Ha), (in_tree_sized b Hb) in Hx. done.
  - apply Forall_app in Hn as [Hn Hnode]. apply Forall_inv in Hnode. rewrite fold_left_app in E. cbn [fold_left] in E.
    rewrite climb_preimages_snoc in Hp. set (cur := fold_left climb sib (sha256 (sha256 x))) in *.
    assert (Hcur : length cur = 32%nat).
    { unfold cur. destruct sib as [|m sib _] using rev_ind; [apply sha256_len|]. rewrite fold_left_app. apply climb_sized. }
    assert (exists y1 y2, climb cur node = combine y1 y2 /\ S (y1 ++ y2) /\ length y1 = 32%nat /\ length y2 = 32%nat /\ (cur = y1 \/ cur = y2)) as (y1 & y2 & Ey & Sy & L1 & L2 & Hc).
    { unfold climb. cbn [climb_preimages] in Hp. destruct (is_left node) eqn:El.
      - exists (node_hash node), cur. split_and!; auto. apply Hp, elem_of_app. right. left.
      - exists cur, (node_hash node). split_and!; auto. apply Hp, elem_of_app. right. left. }
    rewrite Ey in E. assert (forall v', in_tree v' -> cur = v' -> x ∈ zs) as Hgo.
    { intros v' Hv' E'. apply (IH v'); [done| |done|done]. intros z Hz. apply Hp, elem_of_app. by left. }
    destruct Hv as [z Hz|a b Ha Hb Sab].
    + destruct (Hzs z Hz) as [Sz Lz]. apply HS in E; [|done..]. rewrite <- E, length_app, L1, L2 in Lz. done.
    + apply HS in E; [|done..]. apply app_inj_1 in E as [-> ->]; [|rewrite L1; by rewrite in_tree_sized].
      destruct Hc as [->| ->]; [by apply (Hgo a)|by apply (Hgo b)].
Qed.
End paths.

(** ** The node *)

Lemma valid_stake_block `{Crypto, Bincode} f bs b : valid_child f bs b -> is_pos (header b) = true -> 2 <= zlen bs ->
  exists tx rest input, transactions b = tx :: rest /\ is_coinstake tx = true /\ inputs tx = [input] /\
    compute_merkle_root b = Ok (merkle_root (header b)).
Proof.
  intros (b0 & now & _ & _ & Hv) Hp Hl. unfold validate_block_inner in Hv. destruct (transactions b) as [|tx rest] eqn:Et; [done|].
  destruct (_ <? unwrap_or _ _); [done|]. destruct (padd u32_max (zlen bs - 1) 1) as [nx| |]; cbn in Hv; [|done..].
  repeat (destruct (negb (_ =? _)); [done|]). unfold check_first_tx in Hv. rewrite Hp, (proj2 (Z.eqb_neq _ _)) in Hv by lia. cbn in Hv.
  rewrite andb_true_r in Hv. destruct (is_coinstake tx) eqn:Hcs; cbn in Hv; [|done]. destruct (existsb _ rest); [done|].
  destruct (_ <? timestamp _); [done|]. destruct (_ <=? _); [done|]. destruct (compute_merkle_root b) as [r| |] eqn:Er; cbn in Hv; [|done..].
  destruct (bytes_eqb r _) eqn:Eb; cbn in Hv; [|done]. apply bytes_eqb_eq in Eb as ->.
  destruct (validate_transaction tx) as [[]| |] eqn:Etx; cbn in Hv; [|done..].
  apply validate_transaction_Ok in Etx as (_ & _ & _ & _ & Hin & _). specialize (Hin Hcs).
  destruct (inputs tx) as [|i [|]] eqn:Ei; [done| |done]. by exists tx, rest, i.
Qed.

Section node.
Context {C : Crypto} {B : Bincode} {H : Hex} {K : KeyOrder} {BL : BincodeLaws B} {SB : SpvBincode} {SBL : SpvBincodeLaws SB}.
Context (legacy : list (bytes * Z)) (U : Transaction -> Prop) (g : Block) (c0 : Chain).
#[local] Hint Extern 0 Snapshot => exact (N legacy) : typeclass_instances.
Context (ST : setting legacy U g c0).
#[local] Hint Extern 0 (SnapshotLaws _) => exact (SL legacy U g c0 ST) : typeclass_instances.

(** The ledger in which block [k] of the branch left the chain. *)
Definition ledger_at (bs : list Block) (k : nat) : option Ledger := replay (config c0) [g] (state (main c0)) (tail (take (S k) bs)).

(** The outputs at a stake block are those its header commits to. *)
Lemma committed_outputs c bs k p lk jk : sound_chain legacy U g c0 c bs -> config c = config c0 -> (1 <= k)%nat -> bs !! k = Some p ->
  is_pos (header p) = true -> history U g (state (main c0)) (config c0) (take (S k) bs) lk jk ->
  root (build (utxo_leaves (utxo_set lk))) = Ok (utxo_root (header p)).
Proof.
  intros Hok Hcf Hk Hp Hpos Hh. destruct (genesis_facts legacy U g c0 ST) as (F1 & F2 & F3 & F4). pose proof (se_ids _ _ _ _ ST) as HU.
  rewrite (take_S_r _ _ _ Hp) in Hh. apply (history_last U HU g _ F3 F2 F4) in Hh as (l1 & j1 & j & _ & _ & Hc & _).
  - by eapply connect_root.
  - destruct bs, k; [done..|lia|done].
Qed.

(** What the node has of block [k + 1] of its branch, a stake block on another one whose journal
    is kept. *)
Record served_block (c : Chain) (bs : list Block) (k : nat) (p b : Block) : Prop := {
  sb_first : (1 <= k)%nat;
  sb_parent : bs !! k = Some p;
  sb_block : bs !! S k = Some b;
  sb_parent_stake : is_pos (header p) = true;
  sb_stake : is_pos (header b) = true;
  sb_body : get_block_owned c (block_hash b) = Some b;
  sb_journal : (length bs <= S k + length (journals (main c)))%nat;
}.

(** The journals the node keeps. *)
Lemma kept_journals c bs k p b pre : sound_chain legacy U g c0 c bs -> served_block c bs k p b ->
  history U g (state (main c0)) (config c0) bs (state (main c)) (pre ++ journals (main c)) ->
  existsb (fun j => bytes_eqb (j_block_hash j) (block_hash b)) (journals (main c)) = true /\
  collect_undo (Z.of_nat (S k)) (best_height c) (rev (journals (main c))) [] =
    Some (map changes (rev (drop (S k) (pre ++ journals (main c))))).
Proof.
  intros Hok [Hk Hp Hb _ _ _ Hjs] Hh. destruct (genesis_facts legacy U g c0 ST) as (F1 & F2 & F3 & F4). pose proof (se_ids _ _ _ _ ST) as HU.
  pose proof (lookup_lt_Some _ _ _ Hb) as Hlen.
  destruct (history_undo U HU g _ F3 F2 F4 _ _ _ _ Hh k ltac:(lia)) as (_ & _ & _ & _ & Hl & Hj).
  rewrite length_app in Hl.
  destruct (lookup_lt_is_Some_2 (journals (main c)) (S k - length pre)) as [j Ej]; [lia|].
  assert (Hmid : forall i x, journals (main c) !! i = Some x -> (pre ++ journals (main c)) !! (length pre + i)%nat = Some x).
  { intros i x Hx. rewrite lookup_app_r by lia. by replace (length pre + i - length pre)%nat with i by lia. }
  split.
  - apply existsb_exists. exists j. split; [apply list_elem_of_In; by eapply list_elem_of_lookup_2|].
    destruct (Hj (S k) j b) as [_ ->]; [lia| |done|apply bytes_eqb_refl].
    rewrite <- (Hmid _ _ Ej). f_equal. lia.
  - pose proof (collect_undo_spec (journals (main c)) (Z.of_nat (length pre)) (Z.of_nat (S k)) []) as Hcu.
    rewrite (best_height_eq U HU g _ F3 F2 F4 (known c) (config c) (main c) bs c (co_known _ _ _ _ _ Hok) (co_main _ _ _ _ _ Hok) eq_refl).
    replace (zlen bs - 1) with (Z.of_nat (length pre) + zlen (journals (main c)) - 1) by (unfold zlen; lia).
    rewrite Hcu; [|lia|unfold zlen; lia|].
    + cbn [app]. rewrite drop_app_ge by lia. do 4 f_equal. lia.
    + intros i x Hx Hge. destruct (lookup_lt_is_Some_2 bs (length pre + i)) as [b' Hb']; [apply lookup_lt_Some in Hx; lia|].
      destruct (Hj (length pre + i)%nat x b') as [-> _]; [lia|by apply Hmid|done|lia].
Qed.

(** C13: a full node serves the proofs the light clients ask for. For a stake block of the
    active branch on top of another stake block, as long as the node keeps its journal, the
    snapshot and the reconstruction succeed although the outputs of that time are gone; the
    proof is about the coinstake of the block and the very output it spent, as the ledger had
    it before the block; and the node's own check of relayed proofs accepts it. *)
Theorem stake_proof_served c :
  reaches U c0 c ->
  exists bs, height_index (main c) = map block_hash bs /\
    (forall x y, x ∈ bs -> get_block c (block_hash x) = Some y -> x = y) /\
    forall k p b, served_block c bs k p b ->
      exists s pf tx rest input lk u,
        stake_proof_snapshot c (block_hash b) = Some s /\ reconstruct s = Ok (Some pf) /\
        stake_proof_matches c (block_hash b) pf = true /\
        transactions b = tx :: rest /\ coinstake pf = spv_transaction_mirror tx /\ inputs tx = [input] /\
        ledger_at bs k = Some lk /\ utxo_set lk !! in_key input = Some u /\ sp_utxo pf = spv_utxo u.
Proof.
  intros (bs & Hok & Hcf)%(reached_sound legacy U g c0 ST). exists bs. split; [apply (co_main _ _ _ _ _ Hok)|].
  split; [intros x y; by apply (branch_bodies legacy U g c0)|]. intros k p b Hsv.
  destruct (genesis_facts legacy U g c0 ST) as (F1 & F2 & F3 & F4). pose proof (se_ids _ _ _ _ ST) as HU.
  pose proof (co_main _ _ _ _ _ Hok) as M. destruct (mo_history _ _ _ _ _ _ _ M) as [pre Hh]. rewrite Hcf in Hh.
  destruct (kept_journals c bs k p b pre Hok Hsv Hh) as [Hex Hcol]. destruct Hsv as [Hk Hp Hb Hpp Hbp Hbody Hjs].
  pose proof (lookup_lt_Some _ _ _ Hb) as Hlen.
  destruct (history_undo U HU g _ F3 F2 F4 _ _ _ _ Hh k ltac:(lia)) as (lk & jk & Hhk & Hundo & _ & _).
  destruct (history_step U g _ _ bs _ _ Hh k Hlen) as (b' & lk' & jk' & l' & j & Eb & Hhk' & Hc & _ & _ & Hv & _).
  rewrite Hb in Eb. injection Eb as <-. assert (lk' = lk) as -> by (eapply (history_unique U HU g _ F3 F2 F4); done).
  destruct (valid_stake_block _ _ _ Hv Hbp) as (tx & rest & input & Et & Hcs & Hi & Hmr); [unfold zlen; rewrite length_take; lia|].
  destruct (coinstake_input _ _ _ _ _ _ _ _ _ Hc Et Hcs Hi) as [u Hu].
  pose proof (committed_outputs c bs k p lk jk Hok Hcf Hk Hp Hpp Hhk) as Hroot.
  pose proof (history_facts U HU g _ F3 F2 F4 _ _ _ _ Hhk) as Hfk.
  destruct (li_utxos _ (ho_ledger _ _ _ _ _ Hfk) _ _ Hu) as [Ho _].
  destruct (mo_known _ _ _ _ _ _ _ M _ _ Hb) as [Hbh Hbhd]. destruct (mo_known _ _ _ _ _ _ _ M _ _ Hp) as [_ Hphd].
  pose proof (mo_link _ _ _ _ _ _ _ M _ _ _ Hp Hb) as Hlink.
  assert (Hat : block_hash_at_height c (Z.of_nat (S k)) = Some (block_hash b)).
  { unfold block_hash_at_height, vec_at. rewrite (mo_index _ _ _ _ _ _ _ M), (proj2 (Z.leb_le _ _)), Nat2Z.id by lia.
    change (map block_hash bs) with (block_hash <$> bs). by rewrite list_lookup_fmap, Hb. }
  set (s := mkSnapshot b (header p) (utxo_set (state (main c))) (map changes (rev (drop (S k) (pre ++ journals (main c)))))).
  destruct (reconstruct_spec s (utxo_set lk) tx rest input u) as (pf & R1 & R2 & R3 & R4); [done..|].
  exists s, pf, tx, rest, input, lk, u. split_and!; try done.
  - unfold stake_proof_snapshot, stake_proof_height, block_height. rewrite Hbh. cbn [mbind option_bind].
    rewrite (proj2 (Z.eqb_neq _ _)) by lia. rewrite bool_decide_eq_true_2 by done. cbn [orb negb]. unfold get_header. rewrite Hbhd. cbn [mbind option_bind].
    rewrite Hbp. cbn [negb]. rewrite Hex. cbn [mbind option_bind]. rewrite Hbody. cbn [mbind option_bind]. rewrite Hbp, Et. cbn [negb head mbind option_bind].
    rewrite Hcs, Hi, Hlink, Hphd. cbn [negb length Nat.eqb mbind option_bind]. by rewrite Hcol.
  - unfold stake_proof_matches, block_height. rewrite Hbh, Hat, bool_decide_eq_true_2 by done. cbn [negb]. unfold get_header. by rewrite Hbody, Hlink, Hphd.
  - unfold ledger_at. by eapply (history_replay U HU g _ F3 F2 F4).
Qed.

(** A light client's output read as one of the node's. *)
Definition node_utxo (s : SpvUtxo) : Utxo :=
  mkUtxo (su_txid s) (su_vout s) (su_value s) (su_script_pubkey s) (su_height s) (su_timestamp s).

(** The strings that are hashed for the commitment to the outputs and for the path of the proof. *)
Definition proof_strings (lk : Ledger) (pf : StakeProof) : list bytes :=
  map (fun e => utxo_preimage e.2) (in_order outpoint_leb (utxo_set lk)) ++ tree_preimages (utxo_leaves (utxo_set lk)) ++
  utxo_preimage (node_utxo (sp_utxo pf)) :: climb_preimages (ui_siblings (utxo_proof pf)) (spv_hash_utxo (sp_utxo pf)).

(** The values are those of their types; no output has a script of the one length for which its
    leaf could be taken for an inner node. *)
Record readable (lk : Ledger) (pf : StakeProof) : Prop := {
  rd_siblings : Forall (fun n => length (node_hash n) = 32%nat) (ui_siblings (utxo_proof pf));
  rd_utxo : wf_utxo (node_utxo (sp_utxo pf)) /\ length (utxo_preimage (node_utxo (sp_utxo pf))) <> 64%nat;
  rd_utxos : forall k u, utxo_set lk !! k = Some u -> wf_utxo u /\ length (utxo_preimage u) <> 64%nat;
  rd_strings : collision_free (.∈ proof_strings lk pf);
}.

Context {CL : CryptoLaws C}.

Lemma inclusion_sound lk pf : readable lk pf -> utxo_set lk <> ∅ -> ledger_inv lk ->
  forall r, root (build (utxo_leaves (utxo_set lk))) = Ok r -> verify_inclusion (utxo_proof pf) r (spv_hash_utxo (sp_utxo pf)) = Ok tt ->
  utxo_set lk !! (su_txid (sp_utxo pf), su_vout (sp_utxo pf)) = Some (node_utxo (sp_utxo pf)).
Proof.
  intros [R1 [R2 R2'] R3 R4] Hne Hinv r Hr Hv.
  set (zs := map (fun e : OutPoint * Utxo => utxo_preimage e.2) (in_order outpoint_leb (utxo_set lk))).
  assert (Hzs : forall z, z ∈ zs -> exists k u, utxo_set lk !! k = Some u /\ z = utxo_preimage u).
  { intros z ([k u] & -> & Hin)%list_elem_of_fmap. apply elem_of_in_order in Hin. by exists k, u. }
  assert (Hleaves : utxo_leaves (utxo_set lk) = map (fun z => sha256 (sha256 z)) zs) by (unfold utxo_leaves, zs; by rewrite map_map).
  assert (Hln : utxo_leaves (utxo_set lk) <> []).
  { apply map_choose in Hne as (k & u & Hu). rewrite Hleaves. unfold zs.
    destruct (in_order outpoint_leb (utxo_set lk)) as [|e es] eqn:E; [|done]. apply (elem_of_in_order outpoint_leb) in Hu. rewrite E in Hu. by apply elem_of_nil in Hu. }
  rewrite root_build in Hr by done. injection Hr as <-. unfold verify_inclusion in Hv. destruct (negb _); [done|].
  destruct (bytes_eqb (fold_left _ _ _) _) eqn:Ef; [|done]. apply bytes_eqb_eq in Ef.
  assert (utxo_preimage (node_utxo (sp_utxo pf)) ∈ zs) as Hin.
  { eapply (climb_any (.∈ proof_strings lk pf) R4 zs); [| |exact R2'|exact R1| | |exact Ef].
    - intros z Hz. split; [apply elem_of_app; by left|]. destruct (Hzs z Hz) as (k & u & Hu & ->). by apply (R3 k u).
    - apply elem_of_app. right. apply elem_of_app. right. left.
    - intros z Hz. apply elem_of_app. right. apply elem_of_app. right. by right.
    - eapply root_in_tree; [done|done| |].
      + rewrite Hleaves. intros v (z & -> & Hz)%list_elem_of_fmap. by apply it_leaf.
      + intros z Hz. apply elem_of_app. right. apply elem_of_app. by left. }
  destruct (Hzs _ Hin) as (k & u & Hu & E). destruct (R3 k u Hu) as [Wu _]. apply utxo_preimage_inj in E; [|done..].
  destruct (li_utxos _ Hinv _ _ Hu) as [Ek _]. rewrite <- E in Hu, Ek. rewrite <- Ek in Hu. exact Hu.
Qed.

(** C12: a proof cannot lie. If the node's check accepts a relayed proof for a stake block of
    its branch on top of another stake block, then the proof names the coinstake of that block,
    and the output it shows is the output the coinstake spent, exactly as the ledger had it
    before the block: value, script, height and time. This holds for paths of any length, unless
    the hash collides on the strings hashed for the proof or an output has a script that makes
    its leaf 64 bytes long. *)
Theorem stake_proof_sound c :
  reaches U c0 c ->
  exists bs, height_index (main c) = map block_hash bs /\
    (forall x y, x ∈ bs -> get_block c (block_hash x) = Some y -> x = y) /\
    forall k p b pf lk,
      (1 <= k)%nat -> bs !! k = Some p -> bs !! S k = Some b -> is_pos (header p) = true ->
      get_block_owned c (block_hash b) = Some b -> ledger_at bs k = Some lk -> readable lk pf ->
      stake_proof_matches c (block_hash b) pf = true ->
      exists tx rest input, transactions b = tx :: rest /\ inputs tx = [input] /\ spv_txid (coinstake pf) = txid tx /\
        utxo_set lk !! in_key input = Some (node_utxo (sp_utxo pf)).
Proof.
  intros (bs & Hok & Hcf)%(reached_sound legacy U g c0 ST). exists bs. split; [apply (co_main _ _ _ _ _ Hok)|].
  split; [intros x y; by apply (branch_bodies legacy U g c0)|]. intros k p b pf lk Hk Hp Hb Hpp Hbody Hlk Hrd Hm.
  destruct (genesis_facts legacy U g c0 ST) as (F1 & F2 & F3 & F4). pose proof (se_ids _ _ _ _ ST) as HU.
  pose proof (co_main _ _ _ _ _ Hok) as M. destruct (mo_history _ _ _ _ _ _ _ M) as [pre Hh]. rewrite Hcf in Hh.
  pose proof (lookup_lt_Some _ _ _ Hb) as Hlen.
  destruct (history_step U g _ _ bs _ _ Hh k Hlen) as (b' & lk' & jk & l' & j & Eb & Hhk & Hc & _).
  rewrite Hb in Eb. injection Eb as <-. unfold ledger_at in Hlk. rewrite (history_replay U HU g _ F3 F2 F4 _ _ _ _ Hhk) in Hlk. injection Hlk as ->.
  destruct (mo_known _ _ _ _ _ _ _ M _ _ Hb) as [Hbh _]. destruct (mo_known _ _ _ _ _ _ _ M _ _ Hp) as [_ Hphd].
  unfold stake_proof_matches, block_height in Hm. rewrite Hbh in Hm. destruct (negb _); [done|].
  unfold get_header in Hm. rewrite Hbody, (mo_link _ _ _ _ _ _ _ M _ _ _ Hp Hb), Hphd in Hm.
  unfold proof_matches_block in Hm. destruct (transactions b) as [|tx rest] eqn:Et; [done|]. destruct (is_coinstake tx) eqn:Hcs; [|done]. cbn [negb] in Hm.
  destruct (inputs tx) as [|input [|]] eqn:Hi; [done| |by rewrite andb_false_r in Hm].
  rewrite !andb_true_iff in Hm. destruct Hm as ((((((((((_ & _) & E1) & _) & _) & _) & _) & E2) & E3) & _) & E4).
  apply bytes_eqb_eq in E1, E2. apply Z.eqb_eq in E3. exists tx, rest, input. split_and!; try done. unfold in_key. rewrite <- E2, <- E3.
  destruct (coinstake_input _ _ _ _ _ _ _ _ _ Hc Et Hcs Hi) as [u Hu].
  eapply inclusion_sound; [done| | | |].
  - intros E. by rewrite E, lookup_empty in Hu.
  - apply (ho_ledger _ _ _ _ _ (history_facts U HU g _ F3 F2 F4 _ _ _ _ Hhk)).
  - by eapply committed_outputs.
  - by destruct (verify_inclusion _ _ _) as [[]| |].
Qed.
End node.
