(* ===== verification/StakeWitness.v ===== *)
(** * Witnesses for the light client and its stake proofs

    A chain with two stake blocks under the concrete hash, and the theorems of [SpvFacts] and
    [StakeProof] applied to it. *)

From stdpp Require Import base list gmap sorting strings.
From Stdlib Require Import ZArith Lia.
From S2P Require Import Prelude Script Crypto Engine Standard Merkle Codec Block Address Consensus.
From S2P Require Import Deployments Governance Ledger Supply History Chain Mirror Replay Progress Genesis Acceptance Store Restart Branches Spv SpvFacts StakeProof.
Import Spv.

Module StakeWitness.
#[local] Existing Instance bincode_layout.
#[local] Existing Instance bincode_layout_laws.
Import GenesisWitness AcceptanceWitness.
#[local] Existing Instance order0.
#[local] Existing Instance snap0.
#[local] Instance spv_bincode : SpvBincode := fun tx => Some (layout_spv_tx tx).
#[local] Instance spv_bincode_laws : SpvBincodeLaws spv_bincode.
Proof. done. Qed.

Definition key0 : bytes := 2 :: repeat 7 32.
Definition script0 : bytes := [0x76; 0xa9; 20] ++ Core.hash160 key0 ++ [0x88; 0xac].

(** A block of the test mode that funds two outputs, and blocks that stake one of them. *)
Definition draft (parent : Block) (txs : list Transaction) (time nonce : Z) (uroot : bytes) : Block :=
  let hd root := mkHeader 1 (block_hash parent) root uroot time GENESIS_BITS nonce
    (compute_stake_modifier (stake_modifier (header parent)) (block_hash parent)) in
  match compute_merkle_root (mkBlock (hd zero_hash) txs) with Ok root => mkBlock (hd root) txs | _ => no_block end.

Definition fund1 : Block :=
  draft g0 [mkTx 1 Coinbase [mkTxInput zero_hash 0xffffffff [1] 0xffffffff]
    [mkTxOutput (10 * COIN) script0; mkTxOutput (10 * COIN) script0] 1 None None] 1700000100 1 zero_hash.
Definition id1 : bytes := match transactions fund1 with tx :: _ => txid tx | [] => [] end.

Definition stake_tx (vout h : Z) : Transaction :=
  mkTx 1 Coinstake [mkTxInput id1 vout ([34] ++ key0 ++ [1] ++ [33] ++ key0) 0xffffffff]
    [mkTxOutput 0 []; mkTxOutput (10 * COIN) script0] h None None.

(** With the root of the outputs after it. *)
Definition stake_block (c : Chain) (parent : Block) (vout h time : Z) : Block :=
  match apply_block (draft parent [stake_tx vout h] time 0 zero_hash) h c with
  | (_, Ok j) => draft parent [stake_tx vout h] time 0 (j_utxo_root j)
  | _ => no_block
  end.

Definition now1 : Z := 1700100000.
Definition d1 : Chain := (add_block now1 fund1 c0).1.
Definition s2 : Block := stake_block d1 fund1 0 2 1700021701.
Definition d2 : Chain := (add_block now1 s2 d1).1.
Definition s3 : Block := stake_block d2 s2 1 3 1700021801.
Definition d3 : Chain := (add_block now1 s3 d2).1.

Lemma stake_steps : is_ok (add_block now1 fund1 c0).2 = true /\ is_ok (add_block now1 s2 d1).2 = true /\ is_ok (add_block now1 s3 d2).2 = true.
Proof. by vm_compute. Qed.

Definition txs1 : list Transaction := transactions g0 ++ transactions fund1 ++ transactions s2 ++ transactions s3.
Definition U1 (tx : Transaction) : Prop := tx ∈ txs1.

Lemma setting1 : setting legacy0 U1 g0 c0.
Proof.
  split.
  - exact documented0.
  - apply distinct_list. apply (bool_decide_unpack _). by vm_compute.
  - apply elem_of_app. left. vm_compute. left.
  - apply elem_of_app. left. vm_compute. right. left.
  - by vm_compute.
  - apply starts_regtest. by vm_compute.
Qed.

Lemma in_txs (g a b c d : Block) x : d ∈ [a; b; c] -> x ∈ transactions d ->
  x ∈ transactions g ++ transactions a ++ transactions b ++ transactions c.
Proof. intros Hd Hx. rewrite !elem_of_app. repeat (apply elem_of_cons in Hd as [->|Hd]; [tauto|]). by apply elem_of_nil in Hd. Qed.

Lemma owned_in_memory (c : Chain) hash b : get_block c hash = Some b -> get_block_owned c hash = Some b.
Proof. unfold get_block, get_block_owned. by intros ->. Qed.

Lemma typed1 b : b ∈ [fund1; s2; s3] -> typed_txs (transactions b) /\ forall x, x ∈ transactions b -> U1 x.
Proof.
  intros Hb. split.
  - assert (forallb (fun b => forallb (fun tx => forallb (fun o => 0 <=? value o) (outputs tx) && (zlen (outputs tx) <? 2 ^ 32)) (transactions b))
      [fund1; s2; s3] = true) as Hc by by vm_compute.
    rewrite forallb_forall in Hc. specialize (Hc b (proj1 (list_elem_of_In _ _) Hb)). rewrite forallb_forall in Hc.
    apply Forall_forall. intros tx Htx%list_elem_of_In. specialize (Hc tx Htx). apply andb_true_iff in Hc as [Hc1 Hc2%Z.ltb_lt]. split; [|done].
    rewrite forallb_forall in Hc1. apply Forall_forall. intros o Ho%list_elem_of_In. apply Z.leb_le. by apply Hc1.
  - intros x Hx. exact (in_txs g0 fund1 s2 s3 b x Hb Hx).
Qed.

Lemma stake_reach b c : reaches U1 c0 c -> b ∈ [fund1; s2; s3] -> is_ok (add_block now1 b c).2 = true -> reaches U1 c0 (add_block now1 b c).1.
Proof.
  intros Hc [Hty Hu]%typed1 Hok. apply (reaches_block U1 c0 now1 b c _ (add_block now1 b c).2 Hc Hty Hu).
  - apply surjective_pairing.
  - intros E. by rewrite E in Hok.
Qed.

Lemma stake_reached : reaches U1 c0 d3.
Proof.
  destruct stake_steps as (S1 & S2 & S3). apply stake_reach; [|right; right; left|exact S3].
  apply stake_reach; [|right; left|exact S2]. apply stake_reach; [apply reaches_start|left|exact S1].
Qed.

Lemma map_four {A B} (f : A -> B) l a b c d : [a; b; c; d] = map f l -> exists x y z w, l = [x; y; z; w] /\ f x = a /\ f y = b /\ f z = c /\ f w = d.
Proof. destruct l as [|x [|y [|z [|w [|]]]]]; try done. intros [= -> -> -> ->]. by exists x, y, z, w. Qed.

Lemma stake_bodies : get_block d3 (block_hash g0) = Some g0 /\ get_block d3 (block_hash fund1) = Some fund1 /\
  get_block d3 (block_hash s2) = Some s2 /\ get_block d3 (block_hash s3) = Some s3.
Proof. by vm_compute. Qed.

Lemma stake_branch bs : height_index (main d3) = map block_hash bs ->
  (forall x y, x ∈ bs -> get_block d3 (block_hash x) = Some y -> x = y) -> bs = [g0; fund1; s2; s3].
Proof.
  intros Hi Hb. assert (height_index (main d3) = [block_hash g0; block_hash fund1; block_hash s2; block_hash s3]) as E by by vm_compute.
  rewrite E in Hi. apply map_four in Hi as (x & y & z & w & -> & Hx & Hy & Hz & Hw). destruct stake_bodies as (B1 & B2 & B3 & B4).
  rewrite <- Hx in B1. rewrite <- Hy in B2. rewrite <- Hz in B3. rewrite <- Hw in B4.
  rewrite <- (Hb x g0 ltac:(left) B1), <- (Hb y fund1 ltac:(right; left) B2), <- (Hb z s2 ltac:(right; right; left) B3),
    <- (Hb w s3 ltac:(right; right; right; left) B4). reflexivity.
Qed.

Lemma served3 : served_block d3 [g0; fund1; s2; s3] 2 s2 s3.
Proof.
  split; [lia|reflexivity|reflexivity|by vm_compute|by vm_compute| |apply Nat.leb_le; by vm_compute].
  apply owned_in_memory, stake_bodies.
Qed.

Lemma stake_proof_served_witness :
  exists s pf, stake_proof_snapshot d3 (block_hash s3) = Some s /\ reconstruct s = Ok (Some pf) /\
    stake_proof_matches d3 (block_hash s3) pf = true.
Proof.
  destruct (stake_proof_served legacy0 U1 g0 c0 setting1 d3 stake_reached) as (bs & Hi & Hb & Hs).
  apply stake_branch in Hi; [|exact Hb]. subst bs. destruct (Hs 2%nat s2 s3 served3) as (s & pf & _ & _ & _ & _ & _ & E1 & E2 & E3 & _).
  exists s, pf. exact (conj E1 (conj E2 E3)).
Defined.

(** The proof and the ledger before the block. *)
Definition no_proof : StakeProof := mkStakeProof (spv_transaction_mirror (stake_tx 1 3)) (mkProof [] 0 [] []) (mkSpvUtxo [] 0 0 [] 0 0) (mkInclusion 0 [] []) 0.
Definition pf3 : StakeProof :=
  match stake_proof_snapshot d3 (block_hash s3) with
  | Some s => match reconstruct s with Ok (Some p) => p | _ => no_proof end
  | None => no_proof
  end.
Definition lk2 : Ledger := match ledger_at legacy0 g0 c0 [g0; fund1; s2; s3] 2 with Some l => l | None => state (main c0) end.

Lemma ledger2 : ledger_at legacy0 g0 c0 [g0; fund1; s2; s3] 2 = Some lk2.
Proof.
  assert (bool_decide (is_Some (ledger_at legacy0 g0 c0 [g0; fund1; s2; s3] 2)) = true) as Hs by by vm_compute.
  apply bool_decide_eq_true in Hs as [l Hl]. unfold lk2. by rewrite Hl.
Qed.

#[local] Instance wf_utxo_dec u : Decision (wf_utxo u).
Proof. unfold wf_utxo, sized, u_range. apply _. Defined.

Definition plain_leaf (u : Utxo) : bool := bool_decide (wf_utxo u) && negb (length (utxo_preimage u) =? 64)%nat.
Lemma plain_leaf_ok u : plain_leaf u = true -> wf_utxo u /\ length (utxo_preimage u) <> 64%nat.
Proof. intros [H1%bool_decide_eq_true H2%negb_true_iff%Nat.eqb_neq]%andb_true_iff. done. Qed.

Lemma readable_check lk pf :
  forallb (fun n => (length (node_hash n) =? 32)%nat) (ui_siblings (utxo_proof pf)) = true ->
  plain_leaf (node_utxo (sp_utxo pf)) = true -> forallb (fun e => plain_leaf e.2) (map_to_list (utxo_set lk)) = true ->
  collision_free_b (proof_strings lk pf) = true -> readable lk pf.
Proof.
  rewrite !forallb_forall. intros H1 H2 H3 H4. split.
  - apply Forall_forall. intros n Hn%list_elem_of_In. by apply Nat.eqb_eq, H1.
  - by apply plain_leaf_ok.
  - intros k u Hu%elem_of_map_to_list%list_elem_of_In. apply plain_leaf_ok. apply (H3 (k, u) Hu).
  - by apply collision_free_check.
Qed.

Lemma readable3 : readable lk2 pf3.
Proof. apply readable_check; by vm_compute. Qed.

Lemma matches3 : stake_proof_matches d3 (block_hash s3) pf3 = true.
Proof. by vm_compute. Qed.

Lemma stake_proof_sound_witness :
  exists tx rest input, transactions s3 = tx :: rest /\ inputs tx = [input] /\
    utxo_set lk2 !! in_key input = Some (node_utxo (sp_utxo pf3)).
Proof.
  destruct (stake_proof_sound legacy0 U1 g0 c0 setting1 d3 stake_reached) as (bs & Hi & Hb & Hs).
  apply stake_branch in Hi; [|exact Hb]. subst bs.
  destruct served3 as [V1 V2 V3 V4 V5 V6 _].
  destruct (Hs 2%nat s2 s3 pf3 lk2 V1 V2 V3 V4 V6 ledger2 readable3 matches3) as (tx & rest & input & E1 & E2 & _ & E4).
  exists tx, rest, input. exact (conj E1 (conj E2 E4)).
Defined.

(** ** Headers *)

Definition spv_child (prev : bytes) (ts height : Z) : SpvHeader :=
  mkSpvHeader 1 prev (repeat 3 32) (repeat 4 32) ts 0x20ffffff 1 0 height.
Definition x0 : SpvHeader := spv_child (repeat 0 32) 1000 0.
(** A child of [x0] that claims to be a first header, and its own child. *)
Definition x1 : SpvHeader := spv_child (spv_header_hash x0) 2000 0.
Definition x2 : SpvHeader := spv_child (spv_header_hash x1) 3000 2.
Definition e1 : SpvChain := (add_header 5000 x0 new_spv_chain).1.

Lemma header_added : add_header 5000 x0 new_spv_chain = (e1, Ok tt).
Proof. by vm_compute. Qed.

Lemma followed1 : followed e1 ∅.
Proof.
  eapply (fw_header _ _ 5000 x0); [apply fw_new| | |exact header_added].
  - split; by vm_compute.
  - split; split; by vm_compute.
Qed.


Lemma misplaced_header_sticks_witness : exists c',
  add_header 5000 x1 e1 = (c', Ok tt) /\ add_header 5000 (at_spv_height 1 x1) c' = (c', Ok tt) /\
  add_header 5000 x2 c' = (c', Err (HeightMismatch 1 2)).
Proof.
  destruct (misplaced_header_sticks e1 ∅ 5000 x1 followed1) as (c' & E & Ec' & Hk).
  - intros E. apply (f_equal (fun m => bool_decide (is_Some (m !! spv_header_hash x0)))) in E. vm_compute in E. discriminate E.
  - unfold typed_clock, u32_max. lia.
  - unfold typed_header, u32_max. cbn. lia.
  - reflexivity.
  - reflexivity.
  - by vm_compute.
  - cbn. lia.
  - by vm_compute.
  - destruct (Hk 5000 1) as [H1 H2]; [unfold typed_clock, u32_max; lia|lia|].
    exists c'. split; [exact E|]. split; [exact H1|]. apply H2.
    + reflexivity.
    + reflexivity.
    + rewrite Ec'. by vm_compute.
    + reflexivity.
    + by vm_compute.
    + cbn. lia.
Defined.

Lemma bloom_no_false_negatives_witness : bloom_contains (fold_left bloom_insert [[1]; [2]] (bloom_from_bytes [] 5 9 1)) [1] = true.
Proof. apply (bloom_no_false_negatives [] 5 9 1 [[1]; [2]] [1]). left. Defined.

Lemma spv_mirrors_node_witness : spv_txid (spv_transaction_mirror (stake_tx 1 3)) = txid (stake_tx 1 3).
Proof.
  exact (proj1 (spv_mirrors_node (stake_tx 1 3) 0 [] (mkUtxo [] 0 0 [] 0 0) (mkHeader 1 [] [] [] 0 0 0 0) 3 0 0)).
Defined.
End StakeWitness.
