(* ===== verification/Wallet.v ===== *)
(** * The wallet: keys, coin selection, payments

    Models [vtorrent-core/src/keys.rs] (private keys and their WIF encoding),
    [vtorrent-wallet/src/tx_builder.rs] (coin selection, the transaction builder and
    signing) and the payment path of [vtorrent-wallet-service/src/lib.rs].  The secp256k1
    operations on secret keys are a parameter, the class [Secp].  Sums of [usize] that
    count bytes held in memory cannot overflow and are written as plain sums. *)

From stdpp Require Import base list gmap sorting strings.
From Stdlib Require Import ZArith Lia.
From S2P Require Import Prelude Script Crypto Engine Standard Merkle Codec Block Address Consensus.
From S2P Require Import Deployments Governance Ledger Chain Mempool.

(** ** The signing operations of the secp256k1 crate *)

Class Secp : Type := {
  (** [SecretKey::from_slice(b).is_ok()]; a key is represented by its bytes. *)
  secret_ok : bytes -> bool;
  (** [PublicKey::from_secret_key(secp, key).serialize()]. *)
  public_key : bytes -> bytes;
  (** [secp.sign_ecdsa(message, key).serialize_der()]. *)
  sign_ecdsa : bytes -> bytes -> bytes;
}.

(** A compressed key has 33 bytes, a DER signature at most 72; what a key signs verifies
    under its public key. *)
Class SecpLaws (C : Crypto) (S : Secp) : Prop := {
  public_key_bytes : forall k, secret_ok k = true -> is_bytes (public_key k);
  public_key_len : forall k, secret_ok k = true -> zlen (public_key k) = 33;
  public_key_ok : forall k, secret_ok k = true -> pubkey_ok (public_key k) = true;
  sign_bytes : forall m k, is_bytes (sign_ecdsa m k);
  sign_len : forall m k, zlen (sign_ecdsa m k) <= 72;
  sign_der : forall m k, der_ok (sign_ecdsa m k) = true;
  sign_verifies : forall m k, secret_ok k = true -> verify_ecdsa m (sign_ecdsa m k) (public_key k) = true;
}.

(** ** Private keys *)

Record PrivateKey : Type := mkPrivateKey { inner : bytes; compressed : bool }.

(** [network::legacy::SECRET_KEY_PREFIX]. *)
Definition SECRET_KEY_PREFIX : Z := 198.

Section keys.
Context {C : Crypto} {S : Secp}.

(** [PrivateKey::from_bytes]. *)
Definition key_from_bytes (b : bytes) (compressed : bool) : res CoreError PrivateKey :=
  let* _ := ensure (secret_ok b) Secp256k1 in
  Ok (mkPrivateKey b compressed).

(** [PrivateKey::from_wif]. *)
Definition from_wif (wif : bytes) : res CoreError PrivateKey :=
  let* decoded := ok_or (bs58_decode wif) InvalidWif in
  if zlen decoded <? 33 then Err InvalidWif else
  let payload := slice 0 (zlen decoded - 4) decoded in
  let check := slice (zlen decoded - 4) (zlen decoded) decoded in
  if negb (bytes_eqb check (Core.checksum payload)) then Err ChecksumMismatch else
  let* version := vec_get payload 0 in
  if negb ((version =? SECRET_KEY_PREFIX) || (version =? 128)) then Err InvalidWif else
  let key_bytes := slice 1 (zlen payload) payload in
  let* compressed :=
    if zlen key_bytes =? 33 then let* b := vec_get key_bytes 32 in Ok (b =? 0x01) else Ok false in
  let raw := if compressed : bool then slice 0 32 key_bytes else key_bytes in
  if negb (zlen raw =? 32) then Err InvalidWif else key_from_bytes raw compressed.

(** [PrivateKey::to_wif]. *)
Definition to_wif (k : PrivateKey) (version_byte : Z) : bytes :=
  let payload := [version_byte] ++ inner k ++ (if compressed k then [0x01] else []) in
  bs58_encode (payload ++ Core.checksum payload).

End keys.

(** ** The transaction builder *)

Module Wallet.

Inductive WalletError : Type :=
  | InvalidAddress
  | BuildError (message : string)
  | InsufficientFunds (available required : Z)
  | Signing
  | CoreErr (e : CoreError).

Definition DUST_SATOSHIS : Z := 546.
Definition DEFAULT_FEE_RATE : Z := 10.
Definition MIN_ABSOLUTE_FEE_SATS : Z := 1000.
Definition P2PKH_INPUT_SIZE : Z := 147.
Definition P2PKH_OUTPUT_SIZE : Z := 33.
Definition TX_OVERHEAD : Z := 10.

Definition varint_len (n : Z) : Z :=
  if n <? 0xfd then 1 else if n <=? 0xffff then 3 else if n <=? 0xffffffff then 5 else 9.

(** *** Coin selection *)

(** The estimate for a transaction of [n] inputs. *)
Definition estimated_fee (fee_rate min_absolute_fee output_bytes n : Z) : Z :=
  let tx_size := TX_OVERHEAD + n * P2PKH_INPUT_SIZE + output_bytes in
  Z.max (sat_mul u64_max tx_size fee_rate) min_absolute_fee.

(** The loop over the candidates. *)
Fixpoint take_coins (target_sats fee_rate min_absolute_fee output_bytes : Z)
    (candidates selected : list Utxo) (selected_value : Z) : res WalletError (list Utxo * Z) :=
  match candidates with
  | [] => Err (InsufficientFunds selected_value target_sats)
  | utxo :: candidates =>
      let selected := vec_push selected utxo in
      let* selected_value := ok_or (checked_add u64_max selected_value (utxo_value utxo))
                               (BuildError "UTXO value overflow") in
      let fee := estimated_fee fee_rate min_absolute_fee output_bytes (zlen selected) in
      let required := sat_add u64_max target_sats fee in
      if required <=? selected_value then Ok (selected, fee)
      else take_coins target_sats fee_rate min_absolute_fee output_bytes candidates selected selected_value
  end.

(** The non-dust coins; [Reverse(utxo.value)] orders as the negated value. *)
Definition candidates (utxos : list Utxo) : list Utxo :=
  sort_by_key (fun utxo => - utxo_value utxo) (List.filter (fun u => DUST_SATOSHIS <=? utxo_value u) utxos).

Definition select_coins_with_output_size (utxos : list Utxo)
    (target_sats fee_rate min_absolute_fee output_bytes : Z) : res WalletError (list Utxo * Z) :=
  take_coins target_sats fee_rate min_absolute_fee output_bytes (candidates utxos) [] 0.

Definition select_coins (utxos : list Utxo) (target_sats fee_rate min_absolute_fee n_outputs : Z)
    : res WalletError (list Utxo * Z) :=
  select_coins_with_output_size utxos target_sats fee_rate min_absolute_fee (n_outputs * P2PKH_OUTPUT_SIZE).

(** *** Scripts and signatures *)

Section builder.
Context {C : Crypto} {S : Secp} {B : Bincode}.

Definition address_to_hash160 (address : bytes) : res WalletError bytes :=
  let* addr := map_err (fun _ => InvalidAddress) (validate_p2pkh address) in
  Ok (addr_hash addr).

(** [vtorrent_core::address::p2pkh_script_pubkey]. *)
Definition script_for (hash160 : bytes) : bytes := p2pkh_script_pubkey (mkAddress hash160 PUBKEY_ADDRESS_PREFIX).

Definition p2pkh_script_pubkey (address : bytes) : res WalletError bytes :=
  let* hash160 := address_to_hash160 address in
  Ok (script_for hash160).

(** The signature with its [SIGHASH_ALL] byte. *)
Definition sign_input (secret_key_bytes sighash : bytes) : res WalletError bytes :=
  let* _ := ensure (secret_ok secret_key_bytes) Signing in
  Ok (vec_push (sign_ecdsa sighash secret_key_bytes) 0x01).

(** [build_script_sig]; the two assertions panic. *)
Definition build_script_sig (sig pubkey : bytes) : res WalletError bytes :=
  if (255 <? zlen sig) || (255 <? zlen pubkey) then Panic else
  Ok ([as_u8 (zlen sig)] ++ sig ++ [as_u8 (zlen pubkey)] ++ pubkey).

Definition pubkey_to_vtorrent_address (compressed_pubkey : bytes) : res WalletError bytes :=
  let* a := map_err CoreErr (from_hash160 (Core.hash160 compressed_pubkey) 70) in
  Ok (encode a).

Definition pubkey_to_p2pkh_script (compressed_pubkey : bytes) : bytes :=
  script_for (Core.hash160 compressed_pubkey).

Definition find_key_for_script (key_pairs : list (bytes * bytes)) (script_pubkey : bytes) : option (bytes * bytes) :=
  List.find (fun kp => bytes_eqb (pubkey_to_p2pkh_script kp.2) script_pubkey) key_pairs.

(** A decoded signing key: the secret and the compressed public key. *)
Definition key_pair (wif : bytes) : res WalletError (bytes * bytes) :=
  let* key := map_err (fun _ => Signing) (from_wif wif) in
  let* _ := ensure (secret_ok (inner key)) Signing in
  Ok (inner key, public_key (inner key)).

(** [tx.inputs[i].script_sig = s]. *)
Definition set_script_sig (i : nat) (s : bytes) (tx : Transaction) : res WalletError Transaction :=
  let* input := vec_get (inputs tx) (Z.of_nat i) in
  Ok (mkTx (tx_version tx) (tx_type tx)
        (<[i := mkTxInput (prev_txid input) (prev_vout input) s (sequence input)]> (inputs tx))
        (outputs tx) (lock_time tx) (claim_address tx) (claim_signature tx)).

(** *** [TxBuilder] *)

Record TxBuilder : Type := mkBuilder {
  recipients : list (bytes * Z);
  recipient_scripts : list (bytes * Z);
  b_fee_rate : Z;
  b_min_absolute_fee : Z;
  wif_keys : list bytes;
  b_change_address : option bytes;
  b_signal_rbf : bool;
  b_lock_time : Z;
}.

Definition new : TxBuilder := mkBuilder [] [] DEFAULT_FEE_RATE 0 [] None false 0.

Definition recipient (address : bytes) (amount_sats : Z) (b : TxBuilder) : TxBuilder :=
  mkBuilder (vec_push (recipients b) (address, amount_sats)) (recipient_scripts b) (b_fee_rate b)
    (b_min_absolute_fee b) (wif_keys b) (b_change_address b) (b_signal_rbf b) (b_lock_time b).

Definition recipient_script (script : bytes) (amount_sats : Z) (b : TxBuilder) : TxBuilder :=
  mkBuilder (recipients b) (vec_push (recipient_scripts b) (script, amount_sats)) (b_fee_rate b)
    (b_min_absolute_fee b) (wif_keys b) (b_change_address b) (b_signal_rbf b) (b_lock_time b).

Definition fee_rate (sats_per_byte : Z) (b : TxBuilder) : TxBuilder :=
  mkBuilder (recipients b) (recipient_scripts b) sats_per_byte
    (b_min_absolute_fee b) (wif_keys b) (b_change_address b) (b_signal_rbf b) (b_lock_time b).

Definition min_absolute_fee (sats : Z) (b : TxBuilder) : TxBuilder :=
  mkBuilder (recipients b) (recipient_scripts b) (b_fee_rate b)
    sats (wif_keys b) (b_change_address b) (b_signal_rbf b) (b_lock_time b).

Definition sign_with_wif (wif : bytes) (b : TxBuilder) : TxBuilder :=
  mkBuilder (recipients b) (recipient_scripts b) (b_fee_rate b)
    (b_min_absolute_fee b) (vec_push (wif_keys b) wif) (b_change_address b) (b_signal_rbf b) (b_lock_time b).

Definition change_address (address : bytes) (b : TxBuilder) : TxBuilder :=
  mkBuilder (recipients b) (recipient_scripts b) (b_fee_rate b)
    (b_min_absolute_fee b) (wif_keys b) (Some address) (b_signal_rbf b) (b_lock_time b).

Definition signal_rbf (b : TxBuilder) : TxBuilder :=
  mkBuilder (recipients b) (recipient_scripts b) (b_fee_rate b)
    (b_min_absolute_fee b) (wif_keys b) (b_change_address b) true (b_lock_time b).

Definition with_lock_time (lock_time : Z) (b : TxBuilder) : TxBuilder :=
  mkBuilder (recipients b) (recipient_scripts b) (b_fee_rate b)
    (b_min_absolute_fee b) (wif_keys b) (b_change_address b) (b_signal_rbf b) lock_time.

(** [try_fold] with [checked_add]. *)
Definition try_sum (message : string) (l : list Z) : res WalletError Z :=
  rfold (fun acc v => ok_or (checked_add u64_max acc v) (BuildError message)) 0 l.

(** The serialized size of the outputs, change included. *)
Definition output_bytes (b : TxBuilder) : Z :=
  zsum (map (fun _ => 8 + varint_len 25 + 25) (recipients b) ++
        map (fun '(script, _) => 8 + varint_len (zlen script) + zlen script) (recipient_scripts b)) +
  8 + varint_len 25 + 25.

(** The bodies of the two output loops. *)
Definition pay_address (outputs : list TxOutput) (r : bytes * Z) : res WalletError (list TxOutput) :=
  let '(addr, amount) := r in
  if amount <? DUST_SATOSHIS then Err (BuildError "Recipient amount is below the dust threshold") else
  let* script := p2pkh_script_pubkey addr in
  Ok (vec_push outputs (mkTxOutput amount script)).

Definition pay_script (outputs : list TxOutput) (r : bytes * Z) : res WalletError (list TxOutput) :=
  let '(script, amount) := r in
  if amount <? DUST_SATOSHIS then Err (BuildError "Recipient amount is below the dust threshold") else
  Ok (vec_push outputs (mkTxOutput amount script)).

(** The body of the signing loop. *)
Definition sign_coin (key_pairs : list (bytes * bytes)) (tx : Transaction) (e : nat * Utxo)
    : res WalletError Transaction :=
  let '(input_index, utxo) := e in
  let subscript := utxo_script utxo in
  let hash := sighash tx input_index subscript in
  let* kp :=
    match find_key_for_script key_pairs subscript with
    | Some kp => Ok kp
    | None => if zlen key_pairs =? 1 then vec_get key_pairs 0
              else Err (BuildError "No signing key matches UTXO")
    end in
  let* sig := sign_input kp.1 hash in
  let* script_sig := build_script_sig sig kp.2 in
  set_script_sig input_index script_sig tx.

Definition unsigned_input (sequence : Z) (u : Utxo) : TxInput :=
  mkTxInput (utxo_txid u) (utxo_vout u) [] sequence.

(** [TxBuilder::build]. *)
Definition build (b : TxBuilder) (available_utxos : list Utxo) : res WalletError Transaction :=
  if (zlen (recipients b) =? 0) && (zlen (recipient_scripts b) =? 0)
  then Err (BuildError "No recipients specified") else
  if zlen (wif_keys b) =? 0 then Err (BuildError "No signing keys specified") else
  let* key_pairs := rfold (fun l wif => let* kp := key_pair wif in Ok (vec_push l kp)) [] (wif_keys b) in
  let* change_addr :=
    match b_change_address b with
    | Some addr => Ok addr
    | None => let* kp := vec_get key_pairs 0 in pubkey_to_vtorrent_address kp.2
    end in
  let* total_send := try_sum "Total send amount overflow" (map snd (recipients b) ++ map snd (recipient_scripts b)) in
  let* (selected_utxos, fee) := select_coins_with_output_size available_utxos total_send
                                  (b_fee_rate b) (b_min_absolute_fee b) (output_bytes b) in
  let* total_input := try_sum "Total input amount overflow" (map utxo_value selected_utxos) in
  let change := sat_sub total_input (sat_add u64_max total_send fee) in
  let sequence := if b_signal_rbf b then 0xFFFFFFFD else 0xFFFFFFFF in
  let inputs := map (unsigned_input sequence) selected_utxos in
  let* outputs := rfold pay_address [] (recipients b) in
  let* outputs := rfold pay_script outputs (recipient_scripts b) in
  let* outputs :=
    if DUST_SATOSHIS <=? change then
      let* script := p2pkh_script_pubkey change_addr in
      Ok (vec_push outputs (mkTxOutput change script))
    else Ok outputs in
  let tx := mkTx 1 Standard inputs outputs (b_lock_time b) None None in
  rfold (sign_coin key_pairs) tx (imap pair selected_utxos).

(** *** Signing a transaction built elsewhere *)

(** The body of the loop of [sign_custom_transaction]. *)
Definition sign_custom_input (key pubkey : bytes) (tx : Transaction) (e : nat * Utxo)
    : res WalletError Transaction :=
  let '(input_index, utxo) := e in
  let* input := vec_get (inputs tx) (Z.of_nat input_index) in
  if negb (bytes_eqb (prev_txid input) (utxo_txid utxo)) || negb (prev_vout input =? utxo_vout utxo)
  then Err (BuildError "Transaction input does not match its signing UTXO") else
  let hash := sighash tx input_index (utxo_script utxo) in
  let* signature := sign_input key hash in
  let* script_sig := build_script_sig signature pubkey in
  set_script_sig input_index script_sig tx.

Definition sign_custom_transaction (tx : Transaction) (input_utxos : list Utxo) (wif : bytes)
    : res WalletError Transaction :=
  if negb (zlen (inputs tx) =? zlen input_utxos)
  then Err (BuildError "Transaction input count does not match provided UTXOs") else
  let* (key, pubkey) := key_pair wif in
  rfold (sign_custom_input key pubkey) tx (imap pair input_utxos).

(** The signature and the public key. *)
Definition sign_input_over_subscript (tx : Transaction) (input_index : nat) (subscript wif : bytes)
    : res WalletError (bytes * bytes) :=
  let* (key, pubkey) := key_pair wif in
  let hash := sighash tx input_index subscript in
  let* signature := sign_input key hash in
  Ok (signature, pubkey).

(** ** [vtorrent-wallet-service] *)

Definition build_payment (utxos : list Utxo) (recipient_address change : bytes) (amount_satoshis rate : Z)
    (wif : bytes) : res WalletError Transaction :=
  build (sign_with_wif wif (min_absolute_fee MIN_ABSOLUTE_FEE_SATS (fee_rate rate
           (change_address change (recipient recipient_address amount_satoshis new))))) utxos.

Definition build_payment_to_script (utxos : list Utxo) (script_pubkey change : bytes) (amount_satoshis rate : Z)
    (wif : bytes) : res WalletError Transaction :=
  build (sign_with_wif wif (min_absolute_fee MIN_ABSOLUTE_FEE_SATS (fee_rate rate
           (change_address change (recipient_script script_pubkey amount_satoshis new))))) utxos.

Record IncentivePayment : Type := mkPayment { peer_address : bytes; amount_satoshis : Z }.

Inductive IncentivePaymentError : Type :=
  | WalletLocked
  | NoChangeAddress
  | NoUtxos
  | Build (e : WalletError)
  | MempoolRejected (e : NodeError).

Context {H : Hex} {N : Snapshot} {MO : MapOrder}.

(** [build_incentive_payment].  The locks are taken one after the other, so the chain may
    be [c] when the coins are listed and [c'] when the transaction is admitted, and the
    pool [m] when the fee rate is read; the state is the pool at admission.  The
    transaction handed to the broadcast channel, if there is one, is the one admitted. *)
Definition build_incentive_payment (now : Z) (wallet_wif wallet_change_address : option bytes)
    (c c' : Chain) (m : Mempool) (payment : IncentivePayment)
    : st Mempool IncentivePaymentError Transaction :=
  do* wif := slift (ok_or wallet_wif WalletLocked) in
  do* change := slift (ok_or wallet_change_address NoChangeAddress) in
  let utxos := get_utxos_for_address c change in
  if zlen utxos =? 0 then serr NoUtxos else
  let rate := Z.max (recommended_fee_rate m) 1 in
  do* tx := slift (map_err Build
              (build_payment utxos (peer_address payment) change (amount_satoshis payment) rate wif)) in
  do* _ := (fun pool => let '(pool, r) := admit_with_chain_fee now c' tx pool in
                        (pool, map_err MempoolRejected r)) in
  sret tx.

End builder.
End Wallet.
