(* ===== verification/WalletFacts.v ===== *)
(** * The wallet: properties

    What the operations of [Wallet] guarantee: keys round trip through WIF, coin selection
    is optimal and fails only when no selection pays, and a payment conserves value. *)

From stdpp Require Import base list gmap sorting strings.
From Stdlib Require Import ZArith Lia.
From S2P Require Import Prelude Script Crypto Engine Standard Merkle Codec Block Address Consensus.
From S2P Require Import Deployments Governance Ledger Supply Chain Mempool Pool Wallet.
Import Scripts Wallet.

(** ** Keys *)

Section wif.
Context {C : Crypto} {CL : CryptoLaws C} {B58 : Base58Laws C} {S : Secp}.

Lemma checksum_len b : length (Core.checksum b) = 4%nat.
Proof. unfold Core.checksum, Core.sha256d. rewrite length_take, sha256_len. done. Qed.

Lemma slice_app_l a b n : zlen a = n -> slice 0 n (a ++ b) = a.
Proof.
  intros <-. unfold slice, zlen. change (Z.to_nat 0) with 0%nat. rewrite drop_0, Z.sub_0_r, Nat2Z.id. apply take_app_length.
Qed.

Lemma slice_app_r a b n m : zlen a = n -> n + zlen b = m -> slice n m (a ++ b) = b.
Proof.
  intros <- <-. unfold slice, zlen. rewrite Nat2Z.id, drop_app_length. apply take_ge. lia.
Qed.

(** private keys round trip.  A 32-byte key, compressed or not, written in WIF with
    the legacy or the standard version byte, is read back unchanged; with any other
    version byte the text is refused. *)
Theorem wif_roundtrip (k : PrivateKey) (v : Z) :
  is_bytes (inner k) -> zlen (inner k) = 32 -> secret_ok (inner k) = true -> is_byte v ->
  from_wif (to_wif k v) = if (v =? SECRET_KEY_PREFIX) || (v =? 128) then Ok k else Err InvalidWif.
Proof.
  intros Hb Hz Hk Hv. unfold to_wif, from_wif. set (tail := if compressed k then [0x01] else []).
  set (body := inner k ++ tail). change ([v] ++ body) with (v :: body).
  assert (zlen body = 32 + zlen tail) as Hbody by (unfold body; rewrite zlen_app; lia).
  assert (zlen tail = if compressed k then 1 else 0) as Ht by (unfold tail; by destruct (compressed k)).
  assert (is_bytes (v :: body)) as Hbb.
  { apply Forall_cons. split; [done|]. apply Forall_app. split; [done|]. unfold tail. destruct (compressed k); by repeat constructor. }
  assert (zlen (Core.checksum (v :: body)) = 4) as Hc by (unfold zlen; by rewrite checksum_len).
  rewrite bs58_decode_encode by (apply Forall_app; split; [done|apply Forall_take, sha256_bytes]). cbn [ok_or rbind].
  assert (zlen (v :: body) = 33 + zlen tail) as HP by (rewrite zlen_cons, Hbody; lia).
  rewrite zlen_app, Hc, HP, (proj2 (Z.ltb_ge _ _)) by (destruct (compressed k); lia).
  replace (33 + zlen tail + 4 - 4) with (33 + zlen tail) by lia.
  rewrite (slice_app_l (v :: body) _ _ HP), (slice_app_r (v :: body) _ _ _ HP), bytes_eqb_refl by lia.
  cbn [negb]. change (vec_get (v :: body) 0) with (Ok (E:=CoreError) v). cbn [rbind].
  destruct (_ || _); cbn [negb]; [|done]. rewrite HP.
  change (v :: body) with ([v] ++ body). rewrite (slice_app_r [v] body 1) by (done || lia).
  rewrite Hbody, Ht. unfold body, tail. clear HP Hc Hbb Hbody Ht body tail.
  destruct k as [ik []]; cbn [inner compressed] in *.
  - change (32 + 1 =? 33) with true. cbv iota. assert (vec_get (ik ++ [1]) 32 = Ok (E:=CoreError) 1) as ->.
    { unfold vec_get, vec_at. change (0 <=? 32) with true. cbv iota. rewrite <- Hz. unfold zlen. by rewrite Nat2Z.id, list_lookup_middle. }
    cbn [rbind]. change (0x01 =? 0x01) with true. cbv iota. rewrite (slice_app_l ik [1] 32 Hz), Hz. cbn [negb Z.eqb].
    unfold key_from_bytes. by rewrite Hk.
  - rewrite app_nil_r. change (32 + 0 =? 33) with false. cbn [rbind]. rewrite Hz. cbn [negb Z.eqb].
    unfold key_from_bytes. by rewrite Hk.
Qed.

End wif.

(** ** Coin selection *)

Definition coin_sum (l : list Utxo) : Z := zsum (map utxo_value l).

Lemma coin_sum_cons u l : coin_sum (u :: l) = utxo_value u + coin_sum l.
Proof. done. Qed.

Lemma coin_sum_app l l' : coin_sum (l ++ l') = coin_sum l + coin_sum l'.
Proof. unfold coin_sum. by rewrite map_app, zsum_app. Qed.

Lemma coin_sum_nonneg l : Forall (fun u => 0 <= utxo_value u) l -> 0 <= coin_sum l.
Proof. induction 1; [done|]. rewrite coin_sum_cons. lia. Qed.

#[export] Instance coin_sum_perm : Proper ((≡ₚ) ==> (=)) coin_sum.
Proof. induction 1; rewrite ?coin_sum_cons in *; lia. Qed.

Lemma coin_sum_submseteq l l' : Forall (fun u => 0 <= utxo_value u) l' -> l ⊆+ l' -> coin_sum l <= coin_sum l'.
Proof.
  intros Hv [k Hk]%submseteq_Permutation. rewrite Hk in Hv |- *. rewrite coin_sum_app.
  apply Forall_app in Hv as [_ Hv]. pose proof (coin_sum_nonneg k Hv). lia.
Qed.

Definition value_ge (a b : Utxo) : Prop := utxo_value b <= utxo_value a.

(** Of the sublists of a given length, the prefix of the sorted list is worth most. *)
Lemma coin_sum_shift n u l : Forall (value_ge u) l -> (n < length (u :: l))%nat ->
  coin_sum (take n l) <= coin_sum (take n (u :: l)).
Proof.
  revert u l. induction n as [|n IH]; intros u l Hu Hn; [done|]. destruct l as [|x l]; [simpl in Hn; lia|].
  apply Forall_cons in Hu as [Hx Hu]. cbn [take]. rewrite !coin_sum_cons. unfold value_ge in Hx.
  specialize (IH u l Hu). simpl in Hn. simpl length in IH. destruct n as [|n]; [unfold coin_sum; simpl; lia|].
  specialize (IH ltac:(lia)). cbn [take] in *. rewrite coin_sum_cons in *. lia.
Qed.

Lemma coin_sum_best l : StronglySorted value_ge l -> forall s, s ⊆+ l ->
  coin_sum s <= coin_sum (take (length s) l).
Proof.
  induction 1 as [|u l Hl IH Hu]; intros s Hs.
  { by apply submseteq_nil_r in Hs as ->. }
  apply submseteq_cons_r in Hs as [Hs|(s' & -> & Hs)].
  - pose proof (submseteq_length _ _ Hs). specialize (IH s Hs).
    pose proof (coin_sum_shift (length s) u l Hu ltac:(simpl; lia)). lia.
  - cbn [length take]. rewrite !coin_sum_cons. specialize (IH s' Hs). lia.
Qed.

Section selection.
Context (target rate floor outs : Z).

(** The coins [s] pay the target and the fee of a transaction that spends them. *)
Definition pays (s : list Utxo) : Prop :=
  target + estimated_fee rate floor outs (zlen s) <= coin_sum s.

Lemma take_coins_spec cands : forall sel,
  0 <= target -> coin_sum (sel ++ cands) < u64_max -> Forall (fun u => 0 <= utxo_value u) (sel ++ cands) ->
  (exists k, (length sel < k <= length (sel ++ cands))%nat /\ pays (take k (sel ++ cands)) /\
    (forall j, (length sel < j < k)%nat -> ~ pays (take j (sel ++ cands))) /\
    take_coins target rate floor outs cands sel (coin_sum sel) =
      Ok (take k (sel ++ cands), estimated_fee rate floor outs (Z.of_nat k))) \/
  (forall j, (length sel < j <= length (sel ++ cands))%nat -> ~ pays (take j (sel ++ cands))) /\
  take_coins target rate floor outs cands sel (coin_sum sel) =
    Err (InsufficientFunds (coin_sum (sel ++ cands)) target).
Proof.
  induction cands as [|u cands IH]; intros sel Ht Hsum Hv.
  { right. rewrite app_nil_r. split; [|done]. intros j Hj. lia. }
  cbn [take_coins]. change (sel ++ u :: cands) with (sel ++ [u] ++ cands) in *. rewrite (assoc_L (++)) in *.
  unfold vec_push. assert (length (sel ++ [u]) = S (length sel)) as Hlen by (rewrite length_app; simpl; lia).
  assert (coin_sum (sel ++ [u]) = coin_sum sel + utxo_value u) as Hs by (rewrite coin_sum_app; unfold coin_sum; simpl; lia).
  assert (coin_sum (sel ++ [u]) <= coin_sum ((sel ++ [u]) ++ cands)) as Hle.
  { rewrite (coin_sum_app (sel ++ [u])). apply Forall_app in Hv as [_ Hv]. pose proof (coin_sum_nonneg _ Hv). lia. }
  unfold checked_add. rewrite (proj2 (Z.leb_le _ _)) by lia. cbn [ok_or rbind]. rewrite <- Hs.
  assert (take (S (length sel)) ((sel ++ [u]) ++ cands) = sel ++ [u]) as Htk by (rewrite <- Hlen; apply take_app_length).
  assert (pays (sel ++ [u]) <->
    sat_add u64_max target (estimated_fee rate floor outs (zlen (sel ++ [u]))) <= coin_sum (sel ++ [u])) as Hp.
  { unfold pays, sat_add. lia. }
  destruct (Z.leb_spec (sat_add u64_max target (estimated_fee rate floor outs (zlen (sel ++ [u])))) (coin_sum (sel ++ [u])))
    as [Hok|Hno].
  - left. exists (S (length sel)). rewrite Htk. split_and!; [lia|rewrite length_app; lia|by apply Hp|lia|].
    unfold zlen. by rewrite Hlen.
  - assert (forall j, (length sel < j)%nat -> (length (sel ++ [u]) < j)%nat \/ j = S (length sel)) as Hj by lia.
    destruct (IH (sel ++ [u]) Ht Hsum Hv) as [(k & Hk & Hpk & Hmin & E)|[Hmin E]]; rewrite E.
    + left. exists k. split_and!; [lia|lia|done| |done]. intros j Hjk.
      destruct (Hj j ltac:(lia)) as [?| ->]; [apply Hmin; lia|]. rewrite Htk, Hp. lia.
    + right. split; [|done]. intros j Hjk.
      destruct (Hj j ltac:(lia)) as [?| ->]; [apply Hmin; lia|]. rewrite Htk, Hp. lia.
Qed.

End selection.

(** The coins the wallet may spend. *)
Definition spendable_coins (utxos : list Utxo) : list Utxo :=
  List.filter (fun u => DUST_SATOSHIS <=? utxo_value u) utxos.

Lemma candidates_perm utxos : candidates utxos ≡ₚ spendable_coins utxos.
Proof. apply sort_by_key_perm. Qed.

Lemma candidates_sorted utxos : StronglySorted value_ge (candidates utxos).
Proof.
  unfold candidates. match goal with |- StronglySorted _ (sort_by_key ?f ?l) =>
    induction (sort_by_key_sorted f l) as [|u l' _ IH Hu]; constructor end; [done|].
  eapply Forall_impl; [exact Hu|]. unfold value_ge. simpl. lia.
Qed.

Lemma candidates_nonneg utxos : Forall (fun u => 0 <= utxo_value u) (candidates utxos).
Proof.
  rewrite candidates_perm. apply Forall_forall. intros u [_ Hu%Z.leb_le]%list_elem_of_In%filter_In.
  unfold DUST_SATOSHIS in Hu. lia.
Qed.

Lemma spendable_sum_nonneg utxos : 0 <= coin_sum (spendable_coins utxos).
Proof. rewrite <- candidates_perm. apply coin_sum_nonneg, candidates_nonneg. Qed.

(** A smaller selection that would do is a shorter prefix that would do. *)
Lemma pays_prefix target rate floor outs utxos s : s ⊆+ spendable_coins utxos -> pays target rate floor outs s ->
  pays target rate floor outs (take (length s) (candidates utxos)).
Proof.
  intros Hs Hp. rewrite <- candidates_perm in Hs. pose proof (coin_sum_best _ (candidates_sorted utxos) s Hs).
  unfold pays in *. enough (zlen (take (length s) (candidates utxos)) = zlen s) as -> by lia.
  pose proof (submseteq_length _ _ Hs). unfold zlen. rewrite length_take. lia.
Qed.

(** What selection returns, without the loop. *)
Lemma select_spec utxos target rate floor outs :
  0 < target -> 0 <= floor -> coin_sum (spendable_coins utxos) < u64_max ->
  (exists k, (0 < k <= length (candidates utxos))%nat /\ pays target rate floor outs (take k (candidates utxos)) /\
    (forall s, s ⊆+ spendable_coins utxos -> pays target rate floor outs s -> (k <= length s)%nat) /\
    select_coins_with_output_size utxos target rate floor outs =
      Ok (take k (candidates utxos), estimated_fee rate floor outs (Z.of_nat k))) \/
  (forall s, s ⊆+ spendable_coins utxos -> ~ pays target rate floor outs s) /\
  select_coins_with_output_size utxos target rate floor outs =
    Err (InsufficientFunds (coin_sum (spendable_coins utxos)) target).
Proof.
  intros Ht Hf Hsum. unfold select_coins_with_output_size. rewrite <- candidates_perm in Hsum.
  assert (forall s, s ⊆+ spendable_coins utxos -> pays target rate floor outs s -> (0 < length s)%nat) as Hpos.
  { intros [|x s] _ Hp; [|simpl; lia]. unfold pays, estimated_fee, coin_sum in Hp. simpl in Hp. lia. }
  assert (forall s, s ⊆+ spendable_coins utxos -> (length s <= length (candidates utxos))%nat) as Hlen.
  { intros s Hs. rewrite candidates_perm. by apply submseteq_length. }
  destruct (take_coins_spec target rate floor outs (candidates utxos) []) as [(k & Hk & Hp & Hmin & E)|[Hno E]];
    [lia|done|apply candidates_nonneg| |]; rewrite ?app_nil_l in *; simpl length in *.
  - left. exists k. split_and!; [lia|lia|done| |exact E]. intros s Hs Hps.
    destruct (decide (k <= length s)%nat) as [|Hlt]; [done|]. exfalso.
    apply (Hmin (length s)); [specialize (Hpos s Hs Hps); lia|by apply pays_prefix].
  - right. split; [|by rewrite <- (coin_sum_perm _ _ (candidates_perm utxos))]. intros s Hs Hps.
    apply (Hno (length s)); [specialize (Hpos s Hs Hps); specialize (Hlen s Hs); lia|by apply pays_prefix].
Qed.

(** *** Property *)

(** C33: coin selection is optimal.  Whatever coins the wallet holds, [select_coins]
    returns coins of the wallet, none of them dust and none twice, that cover the target
    and the fee estimated for their number, and no smaller selection of non-dust coins would;
    it reports insufficient funds, with what is available, exactly when no selection at
    all covers its own fee. *)
Theorem coin_selection_optimal (utxos : list Utxo) (target rate floor outs : Z) :
  0 < target -> 0 <= floor -> coin_sum (spendable_coins utxos) < u64_max ->
  match select_coins_with_output_size utxos target rate floor outs with
  | Ok (selected, fee) =>
      selected ⊆+ spendable_coins utxos /\ fee = estimated_fee rate floor outs (zlen selected) /\
      target + fee <= coin_sum selected /\
      forall s, s ⊆+ spendable_coins utxos -> pays target rate floor outs s -> zlen selected <= zlen s
  | Err (InsufficientFunds available required) =>
      available = coin_sum (spendable_coins utxos) /\ required = target /\
      forall s, s ⊆+ spendable_coins utxos -> ~ pays target rate floor outs s
  | _ => False
  end.
Proof.
  intros Ht Hf Hsum.
  destruct (select_spec utxos target rate floor outs Ht Hf Hsum) as [(k & Hk & Hp & Hmin & ->)|[Hno ->]]; [|done].
  assert (zlen (take k (candidates utxos)) = Z.of_nat k) as Hz by (unfold zlen; rewrite length_take; lia).
  unfold pays in Hp. rewrite Hz in *. split_and!; [|done|done|].
  - rewrite <- candidates_perm. apply sublist_submseteq, sublist_take.
  - intros s Hs Hps. specialize (Hmin s Hs Hps). unfold zlen. lia.
Qed.

(** ** Signing *)

Section signing.
Context {C : Crypto} {CL : CryptoLaws C} {S : Secp} {SL : SecpLaws C S} {B : Bincode}.

(** A transaction without its unlocking scripts. *)
Definition unsigned (tx : Transaction) : Transaction :=
  mkTx (tx_version tx) (tx_type tx)
    (map (fun i => mkTxInput (prev_txid i) (prev_vout i) [] (sequence i)) (inputs tx))
    (outputs tx) (lock_time tx) (claim_address tx) (claim_signature tx).

(** Signatures do not sign each other. *)
Lemma sighash_unsigned tx i s : sighash (unsigned tx) i s = sighash tx i s.
Proof.
  unfold sighash, sighash_preimage, unsigned.
  cbn [tx_version tx_type inputs outputs lock_time claim_address claim_signature].
  rewrite (imap_fmap (sighash_input i s) (fun i => mkTxInput (prev_txid i) (prev_vout i) [] (sequence i))).
  unfold zlen. rewrite length_map. do 2 f_equal.
Qed.

Lemma sighash_same tx tx' i s : unsigned tx = unsigned tx' -> sighash tx i s = sighash tx' i s.
Proof. intros H. by rewrite <- sighash_unsigned, H, sighash_unsigned. Qed.

Lemma unsigned_inputs tx tx' j i : unsigned tx' = unsigned tx -> inputs tx !! j = Some i ->
  exists i', inputs tx' !! j = Some i' /\ prev_txid i' = prev_txid i /\ prev_vout i' = prev_vout i /\
             sequence i' = sequence i.
Proof.
  intros E Hi. apply (f_equal inputs) in E. cbn [inputs unsigned] in E.
  apply (f_equal (lookup j)) in E. rewrite !list_lookup_fmap, Hi in E. simpl in E.
  destruct (inputs tx' !! j) as [i'|]; simplify_eq/=. eauto.
Qed.

Lemma unsigned_length tx tx' : unsigned tx' = unsigned tx -> length (inputs tx') = length (inputs tx).
Proof. intros E. apply (f_equal (fun t => length (inputs t))) in E. cbn in E. by rewrite !length_map in E. Qed.

(** The script that unlocks a P2PKH output of the key [k]. *)
Definition signature (k hash : bytes) : bytes := vec_push (sign_ecdsa hash k) 0x01.
Definition unlocking (k hash : bytes) : bytes :=
  [zlen (signature k hash)] ++ signature k hash ++ [33] ++ public_key k.

Lemma signature_len k hash : 1 <= zlen (signature k hash) <= 73.
Proof.
  unfold signature. rewrite zlen_push. pose proof (sign_len hash k). pose proof (zlen_nonneg (sign_ecdsa hash k)). lia.
Qed.

Lemma build_script_sig_unlocking k hash : secret_ok k = true ->
  build_script_sig (signature k hash) (public_key k) = Ok (unlocking k hash).
Proof.
  intros Hk. unfold build_script_sig, unlocking, as_u8. pose proof (signature_len k hash).
  rewrite (public_key_len k Hk), !(proj2 (Z.ltb_ge _ _)) by lia. cbn [orb].
  by rewrite !Z.mod_small by lia.
Qed.

Lemma vec_get_nat {E A} (l : list A) (i : nat) : vec_get (E:=E) l (Z.of_nat i) = unwrap (l !! i).
Proof. unfold vec_get, vec_at. rewrite (proj2 (Z.leb_le _ _)) by lia. by rewrite Nat2Z.id. Qed.

Lemma set_script_sig_Ok i s tx input : inputs tx !! i = Some input ->
  exists tx', set_script_sig i s tx = Ok tx' /\ unsigned tx' = unsigned tx /\
    inputs tx' = <[i := mkTxInput (prev_txid input) (prev_vout input) s (sequence input)]> (inputs tx).
Proof.
  intros Hi. unfold set_script_sig. rewrite vec_get_nat, Hi. cbn [unwrap rbind]. eexists. split; [done|]. split; [|done].
  unfold unsigned. cbn [tx_version tx_type inputs outputs lock_time claim_address claim_signature]. f_equal.
  change (map ?f ?l) with (f <$> l). rewrite list_fmap_insert. cbn [prev_txid prev_vout sequence]. apply list_insert_id.
  by rewrite list_lookup_fmap, Hi.
Qed.

(** A wallet of one key signs every coin with it. *)
Lemma sign_coin_one k tx i u input : secret_ok k = true -> inputs tx !! i = Some input ->
  exists tx', sign_coin [(k, public_key k)] tx (i, u) = Ok tx' /\ unsigned tx' = unsigned tx /\
    inputs tx' = <[i := mkTxInput (prev_txid input) (prev_vout input)
                          (unlocking k (sighash (unsigned tx) i (utxo_script u))) (sequence input)]> (inputs tx).
Proof.
  intros Hk Hi. unfold sign_coin.
  assert (match find_key_for_script [(k, public_key k)] (utxo_script u) with
          | Some kp => Ok kp
          | None => if zlen [(k, public_key k)] =? 1 then vec_get [(k, public_key k)] 0
                    else Err (BuildError "No signing key matches UTXO")
          end = Ok (k, public_key k)) as ->.
  { unfold find_key_for_script. cbn [List.find snd]. by destruct (bytes_eqb _ _). }
  cbn [rbind fst snd]. unfold sign_input. rewrite Hk. cbn [ensure rbind]. fold (signature k (sighash tx i (utxo_script u))).
  rewrite build_script_sig_unlocking by done. cbn [rbind]. rewrite sighash_unsigned. by apply set_script_sig_Ok.
Qed.

(** The loop: [off] coins are signed already. *)
Lemma sign_coins_one k us : secret_ok k = true -> forall off tx, (off + length us = length (inputs tx))%nat ->
  exists tx', rfold (sign_coin [(k, public_key k)]) tx (imap (fun i u => ((off + i)%nat, u)) us) = Ok tx' /\
    unsigned tx' = unsigned tx /\ (forall j, (j < off)%nat -> inputs tx' !! j = inputs tx !! j) /\
    forall j u, us !! j = Some u -> exists i, inputs tx' !! (off + j)%nat = Some i /\
      script_sig i = unlocking k (sighash (unsigned tx) (off + j) (utxo_script u)).
Proof.
  intros Hk. induction us as [|u us IH]; intros off tx Hlen.
  { exists tx. split_and!; done. }
  simpl in Hlen. destruct (lookup_lt_is_Some_2 (inputs tx) off) as [input Hi]; [lia|].
  destruct (sign_coin_one k tx off u input Hk Hi) as (tx1 & E1 & U1 & I1).
  destruct (IH (Datatypes.S off) tx1) as (tx' & E & U & Hlt & Hin).
  { rewrite (unsigned_length _ _ U1). lia. }
  exists tx'. cbn [imap rfold]. rewrite Nat.add_0_r, E1. cbn [rbind]. split_and!.
  - rewrite <- E. f_equal. apply imap_ext. intros i x _. simpl. f_equal. lia.
  - by rewrite U.
  - intros j Hj. rewrite Hlt, I1 by lia. apply list_lookup_insert_ne. lia.
  - intros [|j] x Hx; simpl in Hx.
    + simplify_eq. rewrite Nat.add_0_r, Hlt, I1, list_lookup_insert_eq by (lia || by eapply lookup_lt_Some). eauto.
    + destruct (Hin j x Hx) as (i & Hi' & Hs). exists i. rewrite <- Nat.add_succ_comm. by rewrite <- U1.
Qed.

(** The script of a signed coin runs and leaves the signature and the key. *)
Lemma run_unlocking v k hash : secret_ok k = true ->
  run (Engine.new v) (unlocking k hash) = Ok (set_stack (Engine.new v) [signature k hash; public_key k]).
Proof.
  intros Hk. pose proof (signature_len k hash). pose proof (public_key_len k Hk) as Hpk.
  assert (unlocking k hash = bytes_of [PushData (signature k hash); PushData (public_key k)]) as ->.
  { unfold bytes_of. cbn [map concat item_bytes]. rewrite !push_bytes_short, Hpk, app_nil_r by lia. done. }
  rewrite run_bytes_of.
  2:{ apply Forall_cons; split; [split|apply Forall_singleton; split]; unfold MAX_PUSH_SIZE; try lia.
      - unfold signature, vec_push. apply Forall_app. split; [apply sign_bytes|by apply Forall_singleton].
      - by apply public_key_bytes. }
  cbn [rfold]. rewrite run_item_push by done. cbn [rbind]. rewrite run_item_push by done. done.
Qed.

Lemma unlocking_bytes k hash : secret_ok k = true -> is_bytes (unlocking k hash).
Proof.
  intros Hk. pose proof (signature_len k hash). unfold unlocking, signature, vec_push. rewrite <- !app_assoc.
  apply Forall_cons. split; [unfold is_byte; unfold signature, vec_push in *; lia|].
  apply Forall_app. split; [apply sign_bytes|]. repeat (apply Forall_cons; split; [done|]). by apply public_key_bytes.
Qed.

Lemma zlen_unlocking k hash : secret_ok k = true -> zlen (unlocking k hash) = zlen (signature k hash) + 35.
Proof. intros Hk. unfold unlocking. rewrite !zlen_app, (public_key_len k Hk), !zlen_cons. change (zlen []) with 0. lia. Qed.

Lemma script_for_build h : zlen h = 20 -> build_p2pkh h = Ok (script_for h).
Proof. intros Hz. exact (p2pkh_script_build (mkAddress h PUBKEY_ADDRESS_PREFIX) Hz). Qed.

(** The engine's check accepts what the key signed. *)
Lemma check_signature e k : secret_ok k = true -> check_sig e (signature k (tx_hash (env e))) (public_key k) = Ok tt.
Proof.
  intros Hk. unfold check_sig. pose proof (signature_len k (tx_hash (env e))). rewrite (proj2 (Z.eqb_neq _ _)) by lia.
  unfold signature at 1. rewrite vec_last_push. cbn [unwrap rbind]. change (negb (0x01 =? 0x01)) with false. cbv iota.
  assert (slice 0 (zlen (signature k (tx_hash (env e))) - 1) (signature k (tx_hash (env e))) = sign_ecdsa (tx_hash (env e)) k) as ->.
  { unfold slice, signature. rewrite zlen_push. change (Z.to_nat 0) with 0%nat. rewrite drop_0. unfold zlen, vec_push.
    replace (Z.to_nat _) with (length (sign_ecdsa (tx_hash (env e)) k)) by lia. apply take_app_length. }
  by rewrite sign_der, public_key_ok, sign_verifies.
Qed.

(** The engine accepts the signature of the key over the hash it is given. *)
Lemma unlocking_accepted v k : secret_ok k = true ->
  is_ok (execute (Engine.new v) (unlocking k (tx_hash v)) (script_for (Core.hash160 (public_key k)))) = true.
Proof.
  intros Hk. pose proof (hash160_zlen (public_key k)) as Hz. pose proof (Core.hash160_bytes (public_key k)) as Hb.
  apply (pkh_spend_iff v _ (Core.hash160 (public_key k)));
    [by apply unlocking_bytes|done|done|by apply script_for_build|].
  eexists _, []. split; [by apply run_unlocking|]. eexists _, _. split; [done|]. split; [done|].
  exact (check_signature (set_stack (Engine.new v) _) k Hk).
Qed.

(** ** What [build] returns *)

(** The outputs pay the recipients. *)
Definition pays_recipient (r : bytes * Z) (o : TxOutput) : Prop :=
  p2pkh_script_pubkey r.1 = Ok (script_pubkey o) /\ value o = r.2 /\ DUST_SATOSHIS <= r.2.
Definition pays_raw (r : bytes * Z) (o : TxOutput) : Prop :=
  o = mkTxOutput r.2 r.1 /\ DUST_SATOSHIS <= r.2.

Lemma pay_addresses rs : forall acc outs, rfold pay_address acc rs = Ok outs ->
  exists paid, outs = acc ++ paid /\ Forall2 pays_recipient rs paid.
Proof.
  induction rs as [|[addr amount] rs IH]; intros acc outs Hr; simpl in Hr.
  { injection Hr as <-. exists []. by rewrite app_nil_r. }
  destruct (Z.ltb_spec amount DUST_SATOSHIS); [done|]. destruct (p2pkh_script_pubkey addr) as [s| |] eqn:E; try done.
  simpl in Hr. apply IH in Hr as (paid & -> & Hp). exists (mkTxOutput amount s :: paid). split.
  - unfold vec_push. by rewrite <- app_assoc.
  - by constructor.
Qed.

Lemma pay_scripts rs : forall acc outs, rfold pay_script acc rs = Ok outs ->
  exists paid, outs = acc ++ paid /\ Forall2 pays_raw rs paid.
Proof.
  induction rs as [|[script amount] rs IH]; intros acc outs Hr; simpl in Hr.
  { injection Hr as <-. exists []. by rewrite app_nil_r. }
  destruct (Z.ltb_spec amount DUST_SATOSHIS); [done|].
  simpl in Hr. apply IH in Hr as (paid & -> & Hp). exists (mkTxOutput amount script :: paid). split.
  - unfold vec_push. by rewrite <- app_assoc.
  - by constructor.
Qed.

Lemma try_sum_Ok msg l n : try_sum msg l = Ok n -> n = zsum l.
Proof.
  unfold try_sum. enough (forall a, rfold (fun acc v => ok_or (checked_add u64_max acc v) (BuildError msg)) a l = Ok n ->
    n = a + zsum l) as H by (intros H'; apply H in H'; lia).
  induction l as [|x l IH]; intros a Ha; simpl in Ha; [injection Ha as <-; simpl; lia|].
  unfold checked_add in Ha. destruct (a + x <=? u64_max); simpl in Ha; [|done]. apply IH in Ha. simpl. lia.
Qed.

Lemma set_script_sig_unsigned i s tx tx' : set_script_sig i s tx = Ok tx' -> unsigned tx' = unsigned tx.
Proof.
  intros H. assert (is_Some (inputs tx !! i)) as [input Hi].
  { unfold set_script_sig in H. rewrite vec_get_nat in H. destruct (inputs tx !! i); [done|]. done. }
  destruct (set_script_sig_Ok i s tx input Hi) as (t & E & U & _). congruence.
Qed.

Lemma sign_coins_unsigned kps l tx tx' : rfold (sign_coin kps) tx l = Ok tx' -> unsigned tx' = unsigned tx.
Proof.
  intros H. apply (rfold_inv (fun t => unsigned t = unsigned tx) _ _ _ _) in H; [done| |done].
  intros t [i u] t' _ Ht E. rewrite <- Ht. unfold sign_coin in E.
  destruct (match find_key_for_script kps (utxo_script u) with Some _ => _ | None => _ end) as [kp| |]; simpl in E; try done.
  destruct (sign_input _ _); simpl in E; try done. destruct (build_script_sig _ _); simpl in E; try done.
  by eapply set_script_sig_unsigned.
Qed.

(** The parts of a transaction [build] returns. *)
Record built (b : TxBuilder) (utxos : list Utxo) (tx : Transaction) (selected : list Utxo) (fee change : Z) : Prop := {
  bt_selected : select_coins_with_output_size utxos (zsum (map snd (recipients b) ++ map snd (recipient_scripts b)))
    (b_fee_rate b) (b_min_absolute_fee b) (output_bytes b) = Ok (selected, fee);
  bt_change : change = sat_sub (coin_sum selected)
    (sat_add u64_max (zsum (map snd (recipients b) ++ map snd (recipient_scripts b))) fee);
  bt_inputs : spends tx = map outpoint selected;
  bt_outputs : exists o1 o2 o3, outputs tx = o1 ++ o2 ++ o3 /\
    Forall2 pays_recipient (recipients b) o1 /\ Forall2 pays_raw (recipient_scripts b) o2 /\
    map value o3 = if DUST_SATOSHIS <=? change then [change] else [];
  bt_type : tx_type tx = Standard;
  bt_some : 0 < zlen (recipients b) + zlen (recipient_scripts b);
}.

Lemma spends_unsigned tx tx' : unsigned tx = unsigned tx' -> spends tx = spends tx'.
Proof.
  intros E. apply (f_equal spends) in E. unfold spends, unsigned in *. cbn [inputs] in E. by rewrite !map_map in E.
Qed.

Lemma signed_parts kps seq selected outs lock tx :
  rfold (sign_coin kps) (mkTx 1 Standard (map (unsigned_input seq) selected) outs lock None None)
    (imap pair selected) = Ok tx ->
  tx_type tx = Standard /\ outputs tx = outs /\ spends tx = map outpoint selected.
Proof.
  intros H%sign_coins_unsigned. pose proof (spends_unsigned _ _ H) as Hs.
  pose proof (f_equal outputs H) as Ho. pose proof (f_equal tx_type H) as Ht. cbn in Ho, Ht.
  split_and!; [done..|]. rewrite Hs. unfold spends. cbn [inputs]. by rewrite map_map.
Qed.

Lemma build_built b utxos tx : build b utxos = Ok tx -> exists selected fee change, built b utxos tx selected fee change.
Proof.
  unfold build. destruct (_ && _) eqn:G1; [done|]. destruct (zlen (wif_keys b) =? 0); [done|].
  intros H. destruct (rfold _ [] (wif_keys b)) as [kps| |]; simpl in H; try done.
  destruct (match b_change_address b with Some _ => _ | None => _ end) as [addr| |]; simpl in H; try done.
  destruct (try_sum "Total send amount overflow" _) as [total| |] eqn:Et; simpl in H; try done. apply try_sum_Ok in Et as ->.
  destruct (select_coins_with_output_size _ _ _ _ _) as [[sel fee]| |] eqn:Es; simpl in H; try done.
  destruct (try_sum "Total input amount overflow" _) as [total| |] eqn:Et; simpl in H; try done. apply try_sum_Ok in Et as ->.
  fold (coin_sum sel) in H.
  destruct (rfold pay_address [] _) as [outs| |] eqn:Ea; simpl in H; try done. apply pay_addresses in Ea as (o1 & -> & Ho1).
  destruct (rfold pay_script _ _) as [outs| |] eqn:Er; simpl in H; try done. apply pay_scripts in Er as (o2 & -> & Ho2).
  eexists sel, fee, _. set (change := sat_sub _ _) in *.
  assert (exists o3, tx_type tx = Standard /\ outputs tx = o1 ++ o2 ++ o3 /\ spends tx = map outpoint sel /\
            map value o3 = if DUST_SATOSHIS <=? change then [change] else []) as (o3 & E1 & E2 & E3 & E4).
  { destruct (DUST_SATOSHIS <=? change).
    - destruct (p2pkh_script_pubkey addr) as [s| |]; simpl in H; try done.
      apply signed_parts in H as (H1 & H2 & H3). exists [mkTxOutput change s]. split_and!; try done.
      rewrite H2. unfold vec_push. by rewrite <- app_assoc.
    - apply signed_parts in H as (H1 & H2 & H3). exists []. split_and!; try done. by rewrite H2, app_nil_r. }
  split; [done..|by exists o1, o2, o3|done|].
  pose proof (zlen_nonneg (recipients b)). pose proof (zlen_nonneg (recipient_scripts b)).
  apply andb_false_iff in G1 as [?%Z.eqb_neq|?%Z.eqb_neq]; lia.
Qed.

Lemma pays_recipient_values rs outs : Forall2 pays_recipient rs outs -> map value outs = map snd rs /\
  Forall (fun o => DUST_SATOSHIS <= value o) outs.
Proof.
  induction 1 as [|r o rs outs (H1 & H2 & H3) _ [IH1 IH2]]; [done|]. simpl. rewrite H2, IH1. split; [done|].
  constructor; [by rewrite H2|done].
Qed.

Lemma pays_raw_values rs outs : Forall2 pays_raw rs outs -> map value outs = map snd rs /\
  Forall (fun o => DUST_SATOSHIS <= value o) outs.
Proof.
  induction 1 as [|r o rs outs [-> H] _ [IH1 IH2]]; [done|]. simpl. rewrite IH1. split; [done|]. by constructor.
Qed.

(** The amounts a builder sends. *)
Definition amounts (b : TxBuilder) : list Z := map snd (recipients b) ++ map snd (recipient_scripts b).

Lemma zsum_at_least l d : 0 <= d -> Forall (fun v => d <= v) l -> 0 < zlen l -> d <= zsum l.
Proof.
  intros Hd Hl Hz. destruct Hl as [|x l Hx Hl]; [done|]. simpl.
  assert (0 <= zsum l) by (apply zsum_nonneg; eapply Forall_impl; [exact Hl|simpl; lia]). lia.
Qed.

Lemma built_outputs b utxos tx selected fee change : built b utxos tx selected fee change ->
  map value (outputs tx) = amounts b ++ (if DUST_SATOSHIS <=? change then [change] else []) /\
  Forall (fun v => DUST_SATOSHIS <= v) (map value (outputs tx)) /\ DUST_SATOSHIS <= zsum (amounts b).
Proof.
  intros [_ _ _ (o1 & o2 & o3 & -> & H1 & H2 & H3) _ Hz].
  apply pays_recipient_values in H1 as [E1 D1]. apply pays_raw_values in H2 as [E2 D2].
  rewrite !map_app, E1, E2, H3. unfold amounts. rewrite <- (assoc_L (++)). split; [done|].
  apply Forall_map in D1, D2. rewrite E1 in D1. rewrite E2 in D2. split.
  - repeat (apply Forall_app; split); try done. destruct (Z.leb_spec DUST_SATOSHIS change); by repeat constructor.
  - apply zsum_at_least; [done|by apply Forall_app|]. rewrite zlen_app. unfold zlen in *. by rewrite !length_map.
Qed.

(** *** Property *)

(** a payment conserves value.  Whenever the builder returns a transaction, it spends
    distinct coins of the wallet, none of them dust; it pays every address and every
    script exactly the amount asked for, none below the dust limit; what is left over goes
    to at most one change output, and the fee it pays is at least the estimate for its
    number of inputs and exceeds it by less than the dust limit. *)
Theorem payment_conserves_value (b : TxBuilder) (utxos : list Utxo) (tx : Transaction) :
  0 <= b_fee_rate b -> 0 <= b_min_absolute_fee b -> coin_sum (spendable_coins utxos) < u64_max ->
  build b utxos = Ok tx ->
  exists selected o1 o2 change, selected ⊆+ spendable_coins utxos /\ spends tx = map outpoint selected /\
    outputs tx = o1 ++ o2 ++ change /\ zlen change <= 1 /\
    Forall2 pays_recipient (recipients b) o1 /\ Forall2 pays_raw (recipient_scripts b) o2 /\
    let estimate := estimated_fee (b_fee_rate b) (b_min_absolute_fee b) (output_bytes b) (zlen selected) in
    estimate <= coin_sum selected - zsum (map value (outputs tx)) < estimate + DUST_SATOSHIS.
Proof.
  intros Hr Hf Hsum H. apply build_built in H as (sel & fee & change & Hb).
  pose proof (built_outputs _ _ _ _ _ _ Hb) as (Hv & _ & Hpos).
  destruct Hb as [Hs Hc Hi (o1 & o2 & o3 & E & P1 & P2 & P3) Hty _]. fold (amounts b) in Hs, Hc.
  destruct (select_spec utxos (zsum (amounts b)) (b_fee_rate b) (b_min_absolute_fee b) (output_bytes b))
    as [(k & Hk & Hp & _ & E')|[_ E']]; [unfold DUST_SATOSHIS in Hpos; lia|done|done| |congruence].
  rewrite Hs in E'. injection E' as -> ->.
  assert (zlen (take k (candidates utxos)) = Z.of_nat k) as Hz by (unfold zlen; rewrite length_take; lia).
  assert (take k (candidates utxos) ⊆+ spendable_coins utxos) as Hsub.
  { rewrite <- candidates_perm. apply sublist_submseteq, sublist_take. }
  eexists _, o1, o2, o3. split_and!; try done.
  - destruct (DUST_SATOSHIS <=? change); apply (f_equal length) in P3; rewrite length_map in P3; unfold zlen; rewrite P3; done.
  - cbv zeta. unfold pays in Hp. rewrite Hz in *. rewrite Hv, zsum_app.
    assert (coin_sum (take k (candidates utxos)) < u64_max) as Hlt.
    { eapply Z.le_lt_trans; [|exact Hsum]. apply coin_sum_submseteq; [|done].
      rewrite <- candidates_perm. apply candidates_nonneg. }
    assert (change = coin_sum (take k (candidates utxos)) - zsum (amounts b) -
                     estimated_fee (b_fee_rate b) (b_min_absolute_fee b) (output_bytes b) (Z.of_nat k)) as Hch.
    { rewrite Hc. unfold sat_sub, sat_add. lia. }
    unfold DUST_SATOSHIS in *. destruct (Z.leb_spec 546 change); simpl; lia.
Qed.

End signing.
