(* ===== verification/Payment.v ===== *)
(** * Payments and the node's pool

    The wallet service builds payments from the coins the chain lists for its address and
    hands them to the node's own pool.  This file composes the two: a payment the coins
    cover is built and admitted, as long as the fee rate asked for leaves room for the
    difference between the builder's size estimate and the size the pool measures. *)

From stdpp Require Import base list gmap sorting strings.
From Stdlib Require Import ZArith Lia.
From S2P Require Import Prelude Script Crypto Engine Standard Merkle Codec Block Address Consensus.
From S2P Require Import Deployments Governance Ledger Supply Chain Mempool Pool Wallet WalletFacts.
Import Scripts Wallet.

(** ** The coins of an address *)

Section coins.
Context {C : Crypto} {CL : CryptoLaws C} {B : Bincode} {N : Snapshot} {NL : SnapshotLaws N}.
Context (c : Chain) (addr h : bytes) (v : Z).
Context (LI : ledger_inv (state (main c))) (Haddr : Address.parse addr = Ok (mkAddress h v)) (Hh : zlen h = 20).

Lemma wallet_coin u : u ∈ (get_utxos_for_address c addr) ->
  utxo_set (state (main c)) !! (outpoint u : OutPoint) = Some u /\ utxo_script u = script_for h.
Proof.
  unfold get_utxos_for_address, utxo_values, address_to_p2pkh_script. rewrite Haddr.
  intros [Hu Hs%bytes_eqb_eq]%list_elem_of_In%filter_In. apply list_elem_of_In, list_elem_of_fmap in Hu as ([k u'] & -> & Hu).
  apply elem_of_in_order in Hu. destruct (li_utxos _ LI k u' Hu) as [<- _]. done.
Qed.

Lemma wallet_coins_NoDup : NoDup (map outpoint (get_utxos_for_address c addr)).
Proof.
  unfold get_utxos_for_address, utxo_values. apply NoDup_map_filter. rewrite map_map.
  rewrite (map_ext_in _ fst); [apply (in_order_keys outpoint_leb)|].
  intros [k u] Hu%list_elem_of_In%elem_of_in_order. by destruct (li_utxos _ LI k u Hu) as [<- _].
Qed.

Lemma script_for_spendable : is_op_return (script_for h) = false.
Proof.
  pose proof (proj2 (classify_p2pkh (script_for h)) (ex_intro _ h (conj Hh (script_for_build h Hh)))) as Hc.
  unfold is_op_return. destruct (from_bytes (script_for h)) as [s| |] eqn:E; [|done..].
  apply from_bytes_Ok in E as ->. by rewrite Hc.
Qed.

(** No address owns more than the supply. *)
Lemma wallet_coins_bounded : coin_sum (spendable_coins (get_utxos_for_address c addr)) <= MAX_SUPPLY.
Proof.
  destruct LI as [L1 _ L3 L4]. pose proof (snapshot_total (claimed_addresses (state (main c)))).
  unfold unclaimed in L4. enough (coin_sum (spendable_coins (get_utxos_for_address c addr)) <= map_sum spendable (utxo_set (state (main c)))) by lia.
  assert (coin_sum (spendable_coins (get_utxos_for_address c addr)) = zsum (map spendable (spendable_coins (get_utxos_for_address c addr)))) as ->.
  { unfold coin_sum. f_equal. apply map_ext_in. intros u [Hu _]%filter_In. unfold spendable.
    apply list_elem_of_In, wallet_coin in Hu as [_ ->]. by rewrite script_for_spendable. }
  unfold map_sum. apply zsum_submseteq.
  - apply Forall_fmap, Forall_forall. intros [k u] Hu%elem_of_map_to_list. simpl. unfold spendable.
    destruct (L1 k u Hu) as (_ & ? & _). destruct (is_op_return _); lia.
  - transitivity (map spendable (map snd (in_order outpoint_leb (utxo_set (state (main c)))))).
    + apply sublist_submseteq, (fmap_sublist spendable). etrans; apply filter_sublist.
    + rewrite map_map. unfold in_order. by rewrite merge_sort_Permutation.
Qed.

End coins.

(** ** Admission *)

Section admission.
Context {C : Crypto} {CL : CryptoLaws C} {B58 : Base58Laws C} {S : Secp} {SL : SecpLaws C S}.
Context {B : Bincode} {BL : BincodeLaws B} {H : Hex} {N : Snapshot} {NL : SnapshotLaws N}.
Context {MO : MapOrder} {ML : MapOrderLaws MO}.

(** A transaction that fits and conflicts with nothing is taken. *)
Lemma add_succeeds now tx fee m : pool_ok m ->
  validate_transaction tx = Ok tt -> check_dust tx = Ok tt -> is_legacy_claim tx = false ->
  MIN_RELAY_FEE <= fee -> 0 < serialized_size tx -> min_fee_rate m * serialized_size tx <= fee ->
  find_conflicts tx m = [] -> has_room (serialized_size tx) m ->
  exists m', add_transaction_with_fee now tx fee m = (m', Ok tt) /\ is_Some (entries m' !! txid tx).
Proof.
  intros Hm Hv Hd Hl Hfee Hsz Hrate Hc [Hr1 Hr2]. unfold add_transaction_with_fee.
  unfold slift, sbind, sget. rewrite Hv, Hd, Hl. cbn [negb andb].
  unfold check_pending_claim, claim_of. rewrite Hl. simpl.
  rewrite (proj2 (Z.ltb_ge fee _)) by done. rewrite (proj2 (Z.ltb_lt 0 _)) by done.
  assert (min_fee_rate m <= fee / serialized_size tx) as Hq by (apply Z.div_le_lower_bound; lia).
  rewrite (proj2 (Z.ltb_ge (fee / _) _)) by done.
  destruct (bool_decide _) eqn:G; [apply bool_decide_eq_true in G; by exists m|].
  pose proof (pool_bytes_nonneg m Hm). pose proof (po_limits m Hm) as [L1 L2].
  rewrite Hc. unfold replace_conflicts. cbn [length Nat.eqb]. unfold sret at 1. rewrite (proj2 (Z.ltb_ge (max_bytes m) _)) by lia.
  cbn [make_room]. unfold sbind, sget, slift. rewrite (total_bytes_ok m Hm).
  unfold sat_add. rewrite (proj2 (Z.leb_gt _ _)), (proj2 (Z.ltb_ge _ _)) by lia. cbn [negb andb].
  unfold sret, smod. eexists. split; [done|]. unfold insert_entry. cbn [entries]. rewrite lookup_insert_eq. eauto.
Qed.

(** The size the pool measures. *)
Definition input_bytes (i : TxInput) : Z := zlen (prev_txid i) + zlen (script_sig i) + 16.
Definition out_bytes (o : TxOutput) : Z := zlen (script_pubkey o) + 16.

Lemma zlen_concat_map {A} (f : A -> bytes) (g : A -> Z) l : (forall x, zlen (f x) = g x) ->
  zlen (concat (map f l)) = zsum (map g l).
Proof. intros Hf. induction l as [|x l IH]; simpl; [done|]. by rewrite zlen_app, Hf, IH. Qed.

Lemma serialized_size_sum tx : claim_address tx = None -> claim_signature tx = None ->
  serialized_size tx = 30 + zsum (map input_bytes (inputs tx)) + zsum (map out_bytes (outputs tx)).
Proof.
  intros H1 H2. unfold serialized_size. rewrite ser_size_layout. cbn [unwrap_or]. unfold layout_tx, enc_vec.
  rewrite H1, H2. unfold le32, le64. rewrite !zlen_app, !zlen_to_le.
  rewrite (zlen_concat_map layout_input input_bytes), (zlen_concat_map layout_output out_bytes).
  - change (zlen (enc_option (enc_bytes 8) None)) with 1. lia.
  - intros o. unfold layout_output, enc_bytes, le64, out_bytes. rewrite !zlen_app, !zlen_to_le. lia.
  - intros i. unfold layout_input, enc_bytes, le32, input_bytes. rewrite !zlen_app, !zlen_to_le. lia.
Qed.

Lemma zsum_upper {A} (f : A -> Z) l d : (forall x, x ∈ l -> f x <= d) -> zsum (map f l) <= d * zlen l.
Proof.
  induction l as [|x l IH]; intros Hl; [change (zlen []) with 0; simpl; lia|]. rewrite zlen_cons. simpl.
  assert (f x <= d) by (apply Hl; left). assert (zsum (map f l) <= d * zlen l) by (apply IH; intros; apply Hl; by right). lia.
Qed.

Lemma zsum_lower {A} (f : A -> Z) l d : (forall x, x ∈ l -> d <= f x) -> d * zlen l <= zsum (map f l).
Proof.
  induction l as [|x l IH]; intros Hl; [change (zlen []) with 0; simpl; lia|]. rewrite zlen_cons. simpl.
  assert (d <= f x) by (apply Hl; left). assert (d * zlen l <= zsum (map f l)) by (apply IH; intros; apply Hl; by right). lia.
Qed.

(** The fee of a transaction whose inputs are coins of the chain. *)
Lemma compute_tx_fee_coins c tx us : tx_type tx = Standard -> Forall (fun u => 0 <= utxo_value u) us ->
  spends tx = map outpoint us -> (forall u, u ∈ us -> utxo_set (state (main c)) !! (outpoint u : OutPoint) = Some u) ->
  coin_sum us <= u64_max -> Forall (fun o => 0 <= value o) (outputs tx) ->
  zsum (map value (outputs tx)) <= coin_sum us ->
  compute_tx_fee c tx = Some (coin_sum us - zsum (map value (outputs tx))).
Proof.
  intros Hty Hnn Hs Hin Hmax Ho Hle. unfold compute_tx_fee, is_coinbase, is_coinstake, is_legacy_claim. rewrite Hty. cbn [bool_decide orb].
  match goal with |- context [foldl ?f (Some 0) (inputs tx)] => set (step := f) end.
  assert (forall l ins a, map input_key ins = map outpoint l -> Forall (fun u => 0 <= utxo_value u) l -> 0 <= a ->
    (forall u, u ∈ l -> utxo_set (state (main c)) !! (outpoint u : OutPoint) = Some u) -> a + coin_sum l <= u64_max ->
    foldl step (Some a) ins = Some (a + coin_sum l)) as Hf.
  { clear. induction l as [|u l IH]; intros [|i ins] a E Hnn Ha Hin Hm; try done.
    { simpl. f_equal. unfold coin_sum. simpl. lia. }
    simpl in E. injection E as E1 E2 E. apply Forall_cons in Hnn as [Hu Hnn]. rewrite coin_sum_cons in *.
    pose proof (coin_sum_nonneg l Hnn). cbn [foldl]. unfold step at 2. simpl. rewrite E1, E2.
    assert (utxo_set (state (main c)) !! ((utxo_txid u, utxo_vout u) : OutPoint) = Some u) as ->
      by (apply (Hin u); left). simpl.
    rewrite (IH ins); [f_equal; unfold sat_add; lia|done..|unfold sat_add; lia| |unfold sat_add; lia].
    intros x Hx. apply Hin. by right. }
  assert (foldl step (Some 0) (inputs tx) = Some (coin_sum us)) as Hfold by (by apply (Hf us)).
  pose proof (zsum_nonneg _ (proj2 (Forall_map value _ _) Ho)).
  unfold bool_decide. simpl. rewrite Hfold. simpl. unfold checked_sub, total_output.
  rewrite sat_sum_spec by by apply Forall_map. rewrite Z.min_r by lia. by rewrite (proj2 (Z.leb_le _ _)).
Qed.

Lemma from_wif_secret wif key : from_wif wif = Ok key -> secret_ok (inner key) = true.
Proof.
  unfold from_wif, key_from_bytes. intros Hw. destruct (bs58_decode wif); simpl in Hw; [|done].
  destruct (_ <? 33); [done|]. destruct (negb (bytes_eqb _ _)); [done|].
  destruct (vec_get _ 0) as [ver| |]; simpl in Hw; try done. destruct (negb _); [done|].
  match type of Hw with rbind ?x _ = _ => destruct x as [b| |] end; simpl in Hw; try done.
  destruct (negb _); [done|]. destruct (secret_ok _) eqn:E; simpl in Hw; [|done]. by injection Hw as <-.
Qed.

Lemma try_sum_total msg l : Forall (fun v => 0 <= v) l -> zsum l <= u64_max -> try_sum msg l = Ok (zsum l).
Proof.
  intros Hl Hm. unfold try_sum. change (zsum l) with (0 + zsum l) in *. revert Hm. assert (0 <= 0) as H0 by done. revert H0.
  generalize 0 at 2 3 4 5 as a. induction Hl as [|x l Hx Hl IH]; intros a Ha Hm; simpl in *; [f_equal; lia|].
  pose proof (zsum_nonneg l Hl). unfold checked_add. rewrite (proj2 (Z.leb_le _ _)) by lia. cbn [ok_or rbind].
  rewrite IH by lia. f_equal. lia.
Qed.

(** What [build_payment] builds. *)
Definition payment_outputs (a ch : Address) (amount left : Z) : list TxOutput :=
  mkTxOutput amount (script_for (addr_hash a)) ::
  if DUST_SATOSHIS <=? left then [mkTxOutput left (script_for (addr_hash ch))] else [].

Record signed_payment (key : bytes) (sel : list Utxo) (outs : list TxOutput) (tx : Transaction) : Prop := {
  sp_unsigned : unsigned tx = mkTx 1 Standard (map (unsigned_input 0xFFFFFFFF) sel) outs 0 None None;
  sp_signed : forall j u, sel !! j = Some u ->
    exists i, inputs tx !! j = Some i /\ script_sig i = unlocking key (sighash tx j (utxo_script u));
}.

Lemma wallet_address address ad : validate_p2pkh address = Ok ad ->
  p2pkh_script_pubkey address = Ok (script_for (addr_hash ad)).
Proof. intros Hv. unfold p2pkh_script_pubkey, address_to_hash160. rewrite Hv. done. Qed.

Lemma build_payment_signed utxos to change amount rate wif key a ch sel fee :
  from_wif wif = Ok key -> validate_p2pkh to = Ok a -> validate_p2pkh change = Ok ch -> DUST_SATOSHIS <= amount ->
  select_coins_with_output_size utxos amount rate MIN_ABSOLUTE_FEE_SATS 68 = Ok (sel, fee) ->
  Forall (fun u => 0 <= utxo_value u) sel -> 0 <= fee -> amount + fee <= coin_sum sel < u64_max ->
  exists tx, build_payment utxos to change amount rate wif = Ok tx /\
    signed_payment (inner key) sel (payment_outputs a ch amount (coin_sum sel - amount - fee)) tx.
Proof.
  intros Hw Ha Hch Hd Hs Hnn Hf Hsum. pose proof (from_wif_secret _ _ Hw) as Hk.
  unfold build_payment, build. cbn [recipients recipient_scripts wif_keys b_change_address b_fee_rate b_min_absolute_fee
    b_signal_rbf b_lock_time sign_with_wif min_absolute_fee fee_rate change_address recipient new vec_push app map zlen length].
  change ((Z.of_nat 1 =? 0) && (Z.of_nat 0 =? 0)) with false. change (Z.of_nat 1 =? 0) with false. cbv iota.
  cbn [rfold]. unfold key_pair. rewrite Hw. cbn [map_err rbind]. rewrite Hk. cbn [ensure rbind vec_push app].
  unfold DUST_SATOSHIS in Hd. cbn [snd].
  rewrite try_sum_total by (repeat constructor; simpl; lia). cbn [rbind].
  assert (zsum [amount] = amount) as -> by (simpl; lia).
  change (output_bytes _) with 68.
  rewrite Hs. cbn [rbind]. rewrite (try_sum_total _ (map utxo_value sel)); [|by apply Forall_map|fold (coin_sum sel); lia].
  fold (coin_sum sel). cbn [rbind]. cbn [pay_address rfold]. rewrite (proj2 (Z.ltb_ge _ _)) by (unfold DUST_SATOSHIS; lia).
  rewrite (wallet_address to a Ha), (wallet_address change ch Hch). cbn [rbind vec_push app].
  assert (sat_sub (coin_sum sel) (sat_add u64_max amount fee) = coin_sum sel - amount - fee) as ->
    by (unfold sat_sub, sat_add; lia).
  assert ((if DUST_SATOSHIS <=? coin_sum sel - amount - fee
     then Ok [mkTxOutput amount (script_for (addr_hash a)); mkTxOutput (coin_sum sel - amount - fee) (script_for (addr_hash ch))]
     else Ok [mkTxOutput amount (script_for (addr_hash a))]) =
     Ok (E:=WalletError) (payment_outputs a ch amount (coin_sum sel - amount - fee))) as ->
    by (unfold payment_outputs; by destruct (_ <=? _)).
  cbn [rbind]. set (tx0 := mkTx 1 Standard _ _ _ _ _).
  destruct (sign_coins_one (inner key) sel Hk 0 tx0) as (tx & E & U & _ & Hin).
  { simpl. by rewrite length_map. }
  exists tx. split; [exact E|]. split.
  - rewrite U. unfold tx0, unsigned. cbn. f_equal. rewrite map_map. by apply map_ext.
  - intros j u Hu. destruct (Hin j u Hu) as (i & Hi & Hsig). exists i. split; [done|].
    by rewrite Hsig, <- U, sighash_unsigned.
Qed.

(** ** A signed payment passes the checks of the pool *)

Lemma rfold_all {E A} (f : A -> res E unit) l : (forall x, x ∈ l -> f x = Ok tt) -> rfold (fun _ x => f x) tt l = Ok tt.
Proof.
  induction l as [|x l IH]; intros Hl; simpl; [done|]. rewrite (Hl x) by left. simpl. apply IH. intros y Hy. apply Hl. by right.
Qed.

Lemma see_inputs_ok l : forall seen, NoDup (map input_key l) -> (forall k, k ∈ map input_key l -> k ∉ seen) ->
  is_ok (rfold see_input seen l) = true.
Proof.
  induction l as [|i l IH]; intros seen Hnd Hs; simpl; [done|]. simpl in Hnd. apply NoDup_cons in Hnd as [Hi Hnd].
  unfold see_input at 1. rewrite decide_False by (apply (Hs (input_key i)); left). simpl. apply IH; [done|].
  intros k Hk [->|Hk']%elem_of_cons; [done|]. revert Hk'. apply Hs. by right.
Qed.

Lemma check_outputs_ok tx outs : forall n, Forall (fun o => 0 < value o <= MAX_MONEY) outs -> check_outputs tx n outs = Ok tt.
Proof.
  induction outs as [|o outs IH]; intros n Ho; simpl; [done|]. apply Forall_cons in Ho as [Ho Hos].
  unfold check_output. rewrite (proj2 (Z.eqb_neq _ _)) by lia. rewrite andb_false_r. simpl.
  rewrite (proj2 (Z.ltb_ge _ _)) by lia. simpl. by apply IH.
Qed.

Section payment.
Context (key : bytes) (sel : list Utxo) (outs : list TxOutput) (tx : Transaction).
Context (Hk : secret_ok key = true) (SP : signed_payment key sel outs tx).

Lemma payment_fields : tx_type tx = Standard /\ outputs tx = outs /\ claim_address tx = None /\
  claim_signature tx = None /\ lock_time tx = 0 /\ spends tx = map outpoint sel /\ length (inputs tx) = length sel.
Proof.
  destruct SP as [U _]. pose proof (f_equal spends U) as Hs. pose proof (f_equal (fun t => length (inputs t)) U) as Hl.
  pose proof (f_equal tx_type U) as H1. pose proof (f_equal outputs U) as H2. pose proof (f_equal claim_address U) as H3.
  pose proof (f_equal claim_signature U) as H4. pose proof (f_equal lock_time U) as H5. cbn in *.
  split_and!; try done.
  - unfold spends, unsigned in Hs. cbn [inputs] in Hs. rewrite !map_map in Hs. exact Hs.
  - by rewrite !length_map in Hl.
Qed.

Lemma payment_input j i : inputs tx !! j = Some i -> exists u, sel !! j = Some u /\
  prev_txid i = utxo_txid u /\ prev_vout i = utxo_vout u /\ script_sig i = unlocking key (sighash tx j (utxo_script u)).
Proof.
  intros Hi. destruct payment_fields as (_ & _ & _ & _ & _ & Hs & Hl).
  destruct (lookup_lt_is_Some_2 sel j) as [u Hu]; [apply lookup_lt_Some in Hi; lia|].
  destruct (sp_signed _ _ _ _ SP j u Hu) as (i' & Hi' & Hsig). exists u. simplify_eq.
  apply (f_equal (lookup j)) in Hs. unfold spends in Hs. change (map ?f ?l) with (f <$> l) in Hs.
  rewrite !list_lookup_fmap, Hi, Hu in Hs. cbn in Hs. unfold input_key, outpoint in Hs. by simplify_eq.
Qed.

Lemma payment_size : Forall (fun u => zlen (utxo_txid u) = 32) sel ->
  Forall (fun o => zlen (script_pubkey o) = 25) outs -> zlen outs <= 2 ->
  0 < serialized_size tx <= 112 + 156 * zlen sel.
Proof.
  intros Ht Ho H2. destruct payment_fields as (_ & Eo & Ha & Hc & _ & _ & Hl). rewrite serialized_size_sum, Eo by done.
  assert (zsum (map out_bytes outs) <= 41 * zlen outs).
  { apply zsum_upper. intros o Hin. unfold out_bytes. rewrite Forall_forall in Ho. rewrite Ho by done. lia. }
  assert (forall i, i ∈ inputs tx -> 0 <= input_bytes i <= 156) as Hb.
  { intros i [j Hj]%list_elem_of_lookup. destruct (payment_input j i Hj) as (u & Hu & E1 & _ & E2).
    unfold input_bytes. rewrite E1, E2, zlen_unlocking by done. rewrite Forall_forall in Ht.
    rewrite Ht by by eapply list_elem_of_lookup_2. pose proof (signature_len key (sighash tx j (utxo_script u))). lia. }
  assert (zsum (map input_bytes (inputs tx)) <= 156 * zlen (inputs tx)) by (apply zsum_upper; intros i Hi; apply (Hb i Hi)).
  assert (zlen (inputs tx) = zlen sel) as <- by (unfold zlen; by rewrite Hl).
  assert (0 <= zsum (map input_bytes (inputs tx))).
  { apply zsum_nonneg, Forall_map, Forall_forall. intros i Hi. apply (Hb i Hi). }
  assert (0 <= zsum (map out_bytes outs)).
  { apply zsum_nonneg, Forall_map, Forall_forall. intros o _. unfold out_bytes. pose proof (zlen_nonneg (script_pubkey o)). lia. }
  lia.
Qed.

Lemma payment_valid : sel <> [] -> NoDup (map outpoint sel) -> outs <> [] ->
  Forall (fun o => 0 < value o <= MAX_MONEY) outs -> validate_transaction tx = Ok tt.
Proof.
  intros Hne Hnd Hoe Ho. destruct payment_fields as (Ht & Eo & _ & _ & _ & Hs & Hl). unfold validate_transaction.
  rewrite Eo. destruct outs as [|o os]; [done|]. cbn [length Nat.eqb]. rewrite check_outputs_ok by done. cbn [rbind].
  unfold is_legacy_claim, is_coinstake, is_coinbase. rewrite Ht. cbn.
  destruct (inputs tx) as [|i ins] eqn:Ei; [destruct sel; [done|simpl in Hl; lia]|]. cbn [length Nat.eqb]. rewrite <- Ei.
  pose proof (see_inputs_ok (inputs tx) []) as Hsee. fold (spends tx) in Hsee. rewrite Hs in Hsee.
  specialize (Hsee Hnd ltac:(intros; apply not_elem_of_nil)). by destruct (rfold see_input [] (inputs tx)).
Qed.

(** The coins are P2PKH outputs of the key in the output set of the chain. *)
Context (c : Chain) (Hcoins : forall u, u ∈ sel ->
  utxo_set (state (main c)) !! (outpoint u : OutPoint) = Some u /\ utxo_script u = script_for (Core.hash160 (public_key key))).

Lemma payment_coin j i : inputs tx !! j = Some i -> exists u,
  utxo_set (state (main c)) !! ((prev_txid i, prev_vout i) : OutPoint) = Some u /\
  utxo_script u = script_for (Core.hash160 (public_key key)) /\
  script_sig i = unlocking key (sighash tx j (utxo_script u)).
Proof.
  intros Hi. destruct (payment_input j i Hi) as (u & Hu & E1 & E2 & E3).
  destruct (Hcoins u) as [H1 H2]; [by eapply list_elem_of_lookup_2|]. exists u. rewrite E1, E2. done.
Qed.

Lemma zlen_script_for x : zlen x = 20 -> zlen (script_for x) = 25.
Proof. intros Hx. unfold script_for, Address.p2pkh_script_pubkey. cbn [addr_hash]. rewrite !zlen_app, Hx. done. Qed.

Lemma payment_scripts_verify height time : verify_tx_scripts c tx height time = Ok tt.
Proof.
  destruct payment_fields as (Ht & _). unfold verify_tx_scripts, is_legacy_claim, is_coinbase, is_coinstake. rewrite Ht. cbn.
  apply rfold_all. intros [j i] (j' & i' & [= <- <-] & Hi)%elem_of_lookup_imap_1.
  destruct (payment_coin j i Hi) as (u & Hu & Es & Hsig). unfold verify_script. rewrite Hu. cbn [ok_or rbind].
  pose proof (hash160_zlen (public_key key)) as Hz. pose proof (signature_len key (sighash tx j (utxo_script u))).
  rewrite Hsig, from_bytes_small by (rewrite zlen_unlocking by done; unfold MAX_SCRIPT_SIZE; lia). cbn [map_err rbind].
  rewrite from_bytes_small by (rewrite Es, zlen_script_for by done; unfold MAX_SCRIPT_SIZE; lia). cbn [map_err rbind].
  set (v := mkEnv _ _ _ _ _ _ _). pose proof (unlocking_accepted v key Hk) as Hx. cbn [tx_hash v] in Hx.
  rewrite Es in *. by destruct (execute _ _ _).
Qed.

Lemma payment_not_cold : rfold (fun _ e => check_cold_input c tx e) tt (imap pair (inputs tx)) = Ok tt.
Proof.
  apply rfold_all. intros [j i] (j' & i' & [= <- <-] & Hi)%elem_of_lookup_imap_1.
  destruct (payment_coin j i Hi) as (u & Hu & Es & _). unfold check_cold_input, get_utxo. rewrite Hu.
  pose proof (hash160_zlen (public_key key)) as Hz. unfold p2cs_redeem_script.
  rewrite Es, from_bytes_small by (rewrite zlen_script_for by done; unfold MAX_SCRIPT_SIZE; lia).
  by rewrite (proj2 (classify_p2pkh _) (ex_intro _ _ (conj Hz (script_for_build _ Hz)))).
Qed.

Lemma payment_no_conflict m : pool_ok m -> (forall u, u ∈ sel -> spent_inputs m !! (outpoint u : OutPoint) = None) ->
  find_conflicts tx m = [].
Proof.
  intros Hm Hfree. destruct (find_conflicts tx m) as [|t l] eqn:E; [done|]. exfalso.
  assert (t ∈ find_conflicts tx m) as (k & Hkey & Hsp)%elem_of_find_conflicts by (rewrite E; left).
  destruct payment_fields as (_ & _ & _ & _ & _ & Hs & _). rewrite Hs in Hkey.
  apply list_elem_of_fmap in Hkey as (u & -> & Hu). rewrite Hfree in Hsp by done. done.
Qed.

End payment.

(** ** Composition *)

Lemma parse_hash_len address ad : Address.parse address = Ok ad -> zlen (addr_hash ad) = 20.
Proof.
  unfold Address.parse. destruct (bs58_decode address) as [d|]; simpl; [|done].
  destruct (Z.eqb_spec (zlen d) 25) as [Hd|]; simpl; [|done]. destruct (negb _); [done|].
  destruct (vec_get _ 0) as [ver| |]; simpl; try done. intros [= <-]. cbn [addr_hash].
  unfold slice. unfold zlen in *. rewrite length_take, length_drop, length_take. lia.
Qed.

Lemma validate_parse address ad : validate_p2pkh address = Ok ad -> Address.parse address = Ok ad.
Proof. unfold validate_p2pkh. destruct (Address.parse address); simpl; try done. by destruct (negb _). Qed.

(** The address of a key. *)
Definition key_address (k : bytes) : bytes := encode (mkAddress (Core.hash160 (public_key k)) PUBKEY_ADDRESS_PREFIX).

Lemma key_address_parse k :
  Address.parse (key_address k) = Ok (mkAddress (Core.hash160 (public_key k)) PUBKEY_ADDRESS_PREFIX).
Proof. apply parse_encode; [done|apply Core.hash160_bytes|apply hash160_zlen]. Qed.

Lemma key_address_valid k :
  validate_p2pkh (key_address k) = Ok (mkAddress (Core.hash160 (public_key k)) PUBKEY_ADDRESS_PREFIX).
Proof. unfold validate_p2pkh. by rewrite key_address_parse. Qed.

Lemma estimated_fee_floor rate floor outs n : floor <= estimated_fee rate floor outs n.
Proof. unfold estimated_fee. lia. Qed.

Lemma payment_outputs_ok a ch amount left : zlen (addr_hash a) = 20 -> zlen (addr_hash ch) = 20 ->
  DUST_SATOSHIS <= amount <= MAX_MONEY -> 0 <= left <= MAX_MONEY ->
  let outs := payment_outputs a ch amount left in
  outs <> [] /\ zlen outs <= 2 /\ Forall (fun o => zlen (script_pubkey o) = 25) outs /\
  Forall (fun o => DUST_SATOSHIS <= value o <= MAX_MONEY) outs /\
  amount <= zsum (map value outs) <= amount + left /\ mkTxOutput amount (script_for (addr_hash a)) ∈ outs.
Proof.
  intros Ha Hch Hd Hl. unfold payment_outputs. pose proof (zlen_script_for _ Ha). pose proof (zlen_script_for _ Hch).
  destruct (Z.leb_spec DUST_SATOSHIS left); (split_and!; [done|done| | |simpl; lia|simpl; lia|left]);
    repeat constructor; cbn [script_pubkey value]; try done; lia.
Qed.

Lemma check_dust_ok tx : Forall (fun o => DUST_SATOSHIS <= value o <= MAX_MONEY) (outputs tx) -> check_dust tx = Ok tt.
Proof.
  intros Ho. unfold check_dust. destruct (is_legacy_claim tx); [done|]. apply rfold_all. intros o Hin.
  rewrite Forall_forall in Ho. specialize (Ho o Hin). change Mempool.DUST_SATOSHIS with DUST_SATOSHIS.
  by rewrite (proj2 (Z.ltb_ge _ _)) by lia.
Qed.

(** Admission of a signed payment is up to the pool. *)
Lemma signed_payment_checked now c key sel outs tx :
  secret_ok key = true -> signed_payment key sel outs tx ->
  (forall u, u ∈ sel -> utxo_set (state (main c)) !! (outpoint u : OutPoint) = Some u /\
                        utxo_script u = script_for (Core.hash160 (public_key key))) ->
  sel <> [] -> NoDup (map outpoint sel) -> Forall (fun u => 0 <= utxo_value u) sel -> outs <> [] ->
  Forall (fun o => DUST_SATOSHIS <= value o <= MAX_MONEY) outs -> coin_sum sel <= u64_max ->
  zsum (map value outs) <= coin_sum sel ->
  validate_transaction tx = Ok tt /\ check_dust tx = Ok tt /\ is_legacy_claim tx = false /\
  forall m, admit_with_chain_fee now c tx m =
    let '(m', r) := add_transaction_with_fee now tx (coin_sum sel - zsum (map value outs)) m in
    (m', let* _ := r in Ok (coin_sum sel - zsum (map value outs))).
Proof.
  intros Hk SP Hc Hne Hnd Hnn Hoe Hov Hmax Hle.
  destruct (payment_fields _ _ _ _ SP) as (Ht & Eo & _ & _ & _ & Hsp & _).
  assert (Forall (fun o => 0 < value o <= MAX_MONEY) outs) as Hpos.
  { eapply Forall_impl; [exact Hov|]. simpl. unfold DUST_SATOSHIS. lia. }
  split_and!.
  - by apply (payment_valid _ _ _ _ SP).
  - apply check_dust_ok. by rewrite Eo.
  - unfold is_legacy_claim. by rewrite Ht.
  - intros m. pose proof (compute_tx_fee_coins c tx sel Ht Hnn Hsp (fun u Hu => proj1 (Hc u Hu)) Hmax) as Hcf.
    rewrite Eo in Hcf. specialize (Hcf ltac:(eapply Forall_impl; [exact Hpos|simpl; lia]) Hle).
    unfold admit_with_chain_fee, slift, sbind. rewrite Hcf.
    cbn [ok_or]. rewrite (payment_scripts_verify _ _ _ _ Hk SP c Hc), (payment_not_cold _ _ _ _ SP c Hc).
    unfold is_coinstake. rewrite Ht. simpl. by destruct (add_transaction_with_fee _ _ _ _) as [m' [[]|e|]].
Qed.

(** The pool takes a signed payment that pays its way. *)
Lemma signed_payment_taken now key sel outs tx m :
  secret_ok key = true -> signed_payment key sel outs tx ->
  validate_transaction tx = Ok tt -> check_dust tx = Ok tt -> is_legacy_claim tx = false ->
  Forall (fun u => zlen (utxo_txid u) = 32) sel -> zlen outs <= 2 -> Forall (fun o => zlen (script_pubkey o) = 25) outs ->
  MIN_RELAY_FEE <= coin_sum sel - zsum (map value outs) ->
  min_fee_rate m * (112 + 156 * zlen sel) <= coin_sum sel - zsum (map value outs) ->
  pool_ok m -> has_room (112 + 156 * zlen sel) m ->
  (forall u, u ∈ sel -> spent_inputs m !! (outpoint u : OutPoint) = None) ->
  exists m', add_transaction_with_fee now tx (coin_sum sel - zsum (map value outs)) m = (m', Ok tt) /\
    is_Some (entries m' !! txid tx).
Proof.
  intros Hk SP Hv Hd Hl H32 Ho2 Ho25 Hfee Hrate Hm [Hr1 Hr2] Hfree.
  pose proof (payment_size _ _ _ _ Hk SP H32 Ho25 Ho2) as Hsz. pose proof (po_floor m Hm) as Hfl.
  apply add_succeeds; try done; [lia|nia|by apply (payment_no_conflict _ _ _ _ SP)|split; [done|lia]].
Qed.

(** Coins that cover the fee for all of them give a selection. *)
Lemma covered_selection utxos amount rate : DUST_SATOSHIS <= amount ->
  coin_sum (spendable_coins utxos) < u64_max ->
  amount + estimated_fee rate MIN_ABSOLUTE_FEE_SATS 68 (zlen (spendable_coins utxos)) <= coin_sum (spendable_coins utxos) ->
  exists sel, select_coins_with_output_size utxos amount rate MIN_ABSOLUTE_FEE_SATS 68 =
      Ok (sel, estimated_fee rate MIN_ABSOLUTE_FEE_SATS 68 (zlen sel)) /\
    sel ⊆+ spendable_coins utxos /\ Forall (fun u => 0 <= utxo_value u) sel /\ 1 <= zlen sel <= zlen (spendable_coins utxos) /\
    amount + estimated_fee rate MIN_ABSOLUTE_FEE_SATS 68 (zlen sel) <= coin_sum sel <= coin_sum (spendable_coins utxos).
Proof.
  intros Hd Hmax Hpay. destruct (select_spec utxos amount rate MIN_ABSOLUTE_FEE_SATS 68) as [(k & Hk & Hp & _ & Hs)|[Hno _]];
    [unfold DUST_SATOSHIS in Hd; lia|done|done| |exfalso; by apply (Hno (spendable_coins utxos))].
  assert (zlen (take k (candidates utxos)) = Z.of_nat k) as Hz by (unfold zlen; rewrite length_take; lia).
  assert (take k (candidates utxos) ⊆+ spendable_coins utxos) as Hsub.
  { rewrite <- candidates_perm. apply sublist_submseteq, sublist_take. }
  assert (Forall (fun u => 0 <= utxo_value u) (spendable_coins utxos)) as Hnn.
  { rewrite <- candidates_perm. apply candidates_nonneg. }
  pose proof (coin_sum_submseteq _ _ Hnn Hsub). pose proof (submseteq_length _ _ Hsub) as Hl.
  exists (take k (candidates utxos)). unfold pays in Hp. rewrite Hz in *. split_and!; try done; try (unfold zlen in *; lia).
  rewrite Forall_forall in *. intros u Hu. apply Hnn. by eapply elem_of_submseteq.
Qed.

Lemma NoDup_map_submseteq {A K} (f : A -> K) l l' : NoDup (map f l') -> l ⊆+ l' -> NoDup (map f l).
Proof.
  intros Hl [k Hk]%submseteq_Permutation. change (map f l') with (f <$> l') in Hl. rewrite Hk, fmap_app in Hl.
  by apply NoDup_app in Hl as [? _].
Qed.

(** What the wallet builds from coins that cover a payment. *)
Record covered (c : Chain) (key : bytes) (p : IncentivePayment) (rate : Z) (outs : list TxOutput)
    (sel : list Utxo) (tx : Transaction) : Prop := {
  cv_signed : signed_payment key sel outs tx;
  cv_coins : forall u, u ∈ sel -> utxo_set (state (main c)) !! (outpoint u : OutPoint) = Some u /\
                                  utxo_script u = script_for (Core.hash160 (public_key key));
  cv_wallet : sel ⊆+ spendable_coins (get_utxos_for_address c (key_address key));
  cv_some : sel <> [];
  cv_NoDup : NoDup (map outpoint sel);
  cv_nonneg : Forall (fun u => 0 <= utxo_value u) sel;
  cv_fits : amount_satoshis p + estimated_fee rate MIN_ABSOLUTE_FEE_SATS 68 (zlen sel) <= coin_sum sel <= MAX_SUPPLY;
}.

Lemma payment_built c wif key p a rate :
  let coins := spendable_coins (get_utxos_for_address c (key_address (inner key))) in
  ledger_inv (state (main c)) -> from_wif wif = Ok key ->
  validate_p2pkh (peer_address p) = Ok a -> DUST_SATOSHIS <= amount_satoshis p ->
  amount_satoshis p + estimated_fee rate MIN_ABSOLUTE_FEE_SATS 68 (zlen coins) <= coin_sum coins ->
  exists sel tx, build_payment (get_utxos_for_address c (key_address (inner key))) (peer_address p)
      (key_address (inner key)) (amount_satoshis p) rate wif = Ok tx /\
    covered c (inner key) p rate
      (payment_outputs a (mkAddress (Core.hash160 (public_key (inner key))) PUBKEY_ADDRESS_PREFIX) (amount_satoshis p)
        (coin_sum sel - amount_satoshis p - estimated_fee rate MIN_ABSOLUTE_FEE_SATS 68 (zlen sel))) sel tx.
Proof.
  intros coins LI Hw Ha Hd Hpay. pose proof (hash160_zlen (public_key (inner key))) as Hz.
  pose proof (wallet_coins_bounded c _ _ _ LI (key_address_parse (inner key)) Hz) as Hmax. fold coins in Hmax.
  assert (MAX_SUPPLY < u64_max) as Hu64 by done.
  destruct (covered_selection (get_utxos_for_address c (key_address (inner key))) (amount_satoshis p) rate)
    as (sel & Hs & Hsub & Hnn & Hl & Hsum); [done|fold coins; lia|done|].
  fold coins in Hsub, Hl, Hsum.
  pose proof (estimated_fee_floor rate MIN_ABSOLUTE_FEE_SATS 68 (zlen sel)) as Hfl. unfold MIN_ABSOLUTE_FEE_SATS in Hfl at 1.
  destruct (build_payment_signed _ _ _ _ rate wif key a _ sel _ Hw Ha (key_address_valid (inner key)) Hd Hs Hnn)
    as (tx & Eb & SP); [lia..|].
  exists sel, tx. split; [done|]. split; try done; [| | |lia].
  - intros u Hu. assert (u ∈ coins) as [Hc _]%list_elem_of_In%filter_In by by eapply elem_of_submseteq.
    apply (wallet_coin c _ _ _ LI (key_address_parse (inner key))). by apply list_elem_of_In.
  - intros ->. change (zlen []) with 0 in Hl. lia.
  - eapply NoDup_map_submseteq; [|exact Hsub]. apply NoDup_map_filter. by apply wallet_coins_NoDup.
Qed.

(** The rest of [build_incentive_payment] is the pool's answer. *)
Lemma incentive_payment_run now wif change c m p m0 tx rate :
  build_payment (get_utxos_for_address c change) (peer_address p) change (amount_satoshis p) rate wif = Ok tx ->
  rate = Z.max (recommended_fee_rate m) 1 ->
  build_incentive_payment now (Some wif) (Some change) c c m p m0 =
  let '(m', r) := admit_with_chain_fee now c tx m0 in
  (m', match r with Ok _ => Ok tx | Err e => Err (MempoolRejected e) | Panic => Panic end).
Proof.
  intros Eb ->. unfold build_incentive_payment, sbind, slift. cbn [ok_or].
  destruct (get_utxos_for_address c change) as [|u us] eqn:Eu.
  { apply build_built in Eb as (sel & fee & left & [Hs _ _ _ _ _]). done. }
  assert ((zlen (u :: us) =? 0) = false) as ->.
  { apply Z.eqb_neq. rewrite zlen_cons. pose proof (zlen_nonneg us). lia. }
  rewrite Eb. cbn [map_err]. destruct (admit_with_chain_fee now c tx m0) as [m' [x|e|]]; done.
Qed.

(** C15: a wallet with enough coins can pay.  Take a chain and a pool that satisfy their
    invariants, a wallet whose key decodes, and a payment to a valid address that is not
    dust.  If the coins of the wallet's address cover the amount and the fee for spending all of them, none of
    them is spent in the pool, the pool has room, and the estimated fee pays the pool's minimum rate for the measured size,
    then the payment is built and the pool admits it; it pays the recipient the amount asked for. *)
Theorem payment_admitted (now : Z) (c : Chain) (m : Mempool) (wif : bytes) (key : PrivateKey)
    (p : IncentivePayment) (a : Address) :
  let coins := spendable_coins (get_utxos_for_address c (key_address (inner key))) in
  let rate := Z.max (recommended_fee_rate m) 1 in
  let estimate n := estimated_fee rate MIN_ABSOLUTE_FEE_SATS 68 n in
  ledger_inv (state (main c)) -> pool_ok m -> from_wif wif = Ok key ->
  validate_p2pkh (peer_address p) = Ok a -> DUST_SATOSHIS <= amount_satoshis p ->
  Forall (fun u => zlen (utxo_txid u) = 32) coins ->
  amount_satoshis p + estimate (zlen coins) <= coin_sum coins ->
  (forall u, u ∈ coins -> spent_inputs m !! (outpoint u : OutPoint) = None) ->
  has_room (112 + 156 * zlen coins) m ->
  (forall n, 1 <= n <= zlen coins -> min_fee_rate m * (112 + 156 * n) <= estimate n) ->
  exists tx m',
    build_incentive_payment now (Some wif) (Some (key_address (inner key))) c c m p m = (m', Ok tx) /\
    is_Some (entries m' !! txid tx) /\ mkTxOutput (amount_satoshis p) (script_for (addr_hash a)) ∈ outputs tx.
Proof.
  intros coins rate estimate LI Hm Hw Ha Hd Htx Hpay Hfree [Hr1 Hr2] Hrate.
  pose proof (hash160_zlen (public_key (inner key))) as Hz.
  destruct (payment_built c wif key p a rate LI Hw Ha Hd Hpay) as (sel & tx & Eb & CV). pose proof CV as [SP Hc Hsub Hne Hnd Hnn Hsum].
  assert (forall u, u ∈ sel -> u ∈ coins) as Hin by (intros u Hu; by eapply elem_of_submseteq).
  assert (1 <= zlen sel <= zlen coins) as Hl.
  { pose proof (submseteq_length _ _ Hsub) as Hlen. fold coins in Hlen. destruct sel; [done|]. unfold zlen. simpl in *. lia. }
  pose proof (estimated_fee_floor rate MIN_ABSOLUTE_FEE_SATS 68 (zlen sel)) as Hfl. specialize (Hrate (zlen sel) Hl).
  fold (estimate (zlen sel)) in SP, Hsum, Hfl. unfold MIN_ABSOLUTE_FEE_SATS in Hfl. assert (MAX_SUPPLY < u64_max) as Hu64 by done.
  match type of SP with signed_payment _ _ (payment_outputs _ ?ad _ ?l) _ =>
    destruct (payment_outputs_ok a ad (amount_satoshis p) l) as (O1 & O2 & O3 & O4 & O5 & O6);
    [by eapply parse_hash_len, validate_parse|done|unfold MAX_MONEY, DUST_SATOSHIS in *; lia..|] end.
  destruct (signed_payment_checked now c _ _ _ tx (from_wif_secret _ _ Hw) SP) as (V1 & V2 & V3 & Hadm); try done; [lia..|].
  destruct (signed_payment_taken now _ _ _ tx m (from_wif_secret _ _ Hw) SP) as (m' & E & Hin');
    try done; try (unfold MIN_RELAY_FEE; lia).
  - rewrite Forall_forall in *. auto.
  - split; [done|lia].
  - auto.
  - destruct (payment_fields _ _ _ _ SP) as (_ & Eo & _). exists tx, m'. rewrite Eo. split_and!; [|done|done].
    by rewrite (incentive_payment_run now wif _ c m p m tx rate Eb eq_refl), Hadm, E.
Qed.

(** ** The recommended rate *)

(** The pool refuses what pays less than its minimum rate. *)
Lemma add_refused now tx fee m :
  validate_transaction tx = Ok tt -> check_dust tx = Ok tt -> is_legacy_claim tx = false ->
  MIN_RELAY_FEE <= fee -> 0 < serialized_size tx -> fee < min_fee_rate m * serialized_size tx ->
  add_transaction_with_fee now tx fee m = (m, Err (PolicyRejected "Fee rate too low")).
Proof.
  intros Hv Hd Hl Hfee Hsz Hrate. unfold add_transaction_with_fee. unfold slift, sbind, sget. rewrite Hv, Hd, Hl. cbn [negb andb].
  unfold check_pending_claim, claim_of. rewrite Hl. simpl.
  rewrite (proj2 (Z.ltb_ge fee _)) by done. rewrite (proj2 (Z.ltb_lt 0 _)) by done.
  rewrite (proj2 (Z.ltb_lt (fee / _) _)); [done|]. apply Z.div_lt_upper_bound; lia.
Qed.

(** The bytes of the unlocking scripts. *)
Definition sig_bytes (tx : Transaction) : Z := zsum (map (fun i => zlen (script_sig i)) (inputs tx)).

Lemma payment_size_lower key sel outs tx : signed_payment key sel outs tx ->
  Forall (fun u => zlen (utxo_txid u) = 32) sel -> Forall (fun o => zlen (script_pubkey o) = 25) outs ->
  30 + 48 * zlen sel + sig_bytes tx + 41 * zlen outs <= serialized_size tx.
Proof.
  intros SP H32 Ho. destruct (payment_fields _ _ _ _ SP) as (_ & Eo & Ha & Hc & _ & _ & Hl).
  rewrite serialized_size_sum, Eo by done.
  assert (41 * zlen outs <= zsum (map out_bytes outs)).
  { apply zsum_lower. intros o Hin. unfold out_bytes. rewrite Forall_forall in Ho. rewrite Ho by done. lia. }
  assert (forall i, i ∈ inputs tx -> input_bytes i = 48 + zlen (script_sig i)) as Hi.
  { intros i [j Hj]%list_elem_of_lookup. destruct (payment_input _ _ _ _ SP j i Hj) as (u & Hu & E1 & _ & _).
    unfold input_bytes. rewrite E1. rewrite Forall_forall in H32. rewrite H32 by by eapply list_elem_of_lookup_2. lia. }
  assert (48 * zlen (inputs tx) + sig_bytes tx <= zsum (map input_bytes (inputs tx))).
  { unfold sig_bytes. clear Hl Hc Ha. induction (inputs tx) as [|x l IH]; [done|]. rewrite zlen_cons. cbn [map]. rewrite !zsum_cons.
    rewrite (Hi x) by left. assert (48 * zlen l + zsum (map (fun i => zlen (script_sig i)) l) <= zsum (map input_bytes l)); [|lia].
    apply IH. intros i Hin. apply Hi. by right. }
  assert (zlen (inputs tx) = zlen sel) as <- by (unfold zlen; by rewrite Hl). lia.
Qed.

(** C38: a payment at the recommended rate is refused by the pool that recommends it.
    While a pool is less than half full it recommends its own minimum rate, and the
    wallet multiplies that rate by an estimate of the size.  The estimate has 147 bytes for
    an input, of which the pool's encoding leaves 99 for the unlocking script.  So a payment
    that the coins cover, with a change output, whose unlocking scripts have 99 bytes or
    more on average (a signature of the usual 70 to 72 bytes makes 106 to 108) and whose
    measured size costs more than the absolute floor at that rate (with such signatures
    and the default minimum of one satoshi per byte: six inputs or more) is built, and the
    pool turns it down as paying too little. *)
Theorem recommended_rate_refused (now : Z) (c : Chain) (m : Mempool) (wif : bytes) (key : PrivateKey)
    (p : IncentivePayment) (a : Address) (tx : Transaction) :
  let utxos := get_utxos_for_address c (key_address (inner key)) in
  let rate := Z.max (recommended_fee_rate m) 1 in
  ledger_inv (state (main c)) -> pool_ok m -> Z.of_nat (size (entries m)) < max_size m / 2 ->
  from_wif wif = Ok key -> validate_p2pkh (peer_address p) = Ok a -> DUST_SATOSHIS <= amount_satoshis p ->
  Forall (fun u => zlen (utxo_txid u) = 32) (spendable_coins utxos) ->
  amount_satoshis p + estimated_fee rate MIN_ABSOLUTE_FEE_SATS 68 (zlen (spendable_coins utxos))
    <= coin_sum (spendable_coins utxos) ->
  build_payment utxos (peer_address p) (key_address (inner key)) (amount_satoshis p) rate wif = Ok tx ->
  zlen (outputs tx) = 2 -> 99 * zlen (inputs tx) <= sig_bytes tx ->
  MIN_ABSOLUTE_FEE_SATS < min_fee_rate m * serialized_size tx ->
  build_incentive_payment now (Some wif) (Some (key_address (inner key))) c c m p m =
    (m, Err (MempoolRejected (PolicyRejected "Fee rate too low"))).
Proof.
  intros utxos rate LI Hm Hhalf Hw Ha Hd H32 Hpay Eb H2 Hsig Hbig. pose proof (from_wif_secret _ _ Hw) as Hk.
  pose proof (hash160_zlen (public_key (inner key))) as Hz. pose proof (po_floor m Hm) as Hfloor.
  assert (rate = min_fee_rate m) as Erate.
  { unfold rate, recommended_fee_rate. rewrite (proj2 (Z.ltb_lt _ _)) by done. lia. }
  destruct (payment_built c wif key p a rate LI Hw Ha Hd Hpay) as (sel & tx' & Eb' & [SP Hc Hsub Hne Hnd Hnn Hsum]).
  fold utxos in Eb'. rewrite Eb in Eb'. injection Eb' as <-.
  destruct (payment_fields _ _ _ _ SP) as (Ht & Eo & _ & _ & _ & Hsp & Hl).
  set (left := coin_sum sel - amount_satoshis p - estimated_fee rate MIN_ABSOLUTE_FEE_SATS 68 (zlen sel)) in *.
  pose proof (estimated_fee_floor rate MIN_ABSOLUTE_FEE_SATS 68 (zlen sel)) as Hfl. assert (MAX_SUPPLY < u64_max) as Hu64 by done.
  match type of SP with signed_payment _ _ (payment_outputs _ ?ad _ _) _ =>
    destruct (payment_outputs_ok a ad (amount_satoshis p) left) as (O1 & O2 & O3 & O4 & O5 & O6);
    [by eapply parse_hash_len, validate_parse|done|unfold left, MAX_MONEY, DUST_SATOSHIS, MIN_ABSOLUTE_FEE_SATS in *; lia..|] end.
  rewrite (incentive_payment_run now wif _ c m p m tx rate Eb eq_refl).
  destruct (signed_payment_checked now c _ _ _ tx Hk SP) as (V1 & V2 & V3 & Hadm); try done;
    [unfold left, MIN_ABSOLUTE_FEE_SATS in *; lia..|].
  assert (DUST_SATOSHIS <= left /\ zsum (map value (outputs tx)) = amount_satoshis p + left) as [Hleft Hsumo].
  { rewrite Eo in H2 |- *. unfold payment_outputs in *. destruct (Z.leb_spec DUST_SATOSHIS left); [|done]. simpl. lia. }
  assert (zlen (inputs tx) = zlen sel) as Hlen by (unfold zlen; by rewrite Hl). rewrite Hlen in Hsig.
  pose proof (payment_size_lower _ _ _ tx SP) as Hsz. rewrite <- Eo, H2 in Hsz.
  specialize (Hsz ltac:(rewrite Forall_forall in *; intros u Hu; apply H32; by eapply elem_of_submseteq) ltac:(by rewrite Eo)).
  pose proof (zlen_nonneg sel).
  rewrite Hadm, <- Eo, Hsumo. rewrite add_refused; try done.
  - unfold left, MIN_RELAY_FEE, MIN_ABSOLUTE_FEE_SATS in *. lia.
  - lia.
  - rewrite <- Erate in *. assert (rate * (112 + 147 * zlen sel) <= rate * serialized_size tx) by (apply Z.mul_le_mono_nonneg_l; lia).
    unfold left, MIN_ABSOLUTE_FEE_SATS, estimated_fee, sat_mul, TX_OVERHEAD, P2PKH_INPUT_SIZE in *.
    assert ((10 + zlen sel * 147 + 68) * rate < rate * (112 + 147 * zlen sel)) by nia. lia.
Qed.

End admission.
