(* ===== verification/PaymentWitness.v ===== *)
(** * Payments: concrete instances

    A key, chains that hold a few of its coins and an empty pool, on which the properties
    of [WalletFacts] and [Payment] are applied. *)

From stdpp Require Import base list gmap sorting strings.
From Stdlib Require Import ZArith Lia.
From S2P Require Import Prelude Script Crypto Engine Standard Merkle Codec Block Address Consensus.
From S2P Require Import Deployments Governance Ledger Supply Chain Mempool Pool Wallet WalletFacts Payment.
Import Scripts Wallet.

Module PaymentWitness.
#[local] Existing Instances bincode_layout bincode_layout_laws any_order any_order_laws.

(** Signatures of the usual length: the key, padded to 70 bytes. *)
#[local] Instance padded : Crypto := {|
  sha256 := toy_digest 32;
  sha1 := toy_digest 20;
  ripemd160 := toy_digest 20;
  der_ok := fun _ => true;
  pubkey_ok := fun _ => true;
  verify_ecdsa := fun _ s p => bytes_eqb (take 33 s) p;
  recovery_id_ok := fun i => (0 <=? i) && (i <=? 3);
  compact_ok := fun _ _ => true;
  recover_ecdsa := fun _ s _ => Some s;
  uncompressed := fun p => 4 :: p;
  bs58_encode := fun b => b;
  bs58_decode := fun b => Some b;
|}.

#[local] Instance padded_laws : CryptoLaws padded.
Proof. constructor; intros; first [apply length_to_le | apply to_le_bytes]. Qed.

#[local] Instance padded_base58 : Base58Laws padded.
Proof. done. Qed.

Definition valid_key (k : bytes) : bool := (zlen k =? 32) && forallb (fun b => (0 <=? b) && (b <? 256)) k.

#[local] Instance signer : Secp := {|
  secret_ok := valid_key;
  public_key := fun k => 2 :: k;
  sign_ecdsa := fun _ k => (if valid_key k then 2 :: k else repeat 2 33) ++ repeat 0 37;
|}.

#[local] Instance signer_laws : SecpLaws padded signer.
Proof.
  assert (forall k, valid_key k = true -> zlen k = 32 /\ is_bytes k) as Hv.
  { intros k [H1%Z.eqb_eq H2%is_bytes_check]%andb_true_iff. done. }
  constructor; try done.
  - intros k Hk. apply Forall_cons. split; [done|by apply Hv].
  - intros k Hk. cbn. rewrite zlen_cons. destruct (Hv k Hk). lia.
  - intros m k. cbn. apply Forall_app. split; [|by apply is_bytes_check].
    destruct (valid_key k) eqn:E; [|by apply is_bytes_check]. apply Forall_cons. split; [done|by apply Hv].
  - intros m k. unfold sign_ecdsa, signer. rewrite zlen_app. change (zlen (repeat 0 37)) with 37.
    destruct (valid_key k) eqn:E; [|done]. destruct (Hv k E) as [Hz _]. rewrite zlen_cons. lia.
  - intros m k Hk. cbn in *. rewrite Hk. destruct (Hv k Hk) as [Hz _].
    rewrite take_app_le by (unfold zlen in Hz; simpl; lia). rewrite take_ge by (unfold zlen in Hz; simpl; lia).
    apply bytes_eqb_refl.
Qed.

#[local] Instance no_legacy : Snapshot := fun _ => 0.

#[local] Instance no_legacy_laws : SnapshotLaws no_legacy.
Proof.
  split; [done|]. intros X. unfold claims_sum. assert (zsum (get_legacy_balance <$> elements X) = 0) as ->; [|done].
  induction (elements X) as [|x l IH]; [done|]. rewrite fmap_cons, zsum_cons, IH. done.
Qed.

Definition key0 : PrivateKey := mkPrivateKey (repeat 5 32) true.
Definition wif0 : bytes := to_wif key0 198.
Definition address0 : bytes := key_address (inner key0).
Definition to0 : Address := mkAddress (repeat 9 20) 70.

(** [n] coins of the key. *)
Definition coin (i : nat) : Utxo :=
  mkUtxo (repeat (Z.of_nat i) 32) 0 100000 (script_for (Core.hash160 (public_key (inner key0)))) 1 1000.
Definition coins (n : nat) : list Utxo := map coin (seq 0 n).
Definition chain_of (n : nat) : Chain :=
  set_ledger (mkLedger (list_to_map (map (fun u => (outpoint u : OutPoint, u)) (coins n))) ∅
    (LEGACY_TOTAL_SUPPLY_SATOSHIS + 10 * 100000) 0 default_params gov_new) (mkTree []) empty_chain.
Definition pool0 : Mempool := pool_new 100.

Lemma pool0_ok : pool_ok pool0.
Proof. by apply pool_new_ok. Qed.

Lemma utxos_of n : forall k u, utxo_set (state (main (chain_of n))) !! k = Some u ->
  u ∈ coins n /\ k = outpoint u.
Proof.
  intros k u Hu. cbn in Hu. apply elem_of_list_to_map_2, list_elem_of_fmap in Hu as (x & [= -> ->] & Hx). done.
Qed.

Lemma chain_inv n : (n = 3 \/ n = 7)%nat -> ledger_inv (state (main (chain_of n))).
Proof.
  intros Hn. split.
  - intros k u [Hu ->]%utxos_of. apply list_elem_of_fmap in Hu as (i & -> & Hi). by split.
  - destruct Hn as [->| ->]; by vm_compute.
  - done.
  - destruct Hn as [->| ->]; by vm_compute.
Qed.

Definition pay (amount : Z) : IncentivePayment := mkPayment (encode to0) amount.

Lemma wif_roundtrip_witness : from_wif (to_wif key0 198) = Ok key0 /\ from_wif (to_wif key0 239) = Err InvalidWif.
Proof.
  split; [apply (wif_roundtrip key0 198)|apply (wif_roundtrip key0 239)]; try done; by apply is_bytes_check.
Defined.

Lemma coin_selection_optimal_witness : exists fee,
  select_coins_with_output_size (coins 7) 250000 1 1000 68 = Ok ([coin 0; coin 1; coin 2], fee) /\
  forall s, s ⊆+ spendable_coins (coins 7) -> pays 250000 1 1000 68 s -> 3 <= zlen s.
Proof.
  assert (coin_sum (spendable_coins (coins 7)) < u64_max) as Hmax by by vm_compute.
  pose proof (coin_selection_optimal (coins 7) 250000 1 1000 68 eq_refl ltac:(done) Hmax) as Hs.
  assert (select_coins_with_output_size (coins 7) 250000 1 1000 68 = Ok ([coin 0; coin 1; coin 2], 1000)) as E by by vm_compute.
  rewrite E in Hs. exists 1000. split; [exact E|]. apply Hs.
Defined.

Definition builder0 : TxBuilder :=
  sign_with_wif wif0 (min_absolute_fee 1000 (recipient_script [0x51] 1000 (recipient (encode to0) 250000 Wallet.new))).
Definition built0 : Transaction :=
  match build builder0 (coins 7) with Ok tx => tx | _ => mkTx 0 Standard [] [] 0 None None end.

Lemma payment_conserves_value_witness : exists selected,
  spends built0 = map outpoint selected /\
  estimated_fee 10 1000 (output_bytes builder0) (zlen selected) <= coin_sum selected - zsum (map value (outputs built0)).
Proof.
  destruct (payment_conserves_value builder0 (coins 7) built0) as (sel & o1 & o2 & ch & _ & H2 & _ & _ & _ & _ & H7);
    [done|done|by vm_compute|by vm_compute|]. exists sel. split; [exact H2|]. apply H7.
Defined.

Lemma payment_admitted_witness : exists tx m',
  build_incentive_payment 9 (Some wif0) (Some address0) (chain_of 3) (chain_of 3) pool0 (pay 150000) pool0 = (m', Ok tx) /\
  is_Some (entries m' !! txid tx).
Proof.
  assert (zlen (spendable_coins (get_utxos_for_address (chain_of 3) (key_address (inner key0)))) = 3) as Hz by by vm_compute.
  destruct (payment_admitted 9 (chain_of 3) pool0 wif0 key0 (pay 150000) to0) as (tx & m' & H1 & H2 & _).
  - apply chain_inv. by left.
  - apply pool0_ok.
  - by vm_compute.
  - by vm_compute.
  - done.
  - by vm_compute; repeat constructor.
  - by vm_compute.
  - intros u _. apply lookup_empty.
  - rewrite Hz. split; [by apply Z.ltb_lt; vm_compute|by apply Z.leb_le; vm_compute].
  - rewrite Hz. intros n Hn. assert (n = 1 \/ n = 2 \/ n = 3) as [->|[->| ->]] by lia; by vm_compute.
  - exists tx, m'. exact (conj H1 H2).
Defined.

(** Seven inputs at the minimum rate. *)
Lemma recommended_rate_refused_witness :
  build_incentive_payment 9 (Some wif0) (Some address0) (chain_of 7) (chain_of 7) pool0 (pay 600000) pool0 =
    (pool0, Err (MempoolRejected (PolicyRejected "Fee rate too low"))).
Proof.
  set (tx := match build_payment (get_utxos_for_address (chain_of 7) address0) (encode to0) address0 600000 1 wif0 with
             | Ok tx => tx | _ => built0 end).
  apply (recommended_rate_refused 9 (chain_of 7) pool0 wif0 key0 (pay 600000) to0 tx).
  - apply chain_inv. by right.
  - apply pool0_ok.
  - done.
  - by vm_compute.
  - by vm_compute.
  - done.
  - by vm_compute; repeat constructor.
  - by vm_compute.
  - by vm_compute.
  - by vm_compute.
  - by apply Z.leb_le; vm_compute.
  - by apply Z.ltb_lt; vm_compute.
Defined.

End PaymentWitness.
