(* ===== verification/Swap.v ===== *)
(** * Atomic swaps

    Models [vtorrent-node/src/atomic_swap.rs]: hash time-locked contracts with the
    transactions that fund, claim and refund them, the swap orders and the order book, and
    the journal of a swap across the two chains.  The clock ([now]) and the random preimage
    are arguments; [SwapOrder::rate], a floating-point quotient, is not modelled. *)

From stdpp Require Import base list gmap strings.
From Stdlib Require Import ZArith Lia.
From S2P Require Import Prelude Script Crypto Engine Standard Codec Block Address Consensus.

Module Swaps.

(** ** Contracts *)

Definition DEFAULT_HTLC_LOCKTIME : Z := 48 * 3600.
Definition MIN_HTLC_LOCKTIME : Z := 3600.
Definition MAX_HTLC_LOCKTIME : Z := 7 * 24 * 3600.
Definition VTR_HTLC_FEE_SATOSHIS : Z := 10000.
Definition BTC_HTLC_FEE_SATOSHIS : Z := 1000.

(** [NodeError::AtomicSwap]. *)
Inductive SwapError : Type := AtomicSwapError (message : string).

Record Htlc : Type := mkHtlc {
  hash_lock : bytes;
  recipient : bytes;
  refund_address : bytes;
  expiry : Z;
  amount : Z;
  funding_txid : option bytes;
}.

Section htlc.
Context {C : Crypto}.

(** [Htlc::new]. *)
Definition htlc_new (now : Z) (hash_lock recipient refund_address : bytes) (locktime_seconds amount : Z)
    : res SwapError Htlc :=
  if locktime_seconds <? MIN_HTLC_LOCKTIME then Err (AtomicSwapError "Locktime is below minimum") else
  if MAX_HTLC_LOCKTIME <? locktime_seconds then Err (AtomicSwapError "Locktime exceeds maximum") else
  if amount =? 0 then Err (AtomicSwapError "HTLC amount cannot be zero") else
  if negb (is_ok (validate_p2pkh recipient)) then Err (AtomicSwapError "Invalid recipient address") else
  if negb (is_ok (validate_p2pkh refund_address)) then Err (AtomicSwapError "Invalid refund address") else
  let* expiry := ok_or (checked_add u32_max now locktime_seconds) (AtomicSwapError "HTLC expiry overflow") in
  Ok (mkHtlc hash_lock recipient refund_address expiry amount None).

(** [Htlc::with_expiry]. *)
Definition with_expiry (hash_lock recipient refund_address : bytes) (expiry amount : Z) : res SwapError Htlc :=
  if amount =? 0 then Err (AtomicSwapError "HTLC amount cannot be zero") else
  if negb (is_ok (validate_p2pkh recipient)) then Err (AtomicSwapError "Invalid recipient address") else
  if negb (is_ok (validate_p2pkh refund_address)) then Err (AtomicSwapError "Invalid refund address") else
  Ok (mkHtlc hash_lock recipient refund_address expiry amount None).

(** [address_to_hash160] and [p2pkh_script]. *)
Definition address_to_hash160 (address : bytes) : option bytes :=
  match Address.parse address with Ok addr => Some (addr_hash addr) | _ => None end.

Definition p2pkh_script (address : bytes) : option bytes :=
  address_to_hash160 address ≫= fun hash => Some (p2pkh_script_pubkey (mkAddress hash PUBKEY_ADDRESS_PREFIX)).

(** [Htlc::build_script]. *)
Definition build_script (h : Htlc) : res SwapError bytes :=
  let* recipient_hash := ok_or (address_to_hash160 (recipient h)) (AtomicSwapError "invalid recipient address") in
  let* refund_hash := ok_or (address_to_hash160 (refund_address h)) (AtomicSwapError "invalid refund address") in
  Ok ([0x63; 0x82; 0x01; 0x20; 0x88; 0xa8] ++ [0x20] ++ hash_lock h ++
      [0x88; 0x76; 0xa9; 0x14] ++ recipient_hash ++ [0x88; 0xac] ++
      [0x67; 0x04] ++ le32 (expiry h) ++ [0xb1; 0x75; 0x76; 0xa9; 0x14] ++ refund_hash ++ [0x88; 0xac] ++ [0x68]).

(** [Htlc::build_funding_tx]. *)
Definition build_funding_tx (h : Htlc) (input_txid : bytes) (input_vout input_value fee : Z) : res SwapError Transaction :=
  let* required := ok_or (checked_add u64_max (amount h) fee) (AtomicSwapError "amount + fee overflow") in
  if input_value <? required then Err (AtomicSwapError "Insufficient input") else
  let* script := build_script h in
  let outputs := [mkTxOutput (amount h) script] in
  let change := input_value - required in
  let* outputs :=
    if 0 <? change then
      let* s := ok_or (p2pkh_script (refund_address h)) (AtomicSwapError "invalid refund address") in
      Ok (vec_push outputs (mkTxOutput change s))
    else Ok outputs in
  Ok (mkTx 1 AtomicSwap [mkTxInput input_txid input_vout [] (u32_max - 1)] outputs 0 (Some (recipient h)) None).

(** [Htlc::build_claim_tx_unsigned]. *)
Definition build_claim_tx_unsigned (h : Htlc) (funding_txid preimage : bytes) (fee : Z) : res SwapError Transaction :=
  if negb (bytes_eqb (sha256 preimage) (hash_lock h)) then Err (AtomicSwapError "Preimage does not match hash lock") else
  let* s := ok_or (p2pkh_script (recipient h)) (AtomicSwapError "invalid recipient address") in
  Ok (mkTx 1 AtomicSwap [mkTxInput funding_txid 0 [] u32_max]
        [mkTxOutput (sat_sub (amount h) fee) s] 0 (Some (recipient h)) None).

(** [tx.inputs[0].script_sig = s]. *)
Definition set_first_sig (s : bytes) (tx : Transaction) : res SwapError Transaction :=
  let* input := vec_get (inputs tx) 0 in
  Ok (mkTx (tx_version tx) (tx_type tx)
        (<[0%nat := mkTxInput (prev_txid input) (prev_vout input) s (sequence input)]> (inputs tx))
        (outputs tx) (lock_time tx) (claim_address tx) (claim_signature tx)).

(** The unlocking scripts of the two branches. *)
Definition claim_script_sig (sig pubkey preimage : bytes) : bytes :=
  [as_u8 (zlen sig)] ++ sig ++ [as_u8 (zlen pubkey)] ++ pubkey ++ [0x20] ++ preimage ++ [0x51].
Definition refund_script_sig (sig pubkey : bytes) : bytes :=
  [as_u8 (zlen sig)] ++ sig ++ [as_u8 (zlen pubkey)] ++ pubkey ++ [0x00].

(** [Htlc::build_claim_tx]. *)
Definition build_claim_tx (h : Htlc) (funding_txid preimage recipient_pubkey recipient_sig : bytes) (fee : Z)
    : res SwapError Transaction :=
  let* tx := build_claim_tx_unsigned h funding_txid preimage fee in
  set_first_sig (claim_script_sig recipient_sig recipient_pubkey preimage) tx.

(** [Htlc::build_refund_tx_unsigned]. *)
Definition build_refund_tx_unsigned (h : Htlc) (funding_txid : bytes) (fee : Z) : res SwapError Transaction :=
  let* s := ok_or (p2pkh_script (refund_address h)) (AtomicSwapError "invalid refund address") in
  Ok (mkTx 1 AtomicSwap [mkTxInput funding_txid 0 [] (u32_max - 1)]
        [mkTxOutput (sat_sub (amount h) fee) s] (expiry h) (Some (refund_address h)) None).

(** [Htlc::build_refund_tx]. *)
Definition build_refund_tx (now : Z) (h : Htlc) (funding_txid refund_pubkey refund_sig : bytes) (fee : Z)
    : res SwapError Transaction :=
  if now <? expiry h then Err (AtomicSwapError "HTLC has not expired yet") else
  let* tx := build_refund_tx_unsigned h funding_txid fee in
  set_first_sig (refund_script_sig refund_sig refund_pubkey) tx.

Definition htlc_expired (now : Z) (h : Htlc) : bool := expiry h <=? now.
Definition seconds_until_expiry (now : Z) (h : Htlc) : Z := sat_sub (expiry h) now.

(** ** Orders *)

Inductive OrderStatus : Type := Open | Funding | Matched | InProgress | Completed | Cancelled.

#[export] Instance OrderStatus_eq_dec : EqDecision OrderStatus.
Proof. solve_decision. Defined.

Record SwapOrder : Type := mkOrder {
  order_id : bytes;
  maker_address : bytes;
  maker_btc_address : option bytes;
  vtr_amount : Z;
  target_asset : bytes;
  target_amount : Z;
  order_hash_lock : option bytes;
  order_funding_txid : option bytes;
  taker_address : option bytes;
  order_preimage : option bytes;
  order_expiry : Z;
  created_at : Z;
  order_status : OrderStatus;
}.

Definition set_status (s : OrderStatus) (o : SwapOrder) : SwapOrder :=
  mkOrder (order_id o) (maker_address o) (maker_btc_address o) (vtr_amount o) (target_asset o) (target_amount o)
    (order_hash_lock o) (order_funding_txid o) (taker_address o) (order_preimage o) (order_expiry o) (created_at o) s.

(** The public view of an order. *)
Record OrderAnnouncement : Type := mkAnnouncement {
  an_order_id : bytes;
  an_maker_address : bytes;
  an_maker_btc_address : option bytes;
  an_vtr_amount : Z;
  an_target_asset : bytes;
  an_target_amount : Z;
  an_hash_lock : option bytes;
  an_expiry : Z;
}.

Definition from_order (o : SwapOrder) : OrderAnnouncement :=
  mkAnnouncement (order_id o) (maker_address o) (maker_btc_address o) (vtr_amount o) (target_asset o)
    (target_amount o) (order_hash_lock o) (order_expiry o).

Definition to_order (now : Z) (a : OrderAnnouncement) : SwapOrder :=
  mkOrder (an_order_id a) (an_maker_address a) (an_maker_btc_address a) (an_vtr_amount a) (an_target_asset a)
    (an_target_amount a) (an_hash_lock a) None None None (an_expiry a) now Open.

(** [SwapOrder::new]. *)
Definition order_new (now : Z) (maker_address : bytes) (vtr_amount : Z) (target_asset : bytes)
    (target_amount locktime_seconds : Z) : SwapOrder :=
  let data := maker_address ++ le64 vtr_amount ++ target_asset ++ le64 target_amount ++ le32 now in
  mkOrder (sha256 data) maker_address None vtr_amount target_asset target_amount None None None None
    (sat_add u32_max now locktime_seconds) now Open.

(** ** The order book *)

Definition MAX_ORDERS : Z := 10000.

(** The first element that satisfies [p], changed by [f]. *)
Fixpoint update_first {A} (p : A -> bool) (f : A -> A) (l : list A) : option (list A) :=
  match l with
  | [] => None
  | x :: l => if p x then Some (f x :: l) else (fun l' => x :: l') <$> update_first p f l
  end.

Definition has_status (s : OrderStatus) (o : SwapOrder) : bool := bool_decide (order_status o = s).

(** [SwapOrderBook::evict]. *)
Definition evict (now : Z) (orders : list SwapOrder) : list SwapOrder :=
  let orders := List.filter (fun o => negb (has_status Cancelled o) && ((now <? order_expiry o) || negb (has_status Open o))) orders in
  if zlen orders <? MAX_ORDERS then orders else
  let target := MAX_ORDERS * 3 / 4 in
  let excess := sat_sub (zlen orders) target in
  if excess =? 0 then orders else
  let open := List.filter (fun e => has_status Open e.2) (imap pair orders) in
  let sorted := sort_by_key (fun e => order_expiry e.2) open in
  let remove := map fst (take (Z.to_nat excess) sorted) in
  map snd (List.filter (fun e => negb (bool_decide (e.1 ∈ remove))) (imap pair orders)).

(** [SwapOrderBook::add_order]. *)
Definition add_order (now : Z) (order : SwapOrder) (orders : list SwapOrder) : list SwapOrder :=
  let orders := if MAX_ORDERS <=? zlen orders then evict now orders else orders in
  vec_push orders order.

Definition list_open_orders (orders : list SwapOrder) : list SwapOrder := List.filter (has_status Open) orders.

(** [restore_order] and [replace_order]. *)
Definition same_id (order : SwapOrder) (o : SwapOrder) : bool := bytes_eqb (order_id o) (order_id order).

Definition restore_order (now : Z) (order : SwapOrder) (orders : list SwapOrder) : list SwapOrder :=
  let unclaimed o := bool_decide (order_preimage o = None) && bool_decide (order_funding_txid o = None) in
  match update_first (same_id order) (fun o => if unclaimed o then order else o) orders with
  | Some orders => orders
  | None => add_order now order orders
  end.

Definition replace_order (now : Z) (order : SwapOrder) (orders : list SwapOrder) : list SwapOrder :=
  match update_first (same_id order) (fun _ => order) orders with
  | Some orders => orders
  | None => add_order now order orders
  end.

(** [expire_orders]: the orders and the number expired. *)
Definition expire_orders (now : Z) (orders : list SwapOrder) : list SwapOrder * Z :=
  let due o := has_status Open o && (order_expiry o <=? now) in
  (map (fun o => if due o then set_status Cancelled o else o) orders, zlen (List.filter due orders)).

Record MatchResult : Type := mkMatch {
  match_order_of : SwapOrder;
  match_preimage : bytes;
  match_hash_lock : bytes;
  match_taker : bytes;
}.

Context {H : Hex}.

Definition is_order (id : bytes) (o : SwapOrder) : bool := bytes_eqb (hex_encode (order_id o)) id.

(** The operations that look an order up and return whether it was there. *)
Definition found (r : option (list SwapOrder)) (orders : list SwapOrder) : list SwapOrder * bool :=
  match r with Some orders' => (orders', true) | None => (orders, false) end.

Definition cancel_order (id : bytes) (orders : list SwapOrder) : list SwapOrder * bool :=
  found (update_first (fun o => is_order id o && has_status Open o) (set_status Cancelled) orders) orders.

Definition get_order (id : bytes) (orders : list SwapOrder) : option SwapOrder := List.find (is_order id) orders.

Definition update_order_status (id : bytes) (s : OrderStatus) (orders : list SwapOrder) : list SwapOrder * bool :=
  found (update_first (is_order id) (set_status s) orders) orders.

Definition set_hash_lock (id h : bytes) (orders : list SwapOrder) : list SwapOrder * bool :=
  found (update_first (is_order id) (fun o =>
    mkOrder (order_id o) (maker_address o) (maker_btc_address o) (vtr_amount o) (target_asset o) (target_amount o)
      (Some h) (order_funding_txid o) (taker_address o) (order_preimage o) (order_expiry o) (created_at o)
      (order_status o)) orders) orders.

Definition set_maker_btc_address (id btc_address : bytes) (orders : list SwapOrder) : list SwapOrder * bool :=
  found (update_first (is_order id) (fun o =>
    mkOrder (order_id o) (maker_address o) (Some btc_address) (vtr_amount o) (target_asset o) (target_amount o)
      (order_hash_lock o) (order_funding_txid o) (taker_address o) (order_preimage o) (order_expiry o) (created_at o)
      (order_status o)) orders) orders.

(** [begin_funding]: the reserved order. *)
Definition begin_funding (id : bytes) (orders : list SwapOrder) : list SwapOrder * option SwapOrder :=
  let p o := is_order id o && has_status Open o in
  match update_first p (set_status Funding) orders with
  | Some orders' => (orders', set_status Funding <$> List.find p orders)
  | None => (orders, None)
  end.

(** [release_funding]. *)
Definition release_funding (id : bytes) (orders : list SwapOrder) : list SwapOrder * bool :=
  match List.find (is_order id) orders with
  | None => (orders, false)
  | Some o =>
      if negb (has_status Funding o) then (orders, false)
      else found (update_first (is_order id) (set_status Open) orders) orders
  end.

(** [fund_and_match_order]. *)
Definition fund_and_match_order (now : Z) (id taker_address preimage hash_lock funding_txid : bytes)
    (orders : list SwapOrder) : list SwapOrder * option MatchResult :=
  let p o := is_order id o && has_status Funding o in
  match List.find p orders with
  | None => (orders, None)
  | Some o =>
      if order_expiry o <=? now
      then ((found (update_first p (set_status Cancelled) orders) orders).1, None)
      else
        let matched := mkOrder (order_id o) (maker_address o) (maker_btc_address o) (vtr_amount o) (target_asset o)
          (target_amount o) (Some hash_lock) (Some funding_txid) (Some taker_address) (Some preimage) (order_expiry o)
          (created_at o) Matched in
        ((found (update_first p (fun _ => matched) orders) orders).1,
         Some (mkMatch matched preimage hash_lock taker_address))
  end.

(** [match_order]; the preimage is [AtomicSwap::new]'s random one. *)
Definition match_order (now : Z) (random_preimage id taker_address : bytes) (orders : list SwapOrder)
    : list SwapOrder * option MatchResult :=
  let '(orders, r) := begin_funding id orders in
  match r with
  | None => (orders, None)
  | Some _ => fund_and_match_order now id taker_address random_preimage (sha256 random_preimage) (repeat 0 32) orders
  end.

Definition orders_by_maker (maker : bytes) (orders : list SwapOrder) : list SwapOrder :=
  List.filter (fun o => bytes_eqb (maker_address o) maker) orders.

Definition open_order_count (orders : list SwapOrder) : Z := zlen (List.filter (has_status Open) orders).

End htlc.

(** ** The journal of a swap *)

Inductive SwapStatus : Type := SFunding | VtrFunded | BtcFunding | BtcFunded | Settling | Claimed | Refunded.

#[export] Instance SwapStatus_eq_dec : EqDecision SwapStatus.
Proof. solve_decision. Defined.

Record VtrRefundReplacement : Type := mkRefundReplacement {
  rr_replaces_txid : bytes;
  rr_total_fee_satoshis : Z;
  rr_approved_at : Z;
  rr_transaction : Transaction;
}.

Record BtcClaimReplacement : Type := mkClaimReplacement {
  cr_replaces_txid : bytes;
  cr_total_fee_satoshis : Z;
  cr_approved_at : Z;
  cr_raw : bytes;
}.

Record SwapConfirmation : Type := mkConfirmation {
  sc_txid : bytes;
  sc_block_hash : bytes;
  sc_height : Z;
  sc_confirmations : Z;
}.

Inductive VtrSettlementState : Type :=
  | NotFunded | FundingMissing | FundingPrepared | FundingPending | FundingConfirming | VFunded | InvalidFunding
  | ClaimPrepared | ClaimPending | ClaimConfirming | VClaimed
  | RefundPrepared | RefundPending | RefundConfirming | VRefunded
  | CompetingSpendPending | SpentElsewhere | SpendUnknown.

Inductive BtcSettlementState : Type :=
  | BFundingNotObserved | BInvalidFunding | BFundingImmature | BFundingConfirming | BFunded
  | BClaimConfirming | BClaimed | BRefundConfirming | BRefunded | BSpentElsewhere.

Record VtrSwapObservation : Type := mkObservation {
  vo_tip_hash : bytes;
  vo_tip_height : Z;
  vo_state : VtrSettlementState;
  vo_funding : option SwapConfirmation;
  vo_spend : option SwapConfirmation;
  vo_pending_spend_txid : option bytes;
  vo_reorg_count : Z;
}.

Record BtcSwapObservation : Type := mkBtcObservation {
  bo_network : bytes;
  bo_observed_at : Z;
  bo_tip_hash : bytes;
  bo_tip_height : Z;
  bo_scan_start : Z;
  bo_state : BtcSettlementState;
  bo_funding : option SwapConfirmation;
  bo_spend : option SwapConfirmation;
  bo_reorg_count : Z;
}.

Record SwapState : Type := mkSwapState {
  ss_order_id : bytes;
  ss_hash_lock : bytes;
  ss_preimage : option bytes;
  vtr_funding_txid : option bytes;
  btc_funding_txid : option bytes;
  ss_maker_btc_address : option bytes;
  taker_btc_refund_address : option bytes;
  btc_amount : Z;
  btc_expiry : Z;
  vtr_claim_txid : option bytes;
  btc_claim_txid : option bytes;
  vtr_refund_txid : option bytes;
  btc_refund_txid : option bytes;
  btc_refund_raw : option bytes;
  btc_funding_raw : option bytes;
  btc_claim_raw : option bytes;
  btc_claim_replacements : list BtcClaimReplacement;
  vtr_funding_tx : option Transaction;
  vtr_claim_tx : option Transaction;
  vtr_refund_tx : option Transaction;
  vtr_observation : option VtrSwapObservation;
  btc_observation : option BtcSwapObservation;
  vtr_refund_replacements : list VtrRefundReplacement;
  ss_status : SwapStatus;
}.

(** [SwapState::new]. *)
Definition swap_new (order_id hash_lock : bytes) : SwapState :=
  mkSwapState order_id hash_lock None None None None None 0 0 None None None None None None None [] None None None
    None None [] SFunding.

Definition is_some {A} (o : option A) : bool := match o with Some _ => true | None => false end.

(** The status [refresh_status] computes. *)
Definition settled_status (s : SwapState) : SwapStatus :=
  if is_some (vtr_claim_txid s) && is_some (btc_claim_txid s) then Claimed
  else if (is_some (vtr_refund_txid s) || negb (is_some (vtr_funding_txid s)))
       && (is_some (btc_refund_txid s) || negb (is_some (btc_funding_txid s)))
       && (is_some (vtr_refund_txid s) || is_some (btc_refund_txid s)) then Refunded
  else if is_some (vtr_claim_txid s) || is_some (btc_claim_txid s) || is_some (vtr_refund_txid s)
       || is_some (btc_refund_txid s) then Settling
  else if is_some (btc_funding_txid s) then BtcFunded
  else if is_some (vtr_funding_txid s) then VtrFunded
  else SFunding.

(** [SwapState::refresh_status]. *)
Definition refresh_status (s : SwapState) : SwapState :=
  mkSwapState (ss_order_id s) (ss_hash_lock s) (ss_preimage s) (vtr_funding_txid s) (btc_funding_txid s)
    (ss_maker_btc_address s) (taker_btc_refund_address s) (btc_amount s) (btc_expiry s) (vtr_claim_txid s)
    (btc_claim_txid s) (vtr_refund_txid s) (btc_refund_txid s) (btc_refund_raw s) (btc_funding_raw s)
    (btc_claim_raw s) (btc_claim_replacements s) (vtr_funding_tx s) (vtr_claim_tx s) (vtr_refund_tx s)
    (vtr_observation s) (btc_observation s) (vtr_refund_replacements s) (settled_status s).

Definition latest_vtr_refund (s : SwapState) : option Transaction :=
  match vec_last (vtr_refund_replacements s) with
  | Some r => Some (rr_transaction r)
  | None => vtr_refund_tx s
  end.

Definition is_vtr_refund `{Crypto, Bincode} (id : bytes) (s : SwapState) : bool :=
  bool_decide (vtr_refund_txid s = Some id) ||
  existsb (fun r => bytes_eqb (txid (rr_transaction r)) id) (vtr_refund_replacements s).

Definition latest_btc_claim (s : SwapState) : option BtcClaimReplacement := vec_last (btc_claim_replacements s).

End Swaps.
