(* ===== verification/SwapFacts.v ===== *)
(** * Atomic swaps: properties

    Who can spend a swap's contract, that the claim and refund transactions the node
    builds are accepted by the chain exactly when they should be, and what funding a contract
    costs. *)

From stdpp Require Import base list gmap strings.
From Stdlib Require Import ZArith Lia.
From S2P Require Import Prelude Script Crypto Engine Standard Codec Block Address Consensus.
From S2P Require Import Deployments Governance Ledger Chain Mempool Pool Wallet WalletFacts Payment Swap.
Import Scripts Swaps.

(** ** The script *)

Section script.
Context {C : Crypto}.

Definition swap_claim (ph h : bytes) : list ScriptItem := [Opcode 0x82; PushData [0x20]; Opcode 0x88] ++ htlc_claim ph h.

(** The claim branch: the top element has 32 bytes and the hash [ph]. *)
Definition spend_swap (ph h : bytes) (e : Engine) : res ScriptError Engine :=
  let* x := Engine.last e in
  if negb (zlen x =? 32) then Err VerifyFailed else spend_claim ph h e.

Lemma le_digits_cons k n : 0 < n -> le_digits (S k) n = n mod 256 :: le_digits k (n / 256).
Proof.
  intros Hn. cbn [le_digits]. rewrite (proj2 (Z.ltb_lt 0 n)) by lia.
  change 0xff with (Z.ones 8). by rewrite Z.land_ones, Z.shiftr_div_pow2 by lia.
Qed.

Lemma size_32 n : 0 <= n -> bytes_eqb (int_to_bytes n) [0x20] = (n =? 32).
Proof.
  intros Hn. destruct (Z.eqb_spec n 32) as [->|Hne]; [done|]. apply bytes_eqb_neq. intros E.
  unfold int_to_bytes in E. destruct (Z.eqb_spec n 0); [done|]. rewrite Z.abs_eq in E by lia.
  rewrite (proj2 (Z.ltb_ge n 0)) in E by lia.
  assert (le_digits 8 n = [0x20]) as Hd.
  { remember (le_digits 8 n) as d eqn:Ed. destruct (vec_pop d) as [[l f]|] eqn:Ep; [|done].
    destruct (negb _); [|done]. apply vec_pop_Some in Ep. rewrite Ep in E. unfold vec_push in E.
    apply (f_equal length) in E. rewrite !length_app in E. simpl in E. lia. }
  rewrite le_digits_cons in Hd by lia. pose proof (Z.div_mod n 256). pose proof (Z.div_pos n 256).
  destruct (decide (0 < n / 256)) as [Hq|]; [rewrite le_digits_cons in Hd by done; done|].
  assert (n mod 256 = 32) by (apply (f_equal head) in Hd; cbn [head] in Hd; congruence). lia.
Qed.

Lemma acts_swap_claim ph h : acts (swap_claim ph h) (spend_swap ph h).
Proof.
  intros e ifs n rest Hn Hs. change (zlen (swap_claim ph h)) with 11 in *. unfold swap_claim, spend_swap.
  remember (htlc_claim ph h) as tl eqn:Etl. cbn [app rfold]. rewrite run_item_op by (done || lia).
  change (exec_op 0x82 e) with (let* top := Engine.last e in Ok (push e (int_to_bytes (zlen top)))).
  destruct (Engine.last e) as [x| |] eqn:E1; simpl; [|done..].
  rewrite run_item_push by (simpl; rewrite ?zlen_push; lia). simpl. rewrite run_item_op by (done || lia).
  change (exec_op 0x88 ?w) with
    (let* (b, e) := pop w in let* (a, e) := pop e in if negb (bytes_eqb a b) then Err VerifyFailed else Ok e).
  rewrite (pop_snoc _ (vec_push (stack e) (int_to_bytes (zlen x))) [0x20]) by done. simpl.
  rewrite (pop_snoc _ (stack e) (int_to_bytes (zlen x))) by done. simpl.
  replace (set_stack _ (stack e)) with e by by destruct e.
  rewrite size_32 by apply zlen_nonneg. destruct (zlen x =? 32); simpl; [|done].
  rewrite Etl, acts_htlc_claim by (change (zlen (htlc_claim ph h)) with 8; lia).
  change (zlen (htlc_claim ph h)) with 8. by replace (n + 1 + 1 + 1 + 8) with (n + 11) by lia.
Qed.

Lemma spend_swap_true ph h e e' :
  spend_swap ph h e = Ok e' /\ top_true e' = true <->
  exists x e1 st, pop e = Ok (x, e1) /\ zlen x = 32 /\ sha256 x = ph /\ unlocks h e1 st /\ e' = set_stack e1 (st ++ [[1]]).
Proof.
  unfold spend_swap. split.
  - intros [H Ht]. destruct (Engine.last e) as [x| |] eqn:E; simpl in H; try done.
    destruct (Z.eqb_spec (zlen x) 32) as [Hx|]; simpl in H; [|done].
    assert (spend_claim ph h e = Ok e' /\ top_true e' = true) as Hc by done.
    apply spend_claim_true in Hc as (x' & e1 & st & Hp & H1 & H2 & H3). exists x', e1, st. split_and!; try done.
    apply pop_inv in Hp as [Hp _]. unfold Engine.last in E. rewrite Hp in E.
    change (stack e1 ++ [x']) with (vec_push (stack e1) x') in E. rewrite vec_last_push in E. by injection E as ->.
  - intros (x & e1 & st & Hp & Hx & Hrest). assert (Engine.last e = Ok x) as ->.
    { apply pop_inv in Hp as [Hp _]. unfold Engine.last. rewrite Hp.
      change (stack e1 ++ [x]) with (vec_push (stack e1) x). by rewrite vec_last_push. }
    simpl. rewrite Hx. simpl. apply spend_claim_true. exists x, e1, st. tauto.
Qed.

Lemma wf_swap_claim ph h :
  is_bytes ph -> zlen ph = 32 -> is_bytes h -> zlen h = 20 -> Forall wf_item (swap_claim ph h).
Proof.
  intros. apply Forall_app. split; [|by apply wf_htlc_claim].
  repeat (apply Forall_cons; split); try constructor; unfold plain_byte, is_byte, MAX_PUSH_SIZE; try done; try lia.
  by repeat constructor.
Qed.

(** The script [build_script] writes. *)
Lemma build_script_bytes h h1 h2 : address_to_hash160 (recipient h) = Some h1 ->
  address_to_hash160 (refund_address h) = Some h2 -> zlen (hash_lock h) = 32 -> zlen h1 = 20 -> zlen h2 = 20 ->
  build_script h = Ok (bytes_of (timeout_items (swap_claim (hash_lock h) h1) (expiry h) h2)).
Proof.
  intros E1 E2 Hh Hz1 Hz2. unfold build_script. rewrite E1, E2. cbn [ok_or rbind]. f_equal.
  unfold bytes_of, timeout_items, swap_claim, htlc_claim, pkh_tail. cbn [app map concat item_bytes].
  rewrite !push_bytes_short by (unfold le32; rewrite ?zlen_to_le; (done || lia)). unfold le32 at 2. rewrite zlen_to_le.
  rewrite Hh, Hz1, Hz2. cbn [app]. rewrite <- ?app_assoc. done.
Qed.

End script.

(** ** Spending *)

Section spend.
Context {C : Crypto} {L : CryptoLaws C}.

Lemma swap_script_spend v sg ph h1 h2 t : is_bytes sg -> is_bytes ph -> zlen ph = 32 -> is_bytes h1 -> zlen h1 = 20 ->
  is_bytes h2 -> zlen h2 = 20 -> 0 <= t < 2 ^ 31 ->
  is_ok (execute (Engine.new v) sg (bytes_of (timeout_items (swap_claim ph h1) t h2))) = true <->
  exists e c e1, run (Engine.new v) sg = Ok e /\ pop e = Ok (c, e1) /\
    if is_true c
    then exists preimage e2 st, pop e1 = Ok (preimage, e2) /\ zlen preimage = 32 /\ sha256 preimage = ph /\ unlocks h1 e2 st
    else locktime_passed v t /\ exists st, unlocks h2 e1 st.
Proof.
  intros Hs Hph Hzp H1 Hz1 H2 Hz2 Ht.
  rewrite (timeout_spend v sg (swap_claim ph h1) (spend_swap ph h1) t h2);
    [|apply acts_swap_claim|done|done| |done..|lia|done].
  2: by apply wf_swap_claim.
  rewrite (proj2 (Z.eqb_neq _ _)) by lia.
  split; intros (e & c & e1 & He & Hp & H); exists e, c, e1; (split; [done|]); (split; [done|]); destruct (is_true c).
  - destruct H as (e' & H). apply spend_swap_true in H as (x & e2 & st & ? & ? & ? & ? & _). by exists x, e2, st.
  - by destruct H as [[_ ?] ?].
  - destruct H as (x & e2 & st & ? & ? & ? & ?). exists (set_stack e2 (st ++ [[1]])). apply spend_swap_true. by exists x, e2, st.
  - destruct H. split; [split; [lia|done]|done].
Qed.

(** *** Property *)

(** who can spend a swap.  The output of the script a contract writes, with an expiry
    below [2 ^ 31], is spent in one of two ways and no other: by a key of the recipient
    together with a preimage of the hash lock that has exactly 32 bytes, at any time; or
    by a key of the refund address, once the lock time of the transaction and the chain
    have passed the expiry. *)
Theorem swap_contract_spend (v : ScriptEnv) (sg s : bytes) (h : Htlc) (a b : Address) :
  is_bytes sg -> is_bytes (hash_lock h) -> zlen (hash_lock h) = 32 -> 0 <= expiry h < 2 ^ 31 ->
  Address.parse (recipient h) = Ok a -> is_bytes (addr_hash a) ->
  Address.parse (refund_address h) = Ok b -> is_bytes (addr_hash b) ->
  build_script h = Ok s ->
  is_ok (execute (Engine.new v) sg s) = true <->
  exists e c e1, run (Engine.new v) sg = Ok e /\ pop e = Ok (c, e1) /\
    if is_true c
    then exists preimage e2 st, pop e1 = Ok (preimage, e2) /\ zlen preimage = 32 /\
           sha256 preimage = hash_lock h /\ unlocks (addr_hash a) e2 st
    else locktime_passed v (expiry h) /\ exists st, unlocks (addr_hash b) e1 st.
Proof.
  intros Hs Hl Hz Ht Ha Hab Hb Hbb E.
  pose proof (parse_hash_len _ _ Ha) as Hza. pose proof (parse_hash_len _ _ Hb) as Hzb.
  rewrite (build_script_bytes h (addr_hash a) (addr_hash b)) in E; try done;
    [|unfold address_to_hash160; by rewrite Ha|unfold address_to_hash160; by rewrite Hb].
  injection E as <-. by apply swap_script_spend.
Qed.

End spend.

(** ** Settling a swap *)

Section settle.
Context {C : Crypto} {CL : CryptoLaws C} {B58 : Base58Laws C} {S : Secp} {SL : SecpLaws C S}.
Context {B : Bincode} {H : Hex} {N : Snapshot}.

(** The scripts of the two branches run. *)
Lemma run_claim_sig v k msg preimage : secret_ok k = true -> is_bytes preimage -> zlen preimage = 32 ->
  run (Engine.new v) (claim_script_sig (signature k msg) (public_key k) preimage) =
    Ok (set_stack (Engine.new v) [signature k msg; public_key k; preimage; [1]]).
Proof.
  intros Hk Hb Hz. pose proof (signature_len k msg). pose proof (public_key_len k Hk) as Hpk.
  assert (claim_script_sig (signature k msg) (public_key k) preimage =
    bytes_of [PushData (signature k msg); PushData (public_key k); PushData preimage; Opcode 0x51]) as ->.
  { unfold claim_script_sig, bytes_of, as_u8. rewrite !Z.mod_small by lia. cbn [map concat item_bytes].
    rewrite !push_bytes_short, Hpk, Hz by lia. cbn [app]. rewrite <- ?app_assoc. cbn [app]. rewrite <- ?app_assoc. done. }
  assert (is_bytes (signature k msg)).
  { unfold signature, vec_push. apply Forall_app. split; [apply sign_bytes|by apply Forall_singleton]. }
  pose proof (public_key_bytes k Hk). rewrite run_bytes_of.
  2:{ repeat (apply Forall_cons; split); try constructor; unfold MAX_PUSH_SIZE, plain_byte, is_byte; try done; lia. }
  cbn [rfold]. rewrite run_item_push by done. cbn [rbind]. rewrite run_item_push by done. cbn [rbind].
  rewrite run_item_push by done. cbn [rbind]. rewrite run_item_op by done. done.
Qed.

Lemma run_refund_sig v k msg : secret_ok k = true ->
  run (Engine.new v) (refund_script_sig (signature k msg) (public_key k)) =
    Ok (set_stack (Engine.new v) [signature k msg; public_key k; []]).
Proof.
  intros Hk. pose proof (signature_len k msg). pose proof (public_key_len k Hk) as Hpk.
  assert (refund_script_sig (signature k msg) (public_key k) =
    bytes_of [PushData (signature k msg); PushData (public_key k); PushData []]) as ->.
  { unfold refund_script_sig, bytes_of, as_u8. rewrite !Z.mod_small by lia. cbn [map concat item_bytes].
    rewrite !push_bytes_short, Hpk by lia. cbn [app]. rewrite <- ?app_assoc. done. }
  assert (is_bytes (signature k msg)).
  { unfold signature, vec_push. apply Forall_app. split; [apply sign_bytes|by apply Forall_singleton]. }
  pose proof (public_key_bytes k Hk). rewrite run_bytes_of.
  2:{ apply Forall_cons; split; [split; [done|unfold MAX_PUSH_SIZE; lia]|].
      apply Forall_cons; split; [split; [done|unfold MAX_PUSH_SIZE; lia]|]. apply Forall_singleton. by split; [constructor|]. }
  cbn [rfold]. rewrite run_item_push by done. cbn [rbind]. rewrite run_item_push by done. cbn [rbind].
  by rewrite run_item_push by done.
Qed.

Lemma claim_sig_bytes k msg preimage : secret_ok k = true -> is_bytes preimage -> zlen preimage = 32 ->
  is_bytes (claim_script_sig (signature k msg) (public_key k) preimage) /\
  zlen (claim_script_sig (signature k msg) (public_key k) preimage) <= MAX_SCRIPT_SIZE.
Proof.
  intros Hk Hb Hz. pose proof (signature_len k msg). pose proof (public_key_len k Hk) as Hpk. pose proof (public_key_bytes k Hk).
  unfold claim_script_sig, as_u8. rewrite !Z.mod_small by lia. split.
  - repeat (apply Forall_app; split); try done; try (by apply sign_bytes); apply Forall_singleton; unfold is_byte; lia.
  - rewrite !zlen_app, Hpk, Hz, !zlen_cons. change (zlen []) with 0. unfold MAX_SCRIPT_SIZE. lia.
Qed.

Lemma refund_sig_bytes k msg : secret_ok k = true ->
  is_bytes (refund_script_sig (signature k msg) (public_key k)) /\
  zlen (refund_script_sig (signature k msg) (public_key k)) <= MAX_SCRIPT_SIZE.
Proof.
  intros Hk. pose proof (signature_len k msg). pose proof (public_key_len k Hk) as Hpk. pose proof (public_key_bytes k Hk).
  unfold refund_script_sig, as_u8. rewrite !Z.mod_small by lia. split.
  - repeat (apply Forall_app; split); try done; try (by apply sign_bytes); apply Forall_singleton; unfold is_byte; lia.
  - rewrite !zlen_app, Hpk, !zlen_cons. change (zlen []) with 0. unfold MAX_SCRIPT_SIZE. lia.
Qed.

(** A signature over the hash in the environment unlocks the key's hash. *)
Lemma signed_unlocks e st k : secret_ok k = true -> stack e = st ++ [signature k (tx_hash (env e)); public_key k] ->
  unlocks (Core.hash160 (public_key k)) e st.
Proof.
  intros Hk Hst. eexists _, _. split; [exact Hst|]. split; [done|]. by apply check_signature.
Qed.

Definition input_env (tx : Transaction) (i : TxInput) (u : Utxo) (height time : Z) : ScriptEnv :=
  mkEnv (sighash tx 0 (utxo_script u)) height time (lock_time tx) (sequence i) (utxo_height u) (utxo_timestamp u).

(** The chain's check of a swap transaction is the engine's verdict on its one input. *)
Lemma single_input_verify c tx i u height time : inputs tx = [i] -> tx_type tx = AtomicSwap ->
  utxo_set (state (main c)) !! ((prev_txid i, prev_vout i) : OutPoint) = Some u ->
  zlen (script_sig i) <= MAX_SCRIPT_SIZE -> zlen (utxo_script u) <= MAX_SCRIPT_SIZE ->
  is_ok (verify_tx_scripts c tx height time) =
  is_ok (execute (Engine.new (input_env tx i u height time)) (script_sig i) (utxo_script u)).
Proof.
  intros Hi Ht Hu H1 H2. unfold verify_tx_scripts, is_legacy_claim, is_coinbase, is_coinstake. rewrite Ht, Hi. cbn [bool_decide orb].
  change (imap pair [i]) with [(0%nat, i)]. unfold bool_decide. simpl. unfold verify_script. rewrite Hu. cbn [ok_or rbind].
  rewrite !from_bytes_small by done. cbn [map_err rbind]. unfold input_env. by destruct (execute _ _ _).
Qed.

Lemma key_hash k : address_to_hash160 (key_address k) = Some (Core.hash160 (public_key k)).
Proof. unfold address_to_hash160. by rewrite key_address_parse. Qed.

Lemma key_script k : p2pkh_script (key_address k) = Some (Wallet.script_for (Core.hash160 (public_key k))).
Proof. unfold p2pkh_script. by rewrite key_hash. Qed.

Lemma sign_over tx s wif key : from_wif wif = Ok key ->
  Wallet.sign_input_over_subscript tx 0 s wif = Ok (signature (inner key) (sighash tx 0 s), public_key (inner key)).
Proof.
  intros Hw. pose proof (from_wif_secret _ _ Hw) as Hk. unfold Wallet.sign_input_over_subscript, Wallet.key_pair. rewrite Hw.
  cbn [map_err rbind]. rewrite Hk. cbn [ensure rbind]. unfold Wallet.sign_input. rewrite Hk. done.
Qed.

(** A contract between the taker's key and the hash of the maker's. *)
Record between (h : Htlc) (taker maker_hash s : bytes) : Prop := {
  bw_recipient : recipient h = key_address taker;
  bw_refund : address_to_hash160 (refund_address h) = Some maker_hash;
  bw_hash : is_bytes maker_hash /\ zlen maker_hash = 20;
  bw_lock : is_bytes (hash_lock h) /\ zlen (hash_lock h) = 32;
  bw_script : build_script h = Ok s;
}.

Lemma between_keys h taker maker s : recipient h = key_address taker -> refund_address h = key_address maker ->
  is_bytes (hash_lock h) -> zlen (hash_lock h) = 32 -> build_script h = Ok s ->
  between h taker (Core.hash160 (public_key maker)) s.
Proof.
  intros H1 H2 H3 H4 H5. split; try done; [by rewrite H2, key_hash|]. split; [apply Core.hash160_bytes|apply hash160_zlen].
Qed.

Lemma between_script h taker mh s : between h taker mh s ->
  s = bytes_of (timeout_items (swap_claim (hash_lock h) (Core.hash160 (public_key taker))) (expiry h) mh) /\
  zlen s <= MAX_SCRIPT_SIZE.
Proof.
  intros [H1 H2 [H6 Hz2] [H3 H4] H5]. pose proof (hash160_zlen (public_key taker)) as Hz1.
  rewrite (build_script_bytes h (Core.hash160 (public_key taker)) mh) in H5; [|by rewrite H1, key_hash|done..]. injection H5 as <-. split; [done|].
  rewrite zlen_timeout_bytes by done. unfold bytes_of, swap_claim, htlc_claim, pkh_tail. cbn [app map concat item_bytes].
  rewrite !push_bytes_short by (done || lia). autorewrite with zlen. rewrite H4, Hz1. change (zlen [32]) with 1. unfold MAX_SCRIPT_SIZE. lia.
Qed.

(** The signed claim and the signed refund, and what the engine says to them. *)
Definition claim_tx (h : Htlc) (fid preimage : bytes) (fee : Z) (taker sg : bytes) : Transaction :=
  mkTx 1 AtomicSwap [mkTxInput fid 0 sg u32_max]
    [mkTxOutput (sat_sub (amount h) fee) (Wallet.script_for (Core.hash160 (public_key taker)))] 0 (Some (recipient h)) None.

Lemma claim_built h taker mh s wif key fid preimage fee : between h taker mh s -> from_wif wif = Ok key -> inner key = taker ->
  hash_lock h = sha256 preimage ->
  let utx := claim_tx h fid preimage fee taker [] in
  let sig := signature taker (sighash utx 0 s) in
  build_claim_tx_unsigned h fid preimage fee = Ok utx /\
  Wallet.sign_input_over_subscript utx 0 s wif = Ok (sig, public_key taker) /\
  build_claim_tx h fid preimage (public_key taker) sig fee =
    Ok (claim_tx h fid preimage fee taker (claim_script_sig sig (public_key taker) preimage)).
Proof.
  intros [H1 _ _ _ _] Hw <- Hl utx sig.
  assert (build_claim_tx_unsigned h fid preimage fee = Ok utx) as E.
  { unfold build_claim_tx_unsigned. rewrite Hl, bytes_eqb_refl. cbn [negb]. rewrite H1, key_script. cbn [ok_or rbind].
    unfold utx, claim_tx. by rewrite H1. }
  split_and!; [done|by apply sign_over|]. unfold build_claim_tx. rewrite E. done.
Qed.

Definition refund_tx (h : Htlc) (fid : bytes) (fee : Z) (maker sg : bytes) : Transaction :=
  mkTx 1 AtomicSwap [mkTxInput fid 0 sg (u32_max - 1)]
    [mkTxOutput (sat_sub (amount h) fee) (Wallet.script_for (Core.hash160 (public_key maker)))] (expiry h)
    (Some (refund_address h)) None.

Lemma refund_built h maker s wif key fid fee now : refund_address h = key_address maker -> from_wif wif = Ok key -> inner key = maker ->
  expiry h <= now ->
  let utx := refund_tx h fid fee maker [] in
  let sig := signature maker (sighash utx 0 s) in
  build_refund_tx_unsigned h fid fee = Ok utx /\
  Wallet.sign_input_over_subscript utx 0 s wif = Ok (sig, public_key maker) /\
  build_refund_tx now h fid (public_key maker) sig fee =
    Ok (refund_tx h fid fee maker (refund_script_sig sig (public_key maker))).
Proof.
  intros H2 Hw <- Hn utx sig.
  assert (build_refund_tx_unsigned h fid fee = Ok utx) as E.
  { unfold build_refund_tx_unsigned. rewrite H2, key_script. cbn [ok_or rbind]. unfold utx, refund_tx. by rewrite H2. }
  split_and!; [done|by apply sign_over|]. unfold build_refund_tx. rewrite (proj2 (Z.ltb_ge _ _)) by lia. rewrite E. done.
Qed.

Lemma claim_sighash h fid preimage fee taker sg sub :
  sighash (claim_tx h fid preimage fee taker sg) 0 sub = sighash (claim_tx h fid preimage fee taker []) 0 sub.
Proof. by apply sighash_same. Qed.

Lemma refund_sighash h fid fee maker sg sub :
  sighash (refund_tx h fid fee maker sg) 0 sub = sighash (refund_tx h fid fee maker []) 0 sub.
Proof. by apply sighash_same. Qed.

(** The engine accepts the claim whatever the time is. *)
Lemma claim_verdict h taker mh s fid preimage fee u height time :
  between h taker mh s -> secret_ok taker = true -> is_bytes preimage -> zlen preimage = 32 ->
  hash_lock h = sha256 preimage -> 0 <= expiry h < 2 ^ 31 -> utxo_script u = s ->
  let sig := signature taker (sighash (claim_tx h fid preimage fee taker []) 0 s) in
  let sg := claim_script_sig sig (public_key taker) preimage in
  is_ok (execute (Engine.new (input_env (claim_tx h fid preimage fee taker sg) (mkTxInput fid 0 sg u32_max) u height time)) sg s) = true.
Proof.
  intros BW Hk Hb Hz Hl Ht Hu sig sg. destruct (between_script _ _ _ _ BW) as [Es _]. destruct (bw_lock _ _ _ _ BW) as [L1 L2].
  destruct (claim_sig_bytes taker (sighash (claim_tx h fid preimage fee taker []) 0 s) preimage Hk Hb Hz) as [Hsg _].
  destruct (bw_hash _ _ _ _ BW). rewrite Es at 1. apply swap_script_spend; try done; [apply Core.hash160_bytes|apply hash160_zlen|].
  eexists _, [1], _. split; [by apply run_claim_sig|]. split; [by apply pop_snoc with (st := [sig; public_key taker; preimage])|].
  change (is_true [1]) with true. cbv iota. eexists preimage, _, []. split; [by apply pop_snoc with (st := [sig; public_key taker])|].
  split_and!; [done..|]. apply signed_unlocks; [done|]. cbn [stack set_stack app env Engine.new input_env tx_hash].
  by rewrite Hu, claim_sighash.
Qed.

(** The engine accepts the refund exactly from the expiry on. *)
Lemma refund_verdict h taker maker s fid fee u height time :
  between h taker (Core.hash160 (public_key maker)) s -> secret_ok maker = true -> 500000000 <= expiry h < 2 ^ 31 -> utxo_script u = s ->
  let sig := signature maker (sighash (refund_tx h fid fee maker []) 0 s) in
  let sg := refund_script_sig sig (public_key maker) in
  is_ok (execute (Engine.new (input_env (refund_tx h fid fee maker sg) (mkTxInput fid 0 sg (u32_max - 1)) u height time)) sg s) = true <->
  expiry h <= time.
Proof.
  intros BW Hk Ht Hu sig sg. destruct (between_script _ _ _ _ BW) as [Es _]. destruct (bw_lock _ _ _ _ BW) as [L1 L2].
  destruct (refund_sig_bytes maker (sighash (refund_tx h fid fee maker []) 0 s) Hk) as [Hsg _].
  set (v := input_env _ _ _ _ _).
  assert (run (Engine.new v) sg = Ok (set_stack (Engine.new v) [sig; public_key maker; []])) as Hrun by by apply run_refund_sig.
  assert (locktime_passed v (expiry h) <-> expiry h <= time) as Hlock.
  { unfold locktime_passed, v, input_env. cbn [input_sequence tx_lock_time block_time sequence lock_time refund_tx].
    rewrite (proj2 (Z.leb_le _ _)) by lia. unfold u32_max. split; [by intros (_ & _ & _ & ?)|intros ?; split_and!; (done || lia)]. }
  rewrite Es at 1. rewrite swap_script_spend; try done; try apply Core.hash160_bytes; try apply hash160_zlen; [|lia].
  rewrite <- Hlock. split.
  - intros (e & c & e1 & He & Hp & Hc). rewrite Hrun in He. injection He as <-.
    rewrite (pop_snoc _ [sig; public_key maker] []) in Hp by done. injection Hp as <- <-. by destruct Hc.
  - intros Hpass. eexists _, [], _. split; [exact Hrun|]. split; [by apply pop_snoc with (st := [sig; public_key maker])|].
    change (is_true []) with false. cbv iota. split; [done|]. exists []. apply signed_unlocks; [done|].
    cbn [stack set_stack app env Engine.new]. unfold v. cbn [input_env tx_hash]. by rewrite Hu, refund_sighash.
Qed.

(** *** Admission by a pool *)

Context {BL : BincodeLaws B} {MO : MapOrder} {ML : MapOrderLaws MO}.

(** A pool with room for a transaction that pays [fee], whose inputs are not spent in it. *)
Record can_take (tx : Transaction) (fee : Z) (m : Mempool) : Prop := {
  ct_ok : pool_ok m;
  ct_free : forall k, k ∈ spends tx -> spent_inputs m !! k = None;
  ct_rate : min_fee_rate m * serialized_size tx <= fee;
  ct_room : has_room (serialized_size tx) m;
}.

Lemma serialized_size_pos tx : 0 < serialized_size tx.
Proof.
  unfold serialized_size. rewrite ser_size_layout. cbn [unwrap_or]. unfold layout_tx. rewrite zlen_app. unfold le32 at 1.
  rewrite zlen_to_le. match goal with |- 0 < _ + zlen ?l => pose proof (zlen_nonneg l) end. lia.
Qed.

Lemma taken_no_conflict tx fee m : can_take tx fee m -> find_conflicts tx m = [].
Proof.
  intros T. destruct (find_conflicts tx m) as [|t l] eqn:E; [done|]. exfalso.
  assert (t ∈ find_conflicts tx m) as (k & Hk & Hs)%elem_of_find_conflicts by (rewrite E; left).
  by rewrite (ct_free _ _ _ T k Hk) in Hs.
Qed.

(** A script of the contract's length is not a cold-staking script, and not behind a hash. *)
Lemma not_cold s sg : zlen s = 99 -> p2cs_redeem_script s sg = Ok None.
Proof.
  intros Hz. unfold p2cs_redeem_script. rewrite from_bytes_small by (rewrite Hz; done).
  unfold classify_script, parse_p2cs. rewrite Hz. change (99 =? 60) with false. cbn [Z.eqb Pos.eqb andb orb negb].
  repeat case_match; done.
Qed.

(** A swap transaction with one input and one output: what the pool asks of it. *)
Lemma swap_tx_admit now c tx i o u fee m : inputs tx = [i] -> tx_type tx = AtomicSwap -> outputs tx = [o] ->
  Mempool.DUST_SATOSHIS <= value o <= MAX_MONEY -> MIN_RELAY_FEE <= fee -> utxo_value u = value o + fee -> utxo_value u <= u64_max ->
  utxo_set (state (main c)) !! ((prev_txid i, prev_vout i) : OutPoint) = Some u -> zlen (utxo_script u) = 99 ->
  can_take tx fee m ->
  is_ok (admit_with_chain_fee now c tx m).2 = is_ok (verify_tx_scripts c tx (best_height c) (tip_time c)).
Proof.
  intros Hi Ht Ho Hv Hf Hu Hmax Hl Hz T. unfold Mempool.DUST_SATOSHIS, MIN_RELAY_FEE in *.
  assert (compute_tx_fee c tx = Some fee) as Hfee.
  { unfold compute_tx_fee, is_coinbase, is_coinstake, is_legacy_claim. rewrite Ht, Hi. unfold bool_decide. simpl. rewrite Hl. simpl.
    unfold checked_sub, total_output, sat_sum, sat_add. rewrite Ho. simpl. unfold sat_add. rewrite (proj2 (Z.leb_le _ _)) by lia. f_equal. lia. }
  unfold admit_with_chain_fee, sbind, slift. rewrite Hfee. cbn [ok_or].
  destruct (verify_tx_scripts c tx _ _) as [[]|e|]; [|done..]. cbn [is_ok].
  unfold is_coinstake. rewrite Ht, Hi. unfold bool_decide. simpl. unfold check_cold_input, get_utxo. rewrite Hl, (not_cold _ _ Hz). cbn [rbind].
  destruct (add_succeeds now tx fee m) as (m' & -> & _); try done.
  - apply (ct_ok _ _ _ T).
  - unfold validate_transaction. rewrite Ho. cbn [length Nat.eqb]. rewrite check_outputs_ok by (repeat constructor; lia). cbn [rbind].
    unfold is_legacy_claim, is_coinstake, is_coinbase. rewrite Ht, Hi. done.
  - apply check_dust_ok. rewrite Ho. repeat constructor; unfold Wallet.DUST_SATOSHIS; lia.
  - unfold is_legacy_claim. by rewrite Ht.
  - apply serialized_size_pos.
  - apply (ct_rate _ _ _ T).
  - by eapply taken_no_conflict.
  - apply (ct_room _ _ _ T).
Qed.

Lemma between_len h taker mh s : between h taker mh s -> zlen s = 99.
Proof.
  intros [H1 H2 [_ Hz2] [_ H4] H5]. unfold build_script in H5. rewrite H1, key_hash, H2 in H5. cbn [ok_or rbind] in H5.
  assert (forall a, Ok (E := SwapError) a = Ok s -> zlen a = 99 -> zlen s = 99) as Hs by (intros a [= ->]; done). apply (Hs _ H5).
  rewrite !zlen_app. unfold le32. rewrite zlen_to_le, H4, Hz2, hash160_zlen. done.
Qed.

(** What the contract's output must hold for a spend with a fee to be worth relaying. *)
Definition relayable (h : Htlc) (fee : Z) : Prop :=
  MIN_RELAY_FEE <= fee /\ Mempool.DUST_SATOSHIS <= amount h - fee /\ amount h <= MAX_MONEY.

Lemma relayable_value h fee : relayable h fee -> 0 <= fee /\ sat_sub (amount h) fee = amount h - fee /\
  Mempool.DUST_SATOSHIS <= amount h - fee <= MAX_MONEY /\ MIN_RELAY_FEE <= fee /\ amount h <= u64_max.
Proof. intros (H1 & H2 & H3). assert (MAX_MONEY <= u64_max) by done. unfold sat_sub, Mempool.DUST_SATOSHIS, MIN_RELAY_FEE in *. lia. Qed.

(** The signed claim and the signed refund against the chain and the pools. *)
Lemma claim_settles h taker mh s fid preimage fee c u :
  between h taker mh s -> secret_ok taker = true -> is_bytes preimage -> zlen preimage = 32 ->
  hash_lock h = sha256 preimage -> 0 <= expiry h < 2 ^ 31 ->
  utxo_set (state (main c)) !! ((fid, 0) : OutPoint) = Some u -> utxo_script u = s -> utxo_value u = amount h ->
  let sig := signature taker (sighash (claim_tx h fid preimage fee taker []) 0 s) in
  let tx := claim_tx h fid preimage fee taker (claim_script_sig sig (public_key taker) preimage) in
  (forall height time, is_ok (verify_tx_scripts c tx height time) = true) /\
  forall now m, relayable h fee -> can_take tx fee m -> is_ok (admit_with_chain_fee now c tx m).2 = true.
Proof.
  intros BW Hk Hb Hz Hl He Hu Hus Hv sig tx. pose proof (between_len _ _ _ _ BW) as Hlen.
  assert (forall height time, is_ok (verify_tx_scripts c tx height time) = true) as Hver.
  { intros height time. erewrite (single_input_verify c tx _ u); [|reflexivity|reflexivity|exact Hu| |rewrite Hus, Hlen; done].
    - rewrite Hus. by apply (claim_verdict h _ mh).
    - by apply claim_sig_bytes. }
  split; [done|]. intros now m (R0 & R1 & R2 & R3 & R4)%relayable_value T.
  erewrite (swap_tx_admit now c tx _ _ u fee); [apply Hver|reflexivity|reflexivity|reflexivity|..|exact Hu| |exact T]; cbn [value];
    [lia|done|lia|lia|by rewrite Hus].
Qed.

Lemma refund_settles h taker maker s fid fee c u :
  between h taker (Core.hash160 (public_key maker)) s -> secret_ok maker = true -> 500000000 <= expiry h < 2 ^ 31 ->
  utxo_set (state (main c)) !! ((fid, 0) : OutPoint) = Some u -> utxo_script u = s -> utxo_value u = amount h ->
  let sig := signature maker (sighash (refund_tx h fid fee maker []) 0 s) in
  let tx := refund_tx h fid fee maker (refund_script_sig sig (public_key maker)) in
  (forall height time, is_ok (verify_tx_scripts c tx height time) = true <-> expiry h <= time) /\
  forall now m, relayable h fee -> can_take tx fee m -> is_ok (admit_with_chain_fee now c tx m).2 = true <-> expiry h <= tip_time c.
Proof.
  intros BW Hk He Hu Hus Hv sig tx. pose proof (between_len _ _ _ _ BW) as Hlen.
  assert (forall height time, is_ok (verify_tx_scripts c tx height time) = true <-> expiry h <= time) as Hver.
  { intros height time. erewrite (single_input_verify c tx _ u); [|reflexivity|reflexivity|exact Hu| |rewrite Hus, Hlen; done].
    - rewrite Hus. by apply (refund_verdict h taker).
    - by apply refund_sig_bytes. }
  split; [done|]. intros now m (R0 & R1 & R2 & R3 & R4)%relayable_value T.
  erewrite (swap_tx_admit now c tx _ _ u fee); [apply Hver|reflexivity|reflexivity|reflexivity|..|exact Hu| |exact T]; cbn [value];
    [lia|done|lia|lia|by rewrite Hus].
Qed.

(** *** Property *)


End settle.

(** ** Funding *)

Section funding.
Context {C : Crypto} {B : Bincode} {H : Hex} {N : Snapshot} {MO : MapOrder}.

(** funding a contract conserves value.  A funding transaction locks exactly the
    amount under the contract's script, as its first output; the rest of the input, less
    the fee, goes back to the refund address in a second output, which is there exactly when something is left;
    and an input below the amount and the fee is refused. *)
Theorem swap_funding_exact (h : Htlc) (txid : bytes) (vout value_in fee : Z) :
  0 <= amount h -> 0 <= fee -> amount h + fee <= u64_max ->
  match build_funding_tx h txid vout value_in fee with
  | Ok tx => exists s rest, build_script h = Ok s /\ outputs tx = mkTxOutput (amount h) s :: rest /\
      map input_key (inputs tx) = [(txid, vout)] /\ value_in = zsum (map value (outputs tx)) + fee /\
      (rest = [] /\ value_in = amount h + fee \/
       exists p, p2pkh_script (refund_address h) = Some p /\ rest = [mkTxOutput (value_in - amount h - fee) p] /\
         0 < value_in - amount h - fee)
  | Err _ => value_in < amount h + fee \/ is_ok (build_script h) = false \/ p2pkh_script (refund_address h) = None
  | Panic => False
  end.
Proof.
  intros Ha Hf Hm. unfold build_funding_tx, checked_add. rewrite (proj2 (Z.leb_le _ _)) by lia. cbn [ok_or rbind].
  destruct (Z.ltb_spec value_in (amount h + fee)) as [|Hge]; [by left|].
  destruct (build_script h) as [s|e|] eqn:Es; cbn [rbind]; [|by right; left|].
  2:{ unfold build_script in Es. by destruct (address_to_hash160 (recipient h)), (address_to_hash160 (refund_address h)). }
  destruct (Z.ltb_spec 0 (value_in - (amount h + fee))).
  - destruct (p2pkh_script (refund_address h)) as [p|] eqn:Ep; cbn [ok_or rbind]; [|by right; right].
    exists s, [mkTxOutput (value_in - (amount h + fee)) p]. split_and!; try done.
    + simpl. lia.
    + right. exists p. split_and!; [done|do 2 f_equal; lia|lia].
  - cbn [rbind]. exists s, []. split_and!; try done; [simpl; lia|]. left. split; [done|lia].
Qed.

(** A pool turns down a swap transaction with an output below the dust limit. *)
Lemma check_dust_refused tx o : tx_type tx = AtomicSwap -> o ∈ outputs tx -> value o < Mempool.DUST_SATOSHIS ->
  is_op_return (script_pubkey o) = false -> exists e, check_dust tx = Err e.
Proof.
  intros Ht Ho Hv Hs. unfold check_dust, is_legacy_claim. rewrite Ht. unfold bool_decide. simpl.
  induction (outputs tx) as [|x l IH]; [by apply elem_of_nil in Ho|]. cbn [rfold]. unfold ensure at 1.
  apply elem_of_cons in Ho as [<-|Ho]; [rewrite (proj2 (Z.ltb_lt _ _)), Hs by done; by eexists|].
  destruct (negb _); simpl; [by apply IH|by eexists].
Qed.

Lemma dust_refused tx o now paid m : tx_type tx = AtomicSwap -> o ∈ outputs tx -> value o < Mempool.DUST_SATOSHIS ->
  is_op_return (script_pubkey o) = false -> exists e, add_transaction_with_fee now tx paid m = (m, Err e).
Proof.
  intros Ht Ho Hv Hs. destruct (check_dust_refused tx o Ht Ho Hv Hs) as [e Ee]. pose proof (validate_transaction_safe tx) as Hsafe.
  unfold add_transaction_with_fee, sbind, slift. destruct (validate_transaction tx) as [[]|e'|]; [|by exists e'|done].
  exists e. by rewrite Ee.
Qed.

(** a funding transaction can be one the node refuses.  When less than the dust limit
    is left over, the change output is made all the same, and every pool turns the
    transaction down. *)
Theorem swap_funding_dust_refused (h : Htlc) (txid : bytes) (vout value_in fee : Z) (tx : Transaction) (a : Address)
    (now paid : Z) (m : Mempool) :
  0 <= amount h -> 0 <= fee -> amount h + fee <= u64_max ->
  Address.parse (refund_address h) = Ok a ->
  0 < value_in - amount h - fee < Mempool.DUST_SATOSHIS ->
  build_funding_tx h txid vout value_in fee = Ok tx ->
  exists e, add_transaction_with_fee now tx paid m = (m, Err e).
Proof.
  intros Ha Hf Hm Hp Hd E. unfold build_funding_tx, checked_add in E. rewrite (proj2 (Z.leb_le _ _)) in E by lia. cbn [ok_or rbind] in E.
  rewrite (proj2 (Z.ltb_ge _ _)) in E by lia. destruct (build_script h) as [s| |]; cbn [rbind] in E; try done.
  rewrite (proj2 (Z.ltb_lt _ _)) in E by lia.
  assert (p2pkh_script (refund_address h) = Some (Wallet.script_for (addr_hash a))) as Hs.
  { unfold p2pkh_script, address_to_hash160. by rewrite Hp. }
  rewrite Hs in E. cbn [ok_or rbind] in E.
  assert (tx_type tx = AtomicSwap /\ outputs tx = [mkTxOutput (amount h) s;
    mkTxOutput (value_in - (amount h + fee)) (Wallet.script_for (addr_hash a))]) as [Et Eo] by (by injection E as <-).
  eapply dust_refused; [done|rewrite Eo; right; left|simpl; lia|]. by apply (script_for_spendable (addr_hash a)); eapply parse_hash_len.
Qed.

End funding.
