(* ===== verification/OrderBook.v ===== *)
(** * The order book: properties

    The book of swap orders as a state machine: what an operation may do to the orders in
    it, that a funded order is never lost, and that gossip cannot grow the book past its
    limit. *)

From stdpp Require Import base list gmap sorting strings.
From Stdlib Require Import ZArith Lia.
From S2P Require Import Prelude Script Crypto Codec Block Address Consensus Swap.
Import Swaps.

(** ** Lists *)

Lemma update_first_split {A} (p : A -> bool) f (l l' : list A) : update_first p f l = Some l' ->
  exists pre x post, l = pre ++ x :: post /\ l' = pre ++ f x :: post /\ p x = true /\ List.find p l = Some x.
Proof.
  revert l'. induction l as [|y l IH]; intros l' E; simpl in E; [done|]. destruct (p y) eqn:Ey.
  - injection E as <-. exists [], y, l. simpl. by rewrite Ey.
  - destruct (update_first p f l) as [l1|]; [|done]. simpl in E. injection E as <-.
    destruct (IH l1 eq_refl) as (pre & x & post & -> & -> & Hx & Hf). exists (y :: pre), x, post. simpl. by rewrite Ey.
Qed.

Lemma update_first_keeps {A} (p : A -> bool) f (l l' : list A) o : update_first p f l = Some l' -> o ∈ l ->
  (p o = true -> f o = o) -> o ∈ l'.
Proof.
  intros (pre & x & post & -> & -> & Hx & _)%update_first_split Ho Hf.
  apply elem_of_app in Ho as [Ho|[->|Ho]%elem_of_cons]; apply elem_of_app; [by left|right; rewrite Hf by done; left|right; by right].
Qed.

Lemma update_first_length {A} (p : A -> bool) f (l l' : list A) : update_first p f l = Some l' -> length l' = length l.
Proof. intros (pre & x & post & -> & -> & _)%update_first_split. by rewrite !length_app. Qed.

(** ** Eviction *)

Section book.
Context {H : Hex}.

(** Orders eviction keeps at first: not cancelled, and not both open and expired. *)
Definition live (now : Z) (o : SwapOrder) : bool :=
  negb (has_status Cancelled o) && ((now <? order_expiry o) || negb (has_status Open o)).

Definition indexed (l : list SwapOrder) : list (nat * SwapOrder) := imap pair l.

Lemma indexed_fst l : map fst (indexed l) = seq 0 (length l).
Proof.
  unfold indexed. change (map fst ?x) with (fst <$> x). rewrite fmap_imap.
  rewrite <- (list_fmap_id (seq 0 (length l))). apply (imap_seq_0 l id).
Qed.

Lemma indexed_snd l : map snd (indexed l) = l.
Proof.
  unfold indexed. change (map snd ?x) with (snd <$> x). rewrite fmap_imap.
  rewrite <- (list_fmap_id l) at 2. apply (imap_const id).
Qed.

Lemma elem_of_indexed l i o : (i, o) ∈ indexed l <-> l !! i = Some o.
Proof.
  unfold indexed. rewrite elem_of_lookup_imap. split; [by intros (j & y & [= <- <-] & Hj)|intros Hi; eauto].
Qed.

Definition is_open (e : nat * SwapOrder) : bool := has_status Open e.2.

(** The positions trimming takes out, and what is left. *)
Definition by_expiry (l : list SwapOrder) : list (nat * SwapOrder) :=
  sort_by_key (fun e => order_expiry e.2) (List.filter is_open (indexed l)).
Definition removed (k : nat) (l : list SwapOrder) : list nat := map fst (take k (by_expiry l)).
Definition trimmed (k : nat) (l : list SwapOrder) : list SwapOrder :=
  map snd (List.filter (fun e => negb (bool_decide (e.1 ∈ removed k l))) (indexed l)).

Lemma evict_trims now orders : let l := List.filter (live now) orders in
  evict now orders = l /\ zlen l < MAX_ORDERS \/
  exists k, evict now orders = trimmed k l /\ MAX_ORDERS <= zlen l /\ Z.of_nat k = zlen l - 7500.
Proof.
  intros l. unfold evict. change (List.filter _ orders) with l. cbv zeta.
  destruct (Z.ltb_spec (zlen l) MAX_ORDERS) as [|Hl]; [by left|]. right. change (MAX_ORDERS * 3 / 4) with 7500.
  assert (sat_sub (zlen l) 7500 = zlen l - 7500) as Hx by (unfold sat_sub, MAX_ORDERS in *; lia).
  rewrite Hx, (proj2 (Z.eqb_neq _ _)) by (unfold MAX_ORDERS in *; lia).
  exists (Z.to_nat (zlen l - 7500)). split_and!; [reflexivity|done|unfold MAX_ORDERS in *; lia].
Qed.

Lemma by_expiry_elem l i o : (i, o) ∈ by_expiry l <-> l !! i = Some o /\ order_status o = Open.
Proof.
  unfold by_expiry. rewrite sort_by_key_perm, list_elem_of_In, filter_In, <- list_elem_of_In, elem_of_indexed.
  unfold is_open, has_status. cbn [snd]. by rewrite bool_decide_eq_true.
Qed.

Lemma by_expiry_NoDup l : NoDup (map fst (by_expiry l)).
Proof.
  unfold by_expiry. change (map fst ?x) with (fst <$> x). rewrite sort_by_key_perm. apply NoDup_map_filter.
  rewrite indexed_fst. apply NoDup_seq.
Qed.

Lemma removed_NoDup k l : NoDup (removed k l).
Proof.
  unfold removed. eapply sublist_NoDup; [apply by_expiry_NoDup|]. apply (fmap_sublist fst), sublist_take.
Qed.

Lemma removed_open k l i : i ∈ removed k l -> exists o, l !! i = Some o /\ order_status o = Open.
Proof.
  unfold removed. intros ([j o] & -> & Hj)%list_elem_of_fmap. exists o. apply by_expiry_elem.
  eapply elem_of_submseteq; [exact Hj|]. apply sublist_submseteq, sublist_take.
Qed.

Lemma trimmed_elem k l o : o ∈ trimmed k l <-> exists i, l !! i = Some o /\ i ∉ removed k l.
Proof.
  unfold trimmed. rewrite list_elem_of_fmap. split.
  - intros ([i x] & -> & [Hi Hr%negb_true_iff%bool_decide_eq_false]%list_elem_of_In%filter_In).
    exists i. by rewrite <- elem_of_indexed, list_elem_of_In.
  - intros (i & Hi & Hr). exists (i, o). split; [done|]. apply list_elem_of_In, filter_In.
    rewrite <- list_elem_of_In, elem_of_indexed. split; [done|]. by apply negb_true_iff, bool_decide_eq_false.
Qed.

(** Only open orders are trimmed, those that expire first. *)
Lemma trimmed_keeps k l o : o ∈ l -> order_status o <> Open -> o ∈ trimmed k l.
Proof.
  intros [i Hi]%list_elem_of_lookup Ho. apply trimmed_elem. exists i. split; [done|].
  intros (x & Hx & Hs)%removed_open. by simplify_eq.
Qed.

Lemma trimmed_first k l i x j y : l !! i = Some x -> i ∈ removed k l -> l !! j = Some y -> order_status y = Open ->
  j ∉ removed k l -> order_expiry x <= order_expiry y.
Proof.
  intros Hx Hi Hy Hs Hj. pose proof (sort_by_key_sorted (fun e => order_expiry e.2) (List.filter is_open (indexed l))) as Hsort.
  fold (by_expiry l) in Hsort. rewrite <- (take_drop k (by_expiry l)) in Hsort.
  assert ((i, x) ∈ take k (by_expiry l)) as Hin.
  { unfold removed in Hi. apply list_elem_of_fmap in Hi as ([i' o] & -> & Ho). simpl in Hx.
    assert ((i', o) ∈ by_expiry l) as [Ho' _]%by_expiry_elem.
    { eapply elem_of_submseteq; [exact Ho|]. apply sublist_submseteq, sublist_take. }
    by simplify_eq. }
  assert ((j, y) ∈ drop k (by_expiry l)) as Hout.
  { assert ((j, y) ∈ by_expiry l) as Hyj by by apply by_expiry_elem. rewrite <- (take_drop k (by_expiry l)) in Hyj.
    apply elem_of_app in Hyj as [Hyj|]; [|done]. exfalso. apply Hj. unfold removed. apply list_elem_of_fmap. by exists (j, y). }
  exact (StronglySorted_app_1_elem_of _ _ _ (i, x) (j, y) Hsort Hin Hout).
Qed.

Lemma trimmed_length k l : (length (trimmed k l) = length l - (k `min` length (List.filter (has_status Open) l)))%nat.
Proof.
  unfold trimmed. rewrite length_map. pose proof (filter_split_length (fun e => bool_decide (e.1 ∈ removed k l)) (indexed l)) as Hs.
  assert (length (indexed l) = length l) as Hl by (unfold indexed; apply length_imap).
  assert (length (List.filter (fun e => bool_decide (e.1 ∈ removed k l)) (indexed l)) = length (removed k l)) as Hr.
  { rewrite <- (length_map fst). apply Permutation_length, NoDup_Permutation.
    - apply NoDup_map_filter. rewrite indexed_fst. apply NoDup_seq.
    - apply removed_NoDup.
    - intros i. rewrite list_elem_of_fmap. split.
      + by intros ([j o] & -> & [_ Hj%bool_decide_eq_true]%list_elem_of_In%filter_In).
      + intros Hi. destruct (removed_open _ _ _ Hi) as (o & Ho & _). exists (i, o). split; [done|].
        apply list_elem_of_In, filter_In. rewrite <- list_elem_of_In, elem_of_indexed. split; [done|]. by apply bool_decide_eq_true. }
  assert (length (removed k l) = (k `min` length (List.filter (has_status Open) l))%nat) as Hlen.
  { unfold removed. rewrite length_map, length_take. f_equal. unfold by_expiry. rewrite sort_by_key_perm.
    rewrite <- (length_map snd). rewrite <- (indexed_snd l) at 2. generalize (indexed l) as x.
    induction x as [|[i o] x IH]; simpl; [done|]. change (is_open (i, o)) with (has_status Open o).
    destruct (has_status Open o); simpl; by rewrite ?IH. }
  cbv beta in Hs. lia.
Qed.

(** ** Properties *)

(** Orders the node has committed to: reserved, matched, running or done. *)
Definition committed (o : SwapOrder) : bool := negb (has_status Open o) && negb (has_status Cancelled o).

Lemma committed_count now orders :
  (length (List.filter (live now) orders) =
   length (List.filter (has_status Open) (List.filter (live now) orders)) + length (List.filter committed orders))%nat.
Proof.
  rewrite <- (filter_split_length (has_status Open) (List.filter (live now) orders)). f_equal.
  induction orders as [|o orders IH]; [done|]. cbn [List.filter].
  assert (live now o && negb (has_status Open o) = committed o) as Hlc.
  { unfold live, committed, has_status. destruct (order_status o); simpl; rewrite ?orb_true_r; try done. apply andb_false_r. }
  destruct (live now o); simpl in Hlc; [cbn [List.filter]; rewrite Hlc|rewrite <- Hlc]; [|done].
  destruct (committed o); simpl; by rewrite IH.
Qed.

Lemma evict_bound now orders :
  zlen (evict now orders) + 1 <= Z.max MAX_ORDERS (zlen (List.filter committed orders) + 1).
Proof.
  pose proof (committed_count now orders) as Hc.
  destruct (evict_trims now orders) as [[E Hl]|(k & E & H1 & H2)]; rewrite E; [lia|].
  unfold zlen in *. rewrite trimmed_length. unfold MAX_ORDERS in *. lia.
Qed.

Lemma elem_of_live now o orders : o ∈ orders -> order_status o <> Cancelled ->
  (order_status o = Open -> now < order_expiry o) -> o ∈ List.filter (live now) orders.
Proof.
  intros Ho Hc Hx. apply list_elem_of_In, filter_In. rewrite <- list_elem_of_In. split; [done|]. unfold live, has_status.
  rewrite bool_decide_eq_false_2 by done. simpl. destruct (decide (order_status o = Open)) as [E|E].
  - by rewrite (proj2 (Z.ltb_lt _ _)) by auto.
  - by rewrite (bool_decide_eq_false_2 (order_status o = Open)), orb_true_r by done.
Qed.

Lemma committed_status o : committed o = true <-> order_status o <> Open /\ order_status o <> Cancelled.
Proof. unfold committed, has_status. rewrite andb_true_iff, !negb_true_iff, !bool_decide_eq_false. done. Qed.

Lemma evict_keeps now o orders : o ∈ orders -> committed o = true -> o ∈ evict now orders.
Proof.
  intros Ho [H1 H2]%committed_status. assert (o ∈ List.filter (live now) orders) as Hl by by apply elem_of_live.
  destruct (evict_trims now orders) as [[E _]|(k & E & _)]; rewrite E; [done|]. by apply trimmed_keeps.
Qed.

Lemma add_order_keeps now order o orders : o ∈ orders -> committed o = true -> o ∈ add_order now order orders.
Proof.
  intros Ho Hc. unfold add_order, vec_push. apply elem_of_app. left. destruct (_ <=? _); [by apply evict_keeps|done].
Qed.

(** gossip cannot grow the book.  However many orders are announced, adding one
    leaves at most ten thousand in the book, unless the orders the node is itself
    committed to are more; every committed order is kept and the new order is in the book; and when the
    book is trimmed, an open order that is dropped before its expiry expires no later than
    every open order that is kept. *)
Theorem order_book_bounded (now : Z) (order : SwapOrder) (orders : list SwapOrder) :
  zlen (add_order now order orders) <= Z.max MAX_ORDERS (zlen (List.filter committed orders) + 1) /\
  order ∈ add_order now order orders /\
  (forall o, o ∈ orders -> committed o = true -> o ∈ add_order now order orders) /\
  (forall x y, x ∈ orders -> x ∉ evict now orders -> order_status x = Open -> now < order_expiry x ->
     y ∈ evict now orders -> order_status y = Open -> order_expiry x <= order_expiry y).
Proof.
  split_and!.
  - unfold add_order. rewrite zlen_push. destruct (Z.leb_spec MAX_ORDERS (zlen orders)); [apply evict_bound|lia].
  - unfold add_order, vec_push. apply elem_of_app. right. left.
  - intros o. apply add_order_keeps.
  - intros x y Hx Hdrop Hsx Hex Hy Hsy.
    assert (x ∈ List.filter (live now) orders) as Hlive by (apply elem_of_live; [done|by rewrite Hsx|done]).
    destruct (evict_trims now orders) as [[E _]|(k & E & _)]; rewrite E in *; [done|].
    apply list_elem_of_lookup in Hlive as [i Hi]. apply trimmed_elem in Hy as (j & Hj & Hjr).
    assert (i ∈ removed k (List.filter (live now) orders)) as Hir.
    { destruct (decide (i ∈ removed k (List.filter (live now) orders))); [done|]. exfalso. apply Hdrop, trimmed_elem. eauto. }
    by eapply trimmed_first.
Qed.

(** ** The book as a state machine *)

(** An operation that trading, gossip or the clock brings about. *)
Inductive book_step `{Crypto} : list SwapOrder -> list SwapOrder -> Prop :=
  | Step_add now order l : book_step l (add_order now order l)
  | Step_cancel id l : book_step l (cancel_order id l).1
  | Step_expire now l : book_step l (expire_orders now l).1
  | Step_begin id l : book_step l (begin_funding id l).1
  | Step_release id l : book_step l (release_funding id l).1
  | Step_restore now order l : book_step l (restore_order now order l)
  | Step_fund now id taker preimage lock funding l :
      book_step l (fund_and_match_order now id taker preimage lock funding l).1
  | Step_match now preimage id taker l : book_step l (match_order now preimage id taker l).1.

(** A matched order with its recovery data. *)
Definition funded (o : SwapOrder) : Prop :=
  (order_status o = Matched \/ order_status o = InProgress \/ order_status o = Completed) /\
  (order_preimage o <> None \/ order_funding_txid o <> None).

Lemma funded_status o s : funded o -> s = Open \/ s = Funding \/ s = Cancelled -> has_status s o = false.
Proof. intros [Ho _] Hs. apply bool_decide_eq_false. intros E. rewrite E in Ho. intuition congruence. Qed.

Lemma funded_committed o : funded o -> committed o = true.
Proof. intros Ho. unfold committed. rewrite !(funded_status o) by tauto. done. Qed.

Lemma found_keeps p f l o : o ∈ l -> (p o = true -> f o = o) -> o ∈ (found (update_first p f l) l).1.
Proof. intros Ho Hf. destruct (update_first p f l) as [l'|] eqn:E; simpl; [by eapply update_first_keeps|done]. Qed.

Lemma begin_keeps id l o : o ∈ l -> funded o -> o ∈ (begin_funding id l).1.
Proof.
  intros Ho Hf. unfold begin_funding. destruct (update_first _ _ l) as [l'|] eqn:E; simpl; [|done].
  eapply update_first_keeps; [exact E|done|]. cbv beta. rewrite (funded_status o Open) by tauto. by rewrite andb_false_r.
Qed.

Lemma fund_keeps now id taker preimage lock funding l o : o ∈ l -> funded o ->
  o ∈ (fund_and_match_order now id taker preimage lock funding l).1.
Proof.
  intros Ho Hf. unfold fund_and_match_order. destruct (List.find _ l) as [x|]; [|done].
  destruct (order_expiry x <=? now); simpl; apply found_keeps; try done; cbv beta;
    rewrite (funded_status o Funding) by tauto; by rewrite andb_false_r.
Qed.

Lemma release_keeps id l o : o ∈ l -> funded o -> o ∈ (release_funding id l).1.
Proof.
  intros Ho Hf. unfold release_funding. destruct (List.find (is_order id) l) as [x|] eqn:Ex; [|done].
  destruct (has_status Funding x) eqn:Ex'; simpl; [|done]. destruct (update_first _ _ l) as [l'|] eqn:E; simpl; [|done].
  apply update_first_split in E as (pre & y & post & -> & -> & Hy & Hfind). rewrite Hfind in Ex. injection Ex as ->.
  apply elem_of_app in Ho as [Ho|[->|Ho]%elem_of_cons]; apply elem_of_app; [by left| |right; by right].
  rewrite (funded_status x Funding) in Ex' by tauto. done.
Qed.

Lemma step_keeps `{Crypto} l l' o : book_step l l' -> o ∈ l -> funded o -> o ∈ l'.
Proof.
  intros Hst Ho Hf. destruct Hst.
  - by apply add_order_keeps, funded_committed.
  - apply found_keeps; [done|]. cbv beta. rewrite (funded_status o Open) by tauto. by rewrite andb_false_r.
  - simpl. apply list_elem_of_fmap. exists o. split; [|done]. by rewrite (funded_status o Open) by tauto.
  - by apply begin_keeps.
  - by apply release_keeps.
  - unfold restore_order. destruct (update_first _ _ l) as [l'|] eqn:E; [|by apply add_order_keeps, funded_committed].
    eapply update_first_keeps; [exact E|done|]. intros _. destruct Hf as [_ [Hp|Hp]];
      [rewrite (bool_decide_eq_false_2 (order_preimage o = None))|rewrite (bool_decide_eq_false_2 (order_funding_txid o = None))];
      rewrite ?andb_false_r; done.
  - by apply fund_keeps.
  - unfold match_order. pose proof (begin_keeps id l o Ho Hf) as Hb. destruct (begin_funding id l) as [l1 [x|]]; simpl in *; [|done].
    by apply fund_keeps.
Qed.

(** C18: a funded order is never lost.  Whatever is announced, cancelled, expired, reserved,
    released, restored or matched, in any order and number, an order that is matched, in
    progress or completed and carries its preimage or its funding transaction stays in the
    book as it is. *)
Theorem funded_orders_kept `{Crypto} (l l' : list SwapOrder) (o : SwapOrder) :
  rtc book_step l l' -> o ∈ l -> funded o -> o ∈ l'.
Proof. induction 1 as [|l l1 l' Hs _ IH]; intros Ho Hf; [done|]. apply IH; [by eapply step_keeps|done]. Qed.

End book.

(** ** A concrete book *)

Module OrderWitness.

Definition order (id : Z) (s : OrderStatus) (p : option bytes) : SwapOrder :=
  mkOrder (repeat id 32) [1] None 100 [2] 3 None None None p 1000 1 s.

(** The open order is reserved and matched, then everything expires and is announced anew. *)
Lemma funded_orders_kept_witness :
  order 2 Matched (Some [9]) ∈
    add_order 2000 (order 3 Open None)
      (expire_orders 2000 (match_order 10 [5] (hex_encode (repeat 1 32)) [7]
        [order 1 Open None; order 2 Matched (Some [9])]).1).1.
Proof.
  apply (funded_orders_kept [order 1 Open None; order 2 Matched (Some [9])]).
  - eapply rtc_l; [apply (Step_match 10 [5] (hex_encode (repeat 1 32)) [7])|].
    eapply rtc_l; [apply (Step_expire 2000)|]. eapply rtc_l; [apply (Step_add 2000 (order 3 Open None))|]. apply rtc_refl.
  - right. left.
  - split; [by left|by left].
Defined.

End OrderWitness.
