(* ===== verification/Settlement.v ===== *)
(** * Settlement of swaps

    Models the part of [vtorrent-rpc/src/swap_reconciliation.rs] that reads the state of a
    swap off the chain and the pool, and [vtorrent-rpc/src/refund_lineage.rs], the rules
    for replacing a refund.  The async shells around them (locks, the recovery file, the
    timer loop) are not modelled. *)

From stdpp Require Import base list gmap strings.
From Stdlib Require Import ZArith Lia.
From S2P Require Import Prelude Script Crypto Engine Standard Merkle Codec Block Address Consensus.
From S2P Require Import Deployments Governance Ledger Chain Mempool Swap.
Import Swaps.

Module Settlement.
Section settlement.
Context {C : Crypto} {B : Bincode} {H : Hex} {MO : MapOrder}.

Definition SETTLEMENT_CONFIRMATIONS : Z := 6.

Definition confirmation (c : Chain) (id : bytes) : option SwapConfirmation :=
  get_transaction c id ≫= fun '(_, block_hash, height) =>
  Some (mkConfirmation (hex_encode id) (hex_encode block_hash) height
          (sat_add u32_max (sat_sub (best_height c) height) 1)).

(** Whether an input spends the first output of the funding transaction. *)
Definition spends_funding (funding : bytes) (i : TxInput) : bool :=
  bytes_eqb (prev_txid i) funding && (prev_vout i =? 0).

Definition observes_spend (tx : Transaction) (funding : bytes) : bool := existsb (spends_funding funding) (inputs tx).

Definition claim_preimage_matches (tx : Transaction) (funding_txid hash_lock : bytes) : bool :=
  match List.find (spends_funding funding_txid) (inputs tx) with
  | None => false
  | Some input =>
      let script := script_sig input in
      let n := zlen script in
      if (n <? 34) || negb (bool_decide (vec_at script (n - 34) = Some 0x20))
         || negb (bool_decide (vec_last script = Some 0x51))
      then false
      else bytes_eqb (sha256 (slice (n - 33) (n - 1) script)) hash_lock
  end.

(** The contract's script as the order describes it. *)
Definition expected_script (order : SwapOrder) : option bytes :=
  order_hash_lock order ≫= fun hash =>
  taker_address order ≫= fun taker =>
  match with_expiry hash taker (maker_address order) (order_expiry order) (vtr_amount order) with
  | Ok h => match build_script h with Ok s => Some s | _ => None end
  | _ => None
  end.

Definition metadata_agrees (order : SwapOrder) (swap : SwapState) : bool :=
  bytes_eqb (order_id order) (ss_order_id swap) &&
  bool_decide (order_hash_lock order = Some (ss_hash_lock swap)) &&
  bool_decide (order_funding_txid order = vtr_funding_txid swap).

(** An anchor of the previous observation that is no longer on the active chain. *)
Definition anchor_lost (c : Chain) (a : SwapConfirmation) : bool :=
  negb (bool_decide (hex_encode <$> block_hash_at_height c (sc_height a) = Some (sc_block_hash a))).

Definition invalidated_anchor (c : Chain) (previous : option VtrSwapObservation) : bool :=
  match previous with
  | None => false
  | Some old => existsb (anchor_lost c) (omap id [vo_funding old; vo_spend old])
  end.

(** [(lo..=hi).rev()]. *)
Definition heights_down (lo hi : Z) : list Z :=
  rev (map (fun i => lo + Z.of_nat i) (seq 0 (Z.to_nat (hi - lo + 1)))).

Fixpoint find_map {A X} (f : A -> option X) (l : list A) : option X :=
  match l with
  | [] => None
  | a :: l => match f a with Some x => Some x | None => find_map f l end
  end.

(** The transaction of the active chain that spends the funding output: one the journal
    records, or the last one a scan of the blocks finds. *)
Definition find_spend (c : Chain) (swap : SwapState) (funding : bytes) (from : Z) : option (bytes * Transaction) :=
  let candidates := omap id [vtr_claim_txid swap; vtr_refund_txid swap] ++
                    map (fun r => txid (rr_transaction r)) (vtr_refund_replacements swap) in
  let recorded := List.find (fun id =>
    match get_transaction c id with Some (tx, _, _) => observes_spend tx funding | None => false end) candidates in
  let found :=
    match recorded with
    | Some id => Some id
    | None =>
        find_map (fun height =>
          get_block_at_height c height ≫= fun b =>
          txid <$> List.find (fun tx => observes_spend tx funding) (transactions b))
          (heights_down from (best_height c))
    end in
  found ≫= fun id => get_transaction c id ≫= fun '(tx, _, _) => Some (id, tx).

(** Whether the spending transaction counts as the claim. *)
Definition is_claim (order : SwapOrder) (swap : SwapState) (funding id : bytes) (tx : Transaction) : bool :=
  bool_decide (Some id = vtr_claim_txid swap) ||
  match order_hash_lock order with Some h => claim_preimage_matches tx funding h | None => false end.

(** [observe_vtr]. *)
Definition observe_vtr (c : Chain) (m : Mempool) (order : SwapOrder) (swap : SwapState) : res NodeError VtrSwapObservation :=
  let previous := vtr_observation swap in
  let observation state funding spend pending :=
    mkObservation (default [] (hex_encode <$> best_hash c)) (best_height c) state funding spend pending
      (sat_add u32_max (default 0 (vo_reorg_count <$> previous)) (if invalidated_anchor c previous then 1 else 0)) in
  if negb (metadata_agrees order swap) then Ok (observation InvalidFunding None None None) else
  match vtr_funding_txid swap with
  | None => Ok (observation NotFunded None None None)
  | Some funding_txid =>
      match expected_script order with
      | None => Ok (observation InvalidFunding None None None)
      | Some script =>
          let transaction :=
            match get_transaction c funding_txid with
            | Some (tx, _, _) => Some tx
            | None => pool_transaction m funding_txid
            end in
          match transaction with
          | None => Ok (observation (if is_some (vtr_funding_tx swap) then FundingPrepared else FundingMissing) None None None)
          | Some tx =>
              let pays := match outputs tx with
                          | o :: _ => (value o =? vtr_amount order) && bytes_eqb (script_pubkey o) script
                          | [] => false
                          end in
              if negb pays then Ok (observation InvalidFunding None None None) else
              match confirmation c funding_txid with
              | None => Ok (observation FundingPending None None None)
              | Some funding =>
                  match get_utxo c funding_txid 0 with
                  | None =>
                      match find_spend c swap funding_txid (sc_height funding) with
                      | None => Ok (observation SpendUnknown (Some funding) None None)
                      | Some (id, tx) =>
                          let spend := confirmation c id in
                          let settled := match spend with
                                         | Some s => SETTLEMENT_CONFIRMATIONS <=? sc_confirmations s
                                         | None => false
                                         end in
                          let state :=
                            if is_claim order swap funding_txid id tx then if settled then VClaimed else ClaimConfirming
                            else if is_vtr_refund id swap then if settled then VRefunded else RefundConfirming
                            else SpentElsewhere in
                          Ok (observation state (Some funding) spend None)
                      end
                  | Some _ =>
                      let* txs := get_transactions m in
                      match List.find (fun tx => observes_spend tx funding_txid) txs with
                      | Some tx =>
                          let id := txid tx in
                          let state :=
                            if is_claim order swap funding_txid id tx then ClaimPending
                            else if is_vtr_refund id swap then RefundPending
                            else CompetingSpendPending in
                          Ok (observation state (Some funding) None (Some (hex_encode id)))
                      | None =>
                          let state :=
                            if is_some (vtr_claim_tx swap) then ClaimPrepared
                            else if is_some (vtr_refund_tx swap) then RefundPrepared
                            else if SETTLEMENT_CONFIRMATIONS <=? sc_confirmations funding then VFunded
                            else FundingConfirming in
                          Ok (observation state (Some funding) None None)
                      end
                  end
              end
          end
      end
  end.

(** ** Replacing a refund *)

Definition MAX_REPLACEMENTS : Z := 16.

(** [RpcError::BadRequest]. *)
Inductive LineageError : Type := InvalidLineage.

Definition same_replacement (a b : VtrRefundReplacement) : bool :=
  bytes_eqb (rr_replaces_txid a) (rr_replaces_txid b) && (rr_total_fee_satoshis a =? rr_total_fee_satoshis b) &&
  (rr_approved_at a =? rr_approved_at b) && bytes_eqb (txid (rr_transaction a)) (txid (rr_transaction b)).

Definition is_prefix (old new : list VtrRefundReplacement) : bool :=
  (zlen old <=? zlen new) && forallb (fun '(a, b) => same_replacement a b) (zip old new).

(** The body of the loop of [validate]; the state is the parent and its fee. *)
Definition check_refund (h : Htlc) (funding : bytes) (order : SwapOrder) (s : bytes * Z) (r : VtrRefundReplacement)
    : res LineageError (bytes * Z) :=
  let '(parent, fee) := s in
  let tx := rr_transaction r in
  if negb (bytes_eqb (rr_replaces_txid r) parent) || (rr_total_fee_satoshis r <=? fee)
     || (rr_approved_at r <? order_expiry order)
     || match checked_sub (vtr_amount order) (rr_total_fee_satoshis r) with Some v => v <? 546 | None => true end
     || negb (zlen (inputs tx) =? 1)
  then Err InvalidLineage else
  let* input := vec_get (inputs tx) 0 in
  if zlen (script_sig input) =? 0 then Err InvalidLineage else
  let* expected := map_err (fun _ => InvalidLineage) (build_refund_tx_unsigned h funding (rr_total_fee_satoshis r)) in
  let* first := vec_get (inputs expected) 0 in
  let expected := mkTx (tx_version expected) (tx_type expected)
    (<[0%nat := mkTxInput (prev_txid first) (prev_vout first) (script_sig input) (u32_max - 2)]> (inputs expected))
    (outputs expected) (lock_time expected) (claim_address expected) (claim_signature expected) in
  if negb (bytes_eqb (txid expected) (txid tx)) then Err InvalidLineage
  else Ok (txid tx, rr_total_fee_satoshis r).

(** [validate]. *)
Definition validate (order : SwapOrder) (swap : SwapState) : res LineageError unit :=
  if zlen (vtr_refund_replacements swap) =? 0 then Ok tt else
  if MAX_REPLACEMENTS <? zlen (vtr_refund_replacements swap) then Err InvalidLineage else
  let* original := ok_or (vtr_refund_tx swap) InvalidLineage in
  let* funding := ok_or (vtr_funding_txid swap) InvalidLineage in
  if negb (bytes_eqb (ss_order_id swap) (order_id order))
     || negb (bool_decide (order_hash_lock order = Some (ss_hash_lock swap)))
     || negb (bool_decide (order_funding_txid order = Some funding))
     || negb (bool_decide (vtr_refund_txid swap = Some (txid original)))
     || negb (zlen (outputs original) =? 1) || negb (zlen (inputs original) =? 1)
  then Err InvalidLineage else
  let* taker := ok_or (taker_address order) InvalidLineage in
  let* h := map_err (fun _ => InvalidLineage)
              (with_expiry (ss_hash_lock swap) taker (maker_address order) (order_expiry order) (vtr_amount order)) in
  let* o := vec_get (outputs original) 0 in
  let* fee := ok_or (checked_sub (vtr_amount order) (value o)) InvalidLineage in
  let* _ := rfold (check_refund h funding order) (txid original, fee) (vtr_refund_replacements swap) in
  Ok tt.

End settlement.
End Settlement.
