(* ===== verification/SettlementFacts.v ===== *)
(** * Settlement of swaps: properties

    What the state reported for a swap says about the chain, which claims are recognised,
    and what a validated chain of refund replacements guarantees. *)

From stdpp Require Import base list gmap strings.
From Stdlib Require Import ZArith Lia.
From S2P Require Import Prelude Script Crypto Engine Standard Merkle Codec Block Address Consensus.
From S2P Require Import Deployments Governance Ledger Supply History Chain Replay Progress Genesis Acceptance Mempool Pool.
From S2P Require Import Wallet WalletFacts Payment Swap SwapFacts Settlement.
Import Scripts Swaps Settlement.

(** ** The chain's promise

    The transactions of the blocks in memory are found by their identifiers. *)

Class Indexed `{Crypto, Bincode} (c : Chain) : Prop :=
  indexed : forall h b tx, get_block_at_height c h = Some b -> tx ∈ transactions b ->
    exists hash h', get_transaction c (txid tx) = Some (tx, hash, h').

Section reached.
Context {C : Crypto} {B : Bincode} {H : Hex} {K : KeyOrder}.
Context (legacy : list (bytes * Z)) (U : Transaction -> Prop) (g : Block) (c0 : Chain).
#[local] Hint Extern 0 Snapshot => exact (N legacy) : typeclass_instances.
Context (ST : setting legacy U g c0).

(** Every chain that grows from the genesis block keeps it. *)
Lemma reached_indexed c : reaches U c0 c -> Indexed c.
Proof.
  intros [bs [Hok _]]%(reached_sound legacy U g c0 ST). destruct (sound_branch legacy U g c0 ST c bs Hok) as (rest & _ & _ & Hh).
  intros h b tx Hb Htx. pose proof (branch_bodies legacy U g c0 c bs) as Hbody.
  destruct Hok as [K1 [M1 M2 M3 M4 M5 M6 M7] K3] eqn:Ek. pose proof (tr_nodup _ _ _ (ho_tracked _ _ _ _ _ Hh)) as Hnd.
  unfold get_block_at_height, vec_at in Hb. destruct (0 <=? h); [|done]. rewrite M1 in Hb.
  change (map block_hash bs) with (block_hash <$> bs) in Hb. rewrite list_lookup_fmap in Hb.
  destruct (bs !! Z.to_nat h) as [x|] eqn:Hx; [|done]. simpl in Hb.
  assert (x = b) as -> by (apply (Hbody x b Hok); [by eapply list_elem_of_lookup_2|exact Hb]).
  apply list_elem_of_lookup in Htx as [o Ho]. exists (block_hash b), (Z.of_nat (Z.to_nat h)).
  unfold get_transaction, block_height. rewrite M6, (proj2 (index_all_spec bs (txid tx) (block_hash b) o Hnd)).
  - cbn. destruct (M2 _ b Hx) as [-> _]. cbn. rewrite Hb. cbn. by rewrite Ho.
  - exists b, tx. split; [by eapply list_elem_of_lookup_2|done].
Qed.

End reached.

(** ** What is reported is on the chain *)

Section observe.
Context {C : Crypto} {B : Bincode} {H : Hex} {MO : MapOrder}.

Lemma confirmation_Some c id s : confirmation c id = Some s ->
  exists tx hash h, get_transaction c id = Some (tx, hash, h) /\
    (6 <= sc_confirmations s -> 6 <= best_height c - h + 1).
Proof.
  unfold confirmation. destruct (get_transaction c id) as [[[tx hash] h]|]; [|done]. simpl. intros [= <-].
  exists tx, hash, h. split; [done|]. cbn [sc_confirmations]. unfold sat_add, sat_sub. lia.
Qed.

Lemma find_map_Some {A X} (f : A -> option X) l x : find_map f l = Some x -> exists a, a ∈ l /\ f a = Some x.
Proof.
  induction l as [|a l IH]; simpl; [done|]. destruct (f a) as [y|] eqn:E.
  - intros [= ->]. exists a. split; [left|done].
  - intros (b & Hb & Hf)%IH. exists b. split; [by right|done].
Qed.

Lemma find_spend_sound c swap funding from id tx : Indexed c -> find_spend c swap funding from = Some (id, tx) ->
  exists hash h, get_transaction c id = Some (tx, hash, h) /\ observes_spend tx funding = true.
Proof.
  intros Hix. unfold find_spend. destruct (List.find _ (omap _ _ ++ _)) as [x|] eqn:Ef.
  - apply List.find_some in Ef as [_ Ef]. simpl. destruct (get_transaction c x) as [[[t hash] h]|] eqn:Et; [|done].
    simpl. intros [= <- <-]. eauto.
  - clear Ef. destruct (find_map _ _) as [x|] eqn:Ef; [|done]. apply find_map_Some in Ef as (h & _ & Ef). simpl.
    destruct (get_block_at_height c h) as [b|] eqn:Eb; [|done]. simpl in Ef.
    destruct (List.find _ (transactions b)) as [t|] eqn:Et; [|done]. simpl in Ef. injection Ef as <-.
    apply List.find_some in Et as [Hin Hsp]. destruct (Hix h b t Eb) as (hash & h' & Hg); [by apply list_elem_of_In|].
    rewrite Hg. simpl. intros [= <- <-]. eauto.
Qed.

(** What the final states of an observation say about the active chain. *)
Definition settled_on_chain (c : Chain) (order : SwapOrder) (swap : SwapState) (funding : bytes) (claimed : bool) : Prop :=
  get_utxo c funding 0 = None /\
  exists id tx hash h, get_transaction c id = Some (tx, hash, h) /\ observes_spend tx funding = true /\
    6 <= best_height c - h + 1 /\ is_claim order swap funding id tx = claimed /\
    (claimed = false -> is_vtr_refund id swap = true).

Definition funded_on_chain (c : Chain) (order : SwapOrder) (funding : bytes) : Prop :=
  is_Some (get_utxo c funding 0) /\
  exists tx hash h script, get_transaction c funding = Some (tx, hash, h) /\ expected_script order = Some script /\
    outputs tx !! 0%nat = Some (mkTxOutput (vtr_amount order) script) /\ 6 <= best_height c - h + 1.

Definition backed (c : Chain) (order : SwapOrder) (swap : SwapState) (s : VtrSettlementState) : Prop :=
  match s with
  | VClaimed => exists funding, vtr_funding_txid swap = Some funding /\ settled_on_chain c order swap funding true
  | VRefunded => exists funding, vtr_funding_txid swap = Some funding /\ settled_on_chain c order swap funding false
  | VFunded => exists funding, vtr_funding_txid swap = Some funding /\ funded_on_chain c order funding
  | _ => True
  end.

Lemma spend_backed c order swap funding from id tx : Indexed c ->
  vtr_funding_txid swap = Some funding -> get_utxo c funding 0 = None ->
  find_spend c swap funding from = Some (id, tx) ->
  backed c order swap
    (let settled := match confirmation c id with Some s => SETTLEMENT_CONFIRMATIONS <=? sc_confirmations s | None => false end in
     if is_claim order swap funding id tx then if settled then VClaimed else ClaimConfirming
     else if is_vtr_refund id swap then if settled then VRefunded else RefundConfirming
     else SpentElsewhere).
Proof.
  intros Hix Hf Hu (hash & h & Hg & Hsp)%find_spend_sound; [|done]. cbv zeta.
  destruct (confirmation c id) as [s|] eqn:Es; [|by repeat case_match].
  destruct (Z.leb_spec SETTLEMENT_CONFIRMATIONS (sc_confirmations s)) as [Hc|]; [|by repeat case_match].
  apply confirmation_Some in Es as (tx' & hash' & h' & Hg' & Hh). rewrite Hg in Hg'. injection Hg' as <- <- <-.
  specialize (Hh Hc). destruct (is_claim order swap funding id tx) eqn:Ecl.
  - exists funding. split; [done|]. split; [done|]. by exists id, tx, hash, h.
  - destruct (is_vtr_refund id swap) eqn:Er; [|done]. exists funding. split; [done|]. split; [done|]. by exists id, tx, hash, h.
Qed.

(** C16: what is reported as settled is settled.  When the observation of a swap reports it
    funded, the first output of the funding transaction on the active chain locks the
    agreed amount under the contract's script, it is unspent, and it has six
    confirmations.  When it reports the swap claimed or refunded, the output is gone, and
    a transaction of the active chain with six confirmations spends it, which is a claim, or else a refund the journal records. *)
Theorem settlement_backed (c : Chain) (m : Mempool) (order : SwapOrder) (swap : SwapState) (obs : VtrSwapObservation) :
  Indexed c -> observe_vtr c m order swap = Ok obs -> backed c order swap (vo_state obs).
Proof.
  intros Hix. unfold observe_vtr. cbv zeta. destruct (metadata_agrees order swap); simpl; [|by intros [= <-]].
  destruct (vtr_funding_txid swap) as [f|] eqn:Ef; [|by intros [= <-]].
  destruct (expected_script order) as [script|] eqn:Es; [|by intros [= <-]].
  destruct (match get_transaction c f with Some _ => _ | None => _ end) as [tx|] eqn:Et;
    [|intros [= <-]; by destruct (is_some _)].
  destruct (outputs tx) as [|o os] eqn:Eo; [by intros [= <-]|].
  destruct ((value o =? vtr_amount order) && bytes_eqb (script_pubkey o) script) eqn:Ep; simpl; [|by intros [= <-]].
  destruct (confirmation c f) as [fc|] eqn:Efc; [|by intros [= <-]].
  destruct (get_utxo c f 0) as [u|] eqn:Eu.
  - destruct (get_transactions m) as [txs| |]; simpl; try done.
    destruct (List.find _ txs) as [t|]; [intros [= <-]; cbn [vo_state]; by repeat case_match|].
    intros [= <-]. cbn [vo_state]. destruct (is_some (vtr_claim_tx swap)), (is_some (vtr_refund_tx swap)); try done.
    destruct (Z.leb_spec SETTLEMENT_CONFIRMATIONS (sc_confirmations fc)) as [Hc|]; [|done].
    apply confirmation_Some in Efc as (tx' & hash & h & Hg & Hh). rewrite Hg in Et. injection Et as ->.
    apply andb_true_iff in Ep as [E1%Z.eqb_eq E2%bytes_eqb_eq].
    exists f. split; [done|]. split; [by eexists|]. exists tx, hash, h, script. rewrite Eo. destruct o; simpl in *; subst. auto.
  - destruct (find_spend c swap f (sc_height fc)) as [[id t]|] eqn:Esp; [|by intros [= <-]].
    intros [= <-]. cbn [vo_state]. by eapply spend_backed.
Qed.

End observe.

(** ** Which claims are recognised *)

Section recognise.
Context {C : Crypto} {CL : CryptoLaws C} {B58 : Base58Laws C} {S : Secp} {SL : SecpLaws C S}.
Context {B : Bincode} {H : Hex} {N : Snapshot}.

Lemma vec_at_app {A} (l : list A) x r : vec_at (l ++ x :: r) (zlen l) = Some x.
Proof. unfold vec_at. rewrite (proj2 (Z.leb_le _ _)) by apply zlen_nonneg. unfold zlen. by rewrite Nat2Z.id, list_lookup_middle. Qed.

Lemma vec_last_app {A} (l : list A) x : vec_last (l ++ [x]) = Some x.
Proof. apply (vec_last_push l x). Qed.

(** The test on a script that ends like a claim, by its last byte. *)
Lemma preimage_tail funding lock pre preimage b rest : zlen preimage = 32 ->
  claim_preimage_matches (mkTx 1 AtomicSwap [mkTxInput funding 0 (pre ++ [0x20] ++ preimage ++ [b]) rest] [] 0 None None)
    funding lock = (b =? 0x51) && bytes_eqb (sha256 preimage) lock.
Proof.
  intros Hz. unfold claim_preimage_matches. cbn [inputs List.find]. unfold spends_funding. cbn [prev_txid prev_vout].
  rewrite bytes_eqb_refl. change (0 =? 0) with true. cbn [andb script_sig].
  assert (zlen (pre ++ [0x20] ++ preimage ++ [b]) = zlen pre + 34) as ->.
  { rewrite !zlen_app, Hz. change (zlen [0x20]) with 1. change (zlen [b]) with 1. lia. }
  pose proof (zlen_nonneg pre). rewrite (proj2 (Z.ltb_ge _ _)) by lia. cbn [orb].
  replace (zlen pre + 34 - 34) with (zlen pre) by lia. 
  assert (vec_at (pre ++ [0x20] ++ preimage ++ [b]) (zlen pre) = Some 0x20) as -> by apply vec_at_app.
  rewrite bool_decide_eq_true_2 by done. cbn [negb orb].
  assert (pre ++ [0x20] ++ preimage ++ [b] = (pre ++ [0x20]) ++ preimage ++ [b]) as -> by by rewrite <- (assoc_L (++)).
  rewrite (assoc_L (++) (pre ++ [0x20])), vec_last_app.
  destruct (Z.eqb_spec b 0x51) as [->|Hb].
  - rewrite bool_decide_eq_true_2 by done. cbn [negb andb]. f_equal.
    replace (slice _ _ _) with preimage; [done|]. rewrite <- (assoc_L (++) (pre ++ [0x20])). unfold slice.
    replace (Z.to_nat (zlen pre + 34 - 33)) with (length (pre ++ [0x20])).
    2:{ rewrite length_app. unfold zlen. simpl. lia. }
    rewrite drop_app_length. replace (Z.to_nat _) with (length preimage) by (unfold zlen in *; lia). by rewrite take_app_length.
  - rewrite bool_decide_eq_false_2 by congruence. done.
Qed.

(** Only the first input that spends the output matters. *)
Lemma claim_matches_input h funding preimage fee taker sg lock :
  claim_preimage_matches (claim_tx h funding preimage fee taker sg) funding lock =
  claim_preimage_matches (mkTx 1 AtomicSwap [mkTxInput funding 0 sg u32_max] [] 0 None None) funding lock.
Proof. done. Qed.

(** A claim that selects the branch with another true value. *)
Definition odd_claim_sig (sig pubkey preimage : bytes) : bytes :=
  [as_u8 (zlen sig)] ++ sig ++ [as_u8 (zlen pubkey)] ++ pubkey ++ [0x20] ++ preimage ++ [0x52].

Lemma run_odd_claim v k msg preimage : secret_ok k = true -> is_bytes preimage -> zlen preimage = 32 ->
  run (Engine.new v) (odd_claim_sig (signature k msg) (public_key k) preimage) =
    Ok (set_stack (Engine.new v) [signature k msg; public_key k; preimage; [2]]) /\
  is_bytes (odd_claim_sig (signature k msg) (public_key k) preimage) /\
  zlen (odd_claim_sig (signature k msg) (public_key k) preimage) <= MAX_SCRIPT_SIZE.
Proof.
  intros Hk Hb Hz. pose proof (signature_len k msg). pose proof (public_key_len k Hk) as Hpk. pose proof (public_key_bytes k Hk).
  assert (is_bytes (signature k msg)).
  { unfold signature, vec_push. apply Forall_app. split; [apply sign_bytes|by apply Forall_singleton]. }
  assert (odd_claim_sig (signature k msg) (public_key k) preimage =
    bytes_of [PushData (signature k msg); PushData (public_key k); PushData preimage; Opcode 0x52]) as E.
  { unfold odd_claim_sig, bytes_of, as_u8. rewrite !Z.mod_small by lia. cbn [map concat item_bytes].
    rewrite !push_bytes_short, Hpk, Hz by lia. cbn [app]. rewrite <- ?app_assoc. cbn [app]. rewrite <- ?app_assoc. done. }
  split_and!.
  - rewrite E, run_bytes_of.
    2:{ repeat (apply Forall_cons; split); try constructor; unfold MAX_PUSH_SIZE, plain_byte, is_byte; try done; lia. }
    cbn [rfold]. rewrite run_item_push by done. cbn [rbind]. rewrite run_item_push by done. cbn [rbind].
    rewrite run_item_push by done. cbn [rbind]. rewrite run_item_op by done. done.
  - unfold odd_claim_sig, as_u8. rewrite !Z.mod_small by lia.
    repeat (apply Forall_app; split); try done; try (by apply sign_bytes); apply Forall_singleton; unfold is_byte; lia.
  - unfold odd_claim_sig. rewrite !zlen_app, Hpk, Hz, !zlen_cons. change (zlen []) with 0. unfold MAX_SCRIPT_SIZE. lia.
Qed.

(** a claim can go unrecognised.  The claim the node builds is recognised and its
    refund is not taken for one.  But the taker can choose the branch with any true
    value: a claim with [OP_2] in place of [OP_1] is accepted by the chain all the same, and the
    observation does not see it as a claim. *)
Theorem odd_claim_missed (h : Htlc) (c : Chain) (s fid preimage : bytes) (u : Utxo) (taker maker : bytes)
    (fee height time : Z) :
  secret_ok taker = true -> recipient h = key_address taker -> refund_address h = key_address maker ->
  is_bytes preimage -> zlen preimage = 32 -> hash_lock h = sha256 preimage -> 0 <= expiry h < 2 ^ 31 ->
  build_script h = Ok s -> utxo_set (state (main c)) !! ((fid, 0) : OutPoint) = Some u -> utxo_script u = s ->
  let sig := signature taker (sighash (claim_tx h fid preimage fee taker []) 0 s) in
  claim_preimage_matches (claim_tx h fid preimage fee taker (claim_script_sig sig (public_key taker) preimage)) fid (hash_lock h) = true /\
  let tx := claim_tx h fid preimage fee taker (odd_claim_sig sig (public_key taker) preimage) in
  is_ok (verify_tx_scripts c tx height time) = true /\ claim_preimage_matches tx fid (hash_lock h) = false.
Proof.
  intros Hk Hr Hf Hb Hz Hl Ht Hs Hu Hus sig.
  assert (between h taker (Core.hash160 (public_key maker)) s) as BW.
  { apply between_keys; try done; rewrite Hl; [apply sha256_bytes|unfold zlen; by rewrite sha256_len]. }
  destruct (between_script _ _ _ _ BW) as [Es Hlen]. destruct (bw_lock _ _ _ _ BW) as [L1 L2]. split.
  { rewrite claim_matches_input, Hl. unfold claim_script_sig. rewrite !(assoc_L (++)).
    rewrite <- (assoc_L (++) _ preimage), <- (assoc_L (++) _ [0x20]). rewrite preimage_tail by done. by rewrite bytes_eqb_refl. }
  intros tx. destruct (run_odd_claim (input_env tx (mkTxInput fid 0 (odd_claim_sig sig (public_key taker) preimage) u32_max) u height time)
    taker (sighash (claim_tx h fid preimage fee taker []) 0 s) preimage Hk Hb Hz) as (Hrun & Hsb & Hsz). split.
  - erewrite (single_input_verify c tx _ u); [|reflexivity|reflexivity|exact Hu|exact Hsz|by rewrite Hus].
    rewrite Hus, Es at 1. apply swap_script_spend; try done; try apply Core.hash160_bytes; try apply hash160_zlen.
    eexists _, [2], _. split; [exact Hrun|]. split; [by apply pop_snoc with (st := [sig; public_key taker; preimage])|].
    change (is_true [2]) with true. cbv iota. eexists preimage, _, []. split; [by apply pop_snoc with (st := [sig; public_key taker])|].
    split_and!; [done..|]. apply signed_unlocks; [done|]. cbn [stack set_stack app env Engine.new input_env tx_hash].
    rewrite Hus. unfold tx. by rewrite claim_sighash.
  - unfold tx. rewrite claim_matches_input. unfold odd_claim_sig. rewrite !(assoc_L (++)).
    rewrite <- (assoc_L (++) _ preimage), <- (assoc_L (++) _ [0x20]). by rewrite preimage_tail.
Qed.

End recognise.

(** ** Replacements of a refund *)

Section lineage.
Context {C : Crypto} {B : Bincode}.

(** The refund a replacement must be: the contract's, with the replacement's fee. *)
Definition replacement_tx (h : Htlc) (funding p sg : bytes) (fee : Z) : Transaction :=
  mkTx 1 AtomicSwap [mkTxInput funding 0 sg (u32_max - 2)] [mkTxOutput (sat_sub (amount h) fee) p] (expiry h)
    (Some (refund_address h)) None.

Record replacement_ok (h : Htlc) (funding : bytes) (order : SwapOrder) (parent : bytes) (fee : Z) (r : VtrRefundReplacement) : Prop := {
  ro_parent : rr_replaces_txid r = parent;
  ro_fee : fee < rr_total_fee_satoshis r;
  ro_time : order_expiry order <= rr_approved_at r;
  ro_dust : 546 <= vtr_amount order - rr_total_fee_satoshis r;
  ro_tx : exists p sg, p2pkh_script (refund_address h) = Some p /\
    txid (rr_transaction r) = txid (replacement_tx h funding p sg (rr_total_fee_satoshis r));
}.

Lemma check_refund_Ok h funding order parent fee r s :
  check_refund h funding order (parent, fee) r = Ok s ->
  replacement_ok h funding order parent fee r /\ s = (txid (rr_transaction r), rr_total_fee_satoshis r).
Proof.
  unfold check_refund. destruct (_ || _ || _ || _ || _) eqn:G; [done|].
  repeat (apply orb_false_iff in G as [G ?]). intros E.
  destruct (vec_get (inputs (rr_transaction r)) 0) as [input| |]; simpl in E; try done.
  destruct (zlen (script_sig input) =? 0); [done|]. unfold build_refund_tx_unsigned in E.
  destruct (p2pkh_script (refund_address h)) as [p|] eqn:Ep; simpl in E; [|done].
  destruct (bytes_eqb _ (txid (rr_transaction r))) eqn:Et; simpl in E; [|done]. injection E as <-. split; [|done].
  apply bytes_eqb_eq in Et. split.
  - apply bytes_eqb_eq. by apply negb_false_iff.
  - by apply Z.leb_gt.
  - by apply Z.ltb_ge.
  - unfold checked_sub in *. destruct (_ <=? vtr_amount order); [|done]. by apply Z.ltb_ge.
  - exists p, (script_sig input). split; [done|]. by rewrite <- Et.
Qed.

(** The list of replacements is a chain that starts at [parent]. *)
Fixpoint lineage (h : Htlc) (funding : bytes) (order : SwapOrder) (parent : bytes) (fee : Z) (rs : list VtrRefundReplacement) : Prop :=
  match rs with
  | [] => True
  | r :: rs => replacement_ok h funding order parent fee r /\
               lineage h funding order (txid (rr_transaction r)) (rr_total_fee_satoshis r) rs
  end.

Lemma lineage_checked h funding order rs : forall parent fee s,
  rfold (check_refund h funding order) (parent, fee) rs = Ok s -> lineage h funding order parent fee rs.
Proof.
  induction rs as [|r rs IH]; intros parent fee s E; [done|].
  cbn [rfold] in E. destruct (check_refund h funding order (parent, fee) r) as [s'| |] eqn:Er; simpl in E; try done.
  apply check_refund_Ok in Er as [Hr ->]. split; [done|]. by eapply IH.
Qed.

Lemma lineage_fees h funding order rs : forall parent fee, lineage h funding order parent fee rs ->
  (forall i r, rs !! i = Some r -> fee < rr_total_fee_satoshis r) /\
  forall i j r r', (i < j)%nat -> rs !! i = Some r -> rs !! j = Some r' -> rr_total_fee_satoshis r < rr_total_fee_satoshis r'.
Proof.
  induction rs as [|x rs IH]; intros parent fee Hl; [done|]. destruct Hl as [Hx Hl]. destruct (IH _ _ Hl) as [I1 I2].
  pose proof (ro_fee _ _ _ _ _ _ Hx). split.
  - intros [|i] r Hr; simpl in Hr; [by injection Hr as <-|]. specialize (I1 i r Hr). lia.
  - intros [|i] [|j] r r' Hij Hr Hr'; simpl in *; try lia; [injection Hr as <-; by eapply I1|]. eapply (I2 i j); [lia|done..].
Qed.

Lemma lineage_each h funding order rs : forall parent fee i r, lineage h funding order parent fee rs -> rs !! i = Some r ->
  exists parent' fee', replacement_ok h funding order parent' fee' r /\
    parent' = match i with O => parent | S k => match rs !! k with Some q => txid (rr_transaction q) | None => parent end end.
Proof.
  induction rs as [|x rs IH]; intros parent fee i r Hl Hr; [done|]. destruct Hl as [Hx Hl]. destruct i as [|i]; simpl in Hr.
  - injection Hr as <-. eauto.
  - destruct (IH _ _ i r Hl Hr) as (p' & f' & Hok & ->). eexists _, _. split; [exact Hok|].
    destruct i as [|k]; [done|]. simpl. destruct (rs !! k) as [q|] eqn:Eq; [done|].
    apply lookup_lt_Some in Hr. apply lookup_ge_None in Eq. lia.
Qed.

(** a validated chain of refund replacements is one.  There are at most sixteen; each
    replaces the one before it, the first the original refund; the fees rise strictly;
    each was approved after the expiry, leaves at least the dust limit, and is the refund
    of the contract the order describes, with its fee. *)
Theorem refund_lineage_sound (order : SwapOrder) (swap : SwapState) (r : VtrRefundReplacement) (i : nat) :
  validate order swap = Ok tt -> vtr_refund_replacements swap !! i = Some r ->
  zlen (vtr_refund_replacements swap) <= MAX_REPLACEMENTS /\
  (forall j r', (i < j)%nat -> vtr_refund_replacements swap !! j = Some r' ->
     rr_total_fee_satoshis r < rr_total_fee_satoshis r') /\
  exists original funding taker h parent fee, vtr_refund_tx swap = Some original /\ vtr_funding_txid swap = Some funding /\
    taker_address order = Some taker /\
    with_expiry (ss_hash_lock swap) taker (maker_address order) (order_expiry order) (vtr_amount order) = Ok h /\
    replacement_ok h funding order parent fee r /\
    parent = match i with
             | O => txid original
             | S k => match vtr_refund_replacements swap !! k with Some q => txid (rr_transaction q) | None => txid original end
             end.
Proof.
  intros E Hr. unfold validate in E.
  destruct (Z.eqb_spec (zlen (vtr_refund_replacements swap)) 0) as [E0|].
  { destruct (vtr_refund_replacements swap); [done|]. unfold zlen in E0. simpl in E0. lia. }
  destruct (Z.ltb_spec MAX_REPLACEMENTS (zlen (vtr_refund_replacements swap))) as [|Hmax]; [done|].
  destruct (vtr_refund_tx swap) as [original|]; simpl in E; [|done].
  destruct (vtr_funding_txid swap) as [funding|]; simpl in E; [|done].
  destruct (_ || _ || _ || _ || _ || _); [done|].
  destruct (taker_address order) as [taker|]; simpl in E; [|done].
  destruct (with_expiry _ _ _ _ _) as [h| |] eqn:Eh; simpl in E; try done.
  destruct (vec_get (outputs original) 0) as [o| |]; simpl in E; try done.
  destruct (checked_sub _ _) as [fee|]; simpl in E; [|done].
  destruct (rfold _ _ _) as [s| |] eqn:Ef; simpl in E; try done. apply lineage_checked in Ef.
  split; [done|]. split; [intros j r' Hij Hr'; by eapply (lineage_fees h funding order)|].
  destruct (lineage_each _ _ _ _ _ _ i r Ef Hr) as (p' & f' & Hok & Hp). by exists original, funding, taker, h, p', f'.
Qed.

End lineage.
