(* ===== verification/SwapPolicy.v ===== *)
(** * Swap policy

    Models [vtorrent-wallet-service/src/swap_policy.rs], the check a taker makes before
    committing bitcoins to a swap, and the functions of
    [vtorrent-wallet-service/src/lib.rs] that build and sign the claim and the refund of
    the coins locked on this chain.  The functions for the bitcoin side are not modelled. *)

From stdpp Require Import base list gmap strings.
From Stdlib Require Import ZArith Lia.
From S2P Require Import Prelude Script Crypto Engine Standard Merkle Codec Block Address Consensus.
From S2P Require Import Deployments Governance Ledger Supply Chain Mempool Pool Wallet WalletFacts Payment Swap SwapFacts.
Import Scripts Swaps.

Module SwapPolicy.

(** The errors are strings. *)
Inductive PolicyError : Type := Refused (message : string).

Definition SWAP_CLAIM_SAFETY_MARGIN : Z := 6 * 3600.
Definition MIN_BTC_CLAIM_WINDOW : Z := 3600.
Definition MIN_BTC_SWAP_WINDOW : Z := MIN_BTC_CLAIM_WINDOW.
Definition VTR_SWAP_CONFIRMATIONS : Z := 6.

(** [vtorrent_btc::htlc::DEFAULT_HTLC_LOCKTIME]. *)
Definition BTC_DEFAULT_HTLC_LOCKTIME : Z := 48 * 3600.

Record VerifiedSwapFunding : Type := mkVerified {
  vf_order_id : bytes;
  vf_hash_lock : bytes;
  vf_maker_btc_address : bytes;
  vf_btc_amount : Z;
  vf_btc_expiry : Z;
}.

Definition btc_swap_expiry (vtr_expiry now : Z) : res PolicyError Z :=
  if u32_max <? now then Err (Refused "Swap clock exceeds u32::MAX") else
  if now <? 500000000 then Err (Refused "Swap clock must be a Unix timestamp, not a block height") else
  let* latest := ok_or (checked_sub vtr_expiry SWAP_CLAIM_SAFETY_MARGIN)
                   (Refused "VTR expiry cannot accommodate the claim safety margin") in
  let* minimum := ok_or (checked_add u32_max now MIN_BTC_SWAP_WINDOW) (Refused "BTC swap expiry overflow") in
  if latest <? minimum then Err (Refused "VTR expiry is too close to fund BTC safely")
  else Ok (Z.min latest (sat_add u32_max now BTC_DEFAULT_HTLC_LOCKTIME)).

Section policy.
Context {C : Crypto} {H : Hex}.

Definition swap_error {A} (message : string) (r : res SwapError A) : res PolicyError A :=
  map_err (fun _ => Refused message) r.

Definition verify_output (order : SwapOrder) (utxo : Utxo) (tip_height now : Z) : res PolicyError VerifiedSwapFunding :=
  if negb (bytes_eqb (target_asset order) [66; 84; 67]) || (target_amount order <=? BTC_HTLC_FEE_SATOSHIS + 546)
     || (vtr_amount order <=? VTR_HTLC_FEE_SATOSHIS)
  then Err (Refused "Swap amounts must exceed each chain's claim/refund fee") else
  let* hash_lock := ok_or (order_hash_lock order) (Refused "Order has no hash lock") in
  let* taker := ok_or (taker_address order) (Refused "Order has no taker address") in
  let* maker_btc_address := ok_or (maker_btc_address order) (Refused "Order has no maker BTC address") in
  let* htlc := swap_error "HTLC" (with_expiry hash_lock taker (maker_address order) (order_expiry order) (vtr_amount order)) in
  let mismatch := Err (Refused "Confirmed VTR funding output does not match the order contract") in
  if negb (bool_decide (Some (utxo_txid utxo) = order_funding_txid order)) || negb (utxo_vout utxo =? 0)
     || negb (utxo_value utxo =? vtr_amount order) then mismatch else
  let* script := swap_error "script" (build_script htlc) in
  if negb (bytes_eqb (utxo_script utxo) script) then mismatch else
  let confirmations := match checked_sub tip_height (utxo_height utxo) with Some depth => depth + 1 | None => 0 end in
  if confirmations <? VTR_SWAP_CONFIRMATIONS then Err (Refused "VTR funding requires more confirmations") else
  let* btc_expiry := btc_swap_expiry (order_expiry order) now in
  Ok (mkVerified (hex_encode (order_id order)) hash_lock maker_btc_address (target_amount order) btc_expiry).

Definition verify_vtr_swap_funding (c : Chain) (order : SwapOrder) (now : Z) : res PolicyError VerifiedSwapFunding :=
  let* funding_txid := ok_or (order_funding_txid order) (Refused "Order has no VTR funding txid") in
  let* utxo := ok_or (get_utxo c funding_txid 0) (Refused "VTR funding output is unconfirmed, missing, or already spent") in
  verify_output order utxo (best_height c) now.

(** ** Claims and refunds *)

Context {S : Secp} {B : Bincode}.

Record VtrClaimParams : Type := mkClaimParams {
  cp_hash_lock : bytes;
  cp_taker_address : bytes;
  cp_maker_address : bytes;
  cp_expiry : Z;
  cp_vtr_amount : Z;
  cp_funding_txid : bytes;
  cp_preimage : bytes;
  cp_taker_wif : bytes;
}.

Definition sign_error {A} (r : res Wallet.WalletError A) : res PolicyError A :=
  map_err (fun _ => Refused "Unable to sign") r.

Definition build_vtr_htlc_claim (p : VtrClaimParams) : res PolicyError Transaction :=
  let* htlc := swap_error "Unable to reconstruct HTLC"
    (with_expiry (cp_hash_lock p) (cp_taker_address p) (cp_maker_address p) (cp_expiry p) (cp_vtr_amount p)) in
  let* unsigned := swap_error "Unable to build VTR claim tx"
    (build_claim_tx_unsigned htlc (cp_funding_txid p) (cp_preimage p) VTR_HTLC_FEE_SATOSHIS) in
  let* htlc_script := swap_error "Invalid HTLC addresses" (build_script htlc) in
  let* (sig, pubkey) := sign_error (Wallet.sign_input_over_subscript unsigned 0 htlc_script (cp_taker_wif p)) in
  swap_error "index" (set_first_sig (claim_script_sig sig pubkey (cp_preimage p)) unsigned).

Record VtrRefundParams : Type := mkRefundParams {
  rp_hash_lock : bytes;
  rp_taker_address : bytes;
  rp_maker_address : bytes;
  rp_expiry : Z;
  rp_vtr_amount : Z;
  rp_funding_txid : bytes;
  rp_maker_wif : bytes;
}.

(** [unsigned.inputs[0].sequence = u32::MAX - 2]. *)
Definition set_replaceable (tx : Transaction) : res PolicyError Transaction :=
  let* input := vec_get (inputs tx) 0 in
  Ok (mkTx (tx_version tx) (tx_type tx)
        (<[0%nat := mkTxInput (prev_txid input) (prev_vout input) (script_sig input) (u32_max - 2)]> (inputs tx))
        (outputs tx) (lock_time tx) (claim_address tx) (claim_signature tx)).

Definition build_vtr_refund_with_fee (p : VtrRefundParams) (total_fee : Z) (replaceable : bool) : res PolicyError Transaction :=
  if match checked_sub (rp_vtr_amount p) total_fee with Some value => value <? 546 | None => true end
  then Err (Refused "Refund fee leaves a dust or missing output") else
  let* htlc := swap_error "Unable to reconstruct HTLC"
    (with_expiry (rp_hash_lock p) (rp_taker_address p) (rp_maker_address p) (rp_expiry p) (rp_vtr_amount p)) in
  let* unsigned := swap_error "Unable to build VTR refund tx" (build_refund_tx_unsigned htlc (rp_funding_txid p) total_fee) in
  let* unsigned := if replaceable then set_replaceable unsigned else Ok unsigned in
  let* htlc_script := swap_error "Invalid HTLC addresses" (build_script htlc) in
  let* (sig, pubkey) := sign_error (Wallet.sign_input_over_subscript unsigned 0 htlc_script (rp_maker_wif p)) in
  swap_error "index" (set_first_sig (refund_script_sig sig pubkey) unsigned).

Definition build_vtr_htlc_refund (p : VtrRefundParams) : res PolicyError Transaction :=
  build_vtr_refund_with_fee p VTR_HTLC_FEE_SATOSHIS false.

Definition build_vtr_htlc_refund_replacement (p : VtrRefundParams) (total_fee : Z) : res PolicyError Transaction :=
  build_vtr_refund_with_fee p total_fee true.

End policy.
End SwapPolicy.
