(* ===== verification/SwapPolicyFacts.v ===== *)
(** * Swap policy: properties

    What a taker can rely on once the funding of a swap has been verified, where that
    verification is too weak, and that the refunds the wallet service builds continue the
    chain of replacements. *)

From stdpp Require Import base list gmap strings.
From Stdlib Require Import ZArith Lia.
From S2P Require Import Prelude Script Crypto Engine Standard Merkle Codec Block Address Consensus.
From S2P Require Import Deployments Governance Ledger Supply Chain Mempool Pool Wallet WalletFacts Payment.
From S2P Require Import Swap SwapFacts Settlement SettlementFacts SwapPolicy.
Import Scripts Swaps Settlement SwapPolicy.

Section policy.
Context {C : Crypto} {CL : CryptoLaws C} {B58 : Base58Laws C} {S : Secp} {SL : SecpLaws C S}.
Context {B : Bincode} {BL : BincodeLaws B} {H : Hex} {N : Snapshot} {MO : MapOrder} {ML : MapOrderLaws MO}.

Lemma btc_swap_expiry_Ok vtr_expiry now t : btc_swap_expiry vtr_expiry now = Ok t ->
  500000000 <= now /\ now + MIN_BTC_SWAP_WINDOW <= t /\ t + SWAP_CLAIM_SAFETY_MARGIN <= vtr_expiry /\
  t <= now + BTC_DEFAULT_HTLC_LOCKTIME.
Proof.
  unfold btc_swap_expiry, checked_sub, checked_add, sat_add. destruct (Z.ltb_spec u32_max now); [done|].
  destruct (Z.ltb_spec now 500000000); [done|]. destruct (Z.leb_spec SWAP_CLAIM_SAFETY_MARGIN vtr_expiry); [|done]. cbn [ok_or rbind].
  destruct (Z.leb_spec (now + MIN_BTC_SWAP_WINDOW) u32_max); [|done]. cbn [ok_or rbind].
  destruct (Z.ltb_spec (vtr_expiry - SWAP_CLAIM_SAFETY_MARGIN) (now + MIN_BTC_SWAP_WINDOW)); [done|]. intros [= <-].
  unfold MIN_BTC_SWAP_WINDOW, MIN_BTC_CLAIM_WINDOW, SWAP_CLAIM_SAFETY_MARGIN, BTC_DEFAULT_HTLC_LOCKTIME in *. lia.
Qed.

(** The output that was verified. *)
Record verified (c : Chain) (order : SwapOrder) (now : Z) (t : VerifiedSwapFunding) (lock taker fid s : bytes) (u : Utxo) : Prop := {
  vd_lock : order_hash_lock order = Some lock;
  vd_taker : taker_address order = Some taker;
  vd_fid : order_funding_txid order = Some fid;
  vd_utxo : utxo_set (state (main c)) !! ((fid, 0) : OutPoint) = Some u;
  vd_contract : with_expiry lock taker (maker_address order) (order_expiry order) (vtr_amount order) =
    Ok (mkHtlc lock taker (maker_address order) (order_expiry order) (vtr_amount order) None);
  vd_build : build_script (mkHtlc lock taker (maker_address order) (order_expiry order) (vtr_amount order) None) = Ok s;
  vd_script : utxo_script u = s;
  vd_value : utxo_value u = vtr_amount order;
  vd_depth : 6 <= best_height c - utxo_height u + 1;
  vd_amount : VTR_HTLC_FEE_SATOSHIS < vtr_amount order;
  vd_expiry : btc_swap_expiry (order_expiry order) now = Ok (vf_btc_expiry t);
}.

Lemma verify_output_Ok c order u now t fid : order_funding_txid order = Some fid ->
  utxo_set (state (main c)) !! ((fid, 0) : OutPoint) = Some u ->
  verify_output order u (best_height c) now = Ok t -> exists lock taker s, verified c order now t lock taker fid s u.
Proof.
  intros Hf Hu. unfold verify_output, swap_error. destruct (_ || _ || _) eqn:G; [done|].
  apply orb_false_iff in G as [_ G%Z.leb_gt].
  destruct (order_hash_lock order) as [lock|] eqn:El; [|done]. destruct (taker_address order) as [taker|] eqn:Et; [|done].
  destruct (maker_btc_address order); [|done]. cbn [ok_or rbind].
  destruct (with_expiry lock taker _ _ _) as [h| |] eqn:Eh; cbn [map_err rbind]; try done.
  assert (h = mkHtlc lock taker (maker_address order) (order_expiry order) (vtr_amount order) None) as ->.
  { unfold with_expiry in Eh. by repeat case_match; simplify_eq. }
  destruct (_ || _ || _) eqn:G2; [done|]. apply orb_false_iff in G2 as [_ Hv%negb_false_iff%Z.eqb_eq].
  destruct (build_script _) as [s| |] eqn:Es; cbn [map_err rbind]; try done.
  destruct (bytes_eqb (utxo_script u) s) eqn:Eq; [|done]. apply bytes_eqb_eq in Eq. cbn [negb].
  destruct (Z.ltb_spec (match checked_sub (best_height c) (utxo_height u) with Some d => d + 1 | None => 0 end) VTR_SWAP_CONFIRMATIONS)
    as [|Hd]; [done|].
  destruct (btc_swap_expiry _ _) as [e| |] eqn:Ee; cbn [rbind]; try done. intros [= <-]. exists lock, taker, s. split; try done.
  unfold checked_sub, VTR_SWAP_CONFIRMATIONS in Hd. destruct (utxo_height u <=? best_height c); lia.
Qed.

Lemma verify_funding_Ok c order now t : verify_vtr_swap_funding c order now = Ok t ->
  exists lock taker fid s u, verified c order now t lock taker fid s u.
Proof.
  unfold verify_vtr_swap_funding, get_utxo. destruct (order_funding_txid order) as [fid|] eqn:Ef; [|done]. cbn [ok_or rbind].
  destruct (utxo_set _ !! _) as [u|] eqn:Eu; [|done]. cbn [ok_or rbind]. intros E.
  destruct (verify_output_Ok c order u now t fid Ef Eu E) as (lock & taker & s & Hv). by exists lock, taker, fid, s, u.
Qed.

(** The parameters the claim is built from. *)
Definition claim_of_order (order : SwapOrder) (taker fid preimage wif : bytes) : VtrClaimParams :=
  mkClaimParams (sha256 preimage) taker (maker_address order) (order_expiry order) (vtr_amount order) fid preimage wif.

(** The claim the service builds is the signed claim of the contract. *)
Lemma service_claim h mh s wif key fid preimage order : between h (inner key) mh s -> from_wif wif = Ok key ->
  hash_lock h = sha256 preimage ->
  with_expiry (sha256 preimage) (key_address (inner key)) (maker_address order) (order_expiry order) (vtr_amount order) = Ok h ->
  build_vtr_htlc_claim (claim_of_order order (key_address (inner key)) fid preimage wif) =
    Ok (claim_tx h fid preimage VTR_HTLC_FEE_SATOSHIS (inner key)
          (claim_script_sig (signature (inner key) (sighash (claim_tx h fid preimage VTR_HTLC_FEE_SATOSHIS (inner key) []) 0 s))
             (public_key (inner key)) preimage)).
Proof.
  intros BW Hw Hl Eh. destruct (claim_built h _ _ s wif key fid preimage VTR_HTLC_FEE_SATOSHIS BW Hw eq_refl Hl) as (E1 & E2 & _).
  unfold build_vtr_htlc_claim, claim_of_order, swap_error, sign_error.
  cbn [cp_hash_lock cp_taker_address cp_maker_address cp_expiry cp_vtr_amount cp_funding_txid cp_preimage cp_taker_wif].
  rewrite Eh. cbn [map_err rbind]. rewrite E1. cbn [map_err rbind]. rewrite (bw_script _ _ _ _ BW). cbn [map_err rbind].
  rewrite E2. done.
Qed.

Lemma verified_between c order now t lock key fid s u b :
  verified c order now t lock (key_address (inner key)) fid s u ->
  is_bytes lock -> zlen lock = 32 -> Address.parse (maker_address order) = Ok b -> is_bytes (addr_hash b) ->
  between (mkHtlc lock (key_address (inner key)) (maker_address order) (order_expiry order) (vtr_amount order) None) (inner key)
    (addr_hash b) s.
Proof.
  intros V Hb Hz Hp Hpb. split; try done.
  - cbn [refund_address]. unfold address_to_hash160. by rewrite Hp.
  - split; [done|by eapply parse_hash_len].
  - apply (vd_build _ _ _ _ _ _ _ _ _ V).
Qed.


(** C37: the verification lets amounts through that neither party can move.  It asks for
    more than the fee, but not for the dust limit on top: with less than 546 satoshis above
    the fee the claim is turned down by every pool, and the wallet service does not build
    the refund. *)
Theorem verified_swap_stuck (c : Chain) (order : SwapOrder) (now clock paid : Z) (t : VerifiedSwapFunding)
    (p : VtrClaimParams) (q : VtrRefundParams) (tx : Transaction) (m : Mempool) :
  verify_vtr_swap_funding c order now = Ok t -> vtr_amount order < VTR_HTLC_FEE_SATOSHIS + 546 ->
  cp_vtr_amount p = vtr_amount order -> rp_vtr_amount q = vtr_amount order -> build_vtr_htlc_claim p = Ok tx ->
  (exists e, add_transaction_with_fee clock tx paid m = (m, Err e)) /\
  build_vtr_htlc_refund q = Err (Refused "Refund fee leaves a dust or missing output").
Proof.
  intros Hv Ha Hpa Hqa E. apply verify_funding_Ok in Hv as (lock & taker & fid & s & u & V).
  pose proof (vd_amount _ _ _ _ _ _ _ _ _ V) as Hmin. split.
  - unfold build_vtr_htlc_claim, swap_error, sign_error in E.
    destruct (with_expiry _ _ _ _ _) as [h| |] eqn:Eh; cbn [map_err rbind] in E; try done.
    assert (amount h = vtr_amount order) as Hh by (rewrite <- Hpa; unfold with_expiry in Eh; by repeat case_match; simplify_eq).
    unfold build_claim_tx_unsigned in E. destruct (bytes_eqb _ _); cbn [negb] in E; [|done].
    unfold p2pkh_script, address_to_hash160 in E. destruct (Address.parse (recipient h)) as [a| |] eqn:Ep; try done.
    cbn [mbind option_bind ok_or rbind map_err] in E. destruct (build_script h) as [s'| |]; cbn [map_err rbind] in E; try done.
    destruct (Wallet.sign_input_over_subscript _ _ _ _) as [[sig pk]| |]; cbn [map_err rbind] in E; try done.
    injection E as <-. eapply dust_refused; [done|left|cbn [value]|].
    + rewrite Hh. unfold sat_sub, Mempool.DUST_SATOSHIS. lia.
    + by apply (script_for_spendable (addr_hash a)); eapply parse_hash_len.
  - unfold build_vtr_htlc_refund, build_vtr_refund_with_fee, checked_sub. rewrite Hqa.
    rewrite (proj2 (Z.leb_le _ _)), (proj2 (Z.ltb_lt _ _)) by lia. done.
Qed.

(** ** Replacing a refund *)

(** The swap with one more replacement, as the handler of the request records it. *)
Definition add_replacement (r : VtrRefundReplacement) (s : SwapState) : SwapState :=
  mkSwapState (ss_order_id s) (ss_hash_lock s) (ss_preimage s) (vtr_funding_txid s) (btc_funding_txid s)
    (ss_maker_btc_address s) (taker_btc_refund_address s) (btc_amount s) (btc_expiry s) (vtr_claim_txid s)
    (btc_claim_txid s) (vtr_refund_txid s) (btc_refund_txid s) (btc_refund_raw s) (btc_funding_raw s)
    (btc_claim_raw s) (btc_claim_replacements s) (vtr_funding_tx s) (vtr_claim_tx s) (vtr_refund_tx s)
    (vtr_observation s) (btc_observation s) (vec_push (vtr_refund_replacements s) r) (ss_status s).

Definition refund_of_order (order : SwapOrder) (swap : SwapState) (taker fid wif : bytes) : VtrRefundParams :=
  mkRefundParams (ss_hash_lock swap) taker (maker_address order) (order_expiry order) (vtr_amount order) fid wif.

Lemma checked_replacements_last h funding order rs r s0 s :
  rfold (check_refund h funding order) s0 (vec_push rs r) = Ok s -> s = (txid (rr_transaction r), rr_total_fee_satoshis r).
Proof.
  unfold vec_push. rewrite rfold_app. destruct (rfold _ s0 rs) as [[p f]| |]; cbn [rbind rfold]; try done.
  destruct (check_refund _ _ _ _ r) as [s1| |] eqn:E; cbn [rbind]; try done. intros [= <-].
  by apply check_refund_Ok in E as [_ ->].
Qed.

(** What the service builds with a fee is the replacement with that fee. *)
Lemma service_replacement h order swap taker fid wif key fee p s : from_wif wif = Ok key ->
  with_expiry (ss_hash_lock swap) taker (maker_address order) (order_expiry order) (vtr_amount order) = Ok h ->
  p2pkh_script (refund_address h) = Some p -> build_script h = Ok s -> 546 <= vtr_amount order - fee -> 
  exists sg, sg <> [] /\ build_vtr_htlc_refund_replacement (refund_of_order order swap taker fid wif) fee =
    Ok (replacement_tx h fid p sg fee).
Proof.
  intros Hw Eh Ep Es Hv. unfold build_vtr_htlc_refund_replacement, build_vtr_refund_with_fee, refund_of_order, swap_error, sign_error.
  cbn [rp_hash_lock rp_taker_address rp_maker_address rp_expiry rp_vtr_amount rp_funding_txid rp_maker_wif].
  unfold checked_sub. rewrite (proj2 (Z.leb_le _ _)), (proj2 (Z.ltb_ge _ _)) by lia. rewrite Eh. cbn [map_err rbind].
  unfold build_refund_tx_unsigned. rewrite Ep. cbn [ok_or map_err rbind]. 
  unfold set_replaceable. cbn [inputs]. change (vec_get [_] 0) with (@Ok PolicyError TxInput (mkTxInput fid 0 [] (u32_max - 1))).
  cbn [rbind]. rewrite Es. cbn [map_err rbind]. rewrite (sign_over _ _ _ key Hw). cbn [map_err rbind].
  eexists. split; [|reflexivity]. done.
Qed.

Lemma with_expiry_scripts lock taker maker e v h : with_expiry lock taker maker e v = Ok h ->
  exists p s, p2pkh_script (refund_address h) = Some p /\ build_script h = Ok s.
Proof.
  unfold with_expiry, validate_p2pkh. destruct (v =? 0); [done|].
  destruct (Address.parse taker) as [a| |] eqn:Ea; try done. destruct (Address.parse maker) as [b| |] eqn:Eb;
    cbn [rbind]; repeat case_match; try done; intros [= <-].
  unfold p2pkh_script, build_script, address_to_hash160. cbn [recipient refund_address]. rewrite Ea, Eb. by eexists _, _.
Qed.

Lemma replacement_checked h fid order parent fee r p sg : p2pkh_script (refund_address h) = Some p -> sg <> [] ->
  rr_replaces_txid r = parent -> fee < rr_total_fee_satoshis r -> order_expiry order <= rr_approved_at r ->
  546 <= vtr_amount order - rr_total_fee_satoshis r ->
  rr_transaction r = replacement_tx h fid p sg (rr_total_fee_satoshis r) ->
  check_refund h fid order (parent, fee) r = Ok (txid (rr_transaction r), rr_total_fee_satoshis r).
Proof.
  intros Ep Hsg Hpar Hfee Ht Hv Htx. unfold check_refund. rewrite Hpar, bytes_eqb_refl. unfold checked_sub.
  rewrite (proj2 (Z.leb_gt _ fee)), (proj2 (Z.ltb_ge _ _)) by lia. rewrite (proj2 (Z.leb_le _ _)), (proj2 (Z.ltb_ge _ _)) by lia.
  rewrite Htx at 1. change (zlen (inputs (replacement_tx _ _ _ _ _)) =? 1) with true. cbn [negb orb].
  assert (vec_get (inputs (rr_transaction r)) 0 = @Ok LineageError _ (mkTxInput fid 0 sg (u32_max - 2))) as -> by by rewrite Htx.
  cbn [rbind script_sig]. destruct sg as [|x sg]; [done|]. rewrite zlen_cons. pose proof (zlen_nonneg sg).
  rewrite (proj2 (Z.eqb_neq _ _)) by lia. unfold build_refund_tx_unsigned. rewrite Ep. cbn [ok_or map_err rbind].
  change (vec_get (inputs _) 0) with (@Ok LineageError _ (mkTxInput fid 0 [] (u32_max - 1))). cbn [rbind].
  rewrite Htx at 1. change (txid (mkTx _ _ _ _ _ _ _)) with (txid (replacement_tx h fid p (x :: sg) (rr_total_fee_satoshis r))).
  by rewrite bytes_eqb_refl.
Qed.

Lemma prefix_push rs r : is_prefix rs (vec_push rs r) = true.
Proof.
  unfold is_prefix, vec_push. rewrite zlen_app. pose proof (zlen_nonneg [r]). rewrite (proj2 (Z.leb_le _ _)) by lia. cbn [andb].
  induction rs as [|x rs IH]; [done|]. cbn. rewrite IH. unfold same_replacement. by rewrite !bytes_eqb_refl, !Z.eqb_refl.
Qed.

(** a refund can be replaced again and again.  After at least one and fewer than
    sixteen replacements, a refund that the wallet service builds with a higher fee, once
    the contract has expired, extends the chain to another valid one, of which the old
    chain is a prefix. *)
Theorem refund_replacement_extends (order : SwapOrder) (swap : SwapState) (rs : list VtrRefundReplacement)
    (r : VtrRefundReplacement) (taker fid wif : bytes) (key : PrivateKey) (fee now : Z) :
  validate order swap = Ok tt -> vtr_refund_replacements swap = vec_push rs r -> zlen rs + 1 < MAX_REPLACEMENTS ->
  taker_address order = Some taker -> vtr_funding_txid swap = Some fid -> from_wif wif = Ok key ->
  rr_total_fee_satoshis r < fee -> 546 <= vtr_amount order - fee -> order_expiry order <= now ->
  exists tx, build_vtr_htlc_refund_replacement (refund_of_order order swap taker fid wif) fee = Ok tx /\
    let r' := mkRefundReplacement (txid (rr_transaction r)) fee now tx in
    validate order (add_replacement r' swap) = Ok tt /\
    is_prefix (vtr_refund_replacements swap) (vtr_refund_replacements (add_replacement r' swap)) = true.
Proof.
  intros E Hrs Hlen Ht Hf Hw Hfee Hv Hnow. unfold validate in E. rewrite Hrs, Ht, Hf in E.
  assert (zlen (vec_push rs r) = zlen rs + 1) as Hz by (unfold vec_push; by rewrite zlen_app).
  pose proof (zlen_nonneg rs). rewrite Hz in E. rewrite (proj2 (Z.eqb_neq _ _)), (proj2 (Z.ltb_ge _ _)) in E by lia.
  destruct (vtr_refund_tx swap) as [original|] eqn:Eo; cbn [ok_or rbind] in E; [|done].
  destruct (_ || _ || _ || _ || _ || _) eqn:G in E; [done|].
  destruct (with_expiry _ _ _ _ _) as [h| |] eqn:Eh; cbn [map_err rbind] in E; try done.
  destruct (vec_get (outputs original) 0) as [o| |] eqn:Ev; cbn [rbind] in E; try done.
  destruct (checked_sub _ (value o)) as [fee0|] eqn:Ec; cbn [ok_or rbind] in E; [|done].
  destruct (rfold _ _ _) as [s0| |] eqn:Ef in E; cbn [rbind] in E; try done.
  pose proof (checked_replacements_last _ _ _ _ _ _ _ Ef) as ->.
  destruct (with_expiry_scripts _ _ _ _ _ _ Eh) as (p & s & Ep & Es).
  destruct (service_replacement h order swap taker fid wif key fee p s Hw Eh Ep Es Hv) as (sg & Hsg & Eb).
  eexists. split; [exact Eb|]. intros r'. split.
  - unfold validate. cbn [add_replacement vtr_refund_replacements vtr_refund_tx vtr_funding_txid ss_order_id ss_hash_lock vtr_refund_txid].
    rewrite Hrs, Ht, Hf, Eo. change (vec_push (vec_push rs r) r') with (vec_push rs r ++ [r']). rewrite zlen_app, Hz.
    change (zlen [r']) with 1. rewrite (proj2 (Z.eqb_neq _ _)), (proj2 (Z.ltb_ge _ _)) by lia. cbn [ok_or rbind].
    rewrite G, Eh. cbn [map_err rbind]. rewrite Ev. cbn [rbind]. rewrite Ec. cbn [ok_or rbind]. rewrite rfold_app, Ef. cbn [rbind rfold].
    by rewrite (replacement_checked h fid order _ _ r' p sg).
  - apply prefix_push.
Qed.

End policy.
