(* ===== verification/SwapWitness.v ===== *)
(** * Swaps: concrete instances

    A swap between two keys, its contract, and chains on which it is funded and claimed, on
    which the properties of [SwapFacts], [SettlementFacts] and [SwapPolicyFacts] are applied. *)

From stdpp Require Import base list gmap strings.
From Stdlib Require Import ZArith Lia.
From S2P Require Import Prelude Script Crypto Engine Standard Merkle Codec Block Address Consensus.
From S2P Require Import Deployments Governance Ledger Supply Chain Mempool Pool Wallet WalletFacts Payment PaymentWitness.
From S2P Require Import Swap SwapFacts Settlement SettlementFacts SwapPolicy SwapPolicyFacts.
Import Scripts Swaps Settlement SwapPolicy.

Module SwapWitness.
#[local] Existing Instances bincode_layout bincode_layout_laws any_order any_order_laws.
#[local] Existing Instances PaymentWitness.padded PaymentWitness.padded_laws PaymentWitness.padded_base58.
#[local] Existing Instances PaymentWitness.signer PaymentWitness.signer_laws PaymentWitness.no_legacy.

Definition maker : PrivateKey := PaymentWitness.key0.
Definition taker : PrivateKey := mkPrivateKey (repeat 6 32) true.
Definition maker_wif : bytes := to_wif maker 198.
Definition taker_wif : bytes := to_wif taker 198.

Definition secret : bytes := repeat 11 32.
Definition contract : Htlc :=
  mkHtlc (sha256 secret) (key_address (inner taker)) (key_address (inner maker)) 1700000000 100000 None.
Definition script : bytes := match build_script contract with Ok s => s | _ => [] end.

Definition funding : Transaction :=
  match build_funding_tx contract (repeat 1 32) 0 200000 1000 with Ok tx => tx | _ => mkTx 0 Standard [] [] 0 None None end.
Definition fid : bytes := txid funding.
Definition locked : Utxo := mkUtxo fid 0 100000 script 1 1000.

(** The chain on which the contract is funded. *)
Definition funded_chain : Chain :=
  set_ledger (mkLedger {[ (fid, 0) : OutPoint := locked ]} ∅ 100000 0 default_params gov_new) (mkTree []) empty_chain.

Lemma funded_utxo : utxo_set (state (main funded_chain)) !! ((fid, 0) : OutPoint) = Some locked.
Proof. apply lookup_singleton_eq. Qed.

Lemma script_eq : build_script contract = Ok script.
Proof. by vm_compute. Qed.

Definition or_funding {E} (r : res E Transaction) : Transaction := match r with Ok tx => tx | _ => funding end.

(** The claim, step by step. *)
Definition unsigned1 : Transaction := or_funding (build_claim_tx_unsigned contract fid secret 2000).
Definition signed1 : bytes * bytes :=
  match Wallet.sign_input_over_subscript unsigned1 0 script taker_wif with Ok p => p | _ => ([], []) end.
Definition claim1 : Transaction := or_funding (build_claim_tx contract fid secret signed1.2 signed1.1 2000).

Lemma can_take1 : can_take claim1 2000 PaymentWitness.pool0.
Proof.
  split; [apply PaymentWitness.pool0_ok|intros k _; apply lookup_empty|by apply Z.leb_le; vm_compute|].
  split; [by apply Z.ltb_lt; vm_compute|by apply Z.leb_le; vm_compute].
Qed.


Lemma swap_contract_spend_witness :
  is_ok (execute (Engine.new (input_env funding (mkTxInput fid 0 [] 0) locked 9 1600000000)) [0x51] script) = true <->
  exists e c e1, run (Engine.new (input_env funding (mkTxInput fid 0 [] 0) locked 9 1600000000)) [0x51] = Ok e /\ pop e = Ok (c, e1) /\
    if is_true c
    then exists preimage e2 st, pop e1 = Ok (preimage, e2) /\ zlen preimage = 32 /\
           sha256 preimage = hash_lock contract /\ unlocks (Core.hash160 (public_key (inner taker))) e2 st
    else locktime_passed (input_env funding (mkTxInput fid 0 [] 0) locked 9 1600000000) (expiry contract) /\
         exists st, unlocks (Core.hash160 (public_key (inner maker))) e1 st.
Proof.
  apply (swap_contract_spend _ [0x51] script contract (mkAddress (Core.hash160 (public_key (inner taker))) 70)
    (mkAddress (Core.hash160 (public_key (inner maker))) 70)); try (by apply is_bytes_check); try (by vm_compute).
Defined.

Lemma swap_funding_exact_witness :
  match build_funding_tx contract (repeat 1 32) 0 200000 1000 with
  | Ok tx => exists s rest, build_script contract = Ok s /\ outputs tx = mkTxOutput 100000 s :: rest /\
      200000 = zsum (map value (outputs tx)) + 1000
  | _ => False
  end.
Proof.
  pose proof (swap_funding_exact contract (repeat 1 32) 0 200000 1000 ltac:(done) ltac:(done) ltac:(done)) as Hf.
  assert (is_ok (build_funding_tx contract (repeat 1 32) 0 200000 1000) = true) as Hok by by vm_compute.
  destruct (build_funding_tx contract (repeat 1 32) 0 200000 1000) as [tx| |]; [|discriminate Hok|discriminate Hok].
  destruct Hf as (s & rest & H1 & H2 & _ & H3 & _). exists s, rest. exact (conj H1 (conj H2 H3)).
Defined.

(** One hundred satoshis are left over. *)
Lemma swap_funding_dust_refused_witness :
  exists e, add_transaction_with_fee 5 (match build_funding_tx contract (repeat 1 32) 0 101100 1000 with Ok tx => tx | _ => funding end)
    1000 PaymentWitness.pool0 = (PaymentWitness.pool0, Err e).
Proof.
  apply (swap_funding_dust_refused contract (repeat 1 32) 0 101100 1000 _ (mkAddress (Core.hash160 (public_key (inner maker))) 70));
    try done; by vm_compute.
Defined.

Lemma odd_claim_missed_witness :
  let sig := signature (inner taker) (sighash (claim_tx contract fid secret 500 (inner taker) []) 0 script) in
  let tx := claim_tx contract fid secret 500 (inner taker) (odd_claim_sig sig (public_key (inner taker)) secret) in
  is_ok (verify_tx_scripts funded_chain tx 9 1600000000) = true /\ claim_preimage_matches tx fid (hash_lock contract) = false.
Proof.
  refine (proj2 (odd_claim_missed contract funded_chain script fid secret locked (inner taker) (inner maker) 500 9 1600000000
    _ eq_refl eq_refl _ _ eq_refl _ script_eq funded_utxo eq_refl)).
  - by vm_compute.
  - by apply is_bytes_check.
  - by vm_compute.
  - by split.
Defined.

(** The funding and the claim are in the first two of seven blocks; the bodies of the other five are pruned. *)
Definition order0 : SwapOrder :=
  mkOrder (repeat 1 32) (key_address (inner maker)) None 100000 [66] 7 (Some (sha256 secret)) (Some fid)
    (Some (key_address (inner taker))) None 1700000000 1600000000 InProgress.
Definition swap0 : SwapState :=
  mkSwapState (repeat 1 32) (sha256 secret) None (Some fid) None None None 0 0 None None None None None None None [] None None
    None None None [] VtrFunded.

Definition claim0 : Transaction :=
  claim_tx contract fid secret 500 (inner taker) (claim_script_sig (repeat 3 71) (public_key (inner taker)) secret).
Definition block0 (n : Z) (tx : Transaction) : Block := mkBlock (mkHeader 1 (repeat n 32) [] [] 1000 0 0 0) [tx].
Definition claimed_chain : Chain :=
  let h1 := block_hash (block0 1 funding) in
  let h2 := block_hash (block0 2 claim0) in
  mkChain (mkKnown {[ h1 := block0 1 funding; h2 := block0 2 claim0 ]} ∅ ∅ ∅ {[ h1 := 0; h2 := 1 ]})
    (mkMain (mkLedger ∅ ∅ 0 0 default_params gov_new) [h1; h2; [2]; [3]; [4]; [5]; [6]]
       {[ fid := (h1, 0%nat); txid claim0 := (h2, 0%nat) ]} [])
    (mkTree []) (mkConfig usize_max None 100 false None None).

Lemma claimed_indexed : Indexed claimed_chain.
Proof.
  intros h b tx Hb Htx.
  assert (b = block0 1 funding \/ b = block0 2 claim0) as Hc.
  { unfold get_block_at_height in Hb. apply bind_Some in Hb as (hash & _ & Hb). cbn [known blocks claimed_chain] in Hb.
    apply lookup_insert_Some in Hb as [[_ <-]|[_ Hb]]; [by left|]. apply lookup_singleton_Some in Hb as [_ <-]. by right. }
  destruct Hc as [-> | ->]; apply list_elem_of_singleton in Htx as ->.
  - exists (block_hash (block0 1 funding)), 0. by vm_compute.
  - exists (block_hash (block0 2 claim0)), 1. by vm_compute.
Qed.

Lemma settlement_backed_witness :
  exists obs, observe_vtr claimed_chain PaymentWitness.pool0 order0 swap0 = Ok obs /\ vo_state obs = VClaimed /\
    exists f, vtr_funding_txid swap0 = Some f /\ settled_on_chain claimed_chain order0 swap0 f true.
Proof.
  set (o := match observe_vtr claimed_chain PaymentWitness.pool0 order0 swap0 with
            | Ok o => o | _ => mkObservation [] 0 NotFunded None None None 0 end).
  assert (observe_vtr claimed_chain PaymentWitness.pool0 order0 swap0 = Ok o) as E by by vm_compute.
  assert (vo_state o = VClaimed) as Es by by vm_compute.
  pose proof (settlement_backed claimed_chain PaymentWitness.pool0 order0 swap0 o claimed_indexed E) as Hb.
  rewrite Es in Hb. exists o. exact (conj E (conj Es Hb)).
Defined.

(** A refund that was replaced twice. *)
Definition refund0 (fee : Z) : Transaction :=
  replacement_tx contract fid (Wallet.script_for (Core.hash160 (public_key (inner maker)))) [1; 2; 3] fee.
Definition replacement0 (old fee : Z) : VtrRefundReplacement :=
  mkRefundReplacement (txid (refund0 old)) fee 1700000001 (refund0 fee).
Definition refunded0 : SwapState :=
  mkSwapState (repeat 1 32) (sha256 secret) None (Some fid) None None None 0 0 None None (Some (txid (refund0 500))) None None None
    None [] (Some funding) None (Some (refund0 500)) None None [replacement0 500 800; replacement0 800 1500] Refunded.

Lemma refund_lineage_sound_witness : exists h parent fee, replacement_ok h fid order0 parent fee (replacement0 800 1500) /\
  parent = txid (refund0 800).
Proof.
  destruct (refund_lineage_sound order0 refunded0 (replacement0 800 1500) 1) as (_ & _ & o & f & t & h & p & fee & _ & Hf & _ & _ & H2 & H3).
  - by vm_compute.
  - reflexivity.
  - injection Hf as <-. exists h, p, fee. exact (conj H2 H3).
Defined.

Lemma refund_replacement_extends_witness :
  exists tx, build_vtr_htlc_refund_replacement (refund_of_order order0 refunded0 (key_address (inner taker)) fid maker_wif) 3000 = Ok tx /\
    validate order0 (add_replacement (mkRefundReplacement (txid (refund0 1500)) 3000 1700000009 tx) refunded0) = Ok tt.
Proof.
  destruct (refund_replacement_extends order0 refunded0 [replacement0 500 800] (replacement0 800 1500) (key_address (inner taker)) fid
    maker_wif maker 3000 1700000009) as (tx & H1 & H2 & _).
  - by vm_compute.
  - reflexivity.
  - done.
  - reflexivity.
  - reflexivity.
  - by vm_compute.
  - done.
  - done.
  - done.
  - exists tx. exact (conj H1 H2).
Defined.

(** A funded order, deep enough to be verified. *)
Definition order1 (n : Z) : SwapOrder :=
  mkOrder (repeat 1 32) (key_address (inner maker)) (Some [98]) n [66; 84; 67] 5000 (Some (sha256 secret)) (Some fid)
    (Some (key_address (inner taker))) None 1700000000 1600000000 InProgress.
Definition deep_chain (n : Z) : Chain :=
  mkChain (known empty_chain)
    (mkMain (mkLedger {[ (fid, 0) : OutPoint := mkUtxo fid 0 n script 1 1000 ]} ∅ n 0 default_params gov_new)
       [[0]; [1]; [2]; [3]; [4]; [5]; [6]] ∅ [])
    (mkTree []) (config empty_chain).
Definition terms : VerifiedSwapFunding :=
  mkVerified (hex_encode (repeat 1 32)) (sha256 secret) [98] 5000 (1700000000 - 6 * 3600).


Lemma verified_swap_stuck_witness : exists tx e,
  build_vtr_htlc_claim (claim_of_order (order1 10100) (key_address (inner taker)) fid secret taker_wif) = Ok tx /\
  add_transaction_with_fee 5 tx 10000 PaymentWitness.pool0 = (PaymentWitness.pool0, Err e) /\
  build_vtr_htlc_refund (refund_of_order (order1 10100) swap0 (key_address (inner taker)) fid maker_wif) =
    Err (Refused "Refund fee leaves a dust or missing output").
Proof.
  set (tx := match build_vtr_htlc_claim (claim_of_order (order1 10100) (key_address (inner taker)) fid secret taker_wif) with
             | Ok tx => tx | _ => funding end).
  assert (build_vtr_htlc_claim (claim_of_order (order1 10100) (key_address (inner taker)) fid secret taker_wif) = Ok tx) as E
    by by vm_compute.
  destruct (verified_swap_stuck (deep_chain 10100) (order1 10100) 1699900000 5 10000 terms
    (claim_of_order (order1 10100) (key_address (inner taker)) fid secret taker_wif)
    (refund_of_order (order1 10100) swap0 (key_address (inner taker)) fid maker_wif) tx PaymentWitness.pool0) as [[e He] Hr];
    [by vm_compute|done|reflexivity|reflexivity|exact E|].
  exists tx, e. exact (conj E (conj He Hr)).
Defined.

End SwapWitness.
